(* ===== verification/_CoqProject ===== *)
-Q . S2P
Prelude.v
RustStd.v
TextLemmas.v
Model.v
Agent.v
UrConfig.v
ConfigProps.v
Env.v
TicketDb.v
TicketGraph.v
TicketRepo.v
TicketTransfer.v
TicketQueries.v
TicketUpdates.v
WorkflowDb.v
WorkflowRepo.v
WorkerRepo.v
WorkflowInvariant.v
WorkflowProps.v
WorkerProps.v
Context.v
Coordinator.v
CoordinatorProps.v
CoordinatorLiveness.v
CoordinatorTasks.v
Host.v
Upkeep.v
Backends.v
HandlerLib.v
WorkHandlers.v
DeliveryHandlers.v
TestWorld.v
HandlerRules.v
HandlerProps.v
DeliveryProps.v
WorkProps.v
GithubPoller.v
PollerProps.v
TicketService.v
ServiceProps.v
IssueProps.v
Pool.v
PoolProps.v
WorkerModes.v
RunOpts.v
WorkerManager.v
WorkerManagerProps.v
LaunchService.v
LaunchProps.v
SignalProps.v
HostExec.v
Overlay.v
BuilderPool.v
TestGit.v
OverlayProps.v
BuilderPoolProps.v
BuilderExec.v
Containers.v
UiModel.v
UiState.v
UiKeys.v
CreateTicket.v
UiPages.v
UiHandlers.v
UiOverlay.v
UiUpdate.v
UiProps.v
UiSession.v
CmdRunner.v
CmdRunnerProps.v
UiEvents.v
DreamConfig.v
DreamFiles.v
DreamRefs.v
DreamReview.v
DreamReport.v
DreamProps.v
Tmux.v
WorkerDaemon.v
WorkerDaemonProps.v
