(* ===== verification/Prelude.v ===== *)
(** * A verification library for the ur server

    The server of this repository keeps two databases, the tickets and the
    workflows that work on them, and drives each workflow through its statuses:
    a coordinator takes requests for transitions and runs the handler of the
    status, the handlers put a worker to work, run its checks, push its branch and
    merge its pull request, and ask for the next transition.  This development is
    a shallow embedding of that core, [src/crates/ticket_db], [workflow_db],
    [server/src/workflow], [local_repo] and [remote_repo], of the configuration
    that drives it ([ur_config]), of the worker manager with its pool of
    repository slots ([server/src/pool.rs], [worker.rs]), of the worker gRPC service
    ([grpc.rs]) and the execution of host commands ([hostexec],
    [grpc_hostexec.rs]), of the builder daemon that runs commands, slots and
    containers on the host ([builderd], [container]), of the daemon beside the agent in a
    worker's container ([workerd], [tmux]), of the terminal interface
    ([urui]) up to the server it talks to, of the events that reach it from the
    databases ([db_events]), of logs, backups and retries ([ur_utils],
    [ur_config/src/backup.rs]), and of the maintenance of a brain's documents
    ([ur/src/dream]), with theorems about it.

    ** How the code is modelled

    Every stateful function is a computation [SE S E A], from a state to a result
    and a state (this file): an [async fn] that returns [Result] is such a
    computation, its [?] the bind, its early returns branches.  A database pool
    ([pool], this file) has tables, an oracle of failures that lets any statement
    fail, and a counter of draws from the clock and the random sources; so the
    theorems about repositories hold for every pattern of failures, unless they say
    that none occurs.  A row is a record, a table a [gmap] under its primary key,
    and a statement a function of the tables that checks the constraints the
    migration declares.  An integer column is a [Z] kept in its width by the
    operations that change it.  Where a component runs inside a larger state, a
    [Lens] takes it there.

    What is not code of the repository is a parameter: clock, UUIDs and random
    digits ([Env.Env]), the graph library ([TicketGraph.PetGraph]), and the builder
    daemon, the worker daemons, the file system and the JSON parser ([Host.Host]),
    the file system and git commands of the pool ([Pool.PoolHost]), the container
    daemon ([RunOpts.WorkerHost]), the lengths of files
    and the order of joined tasks ([LaunchService.LaunchHost],
    [LaunchService.JoinOrder]), the Lua interpreter and the scripts of host commands
    ([HostExec.LuaVm], [HostExec.ScriptFiles], [HostExec.ExecHost]), git, the processes
    and the container command of the builder daemon ([Overlay.GitTool],
    [BuilderPool.PoolTools], [BuilderExec.Spawner], [BuilderExec.ChildProcess],
    [Containers.ContainerCli]), the order of hash sets in the terminal interface
    ([UiState.UiEnv]) and the network between it and the server ([CmdRunner.Network]),
    the file system and clock of logs and backups ([Upkeep.FileSystem],
    [Upkeep.Postgres]), tmux and the screen of an agent ([Tmux.Tmux], [Tmux.AgentPane]),
    and for the brain regular expressions, globs, dates, TOML, git and the checks
    ([DreamConfig.RegexCrate], [GlobCrate], [DateCrate], [TomlCrate], [DreamHost]).
    Each has laws where the code relies on some, and a concrete instance on which
    the theorems' witnesses run ([Env.test_env], [TestWorld.test_host]).

    ** The files

    - [Prelude] (here): the monad, pools, triples, lenses, [ORDER BY].
    - [RustStd]: the string, number and path functions of the Rust library used;
      [TextLemmas]: the lemmas on texts the components share.
    - [Model]: [ticket_db/src/model.rs] and the enums and constants of
      [workflow_db] and [ur_rpc].  [Env]: the outside sources.
    - [TicketDb]: the schema of [ticket_db/migrations] and its constraints;
      [TicketRepo]: [ticket_repo.rs], every operation; [TicketGraph]: [graph.rs];
      [TicketTransfer]: export and import.
    - [WorkflowDb], [WorkflowRepo], [WorkerRepo]: the schema and the repositories of
      [workflow_db].
    - [Context], [Coordinator]: [server/src/workflow/mod.rs], [coordinator.rs] and
      [engine.rs].  A handler task exists twice: as one function, [run_handler], and
      cut at its awaits into phases, which the coordinator's step relation
      interleaves; [CoordinatorProps] shows that both are the same.
    - [Host], [Backends]: [ur_rpc/src/stream.rs], [local_repo], [remote_repo].
    - [HandlerLib], [WorkHandlers], [DeliveryHandlers]: the handlers of
      [server/src/workflow/handlers] with what they share ([worker_label.rs],
      [workerd_client.rs], [workerd_address.rs], [hook_log.rs]).
    - [GithubPoller]: [server/src/workflow/github_poller.rs], one poll.
    - [TicketService]: [grpc_ticket.rs], the unary calls of the ticket service on the
      server's context and coordinator channel, and [ticket_client.rs], the issue tickets
      that a failed step files.
    - [Agent], [UrConfig]: [ur_config], from the decoded TOML values to the
      resolved configuration, with its checks.
    - [Pool]: [pool.rs], [strategy.rs] and
      [builder_pool_client.rs], the slots, their claims in memory and the launches
      that hold them.
    - [WorkerModes]: [worker_modes.rs], the modes a worker may be launched in.
    - [RunOpts], [WorkerManager]: [run_opts_builder.rs], [worker.rs],
      [network_manager.rs] and [builder_container_client.rs].
    - [LaunchService]: [grpc.rs], [launch_runtime.rs] and [auth.rs], the launch of a
      worker from the request to the registered container, the signals of a worker,
      and the check of its headers.
    - [HostExec]: [hostexec] and [grpc_hostexec.rs], the commands and scripts a worker
      may run on the host, the transformation of their arguments, the mapping of
      directories, and the call of the builder daemon.
    - [Overlay], [BuilderPool], [BuilderExec], [Containers]: [builderd/src], in this
      order the files of a project laid over a slot and hidden from commands, the slots
      on disk, the processes a request starts or reconnects to, and the containers of
      workers ([container/src]).  [TestGit] is a small git for the witnesses.
    - [UiModel], [UiState], [UiKeys], [UiPages], [UiHandlers], [UiOverlay],
      [UiUpdate]: [urui/src], a model and messages; the operations of its parts; what a
      key means where; navigation; the handlers of the pages, of the server's events
      and of the overlays; and [update], which calls itself through them.
      [CreateTicket]: [create_ticket.rs], a ticket as a text for an editor.
      [CmdRunner]: [cmd_runner.rs], the commands of [update] as tasks that call the
      modelled ticket and worker services and answer with messages.
    - [Tmux], [WorkerDaemon]: [tmux/src/lib.rs], and of [workerd/src] the gRPC service, the
      jobs its requests leave, and the watcher that ends the container.
    - [UiEvents]: [db_events/src/lib.rs] and [server/src/ui_event_poller.rs], the rows of
      the triggers on their way from a commit to the messages of the terminals.
    - [Upkeep]: [ur_utils/src/logging.rs], [server/src/log_cleanup.rs], the backups
      ([ur_config/src/backup.rs], [server/src/backup.rs], [snapshot.rs]) and both retries.
    - [DreamConfig], [DreamFiles], [DreamRefs], [DreamReview], [DreamReport]:
      [ur/src/dream], in this order the configuration, the documents and their lint, the
      references of streams with their checks and what may be promoted, the reviews and
      their schedule, and the reports with the verification of the edits they propose.
    - [TestWorld]: a concrete world and small databases for the witnesses.

    ** What the theorems show

    - Invariants: any sequence of operations, with any failures, keeps the constraints of
      the workflow database, and what no constraint says ([WorkflowInvariant],
      [WorkflowProps]); finished workflows never change.  The operations on the ticket
      database leave keys, foreign keys and the forest of parents as its schema demands
      ([TicketRepo], [TicketTransfer]): lemmas for the other files.
    - Queries against their meaning: listings and the filter compiled to numbered
      placeholders, the recursive tree query, what may be dispatched
      ([TicketQueries]); blockers, dependents and cycles ([TicketGraph]).
    - Updates and errors: identifiers and their retries, updates, closing an epic,
      moving a ticket to another project ([TicketUpdates]); export and import
      ([TicketTransfer]); slots and reconciliation ([WorkerProps]).
    - The coordinator: one handler per ticket and the latest request wins, and the
      schedules in which they fail ([CoordinatorProps]); what a
      handler task and the polling engine do ([CoordinatorTasks]).
    - The handlers: the graph of the transitions they ask for ([HandlerProps]), the
      bound on implementing cycles and the verdict of verification ([WorkProps]), the
      gate before a merge, pushes to protected branches and branch patterns
      ([DeliveryProps]).  [HandlerRules] has the triples they share.
    - The poller: what a poll may ask for, and the verdict on the checks of a pull
      request ([PollerProps]).
    - The ticket service: dispatch and cancellation, one active workflow per ticket,
      and the schedule in which two dispatches overlap ([ServiceProps]); an issue
      ticket is filed once ([IssueProps]).  Handlers and poller are proved against
      the class [HandlerLib.LawfulServices]; [IssueProps.ticket_services_lawful]
      discharges it with the ticket client.

    - Configuration and modes: a configuration that loads is one the server can use
      ([ConfigProps]), and what a requested mode resolves to ([WorkerModes]).
    - Fair executions: in every fair run of the coordinator a request that is received
      gets its handler ([CoordinatorLiveness]).
    - The pool refines a table of locks, a claimed slot is held by one launch, and the
      schedule in which a stale listing hands out a claimed slot ([PoolProps]).
    - The worker manager: a launch that fails leaves no row and no container, what a
      stop undoes, and the environment a container starts with.
      [WorkerManagerProps.server_services_lawful] discharges the interface of the
      handlers with the real stop ([WorkerManagerProps]).
    - A launch holds nothing at its end and runs exactly the worker of the request
      ([LaunchProps]); the signals of a worker ask for transitions of its own ticket
      only, and who is let in ([SignalProps]).
    - Host commands: what is forwarded was permitted and was asked for once, what a
      project's workers may run, where a command runs and how a directory escapes the
      check ([HostExec]).
    - The builder daemon: while a command holds its lease nobody but the commands changes
      the slot, whose overlays were hidden at the first of them, and they come back
      ([OverlayProps]); a recycled slot tracks the remote's master, or what a fresh clone
      checks out ([BuilderPoolProps]); one process per key as long as requests do not
      overlap, leases and exit codes, and the schedules in which two requests race
      ([BuilderExec]); a launched container is healthy or gone ([Containers]).
    - The terminal interface: its calls end, and [update] is the only solution of the
      equation of the code ([UiUpdate], [UiProps]); no session panics and Ctrl+C quits ([UiSession]); nothing local is
      dispatched, events reach the tabs, notifications are sent once, and the slips of
      single pages ([UiProps]); what is written for an editor reads back
      ([CreateTicket]).  Interface and server together: every operation is answered, what
      the answer shows, what closing a ticket does from the key to the tables, and how a
      failed dispatch files a ticket twice ([CmdRunnerProps]).
    - The worker daemon: a dispatch is typed as two commands and ends in one request to the
      coordinator, in no order of events more is typed or reported than was asked for, and
      the container ends when the agent is gone ([WorkerDaemonProps]); a plain text typed
      into an agent is submitted at most once ([Tmux]).
    - Events: every event is accounted for on its way, a terminal misses none while the merge
      loop runs and writers do not overlap, and the schedules in which one is lost
      ([UiEvents]).
    - Upkeep: service logs keep their limits and the newest records, a starting service
      prunes the oldest, and what a backup leaves ([Upkeep]).
    - The brain: an edit that verifies can be applied and stays where edits may go; review
      intervals and the schedule; a stream is promoted only when all its references are
      done ([DreamProps]).

    ** Bounds

    The recursions of the code that are not structural take fuel: walks over the
    parent forest and the recursive query take one more step than there are
    tickets, enough because a walk repeats no ticket; graph searches take the number
    of nodes; string scans the length of the text.  The wait for a starting container
    takes one poll more than its timeout allows; the mutual calls of the terminal
    interface are at most five deep and [UiUpdate.update] allows six.  The theorems
    about them state that the result is returned, not only what it is.

    ** What is not modelled

    Shutdown, channel capacities and timing of the coordinator; log output; the texts of JSONL files.
    The streamed calls of the ticket service, and the decoding of TOML, which is a
    library's.  Of the builder daemon the gRPC plumbing and the build of images; of
    the terminal interface the rendering, which is a library's, and the key map.  Of the
    brain the reading and writing of [state.json] and the output.  The rest of the
    command line client prints the answers of gRPC calls; of the worker daemon the files it
    writes at its start, the migration tools and the start-up of the server are mostly I/O
    around libraries. *)

From stdpp Require Export base tactics gmap sets list strings sorting pretty.

#[export] Set Default Goal Selector "!".

(** ** [Result<A, E>] *)

Inductive result (A E : Type) : Type :=
| Ok (a : A)
| Err (e : E).
Arguments Ok {A E} a.
Arguments Err {A E} e.

#[export] Instance result_eq_dec {A E} `{EqDecision A, EqDecision E} : EqDecision (result A E).
Proof. solve_decision. Defined.

Definition is_ok {A E} (r : result A E) : bool :=
  match r with Ok _ => true | Err _ => false end.

(** The question mark operator in a function that only returns a result. *)
Notation "'let?' x ':=' r 'in' k" := (match r with Ok x => k | Err e => Err e end)
  (at level 10, x pattern, r at level 100, k at level 200, only parsing).
Definition check_that {E} (b : bool) (e : E) : result unit E := if b then Ok tt else Err e.
(** [iter.collect::<Result<Vec<_>, _>>()]: the first error. *)
Fixpoint collect_results {A E} (l : list (result A E)) : result (list A) E :=
  match l with
  | [] => Ok []
  | r :: l => let? a := r in let? rest := collect_results l in Ok (a :: rest)
  end.

Lemma collect_results_Ok {A E} (l : list (result A E)) l' :
  collect_results l = Ok l' ↔ l = Ok <$> l'.
Proof.
  revert l'. induction l as [|r l IH]; intros l'; simpl.
  { split; [by intros [= <-]|]. by destruct l'. }
  destruct r as [a|e]; [|split; [done|]; by destruct l'].
  destruct (collect_results l) as [rest|e].
  - split; [intros [= <-]; simpl; f_equal; by apply IH|].
    destruct l' as [|a' l']; [done|]. intros [= -> Hl]. by apply IH in Hl as [= ->].
  - split; [done|]. destruct l' as [|a' l']; [done|]. intros [= -> Hl]. by apply IH in Hl.
Qed.

(** ** The state-and-error monad

    [SE S E A] is a computation of Rust type [Result<A, E>] with side effects on
    a state [S].  An error does not undo the effects made before it: that is how
    an early return by the question mark operator behaves. *)

Definition SE (S E A : Type) : Type := S → result A E * S.

#[export] Instance se_ret {S E} : MRet (SE S E) := λ A a s, (Ok a, s).
#[export] Instance se_bind {S E} : MBind (SE S E) := λ A B k m s,
  match m s with
  | (Ok a, s') => k a s'
  | (Err e, s') => (Err e, s')
  end.
#[export] Instance se_fmap {S E} : FMap (SE S E) := λ A B f m s,
  match m s with
  | (Ok a, s') => (Ok (f a), s')
  | (Err e, s') => (Err e, s')
  end.

Definition throw {S E A} (e : E) : SE S E A := λ s, (Err e, s).
Definition get_state {S E} : SE S E S := λ s, (Ok s, s).
Definition gets {S E A} (f : S → A) : SE S E A := λ s, (Ok (f s), s).
Definition modify {S E} (f : S → S) : SE S E unit := λ s, (Ok tt, f s).

(** [r.map_err(f)] *)
Definition map_err {S E E' A} (f : E → E') (m : SE S E A) : SE S E' A := λ s,
  match m s with
  | (Ok a, s') => (Ok a, s')
  | (Err e, s') => (Err (f e), s')
  end.

(** [match m.await { Ok(..) => .., Err(..) => .. }]: the outcome as a value. *)
Definition attempt {S E E' A} (m : SE S E A) : SE S E' (result A E) := λ s,
  let '(r, s') := m s in (Ok r, s').

(** [let _ = m.await;] and the branches that only log an error. *)
Definition ignore_err {S E E' A} (m : SE S E A) : SE S E' unit := λ s,
  let '(_, s') := m s in (Ok tt, s').

(** [o.ok_or_else(|| e)?] *)
Definition ok_or {S E A} (o : option A) (e : E) : SE S E A :=
  match o with Some a => mret a | None => throw e end.

(** [r?] on a pure result. *)
Definition of_result {S E A} (r : result A E) : SE S E A := λ s, (r, s).

(** A [for] loop over a list, left to right, stopping at the first error. *)
Fixpoint for_each {S E A} (f : A → SE S E unit) (l : list A) : SE S E unit :=
  match l with
  | [] => mret tt
  | x :: l' => f x ;; for_each f l'
  end.

Definition when {S E} (b : bool) (m : SE S E unit) : SE S E unit :=
  if b then m else mret tt.

(** Unfolding equations: the automation rewrites with these and never unfolds
    the monad's operations themselves. *)
Section Run.
Context {S E : Type}.

Lemma run_ret {A} (a : A) (s : S) : (mret a : SE S E A) s = (Ok a, s).
Proof. reflexivity. Qed.
Lemma run_bind {A B} (m : SE S E A) (k : A → SE S E B) s :
  (m ≫= k) s = match m s with (Ok a, s') => k a s' | (Err e, s') => (Err e, s') end.
Proof. reflexivity. Qed.
Lemma run_fmap {A B} (f : A → B) (m : SE S E A) s :
  (f <$> m) s = match m s with (Ok a, s') => (Ok (f a), s') | (Err e, s') => (Err e, s') end.
Proof. reflexivity. Qed.
Lemma run_throw {A} (e : E) s : (throw e : SE S E A) s = (Err e, s).
Proof. reflexivity. Qed.
Lemma run_gets {A} (f : S → A) s : (gets f : SE S E A) s = (Ok (f s), s).
Proof. reflexivity. Qed.
Lemma run_modify (f : S → S) s : (modify f : SE S E unit) s = (Ok tt, f s).
Proof. reflexivity. Qed.
Lemma run_map_err {E' A} (f : E → E') (m : SE S E A) s :
  map_err f m s = match m s with (Ok a, s') => (Ok a, s') | (Err e, s') => (Err (f e), s') end.
Proof. reflexivity. Qed.
Lemma run_attempt {E' A} (m : SE S E A) s :
  (attempt m : SE S E' _) s = (Ok (m s).1, (m s).2).
Proof. unfold attempt. by destruct (m s). Qed.
Lemma run_ignore_err {E' A} (m : SE S E A) s :
  (ignore_err m : SE S E' _) s = (Ok tt, (m s).2).
Proof. unfold ignore_err. by destruct (m s). Qed.
Lemma run_of_result {A} (r : result A E) s : (of_result r : SE S E A) s = (r, s).
Proof. reflexivity. Qed.
Lemma run_ok_or {A} (o : option A) (e : E) s :
  (ok_or o e : SE S E A) s = (match o with Some a => Ok a | None => Err e end, s).
Proof. by destruct o. Qed.
End Run.

Create Rewrite HintDb se.
#[export] Hint Rewrite @run_ret @run_bind @run_fmap @run_throw @run_gets @run_modify
  @run_map_err @run_attempt @run_ignore_err @run_of_result @run_ok_or : se.

(** [srun] steps a computation as far as its equations allow. *)
Ltac srun := repeat first [progress autorewrite with se | progress cbn [fst snd]].
Tactic Notation "srun" "in" hyp(H) :=
  repeat first [progress autorewrite with se in H | progress cbn [fst snd] in H].

(** What a successful run was made of. *)
Lemma bind_Ok {S E A B} (m : SE S E A) (k : A → SE S E B) s b s' :
  (m ≫= k) s = (Ok b, s') → ∃ a t, m s = (Ok a, t) ∧ k a t = (Ok b, s').
Proof. rewrite run_bind. destruct (m s) as [[a|e] t]; [|done]. intros H. by exists a, t. Qed.
Lemma ret_Ok {S E A} (a b : A) (s s' : S) : (mret a : SE S E A) s = (Ok b, s') → b = a ∧ s' = s.
Proof. rewrite run_ret. by intros [= -> ->]. Qed.
Lemma attempt_Ok {S E E' A} (m : SE S E A) s r s' : (attempt m : SE S E' _) s = (Ok r, s') → m s = (r, s').
Proof. unfold attempt. destruct (m s). by intros [= -> ->]. Qed.
Lemma map_err_Ok {S E E' A} (f : E → E') (m : SE S E A) s a s' : map_err f m s = (Ok a, s') → m s = (Ok a, s').
Proof. rewrite run_map_err. destruct (m s) as [[b|e] t]; [by intros [= -> ->]|done]. Qed.

(** ** Hoare triples

    Every computation terminates, so a triple describes both outcomes: [Q] the
    successful one, [R] the failed one. *)

Definition triple {S E A} (P : S → Prop) (m : SE S E A)
    (Q : A → S → Prop) (R : E → S → Prop) : Prop :=
  ∀ s, P s → match m s with (Ok a, s') => Q a s' | (Err e, s') => R e s' end.

(** [m] keeps the invariant [I], whether it succeeds or fails. *)
Definition preserves {S E A} (I : S → Prop) (m : SE S E A) : Prop :=
  ∀ s, I s → I (m s).2.

Section Preserves.
Context {S E : Type} (I : S → Prop).

Lemma preserves_triple {A} (m : SE S E A) :
  preserves I m ↔ triple I m (λ _, I) (λ _, I).
Proof.
  unfold preserves, triple. split; intros H s Hs; specialize (H s Hs).
  - destruct (m s) as [[a|e] s']; exact H.
  - destruct (m s) as [[a|e] s']; exact H.
Qed.
Lemma preserves_ret {A} (a : A) : preserves I (mret a : SE S E A).
Proof. by intros s. Qed.
Lemma preserves_throw {A} (e : E) : preserves I (throw e : SE S E A).
Proof. by intros s. Qed.
Lemma preserves_gets {A} (f : S → A) : preserves I (gets f : SE S E A).
Proof. by intros s. Qed.
Lemma preserves_ok_or {A} (o : option A) (e : E) : preserves I (ok_or o e : SE S E A).
Proof. destruct o; by intros s. Qed.
Lemma preserves_of_result {A} (r : result A E) : preserves I (of_result r : SE S E A).
Proof. by intros s. Qed.
Lemma preserves_bind {A B} (m : SE S E A) (k : A → SE S E B) :
  preserves I m → (∀ a, preserves I (k a)) → preserves I (m ≫= k).
Proof.
  intros Hm Hk s Hs. rewrite run_bind. specialize (Hm s Hs).
  destruct (m s) as [[a|e] s']; [by apply Hk|done].
Qed.
Lemma preserves_fmap {A B} (f : A → B) (m : SE S E A) :
  preserves I m → preserves I (f <$> m).
Proof.
  intros Hm s Hs. rewrite run_fmap. specialize (Hm s Hs).
  by destruct (m s) as [[a|e] s'].
Qed.
Lemma preserves_map_err {E' A} (f : E → E') (m : SE S E A) :
  preserves I m → preserves I (map_err f m).
Proof.
  intros Hm s Hs. rewrite run_map_err. specialize (Hm s Hs).
  by destruct (m s) as [[a|e] s'].
Qed.
Lemma preserves_attempt {E' A} (m : SE S E A) :
  preserves I m → preserves I (attempt m : SE S E' _).
Proof. intros Hm s Hs. rewrite run_attempt. by apply Hm. Qed.
Lemma preserves_ignore_err {E' A} (m : SE S E A) :
  preserves I m → preserves I (ignore_err m : SE S E' _).
Proof. intros Hm s Hs. rewrite run_ignore_err. by apply Hm. Qed.
Lemma preserves_when b (m : SE S E unit) : preserves I m → preserves I (when b m).
Proof. destruct b; [done|by intros ? s]. Qed.
Lemma preserves_for_each {A} (f : A → SE S E unit) l :
  (∀ x, preserves I (f x)) → preserves I (for_each f l).
Proof.
  intros Hf. induction l as [|x l IH]; [apply preserves_ret|].
  by apply preserves_bind.
Qed.
Lemma preserves_modify (f : S → S) :
  (∀ s, I s → I (f s)) → preserves I (modify f : SE S E unit).
Proof. intros Hf s Hs. by apply Hf. Qed.
End Preserves.

Create HintDb preserves.
#[export] Hint Resolve preserves_ret preserves_throw preserves_gets preserves_ok_or
  preserves_of_result preserves_bind preserves_fmap preserves_map_err
  preserves_attempt preserves_ignore_err preserves_when preserves_for_each : preserves.

(** Proves that a composite operation keeps an invariant from the hints of the
    operations it is made of. *)
Ltac solve_preserves :=
  repeat first
    [ progress intros
    | solve [eauto 2 with preserves]
    | apply preserves_bind | apply preserves_fmap | apply preserves_map_err
    | apply preserves_attempt | apply preserves_ignore_err | apply preserves_when
    | apply preserves_for_each
    | case_match ].

(** ** Database pools

    [T] is the state of the tables.  Each statement consults the failure oracle
    [faults] first: when its head is [true] the statement fails without effect
    (a lost connection, a pool timeout), otherwise it runs.  [ticks] counts the
    draws from the outside world (clock readings, random values). *)

Inductive sqlx_error : Type :=
| RowNotFound
| Database (code : string)
| Protocol (msg : string)
| Decode (msg : string)
| Io.

#[export] Instance sqlx_error_eq_dec : EqDecision sqlx_error.
Proof. solve_decision. Defined.

(** PostgreSQL error codes. *)
Definition UNIQUE_VIOLATION : string := "23505".
Definition FOREIGN_KEY_VIOLATION : string := "23503".
Definition NUMERIC_VALUE_OUT_OF_RANGE : string := "22003".

Record pool (T : Type) : Type := Pool {
  tables : T;
  faults : list bool;
  ticks : nat
}.
Arguments Pool {T}.
Arguments tables {T}.
Arguments faults {T}.
Arguments ticks {T}.

(** A statement is atomic: on an error the tables are as before. *)
Definition statement {T A} (f : T → result (A * T) sqlx_error) : SE (pool T) sqlx_error A :=
  λ p,
    match faults p with
    | true :: fs => (Err Io, Pool (tables p) fs (ticks p))
    | fs =>
        match f (tables p) with
        | Ok (a, t) => (Ok a, Pool t (tail fs) (ticks p))
        | Err e => (Err e, Pool (tables p) (tail fs) (ticks p))
        end
    end.

Definition select {T A} (f : T → A) : SE (pool T) sqlx_error A :=
  statement (λ t, Ok (f t, t)).
Definition update_stmt {T} (f : T → T) : SE (pool T) sqlx_error unit :=
  statement (λ t, Ok (tt, f t)).

(** The next index into the external sources of values. *)
Definition tick {T E} : SE (pool T) E nat :=
  λ p, (Ok (ticks p), Pool (tables p) (faults p) (S (ticks p))).

(** [let mut tx = pool.begin()?; body; tx.commit()?]: dropping the transaction on
    an error rolls back what the body wrote. *)
Definition transaction {T E A} (conv : sqlx_error → E) (body : SE (pool T) E A) : SE (pool T) E A :=
  λ p,
    match (map_err conv (select (λ _, tt)) ;;
           a ← body;
           map_err conv (select (λ _, tt)) ;;
           mret a) p with
    | (Ok a, p') => (Ok a, p')
    | (Err e, p') => (Err e, Pool (tables p) (faults p') (ticks p'))
    end.

Section Statements.
Context {T : Type}.

Lemma run_statement {A} (f : T → result (A * T) sqlx_error) t n :
  statement f (Pool t [] n) =
    match f t with
    | Ok (a, t') => (Ok a, Pool t' [] n)
    | Err e => (Err e, Pool t [] n)
    end.
Proof. reflexivity. Qed.
Lemma run_select {A} (f : T → A) t n : select f (Pool t [] n) = (Ok (f t), Pool t [] n).
Proof. reflexivity. Qed.
Lemma run_update_stmt (f : T → T) t n : update_stmt f (Pool t [] n) = (Ok tt, Pool (f t) [] n).
Proof. reflexivity. Qed.
Lemma run_tick {E} t fs n : (tick : SE (pool T) E nat) (Pool t fs n) = (Ok n, Pool t fs (S n)).
Proof. reflexivity. Qed.

(** An invariant of the tables, read on pools. *)
Definition on_tables (I : T → Prop) : pool T → Prop := λ p, I (tables p).

Lemma preserves_statement {A} (I : T → Prop) (f : T → result (A * T) sqlx_error) :
  (∀ t a t', I t → f t = Ok (a, t') → I t') → preserves (on_tables I) (statement f).
Proof.
  intros Hf p Hp. unfold statement, on_tables in *.
  destruct (faults p) as [|[] fs]; [|done|];
    destruct (f (tables p)) as [[a t]|e] eqn:E; simpl; eauto.
Qed.
Lemma preserves_select {A} (I : T → Prop) (f : T → A) :
  preserves (on_tables I) (select f).
Proof. apply preserves_statement. intros t a t' Ht [= _ <-]. done. Qed.
Lemma preserves_update_stmt (I : T → Prop) (f : T → T) :
  (∀ t, I t → I (f t)) → preserves (on_tables I) (update_stmt f).
Proof. intros Hf. apply preserves_statement. intros t a t' Ht [= _ <-]. auto. Qed.
Lemma preserves_tick {E} (I : T → Prop) :
  preserves (on_tables I) (tick : SE (pool T) E nat).
Proof. by intros p. Qed.

Lemma preserves_transaction {E A} (I : T → Prop) conv (body : SE (pool T) E A) :
  preserves (on_tables I) body → preserves (on_tables I) (transaction conv body).
Proof.
  intros Hb p Hp. unfold transaction.
  assert (preserves (on_tables I) (map_err conv (select (λ _, tt)) ;;
    a ← body; map_err conv (select (λ _, tt)) ;; mret a)) as Hall.
  { apply preserves_bind; [apply preserves_map_err, preserves_select|intros _].
    apply preserves_bind; [done|intros a].
    apply preserves_bind; [apply preserves_map_err, preserves_select|intros _].
    apply preserves_ret. }
  specialize (Hall p Hp).
  match type of Hall with on_tables I (snd ?x) => by destruct x as [[a|e] p'] end.
Qed.
(** All or nothing: a failed transaction leaves the tables as they were. *)
Lemma transaction_atomic {E A} conv (body : SE (pool T) E A) p e p' :
  transaction conv body p = (Err e, p') → tables p' = tables p.
Proof. unfold transaction. intros. repeat case_match; by simplify_eq. Qed.

Lemma run_transaction {E A} conv (body : SE (pool T) E A) t n :
  transaction conv body (Pool t [] n) =
    match body (Pool t [] n) with
    | (Ok a, p') =>
        match map_err conv (select (λ _, tt)) p' with
        | (Ok _, p'') => (Ok a, p'')
        | (Err e, p'') => (Err e, Pool t (faults p'') (ticks p''))
        end
    | (Err e, p') => (Err e, Pool t (faults p') (ticks p'))
    end.
Proof.
  unfold transaction. rewrite run_bind, run_map_err, run_select, run_bind.
  destruct (body (Pool t [] n)) as [[a|e] p']; [|done].
  rewrite run_bind. by destruct (map_err conv _ p') as [[]].
Qed.

(** The outcomes of a select: it leaves the tables alone. *)
Lemma select_tables {A} (f : T → A) p r p' :
  select f p = (r, p') → tables p' = tables p.
Proof. unfold select, statement. intros. by repeat case_match; simplify_eq. Qed.
End Statements.

#[export] Hint Rewrite @run_statement @run_select @run_update_stmt @run_tick : se.
#[export] Hint Resolve preserves_select preserves_tick preserves_transaction : preserves.

(** ** Lenses: running a component inside its caller's state *)

Class Lens (S T : Type) : Type := {
  view : S → T;
  put : T → S → S;
  view_put : ∀ t s, view (put t s) = t;
  put_view : ∀ s, put (view s) s = s;
  put_put : ∀ t t' s, put t (put t' s) = put t s
}.

Definition zoom {S T E A} `{!Lens S T} (m : SE T E A) : SE S E A := λ s,
  let '(r, t) := m (view s) in (r, put t s).

Section Zoom.
Context {S T E : Type} `{!Lens S T}.

Lemma run_zoom {A} (m : SE T E A) s :
  zoom m s = ((m (view s)).1, put (m (view s)).2 s).
Proof. unfold zoom. by destruct (m (view s)). Qed.

(** A component's invariant is an invariant of the larger state. *)
Lemma preserves_zoom {A} (I : T → Prop) (m : SE T E A) :
  preserves I m → preserves (λ s, I (view s)) (zoom m : SE S E A).
Proof. intros Hm s Hs. rewrite run_zoom. simpl. rewrite view_put. by apply Hm. Qed.

Lemma zoom_bind {A B} (m : SE T E A) (k : A → SE T E B) s :
  (zoom (m ≫= k) : SE S E B) s = (zoom m ≫= λ a, zoom (k a)) s.
Proof.
  rewrite run_bind, !run_zoom, run_bind.
  destruct (m (view s)) as [[a|e] t]; simpl; [|done].
  by rewrite run_zoom, view_put, put_put.
Qed.
End Zoom.

(** ** ORDER BY

    Rows are sorted by a stable merge sort.  SQL leaves the order of rows with
    equal keys open; the stable order of the enumeration is one of the orders it
    allows, and the theorems about listings do not depend on which. *)

Section Order.
Context {A B : Type}.

(** [ORDER BY f], as the last key. *)
Definition le_by (f : A → B) (R : relation B) : relation A := λ x y, R (f x) (f y).

(** [ORDER BY f, ...]: ties on [f] are broken by [R']. *)
Definition le_then (f : A → B) (R : relation B) (R' : relation A) : relation A :=
  λ x y, (R (f x) (f y) ∧ f x ≠ f y) ∨ (f x = f y ∧ R' x y).

Context (f : A → B) (R : relation B) (R' : relation A).

#[export] Instance le_by_dec `{!RelDecision R} : RelDecision (le_by f R).
Proof. intros x y. unfold le_by. apply _. Defined.
#[export] Instance le_then_dec `{!EqDecision B, !RelDecision R, !RelDecision R'} :
  RelDecision (le_then f R R').
Proof. intros x y. unfold le_then. apply _. Defined.
#[export] Instance le_by_total `{!Total R} : Total (le_by f R).
Proof. intros x y. apply (total R). Qed.
#[export] Instance le_by_trans `{!Transitive R} : Transitive (le_by f R).
Proof. intros x y z. unfold le_by. by apply transitivity. Qed.
#[export] Instance le_then_total `{!EqDecision B, !Total R, !Total R'} :
  Total (le_then f R R').
Proof.
  intros x y. unfold le_then. destruct (decide (f x = f y)) as [E|NE].
  - destruct (total R' x y); [left|right]; right; eauto.
  - destruct (total R (f x) (f y)); [left|right]; left; eauto.
Qed.
#[export] Instance le_then_trans `{!Transitive R, !AntiSymm (=) R, !Transitive R'} :
  Transitive (le_then f R R').
Proof.
  intros x y z [[H1 N1]|[E1 H1]] [[H2 N2]|[E2 H2]]; unfold le_then.
  - left. split; [by trans (f y)|]. intros E. apply N1. rewrite <- E in H2.
    by apply (anti_symm R).
  - left. rewrite <- E2. eauto.
  - left. rewrite E1. eauto.
  - right. split; [by rewrite E1|by trans y].
Qed.
End Order.

Lemma elem_of_option_list {A} (o : option A) x : x ∈ option_list o ↔ o = Some x.
Proof.
  destruct o as [y|]; simpl.
  - rewrite list_elem_of_singleton. naive_solver.
  - split; [by intros ?%elem_of_nil|done].
Qed.

(** The rows of a table, and their listing in an order. *)
Definition rows {K V} `{Countable K} (m : gmap K V) : list V := (map_to_list m).*2.

Definition order_by {A} (R : relation A) `{!RelDecision R} (l : list A) : list A :=
  merge_sort R l.

Lemma StronglySorted_filter {A} (Q : relation A) (P : A → Prop) `{!∀ x, Decision (P x)} l :
  StronglySorted Q l → StronglySorted Q (filter P l).
Proof.
  induction 1 as [|x l _ IH Hx]; [constructor|]. rewrite filter_cons.
  case_decide; [|done]. constructor; [done|].
  rewrite Forall_forall in *. intros y [_ Hy]%list_elem_of_filter. by apply Hx.
Qed.

Section Rows.
Context {K V : Type} `{Countable K}.
Implicit Types (m : gmap K V) (v : V).

Lemma elem_of_rows m v : v ∈ rows m ↔ ∃ k, m !! k = Some v.
Proof.
  unfold rows. rewrite list_elem_of_fmap. split.
  - intros [[k v'] [-> Hin]]. exists k. by apply elem_of_map_to_list.
  - intros [k Hk]. exists (k, v). split; [done|]. by apply elem_of_map_to_list.
Qed.
Lemma length_rows m : length (rows m) = size m.
Proof. unfold rows. by rewrite length_fmap, length_map_to_list. Qed.
End Rows.

Section OrderBy.
Context {A : Type} (R : relation A) `{!RelDecision R}.

Lemma order_by_perm (l : list A) : order_by R l ≡ₚ l.
Proof. apply merge_sort_Permutation. Qed.
Lemma order_by_sorted `{!Transitive R, !Total R} (l : list A) :
  StronglySorted R (order_by R l).
Proof. by apply StronglySorted_merge_sort. Qed.
Lemma elem_of_order_by (l : list A) x : x ∈ order_by R l ↔ x ∈ l.
Proof. by rewrite (order_by_perm l). Qed.
Lemma length_order_by (l : list A) : length (order_by R l) = length l.
Proof. by rewrite (order_by_perm l). Qed.
End OrderBy.
