(* ===== verification/RustStd.v ===== *)
(** * The parts of the Rust standard library the server's logic uses

    Strings are the UTF-8 bytes of a Rust [str] ([Stdlib]'s [string] of 8-bit
    characters); offsets are byte offsets, as in Rust.  The whitespace of [trim]
    and the letters of [to_lowercase] are the ASCII ones: the code only compares
    the results with ASCII text.  Integer parsing and printing follow
    [from_str_radix] and [Display], with the overflow checks of the width. *)

From S2P Require Import Prelude.
From Stdlib Require Import Ascii String.
From Stdlib Require Import Lia.
Import ListNotations.
Local Open Scope string_scope.
Local Open Scope stdpp_scope.
Local Open Scope nat_scope.

(** ** Searching and slicing *)

Fixpoint str_drop (n : nat) (s : string) : string :=
  match n, s with
  | O, _ => s
  | S n', String _ s' => str_drop n' s'
  | S _, EmptyString => EmptyString
  end.

Fixpoint str_take (n : nat) (s : string) : string :=
  match n, s with
  | S n', String c s' => String c (str_take n' s')
  | _, _ => EmptyString
  end.

(** [s.starts_with(p)] *)
Definition starts_with (p s : string) : bool := String.prefix p s.

(** [s.find(p)] *)
Fixpoint find (p s : string) : option nat :=
  if String.prefix p s then Some 0
  else match s with
       | EmptyString => None
       | String _ s' => S <$> find p s'
       end.

(** [s.contains(p)] *)
Definition contains (p s : string) : bool := bool_decide (is_Some (find p s)).

(** [s.ends_with(p)] *)
Definition ends_with (p s : string) : bool :=
  (String.length p <=? String.length s)
  && bool_decide (str_drop (String.length s - String.length p) s = p).

(** [s.strip_prefix(p)] *)
Definition strip_prefix (p s : string) : option string :=
  if String.prefix p s then Some (str_drop (String.length p) s) else None.

(** [s.trim_end_matches(p)]: at most one pass per byte. *)
Fixpoint trim_end_matches_go (fuel : nat) (p s : string) : string :=
  match fuel with
  | O => s
  | S n =>
      if negb (bool_decide (p = EmptyString)) && ends_with p s
      then trim_end_matches_go n p (str_take (String.length s - String.length p) s)
      else s
  end.
Definition trim_end_matches (p s : string) : string :=
  trim_end_matches_go (String.length s) p s.

Definition cons_head (c : ascii) (l : list string) : list string :=
  match l with
  | [] => [String c EmptyString]
  | h :: t => String c h :: t
  end.

(** [s.split(p)] for a non-empty [p]: [skip] bytes of a separator remain. *)
Fixpoint split_go (p : string) (skip : nat) (s : string) : list string :=
  match s with
  | EmptyString => [EmptyString]
  | String c s' =>
      match skip with
      | S k => split_go p k s'
      | O =>
          if String.prefix p s then EmptyString :: split_go p (String.length p - 1) s'
          else cons_head c (split_go p 0 s')
      end
  end.
Definition split (p s : string) : list string := split_go p 0 s.

(** [v.join(sep)] *)
Fixpoint join (sep : string) (l : list string) : string :=
  match l with
  | [] => EmptyString
  | [x] => x
  | x :: l' => x +:+ sep +:+ join sep l'
  end.

(** [s.split_once(p)] *)
Definition split_once (p s : string) : option (string * string) :=
  i ← find p s; Some (str_take i s, str_drop (i + String.length p) s).

Definition NEWLINE : string := String (ascii_of_nat 10) EmptyString.

(** [s.lines()]: without the line ends, and without an empty last line. *)
Definition strip_carriage_return (s : string) : string :=
  let r := String (ascii_of_nat 13) EmptyString in
  if ends_with r s then str_take (String.length s - 1) s else s.
Fixpoint drop_last_empty (l : list string) : list string :=
  match l with
  | [] => []
  | [x] => if bool_decide (x = EmptyString) then [] else [x]
  | x :: l => x :: drop_last_empty l
  end.
Definition lines (s : string) : list string :=
  strip_carriage_return <$> drop_last_empty (split NEWLINE s).

(** ** Characters *)

Definition is_whitespace (c : ascii) : bool := Ascii.is_space c.

Fixpoint trim_start (s : string) : string :=
  match s with
  | String c s' => if is_whitespace c then trim_start s' else s
  | EmptyString => EmptyString
  end.
Fixpoint trim_end (s : string) : string :=
  match s with
  | String c s' =>
      match trim_end s' with
      | EmptyString => if is_whitespace c then EmptyString else String c EmptyString
      | r => String c r
      end
  | EmptyString => EmptyString
  end.
Definition trim (s : string) : string := trim_end (trim_start s).

Definition to_ascii_lowercase_char (c : ascii) : ascii :=
  let n := nat_of_ascii c in
  if (65 <=? n) && (n <=? 90) then ascii_of_nat (n + 32) else c.
Fixpoint to_lowercase (s : string) : string :=
  match s with
  | EmptyString => EmptyString
  | String c s' => String (to_ascii_lowercase_char c) (to_lowercase s')
  end.
Definition to_ascii_uppercase_char (c : ascii) : ascii :=
  let n := nat_of_ascii c in
  if (97 <=? n) && (n <=? 122) then ascii_of_nat (n - 32) else c.
Fixpoint to_uppercase (s : string) : string :=
  match s with
  | EmptyString => EmptyString
  | String c s' => String (to_ascii_uppercase_char c) (to_uppercase s')
  end.
Definition eq_ignore_ascii_case (a b : string) : bool :=
  bool_decide (to_lowercase a = to_lowercase b).

(** A byte offset is a character boundary unless it falls on a UTF-8
    continuation byte (10xxxxxx). *)
Definition is_continuation (c : ascii) : bool :=
  let n := nat_of_ascii c in (128 <=? n) && (n <? 192).
Definition is_char_boundary (s : string) (i : nat) : bool :=
  match String.get i s with
  | Some c => negb (is_continuation c)
  | None => i =? String.length s
  end.
(** [&s[..i]]: [None] is the panic. *)
Definition slice_to (s : string) (i : nat) : option string :=
  if is_char_boundary s i then Some (str_take i s) else None.

(** The last position of a character, and the text before the first character
    with a property ([split([..]).next()]). *)
Fixpoint rfind_char (c : ascii) (s : string) : option nat :=
  match s with
  | EmptyString => None
  | String a s =>
      match rfind_char c s with
      | Some i => Some (S i)
      | None => if decide (a = c) then Some 0 else None
      end
  end.
Fixpoint until (P : ascii → bool) (s : string) : string :=
  match s with
  | EmptyString => EmptyString
  | String a s => if P a then EmptyString else String a (until P s)
  end.
(** [char::is_ascii_lowercase] and [char::is_ascii_digit] for every character. *)
Fixpoint all_chars (P : ascii → bool) (s : string) : bool :=
  match s with
  | EmptyString => true
  | String a s => P a && all_chars P s
  end.
Definition is_ascii_lowercase (c : ascii) : bool :=
  (97 <=? nat_of_ascii c)%nat && (nat_of_ascii c <=? 122)%nat.
Definition is_ascii_digit (c : ascii) : bool :=
  (48 <=? nat_of_ascii c)%nat && (nat_of_ascii c <=? 57)%nat.

(** [{:?}] of a list of strings that need no escapes. *)
Definition QUOTE : string := String (ascii_of_nat 34) EmptyString.
Definition debug_strs (l : list string) : string :=
  "[" +:+ join ", " ((λ s, QUOTE +:+ s +:+ QUOTE) <$> l) +:+ "]".

(** ** Integers *)

Inductive int_error := IntEmpty | InvalidDigit | PosOverflow | NegOverflow.

Definition to_digit (c : ascii) : option Z :=
  let n := nat_of_ascii c in
  if (48 <=? n) && (n <=? 57) then Some (Z.of_nat (n - 48)) else None.

Definition in_range (lo hi z : Z) : bool := (lo <=? z)%Z && (z <=? hi)%Z.

(** The accumulation loop of [from_str_radix]: the multiplication is checked
    before the digit is read, but an invalid digit is reported first. *)
Fixpoint digits_go (lo hi sign : Z) (ovf : int_error) (s : string) (acc : Z) : result Z int_error :=
  match s with
  | EmptyString => Ok acc
  | String c s' =>
      match to_digit c with
      | None => Err InvalidDigit
      | Some x =>
          if in_range lo hi (acc * 10)%Z && in_range lo hi (acc * 10 + sign * x)%Z
          then digits_go lo hi sign ovf s' (acc * 10 + sign * x)%Z
          else Err ovf
      end
  end.

(** [s.parse::<T>()] for an integer type with range [lo..=hi]. *)
Definition parse_int (lo hi : Z) (s : string) : result Z int_error :=
  match s with
  | EmptyString => Err IntEmpty
  | String c s' =>
      if bool_decide (s' = EmptyString ∧ (c = "+"%char ∨ c = "-"%char)) then Err InvalidDigit
      else if bool_decide (c = "+"%char) then digits_go lo hi 1 PosOverflow s' 0
      else if bool_decide (c = "-"%char) && (lo <? 0)%Z
           then digits_go lo hi (-1) NegOverflow s' 0
      else digits_go lo hi 1 PosOverflow s 0
  end.

Definition I32_MIN : Z := (-2147483648)%Z.
Definition I32_MAX : Z := 2147483647%Z.
Definition U32_MAX : Z := 4294967295%Z.
Definition I64_MIN : Z := (-9223372036854775808)%Z.
Definition I64_MAX : Z := 9223372036854775807%Z.

Definition parse_i64 : string → result Z int_error := parse_int I64_MIN I64_MAX.
Definition parse_u32 : string → result Z int_error := parse_int 0 U32_MAX.
Definition U16_MAX : Z := 65535%Z.
Definition parse_u16 : string → result Z int_error := parse_int 0 U16_MAX.

(** [z as i32] and [z as u32]: the low 32 bits. *)
Definition as_i32 (z : Z) : Z := ((z + 2147483648) mod 4294967296 - 2147483648)%Z.
Definition as_u32 (z : Z) : Z := (z mod 4294967296)%Z.

(** [Path::join] on a Unix path: an absolute second part replaces the first. *)
Definition path_join (p q : string) : string :=
  if starts_with "/" q then q
  else if bool_decide (p = EmptyString) || ends_with "/" p then p +:+ q
  else p +:+ "/" +:+ q.

(** ** Splitting and joining *)

Lemma app_cons c p s : String c p +:+ s = String c (p +:+ s).
Proof. reflexivity. Qed.

Lemma join_cons sep x l : l ≠ [] → join sep (x :: l) = x +:+ sep +:+ join sep l.
Proof. by destruct l. Qed.

Lemma join_cons_head sep c l : l ≠ [] → join sep (cons_head c l) = String c (join sep l).
Proof. destruct l as [|x [|y l]]; [done|done|]. intros _. done. Qed.

Lemma cons_head_ne c l : cons_head c l ≠ [].
Proof. by destruct l. Qed.

Lemma split_go_ne p skip s : split_go p skip s ≠ [].
Proof.
  revert skip. induction s as [|c s IH]; intros [|k]; [done|done| |apply IH].
  simpl. case_match; [done|]. apply cons_head_ne.
Qed.

Lemma prefix_drop p s : String.prefix p s = true → s = p +:+ str_drop (String.length p) s.
Proof.
  revert s. induction p as [|a p IH]; intros [|b s] Hp; try done. simpl in *.
  destruct (ascii_dec a b) as [->|]; [|done]. rewrite app_cons. f_equal. by apply IH.
Qed.

(** Joining the pieces of a split gives the string back. *)
Lemma join_split_go p skip s :
  p ≠ EmptyString → join p (split_go p skip s) = str_drop skip s.
Proof.
  intros Hp. revert skip. induction s as [|c s IH]; intros [|k]; try done.
  - cbn [split_go]. destruct (String.prefix p (String c s)) eqn:Hpre.
    + rewrite join_cons by apply split_go_ne. rewrite IH.
      apply prefix_drop in Hpre. destruct p as [|a p]; [done|].
      simpl str_drop in *. rewrite Hpre. simpl. by rewrite Nat.sub_0_r.
    + rewrite join_cons_head by apply split_go_ne. by rewrite IH.
  - cbn [split_go str_drop]. apply IH.
Qed.

Lemma join_split p s : p ≠ EmptyString → join p (split p s) = s.
Proof. apply join_split_go. Qed.

(** ** Printing and parsing integers *)

Lemma to_digit_pretty n :
  (n < 10)%N → to_digit (pretty_N_char n) = Some (Z.of_N n).
Proof.
  intros Hn. destruct n as [|p]; [done|].
  destruct p as [[[[]|[]|]|[[]|[]|]|]|[[[]|[]|]|[[]|[]|]|]|]; done || lia.
Qed.

Section ParseRoundtrip.
Context (lo hi : Z) (Hlo : (lo <= 0)%Z) (Hhi : (0 <= hi)%Z).

Lemma digits_go_pretty sign ovf n s :
  (sign = 1 ∨ sign = -1)%Z → (lo <= sign * Z.of_N n <= hi)%Z → (0 < n)%N →
  digits_go lo hi sign ovf (pretty_N_go n s) 0 =
  digits_go lo hi sign ovf s (sign * Z.of_N n).
Proof.
  intros Hsign. revert s. induction (N.lt_wf_0 n) as [n _ IH]. intros s Hr Hn.
  rewrite pretty_N_go_step by done.
  assert (0 <= Z.of_N (n / 10) ∧ 0 <= Z.of_N (n mod 10))%Z as [Hq0 Hm0]
    by (split; apply N2Z.is_nonneg).
  assert (Z.of_N n = 10 * Z.of_N (n / 10) + Z.of_N (n mod 10))%Z as Hdm.
  { pose proof (N.div_mod n 10 ltac:(done)) as Hd. lia. }
  assert (n mod 10 < 10)%N as Hm by (by apply N.mod_lt).
  assert (digits_go lo hi sign ovf (String (pretty_N_char (n mod 10)) s) (sign * Z.of_N (n / 10))
          = digits_go lo hi sign ovf s (sign * Z.of_N n)) as Hlast.
  { cbn [digits_go]. rewrite to_digit_pretty by done.
    unfold in_range.
    replace (sign * Z.of_N (n / 10) * 10 + sign * Z.of_N (n mod 10))%Z
      with (sign * Z.of_N n)%Z by lia.
    assert (lo <= sign * Z.of_N (n / 10) * 10 <= hi)%Z as [H1 H2].
    { destruct Hsign as [-> | ->]; lia. }
    destruct Hr as [H3 H4]. apply Z.leb_le in H1, H2, H3, H4.
    by rewrite H1, H2, H3, H4. }
  destruct (decide (n / 10 = 0)%N) as [Hz|Hz].
  - rewrite Hz, pretty_N_go_0. rewrite Hz in Hlast. by rewrite Z.mul_0_r in Hlast.
  - rewrite IH; [done| |destruct Hsign as [-> | ->]; lia|lia].
    apply N.div_lt; lia.
Qed.
End ParseRoundtrip.

Definition starts_digit (s : string) : Prop :=
  ∃ c r d, s = String c r ∧ to_digit c = Some d.

Lemma pretty_N_go_digit n s : starts_digit s → starts_digit (pretty_N_go n s).
Proof.
  revert s. induction (N.lt_wf_0 n) as [n _ IH]. intros s Hs.
  destruct (decide (n = 0)%N) as [->|Hn]; [by rewrite pretty_N_go_0|].
  rewrite pretty_N_go_step by lia. apply IH; [apply N.div_lt; lia|].
  eexists _, _, _. split; [done|]. apply to_digit_pretty. by apply N.mod_lt.
Qed.

Lemma pretty_pos_digit p : starts_digit (pretty_N_go (Npos p) "").
Proof.
  rewrite pretty_N_go_step by done. apply pretty_N_go_digit.
  eexists _, _, _. split; [done|]. apply to_digit_pretty. by apply N.mod_lt.
Qed.

Lemma to_digit_not_sign c d : to_digit c = Some d → c ≠ "+"%char ∧ c ≠ "-"%char.
Proof. intros H. by split; intros ->. Qed.

(** A printed integer of the type's range parses back to itself. *)
Lemma parse_int_pretty lo hi z :
  (lo <= 0 <= hi)%Z → (lo <= z <= hi)%Z → parse_int lo hi (pretty z) = Ok z.
Proof.
  intros [Hlo Hhi] Hz. destruct z as [|p|p].
  - unfold parse_int. simpl. unfold in_range. simpl.
    by rewrite !(proj2 (Z.leb_le _ _)) by lia.
  - change (pretty (Z.pos p)) with (pretty_N_go (Npos p) "").
    destruct (pretty_pos_digit p) as (c & r & d & Heq & Hd).
    destruct (to_digit_not_sign _ _ Hd) as [N1 N2].
    unfold parse_int. rewrite Heq. rewrite !bool_decide_eq_false_2 by (done || by intros [_ [?|?]]).
    simpl andb. rewrite <-Heq.
    apply (digits_go_pretty lo hi Hlo Hhi 1); [by left|lia|lia].
  - change (pretty (Z.neg p)) with (String "-" (pretty_N_go (Npos p) "")).
    destruct (pretty_pos_digit p) as (c & r & d & Heq & Hd).
    unfold parse_int.
    rewrite !bool_decide_eq_false_2 by (done || (rewrite Heq; by intros [? _])).
    rewrite (bool_decide_eq_true_2 ("-"%char = "-"%char)) by done.
    rewrite (proj2 (Z.ltb_lt lo 0)) by lia. simpl andb. cbv iota.
    apply (digits_go_pretty lo hi Hlo Hhi (-1)); [by right|lia|lia].
Qed.

Lemma parse_i64_pretty z : (I64_MIN <= z <= I64_MAX)%Z → parse_i64 (pretty z) = Ok z.
Proof. by apply parse_int_pretty. Qed.
Lemma parse_u32_pretty z : (0 <= z <= U32_MAX)%Z → parse_u32 (pretty z) = Ok z.
Proof. by apply parse_int_pretty. Qed.
