(* ===== verification/TextLemmas.v ===== *)
(** * Lemmas on texts

    Prefixes, the first and the last occurrence of a character, and cutting a text
    there. *)

From S2P Require Import Prelude RustStd.
From Stdlib Require Import Ascii String Lia.
Local Open Scope stdpp_scope.

Lemma prefix_app p r : String.prefix p (p +:+ r) = true.
Proof.
  induction p as [|c p IH]; [by destruct r|]. rewrite app_cons. simpl. by destruct (ascii_dec c c).
Qed.
Lemma starts_with_spec p v : starts_with p v = true ↔ ∃ r, v = p +:+ r.
Proof.
  unfold starts_with. split; [|intros [r ->]; apply prefix_app].
  intros Hpre. exists (str_drop (String.length p) v). by apply prefix_drop.
Qed.
Lemma str_drop_app p r : str_drop (String.length p) (p +:+ r) = r.
Proof. by induction p. Qed.
Lemma find_0 p v : find p v = Some 0 ↔ String.prefix p v = true.
Proof.
  destruct v as [|c v]; cbn [find].
  - by destruct (String.prefix p EmptyString).
  - destruct (String.prefix p (String c v)); [done|]. by destruct (find p v).
Qed.
Lemma prefix_cons a q c s :
  String.prefix (String a q) (String c s) = true ↔ a = c ∧ String.prefix q s = true.
Proof. simpl. destruct (ascii_dec a c); naive_solver. Qed.

(** A one-character text occurs in a text or not. *)
Lemma contains_cons a c s :
  contains (String a EmptyString) (String c s) = false ↔ a ≠ c ∧ contains (String a EmptyString) s = false.
Proof.
  unfold contains. rewrite !bool_decide_eq_false, <-!eq_None_not_Some. cbn [find].
  destruct (String.prefix (String a EmptyString) (String c s)) eqn:Hp.
  - apply prefix_cons in Hp as [-> _]. naive_solver.
  - assert (a ≠ c) as Hac.
    { intros ->. apply not_true_iff_false in Hp. apply Hp, prefix_cons. split; [done|]. by destruct s. }
    rewrite fmap_None. naive_solver.
Qed.

Lemma app_empty (s : string) : s +:+ EmptyString = s.
Proof. induction s as [|c s IH]; [done|]. by rewrite app_cons, IH. Qed.

Lemma app_nil_str (s : string) : EmptyString +:+ s = s.
Proof. reflexivity. Qed.
Lemma app_assoc_str (a b c : string) : (a +:+ b) +:+ c = a +:+ b +:+ c.
Proof. induction a as [|x a IH]; [done|]. by rewrite !app_cons, IH. Qed.
Lemma length_app_str (a b : string) : String.length (a +:+ b) = String.length a + String.length b.
Proof. induction a as [|x a IH]; [done|]. by rewrite app_cons; simpl; rewrite IH. Qed.
Lemma str_take_app p r : str_take (String.length p) (p +:+ r) = p.
Proof. induction p as [|c p IH]; [by destruct r|]. rewrite app_cons. simpl. by rewrite IH. Qed.

(** ** One character *)

Definition lacks (c : ascii) (s : string) : Prop := contains (String c EmptyString) s = false.
#[export] Instance lacks_dec c s : Decision (lacks c s).
Proof. unfold lacks. apply _. Defined.

Section Char.
Context (c : ascii).

Lemma lacks_empty : lacks c EmptyString.
Proof. reflexivity. Qed.
Lemma lacks_cons a s : lacks c (String a s) ↔ c ≠ a ∧ lacks c s.
Proof. apply contains_cons. Qed.
Lemma lacks_app a b : lacks c (a +:+ b) ↔ lacks c a ∧ lacks c b.
Proof.
  induction a as [|x a IH]; [by split; [|intros [_ ?]]|].
  rewrite app_cons, !lacks_cons, IH. naive_solver.
Qed.
Lemma prefix_char a s : String.prefix (String c EmptyString) (String a s) = bool_decide (c = a).
Proof. simpl. destruct (ascii_dec c a) as [->|]; case_bool_decide; try done. by destruct s. Qed.

Lemma find_char_None s : find (String c EmptyString) s = None ↔ lacks c s.
Proof. unfold lacks, contains. by rewrite bool_decide_eq_false, <-eq_None_not_Some. Qed.
Lemma find_char_app s t : lacks c s → find (String c EmptyString) (s +:+ String c t) = Some (String.length s).
Proof.
  induction s as [|a s IH]; intros Hs.
  - change (EmptyString +:+ String c t) with (String c t). cbn [find].
    by rewrite prefix_char, bool_decide_true.
  - apply lacks_cons in Hs as [Ha Hs]. rewrite app_cons. cbn [find].
    by rewrite prefix_char, bool_decide_false, IH.
Qed.
(** Where a text is cut at its first occurrence. *)
Lemma find_char_Some s i : find (String c EmptyString) s = Some i →
  ∃ a b, s = a +:+ String c b ∧ lacks c a ∧ i = String.length a.
Proof.
  revert i. induction s as [|x s IH]; intros i; [done|]. cbn [find]. rewrite prefix_char.
  case_bool_decide as Hx; [intros [= <-]; subst x; by exists EmptyString, s|].
  intros (j & Hj & ->)%fmap_Some. apply IH in Hj as (a & b & -> & Ha & ->). exists (String x a), b.
  split_and!; [done|by apply lacks_cons|done].
Qed.

Lemma rfind_char_None s : rfind_char c s = None ↔ lacks c s.
Proof.
  induction s as [|a s IH]; [done|]. rewrite lacks_cons, <-IH. simpl.
  destruct (rfind_char c s); [naive_solver|]. case_decide; naive_solver.
Qed.
Lemma rfind_char_app s t : lacks c t → rfind_char c (s +:+ String c t) = Some (String.length s).
Proof.
  intros Ht. induction s as [|a s IH].
  - change (EmptyString +:+ String c t) with (String c t). cbn [rfind_char]. rewrite (proj2 (rfind_char_None t) Ht). by rewrite decide_True.
  - rewrite app_cons. cbn [rfind_char]. by rewrite IH.
Qed.
Lemma rfind_char_Some s i : rfind_char c s = Some i →
  ∃ a b, s = a +:+ String c b ∧ lacks c b ∧ i = String.length a.
Proof.
  revert i. induction s as [|x s IH]; intros i; [done|]. cbn [rfind_char].
  destruct (rfind_char c s) as [j|] eqn:Hj.
  - intros [= <-]. destruct (IH j eq_refl) as (a & b & -> & Hb & ->). by exists (String x a), b.
  - case_decide as Hx; [|done]. intros [= <-]. subst x. exists EmptyString, s.
    split_and!; [done|by apply rfind_char_None|done].
Qed.

(** A text is cut in two at a character in one way only. *)
Lemma cut_inj a b a' b' : lacks c a → lacks c a' → a +:+ String c b = a' +:+ String c b' → a = a' ∧ b = b'.
Proof.
  revert a'. induction a as [|x a IH]; intros [|y a'] Ha Ha'; rewrite ?app_cons, ?app_nil_str; intros E.
  - by injection E as ->.
  - injection E as Ey _. by apply lacks_cons in Ha' as [? _].
  - injection E as Ex _. apply lacks_cons in Ha as [Hx _]. by destruct Hx.
  - apply lacks_cons in Ha as [_ Ha]. apply lacks_cons in Ha' as [_ Ha']. injection E as -> E.
    by destruct (IH a' Ha Ha' E) as [-> ->].
Qed.

Lemma until_app P s t : all_chars (negb ∘ P) s = true → P c = true → until P (s +:+ String c t) = s.
Proof.
  intros Hs Hc. induction s as [|a s IH]; [rewrite app_nil_str; cbn [until]; by rewrite Hc|].
  simpl in Hs. apply andb_true_iff in Hs as [Ha Hs]. apply negb_true_iff in Ha.
  rewrite app_cons. cbn [until]. by rewrite Ha, IH.
Qed.
Lemma until_all P s : all_chars (negb ∘ P) s = true → until P s = s.
Proof.
  intros Hs. induction s as [|a s IH]; [done|]. simpl in Hs. apply andb_true_iff in Hs as [Ha Hs].
  apply negb_true_iff in Ha. cbn [until]. by rewrite Ha, IH.
Qed.
End Char.

Lemma str_drop_cut a c b : str_drop (S (String.length a)) (a +:+ String c b) = b.
Proof. by induction a. Qed.

(** Splitting at a text. *)
Lemma not_contains_cons p c v : contains p (String c v) = false →
  String.prefix p (String c v) = false ∧ contains p v = false.
Proof.
  unfold contains. cbn [find]. rewrite !bool_decide_eq_false. destruct (String.prefix p (String c v)); [by intros []|].
  intros Hn. split; [done|]. intros [n Hf]. apply Hn. rewrite Hf. by eexists.
Qed.
Lemma split_absent p v : contains p v = false → split p v = [v].
Proof.
  unfold split. induction v as [|c v IH]; [done|]. intros [Hp Hv]%not_contains_cons. cbn [split_go].
  by rewrite Hp, (IH Hv).
Qed.
Lemma split_go_skip p u v : split_go p (String.length u) (u +:+ v) = split_go p 0 v.
Proof.
  induction u as [|c u IH]; [by rewrite app_nil_str|]. rewrite app_cons. cbn [String.length split_go]. exact IH.
Qed.
Lemma split_head c p v : split (String c p) (String c p +:+ v) = EmptyString :: split (String c p) v.
Proof.
  unfold split at 1. rewrite app_cons. cbn [split_go]. rewrite <-app_cons, prefix_app. cbn [String.length].
  by rewrite Nat.sub_succ, Nat.sub_0_r, split_go_skip.
Qed.
Lemma split_segment c p v : lacks c p →
  split (String c EmptyString) (p +:+ String c v) = p :: split (String c EmptyString) v.
Proof.
  unfold lacks. induction p as [|x p IH]; [intros _; rewrite app_nil_str; exact (split_head c EmptyString v)|].
  intros [Hx Hv]%not_contains_cons. rewrite app_cons. unfold split in IH |- *. cbn [split_go].
  rewrite prefix_char in Hx |- *. rewrite Hx. by rewrite (IH Hv).
Qed.
Lemma contains_self p v : contains p (p +:+ v) = true.
Proof.
  unfold contains. apply bool_decide_eq_true. exists 0. apply find_0, prefix_app.
Qed.
