(* ===== verification/Model.v ===== *)
(** * The shared data model of the ticket and workflow databases

    The enums of [ticket_db/src/model.rs], [workflow_db/src/model.rs] and
    [ur_rpc], each with the string codec the databases and the wire use, the
    record types the repositories take and return, the constants of [ur_rpc],
    and the pure router that decides the next lifecycle status when a worker
    reports a completed step. *)

From S2P Require Import Prelude RustStd.
From Stdlib Require Import String.
Local Open Scope stdpp_scope.

(** A [match] on string literals: the first arm that matches. *)
Fixpoint match_str {A} (s : string) (arms : list (string * A)) : option A :=
  match arms with
  | [] => None
  | (lit, a) :: arms' => if decide (s = lit) then Some a else match_str s arms'
  end.

Lemma match_str_in {A} s (arms : list (string * A)) a :
  match_str s arms = Some a → (s, a) ∈ arms.
Proof.
  induction arms as [|[lit b] arms IH]; simpl; [done|].
  case_decide; intros; simplify_eq; [by left|right; auto].
Qed.

(** Case analysis on the literal a string is compared with. *)
Ltac solve_codec := repeat case_decide; intros; simplify_eq/=; try done.

Module LifecycleStatus.
Inductive t : Type :=
| Design | Open | Implementing | Pushing | InReview | AddressingFeedback
| Merging | Verifying | AwaitingDispatch | Done | Cancelled.

#[global] Instance eq_dec : EqDecision t.
Proof. solve_decision. Defined.

Definition default : t := Open.

Definition as_str (x : t) : string :=
  match x with
  | Design => "design"
  | Open => "open"
  | Implementing => "implementing"
  | Pushing => "pushing"
  | InReview => "in_review"
  | AddressingFeedback => "addressing_feedback"
  | Merging => "merging"
  | Verifying => "verifying"
  | AwaitingDispatch => "awaiting_dispatch"
  | Done => "done"
  | Cancelled => "cancelled"
  end.

Definition is_terminal (x : t) : bool :=
  match x with Done | Cancelled => true | _ => false end.

Definition from_str (s : string) : result t string :=
  match match_str s
    [("design", Design); ("open", Open); ("implementing", Implementing);
     ("pushing", Pushing); ("in_review", InReview);
     ("addressing_feedback", AddressingFeedback); ("merging", Merging);
     ("verifying", Verifying); ("awaiting_dispatch", AwaitingDispatch);
     ("done", Done); ("cancelled", Cancelled)]
  with
  | Some x => Ok x
  | None => Err ("unknown lifecycle status: " +:+ s)
  end.

(** [s.parse().unwrap_or_default()] *)
Definition parse_or_default (s : string) : t :=
  match from_str s with Ok x => x | Err _ => default end.

Lemma lifecycle_from_as_str x : from_str (as_str x) = Ok x.
Proof. by destruct x. Qed.
Lemma parse_as_str x : parse_or_default (as_str x) = x.
Proof. by destruct x. Qed.
Lemma as_from_str s x : from_str s = Ok x → as_str x = s.
Proof. unfold from_str. simpl. solve_codec. Qed.
#[global] Instance as_str_inj : Inj (=) (=) as_str.
Proof. intros x y H. apply (f_equal parse_or_default) in H. by rewrite !parse_as_str in H. Qed.
(** The two strings SQL compares with to exclude finished workflows. *)
Lemma terminal_strings x :
  is_terminal x = true ↔ as_str x ∈ ["done"; "cancelled"].
Proof.
  rewrite !elem_of_cons, elem_of_nil. destruct x; simpl; split; intros; try done;
    destruct_or?; naive_solver.
Qed.
End LifecycleStatus.
Abbreviation LifecycleStatus := LifecycleStatus.t.

Module TicketType.
Inductive t : Type := Code | Design | Reminder.

#[global] Instance eq_dec : EqDecision t.
Proof. solve_decision. Defined.

Definition as_str (x : t) : string :=
  match x with Code => "code" | Design => "design" | Reminder => "reminder" end.

Definition is_dispatchable (x : t) : bool :=
  match x with Reminder => false | _ => true end.

Definition VALID : list string :=
  ["code"; "design"; "reminder"; "task"; "epic"; "c"; "d"; "r"].

Definition normalize (s : string) : string :=
  match match_str s
    [("task", "code"); ("epic", "code"); ("c", "code"); ("d", "design"); ("r", "reminder")]
  with Some c => c | None => s end.

Definition from_str (s : string) : result t string :=
  match match_str s
    [("code", Code); ("task", Code); ("epic", Code); ("c", Code);
     ("design", Design); ("d", Design); ("reminder", Reminder); ("r", Reminder)]
  with
  | Some x => Ok x
  | None => Err ("invalid ticket type '" +:+ s +:+ "': valid types are " +:+ join ", " VALID)
  end.

Lemma ticket_type_from_as_str x : from_str (as_str x) = Ok x.
Proof. by destruct x. Qed.
(** Normalising a type string does not change what it parses to. *)
Lemma from_normalize s : is_ok (from_str s) = true →
  from_str (normalize s) = from_str s ∧ ∀ x, from_str s = Ok x → normalize s = as_str x.
Proof.
  unfold from_str, normalize. simpl.
  repeat case_decide; simplify_eq/=; try done;
    intros _; (split; [done|intros; by simplify_eq]).
Qed.
End TicketType.
Abbreviation TicketType := TicketType.t.

Module TicketStatus.
Inductive t : Type := Open | InProgress | Closed.
Definition as_str (x : t) : string :=
  match x with Open => "open" | InProgress => "in_progress" | Closed => "closed" end.
Definition from_str (s : string) : result t string :=
  match match_str s [("open", Open); ("in_progress", InProgress); ("closed", Closed)] with
  | Some x => Ok x
  | None => Err ("unknown ticket status: " +:+ s)
  end.
Lemma ticket_status_from_as_str x : from_str (as_str x) = Ok x.
Proof. by destruct x. Qed.
End TicketStatus.
Abbreviation TicketStatus := TicketStatus.t.

Module AgentStatus.
Inductive t : Type := Starting | Idle | Working | Stalled.
Definition as_str (x : t) : string :=
  match x with
  | Starting => "starting" | Idle => "idle" | Working => "working" | Stalled => "stalled"
  end.
Definition from_str (s : string) : result t string :=
  match match_str s
    [("starting", Starting); ("idle", Idle); ("working", Working); ("stalled", Stalled)]
  with
  | Some x => Ok x
  | None => Err ("unknown agent status: " +:+ s)
  end.
Lemma agent_status_from_as_str x : from_str (as_str x) = Ok x.
Proof. by destruct x. Qed.
End AgentStatus.
Abbreviation AgentStatus := AgentStatus.t.

Module WorkerRuntime.
Inductive t : Type := Container | Local.
Definition ALL : list t := [Container; Local].
Definition as_str (x : t) : string :=
  match x with Container => "container" | Local => "local" end.
Definition from_str (s : string) : result t string :=
  match list_find (λ r, as_str r = s) ALL with
  | Some (_, r) => Ok r
  | None => Err ("unknown worker runtime '" +:+ s +:+ "'. Valid runtimes: [" +:+
      join ", " ((λ r, QUOTE +:+ as_str r +:+ QUOTE) <$> ALL) +:+ "]")
  end.
Lemma runtime_from_as_str x : from_str (as_str x) = Ok x.
Proof. by destruct x. Qed.
End WorkerRuntime.
Abbreviation WorkerRuntime := WorkerRuntime.t.

(** ** Constants and events of [ur_rpc] *)

Module ticket_meta.
Definition AUTOAPPROVE : string := "autoapprove".
Definition NOVERIFY : string := "noverify".
Definition FEEDBACK_MODE : string := "feedback_mode".
Definition REF : string := "ref".
Definition PR_NUMBER : string := "pr_number".
End ticket_meta.

Module feedback_mode.
Definition NOW : string := "now".
Definition LATER : string := "later".
End feedback_mode.

Module edge_relation.
Definition BLOCKS : string := "blocks".
Definition BLOCKED_BY : string := "blocked_by".
Definition RELATES_TO : string := "relates_to".
End edge_relation.

Module ci_status.
Definition PENDING : string := "pending".
Definition SUCCEEDED : string := "succeeded".
Definition FAILED : string := "failed".
End ci_status.

Module mergeable.
Definition UNKNOWN : string := "unknown".
Definition MERGEABLE : string := "mergeable".
Definition CONFLICT : string := "conflict".
End mergeable.

Module review_status.
Definition PENDING : string := "pending".
Definition APPROVED : string := "approved".
Definition CHANGES_REQUESTED : string := "changes_requested".
End review_status.

Module WorkflowCondition.
Inductive t : Type := CiStatus | Mergeable | ReviewStatus.
Definition column_name (c : t) : string :=
  match c with
  | CiStatus => "ci_status" | Mergeable => "mergeable" | ReviewStatus => "review_status"
  end.
End WorkflowCondition.
Abbreviation WorkflowCondition := WorkflowCondition.t.

Module WorkflowEvent.
Inductive t : Type :=
| AwaitingDispatch | Implementing | Verifying | Pushing | InReview
| AddressingFeedback | Merging | Done | Cancelled
| PrCreated | CiSucceeded | CiFailed | ReviewApproved | ReviewChangesRequested
| MergeConflictDetected | Stalled.

#[global] Instance eq_dec : EqDecision t.
Proof. solve_decision. Defined.

Definition as_str (e : t) : string :=
  match e with
  | AwaitingDispatch => "awaiting_dispatch"
  | Implementing => "implementing"
  | Verifying => "verifying"
  | Pushing => "pushing"
  | InReview => "in_review"
  | AddressingFeedback => "addressing_feedback"
  | Merging => "merging"
  | Done => "done"
  | Cancelled => "cancelled"
  | PrCreated => "pr_created"
  | CiSucceeded => "ci_succeeded"
  | CiFailed => "ci_failed"
  | ReviewApproved => "review_approved"
  | ReviewChangesRequested => "review_changes_requested"
  | MergeConflictDetected => "merge_conflict_detected"
  | Stalled => "stalled"
  end.

#[global] Instance as_str_inj : Inj (=) (=) as_str.
Proof. by intros [] []. Qed.
End WorkflowEvent.
Abbreviation WorkflowEvent := WorkflowEvent.t.

(** ** Edges between tickets *)

Module EdgeKind.
Inductive t : Type := Blocks | RelatesTo.
#[global] Instance eq_dec : EqDecision t.
Proof. solve_decision. Defined.
End EdgeKind.
Abbreviation EdgeKind := EdgeKind.t.

Definition edge_kind_to_str (k : EdgeKind) : string :=
  match k with EdgeKind.Blocks => "blocks" | EdgeKind.RelatesTo => "relates_to" end.
Definition edge_kind_from_str (s : string) : EdgeKind :=
  if decide (s = "blocks") then EdgeKind.Blocks else EdgeKind.RelatesTo.

Lemma edge_kind_from_to k : edge_kind_from_str (edge_kind_to_str k) = k.
Proof. by destruct k. Qed.

Module Edge.
Record t : Type := mk { source_id : string; target_id : string; kind : EdgeKind }.
End Edge.

(** ** Tickets *)

Module Ticket.
Record t : Type := mk {
  id : string;
  project : string;
  type_ : string;
  status : string;
  lifecycle_status : LifecycleStatus;
  lifecycle_managed : bool;
  priority : Z;
  parent_id : option string;
  title : string;
  body : string;
  branch : option string;
  created_at : string;
  updated_at : string;
  children_completed : Z;
  children_total : Z
}.
End Ticket.

Module NewTicket.
Record t : Type := mk {
  id : option string;
  project : string;
  type_ : string;
  priority : Z;
  parent_id : option string;
  title : string;
  body : string;
  status : option string;
  lifecycle_status : option LifecycleStatus;
  branch : option string;
  created_at : option string
}.
End NewTicket.

(** [branch] and [parent_id]: [Some None] clears the field. *)
Module TicketUpdate.
Record t : Type := mk {
  status : option string;
  lifecycle_status : option LifecycleStatus;
  lifecycle_managed : option bool;
  type_ : option string;
  priority : option Z;
  title : option string;
  body : option string;
  branch : option (option string);
  parent_id : option (option string);
  project : option string
}.
(** [..Default::default()] *)
Definition default : t := mk None None None None None None None None None None.
Definition of_status (s : string) : t :=
  mk (Some s) None None None None None None None None None.
Definition of_lifecycle (l : LifecycleStatus) : t :=
  mk None (Some l) None None None None None None None None.
Definition of_branch (b : option string) : t :=
  mk None None None None None None None (Some b) None None.
End TicketUpdate.

Module TicketFilter.
Record t : Type := mk {
  project : option string;
  statuses : list string;
  type_ : option string;
  parent_id : option string;
  lifecycle_status : option LifecycleStatus
}.
End TicketFilter.

Module Activity.
Record t : Type := mk {
  id : string; ticket_id : string; timestamp : string; author : string; message : string
}.
End Activity.

Module DispatchableTicket.
Record t : Type := mk { id : string; title : string; priority : Z; type_ : string }.
End DispatchableTicket.

Module MetadataMatchTicket.
Record t : Type := mk {
  id : string; title : string; type_ : string; status : string; key : string; value : string
}.
End MetadataMatchTicket.

Module TicketComment.
Record t : Type := mk {
  comment_id : string; ticket_id : string; pr_number : Z; gh_repo : string;
  reply_posted : bool; created_at : string
}.
End TicketComment.

(** ** Workflows *)

Module Workflow.
Record t : Type := mk {
  id : string;
  ticket_id : string;
  status : LifecycleStatus;
  stalled : bool;
  stall_reason : string;
  implement_cycles : Z;
  worker_id : string;
  noverify : bool;
  feedback_mode : string;
  ci_status : string;
  mergeable : string;
  review_status : string;
  created_at : string
}.
End Workflow.

Module WorkflowEventQ.
(** A row of the [workflow_event] queue (the struct [WorkflowEvent] of
    [workflow_db]). *)
Record t : Type := mk {
  id : string;
  ticket_id : string;
  old_lifecycle_status : LifecycleStatus;
  new_lifecycle_status : LifecycleStatus;
  attempts : Z;
  created_at : string
}.
End WorkflowEventQ.

Module WorkflowIntent.
Record t : Type := mk {
  id : string; ticket_id : string; target_status : LifecycleStatus; created_at : string
}.
End WorkflowIntent.

(** A request to the coordinator. *)
Module TransitionRequest.
Record t : Type := mk { ticket_id : string; target_status : LifecycleStatus }.
#[global] Instance eq_dec : EqDecision t.
Proof. solve_decision. Defined.
End TransitionRequest.

(** ** Routing of completed worker steps *)

Module NextStepResult.
Inductive t : Type :=
| Advance (to : LifecycleStatus)
| AdvanceByFeedbackMode
| Ignore.
#[global] Instance eq_dec : EqDecision t.
Proof. solve_decision. Defined.
End NextStepResult.

(** [WorkerdNextStepRouter::route] *)
Definition route (current_status : LifecycleStatus) : NextStepResult.t :=
  match current_status with
  | LifecycleStatus.Implementing => NextStepResult.Advance LifecycleStatus.Verifying
  | LifecycleStatus.AddressingFeedback => NextStepResult.AdvanceByFeedbackMode
  | _ => NextStepResult.Ignore
  end.
