(* ===== verification/UrConfig.v ===== *)
(** * The configuration file

    [ur_config/src/template_path.rs] and the parts of [ur_config/src/lib.rs] the
    server depends on: mounts and ports, project sections, global skills and the
    top level of [ur.toml], from the values the TOML library deserialized
    ([Raw...]) to the resolved configuration.  The environment of the process and
    the file system are parameters.  The settings of the terminal interface are
    left out.  An [anyhow] error is its text. *)

From S2P Require Import Prelude RustStd Model Agent.
From Stdlib Require Import Ascii String.
Local Open Scope stdpp_scope.

(** ** Template paths *)

Definition PROJECT_VAR : string := "%PROJECT%".
Definition URCONFIG_VAR : string := "%URCONFIG%".

Module ResolvedTemplatePath.
Inductive t : Type := ProjectRelative (p : string) | HostPath (p : string).
End ResolvedTemplatePath.

Definition bad_prefix (template : string) : string :=
  "template path must start with %PROJECT%, %URCONFIG%, or be an absolute path: " +:+ template.

Definition resolve_template_path (template config_dir : string) : result ResolvedTemplatePath.t string :=
  let drop_slash s := default s (strip_prefix "/" s) in
  match strip_prefix PROJECT_VAR template with
  | Some suffix => Ok (ResolvedTemplatePath.ProjectRelative (drop_slash suffix))
  | None =>
      match strip_prefix URCONFIG_VAR template with
      | Some suffix => Ok (ResolvedTemplatePath.HostPath (path_join config_dir (drop_slash suffix)))
      | None =>
          if starts_with "/" template then Ok (ResolvedTemplatePath.HostPath template)
          else Err (bad_prefix template)
      end
  end.

(** The scan for variables, from some position on; a lone percent sign ends it. *)
Fixpoint check_variables (fuel : nat) (s : string) : result unit string :=
  match fuel with
  | O => Ok tt
  | S fuel =>
      match find "%" s with
      | None => Ok tt
      | Some start =>
          let after := str_drop (S start) s in
          match find "%" after with
          | None => Ok tt
          | Some len =>
              let var := "%" +:+ str_take len after +:+ "%" in
              if bool_decide (var = PROJECT_VAR) || bool_decide (var = URCONFIG_VAR)
              then check_variables fuel (str_drop (S len) after)
              else Err ("unrecognized template variable " +:+ var +:+ " (recognized: %PROJECT%, %URCONFIG%)")
          end
      end
  end.
Definition validate_template_str (template : string) : result unit string :=
  let? _ := check_variables (String.length template) template in
  let? _ := check_that (negb (bool_decide (template = ""))) "template path must not be empty" in
  check_that (starts_with PROJECT_VAR template || starts_with URCONFIG_VAR template
              || starts_with "/" template) (bad_prefix template).

(** [resolve_workspace_content]: every occurrence replaced. *)
Definition WORKSPACE_TEMPLATE : string := "%WORKSPACE%".
Definition resolve_workspace_content (content workspace : string) : string :=
  join workspace (split WORKSPACE_TEMPLATE content).

(** ** Mounts and ports *)

Module MountConfig.
Record t : Type := mk { source : string; destination : string; readonly : bool }.
#[global] Instance eq_dec : EqDecision t.
Proof. solve_decision. Defined.
End MountConfig.

Module PortMapping.
Record t : Type := mk { host_port : Z; container_port : Z }.
#[global] Instance eq_dec : EqDecision t.
Proof. solve_decision. Defined.
End PortMapping.

(** The place an entry's error names. *)
Definition entry_error (project_key field : string) (index : nat) (msg : string) : string :=
  "project '" +:+ project_key +:+ "': " +:+ field +:+ "[" +:+ pretty index +:+ "]: " +:+ msg.

(** The string without its suffix, and whether it is read-only. *)
Definition parse_mount_suffix (project_key : string) (index : nat) (raw : string)
    : result (string * bool) string :=
  match rfind_char ":"%char raw, find ":" raw with
  | Some last_colon, Some first_colon =>
      if bool_decide (first_colon = last_colon) then Ok (raw, false)
      else
        let suffix := str_drop (S last_colon) raw in
        if bool_decide (suffix = "ro") then Ok (str_take last_colon raw, true)
        else Err (entry_error project_key "mounts" index
               ("invalid mount suffix ':" +:+ suffix +:+ "' (only ':ro' is supported), got: " +:+ raw))
  | _, _ => Ok (raw, false)
  end.

Definition parse_mount_entry (project_key : string) (index : nat) (raw : string)
    : result MountConfig.t string :=
  let error := entry_error project_key "mounts" index in
  let? (mount_str, readonly) := parse_mount_suffix project_key index raw in
  match find ":" mount_str with
  | None => Err (error ("expected 'source:destination' format, got: " +:+ raw))
  | Some colon_pos =>
      let source := str_take colon_pos mount_str in
      let destination := str_drop (S colon_pos) mount_str in
      let? _ := check_that (negb (bool_decide (source = ""))) (error "source must not be empty") in
      let? _ := check_that (negb (bool_decide (destination = ""))) (error "destination must not be empty") in
      match validate_template_str source with
      | Err e => Err (error ("source: " +:+ e))
      | Ok _ =>
          let? _ := check_that (negb (starts_with PROJECT_VAR source)) (error
            ("source must not use %PROJECT% (project-relative paths are already accessible "
             +:+ "via the workspace mount)")) in
          let? _ := check_that (starts_with "/" destination)
            (error ("destination must be an absolute path, got: " +:+ destination)) in
          Ok (MountConfig.mk source destination readonly)
      end
  end.

Definition parse_port_entry (project_key : string) (index : nat) (raw : string)
    : result PortMapping.t string :=
  let error := entry_error project_key "ports" index in
  match find ":" raw with
  | None => Err (error ("expected 'host_port:container_port' format, got: " +:+ raw))
  | Some colon_pos =>
      let host_str := str_take colon_pos raw in
      let container_str := str_drop (S colon_pos) raw in
      match parse_u16 host_str, parse_u16 container_str with
      | Err _, _ => Err (error ("invalid host port '" +:+ host_str +:+ "', expected a number 0-65535"))
      | Ok _, Err _ =>
          Err (error ("invalid container port '" +:+ container_str +:+ "', expected a number 0-65535"))
      | Ok h, Ok c => Ok (PortMapping.mk h c)
      end
  end.

(** ** Projects *)

(** [hostexec_scripts]: relative paths inside the project, one leading dot-slash
    dropped. *)
Definition normalize_hostexec_script (key s : string) : result string string :=
  let n := default s (strip_prefix "./" s) in
  let error msg := "project '" +:+ key +:+ "': hostexec_scripts: " +:+ msg in
  let? _ := check_that (negb (bool_decide (n = ""))) (error "empty string is not allowed") in
  let? _ := check_that (negb (starts_with "/" n))
              (error ("'" +:+ n +:+ "' must be a relative path, not absolute")) in
  let? _ := check_that (negb (bool_decide (".." ∈ split "/" n)))
              (error ("'" +:+ n +:+ "' must not contain '..' segments")) in
  let? _ := check_that (negb (starts_with PROJECT_VAR n))
              (error ("'" +:+ n +:+ "' must not start with '%PROJECT%'")) in
  Ok n.
Definition normalize_hostexec_scripts (key : string) (scripts : list string) : result (list string) string :=
  collect_results (normalize_hostexec_script key <$> scripts).

Module ContainerConfig.
Record t : Type := mk { image : string; mounts : list MountConfig.t; ports : list PortMapping.t }.
End ContainerConfig.
Module RawContainerConfig.
Record t : Type := mk { image : string; mounts : list string; ports : list string }.
End RawContainerConfig.

(** A [\[projects.<key>\]] section; of a removed field, whether it is present. *)
Module RawProjectConfig.
Record t : Type := mk {
  repo : option string;
  local : bool;
  name : option string;
  pool_limit : option Z;
  hostexec : list string;
  hostexec_deny : list string;
  skills : list string;
  git_hooks_dir : bool;
  skill_hooks_dir : bool;
  workflow_hooks_dir : bool;
  mounts : bool;
  instruction_md : option string;
  claude_md : option string;
  container : option RawContainerConfig.t;
  max_fix_attempts : option Z;
  max_implement_cycles : option Z;
  protected_branches : option (list string);
  tui : option (option string);
  git : option bool;
  ignored_workflow_checks : list string;
  hostexec_scripts : list string;
  push_again_exit_code : option Z;
  memory_dir : option string;
  brain_dir : option string;
  forge : option ForgeType;
  runtime : option WorkerRuntime
}.
(** The section with only a repository. *)
Definition of_repo (repo : string) : t :=
  mk (Some repo) false None None [] [] [] false false false false None None None None None None None
    None [] [] None None None None None.
End RawProjectConfig.

(** Of [ProjectTuiConfig] the theme, of [ProjectGitConfig] [allow_no_verify]. *)
Module ProjectConfig.
Record t : Type := mk {
  key : string;
  repo : option string;
  name : string;
  pool_limit : Z;
  skills : list string;
  hostexec : list string;
  hostexec_deny : list string;
  instruction_md : option string;
  container : ContainerConfig.t;
  max_fix_attempts : Z;
  max_implement_cycles : option Z;
  protected_branches : list string;
  tui : option (option string);
  allow_no_verify : bool;
  ignored_workflow_checks : list string;
  hostexec_scripts : list string;
  push_again_exit_code : Z;
  memory_dir : option string;
  brain_dir : option string;
  forge : option ForgeType;
  runtime : option WorkerRuntime
}.

Definition is_local (p : t) : bool := negb (bool_decide (is_Some (repo p))).
Definition require_repo (p : t) : result string string :=
  match repo p with
  | Some r => Ok r
  | None => Err ("project '" +:+ key p +:+
      "' is local (local = true, no repo) — this operation requires a git remote")
  end.
Definition resolve_forge (p : t) : option ForgeType :=
  match forge p with Some f => Some f | None => parse_forge_from_url <$> repo p end.
End ProjectConfig.

Definition brain_convention_path (config_dir project_key : string) : string :=
  path_join (path_join (path_join config_dir "projects") project_key) "brain".
Definition brain_path (p : ProjectConfig.t) (config_dir : string) : option string :=
  match ProjectConfig.brain_dir p with
  | None => Some (brain_convention_path config_dir (ProjectConfig.key p))
  | Some template =>
      match resolve_template_path template config_dir with
      | Ok (ResolvedTemplatePath.HostPath path) => Some path
      | _ => None
      end
  end.

Definition DEFAULT_POOL_LIMIT : Z := 10%Z.
Definition DEFAULT_MAX_FIX_ATTEMPTS : Z := 10%Z.
Definition DEFAULT_MAX_IMPLEMENT_CYCLES : Z := 6%Z.
Definition DEFAULT_PUSH_AGAIN_EXIT_CODE : Z := 200%Z.
Definition default_protected_branches : list string := ["main"; "master"].

Definition resolve_project_repo (key : string) (raw : RawProjectConfig.t) : result (option string) string :=
  match RawProjectConfig.repo raw, RawProjectConfig.local raw with
  | Some _, true => Err ("project '" +:+ key +:+ "': `repo` and `local = true` are mutually exclusive — "
      +:+ "a local project has no git remote. Drop one of them.")
  | None, false => Err ("project '" +:+ key +:+ "': missing field `repo` — set `repo = " +:+ QUOTE
      +:+ "<git url>" +:+ QUOTE +:+ "`, or `local = true` for a repo-less local project (no pool, no dispatch).")
  | None, true =>
      let? _ := check_that (negb (bool_decide (is_Some (RawProjectConfig.pool_limit raw))))
        ("project '" +:+ key +:+ "': `pool_limit` is not valid for a local project "
         +:+ "(`local = true`) — local projects have no repo pool.") in
      Ok None
  | Some repo, false => Ok (Some repo)
  end.

Definition removed_field (key field what : string) : string :=
  "project '" +:+ key +:+ "': `" +:+ field +:+ "` is no longer configurable — place files in "
  +:+ "`<config_dir>/projects/" +:+ key +:+ "/hooks/" +:+ what +:+ "/` or `<repo>/ur-hooks/" +:+ what
  +:+ "/`. See docs/codeflows/project-file-mounting.md.".
Definition validate_removed_config_fields (key : string) (raw : RawProjectConfig.t) : result unit string :=
  let? _ := check_that (negb (RawProjectConfig.git_hooks_dir raw)) (removed_field key "git_hooks_dir" "git") in
  let? _ := check_that (negb (RawProjectConfig.skill_hooks_dir raw))
              (removed_field key "skill_hooks_dir" "skills") in
  check_that (negb (RawProjectConfig.workflow_hooks_dir raw))
    (removed_field key "workflow_hooks_dir" "workflow").

Definition resolve_instruction_md (raw : RawProjectConfig.t) : option string :=
  match RawProjectConfig.instruction_md raw with
  | Some new => Some new
  | None => RawProjectConfig.claude_md raw
  end.

(** A template of a project's field; [stable]: it may not depend on the project. *)
Definition validate_template_field (prefix : string) (stable : option string) (o : option string)
    : result unit string :=
  match o with
  | None => Ok tt
  | Some tpl =>
      match validate_template_str tpl with
      | Err e => Err (prefix +:+ e)
      | Ok _ =>
          match stable with
          | None => Ok tt
          | Some why => check_that (negb (starts_with PROJECT_VAR tpl))
              (prefix +:+ "%PROJECT% is not allowed — " +:+ why)
          end
      end
  end.
Definition validate_project_templates (key : string) (instruction_md : option string)
    (raw : RawProjectConfig.t) : result unit string :=
  let field name := "project '" +:+ key +:+ "': " +:+ name +:+ ": " in
  let? _ := validate_template_field (field "instruction_md") None instruction_md in
  let? _ := validate_template_field (field "memory_dir")
    (Some "memory must be project-stable, not workspace-relative") (RawProjectConfig.memory_dir raw) in
  validate_template_field (field "brain_dir")
    (Some "brain must be project-stable, not workspace-relative") (RawProjectConfig.brain_dir raw).

(** The container section: image, mounts and ports. *)
Definition resolve_container (key : string) (o : option RawContainerConfig.t)
    : result ContainerConfig.t string :=
  let raw := default (RawContainerConfig.mk default_image_alias [] []) o in
  match validate_image_alias (RawContainerConfig.image raw) with
  | Err e => Err ("project '" +:+ key +:+ "': container.image: " +:+ e)
  | Ok _ =>
      let? mounts := collect_results (imap (parse_mount_entry key) (RawContainerConfig.mounts raw)) in
      let? ports := collect_results (imap (parse_port_entry key) (RawContainerConfig.ports raw)) in
      Ok (ContainerConfig.mk (RawContainerConfig.image raw) mounts ports)
  end.

(** No command both allowed and denied: the first one that is. *)
Definition check_hostexec (key : string) (raw : RawProjectConfig.t) : result unit string :=
  match list_find (λ cmd, cmd ∈ RawProjectConfig.hostexec_deny raw) (RawProjectConfig.hostexec raw) with
  | Some (_, cmd) => Err ("project '" +:+ key +:+ "': command '" +:+ cmd
      +:+ "' cannot be listed in both `hostexec` and `hostexec_deny`")
  | None => Ok tt
  end.

Definition resolve_project_config (key : string) (raw : RawProjectConfig.t)
    (server_max_implement_cycles : option Z) : result (string * ProjectConfig.t) string :=
  let? _ := check_that (negb (RawProjectConfig.mounts raw)) ("project '" +:+ key
    +:+ "': 'mounts' must be inside [projects." +:+ key +:+ ".container], not at the project root level") in
  let? _ := validate_removed_config_fields key raw in
  let? repo := resolve_project_repo key raw in
  let instruction_md := resolve_instruction_md raw in
  let? _ := validate_project_templates key instruction_md raw in
  let? container := resolve_container key (RawProjectConfig.container raw) in
  let? hostexec_scripts := normalize_hostexec_scripts key (RawProjectConfig.hostexec_scripts raw) in
  let? _ := check_hostexec key raw in
  Ok (key, ProjectConfig.mk key repo (default key (RawProjectConfig.name raw))
    (default DEFAULT_POOL_LIMIT (RawProjectConfig.pool_limit raw))
    (RawProjectConfig.skills raw) (RawProjectConfig.hostexec raw) (RawProjectConfig.hostexec_deny raw)
    instruction_md container
    (default DEFAULT_MAX_FIX_ATTEMPTS (RawProjectConfig.max_fix_attempts raw))
    (RawProjectConfig.max_implement_cycles raw
     ∪ (server_max_implement_cycles ∪ Some DEFAULT_MAX_IMPLEMENT_CYCLES))
    (default default_protected_branches (RawProjectConfig.protected_branches raw))
    (RawProjectConfig.tui raw) (default false (RawProjectConfig.git raw))
    (RawProjectConfig.ignored_workflow_checks raw) hostexec_scripts
    (default DEFAULT_PUSH_AGAIN_EXIT_CODE (RawProjectConfig.push_again_exit_code raw))
    (RawProjectConfig.memory_dir raw) (RawProjectConfig.brain_dir raw)
    (RawProjectConfig.forge raw) (RawProjectConfig.runtime raw)).

(** [resolve_project]: the flag, the environment, the directory's name; the
    projects in the order of their map. *)
Definition resolve_project (explicit env_project : option string) (cwd_name : option string)
    (projects : list (string * ProjectConfig.t)) : option string :=
  match explicit with
  | Some p => Some p
  | None =>
      match env_project with
      | Some e => if bool_decide (e = "") then None else Some e
      | None => None
      end ∪
      match cwd_name with
      | None => None
      | Some d =>
          if bool_decide (d = "") then None
          else if bool_decide (d ∈ projects.*1) then Some d
          else (λ x, x.2.1) <$> list_find (λ kp : string * ProjectConfig.t, ProjectConfig.name kp.2 = d) projects
      end
  end.

(** ** Global skills *)

Module GlobalSkill.
Record t : Type := mk { name : string; host_path : string }.
End GlobalSkill.
Module GlobalSkillsConfig.
Record t : Type := mk { common : list GlobalSkill.t; code : list GlobalSkill.t; design : list GlobalSkill.t }.
Definition for_strategy (g : t) (strategy : string) : list GlobalSkill.t :=
  common g ++
  if bool_decide (strategy = "code") then code g
  else if bool_decide (strategy = "design") then design g
  else if bool_decide (strategy = "manual") then code g ++ design g
  else [].
End GlobalSkillsConfig.
Module RawSkills.
Record t : Type := mk {
  common : list (string * string); code : list (string * string); design : list (string * string)
}.
End RawSkills.

(** ** The top level *)

Module ProxyConfig.
Record t : Type := mk { hostname : string; allowlist : list string }.
End ProxyConfig.
Module NetworkConfig.
Record t : Type := mk { name : string; worker_name : string; server_hostname : string; worker_prefix : string }.
End NetworkConfig.
Module BackupConfig.
Record t : Type := mk { path : option string; interval_minutes : Z; enabled : bool; retain_count : Z }.
End BackupConfig.
(** [TicketDbConfig], [WorkflowDbConfig] and, without backup, [DatabaseConfig]. *)
Module DbConfig.
Record t : Type := mk {
  host : string; port : Z; user : string; password : string; name : string;
  bind_address : option string; backup : option BackupConfig.t
}.
Definition database_url (d : t) : string :=
  "postgres://" +:+ user d +:+ ":" +:+ password d +:+ "@" +:+ host d +:+ ":" +:+ pretty (port d)
  +:+ "/" +:+ name d.
End DbConfig.
Module ServerConfig.
Record t : Type := mk {
  container_command : string; stale_worker_ttl_days : Z; max_implement_cycles : option Z;
  poll_interval_ms : Z; github_scan_interval_secs : Z; builderd_retry_count : Z;
  builderd_retry_backoff_ms : Z; ui_event_fallback_interval_ms : Z
}.
End ServerConfig.

Module RawBackup.
Record t : Type := mk {
  path : option string; interval_minutes : option Z; enabled : option bool; retain_count : option Z
}.
Definition empty : t := mk None None None None.
End RawBackup.
Module RawDb.
Record t : Type := mk {
  host : option string; port : option Z; user : option string; password : option string;
  name : option string; bind_address : option string; backup : option RawBackup.t
}.
Definition empty : t := mk None None None None None None None.
End RawDb.
Module RawServer.
Record t : Type := mk {
  container_command : option string; stale_worker_ttl_days : option Z; max_implement_cycles : option Z;
  poll_interval_ms : option Z; github_scan_interval_secs : option Z; builderd_retry_count : option Z;
  builderd_retry_backoff_ms : option Z; ui_event_fallback_interval_ms : option Z
}.
Definition empty : t := mk None None None None None None None None.
End RawServer.

Module RawConfig.
Record t : Type := mk {
  agent : option string;
  runtime : option WorkerRuntime;
  workspace : option string;
  server_port : option Z;
  worker_port : option Z;
  builderd_port : option Z;
  compose_file : option string;
  git_branch_prefix : option string;
  proxy : option (option string * option (list string));
  network : option (option string * option string * option string * option string);
  db : option RawDb.t;
  ticket_db : option RawDb.t;
  workflow_db : option RawDb.t;
  server : option RawServer.t;
  logs_dir : option string;
  workspace_brain_dir : option string;
  projects : list (string * RawProjectConfig.t);
  skills : option RawSkills.t
}.
Definition empty : t :=
  mk None None None None None None None None None None None None None None None None [] None.
End RawConfig.

(** [Config]: resolved, ready to use. *)
Module LoadedConfig.
Record t : Type := mk {
  agent : AgentType;
  runtime : WorkerRuntime;
  config_dir : string;
  workspace : string;
  server_port : Z;
  worker_port : Z;
  builderd_port : Z;
  compose_file : string;
  proxy : ProxyConfig.t;
  network : NetworkConfig.t;
  db : DbConfig.t;
  ticket_db : DbConfig.t;
  workflow_db : DbConfig.t;
  server : ServerConfig.t;
  logs_dir : string;
  git_branch_prefix : string;
  projects : gmap string ProjectConfig.t;
  global_skills : GlobalSkillsConfig.t;
  workspace_brain_dir : option string
}.
End LoadedConfig.

Definition DEFAULT_SERVER_PORT : Z := 12321%Z.
Definition DEFAULT_DB_PORT : Z := 5432%Z.

Definition resolve_top_level_agent (raw : option string) : result AgentType string :=
  match raw with
  | None => Ok AgentType.Claude
  | Some name =>
      match AgentType.parse name with
      | Ok a => Ok a
      | Err _ => Err ("agent: unknown agent '" +:+ name +:+ "'. Valid agents: "
                   +:+ debug_strs (AgentType.name <$> AgentType.ALL))
      end
  end.

Definition validate_workspace_brain_dir (raw : option string) : result (option string) string :=
  let? _ := validate_template_field "workspace_brain_dir: "
    (Some "workspace-mode workers have no project to resolve it against") raw in
  Ok raw.

(** The first occurrence of each domain, in the order of the agents. *)
Definition dedup (l : list string) : list string :=
  reverse (foldl (λ seen d, if decide (d ∈ seen) then seen else d :: seen) [] l).
Definition default_proxy_allowlist : list string :=
  dedup (AgentType.ALL ≫= AgentType.proxy_domains).

Definition resolve_proxy (raw : option (option string * option (list string))) : ProxyConfig.t :=
  let '(hostname, allowlist) := default (None, None) raw in
  ProxyConfig.mk (default "ur-squid" hostname) (default default_proxy_allowlist allowlist).
Definition resolve_network (raw : option (option string * option string * option string * option string))
    : NetworkConfig.t :=
  let '(name, worker_name, server_hostname, worker_prefix) := default (None, None, None, None) raw in
  NetworkConfig.mk (default "ur" name) (default "ur-workers" worker_name)
    (default "ur-server" server_hostname) (default "ur-worker-" worker_prefix).
Definition resolve_backup (raw : option RawBackup.t) : BackupConfig.t :=
  let b := default RawBackup.empty raw in
  BackupConfig.mk (RawBackup.path b) (default 30%Z (RawBackup.interval_minutes b))
    (default true (RawBackup.enabled b)) (default 3%Z (RawBackup.retain_count b)).

(** [u16] addition as it is in a release build; a debug build panics instead. *)
Definition add_u16 (a b : Z) : Z := ((a + b) mod 65536)%Z.

Section Load.
(** [std::env::var], [Path::exists] and [Path::is_dir]. *)
Context (env_var : string → option string) (path_exists is_dir : string → bool).

Definition worker_image_tag : string :=
  match env_var "UR_IMAGE_TAG" with
  | Some tag => if bool_decide (tag = "") then "latest" else tag
  | None => "latest"
  end.

Definition resolve_server (raw : option RawServer.t) : ServerConfig.t :=
  let s := default RawServer.empty raw in
  ServerConfig.mk
    (default (default "docker" (env_var "UR_CONTAINER")) (RawServer.container_command s))
    (default 7%Z (RawServer.stale_worker_ttl_days s))
    (RawServer.max_implement_cycles s ∪ Some DEFAULT_MAX_IMPLEMENT_CYCLES)
    (default 500%Z (RawServer.poll_interval_ms s)) (default 30%Z (RawServer.github_scan_interval_secs s))
    (default 3%Z (RawServer.builderd_retry_count s)) (default 200%Z (RawServer.builderd_retry_backoff_ms s))
    (default 5000%Z (RawServer.ui_event_fallback_interval_ms s)).

(** [resolve_ticket_db] and [resolve_workflow_db]: the password of the environment
    comes first. *)
Definition resolve_live_db (password_env default_name : string) (o : option RawDb.t) : DbConfig.t :=
  let raw := default RawDb.empty o in
  DbConfig.mk (default "ur-postgres" (RawDb.host raw)) (default DEFAULT_DB_PORT (RawDb.port raw))
    (default "ur" (RawDb.user raw))
    (default (default "ur" (RawDb.password raw)) (env_var password_env))
    (default default_name (RawDb.name raw)) (RawDb.bind_address raw)
    (Some (resolve_backup (RawDb.backup raw))).
Definition resolve_ticket_db : option RawDb.t → DbConfig.t :=
  resolve_live_db "UR_TICKET_DB_PASSWORD" "ur_tickets".
Definition resolve_workflow_db : option RawDb.t → DbConfig.t :=
  resolve_live_db "UR_WORKFLOW_DB_PASSWORD" "ur_workflow".
Definition resolve_database (o : option RawDb.t) : DbConfig.t :=
  let raw := default RawDb.empty o in
  DbConfig.mk (default "ur-postgres" (RawDb.host raw)) (default DEFAULT_DB_PORT (RawDb.port raw))
    (default "ur" (RawDb.user raw)) (default "ur" (RawDb.password raw))
    (default "ur" (RawDb.name raw)) (RawDb.bind_address raw) None.

Definition is_valid_skill_name (name : string) : bool :=
  negb (bool_decide (name = ""))
  && all_chars (λ c, is_ascii_lowercase c || is_ascii_digit c || bool_decide (c = "_"%char)
                     || bool_decide (c = "-"%char)) name.

Definition resolve_skill (section config_dir : string) (entry : string * string)
    : result GlobalSkill.t string :=
  let '(name, path_template) := entry in
  let here := "skills." +:+ section +:+ "." +:+ name +:+ ": " in
  let? _ := check_that (is_valid_skill_name name)
    ("skills." +:+ section +:+ ": skill name '" +:+ name +:+ "' is invalid — must match ^[a-z0-9_-]+$") in
  match validate_template_str path_template with
  | Err e => Err (here +:+ "template path invalid: " +:+ e)
  | Ok _ =>
      let? _ := check_that (negb (starts_with PROJECT_VAR path_template))
        (here +:+ "%PROJECT% is not allowed for skill paths — use %URCONFIG% or an absolute path") in
      match resolve_template_path path_template config_dir with
      | Err e => Err (here +:+ e)
      | Ok (ResolvedTemplatePath.ProjectRelative _) =>
          Err (here +:+ "%PROJECT% is not allowed for skill paths")
      | Ok (ResolvedTemplatePath.HostPath p) =>
          let in_container := bool_decide (is_Some (env_var "UR_HOST_CONFIG")) in
          let? _ := check_that (in_container || path_exists p) (here +:+ "path does not exist: " +:+ p) in
          let? _ := check_that (in_container || is_dir p) (here +:+ "path is not a directory: " +:+ p) in
          Ok (GlobalSkill.mk name p)
      end
  end.
Definition resolve_skill_section (section config_dir : string) (raw : list (string * string))
    : result (list GlobalSkill.t) string :=
  collect_results (resolve_skill section config_dir <$> raw).

(** The first name of the common skills that a strategy section repeats. *)
Fixpoint check_common (common code design : list GlobalSkill.t) : result unit string :=
  match common with
  | [] => Ok tt
  | c :: rest =>
      let clash section := "skills: skill name '" +:+ GlobalSkill.name c
        +:+ "' appears in both [skills.common] and [skills." +:+ section
        +:+ "] — common skills are always included; remove it from one section" in
      let? _ := check_that (negb (bool_decide (GlobalSkill.name c ∈ (GlobalSkill.name <$> code)))) (clash "code") in
      let? _ := check_that (negb (bool_decide (GlobalSkill.name c ∈ (GlobalSkill.name <$> design)))) (clash "design") in
      check_common rest code design
  end.
Definition resolve_global_skills (raw : option RawSkills.t) (config_dir : string)
    : result GlobalSkillsConfig.t string :=
  match raw with
  | None => Ok (GlobalSkillsConfig.mk [] [] [])
  | Some raw =>
      let? common := resolve_skill_section "common" config_dir (RawSkills.common raw) in
      let? code := resolve_skill_section "code" config_dir (RawSkills.code raw) in
      let? design := resolve_skill_section "design" config_dir (RawSkills.design raw) in
      let? _ := check_common common code design in
      Ok (GlobalSkillsConfig.mk common code design)
  end.

(** [Config::from_toml_str], after the TOML library has read the document. *)
Definition from_raw (raw : RawConfig.t) (config_dir : string) : result LoadedConfig.t string :=
  let? agent := resolve_top_level_agent (RawConfig.agent raw) in
  let server_port := default DEFAULT_SERVER_PORT (RawConfig.server_port raw) in
  let server := resolve_server (RawConfig.server raw) in
  let? projects := collect_results
    ((λ kp, resolve_project_config kp.1 kp.2 (ServerConfig.max_implement_cycles server))
       <$> RawConfig.projects raw) in
  let? global_skills := resolve_global_skills (RawConfig.skills raw) config_dir in
  let? workspace_brain_dir := validate_workspace_brain_dir (RawConfig.workspace_brain_dir raw) in
  Ok (LoadedConfig.mk agent (default WorkerRuntime.Container (RawConfig.runtime raw)) config_dir
    (default (path_join config_dir "workspace") (RawConfig.workspace raw))
    server_port
    (default (add_u16 server_port 1) (RawConfig.worker_port raw))
    (default (add_u16 server_port 2) (RawConfig.builderd_port raw))
    (default (path_join config_dir "docker-compose.yml") (RawConfig.compose_file raw))
    (resolve_proxy (RawConfig.proxy raw)) (resolve_network (RawConfig.network raw))
    (resolve_database (RawConfig.db raw)) (resolve_ticket_db (RawConfig.ticket_db raw))
    (resolve_workflow_db (RawConfig.workflow_db raw)) server
    (match RawConfig.logs_dir raw with
     | Some p => if starts_with "/" p then p else path_join config_dir p
     | None => path_join config_dir "logs"
     end)
    (default "" (RawConfig.git_branch_prefix raw))
    (list_to_map projects) global_skills workspace_brain_dir).
End Load.
