(* ===== verification/ConfigProps.v ===== *)
(** * Properties of the configuration

    A configuration that loads can be used: every template in it resolves, every
    mount, port, image and script is well formed, every project has a limit on its
    implementing cycles.  Mounts are parsed and printed back, the forge of a
    repository is read off its host, and the default ports follow the server's. *)

From S2P Require Import Prelude RustStd TextLemmas Model Agent UrConfig.
From Stdlib Require Import Ascii String Lia.
Local Open Scope stdpp_scope.

(** ** Results *)

Lemma check_that_Ok {E} b (e : E) : check_that b e = Ok tt ↔ b = true.
Proof. by destruct b. Qed.
(** Takes the successful path through a chain of checks. *)
Ltac take_ok :=
  repeat match goal with
  | H : context [match ?r with Ok _ => _ | Err _ => _ end] |- _ =>
      let E := fresh "Hok" in destruct r eqn:E; [|discriminate H]
  | H : (let '_ := ?p in _) = _ |- _ => destruct p
  | H : Ok _ = Ok _ |- _ => injection H as H; subst
  | H : check_that _ _ = Ok ?u |- _ => destruct u; apply check_that_Ok in H
  | u : unit |- _ => destruct u
  end.

(** ** Templates *)

(** A template that passes validation resolves; to a path on the host unless it is
    relative to the project. *)
Lemma validated_resolves tpl dir : validate_template_str tpl = Ok tt →
  ∃ r, resolve_template_path tpl dir = Ok r
     ∧ (starts_with PROJECT_VAR tpl = false → ∃ p, r = ResolvedTemplatePath.HostPath p).
Proof.
  unfold validate_template_str. intros H. take_ok. unfold resolve_template_path, strip_prefix.
  unfold starts_with in *. destruct (String.prefix PROJECT_VAR tpl) eqn:Hp; [by eexists|].
  destruct (String.prefix URCONFIG_VAR tpl); [eauto|].
  simpl in H. rewrite H. eauto.
Qed.

(** A template that a project-stable field holds names a path on the host. *)
Definition host_template (tpl : string) : Prop :=
  ∀ dir, ∃ p, resolve_template_path tpl dir = Ok (ResolvedTemplatePath.HostPath p).
Lemma validated_host tpl : validate_template_str tpl = Ok tt → starts_with PROJECT_VAR tpl = false →
  host_template tpl.
Proof.
  intros Hv Hp dir. destruct (validated_resolves tpl dir Hv) as (r & -> & Hr).
  destruct (Hr Hp) as [p ->]. eauto.
Qed.
Lemma validate_template_field_Ok prefix stable o : validate_template_field prefix stable o = Ok tt →
  ∀ tpl, o = Some tpl →
    (∀ dir, is_ok (resolve_template_path tpl dir) = true) ∧ (is_Some stable → host_template tpl)
    ∧ (starts_with PROJECT_VAR tpl = false → host_template tpl).
Proof.
  intros H tpl ->. cbn in H. destruct (validate_template_str tpl) as [[]|] eqn:Hv; [|done].
  split_and!; [| |by apply validated_host].
  - intros dir. by destruct (validated_resolves tpl dir Hv) as (r & -> & _).
  - intros [why ->]. apply check_that_Ok, negb_true_iff in H. by apply validated_host.
Qed.

(** ** Mounts *)

(** A mount as it is written, which is also the text that the mount's container
    path carries for Docker. *)
Definition print_mount (m : MountConfig.t) : string :=
  MountConfig.source m +:+ String ":" (MountConfig.destination m)
  +:+ (if MountConfig.readonly m then String ":" "ro" else EmptyString).
(** Only a read-only mount can have a colon in its destination. *)
Record mount_ok (m : MountConfig.t) : Prop := MountOk {
  source_plain : lacks ":" (MountConfig.source m);
  source_some : MountConfig.source m ≠ "";
  source_valid : validate_template_str (MountConfig.source m) = Ok tt;
  source_host : starts_with PROJECT_VAR (MountConfig.source m) = false;
  destination_absolute : starts_with "/" (MountConfig.destination m) = true;
  destination_plain : MountConfig.readonly m = false → lacks ":" (MountConfig.destination m)
}.

Section Mounts.
Context (project_key : string) (index : nat).

(** What the suffix parser returns, by the number of colons. *)
Lemma parse_mount_suffix_plain s d : lacks ":" s → lacks ":" d →
  parse_mount_suffix project_key index (s +:+ String ":" d) = Ok (s +:+ String ":" d, false).
Proof.
  intros Hs Hd. unfold parse_mount_suffix.
  rewrite rfind_char_app, find_char_app by done. by rewrite bool_decide_true.
Qed.
Lemma parse_mount_suffix_ro s d : lacks ":" s →
  parse_mount_suffix project_key index (s +:+ String ":" d +:+ String ":" "ro")
  = Ok (s +:+ String ":" d, true).
Proof.
  intros Hs. unfold parse_mount_suffix.
  assert (find ":" (s +:+ String ":" d +:+ String ":" "ro") = Some (String.length s)) as ->.
  { rewrite app_cons. by apply find_char_app. }
  rewrite <-(app_assoc_str s (String ":" d) (String ":" "ro")).
  rewrite rfind_char_app, str_drop_cut, str_take_app by done.
  rewrite bool_decide_false by (rewrite length_app_str; simpl; lia).
  by rewrite bool_decide_true.
Qed.
Lemma parse_mount_suffix_Ok raw s b : parse_mount_suffix project_key index raw = Ok (s, b) →
  raw = s +:+ (if b then String ":" "ro" else EmptyString)
  ∧ (b = false → ∀ x y, raw = x +:+ String ":" y → lacks ":" x → lacks ":" y).
Proof.
  unfold parse_mount_suffix. destruct (rfind_char ":" raw) as [j|] eqn:Hr; cycle 1.
  { intros [= <- <-]. rewrite app_empty. split; [done|]. intros _ x y -> _.
    apply rfind_char_None, lacks_app in Hr as [_ [? _]%lacks_cons]. done. }
  apply rfind_char_Some in Hr as (a & z & -> & Hz & ->).
  destruct (find ":" _) as [i|] eqn:Hf; cycle 1.
  { apply find_char_None, lacks_app in Hf as [_ [? _]%lacks_cons]. done. }
  apply find_char_Some in Hf as (x & y & E & Hx & ->). case_bool_decide as Hl.
  - intros [= <- <-]. rewrite app_empty. split; [done|]. intros _ x' y' E' Hx'.
    rewrite E in E'. apply cut_inj in E' as [-> <-]; [|done..].
    apply (f_equal (str_drop (S (String.length x')))) in E. rewrite str_drop_cut in E.
    rewrite Hl, str_drop_cut in E. by subst y.
  - rewrite str_drop_cut, str_take_app. case_bool_decide as Hro; [|done]. subst z.
    by intros [= <- <-].
Qed.
End Mounts.

Lemma parsed_mount project_key index raw m :
  parse_mount_entry project_key index raw = Ok m → mount_ok m ∧ raw = print_mount m.
Proof.
  unfold parse_mount_entry. intros H.
  destruct (parse_mount_suffix _ _ _) as [[s b]|] eqn:Hsuf; [|done].
  apply parse_mount_suffix_Ok in Hsuf as [-> Hplain].
  destruct (find ":" s) as [i|] eqn:Hf; [|done].
  apply find_char_Some in Hf as (src & dst & -> & Hs & ->).
  rewrite str_take_app, str_drop_cut in H. take_ok. split.
  - apply negb_true_iff, bool_decide_eq_false in Hok. apply negb_true_iff in Hok2.
    split; cbn; try done. intros ->. apply (Hplain eq_refl src dst); [by rewrite app_empty|done].
  - unfold print_mount. cbn. by rewrite app_assoc_str.
Qed.

(** Mounts are parsed as they are written: a well-formed mount printed as
    source, destination and optional suffix parses back to itself, and a text that
    parses is the printed form of the mount it gives, which is well formed.  So
    exactly the texts of well-formed mounts are accepted, in one way each. *)
Theorem mount_roundtrip project_key index :
  (∀ m, mount_ok m → parse_mount_entry project_key index (print_mount m) = Ok m)
  ∧ (∀ raw m, parse_mount_entry project_key index raw = Ok m → mount_ok m ∧ raw = print_mount m).
Proof.
  split.
  - intros [src dst ro] [Hs Hn Hv Hp Hd Hc]; simpl in *. unfold parse_mount_entry, print_mount.
    cbn [MountConfig.source MountConfig.destination MountConfig.readonly].
    assert (parse_mount_suffix project_key index
              (src +:+ String ":" dst +:+ (if ro then String ":" "ro" else EmptyString))
            = Ok (src +:+ String ":" dst, ro)) as ->.
    { destruct ro; [by apply parse_mount_suffix_ro|].
      rewrite app_empty. by apply parse_mount_suffix_plain; [|apply Hc]. }
    rewrite find_char_app by done. rewrite str_take_app, str_drop_cut.
    assert (bool_decide (src = "") = false) as -> by (by apply bool_decide_false).
    assert (bool_decide (dst = "") = false) as -> by (apply bool_decide_false; by intros ->).
    cbn [negb check_that]. by rewrite Hv, Hp, Hd.
  - apply parsed_mount.
Qed.

(** ** Projects *)

Lemma digits_go_range lo hi sign ovf s acc z : (lo <= acc <= hi)%Z →
  digits_go lo hi sign ovf s acc = Ok z → (lo <= z <= hi)%Z.
Proof.
  revert acc. induction s as [|c s IH]; intros acc Hacc; simpl; [by intros [= <-]|].
  destruct (to_digit c); [|done]. unfold in_range. case_match eqn:E; [|done].
  intros Hz. apply IH in Hz; [done|]. lia.
Qed.
Lemma parse_u16_range s z : parse_u16 s = Ok z → (0 <= z <= U16_MAX)%Z.
Proof.
  unfold parse_u16, parse_int, U16_MAX. destruct s as [|c s]; [done|]. intros H.
  repeat (case_match; try done); by eapply digits_go_range; [|exact H].
Qed.

Definition port_ok (p : PortMapping.t) : Prop :=
  (0 <= PortMapping.host_port p <= U16_MAX)%Z ∧ (0 <= PortMapping.container_port p <= U16_MAX)%Z.
Definition script_ok (s : string) : Prop :=
  s ≠ "" ∧ starts_with "/" s = false ∧ (".." ∉ split "/" s) ∧ starts_with PROJECT_VAR s = false.
(** What the server relies on when it launches a worker for a project, or drives a
    workflow of it. *)
Record project_ok (key : string) (p : ProjectConfig.t) : Prop := ProjectOk {
  project_key_ok : ProjectConfig.key p = key;
  project_limit : is_Some (ProjectConfig.max_implement_cycles p);
  project_mounts : Forall (λ m, mount_ok m ∧ host_template (MountConfig.source m))
                     (ContainerConfig.mounts (ProjectConfig.container p));
  project_ports : Forall port_ok (ContainerConfig.ports (ProjectConfig.container p));
  project_image a tag :
    is_ok (AgentType.resolve_image a (ContainerConfig.image (ProjectConfig.container p)) tag) = true;
  (** In the project's directory, or on the host. *)
  project_instruction tpl : ProjectConfig.instruction_md p = Some tpl →
    (∀ dir, is_ok (resolve_template_path tpl dir) = true)
    ∧ (starts_with PROJECT_VAR tpl = false → host_template tpl);
  project_memory tpl : ProjectConfig.memory_dir p = Some tpl → host_template tpl;
  project_brain tpl : ProjectConfig.brain_dir p = Some tpl → host_template tpl;
  project_scripts : Forall script_ok (ProjectConfig.hostexec_scripts p);
  project_hostexec cmd : cmd ∈ ProjectConfig.hostexec p → cmd ∉ ProjectConfig.hostexec_deny p
}.

(** A project is declared with a repository, or as a local one without repository and
    pool. *)
Definition repo_by_choice (raw : RawProjectConfig.t) (p : ProjectConfig.t) : Prop :=
  match ProjectConfig.repo p with
  | Some url => RawProjectConfig.repo raw = Some url ∧ RawProjectConfig.local raw = false
  | None => RawProjectConfig.repo raw = None ∧ RawProjectConfig.local raw = true
            ∧ RawProjectConfig.pool_limit raw = None
  end.

Lemma collect_Forall {A B} (f : A → result B string) (P : B → Prop) l l' :
  (∀ a b, a ∈ l → f a = Ok b → P b) → collect_results (f <$> l) = Ok l' → Forall P l'.
Proof.
  intros Hf Hl%collect_results_Ok. revert l' Hl. induction l as [|a l IH]; intros [|b l']; try done.
  intros [= Ha Hl]. constructor; [by eapply Hf; [left|]|]. apply IH; [|done]. intros a' b' Ha'. apply Hf. by right.
Qed.
Lemma collect_imap_Forall {A B} (f : nat → A → result B string) (P : B → Prop) l l' :
  (∀ i a b, f i a = Ok b → P b) → collect_results (imap f l) = Ok l' → Forall P l'.
Proof.
  intros Hf Hl%collect_results_Ok. apply Forall_lookup. intros i b Hb.
  apply (f_equal (.!! i)) in Hl. rewrite list_lookup_imap, list_lookup_fmap, Hb in Hl.
  destruct (l !! i) as [a|]; [|done]. injection Hl as Ha. by eapply Hf.
Qed.

Lemma parse_port_ok key i raw p : parse_port_entry key i raw = Ok p → port_ok p.
Proof.
  unfold parse_port_entry. destruct (find ":" raw) as [n|]; [|done].
  destruct (parse_u16 (str_take n raw)) eqn:E1; [|done].
  destruct (parse_u16 (str_drop (S n) raw)) eqn:E2; [|done]. intros [= <-]. apply parse_u16_range in E1, E2. by split.
Qed.
Lemma normalize_script_ok key s n : normalize_hostexec_script key s = Ok n → script_ok n.
Proof.
  unfold normalize_hostexec_script. intros H. take_ok.
  apply negb_true_iff in Hok, Hok0, Hok1, Hok2.
  apply bool_decide_eq_false in Hok, Hok1. by split.
Qed.
Lemma image_ok raw : validate_image_alias raw = Ok tt → ∀ a tag, is_ok (AgentType.resolve_image a raw tag) = true.
Proof.
  unfold validate_image_alias, AgentType.resolve_image. intros H a tag.
  destruct (is_image_reference raw); [done|]. do 2 (case_bool_decide; try done).
Qed.
Lemma hostexec_disjoint key raw : check_hostexec key raw = Ok tt →
  ∀ cmd, cmd ∈ RawProjectConfig.hostexec raw → cmd ∉ RawProjectConfig.hostexec_deny raw.
Proof.
  unfold check_hostexec. destruct (list_find _ _) as [[]|] eqn:E; [done|]. intros _ cmd Hc.
  apply list_find_None in E. rewrite Forall_forall in E. by apply E.
Qed.

Lemma resolved_repo key raw repo p : resolve_project_repo key raw = Ok repo → ProjectConfig.repo p = repo →
  repo_by_choice raw p.
Proof.
  unfold resolve_project_repo, repo_by_choice. intros H ->.
  destruct (RawProjectConfig.repo raw), (RawProjectConfig.local raw); try done; [by injection H as <-|].
  destruct (RawProjectConfig.pool_limit raw); [done|]. by injection H as <-.
Qed.
Lemma resolved_project key raw limit k p :
  resolve_project_config key raw limit = Ok (k, p) → k = key ∧ project_ok key p ∧ repo_by_choice raw p.
Proof.
  unfold resolve_project_config, validate_project_templates, resolve_container. intros H. take_ok.
  split; [done|]. split; [|by eapply resolved_repo]. split; cbn.
  - done.
  - by destruct (RawProjectConfig.max_implement_cycles raw), limit.
  - eapply collect_imap_Forall; [|done]. intros i x m Hm.
    apply parsed_mount in Hm as [Hm _]. split; [done|].
    by apply validated_host; apply Hm.
  - eapply collect_imap_Forall; [|done]. intros i x q. apply parse_port_ok.
  - by apply image_ok.
  - intros tpl Ht. destruct (validate_template_field_Ok _ _ _ Hok9 tpl Ht) as (? & _ & ?). by split.
  - intros tpl Ht. destruct (validate_template_field_Ok _ _ _ Hok10 tpl Ht) as (_ & Hs & _). by apply Hs.
  - intros tpl Ht. destruct (validate_template_field_Ok _ _ _ Hok2 tpl Ht) as (_ & Hs & _). by apply Hs.
  - eapply collect_Forall; [|done]. intros x n _. apply normalize_script_ok.
  - by eapply hostexec_disjoint.
Qed.

(** ** The whole file *)

Section Load.
Context (env_var : string → option string) (path_exists is_dir : string → bool).

Lemma resolved_skill section dir entry g :
  resolve_skill env_var path_exists is_dir section dir entry = Ok g →
  is_valid_skill_name (GlobalSkill.name g) = true
  ∧ (env_var "UR_HOST_CONFIG" = None → is_dir (GlobalSkill.host_path g) = true).
Proof.
  unfold resolve_skill. destruct entry as [n tpl]. intros H. take_ok.
  1: done. split; [done|]. cbn. intros Hn.
  match goal with H : context [is_dir] |- _ => by rewrite Hn in H end.
Qed.
Lemma check_common_Ok common code design : check_common common code design = Ok tt →
  ∀ g, g ∈ common → (GlobalSkill.name g ∉ GlobalSkill.name <$> code)
                    ∧ (GlobalSkill.name g ∉ GlobalSkill.name <$> design).
Proof.
  induction common as [|c common IH]; [by intros _ g ?%elem_of_nil|]. simpl. intros H. take_ok.
  apply negb_true_iff, bool_decide_eq_false in Hok, Hok0.
  intros g [->|Hg]%elem_of_cons; [by split|by apply IH].
Qed.

Lemma resolved_skills raw dir gs :
  resolve_global_skills env_var path_exists is_dir raw dir = Ok gs →
  ∀ g, g ∈ GlobalSkillsConfig.common gs →
    is_valid_skill_name (GlobalSkill.name g) = true
    ∧ ∀ g', g' ∈ GlobalSkillsConfig.code gs ++ GlobalSkillsConfig.design gs →
        GlobalSkill.name g' ≠ GlobalSkill.name g.
Proof.
  unfold resolve_global_skills. intros H. destruct raw as [raw|]; [|by injection H as <-; intros g ?%elem_of_nil].
  take_ok. cbn. intros g Hg. split.
  - eapply (collect_Forall _ (λ g, is_valid_skill_name (GlobalSkill.name g) = true)) in Hok;
      [rewrite Forall_forall in Hok; by apply Hok|].
    intros e b _ Hb. by apply resolved_skill in Hb as [? _].
  - destruct (check_common_Ok _ _ _ Hok2 g Hg) as [Hc Hd]. intros g' Hg' En.
    rewrite <-En in Hc, Hd. apply elem_of_app in Hg' as [Hg'|Hg'];
      [apply Hc|apply Hd]; by apply list_elem_of_fmap_2.
Qed.

(** C16: A configuration that loads is usable.  Every project is stored under its key and
    comes from a section of that key, which gives the repository the project has, or
    declares the project local and then has neither a repository nor a pool limit.  Its
    mounts are well formed with sources on the host; its memory and brain templates
    name paths on the host, and so does its instruction template unless it is relative
    to the project; image and ports are valid, scripts are relative and stay inside the
    project, no command is both allowed and denied, and its workflows have a limit on
    implementing cycles.  The skills shared by all workers have valid names that no
    strategy repeats; the brain of workers without a project is on the host. *)
Theorem loaded_config_usable raw dir c :
  from_raw env_var path_exists is_dir raw dir = Ok c →
  map_Forall (λ key p, project_ok key p
      ∧ ∃ section, (key, section) ∈ RawConfig.projects raw ∧ repo_by_choice section p) (LoadedConfig.projects c)
  ∧ (∀ g, g ∈ GlobalSkillsConfig.common (LoadedConfig.global_skills c) →
       is_valid_skill_name (GlobalSkill.name g) = true
       ∧ ∀ strategy, strategy ∈ ["code"; "design"; "manual"] → ∀ g',
           g' ∈ GlobalSkillsConfig.for_strategy (LoadedConfig.global_skills c) strategy →
           GlobalSkill.name g' = GlobalSkill.name g →
           g' ∈ GlobalSkillsConfig.common (LoadedConfig.global_skills c))
  ∧ (∀ tpl, LoadedConfig.workspace_brain_dir c = Some tpl → host_template tpl).
Proof.
  unfold from_raw. intros H. take_ok. cbn. split_and!.
  - intros k p Hk%elem_of_list_to_map_2.
    assert (Forall (λ kp, project_ok kp.1 kp.2
      ∧ ∃ section, (kp.1, section) ∈ RawConfig.projects raw ∧ repo_by_choice section kp.2) a0) as Hall.
    { eapply collect_Forall; [|exact Hok0]. intros [key rp] [k' p'] Hin Hr.
      apply resolved_project in Hr as (-> & ? & ?). split; [done|]. by exists rp. }
    rewrite Forall_forall in Hall. by apply (Hall (k, p)).
  - intros g Hg. destruct (resolved_skills _ _ _ Hok1 g Hg) as [Hn Hother]. split; [done|].
    intros strategy _ g' Hg' En. apply elem_of_app in Hg' as [Hg'|Hg']; [done|].
    exfalso. apply (Hother g'); [|done]. apply elem_of_app.
    repeat case_bool_decide; [by left|by right|by apply elem_of_app|by apply elem_of_nil in Hg'].
  - intros tpl Ht. unfold validate_workspace_brain_dir in Hok2. take_ok.
    destruct (validate_template_field_Ok _ _ _ Hok3 tpl Ht) as (_ & Hs & _). by apply Hs.
Qed.
End Load.

(** ** Ports *)

(** The three default ports are consecutive and distinct up to 65533; beyond, they
    wrap around: the worker port of the last port is port 0. *)
Lemma default_ports env_var path_exists is_dir raw dir c p :
  from_raw env_var path_exists is_dir raw dir = Ok c →
  RawConfig.server_port raw = Some p → RawConfig.worker_port raw = None →
  RawConfig.builderd_port raw = None → (0 <= p <= 65533)%Z →
  LoadedConfig.server_port c = p ∧ LoadedConfig.worker_port c = (p + 1)%Z
  ∧ LoadedConfig.builderd_port c = (p + 2)%Z.
Proof.
  unfold from_raw. intros H Hp Hw Hb Hr. take_ok. cbn. rewrite Hp, Hw, Hb. cbn. unfold add_u16.
  by rewrite !Z.mod_small by lia.
Qed.

(** ** A configuration *)

Definition sample_raw : RawConfig.t :=
  RawConfig.mk (Some "codex") None None (Some 65535%Z) None None None None None None None None None None None
    (Some "%URCONFIG%/brain")
    [("ur", RawProjectConfig.of_repo "git@github.com:o/r.git")]
    (Some (RawSkills.mk [("notes", "/skills/notes")] [] [("draw", "%URCONFIG%/draw")])).
Definition no_env : string → option string := λ _, None.

Lemma loaded_config_usable_witness :
  ∃ c, from_raw no_env (λ _, true) (λ _, true) sample_raw "/cfg" = Ok c
    ∧ map_Forall (λ key p, project_ok key p ∧ ∃ section, (key, section) ∈ RawConfig.projects sample_raw
                    ∧ repo_by_choice section p) (LoadedConfig.projects c)
    ∧ is_Some (LoadedConfig.projects c !! "ur").
Proof.
  destruct (from_raw no_env (λ _, true) (λ _, true) sample_raw "/cfg") as [c|e] eqn:E;
    [|vm_compute in E; discriminate E].
  exists c. split; [reflexivity|]. split; [exact (proj1 (loaded_config_usable _ _ _ _ _ _ E))|].
  vm_compute in E. injection E as <-. vm_compute. by eexists.
Defined.

(** The last port: its worker port is 0. *)
Example last_port_wraps :
  match from_raw no_env (λ _, true) (λ _, true) sample_raw "/cfg" with
  | Ok c => LoadedConfig.worker_port c = 0%Z ∧ LoadedConfig.builderd_port c = 1%Z
  | Err _ => False
  end.
Proof. by vm_compute. Qed.

(** A read-only suffix lets another suffix through, and a doubled slash leaves the
    configuration directory. *)
Example suffix_before_ro :
  parse_mount_entry "ur" 0 "/a:/b:rw:ro" = Ok (MountConfig.mk "/a" "/b:rw" true).
Proof. reflexivity. Qed.
Example template_escapes :
  resolve_template_path "%URCONFIG%//etc" "/cfg" = Ok (ResolvedTemplatePath.HostPath "/etc").
Proof. reflexivity. Qed.
