(* ===== verification/Env.v ===== *)
(** * The outside world

    The sources of values the server draws from code that is not in the
    repository: the clock ([chrono]), UUIDs ([uuid]), random digits ([rand]) and
    the text of database errors ([sqlx]).  They are parameters of the model: the
    n-th draw of a pool is the value of the function at [n].  [EnvLaws] states
    what the code relies on; [test_env] shows that the laws can hold. *)

From S2P Require Import Prelude RustStd.
From Stdlib Require Import Ascii String Lia.
Local Open Scope stdpp_scope.

Class Env : Type := {
  uuid_v4 : nat → string;
  now_rfc3339 : nat → string;
  gen_range36 : nat → nat;
  db_now : nat → string;
  (** [ts::TIMESTAMPTZ < now() - interval '<days> days'] at the n-th draw. *)
  older_than : nat → Z → string → bool;
  sqlx_display : sqlx_error → string
}.

Class EnvLaws `{!Env} : Prop := {
  uuid_v4_inj :: Inj (=) (=) uuid_v4;
  now_mono : ∀ m n, m ≤ n → String.le (now_rfc3339 m) (now_rfc3339 n);
  gen_range36_lt : ∀ n, gen_range36 n < 36
}.

Section Draws.
Context `{!Env} {T E : Type}.

(** [Uuid::new_v4().to_string()] *)
Definition new_uuid : SE (pool T) E string := n ← tick; mret (uuid_v4 n).
(** The database's own clock: a column default [now()::TEXT]. *)
Definition db_clock : SE (pool T) E string := n ← tick; mret (db_now n).
(** [Utc::now().to_rfc3339()] *)
Definition utc_now : SE (pool T) E string := n ← tick; mret (now_rfc3339 n).

Definition BASE36_CHARS : string := "0123456789abcdefghijklmnopqrstuvwxyz".

(** [BASE36_CHARS[rng.gen_range(0..36)]], at the n-th draw. *)
Definition base36_at (n : nat) : Ascii.ascii :=
  match String.get (gen_range36 n) BASE36_CHARS with
  | Some c => c
  | None => "0"%char
  end.
Definition random_base36_char : SE (pool T) E Ascii.ascii :=
  n ← tick; mret (base36_at n).

Fixpoint generate_base36 (len : nat) : SE (pool T) E string :=
  match len with
  | O => mret EmptyString
  | S n => c ← random_base36_char; s ← generate_base36 n; mret (String c s)
  end.

Lemma run_new_uuid t fs n : new_uuid (Pool t fs n) = (Ok (uuid_v4 n), Pool t fs (S n)).
Proof. reflexivity. Qed.
Lemma run_utc_now t fs n : utc_now (Pool t fs n) = (Ok (now_rfc3339 n), Pool t fs (S n)).
Proof. reflexivity. Qed.
Lemma run_db_clock t fs n : db_clock (Pool t fs n) = (Ok (db_now n), Pool t fs (S n)).
Proof. reflexivity. Qed.
Lemma run_random_base36_char t fs n :
  random_base36_char (Pool t fs n) = (Ok (base36_at n), Pool t fs (S n)).
Proof. reflexivity. Qed.

(** The string of [len] draws starting at the n-th. *)
Fixpoint base36_string (len n : nat) : string :=
  match len with
  | O => EmptyString
  | S k => String (base36_at n) (base36_string k (S n))
  end.

(** Drawing a random string only moves the draw counter. *)
Lemma run_generate_base36 len t fs n :
  generate_base36 len (Pool t fs n) = (Ok (base36_string len n), Pool t fs (len + n)).
Proof.
  revert n. induction len as [|len IH]; intros n; [done|]. cbn [generate_base36].
  rewrite run_bind, run_random_base36_char, run_bind, IH, run_ret.
  do 2 f_equal. lia.
Qed.
Lemma length_base36_string len n : String.length (base36_string len n) = len.
Proof. revert n. induction len as [|len IH]; intros n; [done|]. simpl. by rewrite IH. Qed.

Lemma preserves_new_uuid (I : T → Prop) : preserves (on_tables I) new_uuid.
Proof. by intros p. Qed.
Lemma preserves_utc_now (I : T → Prop) : preserves (on_tables I) utc_now.
Proof. by intros p. Qed.
Lemma preserves_db_clock (I : T → Prop) : preserves (on_tables I) db_clock.
Proof. by intros p. Qed.
Lemma preserves_random_base36_char (I : T → Prop) :
  preserves (on_tables I) random_base36_char.
Proof. by intros p. Qed.
Lemma preserves_generate_base36 (I : T → Prop) len :
  preserves (on_tables I) (generate_base36 len).
Proof.
  intros [t fs n] Hp. by rewrite run_generate_base36.
Qed.
End Draws.

#[export] Hint Rewrite @run_new_uuid @run_utc_now @run_db_clock
  @run_random_base36_char @run_generate_base36 : se.
#[export] Hint Resolve preserves_new_uuid preserves_utc_now preserves_db_clock preserves_random_base36_char
  preserves_generate_base36 : preserves.

(** ** A world in which the laws hold *)

Fixpoint nines (n : nat) : string :=
  match n with O => EmptyString | S n => String "9" (nines n) end.

Lemma nines_le m n : m ≤ n → String.le (nines m) (nines n).
Proof.
  revert n. induction m as [|m IH]; intros [|n] Hmn; try done; try lia.
  specialize (IH n ltac:(lia)). exact IH.
Qed.

Definition test_env : Env := {|
  uuid_v4 n := "uuid-" +:+ pretty n;
  now_rfc3339 n := "2024-01-01T00:00:0" +:+ nines n;
  gen_range36 n := n mod 36;
  db_now n := "2024-01-01 00:00:0" +:+ nines n;
  older_than n days ts := bool_decide (String.le ts "2023");
  sqlx_display e :=
    match e with
    | RowNotFound => "no rows returned by a query that expected to return at least one row"
    | Database code => "error returned from database: " +:+ code
    | Protocol msg => "encountered unexpected or invalid data: " +:+ msg
    | Decode msg => "error occurred while decoding: " +:+ msg
    | Io => "error communicating with database"
    end
|}.

Lemma test_env_laws : @EnvLaws test_env.
Proof.
  split.
  - intros m n H. apply (inj (String.append "uuid-")) in H. by apply (inj pretty) in H.
  - intros m n H. apply nines_le in H. exact H.
  - intros n. apply Nat.mod_upper_bound. lia.
Qed.
