(* ===== verification/TicketDb.v ===== *)
(** * The tables of the ticket database

    [ticket_db/migrations/001_initial.sql]: the rows, the primary keys, the
    foreign keys and the recursive triggers, with the meaning of the statements
    the repositories issue.  A statement that breaks a constraint fails with the
    PostgreSQL code and leaves the tables as they were.

    The [ui_events] rows the triggers write are in [UiEvents]; here is the triggers'
    recursive query: it walks the parent chain of every written ticket with
    [UNION ALL], so a statement that would close a parent cycle never finishes
    and never commits.  [acyclic] is therefore a constraint of the tables. *)

From S2P Require Import Prelude RustStd Model.
From Stdlib Require Import Lia.
Local Open Scope stdpp_scope.

(** ** Rows *)

Module ExportTicket.
Record t : Type := mk {
  id : string;
  project : string;
  type_ : string;
  status : string;
  lifecycle_status : string;
  lifecycle_managed : bool;
  priority : Z;
  parent_id : option string;
  title : string;
  body : string;
  branch : option string;
  created_at : string;
  updated_at : string
}.
#[global] Instance eq_dec : EqDecision t.
Proof. solve_decision. Defined.
Definition with_parent (p : option string) (r : t) : t :=
  mk (id r) (project r) (type_ r) (status r) (lifecycle_status r) (lifecycle_managed r)
    (priority r) p (title r) (body r) (branch r) (created_at r) (updated_at r).
Definition with_status (s : string) (r : t) : t :=
  mk (id r) (project r) (type_ r) s (lifecycle_status r) (lifecycle_managed r)
    (priority r) (parent_id r) (title r) (body r) (branch r) (created_at r) (updated_at r).
End ExportTicket.

Module ExportEdge.
Record t : Type := mk { source_id : string; target_id : string; kind : string }.
End ExportEdge.

Module ExportMeta.
Record t : Type := mk { entity_id : string; entity_type : string; key : string; value : string }.
End ExportMeta.

Module ExportActivity.
Record t : Type := mk {
  id : string; ticket_id : string; timestamp : string; author : string; message : string
}.
#[global] Instance eq_dec : EqDecision t.
Proof. solve_decision. Defined.
Definition with_ticket (x : string) (r : t) : t :=
  mk (id r) x (timestamp r) (author r) (message r).
End ExportActivity.

Module ExportTicketComment.
Record t : Type := mk {
  comment_id : string; ticket_id : string; pr_number : Z; gh_repo : string;
  reply_posted : bool; created_at : string
}.
#[global] Instance eq_dec : EqDecision t.
Proof. solve_decision. Defined.
Definition with_ticket (x : string) (r : t) : t :=
  mk (comment_id r) x (pr_number r) (gh_repo r) (reply_posted r) (created_at r).
Definition posted (r : t) : t :=
  mk (comment_id r) (ticket_id r) (pr_number r) (gh_repo r) true (created_at r).
End ExportTicketComment.

(** ** Tables *)

Abbreviation edge_key := (string * string * string)%type.
Abbreviation meta_key := (string * string * string)%type.

Module TicketTables.
Record t : Type := mk {
  ticket : gmap string ExportTicket.t;
  edge : gset edge_key;
  meta : gmap meta_key string;
  activity : gmap string ExportActivity.t;
  ticket_comments : gmap (string * string) ExportTicketComment.t
}.
Definition empty : t := mk ∅ ∅ ∅ ∅ ∅.
Definition set_ticket (x : gmap string ExportTicket.t) (s : t) : t :=
  mk x (edge s) (meta s) (activity s) (ticket_comments s).
Definition set_edge (x : gset edge_key) (s : t) : t :=
  mk (ticket s) x (meta s) (activity s) (ticket_comments s).
Definition set_meta (x : gmap meta_key string) (s : t) : t :=
  mk (ticket s) (edge s) x (activity s) (ticket_comments s).
Definition set_activity (x : gmap string ExportActivity.t) (s : t) : t :=
  mk (ticket s) (edge s) (meta s) x (ticket_comments s).
Definition set_comments (x : gmap (string * string) ExportTicketComment.t) (s : t) : t :=
  mk (ticket s) (edge s) (meta s) (activity s) x.
End TicketTables.
Abbreviation tables_t := TicketTables.t.

(** ** Constraints *)

Definition parent_ok (ids : gset string) (r : ExportTicket.t) : Prop :=
  match ExportTicket.parent_id r with None => True | Some p => p ∈ ids end.
#[export] Instance parent_ok_dec ids r : Decision (parent_ok ids r).
Proof. unfold parent_ok. destruct (ExportTicket.parent_id r); apply _. Defined.

Definition ids (s : tables_t) : gset string := dom (TicketTables.ticket s).

(** The foreign keys. *)
Definition fk_ok (s : tables_t) : Prop :=
  map_Forall (λ _ r, parent_ok (ids s) r) (TicketTables.ticket s)
  ∧ set_Forall (λ e : edge_key, e.1.1 ∈ ids s ∧ e.1.2 ∈ ids s) (TicketTables.edge s)
  ∧ map_Forall (λ _ r, ExportActivity.ticket_id r ∈ ids s) (TicketTables.activity s)
  ∧ map_Forall (λ _ r, ExportTicketComment.ticket_id r ∈ ids s) (TicketTables.ticket_comments s).
#[export] Instance fk_ok_dec s : Decision (fk_ok s).
Proof. unfold fk_ok. apply _. Defined.

Definition parent_of (m : gmap string ExportTicket.t) (i : string) : option string :=
  r ← m !! i; ExportTicket.parent_id r.

(** The triggers' [WITH RECURSIVE ancestors]: [None] when the walk is still
    going after [fuel] rows. *)
Fixpoint ancestors (fuel : nat) (m : gmap string ExportTicket.t) (i : string) : option (list string) :=
  match fuel with
  | O => None
  | S n =>
      match parent_of m i with
      | None => Some [i]
      | Some p => cons i <$> ancestors n m p
      end
  end.

(** A walk longer than the table repeats a ticket and never ends. *)
Definition acyclic (m : gmap string ExportTicket.t) : Prop :=
  map_Forall (λ i _, is_Some (ancestors (S (size m)) m i)) m.
#[export] Instance acyclic_dec m : Decision (acyclic m).
Proof. unfold acyclic. apply _. Defined.

(** A statement that never finishes ends as a lost connection. *)
Definition never_finishes : sqlx_error := Io.

(** The end of a writing statement: immediate foreign keys, then triggers. *)
Definition commit {A} (a : A) (s : tables_t) : result (A * tables_t) sqlx_error :=
  if decide (fk_ok s) then
    if decide (acyclic (TicketTables.ticket s)) then Ok (a, s) else Err never_finishes
  else Err (Database FOREIGN_KEY_VIOLATION).

(** Each row is stored under its primary key. *)
Definition keys_ok (s : tables_t) : Prop :=
  map_Forall (λ i r, ExportTicket.id r = i) (TicketTables.ticket s)
  ∧ map_Forall (λ i r, ExportActivity.id r = i) (TicketTables.activity s)
  ∧ map_Forall (λ k r, (ExportTicketComment.comment_id r, ExportTicketComment.ticket_id r) = k)
      (TicketTables.ticket_comments s).

(** The invariant of the ticket database. *)
Definition wf (s : tables_t) : Prop :=
  keys_ok s ∧ fk_ok s ∧ acyclic (TicketTables.ticket s).
#[export] Instance wf_dec s : Decision (wf s).
Proof. unfold wf, keys_ok. apply _. Defined.

Lemma commit_Ok {A} (a b : A) s s' :
  commit a s = Ok (b, s') → b = a ∧ s' = s ∧ fk_ok s ∧ acyclic (TicketTables.ticket s).
Proof. unfold commit. intros. repeat case_decide; by simplify_eq. Qed.

Lemma commit_wf {A} (a b : A) s s' : keys_ok s → commit a s = Ok (b, s') → wf s'.
Proof. intros Hk (-> & -> & ? & ?)%commit_Ok. done. Qed.

(** What [commit] answers on tables known to be sound. *)
Lemma commit_ok {A} (a : A) s :
  fk_ok s → acyclic (TicketTables.ticket s) → commit a s = Ok (a, s).
Proof. intros. unfold commit. by rewrite !decide_True. Qed.

Lemma commit_fk {A} (a : A) s : ¬ fk_ok s → commit a s = Err (Database FOREIGN_KEY_VIOLATION).
Proof. intros. unfold commit. by rewrite decide_False. Qed.

(** ** Statements on rows with primary keys *)

(** [UPDATE .. SET key = f key]: two rows on one key violate the primary key. *)
Definition rekey {K V} `{Countable K} (f : K → K) (g : V → V) (m : gmap K V) : option (gmap K V) :=
  let m' : gmap K V := list_to_map (prod_map f g <$> map_to_list m) in
  if decide (size m' = size m) then Some m' else None.

Definition rekey_set {K} `{Countable K} (f : K → K) (m : gset K) : option (gset K) :=
  let m' : gset K := set_map f m in
  if decide (size m' = size m) then Some m' else None.

Definition unique_violation : sqlx_error := Database UNIQUE_VIOLATION.

Lemma lookup_rekey {K V} `{Countable K} (f : K → K) (g : V → V) (m m' : gmap K V) k v :
  rekey f g m = Some m' → m' !! k = Some v → ∃ k0 v0, m !! k0 = Some v0 ∧ k = f k0 ∧ v = g v0.
Proof.
  unfold rekey. intros Hr Hk. case_decide; simplify_eq.
  apply elem_of_list_to_map_2, list_elem_of_fmap in Hk as ([k0 v0] & E & Hin).
  simplify_eq/=. apply elem_of_map_to_list in Hin. eauto.
Qed.

(** ** The parent forest *)

Section Forest.
Context (m : gmap string ExportTicket.t).

Lemma ancestors_mono n n' i l :
  n ≤ n' → ancestors n m i = Some l → ancestors n' m i = Some l.
Proof.
  revert n' i l. induction n as [|n IH]; intros [|n'] i l Hn H; try done; [lia|].
  simpl in *. destruct (parent_of m i) as [p|]; [|done].
  destruct (ancestors n m p) as [l'|] eqn:E; [|done].
  rewrite (IH n' p l') by (done || lia). done.
Qed.

Lemma ancestors_shape n i l :
  ancestors n m i = Some l →
  (l = [i] ∧ parent_of m i = None)
  ∨ ∃ n' p l', n = S n' ∧ parent_of m i = Some p ∧ ancestors n' m p = Some l' ∧ l = i :: l'.
Proof.
  destruct n as [|n]; [done|]. simpl. destruct (parent_of m i) as [p|].
  - intros (l' & Hl & ->)%fmap_Some. right. by exists n, p, l'.
  - intros [= <-]. by left.
Qed.

Lemma ancestors_fuel n i l : ancestors n m i = Some l → ancestors (length l) m i = Some l.
Proof.
  revert i l. induction n as [|n IH]; intros i l H; [done|].
  apply ancestors_shape in H as [[-> Hp]|(n' & p & l' & [= <-] & Hp & Hl & ->)]; simpl; rewrite Hp.
  - done.
  - by rewrite (IH _ _ Hl).
Qed.

Lemma ancestors_det n n' i l l' :
  ancestors n m i = Some l → ancestors n' m i = Some l' → l = l'.
Proof.
  intros H H'. apply (ancestors_mono _ (n + n')) in H; [|lia].
  apply (ancestors_mono _ (n + n')) in H'; [|lia]. congruence.
Qed.

Lemma ancestors_suffix n i l j :
  ancestors n m i = Some l → j ∈ l → ∃ n' l', ancestors n' m j = Some l' ∧ length l' ≤ length l.
Proof.
  revert i l. induction n as [|n IH]; intros i l H Hj; [done|].
  pose proof H as H0.
  apply ancestors_shape in H as [[-> Hp]|(n' & p & l' & [= <-] & Hp & Hl & ->)].
  - apply list_elem_of_singleton in Hj as ->. eauto.
  - apply elem_of_cons in Hj as [->|Hj]; [eauto|].
    destruct (IH _ _ Hl Hj) as (k & l1 & ? & ?). exists k, l1. split; [done|]. simpl. lia.
Qed.

Lemma ancestors_NoDup n i l : ancestors n m i = Some l → NoDup l.
Proof.
  revert i l. induction n as [|n IH]; intros i l H; [done|].
  pose proof H as H0.
  apply ancestors_shape in H as [[-> Hp]|(n' & p & l' & [= <-] & Hp & Hl & ->)].
  - apply NoDup_singleton.
  - apply NoDup_cons. split; [|by eapply IH]. intros Hi.
    destruct (ancestors_suffix _ _ _ _ Hl Hi) as (k & l1 & H1 & Hlen).
    rewrite (ancestors_det _ _ _ _ _ H1 H0) in Hlen. simpl in Hlen. lia.
Qed.

(** Every row of a walk but the last has a parent, so is in the table. *)
Lemma ancestors_in n i l : ancestors n m i = Some l → ∃ x l0, l = l0 ++ [x] ∧ ∀ j, j ∈ l0 → j ∈ dom m.
Proof.
  revert i l. induction n as [|n IH]; intros i l H; [done|].
  apply ancestors_shape in H as [[-> Hp]|(n' & p & l' & [= <-] & Hp & Hl & ->)].
  - exists i, []. split; [done|]. intros j Hj. by apply elem_of_nil in Hj.
  - destruct (IH _ _ Hl) as (x & l0 & -> & Hin). exists x, (i :: l0). split; [done|].
    intros j [->|Hj]%elem_of_cons; [|auto].
    apply bind_Some in Hp as (r & Hr & _). by apply elem_of_dom_2 in Hr.
Qed.

(** Enough fuel: a walk that ends at all ends within [S (size m)] rows. *)
Lemma ancestors_enough n i l : ancestors n m i = Some l → ancestors (S (size m)) m i = Some l.
Proof.
  intros H. pose proof (ancestors_NoDup _ _ _ H) as Hnd.
  destruct (ancestors_in _ _ _ H) as (x & l0 & -> & Hin).
  apply (ancestors_mono (length (l0 ++ [x]))); [|by eapply ancestors_fuel].
  apply NoDup_app in Hnd as (Hnd & _ & _). rewrite length_app. simpl.
  assert (length l0 ≤ size m); [|lia].
  rewrite <-size_dom, <-(size_list_to_set (C := gset string) l0) by done.
  apply subseteq_size. intros j Hj. apply elem_of_list_to_set in Hj. auto.
Qed.

Lemma acyclic_intro : (∀ i, i ∈ dom m → ∃ n, is_Some (ancestors n m i)) → acyclic m.
Proof.
  intros H i r Hr. destruct (H i) as (n & l & Hl); [by apply elem_of_dom_2 in Hr|].
  exists l. by eapply ancestors_enough.
Qed.

(** The walk from a ticket in the table never takes more rows than there are
    parent links: a ticket's rank is the length of its walk. *)
Definition rank (i : string) : nat :=
  match ancestors (S (size m)) m i with Some l => length l | None => 0 end.

Lemma rank_parent i p :
  is_Some (ancestors (S (size m)) m i) → parent_of m i = Some p → rank p < rank i.
Proof.
  unfold rank. intros [l Hl] Hp. rewrite Hl. simpl in Hl. rewrite Hp in Hl.
  destruct (ancestors (size m) m p) as [l'|] eqn:E; [|done]. injection Hl as <-.
  rewrite (ancestors_mono (size m) (S (size m)) p l') by (done || lia). apply Nat.lt_succ_diag_r.
Qed.
End Forest.

(** In sound tables no ticket is its own ancestor: the rank goes down along the
    parent link. *)
Lemma wf_rank s i p :
  wf s → parent_of (TicketTables.ticket s) i = Some p →
  rank (TicketTables.ticket s) p < rank (TicketTables.ticket s) i.
Proof.
  intros (_ & _ & Hac) Hp. apply rank_parent; [|done].
  unfold parent_of in Hp. apply bind_Some in Hp as (r & Hr & _). exact (Hac i r Hr).
Qed.

(** A new row whose parent is already in the table closes no cycle. *)
Lemma acyclic_insert (m : gmap string ExportTicket.t) i r :
  acyclic m → map_Forall (λ _ r, parent_ok (dom m) r) m → m !! i = None →
  parent_ok (dom m) r → acyclic (<[i := r]> m).
Proof.
  intros Hac Hfk Hi Hr.
  assert (∀ j, j ∈ dom m → parent_of (<[i := r]> m) j = parent_of m j) as Heq.
  { intros j [rj Hj]%elem_of_dom. unfold parent_of. by rewrite lookup_insert_ne by congruence. }
  assert (∀ n j l, j ∈ dom m → ancestors n m j = Some l → ancestors n (<[i := r]> m) j = Some l) as Hwalk.
  { induction n as [|n IH]; intros j l Hj H; [done|]. simpl in *. rewrite Heq by done.
    destruct (parent_of m j) as [p|] eqn:Hp; [|done].
    apply fmap_Some in H as (l' & Hl & ->). rewrite (IH p l'); [done| |done].
    apply bind_Some in Hp as (rj & Hrj & Hp). pose proof (Hfk _ _ Hrj) as Hok. simpl in Hok.
    unfold parent_ok in Hok. by rewrite Hp in Hok. }
  assert (∀ j, j ∈ dom m → ∃ n, is_Some (ancestors n (<[i := r]> m) j)) as Hold.
  { intros j Hj. pose proof Hj as [rj Hrj]%elem_of_dom.
    destruct (Hac j rj Hrj) as [l Hl]. exists (S (size m)), l. by apply Hwalk. }
  apply acyclic_intro. intros j Hj. rewrite dom_insert in Hj.
  apply elem_of_union in Hj as [->%elem_of_singleton|Hj]; [|by apply Hold].
  assert (parent_of (<[i := r]> m) i = ExportTicket.parent_id r) as Hpi
    by (unfold parent_of; by rewrite lookup_insert_eq).
  unfold parent_ok in Hr. destruct (ExportTicket.parent_id r) as [p|] eqn:Hp.
  - destruct (Hold p Hr) as (n & l & Hl). exists (S n), (i :: l). simpl. by rewrite Hpi, Hl.
  - exists 1, [i]. simpl. by rewrite Hpi.
Qed.

(** *** When an insertion commits *)

Lemma parent_ok_mono (X Y : gset string) r : X ⊆ Y → parent_ok X r → parent_ok Y r.
Proof. unfold parent_ok. destruct (ExportTicket.parent_id r); set_solver. Qed.

Lemma fk_insert_ticket s i r :
  wf s → TicketTables.ticket s !! i = None → ExportTicket.parent_id r ≠ Some i →
  fk_ok (TicketTables.set_ticket (<[i := r]> (TicketTables.ticket s)) s) ↔ parent_ok (ids s) r.
Proof.
  intros (_ & (H1 & H2 & H3 & H4) & _) Hi Hself.
  unfold fk_ok, ids in *. simpl. rewrite dom_insert_L. split.
  - intros (H & _). pose proof (H i r (lookup_insert_eq _ _ _)) as H0. simpl in H0.
    unfold parent_ok in *. destruct (ExportTicket.parent_id r) as [p|]; [|done].
    apply elem_of_union in H0 as [->%elem_of_singleton|]; [congruence|done].
  - intros Hp. split_and!.
    + apply map_Forall_insert_2; [by eapply parent_ok_mono; [|exact Hp]; set_solver|].
      intros j rj Hj. eapply parent_ok_mono; [|by apply (H1 j)]. set_solver.
    + intros e He. destruct (H2 e He). set_solver.
    + intros j a Ha. pose proof (H3 j a Ha). set_solver.
    + intros j c Hc. pose proof (H4 j c Hc). set_solver.
Qed.

(** A ticket that names an existing parent, or none, is accepted; one that names
    a missing parent is refused with the foreign-key code. *)
Lemma commit_insert_ticket {A} (a : A) s i r :
  wf s → TicketTables.ticket s !! i = None → ExportTicket.parent_id r ≠ Some i →
  let s' := TicketTables.set_ticket (<[i := r]> (TicketTables.ticket s)) s in
  commit a s' = if decide (parent_ok (ids s) r) then Ok (a, s')
                else Err (Database FOREIGN_KEY_VIOLATION).
Proof.
  intros Hwf Hi Hself s'. pose proof (fk_insert_ticket s i r Hwf Hi Hself) as Hfk.
  case_decide as Hp; [apply commit_ok; [by apply Hfk|]|apply commit_fk; by intros ?%Hfk].
  destruct Hwf as (_ & (H1 & _) & Hac). by apply acyclic_insert.
Qed.

(** *** When an update commits *)

(** A row with a new parent closes no cycle when the walk from the parent does
    not pass through the row. *)
Lemma acyclic_replace (m : gmap string ExportTicket.t) i r :
  acyclic m →
  (∀ p, ExportTicket.parent_id r = Some p → ∃ n l, ancestors n m p = Some l ∧ i ∉ l) →
  acyclic (<[i := r]> m).
Proof.
  intros Hac Hp.
  assert (∀ j, j ≠ i → parent_of (<[i := r]> m) j = parent_of m j) as Heq.
  { intros j Hj. unfold parent_of. by rewrite lookup_insert_ne by congruence. }
  assert (∀ n j l, ancestors n m j = Some l → i ∉ l → ancestors n (<[i := r]> m) j = Some l) as Hsame.
  { induction n as [|n IH]; intros j l H Hi; [done|].
    apply ancestors_shape in H as [[-> Hj]|(n' & p & l' & [= <-] & Hj & Hl & ->)];
      simpl; rewrite Heq by (intros ->; apply Hi; by left); rewrite Hj; [done|].
    rewrite (IH p l'); [done|done|]. intros ?. apply Hi. by right. }
  assert (∃ n, is_Some (ancestors n (<[i := r]> m) i)) as [ni Hni].
  { assert (parent_of (<[i := r]> m) i = ExportTicket.parent_id r) as Hpi
      by (unfold parent_of; by rewrite lookup_insert_eq).
    destruct (ExportTicket.parent_id r) as [p|] eqn:E.
    - destruct (Hp p eq_refl) as (n & l & Hl & Hi). exists (S n), (i :: l).
      simpl. by rewrite Hpi, (Hsame n p l).
    - exists 1, [i]. simpl. by rewrite Hpi. }
  assert (∀ n j l, ancestors n m j = Some l → ∃ n', is_Some (ancestors n' (<[i := r]> m) j)) as Hall.
  { induction n as [|n IH]; intros j l H; [done|].
    destruct (decide (j = i)) as [->|Hne]; [eauto|].
    apply ancestors_shape in H as [[-> Hj]|(n' & p & l' & [= <-] & Hj & Hl & ->)].
    - exists 1, [j]. simpl. by rewrite Heq, Hj.
    - destruct (IH _ _ Hl) as (n' & l1 & Hl1). exists (S n'), (j :: l1).
      simpl. by rewrite Heq, Hj, Hl1. }
  apply acyclic_intro. intros j Hj. rewrite dom_insert in Hj.
  apply elem_of_union in Hj as [->%elem_of_singleton|Hj]; [eauto|].
  apply elem_of_dom in Hj as [rj Hrj]. destruct (Hac j rj Hrj) as [l Hl]. by eapply Hall.
Qed.

(** The walk from a ticket's parent does not come back to the ticket. *)
Lemma parent_walk (m : gmap string ExportTicket.t) i r p :
  acyclic m → m !! i = Some r → ExportTicket.parent_id r = Some p →
  ∃ n l, ancestors n m p = Some l ∧ i ∉ l.
Proof.
  intros Hac Hr Hp. destruct (Hac i r Hr) as [l Hl].
  pose proof (ancestors_NoDup _ _ _ _ Hl) as Hnd.
  apply ancestors_shape in Hl as [[_ Hn]|(n' & q & l' & _ & Hq & Hl & ->)].
  - unfold parent_of in Hn. rewrite Hr in Hn. simpl in Hn. congruence.
  - unfold parent_of in Hq. rewrite Hr in Hq. simpl in Hq. simplify_eq.
    exists n', l'. split; [done|]. by apply NoDup_cons in Hnd as [? _].
Qed.

Lemma fk_replace s i r :
  wf s → i ∈ ids s → parent_ok (ids s) r →
  fk_ok (TicketTables.set_ticket (<[i := r]> (TicketTables.ticket s)) s).
Proof.
  intros (_ & (H1 & H2 & H3 & H4) & _) Hi Hr. unfold fk_ok, ids in *. simpl.
  assert (dom (<[i:=r]> (TicketTables.ticket s)) = dom (TicketTables.ticket s)) as ->
    by (rewrite dom_insert_L; set_solver).
  split_and!; [|done..]. by apply map_Forall_insert_2.
Qed.

(** Rewriting rows without touching their parents. *)
Lemma commit_fmap_ticket {A} (a : A) s (f : ExportTicket.t → ExportTicket.t) :
  wf s → (∀ r, ExportTicket.parent_id (f r) = ExportTicket.parent_id r) →
  let s' := TicketTables.set_ticket (f <$> TicketTables.ticket s) s in
  commit a s' = Ok (a, s').
Proof.
  intros (_ & (H1 & H2 & H3 & H4) & Hac) Hf s'.
  assert (ids s' = ids s) as Hids by (unfold ids, s'; simpl; apply dom_fmap_L).
  apply commit_ok.
  - unfold fk_ok. rewrite Hids. split_and!; [|done..].
    intros i r (r' & <- & Hr)%lookup_fmap_Some. unfold parent_ok. rewrite Hf. by apply (H1 i r').
  - assert (∀ n i, ancestors n (f <$> TicketTables.ticket s) i = ancestors n (TicketTables.ticket s) i) as Ha.
    { induction n as [|n IH]; intros i; [done|]. simpl.
      assert (parent_of (f <$> TicketTables.ticket s) i = parent_of (TicketTables.ticket s) i) as ->.
      { unfold parent_of. rewrite lookup_fmap. destruct (_ !! i); simpl; [apply Hf|done]. }
      destruct (parent_of _ i); [|done]. by rewrite IH. }
    intros i r (r' & _ & Hr)%lookup_fmap_Some.
    change (TicketTables.ticket s') with (f <$> TicketTables.ticket s).
    rewrite map_size_fmap, Ha. by apply (Hac i r').
Qed.

Lemma commit_self {A} (a : A) s : wf s → commit a s = Ok (a, s).
Proof. intros (_ & ? & ?). by apply commit_ok. Qed.

Lemma rekey_id {K V} `{Countable K} (f : K → K) (g : V → V) (m : gmap K V) :
  (∀ k v, m !! k = Some v → f k = k ∧ g v = v) → rekey f g m = Some m.
Proof.
  intros Hid. unfold rekey. assert (prod_map f g <$> map_to_list m = map_to_list m) as ->.
  { rewrite <-(list_fmap_id (map_to_list m)) at 2. apply list_fmap_ext.
    intros i [k v] Hi. apply list_elem_of_lookup_2, elem_of_map_to_list, Hid in Hi as [H1 H2].
    simpl. by rewrite H1, H2. }
  rewrite list_to_map_to_list. by rewrite decide_True.
Qed.

Lemma rekey_set_id {K} `{Countable K} (f : K → K) (X : gset K) :
  (∀ x, x ∈ X → f x = x) → rekey_set f X = Some X.
Proof.
  intros Hid. unfold rekey_set. assert ((set_map f X : gset K) = X) as ->.
  { apply set_eq. intros x. rewrite elem_of_map. split.
    - intros (y & -> & Hy). by rewrite Hid.
    - intros Hx. exists x. by rewrite Hid. }
  by rewrite decide_True.
Qed.
