(* ===== verification/TicketGraph.v ===== *)
(** * The dependency graph of tickets ([ticket_db/src/graph.rs])

    [petgraph] is a third-party crate: its depth-first search and path query are
    the parameters of the class [PetGraph], with their documented behaviour as
    the laws [PetGraphLaws].  [naive_petgraph] is a verified instance.  The
    theorems say which tickets are reported as blockers, dependents and blocked,
    in terms of the [blocks] edges of the database. *)

From S2P Require Import Prelude RustStd Model TicketDb.
From Stdlib Require Import Lia.
Local Open Scope stdpp_scope.

(** ** [petgraph] *)

Abbreviation adjacency := (list (nat * nat)).
Definition edge_rel (es : adjacency) : relation nat := λ i j, (i, j) ∈ es.

(** [petgraph::visit::Reversed] *)
Definition reversed (es : adjacency) : adjacency := (λ e, (e.2, e.1)) <$> es.

(** [dfs es start]: the nodes the calls of [Dfs::next] give, in order. *)
Class PetGraph : Type := {
  dfs : adjacency → nat → list nat;
  has_path_connecting : adjacency → nat → nat → bool
}.

Class PetGraphLaws `{!PetGraph} : Prop := {
  dfs_start : ∀ es i, ∃ l, dfs es i = i :: l;
  dfs_NoDup : ∀ es i, NoDup (dfs es i);
  elem_of_dfs : ∀ es i j, j ∈ dfs es i ↔ rtc (edge_rel es) i j;
  has_path_spec : ∀ es i j, has_path_connecting es i j = true ↔ rtc (edge_rel es) i j
}.

(** ** [GraphManager] *)

Module BuiltGraph.
Record t : Type := mk {
  nodes : list string;
  edges : adjacency;
  node_map : gmap string nat
}.
End BuiltGraph.

Definition add_node (g : BuiltGraph.t) (i : string) : BuiltGraph.t :=
  BuiltGraph.mk (BuiltGraph.nodes g ++ [i]) (BuiltGraph.edges g)
    (<[i := length (BuiltGraph.nodes g)]> (BuiltGraph.node_map g)).

Definition add_edge (g : BuiltGraph.t) (e : string * string) : BuiltGraph.t :=
  match BuiltGraph.node_map g !! e.1, BuiltGraph.node_map g !! e.2 with
  | Some src, Some tgt =>
      BuiltGraph.mk (BuiltGraph.nodes g) (BuiltGraph.edges g ++ [(src, tgt)])
        (BuiltGraph.node_map g)
  | _, _ => g
  end.

(** The graph of the fetched rows. *)
Definition built_graph (edges : list (string * string)) (ticket_ids : list string) : BuiltGraph.t :=
  foldl add_edge (foldl add_node (BuiltGraph.mk [] [] ∅) ticket_ids) edges.

(** [SELECT source_id, target_id FROM edge WHERE kind = 'blocks'] *)
Definition blocks_rows (s : tables_t) : list (string * string) :=
  fst <$> filter (λ e : edge_key, e.2 = "blocks") (elements (TicketTables.edge s)).
(** [SELECT id FROM ticket] *)
Definition ticket_ids (s : tables_t) : list string :=
  ExportTicket.id <$> rows (TicketTables.ticket s).
(** [SELECT id FROM ticket WHERE status != 'closed'] *)
Definition open_ids (s : tables_t) : gset string :=
  list_to_set (ExportTicket.id <$>
    filter (λ r, ExportTicket.status r ≠ "closed") (rows (TicketTables.ticket s))).

Abbreviation db A := (SE (pool tables_t) sqlx_error A).

Definition build_graph : db BuiltGraph.t :=
  es ← select blocks_rows; ids ← select ticket_ids; mret (built_graph es ids).

Section GraphManager.
Context `{!PetGraph}.

(** The search from [start] on the given adjacency, the start node skipped. *)
Definition walk (g : BuiltGraph.t) (es : adjacency) (start : nat) : list string :=
  omap (λ n, BuiltGraph.nodes g !! n) (drop 1 (dfs es start)).

Definition upstream (g : BuiltGraph.t) (start : nat) : list string :=
  walk g (reversed (BuiltGraph.edges g)) start.
Definition downstream (g : BuiltGraph.t) (start : nat) : list string :=
  walk g (BuiltGraph.edges g) start.

Definition transitive_blockers (ticket_id : string) : db (list string) :=
  built ← build_graph;
  mret (match BuiltGraph.node_map built !! ticket_id with
        | None => []
        | Some start => upstream built start
        end).

Definition transitive_dependents (ticket_id : string) : db (list string) :=
  built ← build_graph;
  mret (match BuiltGraph.node_map built !! ticket_id with
        | None => []
        | Some start => downstream built start
        end).

Definition would_create_cycle (source target : string) : db bool :=
  if decide (source = target) then mret true
  else
    built ← build_graph;
    mret (match BuiltGraph.node_map built !! target, BuiltGraph.node_map built !! source with
          | Some t, Some s => has_path_connecting (BuiltGraph.edges built) t s
          | _, _ => false
          end).

(** One id: the search stops at the first open blocker it meets. *)
Definition block_step (built : BuiltGraph.t) (open : gset string) (blocked : gset string)
    (i : string) : gset string :=
  match BuiltGraph.node_map built !! i with
  | None => blocked
  | Some start =>
      match list_find (λ b, b ∈ open) (upstream built start) with
      | Some _ => {[i]} ∪ blocked
      | None => blocked
      end
  end.

Definition compute_blocked (built : BuiltGraph.t) (open : gset string) (ids : list string) : gset string :=
  foldl (block_step built open) ∅ ids.

Definition blocked_among (ids : list string) : db (gset string) :=
  match ids with
  | [] => mret ∅
  | _ =>
      built ← build_graph;
      open ← select open_ids;
      mret (compute_blocked built open ids)
  end.
End GraphManager.

(** ** The built graph mirrors the tables *)

(** [a] blocks [b]. *)
Definition blocks (s : tables_t) : relation string := λ a b,
  (a, b, "blocks") ∈ TicketTables.edge s.
Definition is_open (s : tables_t) (i : string) : Prop :=
  ∃ r, TicketTables.ticket s !! i = Some r ∧ ExportTicket.status r ≠ "closed".

(** Node indices and ticket ids correspond. *)
Definition indexed (g : BuiltGraph.t) : Prop :=
  ∀ i n, BuiltGraph.node_map g !! i = Some n ↔ BuiltGraph.nodes g !! n = Some i.

Lemma add_nodes_spec l g :
  NoDup l → (∀ i, i ∈ l → i ∉ BuiltGraph.nodes g) → indexed g →
  let g' := foldl add_node g l in
  indexed g' ∧ BuiltGraph.nodes g' = BuiltGraph.nodes g ++ l
  ∧ BuiltGraph.edges g' = BuiltGraph.edges g.
Proof.
  revert g. induction l as [|i l IH]; intros g Hnd Hnin Hg; simpl.
  { by rewrite app_nil_r. }
  apply NoDup_cons in Hnd as [Hi Hnd].
  destruct (IH (add_node g i) Hnd) as (H1 & H2 & H3).
  - intros j Hj. simpl. rewrite elem_of_app, list_elem_of_singleton.
    intros [Hj'| ->]; [|done]. apply (Hnin j); [by right|done].
  - intros j n. simpl. rewrite lookup_insert_Some, (Hg j n), lookup_snoc_Some. split.
    + intros [[<- <-]|[Hne Hn]]; [by right|left]. split; [|done]. by apply lookup_lt_Some in Hn.
    + intros [[_ Hn]|[-> <-]]; [right|by left]. split; [|done].
      intros ->. apply (Hnin j); [by left|]. by apply list_elem_of_lookup_2 in Hn.
  - split_and!; [done| |done]. rewrite H2. simpl. by rewrite <-app_assoc.
Qed.

Lemma add_edges_nodes es g :
  BuiltGraph.nodes (foldl add_edge g es) = BuiltGraph.nodes g
  ∧ BuiltGraph.node_map (foldl add_edge g es) = BuiltGraph.node_map g.
Proof.
  revert g. induction es as [|e es IH]; intros g; [done|]. simpl.
  destruct (IH (add_edge g e)) as [-> ->]. unfold add_edge. by repeat case_match.
Qed.

Lemma elem_of_add_edges es g i j :
  (i, j) ∈ BuiltGraph.edges (foldl add_edge g es) ↔
  (i, j) ∈ BuiltGraph.edges g
  ∨ ∃ a b, (a, b) ∈ es ∧ BuiltGraph.node_map g !! a = Some i ∧ BuiltGraph.node_map g !! b = Some j.
Proof.
  revert g. induction es as [|[a b] es IH]; intros g.
  { simpl. split; [by left|]. intros [?|(?&?&Hx&?)]; [done|]. by apply elem_of_nil in Hx. }
  simpl. rewrite IH. clear IH.
  assert (BuiltGraph.node_map (add_edge g (a, b)) = BuiltGraph.node_map g) as ->
    by (unfold add_edge; by repeat case_match).
  assert ((i, j) ∈ BuiltGraph.edges (add_edge g (a, b)) ↔ (i, j) ∈ BuiltGraph.edges g ∨
    (BuiltGraph.node_map g !! a = Some i ∧ BuiltGraph.node_map g !! b = Some j)) as ->.
  { unfold add_edge. simpl. repeat case_match; simpl; try naive_solver.
    rewrite elem_of_app, list_elem_of_singleton. naive_solver. }
  setoid_rewrite elem_of_cons. naive_solver.
Qed.

Section Correct.
Context {HG : PetGraph} {HL : PetGraphLaws} (s : tables_t) (Hwf : wf s).

Let g := built_graph (blocks_rows s) (ticket_ids s).

Lemma ticket_ids_dom : ticket_ids s = (map_to_list (TicketTables.ticket s)).*1.
Proof.
  unfold ticket_ids, rows. destruct Hwf as [[Hk _] _].
  rewrite <-list_fmap_compose. apply list_fmap_ext. intros n [i r] Hn.
  apply list_elem_of_lookup_2, elem_of_map_to_list in Hn. simpl. by apply Hk.
Qed.

Lemma elem_of_ticket_ids i : i ∈ ticket_ids s ↔ i ∈ ids s.
Proof.
  rewrite ticket_ids_dom. unfold ids. rewrite elem_of_dom, list_elem_of_fmap. split.
  - intros ([i' r] & -> & H). apply elem_of_map_to_list in H. simpl. by exists r.
  - intros [r H]. exists (i, r). split; [done|]. by apply elem_of_map_to_list.
Qed.

Lemma elem_of_blocks_rows a b : (a, b) ∈ blocks_rows s ↔ blocks s a b.
Proof.
  unfold blocks_rows, blocks. rewrite list_elem_of_fmap. split.
  - intros ([[a' b'] k] & [= -> ->] & H). apply list_elem_of_filter in H as [Hk H].
    simpl in Hk. subst. by apply elem_of_elements in H.
  - intros H. exists (a, b, "blocks"). split; [done|].
    apply list_elem_of_filter. split; [done|]. by apply elem_of_elements.
Qed.

Lemma blocks_ids a b : blocks s a b → a ∈ ids s ∧ b ∈ ids s.
Proof. destruct Hwf as (_ & (_ & He & _) & _). intros H. exact (He _ H). Qed.

Lemma built_indexed : indexed g ∧ BuiltGraph.nodes g = ticket_ids s.
Proof.
  unfold g, built_graph, indexed.
  destruct (add_edges_nodes (blocks_rows s)
    (foldl add_node (BuiltGraph.mk [] [] ∅) (ticket_ids s))) as [-> ->].
  destruct (add_nodes_spec (ticket_ids s) (BuiltGraph.mk [] [] ∅)) as (H1 & H2 & _); [..|by split].
  - rewrite ticket_ids_dom. apply NoDup_fst_map_to_list.
  - simpl. intros i _ H. by apply elem_of_nil in H.
  - intros i n. simpl. by rewrite lookup_empty, lookup_nil.
Qed.

Lemma node_of i : i ∈ ids s ↔ ∃ n, BuiltGraph.nodes g !! n = Some i.
Proof.
  destruct built_indexed as [_ ->]. by rewrite <-elem_of_ticket_ids, list_elem_of_lookup.
Qed.

(** An edge of the graph is a [blocks] row between the tickets of its ends. *)
Lemma built_edge i j :
  edge_rel (BuiltGraph.edges g) i j ↔
  ∃ a b, BuiltGraph.nodes g !! i = Some a ∧ BuiltGraph.nodes g !! j = Some b ∧ blocks s a b.
Proof.
  destruct built_indexed as [Hix _]. unfold edge_rel, g, built_graph.
  rewrite elem_of_add_edges.
  destruct (add_edges_nodes (blocks_rows s)
    (foldl add_node (BuiltGraph.mk [] [] ∅) (ticket_ids s))) as [_ Hm].
  rewrite <-Hm. fold (built_graph (blocks_rows s) (ticket_ids s)). fold g.
  assert (BuiltGraph.edges (foldl add_node (BuiltGraph.mk [] [] ∅) (ticket_ids s)) = []) as ->.
  { destruct (add_nodes_spec (ticket_ids s) (BuiltGraph.mk [] [] ∅)) as (_ & _ & ->); [..|done].
    - rewrite ticket_ids_dom. apply NoDup_fst_map_to_list.
    - simpl. intros x _ H. by apply elem_of_nil in H.
    - intros x n. simpl. by rewrite lookup_empty, lookup_nil. }
  setoid_rewrite elem_of_blocks_rows. setoid_rewrite (Hix _ _).
  split; [|naive_solver].
  intros [H|H]; [by apply elem_of_nil in H|naive_solver].
Qed.

Lemma built_reversed i j :
  edge_rel (reversed (BuiltGraph.edges g)) i j ↔ edge_rel (BuiltGraph.edges g) j i.
Proof.
  unfold edge_rel, reversed. rewrite list_elem_of_fmap. split.
  - by intros ([j' i'] & [= -> ->] & H).
  - intros H. by exists (j, i).
Qed.

(** Paths between nodes are chains of [blocks] rows. *)
Lemma built_path i j a b :
  BuiltGraph.nodes g !! i = Some a → BuiltGraph.nodes g !! j = Some b →
  rtc (edge_rel (BuiltGraph.edges g)) i j ↔ rtc (blocks s) a b.
Proof.
  intros Ha Hb. split.
  - intros Hp. revert a Ha. induction Hp as [i|i k j Hik _ IH]; intros a Ha.
    + by simplify_eq.
    + apply built_edge in Hik as (a' & c & Ha' & Hc & Hac). simplify_eq.
      eapply rtc_l; [done|]. by apply IH.
  - intros Hp. revert i Ha. induction Hp as [a|a c b Hac _ IH]; intros i Ha.
    + destruct built_indexed as [Hix _].
      assert (i = j) as ->; [|done].
      apply Hix in Ha, Hb. by simplify_eq.
    + destruct (proj1 (node_of c)) as [k Hk]; [by apply (blocks_ids a)|].
      apply (rtc_l _ i k); [|by apply IH].
      apply built_edge. by exists a, c.
Qed.

Lemma built_path_reversed i j :
  rtc (edge_rel (reversed (BuiltGraph.edges g))) i j ↔ rtc (edge_rel (BuiltGraph.edges g)) j i.
Proof.
  split; intros Hp; induction Hp as [i|i k j Hik _ IH]; try done.
  - apply built_reversed in Hik. by apply rtc_r with k.
  - apply rtc_r with k; [done|]. by apply built_reversed.
Qed.

(** A node reached from a node of the graph is a node of the graph. *)
Lemma path_in_graph i j a :
  BuiltGraph.nodes g !! i = Some a →
  rtc (edge_rel (BuiltGraph.edges g)) i j ∨ rtc (edge_rel (BuiltGraph.edges g)) j i →
  is_Some (BuiltGraph.nodes g !! j).
Proof.
  intros Ha [Hp|Hp].
  - apply rtc_inv_r in Hp as [<-|(k & _ & (?&?&_&->&_)%built_edge)]; by eexists.
  - apply rtc_inv in Hp as [->|(k & (?&?&->&_)%built_edge & _)]; by eexists.
Qed.

Lemma elem_of_walk es start a b :
  BuiltGraph.nodes g !! start = Some a →
  b ∈ walk g es start ↔
    b ≠ a ∧ ∃ j, BuiltGraph.nodes g !! j = Some b ∧ rtc (edge_rel es) start j.
Proof.
  intros Ha. destruct built_indexed as [Hix _]. unfold walk.
  destruct (dfs_start es start) as [l Hl].
  pose proof (dfs_NoDup es start) as Hnd. rewrite Hl in Hnd.
  apply NoDup_cons in Hnd as [Hnin _]. rewrite Hl. simpl.
  assert (∀ j, j ∈ l ↔ j ≠ start ∧ rtc (edge_rel es) start j) as Hmem.
  { intros j. rewrite <-elem_of_dfs, Hl, elem_of_cons. split; [|naive_solver].
    intros Hj. split; [by intros ->|by right]. }
  rewrite drop_0, list_elem_of_omap. setoid_rewrite Hmem. split.
  - intros (j & [Hne Hp] & Hb). split; [|by exists j].
    intros ->. apply Hix in Ha, Hb. congruence.
  - intros (Hne & j & Hb & Hp). exists j. split_and!; [|done..].
    intros ->. congruence.
Qed.

Lemma elem_of_upstream start a b :
  BuiltGraph.nodes g !! start = Some a →
  b ∈ upstream g start ↔ b ≠ a ∧ rtc (blocks s) b a.
Proof.
  intros Ha. unfold upstream. rewrite elem_of_walk by done. split.
  - intros (Hne & j & Hb & Hp). split; [done|].
    apply built_path_reversed in Hp. by apply (built_path j start).
  - intros (Hne & Hp). split; [done|].
    assert (∃ j, BuiltGraph.nodes g !! j = Some b) as [j Hj].
    { apply node_of. apply rtc_inv in Hp as [->|(k & Hk & _)]; [done|].
      by apply blocks_ids in Hk as [? _]. }
    exists j. split; [done|]. apply built_path_reversed. by apply (built_path j start b a).
Qed.

Lemma elem_of_downstream start a b :
  BuiltGraph.nodes g !! start = Some a →
  b ∈ downstream g start ↔ b ≠ a ∧ rtc (blocks s) a b.
Proof.
  intros Ha. unfold downstream. rewrite elem_of_walk by done. split.
  - intros (Hne & j & Hb & Hp). split; [done|]. by apply (built_path start j).
  - intros (Hne & Hp). split; [done|].
    assert (∃ j, BuiltGraph.nodes g !! j = Some b) as [j Hj].
    { apply node_of. apply rtc_inv_r in Hp as [->|(k & _ & Hk)]; [done|].
      by apply blocks_ids in Hk as [_ ?]. }
    exists j. split; [done|]. by apply (built_path start j a b).
Qed.

Lemma node_map_ids i : is_Some (BuiltGraph.node_map g !! i) ↔ i ∈ ids s.
Proof.
  destruct built_indexed as [Hix _]. rewrite node_of. unfold is_Some. by setoid_rewrite (Hix i).
Qed.

Lemma run_build_graph n : build_graph (Pool s [] n) = (Ok g, Pool s [] n).
Proof. unfold build_graph. by srun. Qed.

(** A ticket's blockers, in the tables. *)
Definition has_open_blocker (i : string) : Prop :=
  ∃ b, b ≠ i ∧ rtc (blocks s) b i ∧ is_open s b.

Lemma elem_of_open_ids i : i ∈ open_ids s ↔ is_open s i.
Proof.
  unfold open_ids, is_open. rewrite elem_of_list_to_set, list_elem_of_fmap. split.
  - intros (r & -> & [Ho (k & Hr)%elem_of_rows]%list_elem_of_filter).
    destruct Hwf as [[Hk _] _]. rewrite (Hk _ _ Hr) in *. eauto.
  - intros (r & Hr & Ho). exists r. destruct Hwf as [[Hk _] _].
    split; [by rewrite (Hk _ _ Hr)|]. apply list_elem_of_filter. split; [done|].
    apply elem_of_rows. eauto.
Qed.

Lemma elem_of_block_steps l acc i :
  i ∈ foldl (block_step g (open_ids s)) acc l ↔
  i ∈ acc ∨ i ∈ l ∧ i ∈ ids s ∧ has_open_blocker i.
Proof.
  revert acc. induction l as [|x l IH]; intros acc; simpl.
  { set_solver. }
  rewrite IH, elem_of_cons. unfold block_step. clear IH.
  destruct (BuiltGraph.node_map g !! x) as [start|] eqn:Hx; last first.
  { assert (x ∉ ids s) by (rewrite <-node_map_ids, Hx; by intros [??]). naive_solver. }
  assert (x ∈ ids s) as Hxi by (apply node_map_ids; eauto).
  pose proof (proj1 (proj1 built_indexed x start) Hx) as Hs.
  destruct (list_find _ _) as [[k b]|] eqn:Hf.
  - apply list_find_Some in Hf as (Hb & Ho & _). apply elem_of_open_ids in Ho.
    apply list_elem_of_lookup_2, (elem_of_upstream _ _ _ Hs) in Hb as [Hne Hp].
    assert (has_open_blocker x) by (by exists b). set_solver.
  - apply list_find_None in Hf. rewrite Forall_forall in Hf.
    assert (¬ has_open_blocker x); [|naive_solver].
    intros (b & Hne & Hp & Ho). apply (Hf b).
    + by apply (elem_of_upstream _ _ _ Hs).
    + by apply elem_of_open_ids.
Qed.

(** [blocked_among] reports, of the given ids, exactly the tickets with a
    direct or transitive blocker other than themselves that is not closed:
    closed tickets on the way do not cut the chain, and unknown ids are never
    blocked. *)
Theorem blocked_among_spec l n :
  ∃ blocked, blocked_among l (Pool s [] n) = (Ok blocked, Pool s [] n)
    ∧ ∀ i, i ∈ blocked ↔ i ∈ l ∧ i ∈ ids s ∧ has_open_blocker i.
Proof.
  destruct l as [|x l].
  { exists ∅. split; [done|]. set_solver. }
  exists (compute_blocked g (open_ids s) (x :: l)). split.
  - unfold blocked_among. by rewrite run_bind, run_build_graph; srun.
  - intros i. unfold compute_blocked. rewrite elem_of_block_steps. set_solver.
Qed.

(** [transitive_blockers] and [transitive_dependents] list the tickets
    that reach the given one, or are reached from it, over [blocks] edges,
    whatever their status and without the ticket itself; a ticket that does not
    exist has none. *)
Theorem transitive_spec i n :
  ∃ ups downs,
    transitive_blockers i (Pool s [] n) = (Ok ups, Pool s [] n)
    ∧ transitive_dependents i (Pool s [] n) = (Ok downs, Pool s [] n)
    ∧ (∀ b, b ∈ ups ↔ i ∈ ids s ∧ b ≠ i ∧ rtc (blocks s) b i)
    ∧ (∀ b, b ∈ downs ↔ i ∈ ids s ∧ b ≠ i ∧ rtc (blocks s) i b).
Proof.
  unfold transitive_blockers, transitive_dependents.
  rewrite !run_bind, !run_build_graph, !run_ret.
  eexists _, _. split; [done|]. split; [done|].
  destruct (BuiltGraph.node_map g !! i) as [start|] eqn:Hi; rewrite ?Hi.
  - assert (i ∈ ids s) by (apply node_map_ids; eauto).
    pose proof (proj1 (proj1 built_indexed i start) Hi) as Hs.
    split; intros b; [rewrite (elem_of_upstream _ _ _ Hs)|rewrite (elem_of_downstream _ _ _ Hs)];
      naive_solver.
  - assert (i ∉ ids s) by (rewrite <-node_map_ids, Hi; by intros [??]).
    split; intros b; rewrite elem_of_nil; naive_solver.
Qed.

(** [R] with one more edge. *)
Definition with_edge (R : relation string) (a b : string) : relation string :=
  λ x y, R x y ∨ (x = a ∧ y = b).

Lemma tc_with_edge (R : relation string) a b x y :
  tc (with_edge R a b) x y → tc R x y ∨ (rtc R x a ∧ rtc R b y).
Proof.
  intros H. induction H as [x y [H|[-> ->]]|x z y [H|[-> ->]] _ IH].
  - left. by apply tc_once.
  - by right.
  - destruct IH as [IH|[H1 H2]]; [left; by eapply tc_l|right]. split; [by eapply rtc_l|done].
  - right. split; [done|]. destruct IH as [IH|[H1 H2]]; [by apply tc_rtc|done].
Qed.

Lemma tc_with_edge_cycle (R : relation string) a b :
  (∀ x, ¬ tc R x x) → (rtc R b a ↔ ∃ x, tc (with_edge R a b) x x).
Proof.
  intros Hac. split.
  - intros Hp. exists a. apply (tc_rtc_r _ b a).
    + apply tc_once. by right.
    + apply (rtc_subrel R); [|done]. intros ???. by left.
  - intros (x & [Hx|[H1 H2]]%tc_with_edge); [by destruct (Hac x)|by trans x].
Qed.

(** As long as the [blocks] graph has no cycle, [would_create_cycle]
    answers [true] exactly when adding the edge would close one. *)
Theorem would_create_cycle_spec source target n :
  (∀ x, ¬ tc (blocks s) x x) →
  ∃ b, would_create_cycle source target (Pool s [] n) = (Ok b, Pool s [] n)
    ∧ (b = true ↔ ∃ x, tc (with_edge (blocks s) source target) x x).
Proof.
  intros Hac. unfold would_create_cycle. case_decide as He.
  { exists true. split; [done|]. split; [|done]. intros _. exists source.
    apply tc_once. right. by subst. }
  rewrite run_bind, run_build_graph, run_ret. eexists. split; [done|].
  rewrite <-tc_with_edge_cycle by done. destruct built_indexed as [Hix _].
  assert (∀ i, BuiltGraph.node_map g !! i = None → i ∉ ids s) as Hout.
  { intros i Hi. rewrite <-node_map_ids, Hi. by intros [??]. }
  destruct (BuiltGraph.node_map g !! target) as [t|] eqn:Ht; rewrite ?Ht.
  - destruct (BuiltGraph.node_map g !! source) as [u|] eqn:Hu; rewrite ?Hu.
    + rewrite has_path_spec. apply Hix in Ht, Hu. by apply built_path.
    + split; [done|]. intros [<-|(k & _ & Hk)]%rtc_inv_r; [done|].
      apply blocks_ids in Hk as [_ Hk]. by destruct (Hout source).
  - split; [done|]. intros [->|(k & Hk & _)]%rtc_inv; [done|].
    apply blocks_ids in Hk as [Hk _]. by destruct (Hout target).
Qed.
End Correct.

(** ** A verified search

    A breadth-wise closure: each round adds the unseen targets of the edges that
    leave the seen nodes.  Every round but the last uses up an edge, so as many
    rounds as there are edges are enough. *)

Definition frontier (es : adjacency) (acc : list nat) : list nat :=
  remove_dups (snd <$> filter (λ e, e.1 ∈ acc ∧ e.2 ∉ acc) es).

Fixpoint closure (fuel : nat) (es : adjacency) (acc : list nat) : list nat :=
  match fuel with
  | O => acc
  | S n =>
      match frontier es acc with
      | [] => acc
      | new => closure n es (acc ++ new)
      end
  end.

Definition unused (es : adjacency) (acc : list nat) : nat :=
  length (filter (λ e, e.2 ∉ acc) es).

Lemma elem_of_frontier es acc j :
  j ∈ frontier es acc ↔ ∃ i, (i, j) ∈ es ∧ i ∈ acc ∧ j ∉ acc.
Proof.
  unfold frontier. rewrite elem_of_remove_dups, list_elem_of_fmap. split.
  - intros ([i j'] & -> & [[Hi Hj] H]%list_elem_of_filter). by exists i.
  - intros (i & H & Hi & Hj). exists (i, j). split; [done|].
    by apply list_elem_of_filter.
Qed.

Lemma unused_frontier es acc :
  frontier es acc ≠ [] → unused es (acc ++ frontier es acc) < unused es acc.
Proof.
  intros Hne. destruct (frontier es acc) as [|j l] eqn:E; [done|].
  assert (j ∈ frontier es acc) as (i & Hij & Hi & Hj)%elem_of_frontier
    by (rewrite E; by left).
  unfold unused. clear Hne E. induction es as [|e es IH]; [by apply elem_of_nil in Hij|].
  rewrite !filter_cons.
  assert (length (filter (λ e, e.2 ∉ acc ++ j :: l) es) ≤ length (filter (λ e, e.2 ∉ acc) es)).
  { clear. induction es as [|e es IH]; [done|]. rewrite !filter_cons.
    repeat case_decide; simpl; try lia. exfalso. set_solver. }
  apply elem_of_cons in Hij as [<-|Hij].
  - simpl. rewrite decide_False by set_solver. rewrite decide_True by done. simpl. lia.
  - specialize (IH Hij). repeat case_decide; simpl; try lia. exfalso. set_solver.
Qed.

Section Closure.
Context (es : adjacency).

Lemma closure_extends fuel acc : acc ⊆ closure fuel es acc.
Proof.
  revert acc. induction fuel as [|n IH]; intros acc; simpl; [done|].
  destruct (frontier es acc) eqn:E; [done|]. etrans; [|apply IH]. set_solver.
Qed.

Lemma closure_NoDup fuel acc : NoDup acc → NoDup (closure fuel es acc).
Proof.
  revert acc. induction fuel as [|n IH]; intros acc Hnd; simpl; [done|].
  destruct (frontier es acc) as [|j l] eqn:E; [done|]. apply IH.
  rewrite <-E. apply NoDup_app. split_and!; [done| |apply NoDup_remove_dups].
  intros x Hx (i & _ & _ & Hn)%elem_of_frontier. done.
Qed.

Lemma closure_sound fuel acc (start : nat) :
  (∀ j, j ∈ acc → rtc (edge_rel es) start j) →
  ∀ j, j ∈ closure fuel es acc → rtc (edge_rel es) start j.
Proof.
  revert acc. induction fuel as [|n IH]; intros acc Hacc; simpl; [done|].
  destruct (frontier es acc) as [|j l] eqn:E; [done|]. apply IH.
  rewrite <-E. intros k [Hk|(i & Hik & Hi & _)%elem_of_frontier]%elem_of_app; [by apply Hacc|].
  apply rtc_r with i; [by apply Hacc|done].
Qed.

Lemma closure_closed fuel acc i j :
  unused es acc ≤ fuel → i ∈ closure fuel es acc → (i, j) ∈ es → j ∈ closure fuel es acc.
Proof.
  revert acc. induction fuel as [|n IH]; intros acc Hf Hi Hij; simpl in *.
  - destruct (decide (j ∈ acc)) as [|Hn]; [done|exfalso].
    assert ((i, j) ∈ filter (λ e, e.2 ∉ acc) es) as Hin by (by apply list_elem_of_filter).
    unfold unused in Hf. destruct (filter _ es); [by apply elem_of_nil in Hin|simpl in Hf; lia].
  - destruct (frontier es acc) as [|k l] eqn:E.
    + destruct (decide (j ∈ acc)) as [|Hn]; [done|exfalso].
      assert (j ∈ frontier es acc) as H by (apply elem_of_frontier; eauto).
      rewrite E in H. by apply elem_of_nil in H.
    + apply IH; [|done..]. rewrite <-E.
      pose proof (unused_frontier es acc ltac:(by rewrite E)). lia.
Qed.

Lemma closure_path start i j :
  i ∈ closure (length es) es [start] → rtc (edge_rel es) i j →
  j ∈ closure (length es) es [start].
Proof.
  intros Hi Hp. induction Hp as [|i k j Hik _ IH]; [done|]. apply IH.
  apply (closure_closed _ _ i); [|done..]. apply length_filter.
Qed.

Lemma elem_of_closure start j :
  j ∈ closure (length es) es [start] ↔ rtc (edge_rel es) start j.
Proof.
  split.
  - apply closure_sound. intros k ->%list_elem_of_singleton. done.
  - intros Hp. assert (start ∈ closure (length es) es [start]) as Hs
      by (apply closure_extends; by left).
    by apply (closure_path start start).
Qed.

Lemma closure_head fuel acc i l :
  acc = i :: l → ∃ l', closure fuel es acc = i :: l'.
Proof.
  revert acc l. induction fuel as [|n IH]; intros acc l ->; simpl; [by exists l|].
  destruct (frontier es (i :: l)) as [|k r]; [by exists l|].
  by apply (IH (i :: l ++ k :: r) (l ++ k :: r)).
Qed.
End Closure.

Definition naive_petgraph : PetGraph := {|
  dfs es i := closure (length es) es [i];
  has_path_connecting es i j := bool_decide (j ∈ closure (length es) es [i])
|}.

Lemma naive_petgraph_laws : @PetGraphLaws naive_petgraph.
Proof.
  split; cbn.
  - intros es i. by apply (closure_head es (length es) [i] i []).
  - intros es i. apply closure_NoDup, NoDup_singleton.
  - intros es i j. apply elem_of_closure.
  - intros es i j. rewrite bool_decide_eq_true. apply elem_of_closure.
Qed.

(** ** A small database: [a] blocks [b] blocks [c], and [b] is closed *)

Definition sample_ticket (i : string) (status : string) (parent : option string) : ExportTicket.t :=
  ExportTicket.mk i "ur" "code" status "open" false 0 parent "title" "" None
    "2024-01-01" "2024-01-01".

Definition sample_tables : tables_t :=
  TicketTables.mk
    (list_to_map ((λ r, (ExportTicket.id r, r)) <$>
      [sample_ticket "ur-a" "open" None; sample_ticket "ur-b" "closed" (Some "ur-a");
       sample_ticket "ur-c" "open" (Some "ur-b")]))
    (list_to_set [("ur-a", "ur-b", "blocks"); ("ur-b", "ur-c", "blocks")])
    ∅ ∅ ∅.

Lemma sample_wf : wf sample_tables.
Proof. apply (bool_decide_unpack _). vm_compute. exact I. Qed.

Example sample_blocked :
  @blocked_among naive_petgraph ["ur-a"; "ur-b"; "ur-c"; "ur-x"] (Pool sample_tables [] 0)
  = (Ok {["ur-b"; "ur-c"]}, Pool sample_tables [] 0).
Proof. vm_compute. reflexivity. Qed.

Lemma sample_blocks_acyclic x : ¬ tc (blocks sample_tables) x x.
Proof.
  assert (∀ y z, tc (blocks sample_tables) y z →
    (y = "ur-a" ∧ (z = "ur-b" ∨ z = "ur-c")) ∨ (y = "ur-b" ∧ z = "ur-c")) as H.
  { assert (∀ y z, blocks sample_tables y z →
      (y = "ur-a" ∧ z = "ur-b") ∨ (y = "ur-b" ∧ z = "ur-c")) as Hb.
    { unfold blocks, sample_tables; simpl. intros y z. rewrite !elem_of_union, elem_of_empty,
        !elem_of_singleton. naive_solver. }
    intros y z. induction 1 as [y z Hyz%Hb|y w z Hyw%Hb _ IH]; naive_solver. }
  intros ?%H. naive_solver.
Qed.

Lemma blocked_among_spec_witness :
  ∃ blocked, @blocked_among naive_petgraph ["ur-c"] (Pool sample_tables [] 0)
      = (Ok blocked, Pool sample_tables [] 0)
    ∧ ∀ i, i ∈ blocked ↔ i ∈ ["ur-c"] ∧ i ∈ ids sample_tables ∧ has_open_blocker sample_tables i.
Proof. exact (@blocked_among_spec naive_petgraph naive_petgraph_laws _ sample_wf ["ur-c"] 0). Defined.

Lemma transitive_spec_witness :
  ∃ ups downs,
    @transitive_blockers naive_petgraph "ur-c" (Pool sample_tables [] 0)
      = (Ok ups, Pool sample_tables [] 0)
    ∧ @transitive_dependents naive_petgraph "ur-c" (Pool sample_tables [] 0)
      = (Ok downs, Pool sample_tables [] 0)
    ∧ (∀ b, b ∈ ups ↔ "ur-c" ∈ ids sample_tables ∧ b ≠ "ur-c" ∧ rtc (blocks sample_tables) b "ur-c")
    ∧ (∀ b, b ∈ downs ↔ "ur-c" ∈ ids sample_tables ∧ b ≠ "ur-c" ∧ rtc (blocks sample_tables) "ur-c" b).
Proof. exact (@transitive_spec naive_petgraph naive_petgraph_laws _ sample_wf "ur-c" 0). Defined.

Lemma would_create_cycle_spec_witness :
  ∃ b, @would_create_cycle naive_petgraph "ur-c" "ur-a" (Pool sample_tables [] 0)
      = (Ok b, Pool sample_tables [] 0)
    ∧ (b = true ↔ ∃ x, tc (with_edge (blocks sample_tables) "ur-c" "ur-a") x x).
Proof.
  exact (@would_create_cycle_spec naive_petgraph naive_petgraph_laws _ sample_wf "ur-c" "ur-a" 0
    sample_blocks_acyclic).
Defined.
