(* ===== verification/TicketRepo.v ===== *)
(** * [TicketRepo]: the operations of [ticket_db/src/ticket_repo.rs]

    Each statement the code executes is one [statement] of the pool; statements
    of one operation are separate unless the code opens a transaction.  SQL text
    built at run time ([build_ticket_filter_clause]) is kept as a syntax tree
    with its printer.  Text is ordered bytewise (the [C] collation). *)

From S2P Require Import Prelude RustStd Model Env TicketDb TicketGraph.
From Stdlib Require Import Ascii Lia.
Local Open Scope stdpp_scope.

Module R := ExportTicket.

(** ** Rows and tickets *)

Definition is_unique_violation (code : string) : bool := bool_decide (code = UNIQUE_VIOLATION).

(** The part of an id after the first dash. *)
Definition extract_hash (id : string) : string :=
  match split_once "-" id with Some (_, h) => h | None => id end.

(** [WHERE c.parent_id = ticket.id] *)
Definition children (s : tables_t) (i : string) : list R.t :=
  filter (λ c, R.parent_id c = Some i) (rows (TicketTables.ticket s)).
Definition count_rows (l : list R.t) : Z := Z.of_nat (length l).
Definition closed_rows (l : list R.t) : list R.t := filter (λ c, R.status c = "closed") l.

Definition ticket_of (r : R.t) (completed total : Z) : Ticket.t :=
  Ticket.mk (R.id r) (R.project r) (R.type_ r) (R.status r)
    (LifecycleStatus.parse_or_default (R.lifecycle_status r))
    (R.lifecycle_managed r) (R.priority r) (R.parent_id r) (R.title r) (R.body r) (R.branch r)
    (R.created_at r) (R.updated_at r) completed total.

(** A row with its two sub-selects. *)
Definition ticket_from_row (s : tables_t) (r : R.t) : Ticket.t :=
  ticket_of r (count_rows (closed_rows (children s (R.id r)))) (count_rows (children s (R.id r))).

(** [ORDER BY priority ASC, created_at ASC] *)
Definition by_priority_created : relation R.t :=
  le_then R.priority Z.le (le_by R.created_at String.le).
#[export] Instance by_priority_created_dec : RelDecision by_priority_created.
Proof. unfold by_priority_created. apply _. Defined.

(** ** The filter language of the listings *)

Inductive column : Type := CProject | CStatus | CType | CParentId | CLifecycleStatus.

Inductive cond : Type :=
| ParentIsNull
| ColEq (c : column) (idx : nat)
| StatusIn (idxs : list nat).

Definition column_text (c : column) : string :=
  match c with
  | CProject => "project" | CStatus => "status" | CType => "type"
  | CParentId => "parent_id" | CLifecycleStatus => "lifecycle_status"
  end.
Definition placeholder (idx : nat) : string := "$" +:+ pretty idx.
Definition cond_text (c : cond) : string :=
  match c with
  | ParentIsNull => " AND parent_id IS NULL"
  | ColEq c idx => " AND " +:+ column_text c +:+ " = " +:+ placeholder idx
  | StatusIn idxs => " AND status IN (" +:+ join "," (placeholder <$> idxs) +:+ ")"
  end.
(** The text the code sends. *)
Definition where_text (cs : list cond) : string :=
  " WHERE 1=1" +:+ foldr (λ c t, cond_text c +:+ t) "" cs.

(** What PostgreSQL makes of it; [$1] is the first bound value. *)
Definition bound (binds : list string) (idx : nat) : option string := binds !! (idx - 1).
Definition column_value (c : column) (r : R.t) : option string :=
  match c with
  | CProject => Some (R.project r) | CStatus => Some (R.status r) | CType => Some (R.type_ r)
  | CParentId => R.parent_id r | CLifecycleStatus => Some (R.lifecycle_status r)
  end.
(** [a = b] is not true when either side is NULL. *)
Definition sql_eq (a b : option string) : bool :=
  match a, b with Some x, Some y => bool_decide (x = y) | _, _ => false end.
Definition cond_holds (binds : list string) (r : R.t) (c : cond) : bool :=
  match c with
  | ParentIsNull => bool_decide (R.parent_id r = None)
  | ColEq c idx => sql_eq (column_value c r) (bound binds idx)
  | StatusIn idxs => existsb (λ idx, sql_eq (Some (R.status r)) (bound binds idx)) idxs
  end.
Definition where_holds (cs : list cond) (binds : list string) (r : R.t) : bool :=
  forallb (cond_holds binds r) cs.

Record clause : Type := Clause { conds : list cond; binds : list string; param_idx : nat }.

Definition push_eq (c : column) (v : option string) (st : clause) : clause :=
  match v with
  | None => st
  | Some v =>
      let idx := S (param_idx st) in
      Clause (conds st ++ [ColEq c idx]) (binds st ++ [v]) idx
  end.
Definition push_statuses (statuses : list string) (st : clause) : clause :=
  match statuses with
  | [] => st
  | _ =>
      Clause (conds st ++ [StatusIn (seq (S (param_idx st)) (length statuses))])
        (binds st ++ statuses) (param_idx st + length statuses)
  end.
Definition push_filter (filter : TicketFilter.t) (st : clause) : clause :=
  push_eq CLifecycleStatus (LifecycleStatus.as_str <$> TicketFilter.lifecycle_status filter)
    (push_eq CParentId (TicketFilter.parent_id filter)
      (push_eq CType (TicketFilter.type_ filter)
        (push_statuses (TicketFilter.statuses filter)
          (push_eq CProject (TicketFilter.project filter) st)))).

Definition build_ticket_filter_clause (filter : TicketFilter.t) (include_children : bool)
    : list cond * list string :=
  let start := if negb include_children && bool_decide (TicketFilter.parent_id filter = None)
               then [ParentIsNull] else [] in
  let st := push_filter filter (Clause start [] 0) in
  (conds st, binds st).

Definition build_list_tickets_query (filter : TicketFilter.t) : list cond * list string :=
  let st := push_filter filter (Clause [] [] 0) in (conds st, binds st).

(** ** Recursive queries *)

(** [WITH RECURSIVE ... UNION ALL ... JOIN ON t.parent_id = tree.id]: round by
    round from the working table [w]; [None] when [fuel] rounds did not empty it. *)
Fixpoint recurse (fuel : nat) (s : tables_t) (keep : R.t → bool) (depth : Z) (w : list R.t)
    : option (list (R.t * Z)) :=
  match w with
  | [] => Some []
  | _ =>
      match fuel with
      | O => None
      | S n =>
          app ((λ r, (r, depth)) <$> w) <$>
            recurse n s keep (depth + 1)
              (filter (λ c, keep c = true) (w ≫= λ r, children s (R.id r)))
      end
  end.
Definition recursive_query (s : tables_t) (keep : R.t → bool) (w : list R.t)
    : result (list (R.t * Z)) sqlx_error :=
  match recurse (S (size (TicketTables.ticket s))) s keep 0 w with
  | Some l => Ok l
  | None => Err never_finishes
  end.

(** [ORDER BY depth ASC, priority ASC, created_at ASC] *)
Definition by_depth : relation (R.t * Z) :=
  le_then snd Z.le (le_then (R.priority ∘ fst) Z.le (le_by (R.created_at ∘ fst) String.le)).
#[export] Instance by_depth_dec : RelDecision by_depth.
Proof. unfold by_depth. apply _. Defined.

(** [type_.parse::<TicketType>().is_ok_and(|t| t.is_dispatchable())] *)
Definition type_dispatchable (type_ : string) : bool :=
  match TicketType.from_str type_ with Ok t => TicketType.is_dispatchable t | Err _ => false end.

Definition filter_dispatchable (children : list R.t) (blocked : gset string)
    : list DispatchableTicket.t :=
  (λ r, DispatchableTicket.mk (R.id r) (R.title r) (R.priority r) (R.type_ r)) <$>
    filter (λ r, type_dispatchable (R.type_ r) = true)
      (filter (λ r, R.id r ∉ blocked) children).

Definition by_priority : relation R.t := le_by R.priority Z.le.
#[export] Instance by_priority_dec : RelDecision by_priority.
Proof. unfold by_priority. apply _. Defined.

(** ** Operations *)

Section TicketRepo.
Context `{HE : Env} `{HG : PetGraph}.

Definition insert_ticket (id : string) (ticket : NewTicket.t) (status : string)
    (lifecycle_status : LifecycleStatus) (now : string) : db unit :=
  statement (λ s,
    let m := TicketTables.ticket s in
    if decide (is_Some (m !! id)) then Err unique_violation
    else commit tt (TicketTables.set_ticket
      (<[id := R.mk id (NewTicket.project ticket) (NewTicket.type_ ticket) status
                 (LifecycleStatus.as_str lifecycle_status) false (NewTicket.priority ticket)
                 (NewTicket.parent_id ticket) (NewTicket.title ticket) (NewTicket.body ticket)
                 (NewTicket.branch ticket) now now]> m) s)).

Definition BASE_LEN : nat := 5.
Definition MAX_EXTRA : nat := 5.
Definition retries_exhausted : sqlx_error :=
  Protocol "failed to generate unique ticket ID after maximum retries".

(** The retry loop, [n] attempts left. *)
Fixpoint insert_attempts (n : nat) (ticket : NewTicket.t) (status : string)
    (lifecycle_status : LifecycleStatus) (now hash : string) : db string :=
  match n with
  | O => throw retries_exhausted
  | S n' =>
      let id := NewTicket.project ticket +:+ "-" +:+ hash in
      r ← attempt (insert_ticket id ticket status lifecycle_status now);
      match r with
      | Ok _ => mret id
      | Err (Database code) =>
          if is_unique_violation code then
            c ← random_base36_char;
            insert_attempts n' ticket status lifecycle_status now (hash +:+ String c "")
          else throw (Database code)
      | Err e => throw e
      end
  end.

Definition insert_with_generated_id (ticket : NewTicket.t) (status : string)
    (lifecycle_status : LifecycleStatus) (now : string) : db string :=
  hash ← generate_base36 BASE_LEN;
  insert_attempts (S MAX_EXTRA) ticket status lifecycle_status now hash.

Definition new_ticket_result (id : string) (ticket : NewTicket.t) (status : string)
    (lifecycle_status : LifecycleStatus) (now : string) : Ticket.t :=
  Ticket.mk id (NewTicket.project ticket) (NewTicket.type_ ticket) status lifecycle_status false
    (NewTicket.priority ticket) (NewTicket.parent_id ticket) (NewTicket.title ticket)
    (NewTicket.body ticket) (NewTicket.branch ticket) now now 0 0.

Definition create_ticket (ticket : NewTicket.t) : db Ticket.t :=
  now ← match NewTicket.created_at ticket with Some t => mret t | None => utc_now end;
  let status := default "open" (NewTicket.status ticket) in
  let lifecycle_status := default LifecycleStatus.default (NewTicket.lifecycle_status ticket) in
  id ← match NewTicket.id ticket with
       | Some provided => mret provided
       | None => insert_with_generated_id ticket status lifecycle_status now
       end;
  when (bool_decide (is_Some (NewTicket.id ticket)))
    (insert_ticket id ticket status lifecycle_status now) ;;
  mret (new_ticket_result id ticket status lifecycle_status now).

Definition get_ticket (id : string) : db (option Ticket.t) :=
  select (λ s, ticket_from_row s <$> TicketTables.ticket s !! id).
Definition get_ticket_by_id (id : string) : db (option Ticket.t) := get_ticket id.

(** [UPDATE ticket SET parent_id = $1 WHERE parent_id = $2] *)
Definition repoint_parents (new_id old_id : string) (s : tables_t) : tables_t :=
  TicketTables.set_ticket
    ((λ r, if decide (R.parent_id r = Some old_id) then R.with_parent (Some new_id) r else r)
       <$> TicketTables.ticket s) s.
(** [old] replaced by [new]. *)
Definition subst_id (new_id old_id x : string) : string :=
  if decide (x = old_id) then new_id else x.

Definition update_ticket_references (old_id new_id : string) : db unit :=
  statement (λ s, commit tt (repoint_parents new_id old_id s)) ;;
  statement (λ s,
    match rekey_set (λ '(a, b, k), (subst_id new_id old_id a, b, k)) (TicketTables.edge s) with
    | Some e => commit tt (TicketTables.set_edge e s)
    | None => Err unique_violation
    end) ;;
  statement (λ s,
    match rekey_set (λ '(a, b, k), (a, subst_id new_id old_id b, k)) (TicketTables.edge s) with
    | Some e => commit tt (TicketTables.set_edge e s)
    | None => Err unique_violation
    end) ;;
  statement (λ s, commit tt (TicketTables.set_activity
    ((λ a, if decide (ExportActivity.ticket_id a = old_id)
           then ExportActivity.with_ticket new_id a else a) <$> TicketTables.activity s) s)) ;;
  statement (λ s,
    match rekey (λ '(e, t, k), (if decide (t = "ticket") then subst_id new_id old_id e else e, t, k))
            (λ v, v) (TicketTables.meta s) with
    | Some m => commit tt (TicketTables.set_meta m s)
    | None => Err unique_violation
    end) ;;
  statement (λ s,
    match rekey (λ '(c, t), (c, subst_id new_id old_id t))
            (λ r, if decide (ExportTicketComment.ticket_id r = old_id)
                  then ExportTicketComment.with_ticket new_id r else r)
            (TicketTables.ticket_comments s) with
    | Some m => commit tt (TicketTables.set_comments m s)
    | None => Err unique_violation
    end).

(** The loop of [rekey_ticket_id], [n] attempts left. *)
Fixpoint rekey_attempts (n : nat) (old_id new_project candidate_hash : string) : db string :=
  match n with
  | O => throw retries_exhausted
  | S n' =>
      let new_id := new_project +:+ "-" +:+ candidate_hash in
      exists_ ← select (λ s, bool_decide (is_Some (TicketTables.ticket s !! new_id)));
      if exists_ : bool then
        c ← random_base36_char;
        rekey_attempts n' old_id new_project (candidate_hash +:+ String c "")
      else
        update_ticket_references old_id new_id ;;
        mret new_id
  end.
Definition rekey_ticket_id (old_id new_project hash : string) : db string :=
  rekey_attempts (S MAX_EXTRA) old_id new_project hash.

(** [UPDATE ticket SET id = $1, .. WHERE id = $13]: the row keeps its
    [created_at]. *)
Definition replace_row (id : string) (f : R.t → R.t) (s : tables_t)
    : result (unit * tables_t) sqlx_error :=
  let m := TicketTables.ticket s in
  match m !! id with
  | None => Ok (tt, s)
  | Some r =>
      let r' := f r in
      if decide (R.id r' ≠ id ∧ is_Some (m !! R.id r')) then Err unique_violation
      else commit tt (TicketTables.set_ticket (<[R.id r' := r']> (delete id m)) s)
  end.

Definition update_ticket (id : string) (update : TicketUpdate.t) : db Ticket.t :=
  o ← get_ticket id;
  existing ← ok_or o RowNotFound;
  let status := default (Ticket.status existing) (TicketUpdate.status update) in
  let lifecycle_status :=
    default (Ticket.lifecycle_status existing) (TicketUpdate.lifecycle_status update) in
  let lifecycle_managed :=
    default (Ticket.lifecycle_managed existing) (TicketUpdate.lifecycle_managed update) in
  let type_ := default (Ticket.type_ existing) (TicketUpdate.type_ update) in
  let priority := default (Ticket.priority existing) (TicketUpdate.priority update) in
  let title := default (Ticket.title existing) (TicketUpdate.title update) in
  let body := default (Ticket.body existing) (TicketUpdate.body update) in
  let project := default (Ticket.project existing) (TicketUpdate.project update) in
  let parent_id := default (Ticket.parent_id existing) (TicketUpdate.parent_id update) in
  let branch := default (Ticket.branch existing) (TicketUpdate.branch update) in
  now ← utc_now;
  new_id ← (if decide (project ≠ Ticket.project existing)
            then rekey_ticket_id id project (extract_hash id)
            else mret id);
  statement (replace_row id (λ r,
    R.mk new_id project type_ status (LifecycleStatus.as_str lifecycle_status)
      lifecycle_managed priority parent_id title body branch (R.created_at r) now)) ;;
  mret (Ticket.mk new_id project type_ status lifecycle_status lifecycle_managed priority
          parent_id title body branch (Ticket.created_at existing) now 0 0).

(** *** Listings *)

Definition count_filtered_tickets (cs : list cond) (bs : list string) : db Z :=
  select (λ s, count_rows (filter (λ r, where_holds cs bs r = true) (rows (TicketTables.ticket s)))).

Definition filtered_tickets (cs : list cond) (bs : list string) (s : tables_t) : list Ticket.t :=
  ticket_from_row s <$>
    order_by by_priority_created
      (filter (λ r, where_holds cs bs r = true) (rows (TicketTables.ticket s))).

Definition NEGATIVE_LIMIT : string := "2201W".
Definition NEGATIVE_OFFSET : string := "2201X".

Definition fetch_filtered_tickets (cs : list cond) (bs : list string)
    (page_size : option Z) (offset : Z) : db (list Ticket.t) :=
  statement (λ s,
    match page_size with
    | None => Ok (filtered_tickets cs bs s, s)
    | Some limit =>
        if decide (offset < 0)%Z then Err (Database NEGATIVE_OFFSET)
        else if decide (limit < 0)%Z then Err (Database NEGATIVE_LIMIT)
        else Ok (take (Z.to_nat limit) (drop (Z.to_nat offset) (filtered_tickets cs bs s)), s)
    end).

Definition list_tickets_paginated (filter : TicketFilter.t) (page_size : option Z) (offset : Z)
    (include_children : bool) : db (list Ticket.t * Z) :=
  let '(where_clause, binds) := build_ticket_filter_clause filter include_children in
  total_count ← count_filtered_tickets where_clause binds;
  tickets ← fetch_filtered_tickets where_clause binds page_size offset;
  mret (tickets, total_count).

Definition list_tickets (filter : TicketFilter.t) : db (list Ticket.t) :=
  let '(query, binds) := build_list_tickets_query filter in
  select (filtered_tickets query binds).

Definition rows_to_ticket_depth (l : list (R.t * Z)) : list (Ticket.t * Z) :=
  (λ '(r, depth), (ticket_of r 0 0, depth)) <$> l.
Definition tree_query (root_id : string) (keep : R.t → bool) : db (list (Ticket.t * Z)) :=
  statement (λ s,
    match recursive_query s keep (option_list (TicketTables.ticket s !! root_id)) with
    | Ok l => Ok (rows_to_ticket_depth (order_by by_depth l), s)
    | Err e => Err e
    end).
Definition list_ticket_tree_unfiltered (root_id : string) : db (list (Ticket.t * Z)) :=
  tree_query root_id (λ _, true).
Definition list_ticket_tree_with_status (root_id status : string) : db (list (Ticket.t * Z)) :=
  tree_query root_id (λ r, bool_decide (R.status r = status)).
Definition list_ticket_tree (root_id : string) (status_filter : option string)
    : db (list (Ticket.t * Z)) :=
  match status_filter with
  | Some status => list_ticket_tree_with_status root_id status
  | None => list_ticket_tree_unfiltered root_id
  end.

Definition get_tickets_by_ids (ids : list string) : db (list Ticket.t) :=
  match ids with
  | [] => mret []
  | _ => select (λ s, (λ r, ticket_of r 0 0) <$> order_by by_priority_created
           (filter (λ r, R.id r ∈ ids) (rows (TicketTables.ticket s))))
  end.

Definition tickets_by_lifecycle_status (status : LifecycleStatus) : db (list Ticket.t) :=
  select (λ s, (λ r, ticket_of r 0 0) <$> order_by by_priority_created
    (filter (λ r, R.lifecycle_status r = LifecycleStatus.as_str status)
       (rows (TicketTables.ticket s)))).

Definition get_ticket_children_counts (ticket_id : string) : db (Z * Z) :=
  total ← select (λ s, count_rows (children s ticket_id));
  closed ← select (λ s, count_rows (closed_rows (children s ticket_id)));
  mret ((total - closed)%Z, closed).

(** [SELECT ... FROM descendants WHERE id IN (SELECT id FROM ticket WHERE
    status = 'open' [AND project = $2]) ORDER BY priority ASC] *)
Definition open_descendants (epic_id : string) (project : option string) (s : tables_t)
    : result (list R.t) sqlx_error :=
  match recursive_query s (λ _, true) (children s epic_id) with
  | Ok l =>
      Ok (order_by by_priority
        (filter (λ r, R.status r = "open" ∧ default (R.project r) project = R.project r) l.*1))
  | Err e => Err e
  end.

Definition dispatchable_tickets (epic_id : string) (project : option string)
    : db (list DispatchableTicket.t) :=
  children ← statement (λ s,
    match open_descendants epic_id project s with Ok l => Ok (l, s) | Err e => Err e end);
  blocked ← blocked_among (R.id <$> children);
  mret (filter_dispatchable children blocked).

Definition epic_all_children_closed (epic_id : string) : db bool :=
  count ← select (λ s,
    count_rows (filter (λ r, R.status r ≠ "closed") (children s epic_id)));
  mret (bool_decide (count = 0%Z)).

(** Rows of [epic_id] that are not closed. *)
Definition open_child (epic_id : string) (r : R.t) : bool :=
  bool_decide (R.parent_id r = Some epic_id) && negb (bool_decide (R.status r = "closed")).
Definition close_open_children (epic_id : string) : db Z :=
  statement (λ s,
    commit
      (count_rows (filter (λ r, open_child epic_id r = true) (rows (TicketTables.ticket s))))
      (TicketTables.set_ticket
        ((λ r, if open_child epic_id r then R.with_status "closed" r else r)
           <$> TicketTables.ticket s) s)).

(** *** Metadata *)

Definition set_meta (entity_id entity_type key value : string) : db unit :=
  statement (λ s, commit tt (TicketTables.set_meta
    (<[(entity_id, entity_type, key) := value]> (TicketTables.meta s)) s)).

Definition get_meta (entity_id entity_type : string) : db (gmap string string) :=
  select (λ s, list_to_map ((λ '(k, v), (k.2, v)) <$>
    filter (λ kv, kv.1.1 = (entity_id, entity_type)) (map_to_list (TicketTables.meta s)))).

Definition delete_meta (entity_id entity_type key : string) : db unit :=
  statement (λ s, commit tt (TicketTables.set_meta
    (delete (entity_id, entity_type, key) (TicketTables.meta s)) s)).

(** [FROM ticket t JOIN meta m ON m.entity_id = t.id AND m.entity_type = 'ticket'] *)
Definition meta_join (s : tables_t) : list (R.t * (meta_key * string)) :=
  map_to_list (TicketTables.meta s) ≫= λ kv,
    if decide (kv.1.1.2 = "ticket") then
      (λ r, (r, kv)) <$> option_list (TicketTables.ticket s !! kv.1.1.1)
    else [].
Definition by_join_priority : relation (R.t * (meta_key * string)) :=
  le_by (R.priority ∘ fst) Z.le.
#[export] Instance by_join_priority_dec : RelDecision by_join_priority.
Proof. unfold by_join_priority. apply _. Defined.
Definition meta_match (x : R.t * (meta_key * string)) : MetadataMatchTicket.t :=
  MetadataMatchTicket.mk (R.id x.1) (R.title x.1) (R.type_ x.1) (R.status x.1) x.2.1.2 x.2.2.

Definition tickets_by_metadata (key value : string) : db (list MetadataMatchTicket.t) :=
  select (λ s, meta_match <$> order_by by_join_priority
    (filter (λ x, x.2.1.2 = key ∧ x.2.2 = value) (meta_join s))).
Definition tickets_with_metadata_key (key : string) : db (list MetadataMatchTicket.t) :=
  select (λ s, meta_match <$> order_by by_join_priority
    (filter (λ x, x.2.1.2 = key) (meta_join s))).

(** *** Edges *)

Definition add_edge (source target : string) (kind : EdgeKind) : db unit :=
  statement (λ s, commit tt (TicketTables.set_edge
    ({[ (source, target, edge_kind_to_str kind) ]} ∪ TicketTables.edge s) s)).
Definition remove_edge (source target : string) (kind : EdgeKind) : db unit :=
  statement (λ s, commit tt (TicketTables.set_edge
    (TicketTables.edge s ∖ {[ (source, target, edge_kind_to_str kind) ]}) s)).
Definition edges_for (ticket_id : string) (kind : option EdgeKind) : db (list Edge.t) :=
  select (λ s, (λ '(a, b, k), Edge.mk a b (edge_kind_from_str k)) <$>
    filter (λ e : edge_key, (e.1.1 = ticket_id ∨ e.1.2 = ticket_id)
              ∧ default e.2 (edge_kind_to_str <$> kind) = e.2)
      (elements (TicketTables.edge s))).

(** *** Activities *)

Definition add_activity (ticket_id author message : string) : db Activity.t :=
  id ← new_uuid;
  timestamp ← utc_now;
  statement (λ s,
    if decide (is_Some (TicketTables.activity s !! id)) then Err unique_violation
    else commit tt (TicketTables.set_activity
      (<[id := ExportActivity.mk id ticket_id timestamp author message]>
         (TicketTables.activity s)) s)) ;;
  mret (Activity.mk id ticket_id timestamp author message).

Definition activity_of (a : ExportActivity.t) : Activity.t :=
  Activity.mk (ExportActivity.id a) (ExportActivity.ticket_id a) (ExportActivity.timestamp a)
    (ExportActivity.author a) (ExportActivity.message a).
Definition by_timestamp : relation ExportActivity.t := le_by ExportActivity.timestamp String.le.
#[export] Instance by_timestamp_dec : RelDecision by_timestamp.
Proof. unfold by_timestamp. apply _. Defined.
Definition get_activities_by_author (ticket_id author : string) : db (list Activity.t) :=
  select (λ s, activity_of <$> order_by by_timestamp
    (filter (λ a, ExportActivity.ticket_id a = ticket_id ∧ ExportActivity.author a = author)
      (rows (TicketTables.activity s)))).
Definition get_activities (ticket_id : string) : db (list Activity.t) :=
  select (λ s, activity_of <$> order_by by_timestamp
    (filter (λ a, ExportActivity.ticket_id a = ticket_id) (rows (TicketTables.activity s)))).

(** *** Review comments *)

Definition insert_ticket_comment (comment_id ticket_id : string) (pr_number : Z)
    (gh_repo : string) : db unit :=
  now ← db_clock;
  statement (λ s,
    if decide (is_Some (TicketTables.ticket_comments s !! (comment_id, ticket_id)))
    then Err unique_violation
    else commit tt (TicketTables.set_comments
      (<[(comment_id, ticket_id) :=
          ExportTicketComment.mk comment_id ticket_id pr_number gh_repo false now]>
         (TicketTables.ticket_comments s)) s)).

Definition comment_of (c : ExportTicketComment.t) : TicketComment.t :=
  TicketComment.mk (ExportTicketComment.comment_id c) (ExportTicketComment.ticket_id c)
    (ExportTicketComment.pr_number c) (ExportTicketComment.gh_repo c)
    (ExportTicketComment.reply_posted c) (ExportTicketComment.created_at c).
Definition by_comment_created : relation ExportTicketComment.t :=
  le_by ExportTicketComment.created_at String.le.
#[export] Instance by_comment_created_dec : RelDecision by_comment_created.
Proof. unfold by_comment_created. apply _. Defined.
Definition get_pending_replies : db (list TicketComment.t) :=
  select (λ s, comment_of <$> order_by by_comment_created
    (filter (λ c, ExportTicketComment.reply_posted c = false)
      (rows (TicketTables.ticket_comments s)))).

Definition mark_reply_posted (comment_id ticket_id : string) : db unit :=
  statement (λ s, commit tt (TicketTables.set_comments
    (alter ExportTicketComment.posted (comment_id, ticket_id) (TicketTables.ticket_comments s)) s)).
End TicketRepo.

(** * The ticket database's invariant

    Every operation of [TicketRepo], whatever its outcome and whenever the
    database fails, keeps the tables sound: rows under their keys, foreign keys,
    no parent cycle. *)

From Stdlib Require Import Ascii Lia.

Section Keys.
Context (s : tables_t) (Hs : keys_ok s).

Lemma keys_set_ticket m :
  map_Forall (λ i r, R.id r = i) m → keys_ok (TicketTables.set_ticket m s).
Proof. destruct Hs as (_ & ? & ?). done. Qed.
Lemma keys_set_edge e : keys_ok (TicketTables.set_edge e s).
Proof. by destruct Hs. Qed.
Lemma keys_set_meta m : keys_ok (TicketTables.set_meta m s).
Proof. by destruct Hs. Qed.
Lemma keys_set_activity m :
  map_Forall (λ i r, ExportActivity.id r = i) m → keys_ok (TicketTables.set_activity m s).
Proof. destruct Hs as (? & _ & ?). done. Qed.
Lemma keys_set_comments m :
  map_Forall (λ k r, (ExportTicketComment.comment_id r, ExportTicketComment.ticket_id r) = k) m →
  keys_ok (TicketTables.set_comments m s).
Proof. destruct Hs as (? & ? & _). done. Qed.

Lemma ticket_keys : map_Forall (λ i r, R.id r = i) (TicketTables.ticket s).
Proof. apply Hs. Qed.
Lemma activity_keys : map_Forall (λ i r, ExportActivity.id r = i) (TicketTables.activity s).
Proof. apply Hs. Qed.
Lemma comment_keys :
  map_Forall (λ k r, (ExportTicketComment.comment_id r, ExportTicketComment.ticket_id r) = k)
    (TicketTables.ticket_comments s).
Proof. apply Hs. Qed.
End Keys.

(** Rewriting rows without touching their key. *)
Lemma map_Forall_fmap_key {K V} `{Countable K} (key : V → K) (f : V → V) (m : gmap K V) :
  (∀ v, key (f v) = key v) →
  map_Forall (λ k v, key v = k) m → map_Forall (λ k v, key v = k) (f <$> m).
Proof. intros Hf Hm k v (v' & <- & Hv)%lookup_fmap_Some. rewrite Hf. by apply Hm. Qed.

Lemma map_Forall_insert_key {K V} `{Countable K} (key : V → K) (m : gmap K V) k v :
  key v = k → map_Forall (λ k v, key v = k) m → map_Forall (λ k v, key v = k) (<[k := v]> m).
Proof. intros Hk Hm. by apply map_Forall_insert_2. Qed.

(** A writing statement keeps the invariant when it keeps the keys. *)
Lemma statement_wf {A} (f : tables_t → result (A * tables_t) sqlx_error) :
  (∀ s, keys_ok s → ∀ a s', f s = Ok (a, s') →
    s' = s ∨ ∃ b s1, keys_ok s1 ∧ @commit A b s1 = Ok (a, s')) →
  preserves (on_tables wf) (statement f).
Proof.
  intros Hf. apply preserves_statement. intros s a s' Hs E.
  destruct (Hf s ltac:(apply Hs) a s' E) as [->|(b & s1 & Hk & Hc)]; [done|].
  by eapply commit_wf.
Qed.

Ltac wf_statement :=
  apply statement_wf; intros ? ? ? ? ?; cbv zeta in *; repeat case_match; simplify_eq;
  first [left; reflexivity|right; eexists _, _; split; [|eassumption]].

Section Invariant.
Context {HE : Env} {HG : PetGraph}.

Lemma wf_insert_ticket id t st l now : preserves (on_tables wf) (insert_ticket id t st l now).
Proof.
  unfold insert_ticket. wf_statement. apply keys_set_ticket; [done|].
  by apply map_Forall_insert_key, ticket_keys.
Qed.

Lemma wf_insert_attempts n t st l now hash :
  preserves (on_tables wf) (insert_attempts n t st l now hash).
Proof.
  revert hash. induction n as [|n IH]; intros hash; simpl; [apply preserves_throw|].
  apply preserves_bind; [apply preserves_attempt, wf_insert_ticket|].
  intros [a|[]]; repeat case_match; eauto with preserves.
Qed.

Lemma wf_create_ticket t : preserves (on_tables wf) (create_ticket t).
Proof.
  unfold create_ticket, insert_with_generated_id.
  apply preserves_bind; [case_match; eauto with preserves|intros now].
  apply preserves_bind; [case_match; eauto using wf_insert_attempts with preserves|intros i].
  apply preserves_bind; [apply preserves_when, wf_insert_ticket|eauto with preserves].
Qed.

Lemma wf_update_ticket_references old new :
  preserves (on_tables wf) (update_ticket_references old new).
Proof.
  unfold update_ticket_references.
  apply preserves_bind; [|intros _; apply preserves_bind; [|intros _; apply preserves_bind;
    [|intros _; apply preserves_bind; [|intros _; apply preserves_bind; [|intros _]]]]]; wf_statement.
  - apply keys_set_ticket; [done|]. apply map_Forall_fmap_key, ticket_keys; [|done].
    intros v. by case_decide.
  - by apply keys_set_edge.
  - by apply keys_set_edge.
  - apply keys_set_activity; [done|]. apply map_Forall_fmap_key, activity_keys; [|done].
    intros v. by case_decide.
  - by apply keys_set_meta.
  - apply keys_set_comments; [done|]. intros [c i] r Hr.
    eapply lookup_rekey in Hr as ([c0 i0] & r0 & Hr0 & Hk & ->); [|done]. injection Hk as -> ->.
    apply comment_keys in Hr0; [|done]. simplify_eq/=.
    unfold subst_id. by case_decide.
Qed.

Lemma wf_rekey_attempts n old p hash : preserves (on_tables wf) (rekey_attempts n old p hash).
Proof.
  revert hash. induction n as [|n IH]; intros hash; simpl; [apply preserves_throw|].
  apply preserves_bind; [apply preserves_select|intros []].
  - apply preserves_bind; eauto with preserves.
  - apply preserves_bind; eauto using wf_update_ticket_references with preserves.
Qed.

Lemma wf_replace_row i f : preserves (on_tables wf) (statement (replace_row i f)).
Proof.
  unfold replace_row. wf_statement. apply keys_set_ticket; [done|].
  apply map_Forall_insert_key; [done|]. by apply map_Forall_delete, ticket_keys.
Qed.

Lemma wf_update_ticket i u : preserves (on_tables wf) (update_ticket i u).
Proof.
  unfold update_ticket, get_ticket, rekey_ticket_id.
  apply preserves_bind; [apply preserves_select|intros o].
  apply preserves_bind; [apply preserves_ok_or|intros t].
  apply preserves_bind; [apply preserves_utc_now|intros now].
  apply preserves_bind; [case_decide; auto using wf_rekey_attempts with preserves|intros new].
  apply preserves_bind; [apply wf_replace_row|eauto with preserves].
Qed.

Lemma wf_close_open_children i : preserves (on_tables wf) (close_open_children i).
Proof.
  unfold close_open_children. wf_statement. apply keys_set_ticket; [done|].
  apply map_Forall_fmap_key, ticket_keys; [|done]. intros v. by case_match.
Qed.

Lemma wf_set_meta e t k v : preserves (on_tables wf) (set_meta e t k v).
Proof. unfold set_meta. wf_statement. by apply keys_set_meta. Qed.
Lemma wf_delete_meta e t k : preserves (on_tables wf) (delete_meta e t k).
Proof. unfold delete_meta. wf_statement. by apply keys_set_meta. Qed.
Lemma wf_add_edge a b k : preserves (on_tables wf) (add_edge a b k).
Proof. unfold add_edge. wf_statement. by apply keys_set_edge. Qed.
Lemma wf_remove_edge a b k : preserves (on_tables wf) (remove_edge a b k).
Proof. unfold remove_edge. wf_statement. by apply keys_set_edge. Qed.

Lemma wf_add_activity i a m : preserves (on_tables wf) (add_activity i a m).
Proof.
  unfold add_activity. apply preserves_bind; [apply preserves_new_uuid|intros id].
  apply preserves_bind; [apply preserves_utc_now|intros now].
  apply preserves_bind; [|eauto with preserves]. wf_statement.
  apply keys_set_activity; [done|]. by apply map_Forall_insert_key, activity_keys.
Qed.

Lemma wf_insert_ticket_comment c i p g :
  preserves (on_tables wf) (insert_ticket_comment c i p g).
Proof.
  unfold insert_ticket_comment. apply preserves_bind; [apply preserves_db_clock|intros now].
  wf_statement. apply keys_set_comments; [done|].
  apply map_Forall_insert_key with (key := λ r,
    (ExportTicketComment.comment_id r, ExportTicketComment.ticket_id r)); [done|].
  by apply comment_keys.
Qed.

Lemma wf_mark_reply_posted c i : preserves (on_tables wf) (mark_reply_posted c i).
Proof.
  unfold mark_reply_posted. wf_statement. apply keys_set_comments; [done|].
  intros k r. rewrite lookup_alter_Some. intros [(<- & r' & Hr & ->)|[_ Hr]].
  - apply comment_keys in Hr; [|done]. exact Hr.
  - by apply comment_keys in Hr.
Qed.
End Invariant.

#[export] Hint Resolve wf_create_ticket wf_update_ticket wf_close_open_children wf_set_meta
  wf_delete_meta wf_add_edge wf_remove_edge wf_add_activity wf_insert_ticket_comment
  wf_mark_reply_posted : preserves.
