(* ===== verification/TicketTransfer.v ===== *)
(** * Export and import of the ticket database

    The [export_*] queries of [ticket_repo.rs] and [import_records], which writes
    a whole export back in one transaction.  The JSON coding of the records
    ([server/src/ticket_export], [server/src/ticket_import]) is [serde]'s. *)

From S2P Require Import Prelude RustStd Model Env TicketDb TicketGraph TicketRepo.
From Stdlib Require Import Ascii Lia.
Local Open Scope stdpp_scope.

Module ImportError.
Inductive t : Type := IdCollision (ids : list string) | Db (msg : string).
End ImportError.

(** ** Export *)

Definition by_ticket_id : relation R.t := le_by R.id String.le.
#[export] Instance by_ticket_id_dec : RelDecision by_ticket_id.
Proof. unfold by_ticket_id. apply _. Defined.
Definition export_tickets : db (list R.t) :=
  select (λ s, order_by by_ticket_id (rows (TicketTables.ticket s))).

Definition export_edge_of (e : edge_key) : ExportEdge.t := ExportEdge.mk e.1.1 e.1.2 e.2.
Definition by_edge : relation ExportEdge.t :=
  le_then ExportEdge.source_id String.le
    (le_then ExportEdge.target_id String.le (le_by ExportEdge.kind String.le)).
#[export] Instance by_edge_dec : RelDecision by_edge.
Proof. unfold by_edge. apply _. Defined.
Definition export_edges : db (list ExportEdge.t) :=
  select (λ s, order_by by_edge (export_edge_of <$> elements (TicketTables.edge s))).

Definition export_meta_of (kv : meta_key * string) : ExportMeta.t :=
  ExportMeta.mk kv.1.1.1 kv.1.1.2 kv.1.2 kv.2.
Definition by_meta : relation ExportMeta.t :=
  le_then ExportMeta.entity_type String.le
    (le_then ExportMeta.entity_id String.le (le_by ExportMeta.key String.le)).
#[export] Instance by_meta_dec : RelDecision by_meta.
Proof. unfold by_meta. apply _. Defined.
Definition export_meta : db (list ExportMeta.t) :=
  select (λ s, order_by by_meta (export_meta_of <$> map_to_list (TicketTables.meta s))).

Definition by_activity : relation ExportActivity.t :=
  le_then ExportActivity.ticket_id String.le
    (le_then ExportActivity.timestamp String.le (le_by ExportActivity.id String.le)).
#[export] Instance by_activity_dec : RelDecision by_activity.
Proof. unfold by_activity. apply _. Defined.
Definition export_activities : db (list ExportActivity.t) :=
  select (λ s, order_by by_activity (rows (TicketTables.activity s))).

Definition by_comment : relation ExportTicketComment.t :=
  le_then ExportTicketComment.ticket_id String.le (le_by ExportTicketComment.comment_id String.le).
#[export] Instance by_comment_dec : RelDecision by_comment.
Proof. unfold by_comment. apply _. Defined.
Definition export_ticket_comments : db (list ExportTicketComment.t) :=
  select (λ s, order_by by_comment (rows (TicketTables.ticket_comments s))).

(** The rows [stream_export] sends, kind by kind. *)
Module Dump.
Record t : Type := mk {
  tickets : list R.t;
  edges : list ExportEdge.t;
  meta : list ExportMeta.t;
  activities : list ExportActivity.t;
  comments : list ExportTicketComment.t
}.
Definition rows_count (d : t) : Z :=
  Z.of_nat (length (tickets d) + length (edges d) + length (meta d)
            + length (activities d) + length (comments d)).
End Dump.

Definition stream_export : db Dump.t :=
  tickets ← export_tickets;
  edges ← export_edges;
  meta ← export_meta;
  activities ← export_activities;
  comments ← export_ticket_comments;
  mret (Dump.mk tickets edges meta activities comments).

(** ** Import *)

Abbreviation import A := (SE (pool tables_t) ImportError.t A).

Section Importing.
Context {HE : Env}.

(** [.map_err(|e| ImportError::Db(e.to_string()))] *)
Definition import_err (e : sqlx_error) : ImportError.t := ImportError.Db (sqlx_display e).

Definition check_ticket_id_collisions (tickets : list R.t) : import unit :=
  match tickets with
  | [] => mret tt
  | _ =>
      let ids := R.id <$> tickets in
      existing ← map_err import_err (select (λ s,
        R.id <$> filter (λ r, R.id r ∈ ids) (rows (TicketTables.ticket s))));
      match existing with
      | [] => mret tt
      | _ => throw (ImportError.IdCollision existing)
      end
  end.

Definition insert_one_ticket (t : R.t) : db unit :=
  statement (λ s,
    if decide (is_Some (TicketTables.ticket s !! R.id t)) then Err unique_violation
    else commit tt (TicketTables.set_ticket (<[R.id t := t]> (TicketTables.ticket s)) s)).
Definition insert_tickets (tickets : list R.t) : import Z :=
  for_each (λ t, map_err import_err (insert_one_ticket t)) tickets ;;
  mret (Z.of_nat (length tickets)).

Definition insert_one_edge (e : ExportEdge.t) : db unit :=
  statement (λ s, commit tt (TicketTables.set_edge
    ({[ (ExportEdge.source_id e, ExportEdge.target_id e, ExportEdge.kind e) ]}
      ∪ TicketTables.edge s) s)).
Definition insert_edges (edges : list ExportEdge.t) : import Z :=
  for_each (λ e, map_err import_err (insert_one_edge e)) edges ;;
  mret (Z.of_nat (length edges)).

Definition meta_key_of (m : ExportMeta.t) : meta_key :=
  (ExportMeta.entity_id m, ExportMeta.entity_type m, ExportMeta.key m).
Definition insert_one_meta (m : ExportMeta.t) : db unit :=
  statement (λ s,
    if decide (is_Some (TicketTables.meta s !! meta_key_of m)) then Ok (tt, s)
    else commit tt (TicketTables.set_meta
      (<[meta_key_of m := ExportMeta.value m]> (TicketTables.meta s)) s)).
Definition insert_meta (meta : list ExportMeta.t) : import Z :=
  for_each (λ m, map_err import_err (insert_one_meta m)) meta ;;
  mret (Z.of_nat (length meta)).

Definition insert_one_activity (a : ExportActivity.t) : db unit :=
  statement (λ s,
    if decide (is_Some (TicketTables.activity s !! ExportActivity.id a)) then Ok (tt, s)
    else commit tt (TicketTables.set_activity
      (<[ExportActivity.id a := a]> (TicketTables.activity s)) s)).
Definition insert_activities (activities : list ExportActivity.t) : import Z :=
  for_each (λ a, map_err import_err (insert_one_activity a)) activities ;;
  mret (Z.of_nat (length activities)).

Definition comment_key (c : ExportTicketComment.t) : string * string :=
  (ExportTicketComment.comment_id c, ExportTicketComment.ticket_id c).
Definition insert_one_comment (c : ExportTicketComment.t) : db unit :=
  statement (λ s,
    if decide (is_Some (TicketTables.ticket_comments s !! comment_key c)) then Ok (tt, s)
    else commit tt (TicketTables.set_comments
      (<[comment_key c := c]> (TicketTables.ticket_comments s)) s)).
Definition insert_ticket_comments (comments : list ExportTicketComment.t) : import Z :=
  for_each (λ c, map_err import_err (insert_one_comment c)) comments ;;
  mret (Z.of_nat (length comments)).

Definition insert_import_rows (tickets : list R.t) (edges : list ExportEdge.t)
    (meta : list ExportMeta.t) (activities : list ExportActivity.t)
    (comments : list ExportTicketComment.t) : import Z :=
  c1 ← insert_tickets tickets;
  c2 ← insert_edges edges;
  c3 ← insert_meta meta;
  c4 ← insert_activities activities;
  c5 ← insert_ticket_comments comments;
  mret (0 + c1 + c2 + c3 + c4 + c5)%Z.

Definition import_records (tickets : list R.t) (edges : list ExportEdge.t)
    (meta : list ExportMeta.t) (activities : list ExportActivity.t)
    (comments : list ExportTicketComment.t) : import Z :=
  check_ticket_id_collisions tickets ;;
  transaction import_err (insert_import_rows tickets edges meta activities comments).

(** *** The imports keep the invariant *)

Lemma wf_import_records ts es ms acts cs :
  preserves (on_tables wf) (import_records ts es ms acts cs).
Proof.
  unfold import_records, check_ticket_id_collisions. apply preserves_bind.
  { case_match; eauto with preserves. apply preserves_bind; [eauto with preserves|].
    intros existing. case_match; eauto with preserves. }
  intros _. apply preserves_transaction. unfold insert_import_rows.
  assert (∀ {A} (f : A → db unit) (l : list A), (∀ x, preserves (on_tables wf) (f x)) →
    preserves (on_tables wf) (for_each (λ x, map_err import_err (f x)) l ;;
      mret (Z.of_nat (length l)))) as Hall.
  { intros A f l Hf. apply preserves_bind; [|eauto with preserves].
    apply preserves_for_each. eauto with preserves. }
  repeat (apply preserves_bind; [apply Hall; intros x|intros ?]); [..|apply preserves_ret].
  - unfold insert_one_ticket. wf_statement. apply keys_set_ticket; [done|].
    by apply map_Forall_insert_key, ticket_keys.
  - unfold insert_one_edge. wf_statement. by apply keys_set_edge.
  - unfold insert_one_meta. wf_statement. by apply keys_set_meta.
  - unfold insert_one_activity. wf_statement. apply keys_set_activity; [done|].
    by apply map_Forall_insert_key, activity_keys.
  - unfold insert_one_comment. wf_statement. apply keys_set_comments; [done|].
    apply map_Forall_insert_key with (key := λ r,
      (ExportTicketComment.comment_id r, ExportTicketComment.ticket_id r)); [done|].
    by apply comment_keys.
Qed.
End Importing.
#[export] Hint Resolve wf_import_records : preserves.

Lemma wf_empty : wf TicketTables.empty.
Proof. apply (bool_decide_unpack _). vm_compute. exact I. Qed.

(** ** Exporting and importing *)

(** A loop whose iterations each succeed builds the state of the whole list. *)
Lemma for_each_builds {T E X} (f : X → SE (pool T) E unit) (put : list X → T) (l : list X) t t' k :
  put [] = t → put l = t' →
  (∀ l1 x l2, l = l1 ++ x :: l2 →
    f x (Pool (put l1) [] k) = (Ok tt, Pool (put (l1 ++ [x])) [] k)) →
  for_each f l (Pool t [] k) = (Ok tt, Pool t' [] k).
Proof.
  intros <- <- Hf. assert (∀ l2 l1, l = l1 ++ l2 →
    for_each f l2 (Pool (put l1) [] k) = (Ok tt, Pool (put l) [] k)) as H; [|by apply (H l [])].
  induction l2 as [|x l2 IH]; intros l1 Hl; simpl.
  - by rewrite run_ret, Hl, app_nil_r.
  - rewrite run_bind, (Hf l1 x l2 Hl). apply IH. by rewrite Hl, <-app_assoc.
Qed.

(** The table of a list of rows. *)
Definition table_of {K X} `{Countable K} (key : X → K) (l : list X) : gmap K X :=
  list_to_map ((λ x, (key x, x)) <$> l).

Section TableOf.
Context {K X : Type} `{Countable K} (key : X → K).

Lemma table_of_snoc l x :
  key x ∉ key <$> l → table_of key (l ++ [x]) = <[key x := x]> (table_of key l).
Proof.
  intros Hx. unfold table_of. rewrite fmap_app. simpl. apply list_to_map_snoc.
  by rewrite <-list_fmap_compose.
Qed.
Lemma lookup_table_of_None l k : k ∉ key <$> l → table_of key l !! k = None.
Proof. intros Hk. apply not_elem_of_list_to_map. by rewrite <-list_fmap_compose. Qed.
Lemma dom_table_of l k : k ∈ dom (table_of key l) ↔ k ∈ key <$> l.
Proof. unfold table_of. by rewrite dom_list_to_map, elem_of_list_to_set, <-list_fmap_compose. Qed.

Lemma map_to_list_rows (m : gmap K X) :
  map_Forall (λ k x, key x = k) m → map_to_list m = (λ x, (key x, x)) <$> rows m.
Proof.
  intros Hk. unfold rows. rewrite <-list_fmap_compose.
  rewrite <-(list_fmap_id (map_to_list m)) at 1. apply list_fmap_ext.
  intros i [k x] Hi. apply list_elem_of_lookup_2, elem_of_map_to_list in Hi. simpl.
  by rewrite (Hk _ _ Hi).
Qed.

(** A sorted listing of a table is a listing of the table. *)
Lemma table_of_rows (R : relation X) `{!RelDecision R} (m : gmap K X) :
  map_Forall (λ k x, key x = k) m →
  table_of key (order_by R (rows m)) = m ∧ NoDup (key <$> order_by R (rows m)).
Proof.
  intros Hk. pose proof (order_by_perm R (rows m)) as Hp.
  assert (NoDup (key <$> order_by R (rows m))) as Hnd.
  { rewrite Hp. replace (key <$> rows m) with ((map_to_list m).*1); [apply NoDup_fst_map_to_list|].
    by rewrite map_to_list_rows, <-list_fmap_compose. }
  split; [|done]. rewrite <-(list_to_map_to_list m) at 2. unfold table_of.
  apply list_to_map_proper; [by rewrite <-list_fmap_compose|].
  by rewrite map_to_list_rows, Hp.
Qed.
End TableOf.

Lemma NoDup_split {A B} (f : A → B) l1 x l2 : NoDup (f <$> l1 ++ x :: l2) → f x ∉ f <$> l1.
Proof. rewrite fmap_app, fmap_cons. intros (_ & H & _)%NoDup_app Hx. apply (H _ Hx). by left. Qed.

Section Roundtrip.
Context {HE : Env} (s : tables_t) (Hwf : wf s).

(** Tables that hold all the tickets of [s] and part of the rest. *)
Lemma part_commit {A} (a : A) t :
  TicketTables.ticket t = TicketTables.ticket s →
  TicketTables.edge t ⊆ TicketTables.edge s →
  TicketTables.activity t ⊆ TicketTables.activity s →
  TicketTables.ticket_comments t ⊆ TicketTables.ticket_comments s →
  commit a t = Ok (a, t).
Proof.
  intros Ht He Ha Hc. destruct Hwf as (_ & (F1 & F2 & F3 & F4) & Hac).
  apply commit_ok; [|by rewrite Ht]. unfold fk_ok, ids in *. rewrite Ht. split_and!.
  - done.
  - intros e H. apply F2, He, H.
  - intros i r Hr. by eapply F3, lookup_weaken.
  - intros i r Hr. by eapply F4, lookup_weaken.
Qed.

Definition with_tickets (l : list R.t) : tables_t :=
  TicketTables.set_ticket (table_of R.id l) TicketTables.empty.

(** Parents come before their children in a listing by id, when every parent's
    id sorts before its children's. *)
Lemma parents_first l1 r l2 p :
  order_by by_ticket_id (rows (TicketTables.ticket s)) = l1 ++ r :: l2 →
  R.parent_id r = Some p → String.le p (R.id r) → p ∈ R.id <$> l1.
Proof.
  intros Hl Hp Hle.
  assert (r ∈ rows (TicketTables.ticket s)) as Hr.
  { apply (elem_of_order_by by_ticket_id). rewrite Hl, elem_of_app, elem_of_cons. auto. }
  apply elem_of_rows in Hr as (i & Hr).
  pose proof (ticket_keys s ltac:(apply Hwf) _ _ Hr) as Hi. simpl in Hi.
  assert (p ≠ R.id r) as Hne.
  { intros ->. assert (parent_of (TicketTables.ticket s) i = Some (R.id r)) as Hpo
      by (unfold parent_of; by rewrite Hr).
    apply (wf_rank s) in Hpo; [|done]. rewrite Hi in Hpo. lia. }
  destruct Hwf as ((Hk & _) & (F1 & _) & _). pose proof (F1 _ _ Hr) as Hok. simpl in Hok.
  unfold parent_ok, ids in Hok. rewrite Hp in Hok. apply elem_of_dom in Hok as [q Hq].
  pose proof (Hk _ _ Hq) as Hqk. simpl in Hqk.
  assert (q ∈ l1 ++ r :: l2) as Hin.
  { rewrite <-Hl, elem_of_order_by. apply elem_of_rows. eauto. }
  apply elem_of_app in Hin as [Hin|[->|Hin]%elem_of_cons].
  - rewrite <-Hqk. apply list_elem_of_fmap. eauto.
  - congruence.
  - exfalso. assert (StronglySorted by_ticket_id (l1 ++ r :: l2)) as Hs.
    { rewrite <-Hl. apply order_by_sorted; unfold by_ticket_id; apply _. }
    apply StronglySorted_app_1_r, StronglySorted_cons in Hs as [Hs _].
    rewrite Forall_forall in Hs. apply Hne. apply (anti_symm String.le); [done|].
    rewrite <-Hqk. by apply Hs.
Qed.

Context (Hord : ∀ c p, parent_of (TicketTables.ticket s) c = Some p → String.le p c).

Let L := order_by by_ticket_id (rows (TicketTables.ticket s)).

Lemma with_tickets_all :
  table_of R.id L = TicketTables.ticket s ∧ NoDup (R.id <$> L).
Proof. apply table_of_rows. apply Hwf. Qed.

Lemma listed_parent l1 r l2 p :
  L = l1 ++ r :: l2 → R.parent_id r = Some p → p ∈ R.id <$> l1.
Proof.
  intros Hl Hp. eapply parents_first; [done..|].
  assert (r ∈ rows (TicketTables.ticket s)) as (i & Hr)%elem_of_rows.
  { apply (elem_of_order_by by_ticket_id). fold L. rewrite Hl, elem_of_app, elem_of_cons. auto. }
  pose proof (ticket_keys s ltac:(apply Hwf) _ _ Hr) as Hi. simpl in Hi.
  apply Hord. unfold parent_of. by rewrite Hi, Hr.
Qed.

(** Inserting the next listed ticket commits. *)
Lemma insert_listed l1 r l2 k :
  L = l1 ++ r :: l2 → wf (with_tickets l1) →
  insert_one_ticket r (Pool (with_tickets l1) [] k)
    = (Ok tt, Pool (with_tickets (l1 ++ [r])) [] k).
Proof.
  intros Hl Hwf1. pose proof (proj2 with_tickets_all) as Hnd. rewrite Hl in Hnd.
  pose proof (NoDup_split R.id l1 r l2 Hnd) as Hnew.
  assert (table_of R.id l1 !! R.id r = None) as Hnone by by apply lookup_table_of_None.
  unfold insert_one_ticket. rewrite run_statement. cbv beta.
  rewrite decide_False by (simpl; rewrite Hnone; by intros [??]).
  rewrite (commit_insert_ticket tt (with_tickets l1) (R.id r) r Hwf1 Hnone).
  - rewrite decide_True.
    + unfold with_tickets. by rewrite table_of_snoc.
    + unfold parent_ok. destruct (R.parent_id r) as [p|] eqn:Hp; [|done].
      unfold ids. simpl. apply dom_table_of. by eapply listed_parent.
  - intros Hp. by apply Hnew, (listed_parent l1 r l2).
Qed.

Lemma with_tickets_wf l1 l2 : L = l1 ++ l2 → wf (with_tickets l1).
Proof.
  revert l2. induction l1 as [|r l1 IH] using rev_ind; intros l2 Hl; [exact wf_empty|].
  rewrite <-app_assoc in Hl. simpl in Hl. pose proof (IH _ Hl) as Hwf1.
  pose proof (insert_listed l1 r l2 0 Hl Hwf1) as Hins.
  assert (preserves (on_tables wf) (insert_one_ticket r)) as Hpres.
  { unfold insert_one_ticket. wf_statement. apply keys_set_ticket; [done|].
    by apply map_Forall_insert_key, ticket_keys. }
  specialize (Hpres (Pool (with_tickets l1) [] 0) Hwf1). by rewrite Hins in Hpres.
Qed.

Lemma insert_tickets_listed k :
  insert_tickets L (Pool TicketTables.empty [] k)
  = (Ok (Z.of_nat (length L)), Pool (TicketTables.set_ticket (TicketTables.ticket s) TicketTables.empty) [] k).
Proof.
  unfold insert_tickets. rewrite run_bind.
  rewrite (for_each_builds _ with_tickets L TicketTables.empty
    (TicketTables.set_ticket (TicketTables.ticket s) TicketTables.empty)).
  - done.
  - done.
  - unfold with_tickets. by rewrite (proj1 with_tickets_all).
  - intros l1 r l2 Hl. rewrite run_map_err, (insert_listed l1 r l2); [done..|].
    by apply (with_tickets_wf l1 (r :: l2)).
Qed.

(** *** The other kinds *)

Definition edge_key_of (e : ExportEdge.t) : edge_key :=
  (ExportEdge.source_id e, ExportEdge.target_id e, ExportEdge.kind e).

Let es := order_by by_edge (export_edge_of <$> elements (TicketTables.edge s)).
Let ms := order_by by_meta (export_meta_of <$> map_to_list (TicketTables.meta s)).
Let acts := order_by by_activity (rows (TicketTables.activity s)).
Let cs := order_by by_comment (rows (TicketTables.ticket_comments s)).

Lemma edges_all : (list_to_set (edge_key_of <$> es) : gset edge_key) = TicketTables.edge s.
Proof.
  apply set_eq. intros [[a b] k]. unfold es.
  rewrite elem_of_list_to_set, (order_by_perm by_edge), <-list_fmap_compose.
  rewrite <-(elem_of_elements (TicketTables.edge s)), list_elem_of_fmap. split.
  - intros ([[a' b'] k'] & E & H). unfold edge_key_of, export_edge_of in E. by simplify_eq/=.
  - intros H. by exists (a, b, k).
Qed.

Definition meta_table (l : list ExportMeta.t) : gmap meta_key string :=
  list_to_map ((λ m, (meta_key_of m, ExportMeta.value m)) <$> l).

Lemma meta_all : meta_table ms = TicketTables.meta s ∧ NoDup (meta_key_of <$> ms).
Proof.
  unfold meta_table, ms. pose proof (order_by_perm by_meta
    (export_meta_of <$> map_to_list (TicketTables.meta s))) as Hp.
  assert (∀ l : list (meta_key * string),
    (λ m, (meta_key_of m, ExportMeta.value m)) <$> (export_meta_of <$> l) = l) as Hid.
  { intros l. rewrite <-list_fmap_compose. rewrite <-(list_fmap_id l) at 2.
    apply list_fmap_ext. by intros i [[[??]?]?] _. }
  assert (NoDup (meta_key_of <$> order_by by_meta
    (export_meta_of <$> map_to_list (TicketTables.meta s)))) as Hnd.
  { rewrite Hp. replace (meta_key_of <$> (export_meta_of <$> map_to_list (TicketTables.meta s)))
      with ((map_to_list (TicketTables.meta s)).*1); [apply NoDup_fst_map_to_list|].
    rewrite <-(Hid (map_to_list (TicketTables.meta s))) at 1. by rewrite <-!list_fmap_compose. }
  split; [|done]. rewrite <-(list_to_map_to_list (TicketTables.meta s)) at 2.
  apply list_to_map_proper; [by rewrite <-list_fmap_compose|]. by rewrite Hp, Hid.
Qed.

Lemma activities_all :
  table_of ExportActivity.id acts = TicketTables.activity s ∧ NoDup (ExportActivity.id <$> acts).
Proof. apply table_of_rows. apply Hwf. Qed.
Lemma comments_all :
  table_of comment_key cs = TicketTables.ticket_comments s ∧ NoDup (comment_key <$> cs).
Proof. apply table_of_rows. apply Hwf. Qed.

(** The tables after each kind. *)
Let s1 := TicketTables.set_ticket (TicketTables.ticket s) TicketTables.empty.
Let s2 := TicketTables.set_edge (TicketTables.edge s) s1.
Let s3 := TicketTables.set_meta (TicketTables.meta s) s2.
Let s4 := TicketTables.set_activity (TicketTables.activity s) s3.

Lemma insert_edges_listed k : insert_edges es (Pool s1 [] k) = (Ok (Z.of_nat (length es)), Pool s2 [] k).
Proof.
  unfold insert_edges. rewrite run_bind.
  rewrite (for_each_builds _
    (λ l, TicketTables.set_edge (list_to_set (edge_key_of <$> l)) s1) es s1 s2).
  - done.
  - done.
  - by rewrite edges_all.
  - intros l1 e l2 Hl. unfold insert_one_edge. rewrite run_map_err, run_statement. cbn.
    assert ({[(ExportEdge.source_id e, ExportEdge.target_id e, ExportEdge.kind e)]}
        ∪ list_to_set (edge_key_of <$> l1)
      = (list_to_set (edge_key_of <$> l1 ++ [e]) : gset edge_key)) as ->.
    { rewrite fmap_app, list_to_set_app_L. unfold edge_key_of. set_solver. }
    rewrite part_commit; [done|done| |apply map_empty_subseteq..].
    simpl. rewrite <-edges_all, Hl, !fmap_app, !list_to_set_app_L. set_solver.
Qed.

Lemma insert_meta_listed k : insert_meta ms (Pool s2 [] k) = (Ok (Z.of_nat (length ms)), Pool s3 [] k).
Proof.
  unfold insert_meta. rewrite run_bind. destruct meta_all as [Hall Hnd].
  rewrite (for_each_builds _ (λ l, TicketTables.set_meta (meta_table l) s2) ms s2 s3).
  - done.
  - done.
  - by rewrite Hall.
  - intros l1 m l2 Hl. rewrite Hl in Hnd. apply NoDup_split in Hnd.
    unfold insert_one_meta. rewrite run_map_err, run_statement. cbn.
    rewrite decide_False.
    2: { unfold meta_table. rewrite not_elem_of_list_to_map_1; [by intros [??]|].
         by rewrite <-list_fmap_compose. }
    rewrite part_commit; [|done..|apply map_empty_subseteq|apply map_empty_subseteq].
    unfold meta_table. rewrite fmap_app. simpl. rewrite list_to_map_snoc; [done|].
    by rewrite <-list_fmap_compose.
Qed.

Lemma table_of_prefix {K X} `{Countable K} (key : X → K) (l l1 l2 : list X) :
  l = l1 ++ l2 → NoDup (key <$> l) → table_of key l1 ⊆ table_of key l.
Proof.
  intros -> Hnd. unfold table_of. rewrite fmap_app, list_to_map_app.
  apply map_union_subseteq_l.
Qed.

Lemma insert_activities_listed k :
  insert_activities acts (Pool s3 [] k) = (Ok (Z.of_nat (length acts)), Pool s4 [] k).
Proof.
  unfold insert_activities. rewrite run_bind. destruct activities_all as [Hall Hnd].
  rewrite (for_each_builds _
    (λ l, TicketTables.set_activity (table_of ExportActivity.id l) s3) acts s3 s4).
  - done.
  - done.
  - by rewrite Hall.
  - intros l1 a l2 Hl. pose proof Hnd as Hnew. rewrite Hl in Hnew. apply NoDup_split in Hnew.
    unfold insert_one_activity. rewrite run_map_err, run_statement. cbn.
    rewrite decide_False by (rewrite lookup_table_of_None by done; by intros [??]).
    rewrite part_commit; [|done..| |apply map_empty_subseteq].
    + by rewrite table_of_snoc.
    + simpl. rewrite <-Hall, <-table_of_snoc by done.
      apply (table_of_prefix _ acts _ l2); [|done]. by rewrite Hl, <-app_assoc.
Qed.

Lemma insert_comments_listed k :
  insert_ticket_comments cs (Pool s4 [] k) = (Ok (Z.of_nat (length cs)), Pool s [] k).
Proof.
  unfold insert_ticket_comments. rewrite run_bind. destruct comments_all as [Hall Hnd].
  rewrite (for_each_builds _
    (λ l, TicketTables.set_comments (table_of comment_key l) s4) cs s4 s).
  - done.
  - done.
  - rewrite Hall. by destruct s.
  - intros l1 c l2 Hl. pose proof Hnd as Hnew. rewrite Hl in Hnew. apply NoDup_split in Hnew.
    unfold insert_one_comment. rewrite run_map_err, run_statement. cbn.
    rewrite decide_False by (rewrite lookup_table_of_None by done; by intros [??]).
    rewrite part_commit; [|done..|].
    + by rewrite table_of_snoc.
    + simpl. rewrite <-Hall, <-table_of_snoc by done.
      apply (table_of_prefix _ cs _ l2); [|done]. by rewrite Hl, <-app_assoc.
Qed.

(** C25: An export imported into an empty database restores it exactly, and the
    import reports the number of exported rows, as long as every parent's id
    sorts before its children's ids: tickets are exported in id order, imported
    in that order, and a row whose parent is not there yet is refused. *)
Theorem export_import_roundtrip n k :
  ∃ d, stream_export (Pool s [] n) = (Ok d, Pool s [] n)
    ∧ import_records (Dump.tickets d) (Dump.edges d) (Dump.meta d) (Dump.activities d)
        (Dump.comments d) (Pool TicketTables.empty [] k)
      = (Ok (Dump.rows_count d), Pool s [] k).
Proof.
  exists (Dump.mk L es ms acts cs). split; [done|]. simpl.
  unfold import_records. rewrite run_bind.
  assert (check_ticket_id_collisions L (Pool TicketTables.empty [] k)
    = (Ok tt, Pool TicketTables.empty [] k)) as ->
    by (unfold check_ticket_id_collisions; by destruct L).
  rewrite run_transaction. unfold insert_import_rows.
  rewrite run_bind, insert_tickets_listed. fold s1.
  rewrite run_bind, insert_edges_listed, run_bind, insert_meta_listed.
  rewrite run_bind, insert_activities_listed, run_bind, insert_comments_listed, run_ret.
  rewrite run_map_err, run_select. do 2 f_equal. unfold Dump.rows_count. simpl. lia.
Qed.
End Roundtrip.

(** The order matters: with a child whose id sorts before its parent's, the
    database's own export cannot be imported into an empty database; the import
    fails on the foreign key and writes nothing. *)
Theorem export_import_child_first `{HE : Env} :
  let s := TicketTables.set_ticket
    (list_to_map ((λ r, (R.id r, r)) <$>
      [sample_ticket "ur-b" "open" None; sample_ticket "ur-a" "open" (Some "ur-b")]))
    TicketTables.empty in
  ∃ d, wf s ∧ stream_export (Pool s [] 0) = (Ok d, Pool s [] 0)
    ∧ import_records (Dump.tickets d) (Dump.edges d) (Dump.meta d) (Dump.activities d)
        (Dump.comments d) (Pool TicketTables.empty [] 0)
      = (Err (ImportError.Db (sqlx_display (Database FOREIGN_KEY_VIOLATION))),
         Pool TicketTables.empty [] 0).
Proof.
  eexists. split; [apply (bool_decide_unpack _); vm_compute; exact I|].
  split; [vm_compute; reflexivity|]. vm_compute. reflexivity.
Qed.

(** The count an import reports is the number of rows it was given, not the
    number of rows it inserted: here the second activity has the id of the first,
    is skipped, and is counted. *)
Theorem import_counts_skipped_rows `{HE : Env} :
  let a := ExportActivity.mk "act-1" "ur-a" "2024" "me" in
  ∃ s, import_records [sample_ticket "ur-a" "open" None] [] [] [a "first"; a "second"] []
      (Pool TicketTables.empty [] 0) = (Ok 3%Z, Pool s [] 0)
    ∧ size (TicketTables.ticket s) + size (TicketTables.activity s) = 2.
Proof. eexists. split; vm_compute; reflexivity. Qed.

Lemma export_import_roundtrip_witness :
  ∃ d, stream_export (Pool sample_tables [] 0) = (Ok d, Pool sample_tables [] 0)
    ∧ @import_records test_env (Dump.tickets d) (Dump.edges d) (Dump.meta d) (Dump.activities d)
        (Dump.comments d) (Pool TicketTables.empty [] 0)
      = (Ok (Dump.rows_count d), Pool sample_tables [] 0).
Proof.
  apply (@export_import_roundtrip test_env sample_tables sample_wf).
  assert (map_Forall (λ c r, String.le (default c (R.parent_id r)) c)
    (TicketTables.ticket sample_tables)) as H.
  { apply (bool_decide_unpack _). vm_compute. exact I. }
  intros c p Hp. unfold parent_of in Hp. apply bind_Some in Hp as (r & Hr & Hp).
  specialize (H c r Hr). simpl in H. by rewrite Hp in H.
Defined.
