(* ===== verification/TicketQueries.v ===== *)
(** * What the ticket queries return

    The listings, the ticket tree and the dispatchable tickets, against a
    specification on the tables. *)

From S2P Require Import Prelude RustStd Model Env TicketDb TicketGraph TicketRepo.
From Stdlib Require Import Ascii Lia.
Local Open Scope stdpp_scope.

(** ** The filter clause *)

(** The tickets a filter asks for. *)
Definition matches (f : TicketFilter.t) (include_children : bool) (r : R.t) : Prop :=
  (include_children = false → TicketFilter.parent_id f = None → R.parent_id r = None)
  ∧ (∀ p, TicketFilter.project f = Some p → R.project r = p)
  ∧ (TicketFilter.statuses f ≠ [] → R.status r ∈ TicketFilter.statuses f)
  ∧ (∀ t, TicketFilter.type_ f = Some t → R.type_ r = t)
  ∧ (∀ p, TicketFilter.parent_id f = Some p → R.parent_id r = Some p)
  ∧ (∀ l, TicketFilter.lifecycle_status f = Some l →
       R.lifecycle_status r = LifecycleStatus.as_str l).

Definition cond_idxs (c : cond) : list nat :=
  match c with ParentIsNull => [] | ColEq _ idx => [idx] | StatusIn idxs => idxs end.

(** The placeholders of a clause are [$1 .. $n], in order, one per bind. *)
Definition placeholders_ok (cs : list cond) (bs : list string) : Prop :=
  (cs ≫= cond_idxs) = seq 1 (length bs).

Definition clause_ok (st : clause) : Prop :=
  param_idx st = length (binds st) ∧ placeholders_ok (conds st) (binds st).
Definition clause_holds (r : R.t) (st : clause) : Prop :=
  where_holds (conds st) (binds st) r = true.

Lemma sql_eq_true a b : sql_eq a b = true ↔ ∃ x, a = Some x ∧ b = Some x.
Proof.
  destruct a as [a|], b as [b|]; simpl; rewrite ?bool_decide_eq_true; naive_solver.
Qed.

Section Clause.
Context (r : R.t).

(** Later binds do not change what earlier conditions mean. *)
Lemma cond_holds_extend bs vs c :
  (∀ i, i ∈ cond_idxs c → 1 ≤ i ≤ length bs) →
  cond_holds (bs ++ vs) r c = cond_holds bs r c.
Proof.
  intros Hi. assert (∀ i, i ∈ cond_idxs c → bound (bs ++ vs) i = bound bs i) as Hb.
  { intros i Hin. unfold bound. apply lookup_app_l. specialize (Hi i Hin). lia. }
  destruct c as [|c i|idxs]; simpl in *; [done|by rewrite Hb by (by left)|].
  clear Hi. induction idxs as [|i idxs IH]; simpl; [done|].
  rewrite Hb by (by left). f_equal. apply IH. intros j Hj. apply Hb. by right.
Qed.

Lemma where_holds_extend st vs :
  clause_ok st → where_holds (conds st) (binds st ++ vs) r = where_holds (conds st) (binds st) r.
Proof.
  intros [_ Hp]. unfold where_holds.
  assert (∀ c, c ∈ conds st → ∀ i, i ∈ cond_idxs c → 1 ≤ i ≤ length (binds st)) as Hi.
  { intros c Hc i Hi. assert (i ∈ (conds st ≫= cond_idxs)) as Hin
      by (apply list_elem_of_bind; eauto).
    rewrite Hp in Hin. apply elem_of_seq in Hin. lia. }
  clear Hp. induction (conds st) as [|c cs IH]; simpl; [done|].
  rewrite cond_holds_extend by (apply Hi; by left). f_equal. apply IH.
  intros c' Hc'. apply Hi. by right.
Qed.

Lemma where_holds_snoc cs c bs :
  where_holds (cs ++ [c]) bs r = where_holds cs bs r && cond_holds bs r c.
Proof. unfold where_holds. rewrite forallb_app. simpl. by rewrite andb_true_r. Qed.

Lemma push_eq_spec c v st :
  clause_ok st → clause_ok (push_eq c v st) ∧
    (clause_holds r (push_eq c v st) ↔
     clause_holds r st ∧ ∀ x, v = Some x → column_value c r = Some x).
Proof.
  intros Hok. pose proof Hok as [Hidx Hp]. destruct v as [v|]; simpl; [|naive_solver].
  unfold clause_holds, clause_ok, placeholders_ok. simpl. split; [split|].
  - rewrite length_app, Hidx. simpl. lia.
  - rewrite bind_app, Hp, length_app, seq_app. simpl. by rewrite Hidx.
  - rewrite where_holds_snoc, where_holds_extend by done. rewrite andb_true_iff. simpl.
    rewrite sql_eq_true. unfold bound.
    rewrite lookup_app_r by lia. setoid_rewrite list_lookup_singleton_Some.
    rewrite Hidx. naive_solver lia.
Qed.

Lemma push_statuses_spec ss st :
  clause_ok st → clause_ok (push_statuses ss st) ∧
    (clause_holds r (push_statuses ss st) ↔
     clause_holds r st ∧ (ss ≠ [] → R.status r ∈ ss)).
Proof.
  intros Hok. pose proof Hok as [Hidx Hp]. destruct ss as [|x ss]; [naive_solver|].
  unfold push_statuses. assert (x :: ss ≠ []) as Hne by done. revert Hne.
  generalize (x :: ss) as l. clear x ss. intros l Hne.
  unfold clause_holds, clause_ok, placeholders_ok. simpl. split; [split|].
  - by rewrite length_app, Hidx.
  - rewrite bind_app, Hp, length_app, seq_app. simpl. by rewrite Hidx, app_nil_r.
  - rewrite where_holds_snoc, where_holds_extend by done. rewrite andb_true_iff. simpl.
    assert (existsb (λ idx, sql_eq (Some (R.status r)) (bound (binds st ++ l) idx))
      (seq (S (param_idx st)) (length l)) = true ↔ R.status r ∈ l) as ->.
    { rewrite existsb_exists, Hidx. setoid_rewrite sql_eq_true. split.
      - intros (i & Hi & x & [= <-] & Hb). apply list_elem_of_In, elem_of_seq in Hi.
        unfold bound in Hb. rewrite lookup_app_r in Hb by lia.
        by eapply list_elem_of_lookup_2.
      - intros (j & Hj)%list_elem_of_lookup. exists (S (length (binds st) + j)).
        pose proof (lookup_lt_Some _ _ _ Hj). split.
        + apply list_elem_of_In, elem_of_seq. lia.
        + exists (R.status r). split; [done|]. unfold bound.
          rewrite lookup_app_r by lia. rewrite <-Hj. f_equal. lia. }
    naive_solver.
Qed.

Lemma push_filter_spec f st :
  clause_ok st → clause_ok (push_filter f st) ∧
    (clause_holds r (push_filter f st) ↔
     clause_holds r st
     ∧ (∀ p, TicketFilter.project f = Some p → R.project r = p)
     ∧ (TicketFilter.statuses f ≠ [] → R.status r ∈ TicketFilter.statuses f)
     ∧ (∀ t, TicketFilter.type_ f = Some t → R.type_ r = t)
     ∧ (∀ p, TicketFilter.parent_id f = Some p → R.parent_id r = Some p)
     ∧ (∀ l, TicketFilter.lifecycle_status f = Some l →
          R.lifecycle_status r = LifecycleStatus.as_str l)).
Proof.
  intros H0. unfold push_filter.
  destruct (push_eq_spec CProject (TicketFilter.project f) st H0) as [H1 E1].
  destruct (push_statuses_spec (TicketFilter.statuses f) _ H1) as [H2 E2].
  destruct (push_eq_spec CType (TicketFilter.type_ f) _ H2) as [H3 E3].
  destruct (push_eq_spec CParentId (TicketFilter.parent_id f) _ H3) as [H4 E4].
  destruct (push_eq_spec CLifecycleStatus
    (LifecycleStatus.as_str <$> TicketFilter.lifecycle_status f) _ H4) as [H5 E5].
  split; [done|]. rewrite E5, E4, E3, E2, E1. simpl.
  clear. setoid_rewrite fmap_Some. split.
  - intros (((((H1 & H2) & H3) & H4) & H5) & H6).
    split_and!; intros; [done|by apply (inj Some), H2|by apply H3|by apply (inj Some), H4
      |by apply H5|apply (inj Some), H6; eauto].
  - intros (H1 & H2 & H3 & H4 & H5 & H6).
    split_and!; [done|intros x ?; f_equal; by apply H2|by apply H3
      |intros x ?; f_equal; by apply H4|by apply H5|].
    intros x (l & Hl & ->). f_equal. by apply H6.
Qed.
End Clause.

(** The WHERE clause the listings build at run time, evaluated with its bound
    values, selects exactly the tickets the filter describes, and its
    placeholders are [$1] to [$n], each used once and in the order of the
    bound values. *)
Theorem build_ticket_filter_clause_spec f include_children r :
  let '(cs, bs) := build_ticket_filter_clause f include_children in
  placeholders_ok cs bs
  ∧ (where_holds cs bs r = true ↔ matches f include_children r).
Proof.
  unfold build_ticket_filter_clause.
  set (start := if negb include_children && bool_decide (TicketFilter.parent_id f = None)
                then [ParentIsNull] else []).
  destruct (push_filter_spec r f (Clause start [] 0)) as [[_ Hp] He].
  { split; [done|]. unfold start, placeholders_ok. simpl. by destruct (negb _ && _). }
  split; [done|]. unfold clause_holds in He. rewrite He. unfold matches.
  assert (where_holds start [] r = true ↔
    (include_children = false → TicketFilter.parent_id f = None → R.parent_id r = None)) as ->; [|done].
  unfold start, where_holds. destruct include_children; simpl; [naive_solver|].
  case_bool_decide; simpl; [|naive_solver].
  rewrite andb_true_r, bool_decide_eq_true. naive_solver.
Qed.

Lemma build_list_tickets_query_spec f r :
  let '(cs, bs) := build_list_tickets_query f in
  where_holds cs bs r = true ↔ matches f true r.
Proof.
  unfold build_list_tickets_query.
  destruct (push_filter_spec r f (Clause [] [] 0)) as [[_ Hp] He]; [done|].
  unfold clause_holds in He. rewrite He. unfold matches, where_holds. simpl. naive_solver.
Qed.

(** ** Listings and pages *)

Definition by_ticket_priority_created : relation Ticket.t :=
  le_then Ticket.priority Z.le (le_by Ticket.created_at String.le).

Lemma StronglySorted_map {A B} (f : A → B) (R1 : relation A) (R2 : relation B) l :
  (∀ x y, R1 x y → R2 (f x) (f y)) → StronglySorted R1 l → StronglySorted R2 (f <$> l).
Proof.
  intros Hf. induction 1 as [|x l _ IH Hx]; simpl; [constructor|]. constructor; [done|].
  apply Forall_fmap. eapply Forall_impl; [exact Hx|]. intros y. apply Hf.
Qed.

(** Tickets in the order of a listing. *)
Lemma filtered_tickets_spec cs bs s :
  StronglySorted by_ticket_priority_created (filtered_tickets cs bs s)
  ∧ (∀ t, t ∈ filtered_tickets cs bs s ↔
       ∃ r, r ∈ rows (TicketTables.ticket s) ∧ where_holds cs bs r = true
            ∧ t = ticket_from_row s r)
  ∧ count_rows (filter (λ r, where_holds cs bs r = true) (rows (TicketTables.ticket s)))
    = Z.of_nat (length (filtered_tickets cs bs s)).
Proof.
  unfold filtered_tickets. split_and!.
  - eapply StronglySorted_map; [|apply order_by_sorted; unfold by_priority_created; apply _].
    done.
  - intros t. rewrite list_elem_of_fmap. setoid_rewrite elem_of_order_by.
    setoid_rewrite list_elem_of_filter. naive_solver.
  - unfold count_rows. by rewrite length_fmap, length_order_by.
Qed.

(** A listing returns exactly the tickets that match the filter, each with
    the counts of its children, by priority and creation time; a page is the
    corresponding slice of the whole listing, and the reported total is the
    length of the whole listing whatever the page. *)
Theorem list_tickets_paginated_spec s f include_children n :
  ∃ full : list Ticket.t,
    (∀ t, t ∈ full ↔ ∃ r, r ∈ rows (TicketTables.ticket s) ∧ matches f include_children r
                          ∧ t = ticket_from_row s r)
    ∧ StronglySorted by_ticket_priority_created full
    ∧ (∀ offset, list_tickets_paginated f None offset include_children (Pool s [] n)
         = (Ok (full, Z.of_nat (length full)), Pool s [] n))
    ∧ (∀ limit offset, (0 <= limit)%Z → (0 <= offset)%Z →
         list_tickets_paginated f (Some limit) offset include_children (Pool s [] n)
         = (Ok (take (Z.to_nat limit) (drop (Z.to_nat offset) full), Z.of_nat (length full)),
            Pool s [] n)).
Proof.
  unfold list_tickets_paginated.
  pose proof (build_ticket_filter_clause_spec f include_children) as Hspec.
  destruct (build_ticket_filter_clause f include_children) as [cs bs].
  destruct (filtered_tickets_spec cs bs s) as (Hsort & Hmem & Hlen).
  exists (filtered_tickets cs bs s). split_and!.
  - intros t. rewrite Hmem. split; intros (r & Hr & Hm & ->); exists r;
      (split_and!; [done|by apply (Hspec r)|done]).
  - done.
  - intros offset. unfold count_filtered_tickets, fetch_filtered_tickets. srun. by rewrite Hlen.
  - intros limit offset Hl Ho. unfold count_filtered_tickets, fetch_filtered_tickets. srun.
    by rewrite Hlen, !decide_False by lia.
Qed.

(** ** Descendants *)

(** [b] is [k] levels under [a], through rows that satisfy [keep]. *)
Inductive descends (s : tables_t) (keep : R.t → bool) : nat → R.t → R.t → Prop :=
| descends_self a : descends s keep 0 a a
| descends_child k a c b :
    c ∈ children s (R.id a) → keep c = true → descends s keep k c b →
    descends s keep (S k) a b.

Lemma elem_of_children s i c :
  c ∈ children s i ↔ c ∈ rows (TicketTables.ticket s) ∧ R.parent_id c = Some i.
Proof. unfold children. rewrite list_elem_of_filter. naive_solver. Qed.

Section Tree.
Context (s : tables_t) (Hwf : wf s).
Implicit Types (r c : R.t).

Let rk r := rank (TicketTables.ticket s) (R.id r).

Lemma child_rank r c : c ∈ children s (R.id r) → rk r < rk c.
Proof.
  intros [(i & Hi)%elem_of_rows Hp]%elem_of_children. apply wf_rank; [done|].
  pose proof (ticket_keys s ltac:(apply Hwf) _ _ Hi) as Hk. simpl in Hk.
  unfold parent_of. by rewrite Hk, Hi.
Qed.

Lemma row_rank r : r ∈ rows (TicketTables.ticket s) → 1 ≤ rk r ≤ S (size (TicketTables.ticket s)).
Proof.
  intros (i & Hi)%elem_of_rows. pose proof (ticket_keys s ltac:(apply Hwf) _ _ Hi) as Hk.
  simpl in Hk. unfold rk, rank. rewrite Hk.
  assert (is_Some (ancestors (S (size (TicketTables.ticket s))) (TicketTables.ticket s) i))
    as [l Hl] by (by apply Hwf in Hi).
  rewrite Hl. assert (∀ k j l, ancestors k (TicketTables.ticket s) j = Some l →
    1 ≤ length l ≤ k) as Hlen; [|by eapply Hlen].
  clear. induction k as [|k IH]; intros j l H; [done|].
  apply ancestors_shape in H as [[-> _]|(n' & p & l' & [= <-] & _ & Hl & ->)].
  - simpl. lia.
  - apply IH in Hl. simpl. lia.
Qed.

Lemma elem_of_next (keep : R.t → bool) (w : list R.t) c :
  c ∈ filter (λ c, keep c = true) (w ≫= λ r, children s (R.id r)) ↔
  ∃ r, r ∈ w ∧ c ∈ children s (R.id r) ∧ keep c = true.
Proof. rewrite list_elem_of_filter, list_elem_of_bind. naive_solver. Qed.

Lemma recurse_S fuel keep depth w :
  w ≠ [] → recurse (S fuel) s keep depth w =
    app ((λ r, (r, depth)) <$> w) <$>
      recurse fuel s keep (depth + 1)
        (filter (λ c, keep c = true) (w ≫= λ r, children s (R.id r))).
Proof. by destruct w. Qed.

(** The recursive query ends, and finds the descendants with their levels: at
    round [k] only tickets of rank above [k] are left in the working table. *)
Lemma recurse_spec (keep : R.t → bool) fuel depth (w : list R.t) k :
  k + fuel = S (size (TicketTables.ticket s)) →
  (∀ r, r ∈ w → r ∈ rows (TicketTables.ticket s) ∧ k < rk r) →
  ∃ l, recurse fuel s keep depth w = Some l ∧
    ∀ r d, (r, d) ∈ l ↔
      ∃ j r0, r0 ∈ w ∧ descends s keep j r0 r ∧ d = (depth + Z.of_nat j)%Z.
Proof.
  revert depth w k. induction fuel as [|fuel IH]; intros depth w k Hk Hw.
  - destruct w as [|r w]; simpl.
    + exists []. split; [done|]. intros r d. split; [by intros ?%elem_of_nil|].
      intros (j & r0 & Hin & _). by apply elem_of_nil in Hin.
    + destruct (Hw r ltac:(by left)) as [Hr Hlt]. apply row_rank in Hr. lia.
  - destruct (nil_or_length_pos w) as [->|Hne].
    { exists []. split; [done|]. intros r d. split; [by intros ?%elem_of_nil|].
      intros (j & r0 & Hin & _). by apply elem_of_nil in Hin. }
    rewrite recurse_S by (by destruct w).
    destruct (IH (depth + 1)%Z (filter (λ c, keep c = true) (w ≫= λ r, children s (R.id r))) (S k))
      as (l & -> & Hl); [lia| |].
    { intros c (r & Hr & Hc & _)%elem_of_next. destruct (Hw r Hr) as [_ Hrk].
      pose proof (child_rank r c Hc). split; [by apply elem_of_children in Hc as [? _]|lia]. }
    exists (((λ r, (r, depth)) <$> w) ++ l). split; [done|]. intros r d.
    rewrite elem_of_app, Hl, list_elem_of_fmap. setoid_rewrite elem_of_next. split.
    + intros [(r' & [= -> ->] & Hr)|(j & c & (r0 & Hr0 & Hc & Hkeep) & Hd & ->)].
      * exists 0, r'. split_and!; [done|constructor|lia].
      * exists (S j), r0. split_and!; [done|by econstructor|lia].
    + intros (j & r0 & Hr0 & Hd & ->). inversion Hd as [a|j' a c b Hc Hkeep Hd']; subst.
      * left. exists r. split; [f_equal; lia|done].
      * right. exists j', c. split_and!; [by exists r0|done|lia].
Qed.

Lemma recursive_query_spec (keep : R.t → bool) (w : list R.t) :
  (∀ r, r ∈ w → r ∈ rows (TicketTables.ticket s)) →
  ∃ l, recursive_query s keep w = Ok l ∧
    ∀ r d, (r, d) ∈ l ↔ ∃ j r0, r0 ∈ w ∧ descends s keep j r0 r ∧ d = Z.of_nat j.
Proof.
  intros Hw. unfold recursive_query.
  destruct (recurse_spec keep (S (size (TicketTables.ticket s))) 0 w 0) as (l & -> & Hl); [done| |].
  - intros r Hr. split; [auto|]. pose proof (row_rank r (Hw r Hr)). lia.
  - exists l. split; [done|]. intros r d. by rewrite Hl.
Qed.

(** The status filter applies to the descendants, not to the root. *)
Definition tree_keep (status_filter : option string) (r : R.t) : bool :=
  match status_filter with Some st => bool_decide (R.status r = st) | None => true end.

(** [list_ticket_tree] always ends, and returns exactly the root with its
    descendants reached through tickets of the wanted status, each with its
    distance from the root; a root that does not exist gives nothing. *)
Theorem list_ticket_tree_spec root_id status_filter n :
  ∃ l, list_ticket_tree root_id status_filter (Pool s [] n) = (Ok l, Pool s [] n)
    ∧ (∀ t d, (t, d) ∈ l ↔
         ∃ root r k, TicketTables.ticket s !! root_id = Some root
           ∧ descends s (tree_keep status_filter) k root r
           ∧ t = ticket_of r 0 0 ∧ d = Z.of_nat k)
    ∧ StronglySorted (le_by snd Z.le) l.
Proof.
  destruct (recursive_query_spec (tree_keep status_filter)
    (option_list (TicketTables.ticket s !! root_id))) as (l & Hl & Hmem).
  { intros r Hr. apply elem_of_option_list in Hr. apply elem_of_rows. eauto. }
  exists (rows_to_ticket_depth (order_by by_depth l)). split_and!.
  - unfold list_ticket_tree, list_ticket_tree_with_status, list_ticket_tree_unfiltered, tree_query.
    destruct status_filter as [st|]; rewrite run_statement; unfold tree_keep in Hl;
      by rewrite Hl.
  - intros t d. unfold rows_to_ticket_depth. rewrite list_elem_of_fmap. split.
    + intros ([r d'] & [= -> ->] & H). apply elem_of_order_by, Hmem in H as (k & root & Hr & Hd & ->).
      apply elem_of_option_list in Hr. by exists root, r, k.
    + intros (root & r & k & Hr & Hd & -> & ->). exists (r, Z.of_nat k). split; [done|].
      apply elem_of_order_by, Hmem. exists k, root. split_and!; [|done..].
      by apply elem_of_option_list.
  - eapply StronglySorted_map; [|apply order_by_sorted; unfold by_depth; apply _].
    intros [r1 d1] [r2 d2] [[H _]|[H _]]; unfold le_by; simpl in *; [done|by rewrite H].
Qed.

Context {HG : PetGraph} {HL : PetGraphLaws}.

Lemma open_descendants_spec epic_id project :
  ∃ l, open_descendants epic_id project s = Ok l
    ∧ StronglySorted by_priority l
    ∧ ∀ r, r ∈ l ↔ R.status r = "open" ∧ (∀ p, project = Some p → R.project r = p)
        ∧ ∃ k c, c ∈ children s epic_id ∧ descends s (λ _, true) k c r.
Proof.
  destruct (recursive_query_spec (λ _, true) (children s epic_id)) as (l & Hl & Hmem).
  { by intros r [? _]%elem_of_children. }
  unfold open_descendants. rewrite Hl. eexists. split; [done|]. split.
  - apply order_by_sorted; unfold by_priority; apply _.
  - intros r. rewrite elem_of_order_by, list_elem_of_filter, list_elem_of_fmap. split.
    + intros ([Ho Hp] & [r' d] & -> & (k & c & Hc & Hd & ->)%Hmem). simpl in *.
      split_and!; [done| |by eauto]. intros p ->. done.
    + intros (Ho & Hp & k & c & Hc & Hd). split.
      * split; [done|]. destruct project as [p|]; [|done]. simpl. by rewrite (Hp p).
      * exists (r, Z.of_nat k). split; [done|]. apply Hmem. eauto.
Qed.

Lemma descends_row (keep : R.t → bool) k a b :
  a ∈ rows (TicketTables.ticket s) → descends s keep k a b → b ∈ rows (TicketTables.ticket s).
Proof. intros Ha Hd. induction Hd as [|k a c b [Hc _]%elem_of_children _ _ IH]; auto. Qed.

Definition dispatchable_of (r : R.t) : DispatchableTicket.t :=
  DispatchableTicket.mk (R.id r) (R.title r) (R.priority r) (R.type_ r).

(** C17: [dispatchable_tickets] returns, by priority, exactly the open
    descendants of the epic (at any depth, in the wanted project) whose type is
    dispatchable and which no open ticket blocks, directly or transitively. *)
Theorem dispatchable_tickets_spec epic_id project n :
  ∃ l, dispatchable_tickets epic_id project (Pool s [] n) = (Ok l, Pool s [] n)
    ∧ StronglySorted (le_by DispatchableTicket.priority Z.le) l
    ∧ ∀ t, t ∈ l ↔ ∃ r, t = dispatchable_of r
        ∧ R.status r = "open" ∧ (∀ p, project = Some p → R.project r = p)
        ∧ (∃ k c, c ∈ children s epic_id ∧ descends s (λ _, true) k c r)
        ∧ type_dispatchable (R.type_ r) = true ∧ ¬ has_open_blocker s (R.id r).
Proof.
  destruct (open_descendants_spec epic_id project) as (l & Hl & Hsort & Hmem).
  destruct (blocked_among_spec s Hwf (R.id <$> l) n) as (blocked & Hb & Hbl).
  exists (filter_dispatchable l blocked). unfold dispatchable_tickets. split_and!.
  - rewrite run_bind, run_statement, Hl. by rewrite run_bind, Hb, run_ret.
  - unfold filter_dispatchable. eapply StronglySorted_map;
      [|by apply StronglySorted_filter, StronglySorted_filter]. done.
  - intros t. unfold filter_dispatchable. rewrite list_elem_of_fmap.
    assert (∀ r, r ∈ l → R.id r ∈ blocked ↔ has_open_blocker s (R.id r)) as Hblk.
    { intros r Hr. rewrite Hbl. split; [by intros (_ & _ & ?)|]. intros Hob.
      split_and!; [apply list_elem_of_fmap; eauto| |done].
      apply Hmem in Hr as (_ & _ & k & c & [Hc _]%elem_of_children & Hd).
      pose proof (descends_row _ _ _ _ Hc Hd) as (i & Hi)%elem_of_rows.
      pose proof (ticket_keys s ltac:(apply Hwf) _ _ Hi) as Hk. simpl in Hk.
      unfold ids. rewrite Hk. by apply elem_of_dom_2 in Hi. }
    split.
    + intros (r & -> & [Ht [Hnb Hr]%list_elem_of_filter]%list_elem_of_filter).
      rewrite Hblk in Hnb by done. apply Hmem in Hr as (Ho & Hp & Hd).
      exists r. by split_and!.
    + intros (r & -> & Ho & Hp & Hd & Ht & Hnb). exists r. split; [done|].
      assert (r ∈ l) as Hr by (by apply Hmem).
      apply list_elem_of_filter. split; [done|]. apply list_elem_of_filter.
      by rewrite Hblk.
Qed.
End Tree.

Lemma list_ticket_tree_spec_witness :
  ∃ l, list_ticket_tree "ur-a" None (Pool sample_tables [] 0) = (Ok l, Pool sample_tables [] 0)
    ∧ (∀ t d, (t, d) ∈ l ↔
         ∃ root r k, TicketTables.ticket sample_tables !! "ur-a" = Some root
           ∧ descends sample_tables (tree_keep None) k root r
           ∧ t = ticket_of r 0 0 ∧ d = Z.of_nat k)
    ∧ StronglySorted (le_by snd Z.le) l.
Proof. exact (list_ticket_tree_spec sample_tables sample_wf "ur-a" None 0). Defined.

Lemma dispatchable_tickets_spec_witness :
  ∃ l, @dispatchable_tickets naive_petgraph "ur-a" None (Pool sample_tables [] 0)
      = (Ok l, Pool sample_tables [] 0)
    ∧ StronglySorted (le_by DispatchableTicket.priority Z.le) l
    ∧ ∀ t, t ∈ l ↔ ∃ r, t = dispatchable_of r
        ∧ R.status r = "open" ∧ (∀ p, None = Some p → R.project r = p)
        ∧ (∃ k c, c ∈ children sample_tables "ur-a" ∧ descends sample_tables (λ _, true) k c r)
        ∧ type_dispatchable (R.type_ r) = true ∧ ¬ has_open_blocker sample_tables (R.id r).
Proof.
  exact (@dispatchable_tickets_spec sample_tables sample_wf naive_petgraph naive_petgraph_laws
    "ur-a" None 0).
Defined.
