(* ===== verification/TicketUpdates.v ===== *)
(** * What the ticket updates do

    Creation with given and generated ids, updates, the re-keying of a ticket
    when its project changes, metadata, and closing the children of an epic. *)

From S2P Require Import Prelude RustStd Model Env TicketDb TicketGraph TicketRepo.
From Stdlib Require Import Ascii Lia.
Local Open Scope stdpp_scope.

(** ** Creation *)

Section Create.
Context {HE : Env} (s : tables_t) (Hwf : wf s).

(** The row of a new ticket. *)
Definition new_row (i : string) (t : NewTicket.t) (now : string) : R.t :=
  R.mk i (NewTicket.project t) (NewTicket.type_ t) (default "open" (NewTicket.status t))
    (LifecycleStatus.as_str (default LifecycleStatus.default (NewTicket.lifecycle_status t)))
    false (NewTicket.priority t) (NewTicket.parent_id t) (NewTicket.title t) (NewTicket.body t)
    (NewTicket.branch t) now now.
Definition with_row (r : R.t) : tables_t :=
  TicketTables.set_ticket (<[R.id r := r]> (TicketTables.ticket s)) s.
(** The time and the draws used up to choose it. *)
Definition create_time (t : NewTicket.t) (n : nat) : string * nat :=
  match NewTicket.created_at t with Some x => (x, n) | None => (now_rfc3339 n, S n) end.

Lemma run_insert_ticket i t now n :
  NewTicket.parent_id t ≠ Some i →
  insert_ticket i t (default "open" (NewTicket.status t))
      (default LifecycleStatus.default (NewTicket.lifecycle_status t)) now (Pool s [] n)
  = if decide (i ∈ ids s) then (Err unique_violation, Pool s [] n)
    else if decide (parent_ok (ids s) (new_row i t now))
         then (Ok tt, Pool (with_row (new_row i t now)) [] n)
         else (Err (Database FOREIGN_KEY_VIOLATION), Pool s [] n).
Proof.
  intros Hself. unfold insert_ticket. rewrite run_statement. cbv beta zeta.
  unfold ids at 1. destruct (decide (i ∈ dom (TicketTables.ticket s))) as [Hi|Hi].
  - rewrite decide_True by by apply elem_of_dom. done.
  - apply not_elem_of_dom in Hi.
    rewrite decide_False by (rewrite Hi; by intros [??]).
    fold (new_row i t now).
    rewrite (commit_insert_ticket tt s i (new_row i t now) Hwf Hi Hself).
    by case_decide.
Qed.

(** Creating a ticket with a given id: an id in use fails with the unique
    code, a parent that does not exist with the foreign-key code, both without
    effect; otherwise exactly the new row is added, and reading it back gives
    the ticket the creation returned. *)
Theorem create_ticket_given_id t i n :
  NewTicket.id t = Some i → NewTicket.parent_id t ≠ Some i →
  let '(now, n') := create_time t n in
  let r := new_row i t now in
  if decide (i ∈ ids s) then
    create_ticket t (Pool s [] n) = (Err unique_violation, Pool s [] n')
  else if decide (parent_ok (ids s) r) then
    ∃ tk, create_ticket t (Pool s [] n) = (Ok tk, Pool (with_row r) [] n')
      ∧ get_ticket i (Pool (with_row r) [] n') = (Ok (Some tk), Pool (with_row r) [] n')
  else create_ticket t (Pool s [] n) = (Err (Database FOREIGN_KEY_VIOLATION), Pool s [] n').
Proof.
  intros Hid Hself.
  assert (create_ticket t (Pool s [] n) =
    let '(now, n') := create_time t n in
    (when true (insert_ticket i t (default "open" (NewTicket.status t))
       (default LifecycleStatus.default (NewTicket.lifecycle_status t)) now) ;;
     mret (new_ticket_result i t (default "open" (NewTicket.status t))
       (default LifecycleStatus.default (NewTicket.lifecycle_status t)) now)) (Pool s [] n')) as ->.
  { unfold create_ticket, create_time. rewrite Hid. by destruct (NewTicket.created_at t). }
  destruct (create_time t n) as [now n']. cbv zeta. cbn [when].
  rewrite run_bind, (run_insert_ticket i t now n' Hself).
  destruct (decide (i ∈ ids s)) as [|Hi]; [done|].
  destruct (decide (parent_ok (ids s) (new_row i t now))) as [Hp|Hp]; [|done].
  eexists. split; [rewrite run_ret; done|].
  unfold get_ticket. rewrite run_select. simpl. rewrite lookup_insert_eq. simpl. do 3 f_equal.
  unfold ticket_from_row, ticket_of. simpl. rewrite LifecycleStatus.parse_as_str.
  assert (children (with_row (new_row i t now)) i = []) as ->; [|done].
  destruct (children (with_row (new_row i t now)) i) as [|c l] eqn:E; [done|exfalso].
  assert (c ∈ children (with_row (new_row i t now)) i) as Hc by (rewrite E; by left).
  unfold children in Hc. apply list_elem_of_filter in Hc as [Hci (j & Hj)%elem_of_rows].
  simpl in Hj. apply lookup_insert_Some in Hj as [[_ <-]|[_ Hj]]; [by simpl in Hci|].
  destruct Hwf as (_ & (F1 & _) & _). pose proof (F1 _ _ Hj) as Hok. simpl in Hok.
  unfold parent_ok in Hok. by rewrite Hci in Hok.
Qed.

(** The ids the retry loop tries, the k-th with [k] more random digits. *)
Fixpoint candidate_ids (k : nat) (project hash : string) (n : nat) : list string :=
  match k with
  | O => []
  | S k' =>
      (project +:+ "-" +:+ hash)
        :: candidate_ids k' project (hash +:+ String (base36_at n) "") (S n)
  end.

Lemma run_insert_attempts k t now hash n :
  parent_ok (ids s) (new_row "" t now) →
  let ids_tried := candidate_ids k (NewTicket.project t) hash n in
  insert_attempts k t (default "open" (NewTicket.status t))
    (default LifecycleStatus.default (NewTicket.lifecycle_status t)) now hash (Pool s [] n)
  = match list_find (λ i, i ∉ ids s) ids_tried with
    | Some (j, i) => (Ok i, Pool (with_row (new_row i t now)) [] (j + n))
    | None => (Err retries_exhausted, Pool s [] (k + n))
    end.
Proof.
  intros Hp. revert hash n. induction k as [|k IH]; intros hash n; [done|].
  cbn [insert_attempts candidate_ids list_find]. cbv zeta.
  set (i := NewTicket.project t +:+ "-" +:+ hash).
  rewrite run_bind, run_attempt.
  destruct (decide (i ∈ ids s)) as [Hi|Hi].
  - assert (insert_ticket i t (default "open" (NewTicket.status t))
      (default LifecycleStatus.default (NewTicket.lifecycle_status t)) now (Pool s [] n)
      = (Err unique_violation, Pool s [] n)) as ->.
    { unfold insert_ticket. rewrite run_statement. cbv beta zeta.
      by rewrite decide_True by (by apply elem_of_dom). }
    cbn [fst snd]. unfold unique_violation, is_unique_violation.
    rewrite bool_decide_eq_true_2 by done. rewrite run_bind, run_random_base36_char, IH.
    rewrite (decide_False (P := i ∉ ids s)) by (by intros ?).
    destruct (list_find _ _) as [[j x]|]; simpl; do 2 f_equal; f_equal; lia.
  - rewrite (run_insert_ticket i t now n).
    + rewrite decide_False by done. rewrite decide_True by exact Hp.
      cbn [fst snd]. by rewrite (decide_True (P := i ∉ ids s)).
    + intros Hself. unfold parent_ok in Hp. simpl in Hp. rewrite Hself in Hp. done.
Qed.

(** A ticket without an id gets the first free one of six candidates, a
    five-digit hash that grows by one random digit per collision, and is stored
    under it; when all six are taken the creation fails and writes nothing. *)
Theorem create_ticket_generated_id t n :
  NewTicket.id t = None →
  (let '(now, _) := create_time t n in parent_ok (ids s) (new_row "" t now)) →
  let '(now, n0) := create_time t n in
  let n1 := 5 + n0 in
  let tried := candidate_ids 6 (NewTicket.project t) (base36_string 5 n0) n1 in
  match list_find (λ i, i ∉ ids s) tried with
  | Some (j, i) =>
      ∃ tk, create_ticket t (Pool s [] n) = (Ok tk, Pool (with_row (new_row i t now)) [] (j + n1))
        ∧ Ticket.id tk = i ∧ j < 6 ∧ i ∉ ids s
  | None => create_ticket t (Pool s [] n) = (Err retries_exhausted, Pool s [] (6 + n1))
  end.
Proof.
  intros Hid Hp.
  assert (create_ticket t (Pool s [] n) =
    let '(now, n') := create_time t n in
    (i ← insert_with_generated_id t (default "open" (NewTicket.status t))
       (default LifecycleStatus.default (NewTicket.lifecycle_status t)) now;
     mret (new_ticket_result i t (default "open" (NewTicket.status t))
       (default LifecycleStatus.default (NewTicket.lifecycle_status t)) now)) (Pool s [] n')) as ->.
  { unfold create_ticket, create_time. rewrite Hid. by destruct (NewTicket.created_at t). }
  destruct (create_time t n) as [now n0]. cbv zeta.
  unfold insert_with_generated_id. rewrite run_bind, run_bind, run_generate_base36.
  unfold BASE_LEN, MAX_EXTRA. rewrite (run_insert_attempts 6 t now _ _ Hp).
  destruct (list_find _ _) as [[j i]|] eqn:E; [|done].
  apply list_find_Some in E as (Hj & Hi & _).
  eexists. split; [done|]. split; [done|]. split; [|done].
  apply lookup_lt_Some in Hj. done.
Qed.
End Create.

(** ** Updates *)

(** The row after an update that keeps the project. *)
Definition updated_row (u : TicketUpdate.t) (now : string) (r : R.t) : R.t :=
  R.mk (R.id r) (R.project r) (default (R.type_ r) (TicketUpdate.type_ u))
    (default (R.status r) (TicketUpdate.status u))
    (LifecycleStatus.as_str (default (LifecycleStatus.parse_or_default (R.lifecycle_status r))
       (TicketUpdate.lifecycle_status u)))
    (default (R.lifecycle_managed r) (TicketUpdate.lifecycle_managed u))
    (default (R.priority r) (TicketUpdate.priority u))
    (default (R.parent_id r) (TicketUpdate.parent_id u))
    (default (R.title r) (TicketUpdate.title u)) (default (R.body r) (TicketUpdate.body u))
    (default (R.branch r) (TicketUpdate.branch u)) (R.created_at r) now.

(** A new parent must exist and not be the ticket or one of its descendants. *)
Definition reparent_ok (s : tables_t) (i : string) (u : TicketUpdate.t) : Prop :=
  match TicketUpdate.parent_id u with
  | Some (Some p) =>
      p ∈ ids s ∧ ∃ n l, ancestors n (TicketTables.ticket s) p = Some l ∧ i ∉ l
  | _ => True
  end.

Section Update.
Context {HE : Env} (s : tables_t) (Hwf : wf s).

Lemma row_id i r : TicketTables.ticket s !! i = Some r → R.id r = i.
Proof. intros H. by apply (ticket_keys s ltac:(apply Hwf) _ _ H). Qed.

Lemma run_update_ticket i u n r :
  TicketTables.ticket s !! i = Some r →
      default (R.project r) (TicketUpdate.project u) = R.project r → reparent_ok s i u →
      let r' := updated_row u (now_rfc3339 n) r in
      update_ticket i u (Pool s [] n)
      = (Ok (ticket_of r' 0 0),
     Pool (TicketTables.set_ticket (<[i := r']> (TicketTables.ticket s)) s) [] (S n)).
Proof.
  intros Hr Hproj Hpar. pose proof (row_id _ _ Hr) as Hid.
  unfold update_ticket, get_ticket. rewrite run_bind, run_select, Hr.
  set (r' := updated_row u (now_rfc3339 n) r). cbn [fmap option_fmap option_map]. rewrite run_bind, run_ok_or. cbv beta iota zeta.
  cbn [Ticket.project ticket_from_row ticket_of].
  rewrite run_bind, run_utc_now, run_bind.
  rewrite Hproj, decide_False by (by intros ?). rewrite run_ret, run_bind, run_statement.
  unfold replace_row. rewrite ?Hr. cbv beta zeta. cbn [R.id].
  rewrite decide_False by (by intros [? _]). rewrite insert_delete_eq.
  match goal with |- context [<[i := ?x]> _] =>
    replace x with r' by (unfold r', updated_row; by rewrite Hid) end.
  destruct Hwf as (_ & (F1 & _) & Hac).
  rewrite commit_ok.
  - rewrite run_ret. unfold ticket_of, r', updated_row. cbn. by rewrite LifecycleStatus.parse_as_str, Hid.
  - apply fk_replace; [done|by apply elem_of_dom_2 in Hr|].
    unfold parent_ok, r', updated_row, reparent_ok in *. cbn.
    destruct (TicketUpdate.parent_id u) as [[p|]|]; cbn; [by destruct Hpar|done|].
    exact (F1 _ _ Hr).
  - apply acyclic_replace; [done|]. intros p. unfold r', updated_row, reparent_ok in *. cbn.
    destruct (TicketUpdate.parent_id u) as [[q|]|]; cbn; [intros [= ->]; by destruct Hpar|done|].
    intros Hp. by apply (parent_walk _ i r p).
Qed.

(** Updating a ticket that does not exist fails and changes nothing; an
    update that keeps the project, and does not make a ticket its own ancestor,
    succeeds, replaces exactly that row (each field given is set, the others and
    the creation time are kept) and returns the stored ticket. *)
Theorem update_ticket_spec i u n :
  match TicketTables.ticket s !! i with
  | None => update_ticket i u (Pool s [] n) = (Err RowNotFound, Pool s [] n)
  | Some r =>
      default (R.project r) (TicketUpdate.project u) = R.project r → reparent_ok s i u →
      let r' := updated_row u (now_rfc3339 n) r in
      update_ticket i u (Pool s [] n)
      = (Ok (ticket_of r' 0 0),
         Pool (TicketTables.set_ticket (<[i := r']> (TicketTables.ticket s)) s) [] (S n))
  end.
Proof.
  destruct (TicketTables.ticket s !! i) as [r|] eqn:Hr; [by apply run_update_ticket|].
  unfold update_ticket, get_ticket. by rewrite run_bind, run_select, Hr.
Qed.
End Update.

(** ** Changing the project of a ticket *)

(** Rows that point to a ticket through an immediate foreign key. *)
Definition referenced (s : tables_t) (i : string) : Prop :=
  (∃ c r, TicketTables.ticket s !! c = Some r ∧ R.parent_id r = Some i)
  ∨ (∃ a b k, (a, b, k) ∈ TicketTables.edge s ∧ (a = i ∨ b = i))
  ∨ (∃ x a, TicketTables.activity s !! x = Some a ∧ ExportActivity.ticket_id a = i).

Section Rekey.
Context {HE : Env} (s : tables_t) (Hwf : wf s) (i new : string) (Hnew : new ∉ ids s).

Definition step_parents : db unit := statement (λ s, commit tt (repoint_parents new i s)).
Definition step_sources : db unit := statement (λ s,
  match rekey_set (λ '(a, b, k), (subst_id new i a, b, k)) (TicketTables.edge s) with
  | Some e => commit tt (TicketTables.set_edge e s)
  | None => Err unique_violation
  end).
Definition step_targets : db unit := statement (λ s,
  match rekey_set (λ '(a, b, k), (a, subst_id new i b, k)) (TicketTables.edge s) with
  | Some e => commit tt (TicketTables.set_edge e s)
  | None => Err unique_violation
  end).
Definition step_activities : db unit := statement (λ s, commit tt (TicketTables.set_activity
  ((λ a, if decide (ExportActivity.ticket_id a = i)
         then ExportActivity.with_ticket new a else a) <$> TicketTables.activity s) s)).

(** A statement either leaves the tables of [s] as they are, or fails. *)
Lemma step_parents_spec n :
  if decide (map_Forall (λ _ r, R.parent_id r ≠ Some i) (TicketTables.ticket s))
  then step_parents (Pool s [] n) = (Ok tt, Pool s [] n)
  else step_parents (Pool s [] n) = (Err (Database FOREIGN_KEY_VIOLATION), Pool s [] n).
Proof.
  unfold step_parents. rewrite run_statement. case_decide as H.
  - assert (repoint_parents new i s = s) as ->; [|by rewrite commit_self].
    unfold repoint_parents. replace (_ <$> TicketTables.ticket s) with (TicketTables.ticket s).
    { by destruct s. }
    symmetry. rewrite <-(map_fmap_id (TicketTables.ticket s)) at 2.
    apply map_fmap_ext. intros c r Hr. rewrite decide_False; [done|]. by apply (H c).
  - rewrite commit_fk; [done|]. intros (F1 & _). apply H. intros c r Hr Hp.
    assert (TicketTables.ticket (repoint_parents new i s) !! c = Some (R.with_parent (Some new) r)) as Hc.
    { simpl. rewrite lookup_fmap, Hr. simpl. by rewrite decide_True. }
    apply F1 in Hc. unfold parent_ok, ids in Hc. simpl in Hc.
    rewrite dom_fmap_L in Hc. by apply Hnew.
Qed.

Lemma step_edges_spec n (f : edge_key → edge_key) (st : db unit) :
  st = statement (λ s, match rekey_set f (TicketTables.edge s) with
                       | Some e => commit tt (TicketTables.set_edge e s)
                       | None => Err unique_violation end) →
  (∀ e, f e = e ∨ (f e).1.1 = new ∨ (f e).1.2 = new) →
  st (Pool s [] n) = (Ok tt, Pool s [] n) ∧ (∀ e, e ∈ TicketTables.edge s → f e = e)
  ∨ ∃ code, st (Pool s [] n) = (Err (Database code), Pool s [] n).
Proof.
  intros -> Hf. rewrite run_statement.
  destruct (decide (set_Forall (λ e, f e = e) (TicketTables.edge s))) as [H|H].
  - left. split; [|exact H]. rewrite rekey_set_id by exact H.
    replace (TicketTables.set_edge (TicketTables.edge s) s) with s by by destruct s.
    by rewrite commit_self.
  - right. unfold rekey_set. case_decide as Hsz; [|by eexists].
    exists FOREIGN_KEY_VIOLATION. rewrite commit_fk; [done|].
    intros (_ & F2 & _). apply H. intros e He.
    assert (f e ∈ (set_map f (TicketTables.edge s) : gset edge_key)) as Hfe
      by (apply elem_of_map; eauto).
    destruct (F2 (f e) Hfe) as [H1 H2]. unfold ids in *. simpl in *.
    destruct (Hf e) as [|[E|E]]; [done|rewrite E in H1; done|rewrite E in H2; done].
Qed.

Lemma step_activities_spec n :
  if decide (map_Forall (λ _ a, ExportActivity.ticket_id a ≠ i) (TicketTables.activity s))
  then step_activities (Pool s [] n) = (Ok tt, Pool s [] n)
  else step_activities (Pool s [] n) = (Err (Database FOREIGN_KEY_VIOLATION), Pool s [] n).
Proof.
  unfold step_activities. rewrite run_statement. case_decide as H.
  - replace (_ <$> TicketTables.activity s) with (TicketTables.activity s).
    { replace (TicketTables.set_activity (TicketTables.activity s) s) with s by by destruct s.
      by rewrite commit_self. }
    symmetry. rewrite <-(map_fmap_id (TicketTables.activity s)) at 2.
    apply map_fmap_ext. intros c a Ha. rewrite decide_False; [done|]. by apply (H c).
  - rewrite commit_fk; [done|]. intros (_ & _ & F3 & _). apply H. intros x a Ha Hi.
    assert (TicketTables.activity (TicketTables.set_activity
      ((λ a, if decide (ExportActivity.ticket_id a = i)
         then ExportActivity.with_ticket new a else a) <$> TicketTables.activity s) s) !! x
      = Some (ExportActivity.with_ticket new a)) as Hx.
    { simpl. rewrite lookup_fmap, Ha. simpl. by rewrite decide_True. }
    apply F3 in Hx. by apply Hnew.
Qed.

Lemma subst_id_cases x : subst_id new i x = x ∨ subst_id new i x = new.
Proof. unfold subst_id. case_decide; auto. Qed.

(** Re-pointing the references of a referenced ticket fails. *)
Lemma update_ticket_references_fails n :
  i ∈ ids s → referenced s i →
  ∃ code, update_ticket_references i new (Pool s [] n) = (Err (Database code), Pool s [] n).
Proof.
  intros Hi Href. unfold update_ticket_references.
  assert (new ≠ i) as Hne by (intros ->; done).
  fold step_parents step_sources step_targets step_activities.
  rewrite run_bind. pose proof (step_parents_spec n) as H1.
  case_decide as D1; rewrite H1; [|by eexists]. rewrite run_bind.
  destruct (step_edges_spec n (λ '(a, b, k), (subst_id new i a, b, k)) step_sources eq_refl)
    as [[-> E2]|[code ->]]; [|rewrite run_bind|by eexists].
  { intros [[a b] k]. destruct (subst_id_cases a) as [-> | ->]; auto. }
  destruct (step_edges_spec n (λ '(a, b, k), (a, subst_id new i b, k)) step_targets eq_refl)
    as [[-> E3]|[code ->]]; [|rewrite run_bind|by eexists].
  { intros [[a b] k]. destruct (subst_id_cases b) as [-> | ->]; auto. }
  pose proof (step_activities_spec n) as H4.
  case_decide as D4; rewrite H4; [|by eexists]. exfalso.
  assert (subst_id new i i = new) as Hsub by (unfold subst_id; by rewrite decide_True).
  destruct Href as [(c & r & Hr & Hp)|[(a & b & k & He & [->| ->])|(x & a & Ha & Hx)]].
  - by apply (D1 c r).
  - specialize (E2 _ He). simpl in E2. rewrite Hsub in E2. by simplify_eq.
  - specialize (E3 _ He). simpl in E3. rewrite Hsub in E3. by simplify_eq.
  - by apply (D4 x a).
Qed.
End Rekey.

(** Moving a ticket to another project fails whenever the ticket has a child,
    a dependency edge or an activity: the references are moved to the new id
    before the ticket is, and the immediate foreign keys refuse them.  Nothing is
    changed. *)
Theorem update_ticket_project_referenced `{HE : Env} (s : tables_t) i r u p n :
  wf s → TicketTables.ticket s !! i = Some r →
  TicketUpdate.project u = Some p → p ≠ R.project r →
  p +:+ "-" +:+ extract_hash i ∉ ids s → referenced s i →
  ∃ code, update_ticket i u (Pool s [] n) = (Err (Database code), Pool s [] (S n)).
Proof.
  intros Hwf Hr Hp Hne Hnew Href. unfold update_ticket, get_ticket.
  rewrite run_bind, run_select, Hr. cbn [fmap option_fmap option_map].
  rewrite run_bind, run_ok_or. cbv beta iota zeta. cbn [Ticket.project ticket_from_row ticket_of].
  rewrite Hp. change (default (R.project r) (Some p)) with p.
  rewrite run_bind, run_utc_now, run_bind.
  rewrite decide_True by done. unfold rekey_ticket_id, MAX_EXTRA. cbn [rekey_attempts].
  rewrite run_bind, run_select. rewrite bool_decide_eq_false_2.
  2: { by rewrite <-elem_of_dom. }
  rewrite run_bind.
  destruct (update_ticket_references_fails s Hwf i (p +:+ "-" +:+ extract_hash i) Hnew (S n)) as [code ->];
    [by apply elem_of_dom_2 in Hr|done|by eexists].
Qed.

(** A ticket with one metadata row and one review comment. *)
Definition commented_tables : tables_t :=
  TicketTables.mk {[ "ur-a" := sample_ticket "ur-a" "open" None ]} ∅
    {[ ("ur-a", "ticket", "noverify") := "true" ]} ∅
    {[ ("c1", "ur-a") := ExportTicketComment.mk "c1" "ur-a" 7 "o/r" false "2024" ]}.
Definition to_project (p : string) : TicketUpdate.t :=
  TicketUpdate.mk None None None None None None None None None (Some p).

(** The re-keying is not a transaction: for a ticket with metadata and a
    review comment the comment's foreign key refuses the move after the metadata
    has already been moved, so the update fails and the ticket has lost its
    metadata to an id that does not exist. *)
Theorem update_ticket_project_partial `{HE : Env} :
  wf commented_tables ∧
  ∃ s', update_ticket "ur-a" (to_project "web") (Pool commented_tables [] 0)
          = (Err (Database FOREIGN_KEY_VIOLATION), Pool s' [] 1)
    ∧ TicketTables.ticket s' = TicketTables.ticket commented_tables
    ∧ TicketTables.meta s' = {[ ("web-a", "ticket", "noverify") := "true" ]}
    ∧ TicketTables.ticket s' !! "web-a" = None.
Proof.
  split; [apply (bool_decide_unpack _); vm_compute; exact I|].
  exists (TicketTables.set_meta {[ ("web-a", "ticket", "noverify") := "true" ]} commented_tables).
  split; [vm_compute; reflexivity|].
  split; [reflexivity|]. split; [reflexivity|]. vm_compute. reflexivity.
Qed.

(** ** Closing the children of an epic *)

Section Close.
Context (s : tables_t) (Hwf : wf s).

Definition closed_tables (epic_id : string) : tables_t :=
  TicketTables.set_ticket
    ((λ r, if open_child epic_id r then R.with_status "closed" r else r)
       <$> TicketTables.ticket s) s.

(** [close_open_children] succeeds, closes exactly the children of the epic
    that were not closed and leaves every other row alone, reports how many it
    closed, and afterwards [epic_all_children_closed] answers yes. *)
Theorem close_open_children_spec epic_id n :
  let s' := closed_tables epic_id in
  (∃ k, close_open_children epic_id (Pool s [] n) = (Ok k, Pool s' [] n)
     ∧ k = Z.of_nat (length (filter (λ r, R.status r ≠ "closed") (children s epic_id))))
  ∧ epic_all_children_closed epic_id (Pool s' [] n) = (Ok true, Pool s' [] n)
  ∧ (∀ i r, TicketTables.ticket s !! i = Some r →
       TicketTables.ticket s' !! i =
         Some (if decide (R.parent_id r = Some epic_id ∧ R.status r ≠ "closed")
               then R.with_status "closed" r else r)).
Proof.
  intros s'.
  assert (∀ r, open_child epic_id r = true ↔ R.parent_id r = Some epic_id ∧ R.status r ≠ "closed") as Hop.
  { intros r. unfold open_child. rewrite andb_true_iff, negb_true_iff, bool_decide_eq_true,
      bool_decide_eq_false. done. }
  assert (∀ i r, TicketTables.ticket s !! i = Some r →
    TicketTables.ticket s' !! i =
      Some (if open_child epic_id r then R.with_status "closed" r else r)) as Hrow.
  { intros i r Hr. unfold s', closed_tables. simpl. by rewrite lookup_fmap, Hr. }
  split_and!.
  - eexists. split.
    + unfold close_open_children. rewrite run_statement.
      rewrite (commit_fmap_ticket _ s _ Hwf); [done|]. intros r. by case_match.
    + unfold count_rows, children. f_equal. rewrite list_filter_filter.
      f_equal. apply list_filter_iff. intros r. rewrite Hop. naive_solver.
  - unfold epic_all_children_closed. rewrite run_bind, run_select, run_ret.
    rewrite bool_decide_eq_true_2; [done|].
    unfold count_rows. destruct (filter _ (children s' epic_id)) as [|c l] eqn:E; [done|exfalso].
    assert (c ∈ filter (λ r, R.status r ≠ "closed") (children s' epic_id)) as Hc
      by (rewrite E; by left).
    apply list_elem_of_filter in Hc as [Hst Hc]. unfold children in Hc.
    apply list_elem_of_filter in Hc as [Hpar (j & Hj)%elem_of_rows].
    unfold s', closed_tables in Hj. simpl in Hj. apply lookup_fmap_Some in Hj as (r & Hcr & Hr).
    destruct (open_child epic_id r) eqn:Ho; [by rewrite <-Hcr in Hst|].
    subst c. assert (open_child epic_id r = true) by by apply Hop. congruence.
  - intros i r Hr. rewrite (Hrow i r Hr). f_equal. specialize (Hop r).
    case_decide as Hd; destruct (open_child epic_id r) eqn:Ho; try done; naive_solver.
Qed.
End Close.

(** ** Metadata *)

Section Meta.
Context (s : tables_t) (Hwf : wf s).

Lemma run_get_meta e t n :
  ∃ m, get_meta e t (Pool s [] n) = (Ok m, Pool s [] n)
    ∧ ∀ k, m !! k = TicketTables.meta s !! (e, t, k).
Proof.
  unfold get_meta. rewrite run_select. eexists. split; [done|]. intros k.
  set (l := filter _ (map_to_list (TicketTables.meta s))).
  assert (∀ k v, (k, v) ∈ ((λ '(k, v), (k.2, v)) <$> l) ↔ TicketTables.meta s !! (e, t, k) = Some v) as Hl.
  { intros k' v. rewrite list_elem_of_fmap. unfold l. split.
    - intros ([[[e' t'] k0] v'] & [= -> ->] & [Hk H]%list_elem_of_filter). simpl in *.
      simplify_eq. by apply elem_of_map_to_list in H.
    - intros H. exists ((e, t, k'), v). split; [done|]. apply list_elem_of_filter.
      split; [done|]. by apply elem_of_map_to_list. }
  apply option_eq. intros v. rewrite <-Hl. split.
  - apply elem_of_list_to_map_2.
  - intros H. apply elem_of_list_to_map_1'; [|done].
    intros v' H'. apply Hl in H, H'. congruence.
Qed.

Definition with_meta (m : gmap meta_key string) : tables_t := TicketTables.set_meta m s.

Lemma with_meta_wf m : wf (with_meta m).
Proof. destruct Hwf as (Hk & Hf & Ha). done. Qed.

End Meta.

(** What a change of one metadata row does to the entities' maps. *)
Lemma get_meta_after (s : tables_t) (M : gmap meta_key string) e t k e' t' n :
  (∀ x, x ≠ (e, t, k) → M !! x = TicketTables.meta s !! x) →
  ∃ m m', get_meta e' t' (Pool s [] n) = (Ok m, Pool s [] n)
    ∧ get_meta e' t' (Pool (with_meta s M) [] n) = (Ok m', Pool (with_meta s M) [] n)
    ∧ m' = if decide ((e', t') = (e, t)) then partial_alter (λ _, M !! (e, t, k)) k m else m.
Proof.
  intros HM. destruct (run_get_meta s e' t' n) as (m & Hm & Hmk).
  destruct (run_get_meta (with_meta s M) e' t' n) as (m' & Hm' & Hmk').
  exists m, m'. split_and!; [done..|]. apply map_eq. intros k'. rewrite Hmk'. simpl.
  case_decide as E; [simplify_eq|rewrite Hmk; apply HM; congruence].
  destruct (decide (k' = k)) as [->|Hne].
  - by rewrite lookup_partial_alter_eq.
  - rewrite lookup_partial_alter_ne, Hmk by done. apply HM. congruence.
Qed.

(** Metadata is a map: after [set_meta] the entity has the new value under the
    key, after [delete_meta] it has none, and in both cases the other keys of the
    entity and the maps of the other entities are as before. *)
Theorem set_delete_meta_spec (s : tables_t) e t k v n :
  wf s →
  (∃ s', set_meta e t k v (Pool s [] n) = (Ok tt, Pool s' [] n)
     ∧ ∀ e' t', ∃ m m', get_meta e' t' (Pool s [] n) = (Ok m, Pool s [] n)
         ∧ get_meta e' t' (Pool s' [] n) = (Ok m', Pool s' [] n)
         ∧ m' = if decide ((e', t') = (e, t)) then <[k := v]> m else m)
  ∧ (∃ s', delete_meta e t k (Pool s [] n) = (Ok tt, Pool s' [] n)
     ∧ ∀ e' t', ∃ m m', get_meta e' t' (Pool s [] n) = (Ok m, Pool s [] n)
         ∧ get_meta e' t' (Pool s' [] n) = (Ok m', Pool s' [] n)
         ∧ m' = if decide ((e', t') = (e, t)) then delete k m else m).
Proof.
  intros Hwf. split.
  - exists (with_meta s (<[(e, t, k) := v]> (TicketTables.meta s))). split.
    { unfold set_meta. rewrite run_statement, commit_self; [done|by apply with_meta_wf]. }
    intros e' t'. destruct (get_meta_after s (<[(e, t, k) := v]> (TicketTables.meta s)) e t k e' t' n)
      as (m & m' & H1 & H2 & ->).
    { intros x Hx. by rewrite lookup_insert_ne. }
    exists m. eexists. split_and!; [done..|]. case_decide; [|done]. by rewrite lookup_insert_eq.
  - exists (with_meta s (delete (e, t, k) (TicketTables.meta s))). split.
    { unfold delete_meta. rewrite run_statement, commit_self; [done|by apply with_meta_wf]. }
    intros e' t'. destruct (get_meta_after s (delete (e, t, k) (TicketTables.meta s)) e t k e' t' n)
      as (m & m' & H1 & H2 & ->).
    { intros x Hx. by rewrite lookup_delete_ne. }
    exists m. eexists. split_and!; [done..|]. case_decide; [|done]. by rewrite lookup_delete_eq.
Qed.

(** ** Witnesses *)

Definition sample_new (i : option string) : NewTicket.t :=
  NewTicket.mk i "ur" "code" 1 (Some "ur-a") "New" "" None None None None.

Lemma create_ticket_given_id_witness :
  ∃ tk r, @create_ticket test_env (sample_new (Some "ur-n")) (Pool sample_tables [] 0)
      = (Ok tk, Pool (with_row sample_tables r) [] 1)
    ∧ get_ticket "ur-n" (Pool (with_row sample_tables r) [] 1)
      = (Ok (Some tk), Pool (with_row sample_tables r) [] 1).
Proof.
  assert ("ur-n" ∉ ids sample_tables) as Hi by (apply (bool_decide_unpack _); vm_compute; exact I).
  assert ("ur-a" ∈ ids sample_tables) as Hp by (apply (bool_decide_unpack _); vm_compute; exact I).
  pose proof (@create_ticket_given_id test_env sample_tables sample_wf (sample_new (Some "ur-n"))
    "ur-n" 0 eq_refl ltac:(done)) as H.
  cbn [create_time NewTicket.created_at sample_new] in H.
  rewrite (decide_False _ _ Hi) in H. rewrite decide_True in H by exact Hp.
  destruct H as (tk & H1 & H2). eauto.
Defined.

Lemma create_ticket_generated_id_witness :
  ∃ tk, (@create_ticket test_env (sample_new None) (Pool sample_tables [] 0)).1 = Ok tk
    ∧ Ticket.id tk = "ur-12345".
Proof.
  assert ("ur-a" ∈ ids sample_tables) as Hp by (apply (bool_decide_unpack _); vm_compute; exact I).
  pose proof (@create_ticket_generated_id test_env sample_tables sample_wf (sample_new None) 0
    eq_refl Hp) as H.
  cbn [create_time NewTicket.created_at sample_new] in H. cbv zeta in H.
  assert (list_find (λ i, i ∉ ids sample_tables)
    (@candidate_ids test_env 6 "ur" (@base36_string test_env 5 1) (5 + 1)) = Some (0, "ur-12345")) as E
    by (vm_compute; reflexivity).
  cbn [NewTicket.project sample_new] in H. rewrite E in H.
  destruct H as (tk & H1 & H2 & _). exists tk. split; [|exact H2].
  exact (f_equal fst H1).
Defined.

Lemma update_ticket_spec_witness :
  ∃ tk p, @update_ticket test_env "ur-c" (TicketUpdate.of_status "closed") (Pool sample_tables [] 0)
    = (Ok tk, p) ∧ Ticket.status tk = "closed".
Proof.
  pose proof (@update_ticket_spec test_env sample_tables sample_wf "ur-c"
    (TicketUpdate.of_status "closed") 0) as H.
  assert (TicketTables.ticket sample_tables !! "ur-c"
    = Some (sample_ticket "ur-c" "open" (Some "ur-b"))) as E by (vm_compute; reflexivity).
  rewrite E in H. specialize (H eq_refl I). cbv zeta in H.
  eexists _, _. split; [exact H|reflexivity].
Defined.

Lemma update_ticket_project_referenced_witness :
  ∃ code, @update_ticket test_env "ur-a" (to_project "web") (Pool sample_tables [] 0)
    = (Err (Database code), Pool sample_tables [] 1).
Proof.
  apply (@update_ticket_project_referenced test_env sample_tables "ur-a"
    (sample_ticket "ur-a" "open" None) (to_project "web") "web" 0).
  - exact sample_wf.
  - vm_compute. reflexivity.
  - reflexivity.
  - done.
  - apply (bool_decide_unpack _). vm_compute. exact I.
  - left. exists "ur-b", (sample_ticket "ur-b" "closed" (Some "ur-a")).
    split; [vm_compute; reflexivity|done].
Defined.

Lemma close_open_children_spec_witness :
  ∃ k, close_open_children "ur-b" (Pool sample_tables [] 0)
      = (Ok k, Pool (closed_tables sample_tables "ur-b") [] 0).
Proof.
  destruct (close_open_children_spec sample_tables sample_wf "ur-b" 0) as ((k & H & _) & _ & _).
  exists k. exact H.
Defined.

Lemma set_delete_meta_spec_witness :
  ∃ s', set_meta "ur-a" "ticket" "ref" "x" (Pool sample_tables [] 0) = (Ok tt, Pool s' [] 0).
Proof.
  destruct (set_delete_meta_spec sample_tables "ur-a" "ticket" "ref" "x" 0 sample_wf)
    as ((s' & H & _) & _).
  exists s'. exact H.
Defined.
