(* ===== verification/WorkflowDb.v ===== *)
(** * The tables of the workflow database

    [workflow_db/migrations]: workflows with their queues, intents, comments and
    history, and the workers, slots and links of the worker pool.  As for the
    ticket database, the [ui_events] rows the triggers write are not kept. *)

From S2P Require Import Prelude RustStd Model.
From Stdlib Require Import Lia.
Local Open Scope stdpp_scope.

(** ** Rows *)

Module WorkflowRow.
Record t : Type := mk {
  id : string;
  ticket_id : string;
  status : string;
  stalled : bool;
  stall_reason : string;
  implement_cycles : Z;
  worker_id : string;
  noverify : bool;
  feedback_mode : string;
  ci_status : string;
  mergeable : string;
  review_status : string;
  created_at : string
}.
#[global] Instance eq_dec : EqDecision t.
Proof. solve_decision. Defined.

(** [INSERT INTO workflow (id, ticket_id, status, created_at)] with the columns'
    defaults. *)
Definition fresh (id ticket_id status created_at : string) : t :=
  mk id ticket_id status false "" 0 "" false "" "pending" "unknown" "pending" created_at.

Definition set_status (x : string) (r : t) : t :=
  mk (id r) (ticket_id r) x (stalled r) (stall_reason r) (implement_cycles r) (worker_id r)
    (noverify r) (feedback_mode r) (ci_status r) (mergeable r) (review_status r) (created_at r).
Definition set_stall (b : bool) (reason : string) (r : t) : t :=
  mk (id r) (ticket_id r) (status r) b reason (implement_cycles r) (worker_id r)
    (noverify r) (feedback_mode r) (ci_status r) (mergeable r) (review_status r) (created_at r).
Definition set_cycles (n : Z) (r : t) : t :=
  mk (id r) (ticket_id r) (status r) (stalled r) (stall_reason r) n (worker_id r)
    (noverify r) (feedback_mode r) (ci_status r) (mergeable r) (review_status r) (created_at r).
Definition set_worker_id (x : string) (r : t) : t :=
  mk (id r) (ticket_id r) (status r) (stalled r) (stall_reason r) (implement_cycles r) x
    (noverify r) (feedback_mode r) (ci_status r) (mergeable r) (review_status r) (created_at r).
Definition set_noverify (b : bool) (r : t) : t :=
  mk (id r) (ticket_id r) (status r) (stalled r) (stall_reason r) (implement_cycles r)
    (worker_id r) b (feedback_mode r) (ci_status r) (mergeable r) (review_status r) (created_at r).
Definition set_feedback_mode (x : string) (r : t) : t :=
  mk (id r) (ticket_id r) (status r) (stalled r) (stall_reason r) (implement_cycles r)
    (worker_id r) (noverify r) x (ci_status r) (mergeable r) (review_status r) (created_at r).
Definition set_conditions (ci mg rv : string) (r : t) : t :=
  mk (id r) (ticket_id r) (status r) (stalled r) (stall_reason r) (implement_cycles r)
    (worker_id r) (noverify r) (feedback_mode r) ci mg rv (created_at r).
Definition set_condition (c : WorkflowCondition) (x : string) (r : t) : t :=
  match c with
  | WorkflowCondition.CiStatus => set_conditions x (mergeable r) (review_status r) r
  | WorkflowCondition.Mergeable => set_conditions (ci_status r) x (review_status r) r
  | WorkflowCondition.ReviewStatus => set_conditions (ci_status r) (mergeable r) x r
  end.
End WorkflowRow.

(** A row of the [workflow_event] queue. *)
Module EventRow.
Record t : Type := mk {
  id : string; ticket_id : string; old_lifecycle_status : string;
  new_lifecycle_status : string; attempts : Z; created_at : string
}.
Definition set_attempts (n : Z) (r : t) : t :=
  mk (id r) (ticket_id r) (old_lifecycle_status r) (new_lifecycle_status r) n (created_at r).
End EventRow.

Module IntentRow.
Record t : Type := mk {
  id : string; ticket_id : string; target_status : string; created_at : string
}.
#[global] Instance eq_dec : EqDecision t.
Proof. solve_decision. Defined.
End IntentRow.

Module CommentRow.
Record t : Type := mk { feedback_created : bool; created_at : string }.
Definition created (r : t) : t := mk true (created_at r).
End CommentRow.

(** A row of the [workflow_events] history. *)
Module HistoryRow.
Record t : Type := mk {
  id : string; workflow_id : string; event : string; created_at : string
}.
End HistoryRow.

Module Slot.
Record t : Type := mk {
  id : string; project_key : string; slot_name : string; host_path : string;
  created_at : string; updated_at : string
}.
#[global] Instance eq_dec : EqDecision t.
Proof. solve_decision. Defined.
End Slot.

(** A worker; [RT] is the type of [runtime]: text in the table, the enum in the
    code. *)
Module WorkerRow.
Record t (RT : Type) : Type := mk {
  worker_id : string;
  process_id : string;
  project_key : string;
  container_id : string;
  worker_secret : string;
  strategy : string;
  agent_type : string;
  container_status : string;
  agent_status : string;
  workspace_path : option string;
  created_at : string;
  updated_at : string;
  idle_redispatch_count : Z;
  brain_path : option string;
  runtime : RT
}.
#[global] Arguments mk {RT}.
#[global] Arguments worker_id {RT}.
#[global] Arguments process_id {RT}.
#[global] Arguments project_key {RT}.
#[global] Arguments container_id {RT}.
#[global] Arguments worker_secret {RT}.
#[global] Arguments strategy {RT}.
#[global] Arguments agent_type {RT}.
#[global] Arguments container_status {RT}.
#[global] Arguments agent_status {RT}.
#[global] Arguments workspace_path {RT}.
#[global] Arguments created_at {RT}.
#[global] Arguments updated_at {RT}.
#[global] Arguments idle_redispatch_count {RT}.
#[global] Arguments brain_path {RT}.
#[global] Arguments runtime {RT}.

Definition set_container {RT} (cid status now : string) (r : t RT) : t RT :=
  mk (worker_id r) (process_id r) (project_key r) cid (worker_secret r) (strategy r)
    (agent_type r) status (agent_status r) (workspace_path r) (created_at r) now
    (idle_redispatch_count r) (brain_path r) (runtime r).
Definition set_agent_status {RT} (status now : string) (r : t RT) : t RT :=
  mk (worker_id r) (process_id r) (project_key r) (container_id r) (worker_secret r) (strategy r)
    (agent_type r) (container_status r) status (workspace_path r) (created_at r) now
    (idle_redispatch_count r) (brain_path r) (runtime r).
Definition set_redispatch {RT} (n : Z) (now : string) (r : t RT) : t RT :=
  mk (worker_id r) (process_id r) (project_key r) (container_id r) (worker_secret r) (strategy r)
    (agent_type r) (container_status r) (agent_status r) (workspace_path r) (created_at r) now
    n (brain_path r) (runtime r).
Definition with_runtime {RT RT'} (x : RT') (n : Z) (r : t RT) : t RT' :=
  mk (worker_id r) (process_id r) (project_key r) (container_id r) (worker_secret r) (strategy r)
    (agent_type r) (container_status r) (agent_status r) (workspace_path r) (created_at r)
    (updated_at r) n (brain_path r) x.
End WorkerRow.
Abbreviation Worker := (WorkerRow.t WorkerRuntime).

(** ** Tables *)

Module WorkflowTables.
Record t : Type := mk {
  workflow : gmap string WorkflowRow.t;
  workflow_event : gmap string EventRow.t;
  workflow_intent : gmap string IntentRow.t;
  workflow_comments : gmap (string * string) CommentRow.t;
  workflow_events : gmap string HistoryRow.t;
  slot : gmap string Slot.t;
  worker : gmap string (WorkerRow.t string);
  worker_slot : gmap (string * string) string
}.
Definition empty : t := mk ∅ ∅ ∅ ∅ ∅ ∅ ∅ ∅.
Definition set_workflow x (s : t) : t :=
  mk x (workflow_event s) (workflow_intent s) (workflow_comments s) (workflow_events s)
    (slot s) (worker s) (worker_slot s).
Definition set_event x (s : t) : t :=
  mk (workflow s) x (workflow_intent s) (workflow_comments s) (workflow_events s)
    (slot s) (worker s) (worker_slot s).
Definition set_intent x (s : t) : t :=
  mk (workflow s) (workflow_event s) x (workflow_comments s) (workflow_events s)
    (slot s) (worker s) (worker_slot s).
Definition set_comments x (s : t) : t :=
  mk (workflow s) (workflow_event s) (workflow_intent s) x (workflow_events s)
    (slot s) (worker s) (worker_slot s).
Definition set_history x (s : t) : t :=
  mk (workflow s) (workflow_event s) (workflow_intent s) (workflow_comments s) x
    (slot s) (worker s) (worker_slot s).
Definition set_slot x (s : t) : t :=
  mk (workflow s) (workflow_event s) (workflow_intent s) (workflow_comments s)
    (workflow_events s) x (worker s) (worker_slot s).
Definition set_worker x (s : t) : t :=
  mk (workflow s) (workflow_event s) (workflow_intent s) (workflow_comments s)
    (workflow_events s) (slot s) x (worker_slot s).
Definition set_worker_slot x (s : t) : t :=
  mk (workflow s) (workflow_event s) (workflow_intent s) (workflow_comments s)
    (workflow_events s) (slot s) (worker s) x.
End WorkflowTables.
Abbreviation wtables := WorkflowTables.t.
Abbreviation wdb A := (SE (pool wtables) sqlx_error A).

(** ** Constraints *)

(** The foreign keys and the uniqueness and check constraints of the schema. *)
Definition links_ok (s : wtables) : Prop :=
  map_Forall (λ (k : string * string) _,
    k.1 ∈ dom (WorkflowTables.worker s) ∧ k.2 ∈ dom (WorkflowTables.slot s))
    (WorkflowTables.worker_slot s).
Definition history_ok (s : wtables) : Prop :=
  map_Forall (λ _ r, HistoryRow.workflow_id r ∈ dom (WorkflowTables.workflow s))
    (WorkflowTables.workflow_events s).
Definition slot_names_ok (s : wtables) : Prop :=
  ∀ i j a b, WorkflowTables.slot s !! i = Some a → WorkflowTables.slot s !! j = Some b →
    Slot.project_key a = Slot.project_key b → Slot.slot_name a = Slot.slot_name b → i = j.
Definition runtimes_ok (s : wtables) : Prop :=
  map_Forall (λ _ w, WorkerRow.runtime w = "container" ∨ WorkerRow.runtime w = "local")
    (WorkflowTables.worker s).
(** Rows are stored under their primary key. *)
Definition wkeys_ok (s : wtables) : Prop :=
  map_Forall (λ i r, WorkflowRow.id r = i) (WorkflowTables.workflow s)
  ∧ map_Forall (λ i r, IntentRow.id r = i) (WorkflowTables.workflow_intent s)
  ∧ map_Forall (λ i r, Slot.id r = i) (WorkflowTables.slot s)
  ∧ map_Forall (λ i r, WorkerRow.worker_id r = i) (WorkflowTables.worker s).

(** The invariant of the workflow database. *)
Record wwf (s : wtables) : Prop := Wwf {
  wwf_keys : wkeys_ok s;
  wwf_links : links_ok s;
  wwf_history : history_ok s;
  wwf_slots : slot_names_ok s;
  wwf_runtimes : runtimes_ok s
}.

Lemma wwf_empty : wwf WorkflowTables.empty.
Proof. by split. Qed.

(** Inserting a row under a primary key. *)
Definition insert_row {K V} `{Countable K} (k : K) (v : V) (m : gmap K V)
    : result (gmap K V) sqlx_error :=
  if decide (is_Some (m !! k)) then Err (Database UNIQUE_VIOLATION) else Ok (<[k := v]> m).

(** The number of rows an update touched, and an update that counts. *)
Definition matching {K V} `{Countable K} (P : V → bool) (m : gmap K V) : list V :=
  filter (λ v, P v = true) (rows m).
Definition update_where {K V} `{Countable K} (P : V → bool) (f : V → V) (m : gmap K V) : gmap K V :=
  (λ v, if P v then f v else v) <$> m.

Section Updates.
Context {K V : Type} `{Countable K}.

Lemma lookup_update_where (P : V → bool) (f : V → V) (m : gmap K V) k :
  update_where P f m !! k = (λ v, if P v then f v else v) <$> m !! k.
Proof. unfold update_where. apply lookup_fmap. Qed.
Lemma dom_update_where (P : V → bool) (f : V → V) (m : gmap K V) :
  dom (update_where P f m) = dom m.
Proof. apply dom_fmap_L. Qed.
Lemma elem_of_matching (P : V → bool) (m : gmap K V) v :
  v ∈ matching P m ↔ P v = true ∧ ∃ k, m !! k = Some v.
Proof. unfold matching. by rewrite list_elem_of_filter, elem_of_rows. Qed.
Lemma update_where_Forall (P : V → bool) (f : V → V) (Q : K → V → Prop) (m : gmap K V) :
  (∀ k v, Q k v → Q k (f v)) → map_Forall Q m → map_Forall Q (update_where P f m).
Proof.
  intros Hf Hm k v Hk. rewrite lookup_update_where in Hk.
  apply fmap_Some in Hk as (v' & Hv & ->). specialize (Hm _ _ Hv). destruct (P v'); auto.
Qed.
End Updates.

Lemma insert_row_Ok {K V} `{Countable K} (k : K) (v : V) (m m' : gmap K V) :
  insert_row k v m = Ok m' → m !! k = None ∧ m' = <[k := v]> m.
Proof.
  unfold insert_row. case_decide as Hn; intros; simplify_eq. by apply eq_None_not_Some in Hn.
Qed.
Lemma insert_row_fresh {K V} `{Countable K} (k : K) (v : V) (m : gmap K V) :
  m !! k = None → insert_row k v m = Ok (<[k := v]> m).
Proof. intros Hk. unfold insert_row. rewrite Hk. by rewrite decide_False by (by intros [??]). Qed.
