(* ===== verification/WorkflowRepo.v ===== *)
(** * [WorkflowRepo]: the operations of [workflow_db/src/workflow_repo.rs] *)

From S2P Require Import Prelude RustStd Model Env WorkflowDb.
From Stdlib Require Import Lia.
Local Open Scope stdpp_scope.

Module W := WorkflowRow.

(** [status NOT IN ('done', 'cancelled')] *)
Definition active (r : W.t) : bool :=
  negb (bool_decide (W.status r = "done") || bool_decide (W.status r = "cancelled")).
Definition active_for (ticket_id : string) (r : W.t) : bool :=
  bool_decide (W.ticket_id r = ticket_id) && active r.

Definition row_to_workflow (r : W.t) : Workflow.t :=
  Workflow.mk (W.id r) (W.ticket_id r) (LifecycleStatus.parse_or_default (W.status r))
    (W.stalled r) (W.stall_reason r) (W.implement_cycles r) (W.worker_id r) (W.noverify r)
    (W.feedback_mode r) (W.ci_status r) (W.mergeable r) (W.review_status r) (W.created_at r).

Definition by_created : relation W.t := le_by W.created_at String.le.
#[export] Instance by_created_dec : RelDecision by_created.
Proof. unfold by_created. apply _. Defined.
Definition by_created_desc : relation W.t := le_by W.created_at (flip String.le).
#[export] Instance by_created_desc_dec : RelDecision by_created_desc.
Proof. unfold by_created_desc, le_by, flip. intros x y. apply _. Defined.

(** [UPDATE workflow SET .. WHERE ticket_id = $n AND status NOT IN (..)] *)
Definition update_active (ticket_id : string) (f : W.t → W.t) : wdb unit :=
  update_stmt (λ s, WorkflowTables.set_workflow
    (update_where (active_for ticket_id) f (WorkflowTables.workflow s)) s).

(** An INTEGER column plus one. *)
Definition incr_i32 (z : Z) : option Z := if decide (z = I32_MAX) then None else Some (z + 1)%Z.

Section WorkflowRepo.
Context {HE : Env}.

(** *** The event queue *)

Definition by_event_id : relation EventRow.t := le_by EventRow.id String.le.
#[export] Instance by_event_id_dec : RelDecision by_event_id.
Proof. unfold by_event_id. apply _. Defined.
Definition event_of (r : EventRow.t) : WorkflowEventQ.t :=
  WorkflowEventQ.mk (EventRow.id r) (EventRow.ticket_id r)
    (LifecycleStatus.parse_or_default (EventRow.old_lifecycle_status r))
    (LifecycleStatus.parse_or_default (EventRow.new_lifecycle_status r))
    (EventRow.attempts r) (EventRow.created_at r).
Definition poll_workflow_event : wdb (option WorkflowEventQ.t) :=
  select (λ s, event_of <$> head (order_by by_event_id (rows (WorkflowTables.workflow_event s)))).

Definition create_lifecycle_event (ticket_id : string) (old_status new_status : LifecycleStatus)
    : wdb unit :=
  id ← new_uuid;
  now ← utc_now;
  statement (λ s,
    match insert_row id (EventRow.mk id ticket_id (LifecycleStatus.as_str old_status)
            (LifecycleStatus.as_str new_status) 0 now) (WorkflowTables.workflow_event s) with
    | Ok m => Ok (tt, WorkflowTables.set_event m s)
    | Err e => Err e
    end).

Definition delete_workflow_event (id : string) : wdb unit :=
  update_stmt (λ s, WorkflowTables.set_event (delete id (WorkflowTables.workflow_event s)) s).
Definition delete_workflow_events_for_ticket (ticket_id : string) : wdb unit :=
  update_stmt (λ s, WorkflowTables.set_event
    (filter (λ kv, EventRow.ticket_id kv.2 ≠ ticket_id) (WorkflowTables.workflow_event s)) s).

Definition increment_workflow_event_attempts (id : string) : wdb unit :=
  statement (λ s,
    match WorkflowTables.workflow_event s !! id with
    | None => Ok (tt, s)
    | Some r =>
        match incr_i32 (EventRow.attempts r) with
        | None => Err (Database NUMERIC_VALUE_OUT_OF_RANGE)
        | Some n => Ok (tt, WorkflowTables.set_event
            (<[id := EventRow.set_attempts n r]> (WorkflowTables.workflow_event s)) s)
        end
    end).

(** *** Workflows *)

Definition create_workflow (ticket_id : string) (status : LifecycleStatus) : wdb Workflow.t :=
  id ← new_uuid;
  now ← utc_now;
  statement (λ s,
    match insert_row id (W.fresh id ticket_id (LifecycleStatus.as_str status) now)
            (WorkflowTables.workflow s) with
    | Ok m => Ok (tt, WorkflowTables.set_workflow m s)
    | Err e => Err e
    end) ;;
  mret (Workflow.mk id ticket_id status false "" 0 "" false "" ci_status.PENDING
          mergeable.UNKNOWN review_status.PENDING now).

Definition get_workflow_by_ticket_inner (ticket_id : string) (active_only : bool)
    : wdb (option Workflow.t) :=
  select (λ s,
    row_to_workflow <$>
      if active_only
      then head (matching (active_for ticket_id) (WorkflowTables.workflow s))
      else head (order_by by_created_desc
             (matching (λ r, bool_decide (W.ticket_id r = ticket_id)) (WorkflowTables.workflow s)))).
Definition get_workflow_by_ticket (ticket_id : string) : wdb (option Workflow.t) :=
  get_workflow_by_ticket_inner ticket_id true.
Definition get_latest_workflow_by_ticket (ticket_id : string) : wdb (option Workflow.t) :=
  get_workflow_by_ticket_inner ticket_id false.

(** [WHERE status = $1], or the active ones. *)
Definition status_filter (status : option LifecycleStatus) (r : W.t) : bool :=
  match status with
  | Some s => bool_decide (W.status r = LifecycleStatus.as_str s)
  | None => active r
  end.
Definition list_workflows (status : option LifecycleStatus) : wdb (list Workflow.t) :=
  select (λ s, row_to_workflow <$>
    order_by by_created (matching (status_filter status) (WorkflowTables.workflow s))).

Definition NEGATIVE_LIMIT : string := "2201W".
Definition NEGATIVE_OFFSET : string := "2201X".

(** [COUNT( * ) OVER ()] is a column of every row, so the total is read off the
    first row of the page.  A workflow comes with two children counts. *)
Definition list_workflows_paginated (page_size : option Z) (offset : Z)
    (status : option LifecycleStatus) : wdb (list (Workflow.t * Z * Z) * Z) :=
  rs ← statement (λ s,
    let all := order_by by_created (matching (status_filter status) (WorkflowTables.workflow s)) in
    let counted := (λ r, (r, Z.of_nat (length all))) <$> all in
    match page_size with
    | None => Ok (counted, s)
    | Some limit =>
        if decide (offset < 0)%Z then Err (Database NEGATIVE_OFFSET)
        else if decide (limit < 0)%Z then Err (Database NEGATIVE_LIMIT)
        else Ok (take (Z.to_nat limit) (drop (Z.to_nat offset) counted), s)
    end);
  mret ((λ r, (row_to_workflow r.1, 0%Z, 0%Z)) <$> rs, default 0%Z (snd <$> head rs)).

Definition update_workflow_status (ticket_id : string) (status : LifecycleStatus) : wdb unit :=
  update_active ticket_id (W.set_status (LifecycleStatus.as_str status)).
Definition set_workflow_stalled (ticket_id reason : string) : wdb unit :=
  update_active ticket_id (W.set_stall true reason).
Definition clear_workflow_stall (ticket_id : string) : wdb unit :=
  update_active ticket_id (W.set_stall false "").
Definition increment_implement_cycles (ticket_id : string) : wdb unit :=
  statement (λ s,
    if existsb (λ r, bool_decide (W.implement_cycles r = I32_MAX))
         (matching (active_for ticket_id) (WorkflowTables.workflow s))
    then Err (Database NUMERIC_VALUE_OUT_OF_RANGE)
    else Ok (tt, WorkflowTables.set_workflow
      (update_where (active_for ticket_id) (λ r, W.set_cycles (W.implement_cycles r + 1) r)
         (WorkflowTables.workflow s)) s)).
Definition reset_implement_cycles (ticket_id : string) : wdb unit :=
  update_active ticket_id (W.set_cycles 0).
Definition set_workflow_worker_id (ticket_id worker_id : string) : wdb unit :=
  update_active ticket_id (W.set_worker_id worker_id).
Definition set_workflow_noverify (ticket_id : string) (noverify : bool) : wdb unit :=
  update_active ticket_id (W.set_noverify noverify).
Definition set_workflow_feedback_mode (ticket_id feedback_mode : string) : wdb unit :=
  update_active ticket_id (W.set_feedback_mode feedback_mode).
Definition update_workflow_condition (ticket_id : string) (condition : WorkflowCondition)
    (value : string) : wdb unit :=
  update_active ticket_id (W.set_condition condition value).
Definition initialize_workflow_conditions (ticket_id : string) : wdb unit :=
  update_active ticket_id
    (W.set_conditions ci_status.PENDING mergeable.UNKNOWN review_status.PENDING).

(** *** History *)

Definition insert_history (id workflow_id : string) (event : WorkflowEvent) (created_at : string)
    : wdb unit :=
  statement (λ s,
    match insert_row id (HistoryRow.mk id workflow_id (WorkflowEvent.as_str event) created_at)
            (WorkflowTables.workflow_events s) with
    | Err e => Err e
    | Ok m =>
        if decide (workflow_id ∈ dom (WorkflowTables.workflow s))
        then Ok (tt, WorkflowTables.set_history m s)
        else Err (Database FOREIGN_KEY_VIOLATION)
    end).
Definition insert_workflow_event (workflow_id : string) (event : WorkflowEvent) : wdb unit :=
  id ← new_uuid;
  now ← utc_now;
  insert_history id workflow_id event now.
Definition insert_workflow_event_at (workflow_id : string) (event : WorkflowEvent)
    (created_at : string) : wdb unit :=
  id ← new_uuid;
  insert_history id workflow_id event created_at.

Definition by_history_created : relation HistoryRow.t := le_by HistoryRow.created_at String.le.
#[export] Instance by_history_created_dec : RelDecision by_history_created.
Proof. unfold by_history_created. apply _. Defined.
(** The event's name and its time. *)
Definition get_workflow_events (workflow_id : string) : wdb (list (string * string)) :=
  select (λ s, (λ r, (HistoryRow.event r, HistoryRow.created_at r)) <$>
    order_by by_history_created
      (matching (λ r, bool_decide (HistoryRow.workflow_id r = workflow_id))
         (WorkflowTables.workflow_events s))).

(** *** Intents *)

Definition create_intent (ticket_id : string) (target_status : LifecycleStatus)
    : wdb WorkflowIntent.t :=
  id ← new_uuid;
  now ← utc_now;
  statement (λ s,
    match insert_row id (IntentRow.mk id ticket_id (LifecycleStatus.as_str target_status) now)
            (WorkflowTables.workflow_intent s) with
    | Ok m => Ok (tt, WorkflowTables.set_intent m s)
    | Err e => Err e
    end) ;;
  mret (WorkflowIntent.mk id ticket_id target_status now).

Definition by_intent_created : relation IntentRow.t := le_by IntentRow.created_at String.le.
#[export] Instance by_intent_created_dec : RelDecision by_intent_created.
Proof. unfold by_intent_created. apply _. Defined.
Definition intent_of (r : IntentRow.t) : WorkflowIntent.t :=
  WorkflowIntent.mk (IntentRow.id r) (IntentRow.ticket_id r)
    (LifecycleStatus.parse_or_default (IntentRow.target_status r)) (IntentRow.created_at r).
Definition poll_intent : wdb (option WorkflowIntent.t) :=
  select (λ s, intent_of <$>
    head (order_by by_intent_created (rows (WorkflowTables.workflow_intent s)))).
Definition list_intents : wdb (list WorkflowIntent.t) :=
  select (λ s, intent_of <$> order_by by_intent_created (rows (WorkflowTables.workflow_intent s))).
Definition delete_intent (id : string) : wdb unit :=
  update_stmt (λ s, WorkflowTables.set_intent (delete id (WorkflowTables.workflow_intent s)) s).
Definition delete_intents_for_ticket (ticket_id : string) : wdb unit :=
  update_stmt (λ s, WorkflowTables.set_intent
    (filter (λ kv, IntentRow.ticket_id kv.2 ≠ ticket_id) (WorkflowTables.workflow_intent s)) s).

(** *** Queries across tickets *)

(** Collecting pairs into a [HashMap]: later pairs win. *)
Definition collect_map (l : list (string * string)) : gmap string string :=
  foldl (λ m kv, <[kv.1 := kv.2]> m) ∅ l.
Definition get_active_workflows_by_ticket_ids (ids : list string) : wdb (gmap string string) :=
  match ids with
  | [] => mret ∅
  | _ => select (λ s, collect_map (filter (λ kv, kv.1 ∈ ids)
           ((λ r, (W.ticket_id r, W.status r)) <$> matching active (WorkflowTables.workflow s))))
  end.
Definition ticket_ids_by_workflow_status (status : LifecycleStatus) : wdb (list string) :=
  select (λ s, W.ticket_id <$> order_by by_created
    (matching (λ r, bool_decide (W.status r = LifecycleStatus.as_str status))
       (WorkflowTables.workflow s))).
Definition ticket_id_by_worker_id (worker_id : string) : wdb (option string) :=
  select (λ s, W.ticket_id <$>
    head (matching (λ r, bool_decide (W.worker_id r = worker_id) && active r)
      (WorkflowTables.workflow s))).

(** *** Review comments seen *)

Definition insert_workflow_comments (ticket_id : string) (comment_ids : list string) : wdb unit :=
  for_each (λ comment_id,
    now ← db_clock;
    update_stmt (λ s,
      match WorkflowTables.workflow_comments s !! (ticket_id, comment_id) with
      | Some _ => s
      | None => WorkflowTables.set_comments
          (<[(ticket_id, comment_id) := CommentRow.mk false now]>
             (WorkflowTables.workflow_comments s)) s
      end)) comment_ids.

Definition by_comment_created : relation (string * string * CommentRow.t) :=
  le_by (λ kv, CommentRow.created_at kv.2) String.le.
#[export] Instance by_comment_created_dec : RelDecision by_comment_created.
Proof. unfold by_comment_created. apply _. Defined.
Definition comments_where (ticket_id : string) (P : CommentRow.t → bool) (s : wtables) : list string :=
  (λ kv, kv.1.2) <$> order_by by_comment_created
    (filter (λ kv, kv.1.1 = ticket_id ∧ P kv.2 = true)
      (map_to_list (WorkflowTables.workflow_comments s))).
Definition get_pending_feedback_comments (ticket_id : string) : wdb (list string) :=
  select (comments_where ticket_id (λ r, negb (CommentRow.feedback_created r))).
Definition get_seen_comment_ids (ticket_id : string) : wdb (list string) :=
  select (comments_where ticket_id (λ _, true)).
Definition mark_feedback_created (ticket_id : string) (comment_ids : list string) : wdb unit :=
  for_each (λ comment_id,
    update_stmt (λ s, WorkflowTables.set_comments
      (alter CommentRow.created (ticket_id, comment_id) (WorkflowTables.workflow_comments s)) s))
    comment_ids.
End WorkflowRepo.
