(* ===== verification/WorkerRepo.v ===== *)
(** * [WorkerRepo]: the operations of [workflow_db/src/worker_repo.rs]

    Workers, slots and their links, and the two reconciliations that run when
    the server starts.  The disk is a parameter: the entries of each directory.
    Maps and sets the code iterates over ([HashMap], [HashSet]) are enumerated in
    the order of the model's finite maps; the code promises no order. *)

From S2P Require Import Prelude RustStd Model Env WorkflowDb.
From Stdlib Require Import Ascii Lia.
Local Open Scope stdpp_scope.

Module K := WorkerRow.

(** [container_status IN ('provisioning', 'running', 'stopping')] *)
Definition ACTIVE_STATUSES : list string := ["provisioning"; "running"; "stopping"].
Definition is_active {RT} (w : K.t RT) : bool := bool_decide (K.container_status w ∈ ACTIVE_STATUSES).

Definition worker_from_row (r : K.t string) : result Worker sqlx_error :=
  match WorkerRuntime.from_str (K.runtime r) with
  | Ok rt => Ok (K.with_runtime rt (K.idle_redispatch_count r) r)
  | Err e => Err (Decode e)
  end.

(** [rows.into_iter().map(worker_from_row).collect()] *)
Fixpoint workers_from_rows (l : list (K.t string)) : result (list Worker) sqlx_error :=
  match l with
  | [] => Ok []
  | r :: l' =>
      match worker_from_row r with
      | Err e => Err e
      | Ok w => match workers_from_rows l' with Ok ws => Ok (w :: ws) | Err e => Err e end
      end
  end.

(** [row.map(worker_from_row).transpose()] *)
Definition worker_from_optional (o : option (K.t string)) : result (option Worker) sqlx_error :=
  match o with
  | None => Ok None
  | Some r => match worker_from_row r with Ok w => Ok (Some w) | Err e => Err e end
  end.

(** [slot_name ~ '^[0-9]+$'] *)
Fixpoint digits_only (s : string) : bool :=
  match s with
  | EmptyString => true
  | String c s' => bool_decide (is_Some (to_digit c)) && digits_only s'
  end.
Definition all_digits (s : string) : bool :=
  negb (bool_decide (s = EmptyString)) && digits_only s.

Definition by_worker_created : relation (K.t string) := le_by K.created_at String.le.
#[export] Instance by_worker_created_dec : RelDecision by_worker_created.
Proof. unfold by_worker_created. apply _. Defined.
Definition by_worker_created_desc : relation (K.t string) := le_by K.created_at (flip String.le).
#[export] Instance by_worker_created_desc_dec : RelDecision by_worker_created_desc.
Proof. unfold by_worker_created_desc, le_by, flip. intros x y. apply _. Defined.
Definition by_slot_created : relation Slot.t := le_by Slot.created_at String.le.
#[export] Instance by_slot_created_dec : RelDecision by_slot_created.
Proof. unfold by_slot_created. apply _. Defined.

(** Slots held by a worker that is not stopped. *)
Definition slot_in_use (s : wtables) (slot_id : string) : bool :=
  existsb (λ kv : string * string * string,
    bool_decide (kv.1.2 = slot_id) &&
    match WorkflowTables.worker s !! kv.1.1 with Some w => is_active w | None => false end)
    (map_to_list (WorkflowTables.worker_slot s)).

(** [DELETE FROM worker WHERE ..], with the cascade to the links. *)
Definition delete_workers (P : string → K.t string → bool) (s : wtables) : wtables :=
  let left := filter (λ kv, P kv.1 kv.2 = false) (WorkflowTables.worker s) in
  WorkflowTables.set_worker_slot
    (filter (λ kv, kv.1.1 ∈ dom left) (WorkflowTables.worker_slot s))
    (WorkflowTables.set_worker left s).

(** [UPDATE worker SET .. WHERE worker_id = $n] *)
Definition update_worker (worker_id : string) (f : K.t string → K.t string) (s : wtables) : wtables :=
  WorkflowTables.set_worker (alter f worker_id (WorkflowTables.worker s)) s.

Section WorkerRepo.
Context {HE : Env}.

(** *** Workers *)

Definition insert_worker (worker : Worker) : wdb unit :=
  statement (λ s,
    match insert_row (K.worker_id worker)
            (K.with_runtime (WorkerRuntime.as_str (K.runtime worker)) 0 worker)
            (WorkflowTables.worker s) with
    | Ok m => Ok (tt, WorkflowTables.set_worker m s)
    | Err e => Err e
    end).

Definition get_worker (worker_id : string) : wdb (option Worker) :=
  row ← select (λ s, WorkflowTables.worker s !! worker_id);
  of_result (worker_from_optional row).
Definition get_worker_by_container_id (container_id : string) : wdb (option Worker) :=
  row ← select (λ s, head (order_by by_worker_created_desc
    (matching (λ w, bool_decide (K.container_id w = container_id)) (WorkflowTables.worker s))));
  of_result (worker_from_optional row).

Definition update_worker_container_status (worker_id container_status : string) : wdb unit :=
  now ← utc_now;
  update_stmt (update_worker worker_id
    (λ w, K.set_container (K.container_id w) container_status now w)).

Definition finalize_worker_launch (worker_id container_id : string) : wdb unit :=
  now ← utc_now;
  rows_affected ← statement (λ s,
    Ok (bool_decide (is_Some (WorkflowTables.worker s !! worker_id)),
        update_worker worker_id (K.set_container container_id "running" now) s));
  if rows_affected : bool then mret tt else throw RowNotFound.

Definition delete_worker (worker_id : string) : wdb Z :=
  statement (λ s,
    Ok (if bool_decide (is_Some (WorkflowTables.worker s !! worker_id)) then 1%Z else 0%Z,
        delete_workers (λ i _, bool_decide (i = worker_id)) s)).

Definition update_worker_agent_status (worker_id : string) (agent_status : AgentStatus) : wdb unit :=
  now ← utc_now;
  update_stmt (update_worker worker_id
    (K.set_agent_status (AgentStatus.as_str agent_status) now)).

Definition increment_idle_redispatch_count (worker_id : string) : wdb Z :=
  now ← utc_now;
  statement (λ s,
    match WorkflowTables.worker s !! worker_id with
    | None => Ok (tt, s)
    | Some w =>
        if decide (K.idle_redispatch_count w = I32_MAX)
        then Err (Database NUMERIC_VALUE_OUT_OF_RANGE)
        else Ok (tt, update_worker worker_id
               (λ w, K.set_redispatch (K.idle_redispatch_count w + 1) now w) s)
    end) ;;
  statement (λ s,
    match WorkflowTables.worker s !! worker_id with
    | None => Err RowNotFound
    | Some w => Ok (K.idle_redispatch_count w, s)
    end).

Definition select_workers (P : K.t string → bool) : wdb (list Worker) :=
  rs ← select (λ s, order_by by_worker_created (matching P (WorkflowTables.worker s)));
  of_result (workers_from_rows rs).
Definition list_workers_by_container_status (container_status : string) : wdb (list Worker) :=
  select_workers (λ w, bool_decide (K.container_status w = container_status)).
Definition list_all_workers : wdb (list Worker) := select_workers (λ _, true).
Definition list_active_workers : wdb (list Worker) := select_workers is_active.

Definition verify_worker (worker_id secret : string) : wdb bool :=
  count ← select (λ s, Z.of_nat (length (matching
    (λ w, bool_decide (K.worker_id w = worker_id) && bool_decide (K.worker_secret w = secret))
    (WorkflowTables.worker s))));
  mret (bool_decide (0 < count)%Z).

Definition get_worker_context (project_key workspace_path : string) : wdb (option Worker) :=
  row ← select (λ s, head (matching
    (λ w, bool_decide (K.project_key w = project_key)
          && bool_decide (K.workspace_path w = Some workspace_path))
    (WorkflowTables.worker s)));
  of_result (worker_from_optional row).

(** *** Slots *)

Definition insert_slot (slot : Slot.t) : wdb unit :=
  statement (λ s,
    match insert_row (Slot.id slot) slot (WorkflowTables.slot s) with
    | Err e => Err e
    | Ok m =>
        if existsb (λ x, bool_decide (Slot.project_key x = Slot.project_key slot)
                         && bool_decide (Slot.slot_name x = Slot.slot_name slot))
             (rows (WorkflowTables.slot s))
        then Err (Database UNIQUE_VIOLATION)
        else Ok (tt, WorkflowTables.set_slot m s)
    end).
Definition get_slot (id : string) : wdb (option Slot.t) :=
  select (λ s, WorkflowTables.slot s !! id).
Definition get_slot_by_host_path (host_path : string) : wdb (option Slot.t) :=
  select (λ s, head (matching (λ x, bool_decide (Slot.host_path x = host_path))
    (WorkflowTables.slot s))).
Definition list_slots_by_project (project_key : string) : wdb (list Slot.t) :=
  select (λ s, order_by by_slot_created
    (matching (λ x, bool_decide (Slot.project_key x = project_key)) (WorkflowTables.slot s))).
Definition list_all_slots : wdb (list Slot.t) :=
  select (λ s, order_by by_slot_created (rows (WorkflowTables.slot s))).

Definition find_available_slots (project_key : string) : wdb (list Slot.t) :=
  select (λ s, order_by by_slot_created (matching
    (λ x, bool_decide (Slot.project_key x = project_key) && all_digits (Slot.slot_name x)
          && negb (slot_in_use s (Slot.id x))) (WorkflowTables.slot s))).

(** One row per slot, link and active worker. *)
Definition slots_in_use (project_key : string) : wdb Z :=
  select (λ s, Z.of_nat (length (filter (λ kv : string * string * string,
    match WorkflowTables.slot s !! kv.1.2, WorkflowTables.worker s !! kv.1.1 with
    | Some x, Some w => bool_decide (Slot.project_key x = project_key) && is_active w
    | _, _ => false
    end = true) (map_to_list (WorkflowTables.worker_slot s))))).

Definition delete_slot (id : string) : wdb unit :=
  update_stmt (λ s, WorkflowTables.set_worker_slot
    (filter (λ kv, kv.1.2 ≠ id) (WorkflowTables.worker_slot s))
    (WorkflowTables.set_slot (delete id (WorkflowTables.slot s)) s)).

(** *** Links *)

Definition link_worker_slot (worker_id slot_id : string) : wdb unit :=
  now ← utc_now;
  statement (λ s,
    match insert_row (worker_id, slot_id) now (WorkflowTables.worker_slot s) with
    | Err e => Err e
    | Ok m =>
        if decide (worker_id ∈ dom (WorkflowTables.worker s) ∧ slot_id ∈ dom (WorkflowTables.slot s))
        then Ok (tt, WorkflowTables.set_worker_slot m s)
        else Err (Database FOREIGN_KEY_VIOLATION)
    end).
Definition unlink_worker_slot (worker_id : string) : wdb unit :=
  update_stmt (λ s, WorkflowTables.set_worker_slot
    (filter (λ kv, kv.1.1 ≠ worker_id) (WorkflowTables.worker_slot s)) s).
(** The worker, its slot and when they were linked. *)
Definition get_worker_slot (worker_id : string) : wdb (option (string * string * string)) :=
  select (λ s, head (filter (λ kv : string * string * string, kv.1.1 = worker_id)
    (map_to_list (WorkflowTables.worker_slot s)))).

Definition delete_workers_by_slot_id (slot_id : string) : wdb Z :=
  statement (λ s,
    let linked := λ i (_ : K.t string),
      bool_decide (is_Some (WorkflowTables.worker_slot s !! (i, slot_id))) in
    Ok (Z.of_nat (size (filter (λ kv, linked kv.1 kv.2 = true) (WorkflowTables.worker s))),
        delete_workers linked s)).

(** *** Reconciliation of slots *)

Record slot_reconcile_result : Type := SlotReconcileResult {
  deleted_stale : list string;
  inserted_orphaned : list string
}.

(** A directory's entries and whether each is a directory; [None]: unreadable. *)
Definition disk : Type := string → option (list (string * bool)).

Definition scan_disk_slots (d : disk) (dir : string) : gset string :=
  match d dir with
  | None => ∅
  | Some entries =>
      list_to_set (fst <$> filter (λ e : string * bool, e.2 = true ∧ e.1 ≠ "shared") entries)
  end.

(** The result record is threaded through the two loops. *)
Fixpoint delete_stale_slots (db_slots : list (string * Slot.t)) (disk_slot_names : gset string)
    (result : slot_reconcile_result) : wdb slot_reconcile_result :=
  match db_slots with
  | [] => mret result
  | (slot_name, slot) :: rest =>
      if decide (slot_name ∈ disk_slot_names) then delete_stale_slots rest disk_slot_names result
      else
        delete_workers_by_slot_id (Slot.id slot) ;;
        delete_slot (Slot.id slot) ;;
        delete_stale_slots rest disk_slot_names
          (SlotReconcileResult (deleted_stale result ++ [Slot.id slot]) (inserted_orphaned result))
  end.

Fixpoint insert_orphaned_slots (project_key project_pool_dir : string)
    (db_slots : gmap string Slot.t) (disk_slot_names : list string)
    (result : slot_reconcile_result) : wdb slot_reconcile_result :=
  match disk_slot_names with
  | [] => mret result
  | slot_name :: rest =>
      if decide (is_Some (db_slots !! slot_name))
      then insert_orphaned_slots project_key project_pool_dir db_slots rest result
      else
        now ← utc_now;
        id ← new_uuid;
        insert_slot (Slot.mk id project_key slot_name (path_join project_pool_dir slot_name) now now) ;;
        insert_orphaned_slots project_key project_pool_dir db_slots rest
          (SlotReconcileResult (deleted_stale result) (inserted_orphaned result ++ [id]))
  end.

(** [db_slots_by_project]: slots by project and name, later rows replacing
    earlier ones. *)
Definition index_slots (all : list Slot.t) : gmap string (gmap string Slot.t) :=
  foldl (λ m x,
    <[Slot.project_key x := <[Slot.slot_name x := x]> (default ∅ (m !! Slot.project_key x))]> m)
    ∅ all.

Fixpoint reconcile_projects (projects : list string) (d : disk)
    (local_pool_root host_pool_root : string) (by_project : gmap string (gmap string Slot.t))
    (result : slot_reconcile_result)
    : wdb (gmap string (gmap string Slot.t) * slot_reconcile_result) :=
  match projects with
  | [] => mret (by_project, result)
  | project_key :: rest =>
      let disk_slot_names := scan_disk_slots d (path_join local_pool_root project_key) in
      let db_slots := default ∅ (by_project !! project_key) in
      result ← delete_stale_slots (map_to_list db_slots) disk_slot_names result;
      result ← insert_orphaned_slots project_key (path_join host_pool_root project_key) db_slots
                 (elements disk_slot_names) result;
      reconcile_projects rest d local_pool_root host_pool_root (delete project_key by_project) result
  end.

Fixpoint reconcile_leftovers (l : list (gmap string Slot.t)) (result : slot_reconcile_result)
    : wdb slot_reconcile_result :=
  match l with
  | [] => mret result
  | db_slots :: rest =>
      result ← delete_stale_slots (map_to_list db_slots) ∅ result;
      reconcile_leftovers rest result
  end.

Definition reconcile_slots (d : disk) (project_configs : list string)
    (local_workspace host_workspace : string) : wdb slot_reconcile_result :=
  all_slots ← list_all_slots;
  r ← reconcile_projects project_configs d (path_join local_workspace "pool")
        (path_join host_workspace "pool") (index_slots all_slots) (SlotReconcileResult [] []);
  reconcile_leftovers (rows r.1) r.2.

(** *** Reconciliation of workers *)

Record worker_reconcile_result : Type := WorkerReconcileResult {
  reclaimed : list string;
  marked_stopped : list string;
  indeterminate : list string
}.

Definition reconcile_single_worker (worker : Worker) (alive : bool)
    (result : worker_reconcile_result) : wdb worker_reconcile_result :=
  let is_stopped := bool_decide (K.container_status worker = "stopped") in
  if is_stopped && negb alive then mret result
  else if alive then
    update_worker_container_status (K.worker_id worker) "running" ;;
    mret (WorkerReconcileResult (reclaimed result ++ [K.worker_id worker])
            (marked_stopped result) (indeterminate result))
  else
    update_worker_container_status (K.worker_id worker) "stopped" ;;
    unlink_worker_slot (K.worker_id worker) ;;
    mret (WorkerReconcileResult (reclaimed result)
            (marked_stopped result ++ [K.worker_id worker]) (indeterminate result)).

Fixpoint reconcile_each (is_container_alive : string → result bool string) (l : list Worker)
    (result : worker_reconcile_result) : wdb worker_reconcile_result :=
  match l with
  | [] => mret result
  | worker :: rest =>
      match is_container_alive (K.container_id worker) with
      | Ok alive =>
          result ← reconcile_single_worker worker alive result;
          reconcile_each is_container_alive rest result
      | Err _ =>
          reconcile_each is_container_alive rest
            (WorkerReconcileResult (reclaimed result) (marked_stopped result)
               (indeterminate result ++ [K.worker_id worker]))
      end
  end.

Definition reconcile_workers (is_container_alive : string → result bool string)
    : wdb worker_reconcile_result :=
  all_workers ← list_all_workers;
  reconcile_each is_container_alive all_workers (WorkerReconcileResult [] [] []).

Definition cleanup_stale_workers (ttl_days : Z) : wdb (list string) :=
  n ← tick;
  statement (λ s,
    let stale := λ (i : string) w,
      bool_decide (K.container_status w = "stopped") && older_than n ttl_days (K.updated_at w) in
    Ok ((map_to_list (filter (λ kv, stale kv.1 kv.2 = true) (WorkflowTables.worker s))).*1,
        delete_workers stale s)).
End WorkerRepo.
