(* ===== verification/WorkflowInvariant.v ===== *)
(** * The workflow database's invariants

    Every operation of [WorkflowRepo] and [WorkerRepo], whatever its outcome and
    whenever the database fails, keeps the schema's constraints, and no operation
    touches a workflow that is done or cancelled. *)

From S2P Require Import Prelude RustStd Model Env WorkflowDb WorkflowRepo WorkerRepo.
From Stdlib Require Import Lia.
Local Open Scope stdpp_scope.

(** Looking up in a filtered table. *)
Lemma filter_Forall {K V} `{Countable K} (P : K * V → Prop) `{!∀ x, Decision (P x)}
    (Q : K → V → Prop) (m : gmap K V) :
  map_Forall Q m → map_Forall Q (filter P m).
Proof. intros Hm k v [Hk _]%map_lookup_filter_Some. by apply Hm. Qed.

Section Invariant.
Context {HE : Env}.
(** Finished workflows whose rows are watched. *)
Context (F : gmap string W.t) (HF : map_Forall (λ _ r, active r = false) F).

Definition winv (s : wtables) : Prop := wwf s ∧ F ⊆ WorkflowTables.workflow s.

Lemma winv_set_event x s : winv s → winv (WorkflowTables.set_event x s).
Proof. intros [[H1 H2 H3 H4 H5] H]. split; [by split|done]. Qed.
Lemma winv_set_comments x s : winv s → winv (WorkflowTables.set_comments x s).
Proof. intros [[H1 H2 H3 H4 H5] H]. split; [by split|done]. Qed.
Lemma winv_set_intent x s :
  map_Forall (λ i r, IntentRow.id r = i) x → winv s → winv (WorkflowTables.set_intent x s).
Proof.
  intros Hx [[(K1 & K2 & K3 & K4) H2 H3 H4 H5] H]. split; [|done].
  split; [|done..]. by split_and!.
Qed.
Lemma winv_set_history x s :
  map_Forall (λ _ r, HistoryRow.workflow_id r ∈ dom (WorkflowTables.workflow s)) x →
  winv s → winv (WorkflowTables.set_history x s).
Proof. intros Hx [[H1 H2 H3 H4 H5] H]. split; [by split|done]. Qed.

Lemma intents_keys s : winv s → map_Forall (λ i r, IntentRow.id r = i) (WorkflowTables.workflow_intent s).
Proof. intros [[(_ & H & _) _ _ _ _] _]. exact H. Qed.

(** Updates of the active workflows of a ticket. *)
Lemma winv_update_active t (f : W.t → W.t) s :
  (∀ r, W.id (f r) = W.id r) → winv s →
  winv (WorkflowTables.set_workflow
    (update_where (active_for t) f (WorkflowTables.workflow s)) s).
Proof.
  intros Hf [[(K1 & K2 & K3 & K4) H2 H3 H4 H5] H]. split.
  - split; [|done| |done..].
    + split_and!; [|done..]. apply update_where_Forall; [|done]. intros k v. by rewrite Hf.
    + unfold history_ok in *. simpl. by rewrite dom_update_where.
  - simpl. apply map_subseteq_spec. intros i r Hr. rewrite lookup_update_where.
    assert (active_for t r = false) as Ha.
    { unfold active_for. rewrite (HF i r Hr). apply andb_false_r. }
    rewrite (lookup_weaken _ _ _ _ Hr H). simpl. by rewrite Ha.
Qed.

Lemma winv_insert_workflow i r m s :
  insert_row i r (WorkflowTables.workflow s) = Ok m → W.id r = i →
  winv s → winv (WorkflowTables.set_workflow m s).
Proof.
  intros [Hn ->]%insert_row_Ok Hi [[(K1 & K2 & K3 & K4) H2 H3 H4 H5] H]. split.
  - split; [|done| |done..].
    + split_and!; [|done..]. by apply map_Forall_insert_2.
    + unfold history_ok in *. simpl. intros k x Hx.
      specialize (H3 k x Hx). simpl in H3. rewrite dom_insert. set_solver.
  - simpl. etrans; [exact H|]. by apply insert_subseteq.
Qed.

(** *** Workers and slots *)

Lemma winv_worker_table m s :
  map_Forall (λ i r, K.worker_id r = i ∧ (K.runtime r = "container" ∨ K.runtime r = "local")) m →
  dom (WorkflowTables.worker s) ⊆ dom m → winv s → winv (WorkflowTables.set_worker m s).
Proof.
  intros Hm Hd [[(K1 & K2 & K3 & K4) H2 H3 H4 H5] H]. split; [|done]. split.
  - split_and!; [done..|]. intros i w Hw. by apply Hm.
  - intros k x Hx. destruct (H2 k x Hx) as [Ha Hb]. split; [by apply Hd|done].
  - done.
  - done.
  - intros i w Hw. by apply (Hm i).
Qed.

Lemma worker_rows s : winv s →
  map_Forall (λ i r, K.worker_id r = i ∧ (K.runtime r = "container" ∨ K.runtime r = "local"))
    (WorkflowTables.worker s).
Proof.
  intros [[(_ & _ & _ & K4) _ _ _ H5] _] i w Hw. split; [by apply K4|by apply (H5 i)].
Qed.

Lemma winv_update_worker i (f : K.t string → K.t string) s :
  (∀ w, K.worker_id (f w) = K.worker_id w ∧ K.runtime (f w) = K.runtime w) →
  winv s → winv (update_worker i f s).
Proof.
  intros Hf H. apply winv_worker_table; [| |done].
  - intros j w. rewrite lookup_alter_Some. intros [(<- & w' & Hw & ->)|[_ Hw]].
    + destruct (Hf w') as [-> ->]. by apply (worker_rows s).
    + by apply (worker_rows s).
  - by rewrite dom_alter.
Qed.

Lemma winv_delete_workers P s : winv s → winv (delete_workers P s).
Proof.
  intros [[(K1 & K2 & K3 & K4) H2 H3 H4 H5] H]. split; [|done]. split.
  - split_and!; [done..|]. by apply filter_Forall.
  - intros k x [Hx Hd]%map_lookup_filter_Some. simpl in *. split; [done|]. by apply (H2 k x).
  - done.
  - done.
  - unfold runtimes_ok in *. simpl. by apply filter_Forall.
Qed.

Lemma winv_set_links x s :
  map_Forall (λ (k : string * string) _,
    k.1 ∈ dom (WorkflowTables.worker s) ∧ k.2 ∈ dom (WorkflowTables.slot s)) x →
  winv s → winv (WorkflowTables.set_worker_slot x s).
Proof. intros Hx [[H1 H2 H3 H4 H5] H]. split; [by split|done]. Qed.

Lemma links s : winv s → map_Forall (λ (k : string * string) _,
    k.1 ∈ dom (WorkflowTables.worker s) ∧ k.2 ∈ dom (WorkflowTables.slot s))
    (WorkflowTables.worker_slot s).
Proof. intros [[_ H _ _ _] _]. exact H. Qed.

(** *** The operations *)

Ltac winv_statement :=
  apply preserves_statement; intros s ? ? Hs ?; repeat case_match; simplify_eq; try done.

Lemma winv_update_active_op t f :
  (∀ r, W.id (f r) = W.id r) → preserves (on_tables winv) (update_active t f).
Proof. intros Hf. apply preserves_update_stmt. intros s. by apply winv_update_active. Qed.

Lemma winv_increment_cycles t : preserves (on_tables winv) (increment_implement_cycles t).
Proof. winv_statement. by apply winv_update_active. Qed.

Lemma winv_create_workflow t st : preserves (on_tables winv) (create_workflow t st).
Proof.
  unfold create_workflow. do 2 (apply preserves_bind; [eauto with preserves|intros ?]).
  apply preserves_bind; [|eauto with preserves]. winv_statement.
  by eapply winv_insert_workflow.
Qed.

Lemma winv_create_lifecycle_event t a b : preserves (on_tables winv) (create_lifecycle_event t a b).
Proof.
  unfold create_lifecycle_event. do 2 (apply preserves_bind; [eauto with preserves|intros ?]).
  winv_statement. by apply winv_set_event.
Qed.
Lemma winv_delete_workflow_event i : preserves (on_tables winv) (delete_workflow_event i).
Proof. apply preserves_update_stmt. intros s. apply winv_set_event. Qed.
Lemma winv_delete_workflow_events_for_ticket t :
  preserves (on_tables winv) (delete_workflow_events_for_ticket t).
Proof. apply preserves_update_stmt. intros s. apply winv_set_event. Qed.
Lemma winv_increment_attempts i : preserves (on_tables winv) (increment_workflow_event_attempts i).
Proof. winv_statement. by apply winv_set_event. Qed.

Lemma winv_insert_history i w e c : preserves (on_tables winv) (insert_history i w e c).
Proof.
  unfold insert_history. winv_statement.
  match goal with H : insert_row _ _ _ = Ok _ |- _ => apply insert_row_Ok in H as [_ ->] end.
  apply winv_set_history; [|done]. apply map_Forall_insert_2; [done|].
  by destruct Hs as [[_ _ ? _ _] _].
Qed.
Lemma winv_insert_workflow_event w e : preserves (on_tables winv) (insert_workflow_event w e).
Proof.
  unfold insert_workflow_event. do 2 (apply preserves_bind; [eauto with preserves|intros ?]).
  apply winv_insert_history.
Qed.
Lemma winv_insert_workflow_event_at w e c :
  preserves (on_tables winv) (insert_workflow_event_at w e c).
Proof.
  unfold insert_workflow_event_at. apply preserves_bind; [eauto with preserves|intros ?].
  apply winv_insert_history.
Qed.

Lemma winv_create_intent t st : preserves (on_tables winv) (create_intent t st).
Proof.
  unfold create_intent. do 2 (apply preserves_bind; [eauto with preserves|intros ?]).
  apply preserves_bind; [|eauto with preserves]. winv_statement.
  match goal with H : insert_row _ _ _ = Ok _ |- _ => apply insert_row_Ok in H as [_ ->] end.
  apply winv_set_intent; [|done]. apply map_Forall_insert_2; [done|by apply intents_keys].
Qed.
Lemma winv_delete_intent i : preserves (on_tables winv) (delete_intent i).
Proof.
  apply preserves_update_stmt. intros s Hs. apply winv_set_intent; [|done].
  by apply map_Forall_delete, intents_keys.
Qed.
Lemma winv_delete_intents_for_ticket t : preserves (on_tables winv) (delete_intents_for_ticket t).
Proof.
  apply preserves_update_stmt. intros s Hs. apply winv_set_intent; [|done].
  by apply filter_Forall, intents_keys.
Qed.

Lemma winv_insert_workflow_comments t cs : preserves (on_tables winv) (insert_workflow_comments t cs).
Proof.
  apply preserves_for_each. intros c. apply preserves_bind; [eauto with preserves|intros now].
  apply preserves_update_stmt. intros s Hs. case_match; [done|]. by apply winv_set_comments.
Qed.
Lemma winv_mark_feedback_created t cs : preserves (on_tables winv) (mark_feedback_created t cs).
Proof.
  apply preserves_for_each. intros c. apply preserves_update_stmt. intros s.
  apply winv_set_comments.
Qed.

(** *** Worker operations *)

Lemma runtime_text (r : WorkerRuntime) :
  WorkerRuntime.as_str r = "container" ∨ WorkerRuntime.as_str r = "local".
Proof. destruct r; auto. Qed.

Lemma winv_insert_worker w : preserves (on_tables winv) (insert_worker w).
Proof.
  unfold insert_worker. winv_statement.
  match goal with H : insert_row _ _ _ = Ok _ |- _ => apply insert_row_Ok in H as [_ ->] end.
  apply winv_worker_table; [| |done].
  - apply map_Forall_insert_2; [|by apply worker_rows]. split; [done|apply runtime_text].
  - rewrite dom_insert. set_solver.
Qed.

Lemma winv_update_container i st : preserves (on_tables winv) (update_worker_container_status i st).
Proof.
  unfold update_worker_container_status. apply preserves_bind; [eauto with preserves|intros now].
  apply preserves_update_stmt. intros s. by apply winv_update_worker.
Qed.
Lemma winv_finalize i c : preserves (on_tables winv) (finalize_worker_launch i c).
Proof.
  unfold finalize_worker_launch. apply preserves_bind; [eauto with preserves|intros now].
  apply preserves_bind; [|intros []; eauto with preserves].
  winv_statement. by apply winv_update_worker.
Qed.
Lemma winv_delete_worker i : preserves (on_tables winv) (delete_worker i).
Proof. unfold delete_worker. winv_statement; by apply winv_delete_workers. Qed.
Lemma winv_update_agent i st : preserves (on_tables winv) (update_worker_agent_status i st).
Proof.
  unfold update_worker_agent_status. apply preserves_bind; [eauto with preserves|intros now].
  apply preserves_update_stmt. intros s. by apply winv_update_worker.
Qed.
Lemma winv_redispatch i : preserves (on_tables winv) (increment_idle_redispatch_count i).
Proof.
  unfold increment_idle_redispatch_count. apply preserves_bind; [eauto with preserves|intros now].
  apply preserves_bind; [|intros _]; winv_statement. by apply winv_update_worker.
Qed.

Lemma winv_insert_slot x : preserves (on_tables winv) (insert_slot x).
Proof.
  unfold insert_slot. winv_statement.
  match goal with H : insert_row _ _ _ = Ok _ |- _ => apply insert_row_Ok in H as [_ ->] end.
  match goal with H : existsb _ _ = false |- _ => rename H into Hex end.
  destruct Hs as [[(K1 & K2 & K3 & K4) H2 H3 H4 H5] HFs].
  split; [|done]. split; [| |done| |done].
  - split_and!; [done|done| |done]. by apply map_Forall_insert_2.
  - intros k v Hk. destruct (H2 k v Hk). simpl. rewrite dom_insert. set_solver.
  - assert (∀ j b, WorkflowTables.slot s !! j = Some b →
      Slot.project_key b = Slot.project_key x → Slot.slot_name b ≠ Slot.slot_name x) as Hne.
    { intros j b Hb Hp Hn. assert (existsb (λ y, bool_decide (Slot.project_key y = Slot.project_key x)
        && bool_decide (Slot.slot_name y = Slot.slot_name x)) (rows (WorkflowTables.slot s)) = true) as Ht;
        [|congruence].
      apply existsb_exists. exists b. split; [apply list_elem_of_In, elem_of_rows; eauto|].
      by rewrite !bool_decide_eq_true_2. }
    intros i j a b Ha Hb Hp Hn. simpl in *.
    apply lookup_insert_Some in Ha as [[<- <-]|[Hi Ha]];
      apply lookup_insert_Some in Hb as [[<- <-]|[Hj Hb]]; [done| | |by eapply H4].
    + by destruct (Hne j b Hb).
    + by destruct (Hne i a Ha).
Qed.

Lemma winv_delete_slot i : preserves (on_tables winv) (delete_slot i).
Proof.
  apply preserves_update_stmt. intros s [[(K1 & K2 & K3 & K4) H2 H3 H4 H5] H].
  split; [|done]. split; [| |done| |done].
  - split_and!; [done|done| |done]. by apply map_Forall_delete.
  - intros k v [Hk Hne]%map_lookup_filter_Some. simpl in *. destruct (H2 k v Hk).
    rewrite dom_delete. set_solver.
  - intros i1 j a b Ha Hb. simpl in *.
    apply lookup_delete_Some in Ha as [_ Ha]. apply lookup_delete_Some in Hb as [_ Hb].
    by apply H4.
Qed.

Lemma winv_link i x : preserves (on_tables winv) (link_worker_slot i x).
Proof.
  unfold link_worker_slot. apply preserves_bind; [eauto with preserves|intros now].
  winv_statement.
  match goal with H : insert_row _ _ _ = Ok _ |- _ => apply insert_row_Ok in H as [_ ->] end. apply winv_set_links; [|done].
  apply map_Forall_insert_2; [done|by apply links].
Qed.
Lemma winv_unlink i : preserves (on_tables winv) (unlink_worker_slot i).
Proof.
  apply preserves_update_stmt. intros s Hs. apply winv_set_links; [|done].
  by apply filter_Forall, links.
Qed.
Lemma winv_delete_workers_by_slot_id i : preserves (on_tables winv) (delete_workers_by_slot_id i).
Proof. unfold delete_workers_by_slot_id. winv_statement. by apply winv_delete_workers. Qed.
Lemma winv_cleanup d : preserves (on_tables winv) (cleanup_stale_workers d).
Proof.
  unfold cleanup_stale_workers. apply preserves_bind; [eauto with preserves|intros n].
  winv_statement. by apply winv_delete_workers.
Qed.

Lemma winv_delete_stale l d r : preserves (on_tables winv) (delete_stale_slots l d r).
Proof.
  revert r. induction l as [|[i x] l IH]; intros r; simpl; [eauto with preserves|].
  case_decide; [done|].
  apply preserves_bind; [apply winv_delete_workers_by_slot_id|intros _].
  apply preserves_bind; [apply winv_delete_slot|intros _]. apply IH.
Qed.
Lemma winv_insert_orphaned p dir m l r :
  preserves (on_tables winv) (insert_orphaned_slots p dir m l r).
Proof.
  revert r. induction l as [|i l IH]; intros r; simpl; [eauto with preserves|].
  case_decide; [done|]. do 2 (apply preserves_bind; [eauto with preserves|intros ?]).
  apply preserves_bind; [apply winv_insert_slot|intros _]. apply IH.
Qed.
Lemma winv_reconcile_slots d ps a b : preserves (on_tables winv) (reconcile_slots d ps a b).
Proof.
  unfold reconcile_slots. apply preserves_bind; [eauto with preserves|intros all].
  apply preserves_bind; [|intros [m r]].
  - generalize (index_slots all) as m. generalize (SlotReconcileResult [] []) as r.
    induction ps as [|p ps IH]; intros r m; simpl; [eauto with preserves|].
    apply preserves_bind; [apply winv_delete_stale|intros r1].
    apply preserves_bind; [apply winv_insert_orphaned|intros r2]. apply IH.
  - simpl. revert r. induction (rows m) as [|x l IH]; intros r; simpl; [eauto with preserves|].
    apply preserves_bind; [apply winv_delete_stale|intros r1]. apply IH.
Qed.
Lemma winv_reconcile_workers f : preserves (on_tables winv) (reconcile_workers f).
Proof.
  unfold reconcile_workers, list_all_workers, select_workers.
  apply preserves_bind; [apply preserves_bind; eauto with preserves|intros all].
  generalize (WorkerReconcileResult [] [] []) as r.
  induction all as [|w all IH]; intros r; simpl; [eauto with preserves|].
  case_match; [|apply IH]. apply preserves_bind; [|intros r1; apply IH].
  unfold reconcile_single_worker. case_match; [eauto with preserves|].
  case_match; (apply preserves_bind; [apply winv_update_container|intros _]); [eauto with preserves|].
  apply preserves_bind; [apply winv_unlink|eauto with preserves].
Qed.
End Invariant.
