(* ===== verification/WorkflowProps.v ===== *)
(** * What the workflow and worker operations do *)

From S2P Require Import Prelude RustStd Model Env WorkflowDb WorkflowRepo WorkerRepo.
From S2P Require Import WorkflowInvariant.
From Stdlib Require Import Lia.
Local Open Scope stdpp_scope.

(** ** All operations *)

Module WorkflowOp.
Inductive t : Type :=
| CreateLifecycleEvent (ticket_id : string) (old new : LifecycleStatus)
| DeleteWorkflowEvent (id : string)
| DeleteWorkflowEventsForTicket (ticket_id : string)
| IncrementAttempts (id : string)
| CreateWorkflow (ticket_id : string) (status : LifecycleStatus)
| UpdateStatus (ticket_id : string) (status : LifecycleStatus)
| SetStalled (ticket_id reason : string)
| ClearStall (ticket_id : string)
| IncrementCycles (ticket_id : string)
| ResetCycles (ticket_id : string)
| SetWorkerId (ticket_id worker_id : string)
| SetNoverify (ticket_id : string) (b : bool)
| SetFeedbackMode (ticket_id mode : string)
| UpdateCondition (ticket_id : string) (c : WorkflowCondition) (value : string)
| InitializeConditions (ticket_id : string)
| InsertEvent (workflow_id : string) (e : WorkflowEvent)
| InsertEventAt (workflow_id : string) (e : WorkflowEvent) (created_at : string)
| CreateIntent (ticket_id : string) (status : LifecycleStatus)
| DeleteIntent (id : string)
| DeleteIntentsForTicket (ticket_id : string)
| InsertComments (ticket_id : string) (ids : list string)
| MarkFeedbackCreated (ticket_id : string) (ids : list string)
| InsertWorker (w : Worker)
| UpdateContainerStatus (worker_id status : string)
| FinalizeLaunch (worker_id container_id : string)
| DeleteWorker (worker_id : string)
| UpdateAgentStatus (worker_id : string) (s : AgentStatus)
| IncrementRedispatch (worker_id : string)
| InsertSlot (x : Slot.t)
| DeleteSlot (id : string)
| Link (worker_id slot_id : string)
| Unlink (worker_id : string)
| DeleteWorkersBySlot (slot_id : string)
| ReconcileSlots (d : disk) (projects : list string) (local host : string)
| ReconcileWorkers (alive : string → result bool string)
| CleanupStale (days : Z).

Definition exec `{HE : Env} (o : t) : SE (pool wtables) False unit :=
  match o with
  | CreateLifecycleEvent t a b => ignore_err (create_lifecycle_event t a b)
  | DeleteWorkflowEvent i => ignore_err (delete_workflow_event i)
  | DeleteWorkflowEventsForTicket t => ignore_err (delete_workflow_events_for_ticket t)
  | IncrementAttempts i => ignore_err (increment_workflow_event_attempts i)
  | CreateWorkflow t st => ignore_err (create_workflow t st)
  | UpdateStatus t st => ignore_err (update_workflow_status t st)
  | SetStalled t r => ignore_err (set_workflow_stalled t r)
  | ClearStall t => ignore_err (clear_workflow_stall t)
  | IncrementCycles t => ignore_err (increment_implement_cycles t)
  | ResetCycles t => ignore_err (reset_implement_cycles t)
  | SetWorkerId t w => ignore_err (set_workflow_worker_id t w)
  | SetNoverify t b => ignore_err (set_workflow_noverify t b)
  | SetFeedbackMode t m => ignore_err (set_workflow_feedback_mode t m)
  | UpdateCondition t c v => ignore_err (update_workflow_condition t c v)
  | InitializeConditions t => ignore_err (initialize_workflow_conditions t)
  | InsertEvent w e => ignore_err (insert_workflow_event w e)
  | InsertEventAt w e c => ignore_err (insert_workflow_event_at w e c)
  | CreateIntent t st => ignore_err (create_intent t st)
  | DeleteIntent i => ignore_err (delete_intent i)
  | DeleteIntentsForTicket t => ignore_err (delete_intents_for_ticket t)
  | InsertComments t cs => ignore_err (insert_workflow_comments t cs)
  | MarkFeedbackCreated t cs => ignore_err (mark_feedback_created t cs)
  | InsertWorker w => ignore_err (insert_worker w)
  | UpdateContainerStatus i st => ignore_err (update_worker_container_status i st)
  | FinalizeLaunch i c => ignore_err (finalize_worker_launch i c)
  | DeleteWorker i => ignore_err (delete_worker i)
  | UpdateAgentStatus i st => ignore_err (update_worker_agent_status i st)
  | IncrementRedispatch i => ignore_err (increment_idle_redispatch_count i)
  | InsertSlot x => ignore_err (insert_slot x)
  | DeleteSlot i => ignore_err (delete_slot i)
  | Link i x => ignore_err (link_worker_slot i x)
  | Unlink i => ignore_err (unlink_worker_slot i)
  | DeleteWorkersBySlot x => ignore_err (delete_workers_by_slot_id x)
  | ReconcileSlots d ps a b => ignore_err (reconcile_slots d ps a b)
  | ReconcileWorkers f => ignore_err (reconcile_workers f)
  | CleanupStale d => ignore_err (cleanup_stale_workers d)
  end.
End WorkflowOp.

Lemma winv_exec `{HE : Env} F o :
  map_Forall (λ _ r, active r = false) F → preserves (on_tables (winv F)) (WorkflowOp.exec o).
Proof.
  intros HF. destruct o; apply preserves_ignore_err.
  all: first [by apply winv_update_active_op | auto using winv_create_lifecycle_event,
    winv_delete_workflow_event, winv_delete_workflow_events_for_ticket, winv_increment_attempts,
    winv_create_workflow, winv_increment_cycles, winv_insert_workflow_event,
    winv_insert_workflow_event_at, winv_create_intent, winv_delete_intent,
    winv_delete_intents_for_ticket, winv_insert_workflow_comments, winv_mark_feedback_created,
    winv_insert_worker, winv_update_container, winv_finalize, winv_delete_worker,
    winv_update_agent, winv_redispatch, winv_insert_slot, winv_delete_slot, winv_link,
    winv_unlink, winv_delete_workers_by_slot_id, winv_reconcile_slots, winv_reconcile_workers,
    winv_cleanup | idtac].
  apply winv_update_active_op; [done|]. intros r. by destruct c.
Qed.

(** C1: After any sequence of workflow and worker operations, whatever their
    answers and whichever statements fail, the workflow database satisfies its
    schema: rows under their keys, links and history rows pointing to existing
    rows, one slot per project and name, and a known runtime for every worker. *)
Theorem workflow_db_invariant `{HE : Env} (ops : list WorkflowOp.t) (fs : list bool) (n : nat) :
  wwf (tables (for_each WorkflowOp.exec ops (Pool WorkflowTables.empty fs n)).2).
Proof.
  apply (preserves_for_each (on_tables (winv ∅))).
  - intros o. by apply winv_exec.
  - split; [exact wwf_empty|apply map_empty_subseteq].
Qed.

(** A workflow that is done or cancelled is final: no sequence of operations
    changes or removes its row. *)
Theorem finished_workflow_final `{HE : Env} s (ops : list WorkflowOp.t) fs n i r :
  wwf s → WorkflowTables.workflow s !! i = Some r → active r = false →
  WorkflowTables.workflow (tables (for_each WorkflowOp.exec ops (Pool s fs n)).2) !! i = Some r.
Proof.
  intros Hwf Hi Hr.
  assert (preserves (on_tables (winv {[ i := r ]})) (for_each WorkflowOp.exec ops)) as Hp.
  { apply preserves_for_each. intros o. apply winv_exec. by apply map_Forall_singleton. }
  destruct (Hp (Pool s fs n)) as [_ Hsub].
  - split; [done|]. by apply map_singleton_subseteq_l.
  - by apply map_singleton_subseteq_l in Hsub.
Qed.

(** ** Workflows of a ticket *)

Lemma active_terminal l r :
  active (W.set_status (LifecycleStatus.as_str l) r) = negb (LifecycleStatus.is_terminal l).
Proof. by destruct l. Qed.

Lemma head_None {A} (l : list A) : head l = None ↔ l = [].
Proof. by destruct l. Qed.
Lemma head_elem {A} (l : list A) x : head l = Some x → x ∈ l.
Proof. destruct l; intros; simplify_eq/=. by left. Qed.

Lemma active_for_true t r : active_for t r = true ↔ W.ticket_id r = t ∧ active r = true.
Proof. unfold active_for. by rewrite andb_true_iff, bool_decide_eq_true. Qed.

(** The lookup by ticket finds an active workflow whenever there is one. *)
Lemma get_workflow_by_ticket_spec s t n :
  ∃ o, get_workflow_by_ticket t (Pool s [] n) = (Ok o, Pool s [] n)
    ∧ (o = None ↔ ∀ i r, WorkflowTables.workflow s !! i = Some r → active_for t r = false)
    ∧ (∀ w, o = Some w → ∃ i r, WorkflowTables.workflow s !! i = Some r
         ∧ active_for t r = true ∧ w = row_to_workflow r).
Proof.
  unfold get_workflow_by_ticket, get_workflow_by_ticket_inner. rewrite run_select.
  eexists. split; [done|]. split.
  - rewrite fmap_None, head_None. split.
    + intros Hnil i r Hi. destruct (active_for t r) eqn:E; [|done]. exfalso.
      assert (r ∈ matching (active_for t) (WorkflowTables.workflow s)) as Hr
        by (apply elem_of_matching; eauto).
      rewrite Hnil in Hr. by apply elem_of_nil in Hr.
    + intros Hall. destruct (matching _ _) as [|r l] eqn:E; [done|exfalso].
      assert (r ∈ matching (active_for t) (WorkflowTables.workflow s)) as Hr by (rewrite E; by left).
      apply elem_of_matching in Hr as [Ha (i & Hi)]. rewrite (Hall i r Hi) in Ha. done.
  - intros w (r & Hr & ->)%fmap_Some. apply head_elem, elem_of_matching in Hr as [Ha (i & Hi)].
    by exists i, r.
Qed.

(** [update_workflow_status] gives the status to every active workflow of the
    ticket and leaves all others as they are; after a terminal status the ticket
    has no active workflow, and after any other status a ticket that had one still
    has one, with that status. *)
Theorem update_workflow_status_spec s t st n :
  ∃ s', update_workflow_status t st (Pool s [] n) = (Ok tt, Pool s' [] n)
    ∧ (∀ i r, WorkflowTables.workflow s !! i = Some r →
         WorkflowTables.workflow s' !! i =
           Some (if active_for t r then W.set_status (LifecycleStatus.as_str st) r else r))
    ∧ (LifecycleStatus.is_terminal st = true →
         get_workflow_by_ticket t (Pool s' [] n) = (Ok None, Pool s' [] n))
    ∧ (LifecycleStatus.is_terminal st = false → ∀ w p,
         get_workflow_by_ticket t (Pool s [] n) = (Ok (Some w), p) →
         ∃ w', get_workflow_by_ticket t (Pool s' [] n) = (Ok (Some w'), Pool s' [] n)
           ∧ Workflow.status w' = st ∧ Workflow.ticket_id w' = t).
Proof.
  set (s' := WorkflowTables.set_workflow (update_where (active_for t)
    (W.set_status (LifecycleStatus.as_str st)) (WorkflowTables.workflow s)) s).
  assert (∀ i r, WorkflowTables.workflow s' !! i = Some r ↔ ∃ r0, WorkflowTables.workflow s !! i = Some r0
    ∧ r = if active_for t r0 then W.set_status (LifecycleStatus.as_str st) r0 else r0) as Hrow.
  { intros i r. unfold s'. simpl. rewrite lookup_update_where, fmap_Some. naive_solver. }
  assert (∀ r0, active_for t r0 = true →
    active_for t (W.set_status (LifecycleStatus.as_str st) r0) = negb (LifecycleStatus.is_terminal st)) as Hact.
  { intros r0 [Ht _]%active_for_true. unfold active_for. simpl. rewrite Ht, bool_decide_eq_true_2 by done.
    apply active_terminal. }
  exists s'. split_and!; [done| | |].
  - intros i r Hi. apply Hrow. eauto.
  - intros Hterm. destruct (get_workflow_by_ticket_spec s' t n) as (o & -> & [_ Hnone] & _).
    rewrite Hnone; [done|]. intros i r (r0 & _ & ->)%Hrow.
    destruct (active_for t r0) eqn:E; [by rewrite Hact, Hterm|done].
  - intros Hterm w p Hget. destruct (get_workflow_by_ticket_spec s t n) as (o & Ho & _ & Hsome).
    rewrite Ho in Hget. injection Hget as -> _.
    destruct (Hsome w eq_refl) as (i & r & Hi & Ha & _).
    destruct (get_workflow_by_ticket_spec s' t n) as (o' & -> & [Hnone _] & Hsome').
    destruct o' as [w'|].
    + exists w'. split; [done|]. destruct (Hsome' w' eq_refl) as (j & r' & (r0 & _ & ->)%Hrow & Ha' & ->).
      destruct (active_for t r0) eqn:E; [|congruence]. simpl.
      rewrite LifecycleStatus.parse_as_str. by apply active_for_true in E as [? _].
    + exfalso. assert (active_for t (W.set_status (LifecycleStatus.as_str st) r) = false) as Hf.
      { apply (Hnone eq_refl i). apply Hrow. exists r. by rewrite Ha. }
      rewrite Hact, Hterm in Hf by done. done.
Qed.

(** [create_workflow] does not require that the ticket has no workflow: with a
    fresh identifier it succeeds and adds a second active workflow beside one that
    is already there. *)
Theorem create_workflow_adds `{HE : Env} s t st n :
  WorkflowTables.workflow s !! uuid_v4 n = None →
  let row := W.fresh (uuid_v4 n) t (LifecycleStatus.as_str st) (now_rfc3339 (S n)) in
  create_workflow t st (Pool s [] n)
  = (Ok (row_to_workflow row),
     Pool (WorkflowTables.set_workflow (<[uuid_v4 n := row]> (WorkflowTables.workflow s)) s) [] (S (S n))).
Proof.
  intros Hn row. unfold create_workflow. rewrite run_bind, run_new_uuid, run_bind, run_utc_now.
  rewrite run_bind, run_statement, insert_row_fresh by done. rewrite run_ret.
  unfold row, row_to_workflow. simpl. by rewrite LifecycleStatus.parse_as_str.
Qed.

(** [increment_implement_cycles] adds one to every active workflow of the
    ticket, unless one of them is at the largest 32-bit value: then it fails with
    the numeric range code and changes nothing.  The counters stay in range. *)
Theorem increment_implement_cycles_spec s t n :
  (∀ i r, WorkflowTables.workflow s !! i = Some r → (0 <= W.implement_cycles r <= I32_MAX)%Z) →
  (∃ s', increment_implement_cycles t (Pool s [] n) = (Ok tt, Pool s' [] n)
     ∧ ∀ i r, WorkflowTables.workflow s !! i = Some r →
         let c := W.implement_cycles r in
         let c' := if active_for t r then (c + 1)%Z else c in
         WorkflowTables.workflow s' !! i = Some (W.set_cycles c' r) ∧ (0 <= c' <= I32_MAX)%Z)
  ∨ (increment_implement_cycles t (Pool s [] n)
       = (Err (Database NUMERIC_VALUE_OUT_OF_RANGE), Pool s [] n)
     ∧ ∃ i r, WorkflowTables.workflow s !! i = Some r ∧ active_for t r = true
         ∧ W.implement_cycles r = I32_MAX).
Proof.
  intros Hrange. unfold increment_implement_cycles. rewrite run_statement.
  destruct (existsb _ _) eqn:E.
  - right. split; [done|]. apply existsb_exists in E as (r & Hr%list_elem_of_In & Hmax).
    apply elem_of_matching in Hr as [Ha (i & Hi)]. apply bool_decide_eq_true in Hmax. eauto.
  - left. eexists. split; [done|]. intros i r Hi. simpl. rewrite lookup_update_where, Hi. simpl.
    pose proof (Hrange i r Hi) as Hr. destruct (active_for t r) eqn:Ha.
    + split; [done|]. assert (W.implement_cycles r ≠ I32_MAX); [|lia].
      intros Hmax. assert (existsb (λ r, bool_decide (W.implement_cycles r = I32_MAX))
        (matching (active_for t) (WorkflowTables.workflow s)) = true); [|congruence].
      apply existsb_exists. exists r. split; [|by apply bool_decide_eq_true].
      apply list_elem_of_In, elem_of_matching. eauto.
    + split; [by destruct r|done].
Qed.

(** The total reported with a page of workflows is the number of matching
    workflows when the page has a row, and zero when the offset is past the end:
    it is read off the first row of the page. *)
Theorem list_workflows_paginated_total s status limit offset n :
  (0 <= limit)%Z → (0 <= offset)%Z →
  ∃ page total, list_workflows_paginated (Some limit) offset status (Pool s [] n)
      = (Ok (page, total), Pool s [] n)
    ∧ let count := length (matching (status_filter status) (WorkflowTables.workflow s)) in
      length page = Z.to_nat limit `min` (count - Z.to_nat offset)
      ∧ total = if decide (page = []) then 0%Z else Z.of_nat count.
Proof.
  intros Hl Ho. unfold list_workflows_paginated. rewrite run_bind, run_statement. cbv zeta.
  rewrite !decide_False by lia. rewrite run_ret.
  set (all := order_by by_created (matching (status_filter status) (WorkflowTables.workflow s))).
  eexists _, _. split; [done|]. cbv zeta.
  replace (length (matching (status_filter status) (WorkflowTables.workflow s))) with (length all)
    by apply length_order_by.
  split.
  - by rewrite length_fmap, length_take, length_drop, length_fmap.
  - rewrite <-fmap_drop, <-fmap_take. destruct (take _ _); [done|]. by rewrite decide_False.
Qed.

(** ** Witnesses *)

(** A workflow being implemented for "ur-1", and the same ticket's cancelled one. *)
Definition sample_row (id status : string) (cycles : Z) : W.t :=
  W.set_cycles cycles (W.fresh id "ur-1" status "2024").
Definition sample_workflows (cycles : Z) : wtables :=
  WorkflowTables.set_workflow
    (<["a" := sample_row "a" "implementing" cycles]> {[ "b" := sample_row "b" "cancelled" 0 ]})
    WorkflowTables.empty.

Lemma sample_workflows_wwf c : wwf (sample_workflows c).
Proof.
  destruct wwf_empty as [[_ Hk] Hl Hh Hs Hr]. split; [|exact Hl|done|exact Hs|exact Hr].
  split; [|exact Hk]. apply map_Forall_insert_2; [done|]. by apply map_Forall_singleton.
Qed.

Lemma finished_workflow_final_witness :
  WorkflowTables.workflow (tables (for_each (@WorkflowOp.exec test_env)
    [WorkflowOp.UpdateStatus "ur-1" LifecycleStatus.Done; WorkflowOp.SetStalled "ur-1" "stuck"]
    (Pool (sample_workflows 0) [] 0)).2) !! "b" = Some (sample_row "b" "cancelled" 0).
Proof.
  apply (@finished_workflow_final test_env (sample_workflows 0) _ [] 0 "b").
  - apply sample_workflows_wwf.
  - reflexivity.
  - reflexivity.
Defined.

Lemma create_workflow_adds_witness :
  WorkflowTables.workflow (sample_workflows 0) !! @uuid_v4 test_env 0 = None
  ∧ ∃ w p, @create_workflow test_env "ur-1" LifecycleStatus.Implementing
      (Pool (sample_workflows 0) [] 0) = (Ok w, p)
    ∧ length (matching (active_for "ur-1") (WorkflowTables.workflow (tables p))) = 2.
Proof.
  split; [reflexivity|]. eexists _, _. split.
  - exact (@create_workflow_adds test_env (sample_workflows 0) "ur-1" LifecycleStatus.Implementing 0
      ltac:(reflexivity)).
  - vm_compute. reflexivity.
Defined.

Lemma increment_implement_cycles_spec_witness :
  ∃ s', increment_implement_cycles "ur-1" (Pool (sample_workflows 2) [] 0) = (Ok tt, Pool s' [] 0)
    ∧ WorkflowTables.workflow s' !! "a" = Some (sample_row "a" "implementing" 3)
    ∧ WorkflowTables.workflow s' !! "b" = Some (sample_row "b" "cancelled" 0).
Proof.
  destruct (increment_implement_cycles_spec (sample_workflows 2) "ur-1" 0) as [(s' & Hrun & Hs')|[Hrun _]].
  - intros i r Hi. simpl in Hi. apply lookup_insert_Some in Hi as [[_ <-]|[_ Hi]].
    + vm_compute. by split.
    + apply lookup_singleton_Some in Hi as [_ <-]. vm_compute. by split.
  - exists s'. split; [exact Hrun|]. split.
    + exact (proj1 (Hs' "a" (sample_row "a" "implementing" 2) ltac:(reflexivity))).
    + exact (proj1 (Hs' "b" (sample_row "b" "cancelled" 0) ltac:(reflexivity))).
  - vm_compute in Hrun. discriminate.
Defined.

Lemma list_workflows_paginated_total_witness :
  ∃ page total, list_workflows_paginated (Some 10%Z) 5 None (Pool (sample_workflows 0) [] 0)
      = (Ok (page, total), Pool (sample_workflows 0) [] 0)
    ∧ page = [] ∧ total = 0%Z.
Proof.
  destruct (list_workflows_paginated_total (sample_workflows 0) None 10 5 0 ltac:(lia) ltac:(lia))
    as (page & total & Hrun & Hlen & Htot).
  exists page, total. split; [exact Hrun|].
  assert (page = []) as Hp by (apply length_zero_iff_nil; rewrite Hlen; vm_compute; reflexivity).
  split; [exact Hp|]. rewrite Htot. rewrite decide_True by exact Hp. reflexivity.
Defined.
