(* ===== verification/WorkerProps.v ===== *)
(** * What the worker operations do: slots and reconciliation *)

From S2P Require Import Prelude RustStd Model Env WorkflowDb WorkflowRepo WorkerRepo.
From S2P Require Import WorkflowInvariant.
From Stdlib Require Import Lia.
Local Open Scope stdpp_scope.

(** ** Available slots *)

(** The slot is linked to a worker that is provisioning, running or stopping. *)
Definition held (s : wtables) (slot_id : string) : Prop :=
  ∃ i w, is_Some (WorkflowTables.worker_slot s !! (i, slot_id))
    ∧ WorkflowTables.worker s !! i = Some w ∧ is_active w = true.

Lemma slot_in_use_spec s x : slot_in_use s x = true ↔ held s x.
Proof.
  unfold slot_in_use, held. rewrite existsb_exists. split.
  - intros ([[i y] c] & Hin%list_elem_of_In & [Hy Hw]%andb_true_iff). simpl in *.
    apply bool_decide_eq_true in Hy as ->. apply elem_of_map_to_list in Hin.
    destruct (WorkflowTables.worker s !! i) as [w|] eqn:E; [|done]. exists i, w. by split_and!.
  - intros (i & w & [c Hc] & Hi & Hw). exists ((i, x), c). split.
    + apply list_elem_of_In. by apply elem_of_map_to_list.
    + simpl. by rewrite bool_decide_eq_true_2, Hi, Hw.
Qed.

(** [find_available_slots] lists, oldest first, exactly the project's slots
    with a numeric name that no provisioning, running or stopping worker holds. *)
Theorem find_available_slots_spec s project_key n :
  ∃ l, find_available_slots project_key (Pool s [] n) = (Ok l, Pool s [] n)
    ∧ StronglySorted by_slot_created l
    ∧ ∀ x, x ∈ l ↔ (∃ i, WorkflowTables.slot s !! i = Some x)
        ∧ Slot.project_key x = project_key ∧ all_digits (Slot.slot_name x) = true
        ∧ ¬ held s (Slot.id x).
Proof.
  unfold find_available_slots. rewrite run_select. eexists. split; [done|]. split.
  - apply order_by_sorted; unfold by_slot_created; apply _.
  - intros x. rewrite elem_of_order_by, elem_of_matching, !andb_true_iff, bool_decide_eq_true,
      negb_true_iff, <-slot_in_use_spec.
    destruct (slot_in_use s (Slot.id x)); naive_solver.
Qed.

(** ** Reconciliation of workers *)

(** A row and the worker read from it. *)
Lemma worker_from_row_fields r w :
  worker_from_row r = Ok w →
  K.worker_id w = K.worker_id r ∧ K.container_id w = K.container_id r
  ∧ K.container_status w = K.container_status r.
Proof. unfold worker_from_row. intros. case_match; by simplify_eq/=. Qed.

Lemma workers_from_rows_Ok l :
  Forall (λ r, K.runtime r = "container" ∨ K.runtime r = "local") l →
  ∃ ws, workers_from_rows l = Ok ws ∧ Forall2 (λ r w, worker_from_row r = Ok w) l ws.
Proof.
  induction 1 as [|r l Hr _ (ws & IH & Hall)]; simpl; [by exists []|].
  assert (∃ w, worker_from_row r = Ok w) as [w Hw].
  { unfold worker_from_row. destruct Hr as [-> | ->]; simpl; eauto. }
  exists (w :: ws). rewrite Hw, IH. split; [done|]. by constructor.
Qed.

(** What reconciliation does to one worker, between the tables before and after. *)
Definition reconciled (alive : string → result bool string) (s s' : wtables) (r : K.t string) : Prop :=
  let i := K.worker_id r in
  let same_links := ∀ x, WorkflowTables.worker_slot s' !! (i, x) = WorkflowTables.worker_slot s !! (i, x) in
  match alive (K.container_id r) with
  | Err _ => WorkflowTables.worker s' !! i = Some r ∧ same_links
  | Ok true =>
      (∃ now, WorkflowTables.worker s' !! i = Some (K.set_container (K.container_id r) "running" now r))
      ∧ same_links
  | Ok false =>
      if decide (K.container_status r = "stopped")
      then WorkflowTables.worker s' !! i = Some r ∧ same_links
      else (∃ now, WorkflowTables.worker s' !! i
                     = Some (K.set_container (K.container_id r) "stopped" now r))
           ∧ ∀ x, WorkflowTables.worker_slot s' !! (i, x) = None
  end.

Section Reconcile.
Context {HE : Env} (alive : string → result bool string).

(** The tables at one worker. *)
Definition same_at (s s' : wtables) (i : string) : Prop :=
  WorkflowTables.worker s' !! i = WorkflowTables.worker s !! i
  ∧ ∀ x, WorkflowTables.worker_slot s' !! (i, x) = WorkflowTables.worker_slot s !! (i, x).

Lemma reconciled_after s s1 s2 r :
  reconciled alive s s1 r → same_at s1 s2 (K.worker_id r) → reconciled alive s s2 r.
Proof.
  intros H [Hw Hl]. revert H. unfold reconciled. cbv zeta. rewrite Hw.
  destruct (alive (K.container_id r)) as [[]|]; [|case_decide|]; setoid_rewrite Hl; done.
Qed.
Lemma reconciled_before s s1 s2 r :
  same_at s s1 (K.worker_id r) → reconciled alive s1 s2 r → reconciled alive s s2 r.
Proof.
  intros [_ Hl]. unfold reconciled. cbv zeta.
  destruct (alive (K.container_id r)) as [[]|]; [|case_decide; [|done]|];
    setoid_rewrite Hl; done.
Qed.

Definition status_update (r : K.t string) (st now : string) (s : wtables) : wtables :=
  update_worker (K.worker_id r) (λ w, K.set_container (K.container_id w) st now w) s.

Lemma status_update_at r st now s :
  WorkflowTables.worker s !! K.worker_id r = Some r →
  WorkflowTables.worker (status_update r st now s) !! K.worker_id r
    = Some (K.set_container (K.container_id r) st now r).
Proof. intros Hr. simpl. by rewrite lookup_alter_eq, Hr. Qed.

Lemma status_update_other r st now s j :
  j ≠ K.worker_id r → same_at s (status_update r st now s) j.
Proof. intros Hj. split; [|done]. simpl. by rewrite lookup_alter_ne. Qed.

(** One worker. *)
Lemma reconcile_one s r w res n b :
  WorkflowTables.worker s !! K.worker_id r = Some r → worker_from_row r = Ok w →
  alive (K.container_id r) = Ok b →
  ∃ res' s' n', reconcile_single_worker w b res (Pool s [] n) = (Ok res', Pool s' [] n')
    ∧ reconciled alive s s' r ∧ (∀ j, j ≠ K.worker_id r → same_at s s' j).
Proof.
  intros Hr Hw Hb. apply worker_from_row_fields in Hw as (Hid & Hc & Hst).
  unfold reconcile_single_worker, reconciled, update_worker_container_status.
  rewrite Hid, Hst, Hb. destruct b.
  - rewrite andb_false_r. srun. unfold update_stmt. srun.
    eexists _, (status_update r "running" (now_rfc3339 n) s), _. split; [done|].
    split; [split; [eexists; by apply status_update_at|done]|].
    intros j Hj. by apply status_update_other.
  - rewrite andb_true_r. case_bool_decide as Hs.
    + rewrite run_ret.
      eexists _, s, _. split; [done|]. split; [rewrite decide_True by done; by split|]. by split.
    + unfold unlink_worker_slot. srun. unfold update_stmt. srun.
      set (s1 := status_update r "stopped" (now_rfc3339 n) s).
      eexists _, (WorkflowTables.set_worker_slot
        (filter (λ kv, kv.1.1 ≠ K.worker_id r) (WorkflowTables.worker_slot s1)) s1), _.
      split; [done|]. split; [rewrite decide_False by done; split|].
      * eexists. by apply (status_update_at r "stopped" (now_rfc3339 n) s).
      * intros x. simpl. apply map_lookup_filter_None. right. intros c _. simpl. by intros [].
      * intros j Hj. destruct (status_update_other r "stopped" (now_rfc3339 n) s j Hj) as [H1 H2].
        split; [exact H1|]. intros x. simpl. rewrite <-H2. simpl.
        destruct (WorkflowTables.worker_slot s !! (j, x)) as [c|] eqn:E.
        -- by apply map_lookup_filter_Some.
        -- apply map_lookup_filter_None. by left.
Qed.

Lemma reconcile_each_spec (rs : list (K.t string)) ws s res n :
  Forall2 (λ r w, worker_from_row r = Ok w) rs ws →
  NoDup (K.worker_id <$> rs) →
  (∀ r, r ∈ rs → WorkflowTables.worker s !! K.worker_id r = Some r) →
  ∃ res' s' n', reconcile_each alive ws res (Pool s [] n) = (Ok res', Pool s' [] n')
    ∧ (∀ r, r ∈ rs → reconciled alive s s' r)
    ∧ (∀ j, j ∉ K.worker_id <$> rs → same_at s s' j).
Proof.
  intros Hall. revert s res n. induction Hall as [|r w rs ws Hw _ IH]; intros s res n Hnd Hrows.
  { exists res, s, n. split_and!; [done| |done]. intros r Hr. by apply elem_of_nil in Hr. }
  apply NoDup_cons in Hnd as [Hnew Hnd]. cbn [reconcile_each].
  pose proof (Hrows r ltac:(by left)) as Hr.
  pose proof (worker_from_row_fields _ _ Hw) as (_ & Hc & _). rewrite Hc.
  assert (∀ s1, (∀ j, j ≠ K.worker_id r → same_at s s1 j) → reconciled alive s s1 r →
    ∀ res1 n1, ∃ res' s' n', reconcile_each alive ws res1 (Pool s1 [] n1) = (Ok res', Pool s' [] n')
      ∧ (∀ r', r' ∈ r :: rs → reconciled alive s s' r')
      ∧ (∀ j, j ∉ K.worker_id <$> r :: rs → same_at s s' j)) as Hrest.
  { intros s1 Hother H1 res1 n1.
    assert (∀ r', r' ∈ rs → K.worker_id r' ≠ K.worker_id r) as Hne.
    { intros r' Hr' E. apply Hnew. rewrite <-E. apply list_elem_of_fmap. eauto. }
    destruct (IH s1 res1 n1 Hnd) as (res' & s' & n' & Hrun & Hdone & Hkeep).
    { intros r' Hr'. destruct (Hother (K.worker_id r') (Hne r' Hr')) as [-> _].
      apply Hrows. by right. }
    exists res', s', n'. split; [done|]. split.
    - intros r' [->|Hr']%elem_of_cons.
      + eapply reconciled_after; [exact H1|by apply Hkeep].
      + eapply reconciled_before; [by apply Hother, Hne|by apply Hdone].
    - intros j [Hj1 Hj2]%not_elem_of_cons. destruct (Hother j Hj1) as [E1 E2].
      destruct (Hkeep j Hj2) as [E3 E4]. split; [by rewrite E3|]. intros x. by rewrite E4. }
  destruct (alive (K.container_id r)) as [b|e] eqn:Hb.
  - destruct (reconcile_one s r w res n b Hr Hw Hb) as (res1 & s1 & n1 & Hrun & H1 & Hother).
    rewrite run_bind, Hrun. by apply Hrest.
  - apply Hrest; [done|]. unfold reconciled. rewrite Hb. by split.
Qed.
End Reconcile.

(** [reconcile_workers] goes through every worker and succeeds: a worker whose
    container is alive ends running, one that is not stopped and whose container
    is dead ends stopped without its slot, and a stopped worker with a dead
    container, or any worker whose probe failed, is left exactly as it was. *)
Theorem reconcile_workers_spec `{HE : Env} s alive n :
  wwf s →
  ∃ res s' n', reconcile_workers alive (Pool s [] n) = (Ok res, Pool s' [] n')
    ∧ ∀ i r, WorkflowTables.worker s !! i = Some r → reconciled alive s s' r.
Proof.
  intros Hwf. unfold reconcile_workers, list_all_workers, select_workers.
  rewrite run_bind, run_bind, run_select.
  set (rs := order_by by_worker_created (matching (λ _, true) (WorkflowTables.worker s))).
  assert (∀ r, r ∈ rs ↔ ∃ i, WorkflowTables.worker s !! i = Some r) as Hmem.
  { intros r. unfold rs. rewrite elem_of_order_by, elem_of_matching. naive_solver. }
  destruct Hwf as [(_ & _ & _ & Hk) _ _ _ Hrt].
  destruct (workers_from_rows_Ok rs) as (ws & Hws & Hall).
  { apply Forall_forall. intros r (i & Hi)%Hmem. by apply (Hrt i). }
  rewrite run_of_result, Hws.
  assert (NoDup (K.worker_id <$> rs)) as Hnd.
  { unfold rs. rewrite (order_by_perm by_worker_created). unfold matching.
    assert (K.worker_id <$> filter (λ v, true = true) (rows (WorkflowTables.worker s))
      = (map_to_list (WorkflowTables.worker s)).*1) as ->; [|apply NoDup_fst_map_to_list].
    assert (∀ l : list (K.t string), filter (λ _, true = true) l = l) as ->
      by (induction l as [|y l IH]; [done|]; rewrite filter_cons, decide_True by done; by f_equal).
    unfold rows. rewrite <-list_fmap_compose. apply list_fmap_ext. intros k [i r] Hi.
    apply list_elem_of_lookup_2, elem_of_map_to_list in Hi. simpl. by apply Hk. }
  destruct (reconcile_each_spec alive rs ws s (WorkerReconcileResult [] [] []) n Hall Hnd)
    as (res & s' & n' & Hrun & Hdone & _).
  { intros r (i & Hi)%Hmem. by rewrite (Hk i r Hi). }
  exists res, s', n'. split; [done|]. intros i r Hi. apply Hdone, Hmem. eauto.
Qed.

(** ** The slot of a reclaimed worker *)

Definition sample_worker (status : string) : K.t string :=
  K.mk "w1" "p1" "ur" "c1" "secret" "code" "claude" status "idle" (Some "/pool/ur/0")
    "2024" "2024" 0 None "container".
(** One slot, and a worker marked stopped: its link is gone. *)
Definition stopped_tables : wtables :=
  WorkflowTables.set_worker {[ "w1" := sample_worker "stopped" ]}
    (WorkflowTables.set_slot {[ "s0" := Slot.mk "s0" "ur" "0" "/pool/ur/0" "2024" "2024" ]}
      WorkflowTables.empty).

(** Reclaiming a stopped worker whose container turns out to be alive does not
    give it back its slot: the worker is running in the slot's directory and the
    slot is still offered to the next launch. *)
Theorem reclaimed_slot_still_available `{HE : Env} :
  ∃ res s' n' x, reconcile_workers (λ _, Ok true) (Pool stopped_tables [] 0) = (Ok res, Pool s' [] n')
    ∧ reclaimed res = ["w1"]
    ∧ (∃ w, WorkflowTables.worker s' !! "w1" = Some w ∧ K.container_status w = "running"
         ∧ K.workspace_path w = Some (Slot.host_path x))
    ∧ find_available_slots "ur" (Pool s' [] n') = (Ok [x], Pool s' [] n').
Proof.
  exists (WorkerReconcileResult ["w1"] [] []).
  exists (WorkflowTables.set_worker
    {[ "w1" := K.set_container "c1" "running" (now_rfc3339 0) (sample_worker "stopped") ]} stopped_tables).
  exists 1, (Slot.mk "s0" "ur" "0" "/pool/ur/0" "2024" "2024").
  split; [vm_compute; reflexivity|]. split; [reflexivity|]. split; [|vm_compute; reflexivity].
  eexists. split; [vm_compute; reflexivity|]. split; reflexivity.
Qed.

(** ** Witnesses *)

Lemma stopped_wwf : wwf stopped_tables.
Proof.
  split.
  - split_and!; [done|done|by apply map_Forall_singleton|by apply map_Forall_singleton].
  - done.
  - done.
  - intros i j a b. simpl. rewrite !lookup_singleton_Some. naive_solver.
  - unfold runtimes_ok. simpl. apply map_Forall_singleton. by left.
Qed.

Lemma reconcile_workers_spec_witness :
  ∃ res s' n', @reconcile_workers test_env (λ _, Ok true) (Pool stopped_tables [] 0)
      = (Ok res, Pool s' [] n')
    ∧ ∀ i r, WorkflowTables.worker stopped_tables !! i = Some r →
        reconciled (λ _, Ok true) stopped_tables s' r.
Proof. exact (@reconcile_workers_spec test_env stopped_tables (λ _, Ok true) 0 stopped_wwf). Defined.
