(* ===== verification/Context.v ===== *)
(** * The context of a workflow handler

    [WorkflowContext] of [server/src/workflow/mod.rs]: the two databases, the
    sending end of the coordinator's channel, the server configuration, and the
    world outside (the builder daemon, the workers' daemons, the file system),
    whose state [H] is a parameter.  A handler is a computation on this context
    that fails with an [anyhow] error or panics.

    Each operation of a repository runs inside the context through a lens, so the
    repositories' lemmas carry over unchanged. *)

From S2P Require Import Prelude RustStd Model Env TicketDb TicketGraph WorkflowDb.
Local Open Scope stdpp_scope.

(** An [anyhow::Error] is its [Display] text; a panic unwinds the task. *)
Inductive anyhow : Type :=
| Anyhow (msg : string)
| Panic.

#[export] Instance anyhow_eq_dec : EqDecision anyhow.
Proof. solve_decision. Defined.

Record ctx (H : Type) : Type := Ctx {
  ticket_db : pool tables_t;
  workflow_db : pool wtables;
  outside : H;
  (** The coordinator's channel: requests sent and not yet received. *)
  sent : list TransitionRequest.t;
  (** Whether the receiving end still exists. *)
  receiving : bool
}.
Arguments Ctx {H}.
Arguments ticket_db {H}.
Arguments workflow_db {H}.
Arguments outside {H}.
Arguments sent {H}.
Arguments receiving {H}.

Section Lenses.
Context {H : Type}.

#[export] Program Instance ticket_lens : Lens (ctx H) (pool tables_t) := {
  view := ticket_db;
  put t s := Ctx t (workflow_db s) (outside s) (sent s) (receiving s)
}.
Solve All Obligations with by intros; try destruct s.
#[export] Program Instance workflow_lens : Lens (ctx H) (pool wtables) := {
  view := workflow_db;
  put t s := Ctx (ticket_db s) t (outside s) (sent s) (receiving s)
}.
Solve All Obligations with by intros; try destruct s.
Program Definition outside_lens : Lens (ctx H) H := {|
  view := outside;
  put t s := Ctx (ticket_db s) (workflow_db s) t (sent s) (receiving s)
  |}.
Solve All Obligations with by intros; try destruct s.
End Lenses.

Section Context.
Context {HE : Env} {H : Type}.

(** A repository call in a handler, its error as a value or left to [?]. *)
Definition tickets {A} (m : db A) : SE (ctx H) sqlx_error A := zoom m.
Definition workflows {A} (m : wdb A) : SE (ctx H) sqlx_error A := zoom m.
Definition of_sqlx {A} (m : SE (ctx H) sqlx_error A) : SE (ctx H) anyhow A :=
  map_err (λ e, Anyhow (sqlx_display e)) m.
(** A call to the outside. *)
Definition external {E A} (m : SE H E A) : SE (ctx H) E A := @zoom _ _ _ _ outside_lens m.

(** [transition_tx.send(..).await.map_err(..)]: sending fails only when the
    receiving end is gone. *)
Definition send (label ticket_id : string) (target_status : LifecycleStatus)
    : SE (ctx H) anyhow unit := λ s,
  if receiving s
  then (Ok tt, Ctx (ticket_db s) (workflow_db s) (outside s)
          (sent s ++ [TransitionRequest.mk ticket_id target_status]) (receiving s))
  else (Err (Anyhow ("failed to send " +:+ label +:+ " transition: channel closed")), s).

(** [bail!] and [ok_or_else(|| anyhow!(..))?] *)
Definition bail {A} (msg : string) : SE (ctx H) anyhow A := throw (Anyhow msg).
Definition expect_some {A} (o : option A) (msg : string) : SE (ctx H) anyhow A :=
  ok_or o (Anyhow msg).

(** ** Runs *)

Lemma run_tickets {A} (m : db A) t w h q b :
  tickets m (Ctx t w h q b) = ((m t).1, Ctx (m t).2 w h q b).
Proof. unfold tickets. by rewrite run_zoom. Qed.
Lemma run_workflows {A} (m : wdb A) t w h q b :
  workflows m (Ctx t w h q b) = ((m w).1, Ctx t (m w).2 h q b).
Proof. unfold workflows. by rewrite run_zoom. Qed.
Lemma run_of_sqlx {A} (m : SE (ctx H) sqlx_error A) s :
  of_sqlx m s = match m s with
                | (Ok a, s') => (Ok a, s')
                | (Err e, s') => (Err (Anyhow (sqlx_display e)), s')
                end.
Proof. reflexivity. Qed.
Lemma run_external {E A} (m : SE H E A) t w h q b :
  external m (Ctx t w h q b) = ((m h).1, Ctx t w (m h).2 q b).
Proof. unfold external. by rewrite run_zoom. Qed.
Lemma run_send label i st t w h q :
  send label i st (Ctx t w h q true) = (Ok tt, Ctx t w h (q ++ [TransitionRequest.mk i st]) true).
Proof. reflexivity. Qed.
Lemma run_expect_some {A} (o : option A) msg s :
  expect_some o msg s = (match o with Some a => Ok a | None => Err (Anyhow msg) end, s).
Proof. by destruct o. Qed.
Lemma run_bail {A} msg s : (bail msg : SE (ctx H) anyhow A) s = (Err (Anyhow msg), s).
Proof. reflexivity. Qed.
End Context.

#[export] Hint Rewrite @run_tickets @run_workflows @run_of_sqlx @run_external @run_send
  @run_expect_some @run_bail : se.
