(* ===== verification/Coordinator.v ===== *)
(** * The workflow coordinator and the event engine

    [server/src/workflow/coordinator.rs] and [engine.rs].  A handler task is an
    asynchronous function: it can be interleaved with the coordinator, with other
    tasks and with the rest of the server at its awaits, and it can be aborted
    there.  It is therefore modelled twice: [run_handler] is the function as it is
    written, and [next_phase] cuts it into the steps the scheduler sees;
    [run_phases_handler] shows that the steps in a row are the function.

    The coordinator is a state machine: [exec] performs one step (one iteration of
    the [select!] loop, one step of a task, a message arriving), and [runs] a
    sequence of them. *)

From S2P Require Import Prelude RustStd Model Env TicketDb TicketGraph TicketRepo WorkflowDb.
From S2P Require Import WorkflowRepo Context.
Local Open Scope stdpp_scope.

(** ** A handler task *)

(** [lifecycle_status_to_event] *)
Definition lifecycle_status_to_event (status : LifecycleStatus) : WorkflowEvent :=
  match status with
  | LifecycleStatus.AwaitingDispatch => WorkflowEvent.AwaitingDispatch
  | LifecycleStatus.Implementing => WorkflowEvent.Implementing
  | LifecycleStatus.Verifying => WorkflowEvent.Verifying
  | LifecycleStatus.Pushing => WorkflowEvent.Pushing
  | LifecycleStatus.InReview => WorkflowEvent.InReview
  | LifecycleStatus.AddressingFeedback => WorkflowEvent.AddressingFeedback
  | LifecycleStatus.Merging => WorkflowEvent.Merging
  | LifecycleStatus.Done => WorkflowEvent.Done
  | LifecycleStatus.Cancelled => WorkflowEvent.Cancelled
  | LifecycleStatus.Open | LifecycleStatus.Design => WorkflowEvent.AwaitingDispatch
  end.

Section RunHandler.
Context {HE : Env} {H : Type}.

(** A [WorkflowHandler]. *)
Definition handler : Type := string → SE (ctx H) anyhow unit.

(** The first lines of [run_handler]: a failed update is answered by creating the
    workflow. *)
Definition begin_status (ticket_id : string) (target_status : LifecycleStatus)
    : SE (ctx H) anyhow unit :=
  r ← attempt (workflows (update_workflow_status ticket_id target_status));
  match r with
  | Ok _ => mret tt
  | Err _ => ignore_err (workflows (create_workflow ticket_id target_status))
  end.
Definition sync_ticket (ticket_id : string) (target_status : LifecycleStatus)
    : SE (ctx H) anyhow unit :=
  ignore_err (tickets (update_ticket ticket_id (TicketUpdate.of_lifecycle target_status))).
Definition drop_events (ticket_id : string) : SE (ctx H) anyhow unit :=
  ignore_err (workflows (delete_workflow_events_for_ticket ticket_id)).

Definition emit_workflow_event (ticket_id : string) (target_status : LifecycleStatus)
    : SE (ctx H) anyhow unit :=
  r ← attempt (workflows (get_workflow_by_ticket ticket_id));
  match r with
  | Ok (Some w) =>
      ignore_err (workflows (insert_workflow_event (Workflow.id w)
        (lifecycle_status_to_event target_status)))
  | _ => mret tt
  end.

Definition cleanup_intent (ticket_id : string) (target_status : LifecycleStatus)
    : SE (ctx H) anyhow unit :=
  r ← attempt (workflows list_intents);
  match r with
  | Err _ => mret tt
  | Ok intents =>
      for_each (λ i,
        when (bool_decide (WorkflowIntent.ticket_id i = ticket_id)
              && bool_decide (WorkflowIntent.target_status i = target_status))
          (ignore_err (workflows (delete_intent (WorkflowIntent.id i))))) intents
  end.

Definition stall (ticket_id msg : string) : SE (ctx H) anyhow unit :=
  ignore_err (workflows (set_workflow_stalled ticket_id msg)).
Definition handle_failure (ticket_id : string) (target_status : LifecycleStatus) (msg : string)
    : SE (ctx H) anyhow unit :=
  stall ticket_id msg ;; cleanup_intent ticket_id target_status.

Definition run_handler (h : option handler) (ticket_id : string) (target_status : LifecycleStatus)
    : SE (ctx H) anyhow unit :=
  begin_status ticket_id target_status ;;
  sync_ticket ticket_id target_status ;;
  drop_events ticket_id ;;
  emit_workflow_event ticket_id target_status ;;
  match h with
  | None => cleanup_intent ticket_id target_status
  | Some h =>
      r ← attempt (h ticket_id);
      match r with
      | Ok _ => cleanup_intent ticket_id target_status
      | Err (Anyhow msg) => handle_failure ticket_id target_status msg
      | Err Panic => throw Panic
      end
  end.

(** *** The same, cut at its awaits *)

Inductive phase : Type :=
| UpdateStatus | SyncTicket | DropEvents | EmitEvent | Handle | Stall (msg : string) | Cleanup
| Notify.

(** The next phase after performing one; [Notify] is the coordinator's business. *)
Definition next_phase (h : option handler) (ticket_id : string) (target_status : LifecycleStatus)
    (p : phase) : SE (ctx H) anyhow phase :=
  match p with
  | UpdateStatus => begin_status ticket_id target_status ;; mret SyncTicket
  | SyncTicket => sync_ticket ticket_id target_status ;; mret DropEvents
  | DropEvents => drop_events ticket_id ;; mret EmitEvent
  | EmitEvent =>
      emit_workflow_event ticket_id target_status ;;
      mret (match h with Some _ => Handle | None => Cleanup end)
  | Handle =>
      match h with
      | None => mret Cleanup
      | Some h =>
          r ← attempt (h ticket_id);
          match r with
          | Ok _ => mret Cleanup
          | Err (Anyhow msg) => mret (Stall msg)
          | Err Panic => throw Panic
          end
      end
  | Stall msg => stall ticket_id msg ;; mret Cleanup
  | Cleanup => cleanup_intent ticket_id target_status ;; mret Notify
  | Notify => mret Notify
  end.

Fixpoint run_phases (n : nat) (h : option handler) (ticket_id : string)
    (target_status : LifecycleStatus) (p : phase) : SE (ctx H) anyhow phase :=
  match n with
  | O => mret p
  | S n => p' ← next_phase h ticket_id target_status p;
           run_phases n h ticket_id target_status p'
  end.
End RunHandler.
#[global] Arguments handler : clear implicits.

(** ** The coordinator *)

Module Slot.
(** [TicketSlot]: the running task and the request waiting for it. *)
Record t : Type := mk { task : nat; pending : option TransitionRequest.t }.
End Slot.

Module Task.
Record t : Type := mk {
  ticket_id : string;
  target_status : LifecycleStatus;
  at_phase : phase;
  aborted : bool
}.
Definition with_phase (p : phase) (x : t) : t := mk (ticket_id x) (target_status x) p (aborted x).
Definition abort (x : t) : t := mk (ticket_id x) (target_status x) (at_phase x) true.
Definition spawned (ticket_id : string) (target_status : LifecycleStatus) : t :=
  mk ticket_id target_status UpdateStatus false.
End Task.

(** [WorkflowCoordinator] with the tasks it has spawned; the request channel is
    [sent] of the context. *)
Record coordinator (H : Type) : Type := Coordinator {
  in_flight : gmap string Slot.t;
  tasks : gmap nat Task.t;
  next_task : nat;
  cancel_rx : list string;
  cancel_open : bool;
  completion_rx : list string;
  context : ctx H
}.
Arguments Coordinator {H}.
Arguments in_flight {H}.
Arguments tasks {H}.
Arguments next_task {H}.
Arguments cancel_rx {H}.
Arguments cancel_open {H}.
Arguments completion_rx {H}.
Arguments context {H}.

Section Coordinator.
Context {HE : Env} {H : Type} (handlers : LifecycleStatus → option (handler H)).

Definition with_in_flight m (c : coordinator H) : coordinator H :=
  Coordinator m (tasks c) (next_task c) (cancel_rx c) (cancel_open c) (completion_rx c) (context c).
Definition with_tasks m (c : coordinator H) : coordinator H :=
  Coordinator (in_flight c) m (next_task c) (cancel_rx c) (cancel_open c) (completion_rx c) (context c).
Definition with_cancel_rx q (c : coordinator H) : coordinator H :=
  Coordinator (in_flight c) (tasks c) (next_task c) q (cancel_open c) (completion_rx c) (context c).
Definition with_completion_rx q (c : coordinator H) : coordinator H :=
  Coordinator (in_flight c) (tasks c) (next_task c) (cancel_rx c) (cancel_open c) q (context c).
Definition with_context x (c : coordinator H) : coordinator H :=
  Coordinator (in_flight c) (tasks c) (next_task c) (cancel_rx c) (cancel_open c) (completion_rx c) x.
Definition with_sent (q : list TransitionRequest.t) (x : ctx H) : ctx H :=
  Ctx (ticket_db x) (workflow_db x) (outside x) q (receiving x).

(** A coordinator that has just been built. *)
Definition idle (x : ctx H) : coordinator H := Coordinator ∅ ∅ 0 [] true [] x.

Definition spawn_handler_task (ticket_id : string) (target_status : LifecycleStatus)
    (c : coordinator H) : coordinator H :=
  Coordinator (<[ticket_id := Slot.mk (next_task c) None]> (in_flight c))
    (<[next_task c := Task.spawned ticket_id target_status]> (tasks c))
    (S (next_task c)) (cancel_rx c) (cancel_open c) (completion_rx c) (context c).

Definition handle_request (request : TransitionRequest.t) (c : coordinator H) : coordinator H :=
  let ticket_id := TransitionRequest.ticket_id request in
  match workflows (create_intent ticket_id (TransitionRequest.target_status request)) (context c) with
  | (Err _, x) => with_context x c
  | (Ok _, x) =>
      let c := with_context x c in
      match in_flight c !! ticket_id with
      | Some slot =>
          with_in_flight (<[ticket_id := Slot.mk (Slot.task slot) (Some request)]> (in_flight c)) c
      | None => spawn_handler_task ticket_id (TransitionRequest.target_status request) c
      end
  end.

Definition handle_completion (ticket_id : string) (c : coordinator H) : coordinator H :=
  match in_flight c !! ticket_id with
  | None => c
  | Some slot =>
      let c := with_in_flight (delete ticket_id (in_flight c)) c in
      match Slot.pending slot with
      | None => c
      | Some pending =>
          spawn_handler_task (TransitionRequest.ticket_id pending)
            (TransitionRequest.target_status pending) c
      end
  end.

Definition handle_cancel (ticket_id : string) (c : coordinator H) : coordinator H :=
  match in_flight c !! ticket_id with
  | None => c
  | Some slot =>
      with_tasks (alter Task.abort (Slot.task slot) (tasks c))
        (with_in_flight (delete ticket_id (in_flight c)) c)
  end.

(** One intent of [recover]'s loop. *)
Definition recover_intent (c : coordinator H) (i : WorkflowIntent.t) : coordinator H :=
  let '(r, x) := workflows (get_workflow_by_ticket (WorkflowIntent.ticket_id i)) (context c) in
  let c := with_context x c in
  let stalled := match r with Ok (Some w) => Workflow.stalled w | _ => false end in
  if stalled
  then with_context (workflows (delete_intent (WorkflowIntent.id i)) (context c)).2 c
  else spawn_handler_task (WorkflowIntent.ticket_id i) (WorkflowIntent.target_status i) c.

Definition recover (c : coordinator H) : coordinator H :=
  match workflows list_intents (context c) with
  | (Err _, x) => with_context x c
  | (Ok intents, x) => foldl recover_intent (with_context x c) intents
  end.

(** One iteration of [run]: the branches in their order.  A closed cancel channel
    is always ready. *)
Definition run_once (c : coordinator H) : option (coordinator H) :=
  match cancel_rx c with
  | ticket_id :: q => Some (handle_cancel ticket_id (with_cancel_rx q c))
  | [] =>
      if negb (cancel_open c) then Some c
      else match completion_rx c with
      | ticket_id :: q => Some (handle_completion ticket_id (with_completion_rx q c))
      | [] =>
          match sent (context c) with
          | request :: q => Some (handle_request request (with_context (with_sent q (context c)) c))
          | [] => None
          end
      end
  end.

(** What can happen next: an iteration of the loop; a step of a task; an aborted
    task being dropped at an await; a request or a cancellation arriving; the rest
    of the server changing the databases or the world. *)
Inductive label : Type :=
| Select
| Run (i : nat)
| Drop (i : nat)
| Request (r : TransitionRequest.t)
| Cancel (ticket_id : string)
| Other (x : ctx H).

(** A panicking task ends without a completion message. *)
Definition run_task (i : nat) (t : Task.t) (c : coordinator H) : coordinator H :=
  match Task.at_phase t with
  | Notify =>
      with_completion_rx (completion_rx c ++ [Task.ticket_id t]) (with_tasks (delete i (tasks c)) c)
  | p =>
      match next_phase (handlers (Task.target_status t)) (Task.ticket_id t) (Task.target_status t)
              p (context c) with
      | (Ok p', x) => with_context x (with_tasks (<[i := Task.with_phase p' t]> (tasks c)) c)
      | (Err _, x) => with_context x (with_tasks (delete i (tasks c)) c)
      end
  end.

Definition exec (l : label) (c : coordinator H) : option (coordinator H) :=
  match l with
  | Select => run_once c
  | Run i => t ← tasks c !! i; Some (run_task i t c)
  | Drop i => t ← tasks c !! i;
      if Task.aborted t then Some (with_tasks (delete i (tasks c)) c) else None
  | Request r => Some (with_context (with_sent (sent (context c) ++ [r]) (context c)) c)
  | Cancel ticket_id =>
      if cancel_open c then Some (with_cancel_rx (cancel_rx c ++ [ticket_id]) c) else None
  | Other x => Some (with_context (with_sent (sent (context c)) x) c)
  end.

Fixpoint runs (ls : list label) (c : coordinator H) : option (coordinator H) :=
  match ls with
  | [] => Some c
  | l :: ls => exec l c ≫= runs ls
  end.
End Coordinator.

(** ** The event engine *)

Section Engine.
Context {HE : Env} {H : Type} (handlers : LifecycleStatus → option (handler H)).

Definition delete_event (id : string) : SE (ctx H) anyhow unit :=
  ignore_err (workflows (delete_workflow_event id)).

(** [poll_once]: one event of the queue. *)
Definition poll_once : SE (ctx H) anyhow unit :=
  r ← attempt (workflows poll_workflow_event);
  match r with
  | Ok (Some event) =>
      let id := WorkflowEventQ.id event in
      let ticket_id := WorkflowEventQ.ticket_id event in
      let target := WorkflowEventQ.new_lifecycle_status event in
      r ← attempt (tickets (get_ticket ticket_id));
      match r with
      | Err _ => mret tt
      | Ok None => delete_event id
      | Ok (Some ticket) =>
          if negb (Ticket.lifecycle_managed ticket) then delete_event id
          else if negb (bool_decide (Ticket.lifecycle_status ticket = target)) then delete_event id
          else match handlers target with
          | None => delete_event id
          | Some h =>
              r ← attempt (h ticket_id);
              match r with
              | Ok _ => delete_event id
              | Err (Anyhow msg) => stall ticket_id msg ;; delete_event id
              | Err Panic => throw Panic
              end
          end
      end
  | _ => mret tt
  end.
End Engine.
