(* ===== verification/CoordinatorProps.v ===== *)
(** * Properties of the coordinator *)

From S2P Require Import Prelude RustStd Model Env TicketDb TicketGraph TicketRepo WorkflowDb.
From S2P Require Import WorkflowRepo Context Coordinator.
From Stdlib Require Import Lia.
Local Open Scope stdpp_scope.

Section Phases.
Context {HE : Env} {H : Type}.

(** Unfolds the current phase up to the next computation. *)
Ltac step_task :=
  repeat first [progress cbn [next_phase fst snd] | rewrite run_ret | rewrite run_bind
               | rewrite run_attempt].

(** The steps of a task, one after the other, are [run_handler]. *)
Lemma run_phases_handler (h : option (handler H)) ticket_id target s :
  run_phases 7 h ticket_id target UpdateStatus s
  = ((λ _, Notify) <$> run_handler h ticket_id target) s.
Proof.
  unfold run_handler, handle_failure. cbn [run_phases]. rewrite run_fmap. step_task.
  destruct (begin_status ticket_id target s) as [[[]|e] s1]; [|done]. step_task.
  destruct (sync_ticket ticket_id target s1) as [[[]|e] s2]; [|done]. step_task.
  destruct (drop_events ticket_id s2) as [[[]|e] s3]; [|done]. step_task.
  destruct (emit_workflow_event ticket_id target s3) as [[[]|e] s4]; [|done]. step_task.
  destruct h as [h|]; step_task.
  - destruct (h ticket_id s4) as [[[]|[msg|]] s5]; step_task; [| |done].
    + by destruct (cleanup_intent ticket_id target s5) as [[[]|e] s6].
    + destruct (stall ticket_id msg s5) as [[[]|e] s6]; [|done]. step_task.
      by destruct (cleanup_intent ticket_id target s6) as [[[]|e] s7].
  - by destruct (cleanup_intent ticket_id target s4) as [[[]|e] s5].
Qed.
End Phases.

(** ** One handler per ticket *)

Section Serial.
Context {HE : Env} {H : Type} (handlers : LifecycleStatus → option (handler H)).

(** No two tasks work on the same ticket. *)
Definition serialized (c : coordinator H) : Prop :=
  ∀ i j t u, tasks c !! i = Some t → tasks c !! j = Some u →
    Task.ticket_id t = Task.ticket_id u → i = j.

(** The invariant behind it: a running task is the one its ticket's slot names; a
    completion on its way belongs to a slot whose task has ended. *)
Record tracked (c : coordinator H) : Prop := Tracked {
  tracked_task : ∀ i t, tasks c !! i = Some t →
    ∃ p, in_flight c !! Task.ticket_id t = Some (Slot.mk i p);
  tracked_next : ∀ i, is_Some (tasks c !! i) → i < next_task c;
  tracked_slot : ∀ t x, in_flight c !! t = Some x → Slot.task x < next_task c;
  tracked_done : ∀ t, t ∈ completion_rx c → ∃ x,
    in_flight c !! t = Some x ∧ tasks c !! Slot.task x = None;
  tracked_once : NoDup (completion_rx c);
  tracked_pending : ∀ t i r, in_flight c !! t = Some (Slot.mk i (Some r)) →
    TransitionRequest.ticket_id r = t
}.

Lemma tracked_serialized c : tracked c → serialized c.
Proof.
  intros Hc i j t u Hi Hj Htu. destruct (tracked_task c Hc i t Hi) as [p Hp].
  destruct (tracked_task c Hc j u Hj) as [q Hq]. rewrite Htu in Hp. by simplify_eq.
Qed.

Lemma tracked_idle x : tracked (idle x).
Proof.
  split; simpl; [done|by intros i []|done|by intros t []%not_elem_of_nil|constructor|done].
Qed.

Lemma tracked_with_context x c : tracked c → tracked (with_context x c).
Proof. by intros []. Qed.

Lemma tracked_spawn t st c :
  tracked c → (∀ i u, tasks c !! i = Some u → Task.ticket_id u ≠ t) → t ∉ completion_rx c →
  tracked (spawn_handler_task t st c).
Proof.
  intros [Ht Hn Hs Hd Ho Hp] Hfree Hrx. split; simpl.
  - intros i u [[<- <-]|[Hi Hu]]%lookup_insert_Some; simpl; [rewrite lookup_insert_eq; eauto|].
    rewrite lookup_insert_ne by (apply not_eq_sym; eauto). eauto.
  - intros i [u [[<- _]|[_ Hu]]%lookup_insert_Some]; [lia|].
    assert (i < next_task c) by eauto. lia.
  - intros u x [[<- <-]|[_ Hx]]%lookup_insert_Some; simpl; [lia|]. specialize (Hs _ _ Hx). lia.
  - intros u Hu. destruct (Hd u Hu) as (x & Hx & Hnone). exists x.
    rewrite lookup_insert_ne by (by intros <-). split; [done|].
    rewrite lookup_insert_ne by (specialize (Hs _ _ Hx); lia). done.
  - done.
  - intros u i r [[_ ?]|[? Hu]]%lookup_insert_Some; [done|eauto].
Qed.

Lemma tracked_handle_request r c : tracked c → tracked (handle_request r c).
Proof.
  intros Hc. unfold handle_request. destruct (workflows _ _) as [[w|e] x]; [|by apply tracked_with_context].
  assert (tracked (with_context x c)) as Hx by (by apply tracked_with_context).
  revert Hx. generalize (with_context x c). clear c Hc x. intros c [Ht Hn Hs Hd Ho Hp]. cbv zeta.
  destruct (in_flight c !! _) as [slot|] eqn:Hslot.
  - split; simpl; [|done| | |done|].
    + intros i u Hi. destruct (Ht i u Hi) as [p Hu].
      destruct (decide (Task.ticket_id u = TransitionRequest.ticket_id r)) as [Heq|Hne].
      * rewrite Heq, lookup_insert_eq. rewrite Heq, Hslot in Hu. simplify_eq. simpl. eauto.
      * rewrite lookup_insert_ne by done. eauto.
    + intros t y [[<- <-]|[_ Hy]]%lookup_insert_Some; simpl; eauto.
    + intros t Hin. destruct (Hd t Hin) as (y & Hy & Hnone).
      destruct (decide (t = TransitionRequest.ticket_id r)) as [-> |Hne].
      * rewrite Hslot in Hy. simplify_eq. rewrite lookup_insert_eq. eauto.
      * rewrite lookup_insert_ne by done. eauto.
    + intros t i q [[<- ?]|[_ Hy]]%lookup_insert_Some; simplify_eq; eauto.
  - apply tracked_spawn; [by split| |].
    + intros i u Hi Heq. destruct (Ht i u Hi) as [p Hu]. congruence.
    + intros Hin. destruct (Hd _ Hin) as (y & Hy & _). congruence.
Qed.

(** Taking the head off the completion queue frees the slot. *)
Lemma tracked_release t q c :
  completion_rx c = t :: q → tracked c →
  tracked (with_in_flight (delete t (in_flight c)) (with_completion_rx q c))
  ∧ ∃ x, in_flight c !! t = Some x ∧ ∀ i u, tasks c !! i = Some u → Task.ticket_id u ≠ t.
Proof.
  intros Hq [Ht Hn Hs Hd Ho Hp]. rewrite Hq in Ho, Hd. apply NoDup_cons in Ho as [Hfresh Ho].
  destruct (Hd t ltac:(by left)) as (x & Hx & Hdead).
  assert (∀ i u, tasks c !! i = Some u → Task.ticket_id u ≠ t) as Hfree.
  { intros i u Hi Heq. destruct (Ht i u Hi) as [p Hu]. rewrite Heq, Hx in Hu.
    injection Hu as ->. simpl in Hdead. congruence. }
  split; [|by exists x]. split; simpl; [|done| | |done|].
  - intros i u Hi. rewrite lookup_delete_ne by (apply not_eq_sym; eauto). eauto.
  - intros u y [_ Hy]%lookup_delete_Some. eauto.
  - intros u Hu. destruct (Hd u ltac:(by right)) as (y & Hy & Hnone). exists y.
    rewrite lookup_delete_ne by (by intros <-). done.
  - intros u i r [_ Hy]%lookup_delete_Some. eauto.
Qed.

(** Taking the head off the completion queue and handling it. *)
Lemma tracked_handle_completion t q c :
  completion_rx c = t :: q → tracked c → tracked (handle_completion t (with_completion_rx q c)).
Proof.
  intros Hq Hc. destruct (tracked_release t q c Hq Hc) as (Hdel & x & Hx & Hfree).
  unfold handle_completion. simpl. rewrite Hx. destruct x as [i [r|]]; [|done]. simpl.
  pose proof (tracked_pending c Hc t i r Hx) as Hr. apply tracked_spawn; [done|by rewrite Hr|].
  rewrite Hr. simpl. pose proof (tracked_once c Hc) as Ho. rewrite Hq in Ho. by apply NoDup_cons in Ho as [? _].
Qed.

Lemma tracked_drop i c : tracked c → tracked (with_tasks (delete i (tasks c)) c).
Proof.
  intros [Ht Hn Hs Hd Ho Hp]. split; simpl; [| |done| |done|done].
  - intros j u [_ Hj]%lookup_delete_Some. eauto.
  - intros j [u [_ Hj]%lookup_delete_Some]. eauto.
  - intros u Hu. destruct (Hd u Hu) as (y & Hy & Hnone). exists y. split; [done|].
    apply lookup_delete_None. auto.
Qed.

Lemma tracked_run_task i t c : tracked c → tasks c !! i = Some t → tracked (run_task handlers i t c).
Proof.
  intros Hc Hi. assert (Hc' := Hc). destruct Hc' as [Ht Hn Hs Hd Ho Hp].
  destruct (Ht i t Hi) as [p Hslot].
  assert (∀ x, tracked (with_context x (with_tasks (delete i (tasks c)) c))) as Hdrop
    by (intros x; by apply tracked_with_context, tracked_drop).
  assert (∀ x p', tracked (with_context x (with_tasks (<[i := Task.with_phase p' t]> (tasks c)) c)))
    as Hnext.
  { intros x p'. apply tracked_with_context. split; simpl; [| |done| |done|done].
    - intros j u [[<- <-]|[_ Hj]]%lookup_insert_Some; simpl; eauto.
    - intros j [u [[<- <-]|[_ Hj]]%lookup_insert_Some]; eauto.
    - intros u Hu. destruct (Hd u Hu) as (y & Hy & Hnone). exists y. split; [done|].
      rewrite lookup_insert_ne; [done|]. intros Heq. rewrite <-Heq in Hnone. congruence. }
  unfold run_task. destruct (Task.at_phase t);
    try (destruct (next_phase _ _ _ _ _) as [[]]; [by apply Hnext|by apply Hdrop]).
  destruct (Hdrop (context c)) as [Ht' Hn' Hs' Hd' Ho' Hp']. split; simpl in *; [done..| | |done].
  - intros u [Hu|[-> |[]%not_elem_of_nil]%elem_of_cons]%elem_of_app; [eauto|].
    exists (Slot.mk i p). split; [done|]. apply lookup_delete_eq.
  - apply NoDup_app. split; [done|]. split; [|apply NoDup_singleton].
    intros u Hu ->%list_elem_of_singleton. destruct (Hd _ Hu) as (y & Hy & Hnone).
    rewrite Hslot in Hy. by simplify_eq/=.
Qed.

Definition is_cancel (l : label (H:=H)) : bool := match l with Cancel _ => true | _ => false end.

Lemma tracked_exec l c c' :
  is_cancel l = false → cancel_rx c = [] → tracked c → exec handlers l c = Some c' →
  tracked c' ∧ cancel_rx c' = [].
Proof.
  intros Hl Hq Hc. destruct l; simpl; [| | | |done|]; simpl.
  - unfold run_once. rewrite Hq. case_match; [by intros [= <-]|].
    destruct (completion_rx c) as [|t q] eqn:Hdone.
    + destruct (sent (context c)) as [|r q]; [done|]. intros [= <-]. split.
      * by apply tracked_handle_request, tracked_with_context.
      * unfold handle_request. destruct (workflows _ _) as [[] x]; [|done]. simpl. by case_match.
    + intros [= <-]. split; [by apply tracked_handle_completion|].
      unfold handle_completion. simpl. case_match; [|done]. by case_match.
  - intros (t & Hi & [= <-])%bind_Some. split; [by apply tracked_run_task|].
    unfold run_task. destruct (Task.at_phase t); try done; by destruct (next_phase _ _ _ _ _) as [[]].
  - intros (t & Hi & ?)%bind_Some. case_match; simplify_eq. split; [|done].
    by apply tracked_drop.
  - intros [= <-]. by split; [apply tracked_with_context|].
  - intros [= <-]. by split; [apply tracked_with_context|].
Qed.

Lemma tracked_runs ls c c' :
  Forall (λ l, is_cancel l = false) ls → cancel_rx c = [] → tracked c →
  runs handlers ls c = Some c' → tracked c' ∧ cancel_rx c' = [].
Proof.
  revert c. induction ls as [|l ls IH]; intros c Hls Hq Hc; simpl; [by intros [= <-]|].
  apply Forall_cons in Hls as [Hl Hls]. intros (c1 & Hl1 & Hrun)%bind_Some.
  destruct (tracked_exec l c c1 Hl Hq Hc Hl1) as [Hc1 Hq1]. eauto.
Qed.
(** *** After a restart *)

(** Each ticket has at most one intent left over. *)
Definition one_intent_per_ticket (s : wtables) : Prop :=
  ∀ i j a b, WorkflowTables.workflow_intent s !! i = Some a →
    WorkflowTables.workflow_intent s !! j = Some b →
    IntentRow.ticket_id a = IntentRow.ticket_id b → i = j.

Lemma list_intents_tickets (x x' : ctx H) l :
  one_intent_per_ticket (Prelude.tables (workflow_db x)) →
  workflows list_intents x = (Ok l, x') → NoDup (WorkflowIntent.ticket_id <$> l).
Proof.
  intros Hone Hl. destruct x as [t w h q b]. rewrite run_workflows in Hl. simpl in Hone.
  unfold list_intents, select, statement in Hl.
  assert (NoDup (WorkflowIntent.ticket_id <$> (intent_of <$> order_by by_intent_created
    (rows (WorkflowTables.workflow_intent (Prelude.tables w)))))) as Hnd.
  { rewrite <-list_fmap_compose. rewrite (order_by_perm by_intent_created).
    unfold rows. rewrite <-list_fmap_compose. apply NoDup_fmap_2_strong; [|apply NoDup_map_to_list].
    intros [i a] [j b'] Hi%elem_of_map_to_list Hj%elem_of_map_to_list Heq.
    assert (i = j) as -> by exact (Hone i j a b' Hi Hj Heq). congruence. }
  repeat case_match; simplify_eq/=; done.
Qed.

Lemma tracked_recover_intents l c :
  tracked c → completion_rx c = [] → NoDup (WorkflowIntent.ticket_id <$> l) →
    (∀ i, i ∈ l → in_flight c !! WorkflowIntent.ticket_id i = None) →
  cancel_rx c = [] →
  tracked (foldl recover_intent c l) ∧ cancel_rx (foldl recover_intent c l) = [].
Proof.
  revert c. induction l as [|i l IH]; intros c Hc Hdone Hnd Hfree Hq; simpl; [done|].
  apply NoDup_cons in Hnd as [Hi Hnd]. unfold recover_intent at 2 4.
  destruct (workflows _ (context c)) as [r x]. cbv zeta.
  destruct (match r with Ok (Some w) => Workflow.stalled w | _ => false end).
  - apply IH; [by apply tracked_with_context, tracked_with_context|done|done| |done].
    intros j Hj. simpl. apply Hfree. by right.
  - apply IH; [|done|done| |done].
    + apply tracked_spawn; [by apply tracked_with_context| |simpl; rewrite Hdone; apply not_elem_of_nil].
      simpl. intros j u Hj Heq. destruct (tracked_task c Hc j u Hj) as [p Hp].
      rewrite Heq, Hfree in Hp by (by left). done.
    + intros j Hj. simpl. rewrite lookup_insert_ne; [apply Hfree; by right|].
      intros Heq. apply Hi. rewrite Heq. by apply list_elem_of_fmap_2.
Qed.

Lemma tracked_recover (x : ctx H) :
  one_intent_per_ticket (Prelude.tables (workflow_db x)) →
  tracked (recover (idle x)) ∧ cancel_rx (recover (idle x)) = [].
Proof.
  intros Hone. unfold recover. simpl.
  destruct (workflows list_intents x) as [[l|e] x'] eqn:Hl.
  - apply tracked_recover_intents; [apply tracked_with_context, tracked_idle|done| | |done].
    + by eapply list_intents_tickets.
    + done.
  - split; [apply tracked_with_context, tracked_idle|done].
Qed.

(** C18: At most one handler runs per ticket: from a start with at most one intent
    left over per ticket, and as long as no workflow is cancelled, no sequence of
    requests, loop iterations, task steps, panics and changes made by the rest of
    the server brings the coordinator to a state in which two tasks work on the
    same ticket. *)
Theorem one_handler_per_ticket x ls c :
  one_intent_per_ticket (Prelude.tables (workflow_db x)) →
  Forall (λ l, is_cancel l = false) ls →
  runs handlers ls (recover (idle x)) = Some c → serialized c.
Proof.
  intros Hone Hls Hrun. destruct (tracked_recover x Hone) as [Ht Hq].
  destruct (tracked_runs ls _ c Hls Hq Ht Hrun) as [Hc _]. by apply tracked_serialized.
Qed.
End Serial.

(** * Runs of the coordinator: what is kept and what is lost

    The order of requests, and the runs in which the coordinator does not keep
    what its comments promise. *)

From S2P Require Import WorkflowProps.
From Stdlib Require Import Lia.

(** ** Latest wins *)

Section Latest.
Context {HE : Env} {HL : EnvLaws} {H : Type}.
Abbreviation requested := (foldl (flip (handle_request (H:=H)))).

(** No intent has an identifier that is still to be drawn. *)
Definition fresh_intents (s : wtables) (n : nat) : Prop :=
  ∀ k, n ≤ k → WorkflowTables.workflow_intent s !! uuid_v4 k = None.
Definition has_intent (r : TransitionRequest.t) (s : wtables) : Prop :=
  ∃ i a, WorkflowTables.workflow_intent s !! i = Some a
    ∧ IntentRow.ticket_id a = TransitionRequest.ticket_id r
    ∧ IntentRow.target_status a = LifecycleStatus.as_str (TransitionRequest.target_status r).

(** A request writes its intent and keeps the others. *)
Lemma request_intent (r : TransitionRequest.t) s n :
  fresh_intents s n →
  ∃ w s', create_intent (TransitionRequest.ticket_id r) (TransitionRequest.target_status r)
      (Pool s [] n) = (Ok w, Pool s' [] (S (S n)))
    ∧ fresh_intents s' (S (S n)) ∧ has_intent r s' ∧ ∀ q, has_intent q s → has_intent q s'.
Proof.
  intros Hf. unfold create_intent. eexists _, _. split.
  { rewrite run_bind, run_new_uuid, run_bind, run_utc_now, run_bind, run_statement.
    rewrite insert_row_fresh by (by apply Hf). by rewrite run_ret. }
  split_and!.
  - intros k Hk. simpl. rewrite lookup_insert_ne; [apply Hf; lia|].
    intros Heq%(inj uuid_v4). lia.
  - eexists _, _. split; [apply lookup_insert_eq|done].
  - intros q (i & a & Hi & Ha). exists i, a. split; [|done]. simpl.
    rewrite lookup_insert_ne; [done|]. intros <-. rewrite Hf in Hi by lia. done.
Qed.

Lemma requests_running ticket_id rs c slot s n :
  workflow_db (context c) = Pool s [] n → fresh_intents s n →
  in_flight c !! ticket_id = Some slot →
  Forall (λ r, TransitionRequest.ticket_id r = ticket_id) rs →
  ∃ s' n', tasks (requested c rs) = tasks c ∧ next_task (requested c rs) = next_task c
  ∧ completion_rx (requested c rs) = completion_rx c
  ∧ in_flight (requested c rs)
    = <[ticket_id := Slot.mk (Slot.task slot) (last (option_list (Slot.pending slot) ++ rs))]> (in_flight c)
  ∧ workflow_db (context (requested c rs)) = Pool s' [] n'
  ∧ (∀ q, has_intent q s → has_intent q s') ∧ Forall (λ r, has_intent r s') rs.
Proof.
  revert c slot s n. induction rs as [|r rs IH]; intros c slot s n Hdb Hf Hslot Hrs.
  { exists s, n. split_and!; try done. simpl. rewrite app_nil_r.
    rewrite insert_id; [done|]. destruct slot as [i [p|]]; done. }
  apply Forall_cons in Hrs as [Hr Hrs]. cbn [foldl].
  destruct (request_intent r s n Hf) as (w & s1 & Hrun & Hf1 & Hr1 & Hkeep).
  assert (∃ x, workflow_db x = Pool s1 [] (S (S n)) ∧ flip handle_request c r
    = with_in_flight (<[ticket_id := Slot.mk (Slot.task slot) (Some r)]> (in_flight c)) (with_context x c))
    as (x & Hx & ->).
  { unfold flip, handle_request. destruct (context c) as [t d h q b]. simpl in Hdb. subst d.
    rewrite run_workflows, Hrun. cbn [fst snd in_flight with_context]. rewrite Hr, Hslot.
    eexists. split; [|done]. done. }
  destruct (IH (with_in_flight (<[ticket_id := Slot.mk (Slot.task slot) (Some r)]> (in_flight c))
    (with_context x c)) (Slot.mk (Slot.task slot) (Some r)) s1 (S (S n)))
    as (s' & n' & Ht & Hn & Hd & Hi & Hdb' & Hk & Hall); [done|done|apply lookup_insert_eq|done|].
  exists s', n'. split_and!; try done.
  - rewrite Hi. simpl. rewrite insert_insert_eq. f_equal. f_equal.
    destruct (Slot.pending slot); [|done]. simpl. by destruct rs.
  - auto.
  - constructor; auto.
Qed.

(** Latest wins: while a ticket's handler runs, a series of requests for the
    ticket starts no task and leaves the last request pending; every request has
    its intent in the database; and when the handler completes, exactly one new
    task starts, for the last request. *)
Theorem latest_request_wins ticket_id rs r c slot s n :
  workflow_db (context c) = Pool s [] n → fresh_intents s n →
  in_flight c !! ticket_id = Some slot →
  Forall (λ r, TransitionRequest.ticket_id r = ticket_id) (rs ++ [r]) →
  let c' := requested c (rs ++ [r]) in
  tasks c' = tasks c
  ∧ in_flight c' = <[ticket_id := Slot.mk (Slot.task slot) (Some r)]> (in_flight c)
  ∧ (∃ s' n', workflow_db (context c') = Pool s' [] n' ∧ Forall (λ q, has_intent q s') (rs ++ [r]))
  ∧ tasks (handle_completion ticket_id c')
    = <[next_task c := Task.spawned ticket_id (TransitionRequest.target_status r)]> (tasks c).
Proof.
  intros Hdb Hf Hslot Hrs c'.
  destruct (requests_running ticket_id (rs ++ [r]) c slot s n Hdb Hf Hslot Hrs)
    as (s' & n' & Ht & Hn & _ & Hi & Hdb' & _ & Hall).
  rewrite app_assoc, last_snoc in Hi. split_and!; [done|done|by exists s', n'|].
  unfold handle_completion, c'. rewrite Hi, lookup_insert_eq. simpl. rewrite Ht, Hn.
  apply Forall_app in Hrs as [_ Hrs]. apply Forall_cons in Hrs as [Hr _]. by rewrite Hr.
Qed.
End Latest.

(** ** Concrete runs

    A server in which every handler succeeds at once, with the workflow "a" of the
    ticket "ur-1". *)

Section Runs.
#[local] Instance run_env : Env := test_env.

Definition no_op : handler unit := λ _, mret tt.
Definition no_op_handlers (_ : LifecycleStatus) : option (handler unit) := Some no_op.
Definition sample_ctx : ctx unit :=
  Ctx (Pool TicketTables.empty [] 0) (Pool (sample_workflows 0) [] 0) tt [] true.
Definition request_to (st : LifecycleStatus) : TransitionRequest.t := TransitionRequest.mk "ur-1" st.
Definition intents_left (c : coordinator unit) : list LifecycleStatus :=
    (λ r, LifecycleStatus.parse_or_default (IntentRow.target_status r)) <$>
    rows (WorkflowTables.workflow_intent (Prelude.tables (workflow_db (context c)))).
(** The running tasks, oldest first. *)
Definition live (c : coordinator unit) : list Task.t :=
  omap (λ i, tasks c !! i) (seq 0 (next_task c)).
(** The process is killed and starts again: only the databases survive. *)
Definition restarted (c : coordinator unit) : ctx unit := with_sent [] (context c).

Definition verifying := request_to LifecycleStatus.Verifying.
Definition pushing := request_to LifecycleStatus.Pushing.
Definition in_review := request_to LifecycleStatus.InReview.
(** All the steps of a task. *)
Definition task_steps (i : nat) : list (label (H:=unit)) := replicate 7 (Run i).

Definition status_of_sample (c : coordinator unit) : option string :=
  W.status <$> WorkflowTables.workflow (Prelude.tables (workflow_db (context c))) !! "a".
Definition pending_of (c : coordinator unit) : option TransitionRequest.t :=
  in_flight c !! "ur-1" ≫= Slot.pending.

(** Intents are not cleared with the requests they record: a pending request
    that a later one replaces leaves its intent behind after both handlers are
    done, and the next start of the server runs the dropped transition, on a
    workflow that has moved on. *)
Theorem dropped_request_replayed :
  ∃ c, runs no_op_handlers
      ([Request verifying; Select; Request pushing; Select; Request in_review; Select]
       ++ task_steps 0 ++ [Select] ++ task_steps 1 ++ [Select]) (idle sample_ctx) = Some c
    ∧ in_flight c = ∅ ∧ live c = [] ∧ run_once c = None
    ∧ status_of_sample c = Some "in_review" ∧ intents_left c = [LifecycleStatus.Pushing]
    ∧ live (recover (idle (restarted c))) = [Task.spawned "ur-1" LifecycleStatus.Pushing].
Proof. eexists. split; [vm_compute; reflexivity|]. split_and!; vm_compute; reflexivity. Qed.

(** The intent of a pending request is not safe from the running handler: when
    both are for the same status, the handler's cleanup deletes both intents, and
    a restart before the pending request starts forgets it. *)
Theorem equal_request_forgotten :
  ∃ c, runs no_op_handlers
      ([Request verifying; Select; Request verifying; Select] ++ task_steps 0) (idle sample_ctx) = Some c
    ∧ pending_of c = Some verifying ∧ intents_left c = []
    ∧ live (recover (idle (restarted c))) = [].
Proof. eexists. split; [vm_compute; reflexivity|]. split_and!; vm_compute; reflexivity. Qed.

(** Recovery does not serialise: a restart while one request runs and another
    is pending starts two handlers for the same ticket. *)
Theorem recovery_runs_two_handlers :
  ∃ c, runs no_op_handlers [Request verifying; Select; Request pushing; Select] (idle sample_ctx) = Some c
    ∧ live c = [Task.spawned "ur-1" LifecycleStatus.Verifying]
    ∧ live (recover (idle (restarted c)))
      = [Task.spawned "ur-1" LifecycleStatus.Verifying; Task.spawned "ur-1" LifecycleStatus.Pushing].
Proof. eexists. split; [vm_compute; reflexivity|]. split; vm_compute; reflexivity. Qed.

(** A completion names the ticket, not the task: when a cancelled handler
    still sends its completion, the message releases the slot of the handler that
    runs in its place, and the next request starts a second one beside it. *)
Theorem late_completion_runs_two_handlers :
  ∃ c, runs no_op_handlers
      ([Request verifying; Select] ++ replicate 6 (Run 0)
       ++ [Cancel "ur-1"; Select; Request pushing; Select; Run 0; Select; Request in_review; Select])
      (idle sample_ctx) = Some c
    ∧ live c = [Task.spawned "ur-1" LifecycleStatus.Pushing; Task.spawned "ur-1" LifecycleStatus.InReview].
Proof. eexists. split; vm_compute; reflexivity. Qed.

Definition panics : handler unit := λ _, throw Panic.

(** A handler that panics keeps its ticket: its task is gone without a
    completion, so a later request stays pending and nothing more will happen. *)
Theorem panicked_handler_blocks_ticket :
  ∃ c, runs (λ _, Some panics)
      ([Request verifying; Select] ++ replicate 5 (Run 0) ++ [Request pushing; Select])
      (idle sample_ctx) = Some c
    ∧ live c = [] ∧ pending_of c = Some pushing ∧ run_once c = None.
Proof. eexists. split; [vm_compute; reflexivity|]. split_and!; vm_compute; reflexivity. Qed.
End Runs.

(** ** Witnesses *)

Lemma sample_one_intent : one_intent_per_ticket (Prelude.tables (workflow_db sample_ctx)).
Proof. intros i j a b Hi. vm_compute in Hi. destruct i; discriminate. Qed.

Lemma one_handler_per_ticket_witness :
  ∃ c, @runs test_env unit no_op_handlers [Request verifying; Select; Request pushing; Select]
      (recover (idle sample_ctx)) = Some c
    ∧ serialized c ∧ length (live c) = 1.
Proof.
  eexists. split; [vm_compute; reflexivity|]. split; [|vm_compute; reflexivity].
  apply (@one_handler_per_ticket test_env unit no_op_handlers sample_ctx
    [Request verifying; Select; Request pushing; Select]).
  - exact sample_one_intent.
  - repeat constructor.
  - vm_compute. reflexivity.
Defined.

(** The coordinator of the sample server while a handler runs. *)
Definition sample_running : coordinator unit :=
  spawn_handler_task "ur-1" LifecycleStatus.Verifying (idle sample_ctx).

Lemma latest_request_wins_witness :
  tasks (handle_completion "ur-1"
    (foldl (flip (@handle_request test_env unit)) sample_running [pushing; in_review]))
  = <[1 := Task.spawned "ur-1" LifecycleStatus.InReview]> (tasks sample_running).
Proof.
  apply (@latest_request_wins test_env test_env_laws unit "ur-1" [pushing] in_review sample_running
    (Slot.mk 0 None) (sample_workflows 0) 0).
  - reflexivity.
  - intros k _. reflexivity.
  - reflexivity.
  - repeat constructor.
Defined.
