(* ===== verification/CoordinatorLiveness.v ===== *)
(** * Every request gets a handler

    Infinite executions of the coordinator under a fair scheduler: a loop with
    something to do is eventually run, a task is eventually polled.  If no handler
    panics and nothing is cancelled, a request that is sent is taken, and a handler
    task is started for it or for a later request for the same ticket. *)

From S2P Require Import Prelude RustStd Model Env TicketDb TicketGraph WorkflowDb WorkflowRepo Context Coordinator CoordinatorProps.
From S2P Require Import WorkflowProps CoordinatorProps.
From Stdlib Require Import Lia.
Local Open Scope stdpp_scope.

Section Liveness.
Context {HE : Env} {H : Type} (handlers : LifecycleStatus → option (handler H)).
(** No handler panics; a handler can only add to the requests that are on their way,
    being a sender of the channel. *)
Context (no_panic : ∀ st h t x, handlers st = Some h → (h t x).1 ≠ Err Panic).
Context (only_sends : ∀ st h t x, handlers st = Some h → ∃ more, sent (h t x).2 = sent x ++ more).
Implicit Types (c : coordinator H) (l : label (H:=H)).

(** ** What holds all along *)

Definition works_on (i : nat) (ticket_id : string) c : Prop :=
  ∃ t, tasks c !! i = Some t ∧ Task.ticket_id t = ticket_id.
(** A slot's task is running or its completion is on its way, and no task is about
    to be dropped. *)
Record busy c : Prop := Busy {
  busy_tracked : tracked c;
  busy_cancel : cancel_rx c = [] ∧ cancel_open c = true;
  busy_slot : ∀ t x, in_flight c !! t = Some x → works_on (Slot.task x) t c ∨ t ∈ completion_rx c;
  busy_alive : ∀ i t, tasks c !! i = Some t → Task.aborted t = false
}.

Lemma next_phase_ok st t p x : ∃ p' x', next_phase (handlers st) t st p x = (Ok p', x').
Proof.
  destruct p; simpl.
  - rewrite run_bind. unfold begin_status. rewrite run_bind, run_attempt.
    destruct (workflows _ x) as [[]]; cbn [fst snd]; [rewrite run_ret; by eauto|].
    rewrite run_ignore_err. by eauto.
  - rewrite run_bind. unfold sync_ticket. rewrite run_ignore_err. by eauto.
  - rewrite run_bind. unfold drop_events. rewrite run_ignore_err. by eauto.
  - rewrite run_bind. unfold emit_workflow_event. rewrite run_bind, run_attempt.
    destruct (workflows _ x) as [[[]|]]; cbn [fst snd]; rewrite ?run_ignore_err, ?run_ret; by eauto.
  - pose proof (no_panic st) as Hh. destruct (handlers st) as [h|]; [|by eauto].
    rewrite run_bind, run_attempt. specialize (Hh h t x eq_refl).
    destruct (h t x) as [[[]|[msg|]] y]; cbn [fst snd] in *; by eauto.
  - rewrite run_bind. unfold stall. rewrite run_ignore_err. by eauto.
  - rewrite run_bind. unfold cleanup_intent. rewrite run_bind, run_attempt.
    destruct (workflows _ x) as [[is_|] y]; cbn [fst snd]; [|rewrite run_ret; by eauto].
    revert y. induction is_ as [|i is_ IH]; intros y; simpl; [rewrite run_ret; by eauto|].
    rewrite run_bind. destruct (_ && _); cbn [when]; [|by rewrite run_ret].
    by rewrite run_ignore_err.
  - by eauto.
Qed.

(** A task step only adds to the requests. *)
Lemma next_phase_sends st t p x : ∃ more, sent (next_phase (handlers st) t st p x).2 = sent x ++ more.
Proof.
  pose (I := λ y : ctx H, ∃ more, sent y = sent x ++ more). change (I (next_phase (handlers st) t st p x).2).
  assert (∀ A (m : db A), preserves I (tickets m)) as Ht by (by intros A m [] ?; rewrite run_tickets).
  assert (∀ A (m : wdb A), preserves I (workflows m)) as Hw by (by intros A m [] ?; rewrite run_workflows).
  assert (∀ h, handlers st = Some h → preserves I (h t)) as Hh.
  { intros h Hh y [more Hy]. destruct (only_sends st h t y Hh) as [more' Hm]. exists (more ++ more').
    by rewrite Hm, Hy, app_assoc. }
  assert (preserves I (next_phase (handlers st) t st p)) as Hp.
  { destruct p; simpl; unfold begin_status, sync_ticket, drop_events, emit_workflow_event, stall, cleanup_intent;
      destruct (handlers st); solve_preserves. }
  apply Hp. exists []. by rewrite app_nil_r.
Qed.

Lemma busy_context x c : busy c → busy (with_context x c).
Proof. intros [Ht Hc Hs Ha]. split; [by apply tracked_with_context|done..]. Qed.
Lemma works_on_spawn i u t st c : tracked c → works_on i u c → works_on i u (spawn_handler_task t st c).
Proof.
  intros Hc (y & Hy & Hu). exists y. split; [|done]. simpl. rewrite lookup_insert_ne; [done|].
  pose proof (tracked_next c Hc i (ex_intro _ y Hy)). lia.
Qed.
Lemma busy_spawn t st c : tracked (spawn_handler_task t st c) → tracked c →
  (∀ u x, u ≠ t → in_flight c !! u = Some x → works_on (Slot.task x) u c ∨ u ∈ completion_rx c) →
  cancel_rx c = [] ∧ cancel_open c = true → (∀ i y, tasks c !! i = Some y → Task.aborted y = false) →
  busy (spawn_handler_task t st c).
Proof.
  intros Ht Htr Hs Hc Ha. split; [done|done| |]; simpl.
  - intros u x [[<- <-]|[Hne Hx]]%lookup_insert_Some.
    + left. eexists. simpl. rewrite lookup_insert_eq. by split.
    + destruct (Hs u x) as [Hi|Hi]; [done|done|left; by apply works_on_spawn|by right].
  - intros i u [[<- <-]|[_ Hu]]%lookup_insert_Some; [done|by eauto].
Qed.
Lemma busy_request r c : busy c → busy (handle_request r c).
Proof.
  intros Hb. pose proof (tracked_handle_request r c (busy_tracked c Hb)) as Ht. revert Ht.
  unfold handle_request. destruct (workflows _ _) as [[w|e] x]; [|intros _; by apply busy_context].
  cbv zeta. apply (busy_context x) in Hb. revert Hb. generalize (with_context x c). clear c. intros c [Htr Hc Hs Ha].
  destruct (in_flight c !! _) as [slot|] eqn:Hslot; intros Ht; [|apply busy_spawn; by eauto].
  split; [done|done| |done]. simpl. intros t y [[<- <-]|[_ Hy]]%lookup_insert_Some; [exact (Hs _ _ Hslot)|exact (Hs _ _ Hy)].
Qed.
Lemma busy_completion t q c : completion_rx c = t :: q → busy c →
  busy (handle_completion t (with_completion_rx q c)).
Proof.
  intros Hq Hb. pose proof (tracked_handle_completion t q c Hq (busy_tracked c Hb)) as Ht. revert Ht.
  destruct Hb as [Htr Hc Hs Ha]. unfold handle_completion. simpl.
  destruct (tracked_release t q c Hq Htr) as (Hc1 & x & Hx & _). rewrite Hx. revert Hc1.
  set (c1 := with_in_flight _ _). intros Hc1.
  assert (∀ u y, in_flight c1 !! u = Some y → works_on (Slot.task y) u c1 ∨ u ∈ q) as Hrest.
  { intros u y Hy. unfold c1 in Hy. simpl in Hy. apply lookup_delete_Some in Hy as [Hne Hy]. destruct (Hs u y Hy) as [?|Hin]; [by left|].
    rewrite Hq in Hin. apply elem_of_cons in Hin as [->|?]; [done|by right]. }
  destruct (Slot.pending x) as [r|]; intros Ht.
  - apply busy_spawn; [done|done|intros u y _; apply Hrest|done|done].
  - by split.
Qed.
Lemma busy_run i t c : busy c → tasks c !! i = Some t → busy (run_task handlers i t c).
Proof.
  intros Hb Hi. pose proof (tracked_run_task handlers i t c (busy_tracked c Hb) Hi) as Ht. revert Ht.
  destruct Hb as [Htr Hc Hs Ha]. unfold run_task.
  assert (Task.at_phase t = Notify ∨ Task.at_phase t ≠ Notify) as [E|E]
    by (destruct (Task.at_phase t); naive_solver).
  - rewrite E. intros Ht. split; [done|done| |]; simpl.
    + intros u x Hx. destruct (Hs u x Hx) as [(y & Hy & <-)|Hd]; [|right; apply elem_of_app; by left].
      destruct (decide (Slot.task x = i)) as [<-|Hne].
      * right. apply elem_of_app. right. simplify_eq. by left.
      * left. exists y. simpl. by rewrite lookup_delete_ne.
    + intros j u [_ Hu]%lookup_delete_Some. by eauto.
  - destruct (next_phase_ok (Task.target_status t) (Task.ticket_id t) (Task.at_phase t) (context c))
      as (p' & x' & Hp). destruct (Task.at_phase t); try done; rewrite Hp; intros Ht; (split; [done|done| |]); simpl.
    all: intros u x.
    all: try (intros [[<- <-]|[_ Hu]]%lookup_insert_Some; [simpl|]; by eauto).
    all: intros Hx; destruct (Hs u x Hx) as [(y & Hy & <-)|Hd]; [left|by right].
    all: destruct (decide (Slot.task x = i)) as [<-|Hne].
    all: try (exists y; simpl; by rewrite lookup_insert_ne).
    all: eexists; simpl; rewrite lookup_insert_eq; split; [done|]; by simplify_eq.
Qed.

Lemma busy_exec l c c' : is_cancel l = false → busy c → exec handlers l c = Some c' → busy c'.
Proof.
  intros Hl Hb. pose proof (busy_cancel c Hb) as [Hq Ho]. destruct l; simpl; [| | | |done|].
  - unfold run_once. rewrite Hq, Ho. simpl. destruct (completion_rx c) as [|t q] eqn:Hd.
    + destruct (sent (context c)) as [|r q]; [done|]. intros [= <-]. by apply busy_request, busy_context.
    + intros [= <-]. by apply busy_completion.
  - intros (t & Hi & [= <-])%bind_Some. by apply busy_run.
  - intros (t & Hi & ?)%bind_Some. by rewrite (busy_alive c Hb i t Hi) in *.
  - intros [= <-]. by apply busy_context.
  - intros [= <-]. by apply busy_context.
Qed.

(** The start: every intent left over has its task. *)
Lemma busy_recover (x : ctx H) :
  one_intent_per_ticket (Prelude.tables (workflow_db x)) → busy (recover (idle x)).
Proof.
  intros Hone. destruct (tracked_recover x Hone) as [Ht Hq].
  assert (∀ (is_ : list WorkflowIntent.t) c, (∀ t y, in_flight c !! t = Some y → works_on (Slot.task y) t c) →
    (∀ i y, tasks c !! i = Some y → i < next_task c ∧ Task.aborted y = false) → cancel_open c = true →
    let c' := foldl recover_intent c is_ in
    (∀ t y, in_flight c' !! t = Some y → works_on (Slot.task y) t c')
    ∧ (∀ i y, tasks c' !! i = Some y → Task.aborted y = false) ∧ cancel_open c' = true) as Hfold.
  { induction is_ as [|i is_ IH]; intros c Hs Hn Ho; simpl; [naive_solver|].
    apply IH; clear IH; unfold recover_intent; destruct (workflows _ (context c)) as [r y]; cbv zeta.
    all: destruct (match r with Ok (Some w) => Workflow.stalled w | _ => false end); simpl; try done.
    - intros t z [[<- <-]|[_ Hz]]%lookup_insert_Some.
      + eexists. simpl. rewrite lookup_insert_eq. by split.
      + destruct (Hs t z Hz) as (u & Hu & Ht'). exists u. split; [|done]. simpl.
        rewrite lookup_insert_ne; [done|]. destruct (Hn _ _ Hu). lia.
    - intros j u [[<- <-]|[_ Hu]]%lookup_insert_Some; [split; [lia|done]|]. destruct (Hn _ _ Hu). split; [lia|done]. }
  revert Ht Hq. unfold recover. simpl. destruct (workflows list_intents x) as [[l|e] x']; intros Ht Hq.
  - destruct (Hfold l (with_context x' (idle x))) as (H1 & H2 & H3); [done|done|done|].
    split; [done|done|by left; apply H1|done].
  - by split.
Qed.

(** ** Fair executions *)

Record execution : Type := Execution { state_at : nat → coordinator H; label_at : nat → label (H:=H) }.
(** The loop is run when it has something to do, a task is polled when it is there;
    nothing is cancelled. *)
Record fair (e : execution) : Prop := Fair {
  fair_steps n : exec handlers (label_at e n) (state_at e n) = Some (state_at e (S n));
  fair_uncancelled n : is_cancel (label_at e n) = false;
  fair_select n : run_once (state_at e n) ≠ None → ∃ m, n ≤ m ∧ label_at e m = Select;
  fair_run n i : is_Some (tasks (state_at e n) !! i) →
    ∃ m, n ≤ m ∧ (label_at e m = Run i ∨ tasks (state_at e m) !! i = None)
}.

(** The loop takes the request; it takes the completion of a ticket; it starts the
    task of a request. *)
Definition takes (e : execution) (r : TransitionRequest.t) (n : nat) : Prop :=
  label_at e n = Select ∧ completion_rx (state_at e n) = []
  ∧ ∃ q, sent (context (state_at e n)) = r :: q.
Definition releases (e : execution) (ticket_id : string) (n : nat) : Prop :=
  label_at e n = Select ∧ ∃ q, completion_rx (state_at e n) = ticket_id :: q.
Definition starts (e : execution) (r : TransitionRequest.t) (n : nat) : Prop :=
  let i := next_task (state_at e n) in
  tasks (state_at e n) !! i = None
  ∧ tasks (state_at e (S n)) !! i
    = Some (Task.spawned (TransitionRequest.ticket_id r) (TransitionRequest.target_status r)).
Definition intent_refused (e : execution) (r : TransitionRequest.t) (n : nat) : Prop :=
  is_ok (workflows (create_intent (TransitionRequest.ticket_id r) (TransitionRequest.target_status r))
    (with_sent (tail (sent (context (state_at e n)))) (context (state_at e n)))).1 = false.

Section Execution.
Context (e : execution) (Hf : fair e) (Hbusy : busy (state_at e 0)).
Abbreviation σ := (state_at e).

Lemma busy_at n : busy (σ n).
Proof using All.
  induction n as [|n IH]; [done|]. eapply busy_exec; [apply (fair_uncancelled e Hf n)|done|apply (fair_steps e Hf)].
Qed.

(** Walking to the first step that matters, while [P] holds. *)
Lemma first_step (P : nat → Prop) (stop : nat → bool) n m :
  n ≤ m → stop m = true → P n → (∀ k, P k → stop k = false → P (S k)) →
  ∃ k, n ≤ k ∧ stop k = true ∧ P k.
Proof.
  intros Hle Hm Hn Hstep. remember (m - n) as d eqn:Hd. revert n Hle Hn Hd.
  induction d as [|d IH]; intros n Hle Hn Hd.
  - assert (n = m) as -> by lia. by exists m.
  - destruct (stop n) eqn:E; [by exists n|].
    destruct (IH (S n)) as (k & ? & ? & ?); [lia|by apply Hstep|lia|]. exists k. split; [lia|done].
Qed.

(** ** A running task ends *)

Definition phase_rank (p : phase) : nat :=
  match p with
  | UpdateStatus => 7 | SyncTicket => 6 | DropEvents => 5 | EmitEvent => 4 | Handle => 3 | Stall _ => 2
  | Cleanup => 1 | Notify => 0
  end.
Definition select_at (n : nat) : bool := match label_at e n with Select => true | _ => false end.
Definition run_at (i n : nat) : bool :=
  match label_at e n with Run j => bool_decide (j = i) | _ => false end.

Lemma select_once n : label_at e n = Select → run_once (σ n) = Some (σ (S n)).
Proof using All. intros Hl. pose proof (fair_steps e Hf n) as Hs. by rewrite Hl in Hs. Qed.
Lemma select_at_true n : select_at n = true ↔ label_at e n = Select.
Proof using Type. unfold select_at. by destruct (label_at e n). Qed.
Lemma run_at_true i n : run_at i n = true ↔ label_at e n = Run i.
Proof using Type.
  unfold run_at. destruct (label_at e n); try done. rewrite bool_decide_eq_true. naive_solver.
Qed.

(** What a step leaves of the queues and the slots, unless it is one of the loop. *)
Lemma other_step n : select_at n = false →
  in_flight (σ (S n)) = in_flight (σ n)
  ∧ (∃ more, completion_rx (σ (S n)) = completion_rx (σ n) ++ more)
  ∧ ∃ more, sent (context (σ (S n))) = sent (context (σ n)) ++ more.
Proof using All.
  intros Hl. pose proof (fair_steps e Hf n) as Hs. pose proof (fair_uncancelled e Hf n) as Hc.
  unfold select_at in Hl. destruct (label_at e n) as [|i|i|r|t|x]; try done; simpl in Hs.
  - apply bind_Some in Hs as (t & Hi & [= <-]). unfold run_task.
    assert (∀ p p' x', next_phase (handlers (Task.target_status t)) (Task.ticket_id t) (Task.target_status t) p
      (context (σ n)) = (Ok p', x') → ∃ more, sent x' = sent (context (σ n)) ++ more) as Hsent.
    { intros p p' x' Hp. pose proof (next_phase_sends (Task.target_status t) (Task.ticket_id t) p (context (σ n))) as Hn.
      by rewrite Hp in Hn. }
    destruct (next_phase_ok (Task.target_status t) (Task.ticket_id t) (Task.at_phase t) (context (σ n)))
      as (p' & x' & Hp). specialize (Hsent _ _ _ Hp). destruct (Task.at_phase t); rewrite ?Hp; simpl;
      (split_and!; [done|..]); try done; try (exists []; by rewrite app_nil_r). by eexists.
  - apply bind_Some in Hs as (t & Hi & Hs). by rewrite (busy_alive _ (busy_at n) i t Hi) in Hs.
  - injection Hs as <-. split_and!; [done|exists []; by rewrite app_nil_r|by eexists].
  - injection Hs as <-. split_and!; [done|exists []; by rewrite app_nil_r..].
Qed.
(** An iteration of the loop: the oldest completion first, then the oldest request. *)
Lemma loop_step n : label_at e n = Select →
  (∃ t q, completion_rx (σ n) = t :: q ∧ σ (S n) = handle_completion t (with_completion_rx q (σ n)))
  ∨ completion_rx (σ n) = []
    ∧ ∃ r q, sent (context (σ n)) = r :: q
        ∧ σ (S n) = handle_request r (with_context (with_sent q (context (σ n))) (σ n)).
Proof using All.
  intros Hs%select_once. unfold run_once in Hs. destruct (busy_cancel _ (busy_at n)) as [Hq Ho].
  rewrite Hq, Ho in Hs. simpl in Hs. destruct (completion_rx (σ n)) as [|t q].
  - right. split; [done|]. destruct (sent _) as [|r q]; [done|]. exists r, q. split; [done|congruence].
  - left. exists t, q. split; [done|congruence].
Qed.
Lemma completion_queues t q c :
  let c' := handle_completion t (with_completion_rx q c) in
  completion_rx c' = q ∧ context c' = context c.
Proof using Type. unfold handle_completion. simpl. repeat case_match; done. Qed.
Lemma request_queues r q c :
  let c' := handle_request r (with_context (with_sent q (context c)) c) in
  completion_rx c' = completion_rx c ∧ sent (context c') = q.
Proof using Type.
  unfold handle_request. simpl. destruct (context c) as [td wd h q0 b]. unfold with_sent. simpl.
  rewrite run_workflows. destruct (create_intent _ _ wd) as [[] wd']; simpl; repeat case_match; done.
Qed.

(** ** A running task ends *)

Lemma task_step i t n : tasks (σ n) !! i = Some t → run_at i n = false → tasks (σ (S n)) !! i = Some t.
Proof using All.
  intros Hi Hl. assert (¬ label_at e n = Run i) as Hne by (rewrite <-run_at_true; by destruct (run_at i n)).
  pose proof (fair_steps e Hf n) as Hs. pose proof (fair_uncancelled e Hf n) as Hc.
  pose proof (tracked_next _ (busy_tracked _ (busy_at n)) i (ex_intro _ t Hi)) as Hlt.
  assert (∀ u st c, tasks c !! i = Some t → i < next_task c →
    tasks (spawn_handler_task u st c) !! i = Some t) as Hspawn.
  { intros u st c Hu Hn. simpl. rewrite lookup_insert_ne by lia. done. }
  destruct (label_at e n) as [|j|j|r|u|x] eqn:El; try done; simpl in Hs; cycle 1.
  - apply bind_Some in Hs as (u & Hj & [= <-]). assert (j ≠ i) as Hij by (by intros ->).
    unfold run_task. destruct (Task.at_phase u); try (destruct (next_phase _ _ _ _ _) as [[]]); simpl;
      by rewrite ?lookup_insert_ne, ?lookup_delete_ne.
  - apply bind_Some in Hs as (u & Hj & Hs). by rewrite (busy_alive _ (busy_at n) j u Hj) in Hs.
  - by injection Hs as <-.
  - by injection Hs as <-.
  - destruct (loop_step n El) as [(u & q & _ & ->)|(_ & r & q & _ & ->)].
    + unfold handle_completion. simpl. destruct (in_flight (σ n) !! u) as [[k [r|]]|]; [|done..].
      by apply Hspawn.
    + unfold handle_request. simpl. destruct (workflows _ _) as [[w|er] x]; [|done]. simpl.
      destruct (in_flight (σ n) !! _); [done|]. by apply Hspawn.
Qed.
Lemma polled i t n : tasks (σ n) !! i = Some t →
  ∃ m, n ≤ m ∧ label_at e m = Run i ∧ tasks (σ m) !! i = Some t.
Proof using All.
  intros Hi. destruct (fair_run e Hf n i) as (m & Hm & Hr); [by exists t|].
  assert (∃ m', n ≤ m' ∧ run_at i m' = true) as (m' & Hm' & Hr').
  { destruct Hr as [Hr|Hgone]; [exists m; by rewrite run_at_true|].
    assert (∀ d, (∃ m', n ≤ m' ∧ run_at i m' = true) ∨ tasks (σ (n + d)) !! i = Some t) as Hd.
    { induction d as [|d IH]; [right; by rewrite Nat.add_0_r|]. destruct IH as [IH|IH]; [by left|].
      destruct (run_at i (n + d)) eqn:Er; [left; exists (n + d); split; [lia|done]|].
      right. rewrite Nat.add_succ_r. by apply task_step. }
    destruct (Hd (m - n)) as [?|Hl]; [done|]. replace (n + (m - n)) with m in Hl by lia. congruence. }
  destruct (first_step (λ k, tasks (σ k) !! i = Some t) (run_at i) n m' Hm' Hr' Hi) as (k & ? & Hk & ?).
  { intros k Hk. by apply task_step. }
  exists k. by rewrite <-run_at_true.
Qed.
Lemma next_phase_rank st t p x p' x' :
  next_phase (handlers st) t st p x = (Ok p', x') → p ≠ Notify → phase_rank p' < phase_rank p.
Proof using Type.
  intros Hp Hne. destruct p; simpl in *; try done; rewrite ?run_bind in Hp.
  all: repeat (case_match; simplify_eq/=; rewrite ?run_bind, ?run_attempt, ?run_ret, ?run_throw in * ); try lia.
  all: try (injection Hp as <- _; simpl; repeat case_match; simpl; lia).
Qed.
Lemma task_ends i t n : tasks (σ n) !! i = Some t →
  ∃ m, n ≤ m ∧ Task.ticket_id t ∈ completion_rx (σ m).
Proof using All.
  remember (phase_rank (Task.at_phase t)) as d eqn:Hd. revert t n Hd.
  induction d as [d IH] using lt_wf_ind. intros t n -> Hi.
  destruct (polled i t n Hi) as (m & Hm & Hl & Ht). pose proof (fair_steps e Hf m) as Hs.
  rewrite Hl in Hs. simpl in Hs. rewrite Ht in Hs. injection Hs as Hs. unfold run_task in Hs.
  assert (Task.at_phase t = Notify ∨ Task.at_phase t ≠ Notify) as [E|E]
    by (destruct (Task.at_phase t); naive_solver).
  - rewrite E in Hs. exists (S m). split; [lia|]. rewrite <-Hs. simpl. apply elem_of_app. right. by left.
  - destruct (next_phase_ok (Task.target_status t) (Task.ticket_id t) (Task.at_phase t) (context (σ m)))
      as (p' & x' & Hp). pose proof (next_phase_rank _ _ _ _ _ _ Hp E) as Hr.
    assert (tasks (σ (S m)) !! i = Some (Task.with_phase p' t)) as Hi'.
    { rewrite <-Hs. destruct (Task.at_phase t); try done; rewrite Hp; simpl; apply lookup_insert_eq. }
    destruct (IH _ Hr (Task.with_phase p' t) (S m) eq_refl Hi') as (k & Hk & Hin). exists k. split; [lia|done].
Qed.

(** ** A completion is handled *)

Lemma select_when_ready n : completion_rx (σ n) ≠ [] ∨ sent (context (σ n)) ≠ [] →
  ∃ m, n ≤ m ∧ select_at m = true.
Proof using All.
  intros Hr. destruct (fair_select e Hf n) as (m & Hm & Hl).
  - unfold run_once. destruct (busy_cancel _ (busy_at n)) as [-> ->]. simpl.
    destruct (completion_rx (σ n)); [|done]. destruct (sent _); [naive_solver|done].
  - exists m. by rewrite select_at_true.
Qed.
Lemma completion_handled t n : t ∈ completion_rx (σ n) → ∃ m, n ≤ m ∧ releases e t m.
Proof using All.
  intros (pre & post & Hq)%list_elem_of_split. revert n post Hq. induction pre as [|u pre IH]; intros n post Hq.
  - destruct (select_when_ready n) as (m & Hm & Hl); [left; by rewrite Hq|].
    destruct (first_step (λ k, ∃ q, completion_rx (σ k) = t :: q) select_at n m Hm Hl) as (k & ? & Hk & Hc).
    + by exists post.
    + intros k [q Hk] Hsel. destruct (other_step k Hsel) as (_ & (more & ->) & _). rewrite Hk. by eexists.
    + exists k. split; [done|]. by rewrite select_at_true in Hk.
  - destruct (select_when_ready n) as (m & Hm & Hl); [left; by rewrite Hq|].
    destruct (first_step (λ k, ∃ q, completion_rx (σ k) = u :: pre ++ t :: q) select_at n m Hm Hl)
      as (k & Hnk & Hk & q & Hc).
    + by exists post.
    + intros k [q Hk] Hsel. destruct (other_step k Hsel) as (_ & (more & ->) & _). rewrite Hk.
      exists (q ++ more). simpl. by rewrite <-app_assoc.
    + rewrite select_at_true in Hk. destruct (loop_step k Hk) as [(v & q' & Hv & Hn)|[Hv _]]; [|congruence].
      assert (completion_rx (σ (S k)) = pre ++ t :: q) as Hpop.
      { rewrite Hn. destruct (completion_queues v q' (σ k)) as [-> _]. congruence. }
      destruct (IH (S k) q Hpop) as (m' & Hm' & Hr). exists m'. split; [lia|done].
Qed.

(** ** A pending request gets a task *)

Lemma slot_step t i p n : in_flight (σ n) !! t = Some (Slot.mk i p) →
  releases e t n ∨ ∃ p', in_flight (σ (S n)) !! t = Some (Slot.mk i p')
    ∧ (p' = p ∨ ∃ r, p' = Some r ∧ takes e r n ∧ TransitionRequest.ticket_id r = t).
Proof using All.
  intros Hi. destruct (select_at n) eqn:Hl; cycle 1.
  { right. exists p. destruct (other_step n Hl) as (-> & _ & _). split; [done|by left]. }
  apply select_at_true in Hl. destruct (loop_step n Hl) as [(u & q & Hq & Hn)|(Hq & r & q & Hr & Hn)].
  - destruct (decide (u = t)) as [->|Hne]; [left; split; by eauto|]. right. exists p. split; [|by left].
    rewrite Hn. unfold handle_completion. simpl.
    destruct (in_flight (σ n) !! u) as [[k [r|]]|] eqn:Hu; simpl; [|by rewrite lookup_delete_ne|done].
    pose proof (tracked_pending _ (busy_tracked _ (busy_at n)) u k r Hu) as ->.
    by rewrite lookup_insert_ne, lookup_delete_ne.
  - right. rewrite Hn. unfold handle_request. simpl.
    destruct (workflows _ _) as [[w|er] x]; [|exists p; split; [done|by left]]. simpl.
    destruct (decide (TransitionRequest.ticket_id r = t)) as [Ht|Hne].
    + rewrite Ht, Hi. simpl. exists (Some r). rewrite lookup_insert_eq. split; [done|]. right. exists r.
      split_and!; [done| |done]. split_and!; [done|done|by exists q].
    + exists p. split; [|by left]. destruct (in_flight (σ n) !! TransitionRequest.ticket_id r); simpl; by rewrite lookup_insert_ne.
Qed.
Lemma slot_released t x n : in_flight (σ n) !! t = Some x → ∃ m, n ≤ m ∧ releases e t m.
Proof using All.
  intros Hx. destruct (busy_slot _ (busy_at n) t x Hx) as [(y & Hy & <-)|Hin]; [|by apply completion_handled].
  destruct (task_ends _ y n Hy) as (m & Hm & Hin). destruct (completion_handled _ m Hin) as (k & Hk & Hr).
  exists k. split; [lia|done].
Qed.
Lemma release_starts t i r n : in_flight (σ n) !! t = Some (Slot.mk i (Some r)) → releases e t n →
  starts e r n ∧ TransitionRequest.ticket_id r = t.
Proof using All.
  intros Hi [Hl [q Hq]]. pose proof (tracked_pending _ (busy_tracked _ (busy_at n)) t i r Hi) as Ht.
  destruct (loop_step n Hl) as [(u & q' & Hu & Hn)|[Hu _]]; [|congruence].
  assert (u = t) as -> by congruence. split; [|done]. split.
  - apply not_elem_of_dom. intros [y Hy]%elem_of_dom.
    pose proof (tracked_next _ (busy_tracked _ (busy_at n)) _ (ex_intro _ y Hy)). lia.
  - rewrite Hn. unfold handle_completion. simpl. rewrite Hi. simpl. apply lookup_insert_eq.
Qed.
Lemma pending_starts t i r n : in_flight (σ n) !! t = Some (Slot.mk i (Some r)) →
  ∃ m r', n ≤ m ∧ starts e r' m ∧ TransitionRequest.ticket_id r' = t
    ∧ (r' = r ∨ ∃ j, n ≤ j ∧ j < m ∧ takes e r' j).
Proof using All.
  intros Hi. destruct (slot_released t _ n Hi) as (m & Hm & Hrel).
  remember (m - n) as d eqn:Hd. revert n r Hi Hm Hd. induction d as [|d IH]; intros n r Hi Hm Hd.
  - assert (n = m) as -> by lia. exists m, r. destruct (release_starts t i r m Hi Hrel). split_and!; [done..|by left].
  - destruct (slot_step t i (Some r) n Hi) as [Hr|(p' & Hp & Hor)].
    { exists n, r. destruct (release_starts t i r n Hi Hr). split_and!; [done..|by left]. }
    assert (∃ r1, p' = Some r1 ∧ (r1 = r ∨ takes e r1 n)) as (r1 & -> & Hr1) by naive_solver.
    destruct (IH (S n) r1 Hp) as (k & r' & Hk & Hs & Ht & Hr'); [lia|lia|]. exists k, r'. split_and!; [lia|done|done|].
    destruct Hr' as [->|(j & Hj & Hjk & Htk)]; [|right; exists j; split_and!; [lia|done|done]].
    destruct Hr1 as [->|Htk]; [by left|right]. exists n. split_and!; [lia|lia|done].
Qed.
(** ** A request is taken *)

(** How many completions there can be before another request is taken. *)
Definition has_pending (kv : string * Slot.t) : Prop := is_Some (Slot.pending kv.2).
#[local] Instance has_pending_dec kv : Decision (has_pending kv).
Proof. unfold has_pending. apply _. Defined.
Definition backlog c : nat := size (in_flight c) + size (filter has_pending (in_flight c)).
Lemma completion_backlog t q c x : in_flight c !! t = Some x → tracked c →
  backlog (handle_completion t (with_completion_rx q c)) < backlog c.
Proof using Type.
  intros Hx Hc. unfold handle_completion. simpl. rewrite Hx. destruct x as [i [r|]]; unfold backlog; simpl.
  - rewrite (tracked_pending c Hc t i r Hx), insert_delete_eq.
    rewrite map_size_insert_Some by done. rewrite map_filter_insert_False by (by intros [? ?]).
    rewrite map_filter_delete, map_size_delete_Some.
    + assert (size (filter has_pending (in_flight c)) ≠ 0); [|lia]. apply map_size_non_empty_iff.
      intros He. assert (filter has_pending (in_flight c) !! t = Some (Slot.mk i (Some r))) as Hl; [|by rewrite He in Hl].
      apply map_lookup_filter_Some. split; [done|by exists r].
    + exists (Slot.mk i (Some r)). apply map_lookup_filter_Some. split; [done|by exists r].
  - rewrite map_size_delete_Some by done. rewrite map_filter_delete_not by (intros y Hy [? ?]; simplify_eq).
    assert (size (in_flight c) ≠ 0); [|lia]. apply map_size_non_empty_iff. intros He. by rewrite He in Hx.
Qed.
Lemma next_taken r q n : sent (context (σ n)) = r :: q →
  ∃ m, n ≤ m ∧ takes e r m ∧ ∃ more, sent (context (σ m)) = r :: q ++ more.
Proof using All.
  remember (backlog (σ n)) as d eqn:Hd. revert n q Hd. induction d as [d IH] using lt_wf_ind. intros n q -> Hs.
  destruct (select_when_ready n) as (m & Hm & Hl); [right; by rewrite Hs|].
  destruct (first_step (λ k, in_flight (σ k) = in_flight (σ n) ∧ ∃ more, sent (context (σ k)) = r :: q ++ more)
    select_at n m Hm Hl) as (k & Hk & Hsel & Hfl & more & Hsk).
  - split; [done|exists []; by rewrite app_nil_r].
  - intros k [Hk [more Hmk]] Hsel. destruct (other_step k Hsel) as (-> & _ & more' & ->). split; [done|].
    exists (more ++ more'). by rewrite Hmk, app_comm_cons, app_assoc.
  - apply select_at_true in Hsel.
    destruct (loop_step k Hsel) as [(t & q' & Hq & Hn)|(Hq & _)]; cycle 1.
    { exists k. split; [done|]. split; [split_and!; [done|done|by eexists]|by exists more]. }
    pose proof (busy_tracked _ (busy_at k)) as Htr. destruct (tracked_done _ Htr t) as (x & Hx & _); [rewrite Hq; by left|].
    pose proof (completion_backlog t q' (σ k) x Hx Htr) as Hlt. rewrite <-Hn in Hlt.
    assert (backlog (σ k) = backlog (σ n)) as Hb by (unfold backlog; by rewrite Hfl).
    destruct (completion_queues t q' (σ k)) as [_ Hc]. rewrite <-Hn in Hc.
    destruct (IH (backlog (σ (S k))) ltac:(lia) (S k) (q ++ more) eq_refl) as (j & Hj & Ht & more' & Hsj).
    { by rewrite Hc. }
    exists j. split; [lia|]. split; [done|]. exists (more ++ more'). by rewrite Hsj, app_assoc.
Qed.
Lemma request_taken r n : r ∈ sent (context (σ n)) → ∃ m, n ≤ m ∧ takes e r m.
Proof using All.
  intros (pre & post & Hs)%list_elem_of_split. revert n post Hs. induction pre as [|r0 pre IH]; intros n post Hs.
  - destruct (next_taken r post n Hs) as (m & ? & ? & _). by exists m.
  - destruct (next_taken r0 (pre ++ r :: post) n Hs) as (m & Hm & (Hl & Hq & _) & more & Hsm).
    destruct (loop_step m Hl) as [(t & q & Hq' & _)|(_ & r' & q & Hs' & Hn)]; [congruence|].
    assert (sent (context (σ (S m))) = pre ++ r :: post ++ more) as Hnext.
    { rewrite Hn. destruct (request_queues r' q (σ m)) as [_ ->]. rewrite Hsm in Hs'. injection Hs' as _ <-.
      by rewrite <-app_assoc, <-app_comm_cons. }
    destruct (IH (S m) _ Hnext) as (k & Hk & Ht). exists k. split; [lia|done].
Qed.
Lemma taken_starts r n : takes e r n → intent_refused e r n ∨
  ∃ m r', n ≤ m ∧ starts e r' m ∧ TransitionRequest.ticket_id r' = TransitionRequest.ticket_id r
    ∧ (r' = r ∨ ∃ j, n < j ∧ j < m ∧ takes e r' j).
Proof using All.
  intros (Hl & Hq & q & Hs).
  destruct (loop_step n Hl) as [(t & q' & Hq' & _)|(_ & r' & q' & Hs' & Hn)]; [congruence|].
  assert (r' = r ∧ q' = q) as [-> ->] by (rewrite Hs in Hs'; by simplify_eq).
  unfold intent_refused. rewrite Hs. simpl. unfold handle_request in Hn. simpl in Hn.
  destruct (workflows _ (with_sent q (context (σ n)))) as [[w|er] x]; [right|by left]. simpl in Hn.
  destruct (in_flight (σ n) !! TransitionRequest.ticket_id r) as [[i p]|] eqn:Hi.
  - destruct (pending_starts (TransitionRequest.ticket_id r) i r (S n)) as (m & r' & Hm & Hst & Ht & Hor).
    { rewrite Hn. simpl. apply lookup_insert_eq. }
    exists m, r'. split_and!; [lia|done|done|]. destruct Hor as [?|(j & ? & ? & ?)]; [by left|right].
    exists j. split_and!; [lia|done|done].
  - exists n, r. split_and!; [done| |done|by left]. split.
    + apply not_elem_of_dom. intros [y Hy]%elem_of_dom.
      pose proof (tracked_next _ (busy_tracked _ (busy_at n)) _ (ex_intro _ y Hy)). lia.
    + rewrite Hn. simpl. apply lookup_insert_eq.
Qed.
End Execution.

(** C2: Every request gets a handler.  In any infinite execution from a start of the
    server in which the loop and the tasks are scheduled fairly, nothing is cancelled
    and no handler panics, a request on its way is eventually taken; and then, unless
    the database refuses its intent, a handler task is eventually started, for the
    request itself or for a later request for the same ticket. *)
Theorem request_gets_handler (e : execution) (x : ctx H) r n :
  fair e → state_at e 0 = recover (idle x) → one_intent_per_ticket (Prelude.tables (workflow_db x)) →
  r ∈ sent (context (state_at e n)) →
  ∃ m, n ≤ m ∧ takes e r m ∧ (intent_refused e r m ∨
    ∃ k r', m ≤ k ∧ starts e r' k ∧ TransitionRequest.ticket_id r' = TransitionRequest.ticket_id r
      ∧ (r' = r ∨ ∃ j, m < j ∧ j < k ∧ takes e r' j)).
Proof using no_panic only_sends.
  intros Hf H0 Hone Hr. assert (busy (state_at e 0)) as Hb by (rewrite H0; by apply busy_recover).
  destruct (request_taken e Hf Hb r n Hr) as (m & Hm & Ht). exists m. split; [done|]. split; [done|].
  by apply taken_starts.
Qed.
End Liveness.

(** ** A concrete execution

    A request arrives while the ticket's handler runs; both are handled and then
    nothing happens for ever. *)

Section Witness.
#[local] Instance witness_env : Env := test_env.

Definition schedule : list (label (H:=unit)) :=
  [Request verifying; Select; Request pushing; Select] ++ task_steps 0 ++ [Select] ++ task_steps 1 ++ [Select].
Definition after (n : nat) : coordinator unit :=
  default (idle sample_ctx) (runs no_op_handlers (take n schedule) (recover (idle sample_ctx))).
Definition settled : coordinator unit := after (length schedule).
Definition sample_execution : @execution unit := {|
  state_at := after;
  label_at n := nth n schedule (Other (context settled))
|}.

Lemma after_settled n : length schedule ≤ n → after n = settled.
Proof. intros Hn. unfold settled, after. by rewrite !take_ge. Qed.
Lemma settled_quiet : run_once settled = None ∧ tasks settled = ∅ ∧ context settled = with_sent (sent (context settled)) (context settled).
Proof. vm_compute. by repeat split. Qed.
Lemma schedule_runs n : n < length schedule →
  exec no_op_handlers (nth n schedule (Other (context settled))) (after n) = Some (after (S n)).
Proof. intros Hn. do 20 (destruct n as [|n]; [vm_compute; reflexivity|]). simpl in Hn. lia. Qed.
Lemma sample_fair : fair no_op_handlers sample_execution.
Proof.
  destruct settled_quiet as (Hq & Ht & Hc). split; intros n; cbn [state_at label_at sample_execution].
  - destruct (decide (n < length schedule)) as [Hn|Hn]; [by apply schedule_runs|].
    rewrite nth_overflow by lia. rewrite !after_settled by lia. unfold exec. rewrite <-Hc. by destruct settled.
  - destruct (decide (n < length schedule)) as [Hn|Hn]; [|by rewrite nth_overflow by lia].
    assert (Forall (λ l, is_cancel l = false) schedule) as Hall by (repeat constructor).
    rewrite Forall_forall in Hall. apply Hall, list_elem_of_In, nth_In, Hn.
  - destruct (decide (n < length schedule)) as [Hn|Hn]; 
      [|intros Hr; exfalso; apply Hr; rewrite after_settled by lia; exact Hq].
    intros _. exists 19. simpl in Hn. split; [lia|reflexivity].
  - intros i _. exists (n + length schedule). split; [lia|]. right. rewrite after_settled by lia. by rewrite Ht.
Qed.

Lemma request_gets_handler_witness :
  pushing ∈ sent (context (after 3))
  ∧ ∃ m, 3 ≤ m ∧ takes sample_execution pushing m ∧ (intent_refused sample_execution pushing m ∨
    ∃ k r', m ≤ k ∧ starts sample_execution r' k ∧ TransitionRequest.ticket_id r' = "ur-1"
      ∧ (r' = pushing ∨ ∃ j, m < j ∧ j < k ∧ takes sample_execution r' j)).
Proof.
  assert (pushing ∈ sent (context (after 3))) as Hin by (vm_compute; left).
  split; [exact Hin|]. apply (request_gets_handler no_op_handlers) with (x := sample_ctx) (n := 3).
  - intros st h t x Hh. injection Hh as <-. discriminate.
  - intros st h t x Hh. injection Hh as <-. exists []. simpl. by rewrite app_nil_r.
  - exact sample_fair.
  - reflexivity.
  - intros i j a b Hi. simpl in Hi. by apply lookup_empty_Some in Hi.
  - exact Hin.
Defined.
End Witness.
