(* ===== verification/CoordinatorTasks.v ===== *)
(** * What a handler task and the event engine do

    The functional behaviour of [run_handler] and [poll_once] on databases that
    answer. *)

From S2P Require Import Prelude RustStd Model Env TicketDb TicketGraph TicketRepo TicketUpdates.
From S2P Require Import WorkflowDb WorkflowRepo WorkflowInvariant WorkflowProps Context Coordinator.
From Stdlib Require Import Lia.
Local Open Scope stdpp_scope.

Section Tasks.
Context {HE : Env} {H : Type}.

(** A context whose workflow database answers and is sound. *)
Definition healthy (x : ctx H) : Prop :=
  faults (workflow_db x) = [] ∧ wwf (tables (workflow_db x)).

Definition on_workflow_tables (f : wtables → wtables) (x : ctx H) : ctx H :=
  Ctx (ticket_db x) (Pool (f (tables (workflow_db x))) (faults (workflow_db x)) (ticks (workflow_db x)))
    (outside x) (sent x) (receiving x).

(** ** Cleaning up *)

Definition intent_matches (ticket_id : string) (target : LifecycleStatus) (r : IntentRow.t) : Prop :=
  IntentRow.ticket_id r = ticket_id
  ∧ LifecycleStatus.parse_or_default (IntentRow.target_status r) = target.
#[local] Instance intent_matches_dec ticket_id target r : Decision (intent_matches ticket_id target r).
Proof. unfold intent_matches. apply _. Defined.

Definition without_intents (ticket_id : string) (target : LifecycleStatus) (s : wtables) : wtables :=
  WorkflowTables.set_intent
    (filter (λ kv, ¬ intent_matches ticket_id target kv.2) (WorkflowTables.workflow_intent s)) s.

Lemma delete_matching ticket_id target (l : list IntentRow.t) (x : ctx H) :
  faults (workflow_db x) = [] →
  for_each (λ i,
    when (bool_decide (WorkflowIntent.ticket_id i = ticket_id)
          && bool_decide (WorkflowIntent.target_status i = target))
      (ignore_err (workflows (delete_intent (WorkflowIntent.id i)))))
    (intent_of <$> l) x
  = (Ok tt : result unit anyhow, on_workflow_tables (λ s, WorkflowTables.set_intent
      (filter (λ kv, kv.1 ∉ IntentRow.id <$> filter (intent_matches ticket_id target) l)
         (WorkflowTables.workflow_intent s)) s) x).
Proof.
  revert x. induction l as [|r l IH]; intros [t [s fs n] h q b] Hfs; simpl in Hfs; subst fs.
  { cbn [fmap list_fmap for_each]. rewrite run_ret. do 2 f_equal. unfold on_workflow_tables. simpl.
    rewrite map_filter_id; [by destruct s|]. intros i y _. apply not_elem_of_nil. }
  cbn [fmap list_fmap for_each]. rewrite run_bind.
  change (list_fmap IntentRow.t WorkflowIntent.t intent_of l) with (intent_of <$> l).
  destruct (decide (intent_matches ticket_id target r)) as [[H1 H2]|Hm].
  - rewrite filter_cons_True by (by split). rewrite !bool_decide_eq_true_2 by done. cbn [andb when].
    rewrite run_ignore_err, run_workflows. unfold delete_intent. rewrite run_update_stmt. cbn [fst snd].
    rewrite IH by done. unfold on_workflow_tables. cbn. do 3 f_equal.
    unfold WorkflowTables.set_intent. cbn. f_equal.
    apply map_eq. intros i. apply option_eq. intros y.
    rewrite !map_lookup_filter_Some, lookup_delete_Some. simpl. rewrite not_elem_of_cons. naive_solver.
  - rewrite filter_cons_False by done.
    replace (bool_decide _ && bool_decide _) with false.
    + cbn [when]. rewrite run_ret. by apply IH.
    + symmetry. apply not_true_iff_false. by rewrite andb_true_iff, !bool_decide_eq_true.
Qed.

Lemma run_cleanup_intent ticket_id target (x : ctx H) :
  healthy x →
  cleanup_intent ticket_id target x
  = (Ok tt, on_workflow_tables (without_intents ticket_id target) x).
Proof.
  intros [Hfs [[_ [Hkeys _]] _ _ _ _]]. unfold cleanup_intent, list_intents.
  rewrite run_bind, run_attempt. destruct x as [t [s fs n] h q b]. simpl in *. subst fs.
  rewrite run_workflows, run_select. cbn [fst snd].
  rewrite delete_matching by done. unfold on_workflow_tables, without_intents. cbn. do 4 f_equal.
  apply map_eq. intros i. apply option_eq. intros r.
  rewrite !map_lookup_filter_Some. simpl. rewrite list_elem_of_fmap.
  split; intros [Hi Hn]; (split; [done|]).
  - intros Hm. apply Hn. exists r. split; [symmetry; by apply Hkeys|].
    apply list_elem_of_filter. split; [done|]. apply elem_of_order_by, elem_of_rows. eauto.
  - intros (r' & -> & [Hm (j & Hj)%elem_of_order_by%elem_of_rows]%list_elem_of_filter).
    rewrite (Hkeys j r' Hj) in Hi. by simplify_eq.
Qed.

Lemma run_stall ticket_id msg (x : ctx H) :
  faults (workflow_db x) = [] →
  stall ticket_id msg x
  = (Ok tt, on_workflow_tables (λ s, WorkflowTables.set_workflow
      (update_where (active_for ticket_id) (W.set_stall true msg) (WorkflowTables.workflow s)) s) x).
Proof.
  destruct x as [t [s fs n] h q b]. simpl. intros ->. unfold stall.
  by rewrite run_ignore_err, run_workflows.
Qed.

(** ** Running a handler *)

(** The state in which the handler is entered, from the state [x]: the ticket's
    active workflows have the status and no others changed, no row was added or
    removed, the ticket has the lifecycle status, the queue of events for the
    ticket is empty, and the transition is in the history. *)
Record entered (ticket_id : string) (target : LifecycleStatus) (x x1 : ctx H) : Prop := Entered {
  entered_workflows :
    WorkflowTables.workflow (tables (workflow_db x1))
    = update_where (active_for ticket_id) (W.set_status (LifecycleStatus.as_str target))
        (WorkflowTables.workflow (tables (workflow_db x)));
  entered_ticket : ∀ r, TicketTables.ticket (tables (ticket_db x)) !! ticket_id = Some r →
    tables (ticket_db x1) = TicketTables.set_ticket
      (<[ticket_id := updated_row (TicketUpdate.of_lifecycle target)
                        (now_rfc3339 (ticks (ticket_db x))) r]>
         (TicketTables.ticket (tables (ticket_db x)))) (tables (ticket_db x));
  entered_events : ∀ i e,
    WorkflowTables.workflow_event (tables (workflow_db x1)) !! i = Some e → EventRow.ticket_id e ≠ ticket_id;
  entered_history : LifecycleStatus.is_terminal target = false →
    (∃ i w, WorkflowTables.workflow (tables (workflow_db x)) !! i = Some w ∧ active_for ticket_id w = true) →
    WorkflowTables.workflow_events (tables (workflow_db x)) !! uuid_v4 (ticks (workflow_db x)) = None →
    ∃ i w e, WorkflowTables.workflow (tables (workflow_db x)) !! i = Some w
      ∧ active_for ticket_id w = true
      ∧ WorkflowTables.workflow_events (tables (workflow_db x1)) !! uuid_v4 (ticks (workflow_db x)) = Some e
      ∧ HistoryRow.workflow_id e = W.id w
      ∧ HistoryRow.event e = WorkflowEvent.as_str (lifecycle_status_to_event target);
  entered_intents :
    WorkflowTables.workflow_intent (tables (workflow_db x1)) = WorkflowTables.workflow_intent (tables (workflow_db x));
  entered_rest : outside x1 = outside x ∧ sent x1 = sent x ∧ receiving x1 = receiving x;
  entered_healthy : healthy x1
}.

Definition prologue (ticket_id : string) (target : LifecycleStatus) : SE (ctx H) anyhow unit :=
  begin_status ticket_id target ;; sync_ticket ticket_id target ;; drop_events ticket_id ;;
  emit_workflow_event ticket_id target.

Lemma run_sync_ticket ticket_id target (x : ctx H) :
  faults (ticket_db x) = [] → wf (tables (ticket_db x)) →
  ∃ s n, sync_ticket ticket_id target x
      = (Ok tt, Ctx (Pool s [] n) (workflow_db x) (outside x) (sent x) (receiving x))
    ∧ ∀ r, TicketTables.ticket (tables (ticket_db x)) !! ticket_id = Some r →
        s = TicketTables.set_ticket
          (<[ticket_id := updated_row (TicketUpdate.of_lifecycle target)
                            (now_rfc3339 (ticks (ticket_db x))) r]>
             (TicketTables.ticket (tables (ticket_db x)))) (tables (ticket_db x)).
Proof.
  destruct x as [[s fs n] d h q b]. simpl. intros -> Hwf. unfold sync_ticket.
  rewrite run_ignore_err, run_tickets. destruct (TicketTables.ticket s !! ticket_id) as [r|] eqn:Hr.
  - rewrite (run_update_ticket s Hwf ticket_id _ n r Hr) by done. eexists _, _. split; [done|].
    intros r' [= <-]. done.
  - unfold update_ticket, get_ticket. rewrite run_bind, run_select, Hr. by eexists _, _.
Qed.

Lemma run_emit ticket_id target (x : ctx H) :
  healthy x →
  ∃ m n, emit_workflow_event ticket_id target x
      = (Ok tt, Ctx (ticket_db x) (Pool (WorkflowTables.set_history m (tables (workflow_db x))) [] n)
                  (outside x) (sent x) (receiving x))
    ∧ wwf (WorkflowTables.set_history m (tables (workflow_db x)))
    ∧ ((∃ i w, WorkflowTables.workflow (tables (workflow_db x)) !! i = Some w
          ∧ active_for ticket_id w = true) →
       WorkflowTables.workflow_events (tables (workflow_db x)) !! uuid_v4 (ticks (workflow_db x)) = None →
       ∃ i w e, WorkflowTables.workflow (tables (workflow_db x)) !! i = Some w
         ∧ active_for ticket_id w = true
         ∧ m !! uuid_v4 (ticks (workflow_db x)) = Some e
         ∧ HistoryRow.workflow_id e = W.id w
         ∧ HistoryRow.event e = WorkflowEvent.as_str (lifecycle_status_to_event target)).
Proof.
  destruct x as [t [s fs n] h q b]. intros [Hfs Hwf]. simpl in *. subst fs.
  assert (∀ n', ∃ m n0, (Ok tt, Ctx t (Pool s [] n') h q b)
      = (Ok tt : result unit anyhow, Ctx t (Pool (WorkflowTables.set_history m s) [] n0) h q b)
    ∧ m = WorkflowTables.workflow_events s ∧ wwf (WorkflowTables.set_history m s)) as Hsame.
  { intros n'. exists (WorkflowTables.workflow_events s), n'. by destruct s. }
  unfold emit_workflow_event. rewrite run_bind, run_attempt, run_workflows.
  destruct (get_workflow_by_ticket_spec s ticket_id n) as (o & -> & Hnone & Hsome). cbn [fst snd].
  destruct o as [w|].
  - destruct (Hsome w eq_refl) as (i & r & Hi & Ha & ->). rewrite run_ignore_err, run_workflows.
    unfold insert_workflow_event, insert_history.
    rewrite run_bind, run_new_uuid, run_bind, run_utc_now, run_statement.
    pose proof (wwf_keys s Hwf) as [Hkeys _]. pose proof (Hkeys i r Hi) as Hid. simpl in Hid.
    destruct (insert_row _ _ _) as [m|e] eqn:Hins; cbn [fst snd].
    + rewrite decide_True by (apply elem_of_dom; simpl; rewrite Hid; by eexists). cbn [fst snd].
      apply insert_row_Ok in Hins as [Hfresh ->]. eexists _, _. split; [done|]. split.
      * pose proof (winv_insert_history ∅ (uuid_v4 n) (W.id r) (lifecycle_status_to_event target)
          (now_rfc3339 (S n)) (Pool s [] n)) as Hpres.
        unfold insert_history in Hpres. rewrite run_statement, insert_row_fresh in Hpres by done.
        rewrite decide_True in Hpres by (apply elem_of_dom; rewrite Hid; by eexists).
        apply Hpres. split; [done|apply map_empty_subseteq].
      * intros _ _. exists i, r. eexists. rewrite lookup_insert_eq. done.
    + destruct (Hsame (S (S n))) as (m & n0 & -> & -> & Hm). exists (WorkflowTables.workflow_events s), n0.
      split; [done|]. split; [done|]. intros _ Hfresh. rewrite insert_row_fresh in Hins by done. done.
  - rewrite run_ret. destruct (Hsame n) as (m & n0 & -> & -> & Hm).
    exists (WorkflowTables.workflow_events s), n0. split; [done|]. split; [done|].
    intros (i & w & Hi & Ha) _. destruct Hnone as [Hnone _]. by rewrite (Hnone eq_refl i w Hi) in Ha.
Qed.
Lemma run_prologue ticket_id target (x : ctx H) :
  healthy x → faults (ticket_db x) = [] → wf (tables (ticket_db x)) →
  ∃ x1, prologue ticket_id target x = (Ok tt, x1) ∧ entered ticket_id target x x1.
Proof.
  destruct x as [[ts ft nt] [ws fs n] h q b]. intros [Hfs Hwf] Hft Hts. simpl in Hfs, Hft, Hts, Hwf. subst fs ft.
  unfold prologue, begin_status, drop_events.
  rewrite !run_bind, run_attempt, run_workflows. unfold update_workflow_status, update_active.
  rewrite run_update_stmt. cbn [fst snd]. rewrite run_ret, run_bind.
  set (ws1 := WorkflowTables.set_workflow _ ws).
  assert (wwf ws1) as Hws1.
  { pose proof (winv_update_active_op ∅ (map_Forall_empty _) ticket_id
      (W.set_status (LifecycleStatus.as_str target)) (λ _, eq_refl) (Pool ws [] n)) as Hp. apply Hp. split; [done|apply map_empty_subseteq]. }
  destruct (run_sync_ticket ticket_id target (Ctx (Pool ts [] nt) (Pool ws1 [] n) h q b))
    as (ts1 & nt1 & -> & Hts1); [done|done|]. cbn [workflow_db outside sent receiving].
  rewrite run_bind, run_ignore_err, run_workflows. unfold delete_workflow_events_for_ticket.
  rewrite run_update_stmt. cbn [fst snd].
  match goal with |- context [Pool (WorkflowTables.set_event ?m ws1) [] n] =>
    set (ws2 := WorkflowTables.set_event m ws1) end.
  assert (wwf ws2) as Hws2.
  { destruct (winv_set_event ∅ (filter (λ kv, EventRow.ticket_id kv.2 ≠ ticket_id)
      (WorkflowTables.workflow_event ws1)) ws1) as [? _]; [|done]. split; [done|apply map_empty_subseteq]. }
  destruct (run_emit ticket_id target (Ctx (Pool ts1 [] nt1) (Pool ws2 [] n) h q b))
    as (m & n1 & -> & Hws3 & Hhist); [done|]. eexists. split; [done|].
  split; [done|exact Hts1| | |done|done|done].
  - intros i e He. simpl in He. by apply map_lookup_filter_Some in He as [_ ?].
  - simpl in *. intros Hterm (i & w & Hi & Ha) Hfresh.
    assert (∀ j v, WorkflowTables.workflow ws1 !! j = Some v → active_for ticket_id v = true →
      ∃ v0, WorkflowTables.workflow ws !! j = Some v0 ∧ active_for ticket_id v0 = true ∧ W.id v = W.id v0)
      as Hback.
    { intros j v Hv Hav. simpl in Hv. rewrite lookup_update_where in Hv.
      apply fmap_Some in Hv as (v0 & Hv0 & ->). exists v0. split; [done|].
      destruct (active_for ticket_id v0) eqn:Ha0; [done|]. by rewrite Ha0 in Hav. }
    destruct Hhist as (j & v & e & Hj & Hav & He & Hwid & Hev); [|done|].
    + exists i, (W.set_status (LifecycleStatus.as_str target) w).
      rewrite lookup_update_where, Hi. simpl. rewrite Ha. split; [done|].
      apply active_for_true in Ha as [Ht _]. apply active_for_true. split; [done|].
      by rewrite active_terminal, Hterm.
    + destruct (Hback j v Hj Hav) as (v0 & Hv0 & Ha0 & Hid). exists j, v0, e. by rewrite <-Hid.
Qed.

(** What [run_handler] does after the prologue. *)
Definition continue (h : option (handler H)) (ticket_id : string) (target : LifecycleStatus)
    : SE (ctx H) anyhow unit :=
  match h with
  | None => cleanup_intent ticket_id target
  | Some h =>
      r ← attempt (h ticket_id);
      match r with
      | Ok _ => cleanup_intent ticket_id target
      | Err (Anyhow msg) => handle_failure ticket_id target msg
      | Err Panic => throw Panic
      end
  end.

Lemma run_handler_prologue (h : option (handler H)) ticket_id target (x x1 : ctx H) :
  prologue ticket_id target x = (Ok tt, x1) →
  run_handler h ticket_id target x = continue h ticket_id target x1.
Proof.
  intros Hpro. unfold prologue in Hpro. unfold run_handler. rewrite !run_bind in *.
  destruct (begin_status _ _ x) as [[[]|] y1]; [|done]. rewrite !run_bind in *.
  destruct (sync_ticket _ _ y1) as [[[]|] y2]; [|done]. rewrite !run_bind in *.
  destruct (drop_events _ y2) as [[[]|] y3]; [|done]. rewrite !run_bind in *.
  by rewrite Hpro.
Qed.

(** The rest of the task, once the handler has answered. *)
Definition left_after (ticket_id : string) (target : LifecycleStatus)
    (r : result unit anyhow) (x : ctx H) : result unit anyhow * ctx H :=
  match r with
  | Ok _ => (Ok tt, on_workflow_tables (without_intents ticket_id target) x)
  | Err (Anyhow msg) => (Ok tt, on_workflow_tables (λ s, without_intents ticket_id target
      (WorkflowTables.set_workflow (update_where (active_for ticket_id) (W.set_stall true msg)
         (WorkflowTables.workflow s)) s)) x)
  | Err Panic => (Err Panic, x)
  end.

(** A handler task enters the status before it runs the handler (workflow and
    ticket have it, the ticket's queued events are gone, the history records it,
    no workflow is created), runs the handler once, and then removes exactly the
    intents for this ticket and status; when the handler fails the workflow is
    stalled with its message, and when it panics nothing more is done. *)
Theorem run_handler_spec (h : handler H) ticket_id target (x : ctx H) :
  healthy x → faults (ticket_db x) = [] → wf (tables (ticket_db x)) →
    (∀ y, healthy y → healthy (h ticket_id y).2) →
  ∃ x1, entered ticket_id target x x1
    ∧ run_handler (Some h) ticket_id target x
      = left_after ticket_id target (h ticket_id x1).1 (h ticket_id x1).2.
Proof.
  intros Hx Hft Hts Hh. destruct (run_prologue ticket_id target x Hx Hft Hts) as (x1 & Hpro & Hent).
  exists x1. split; [done|].
  rewrite (run_handler_prologue (Some h) _ _ _ _ Hpro). cbn [continue].
  rewrite run_bind, run_attempt. specialize (Hh x1 (entered_healthy _ _ _ _ Hent)).
  destruct (h ticket_id x1) as [[[]|[msg|]] x2]; cbn [fst snd] in *; [|
    |done].
  - by apply run_cleanup_intent.
  - unfold handle_failure. rewrite run_bind. destruct Hh as [Hf2 Hw2].
    rewrite run_stall by done. rewrite run_cleanup_intent; [done|]. split; [done|].
    pose proof (winv_update_active_op ∅ (map_Forall_empty _) ticket_id (W.set_stall true msg)
      (λ _, eq_refl) (Pool (tables (workflow_db x2)) [] 0)) as Hp.
    apply Hp. split; [done|apply map_empty_subseteq].
Qed.
(** [run_handler] does not create the workflow of a ticket that has none: the
    update of no row succeeds, so the branch that creates one is not taken, and
    the ticket is still without an active workflow at the end. *)
Theorem missing_workflow_not_created ticket_id target (x : ctx H) :
  healthy x → faults (ticket_db x) = [] → wf (tables (ticket_db x)) →
    (∀ i w, WorkflowTables.workflow (tables (workflow_db x)) !! i = Some w → active_for ticket_id w = false) →
  ∃ x', run_handler None ticket_id target x = (Ok tt, x')
    ∧ WorkflowTables.workflow (tables (workflow_db x')) = WorkflowTables.workflow (tables (workflow_db x)).
Proof.
  intros Hx Hft Hts Hnone. destruct (run_prologue ticket_id target x Hx Hft Hts) as (x1 & Hpro & Hent).
  exists (on_workflow_tables (without_intents ticket_id target) x1). split.
  { rewrite (run_handler_prologue None _ _ _ _ Hpro). apply run_cleanup_intent, Hent. }
  simpl. rewrite (entered_workflows _ _ _ _ Hent). apply map_eq. intros i. rewrite lookup_update_where.
  destruct (_ !! i) as [w|] eqn:Hi; [|done]. simpl. by rewrite (Hnone i w Hi).
Qed.

(** ** The event engine *)

Definition without_event (id : string) : ctx H → ctx H :=
  on_workflow_tables (λ s, WorkflowTables.set_event (delete id (WorkflowTables.workflow_event s)) s).

Lemma run_delete_event id (x : ctx H) :
  faults (workflow_db x) = [] → delete_event id x = (Ok tt, without_event id x).
Proof.
  destruct x as [t [s fs n] h q b]. simpl. intros ->. unfold delete_event.
  by rewrite run_ignore_err, run_workflows.
Qed.

(** The event at the head of the queue, and whether the ticket still is in the
    status the event announces. *)
Definition next_event (s : wtables) : option EventRow.t :=
  head (order_by by_event_id (rows (WorkflowTables.workflow_event s))).
Definition current (e : EventRow.t) (s : tables_t) : bool :=
  match TicketTables.ticket s !! EventRow.ticket_id e with
  | None => false
  | Some r => R.lifecycle_managed r && bool_decide
      (LifecycleStatus.parse_or_default (R.lifecycle_status r)
       = LifecycleStatus.parse_or_default (EventRow.new_lifecycle_status e))
  end.

(** The engine takes the oldest event off the queue whatever happens to it,
    unless the handler panics: it runs the registered handler exactly when the
    ticket exists, is managed and still has the status the event announces, and
    stalls the workflow when the handler fails. *)
Theorem poll_once_spec (handlers : LifecycleStatus → option (handler H)) (x : ctx H) :
  healthy x → faults (ticket_db x) = [] → (∀ st h t y, handlers st = Some h → healthy y → healthy (h t y).2) →
  poll_once handlers x =
    match next_event (tables (workflow_db x)) with
    | None => (Ok tt, x)
    | Some e =>
        match (if current e (tables (ticket_db x))
               then handlers (LifecycleStatus.parse_or_default (EventRow.new_lifecycle_status e))
               else None) with
        | None => (Ok tt, without_event (EventRow.id e) x)
        | Some h =>
            match h (EventRow.ticket_id e) x with
            | (Ok _, y) => (Ok tt, without_event (EventRow.id e) y)
            | (Err (Anyhow msg), y) =>
                (Ok tt, without_event (EventRow.id e) (on_workflow_tables (λ s,
                   WorkflowTables.set_workflow (update_where (active_for (EventRow.ticket_id e))
                     (W.set_stall true msg) (WorkflowTables.workflow s)) s) y))
            | (Err Panic, y) => (Err Panic, y)
            end
        end
    end.
Proof.
  intros [Hfs Hwf] Hft Hh. unfold poll_once, poll_workflow_event, next_event.
  destruct x as [[ts ft nt] [ws fs n] hx q b]. simpl in Hfs, Hft, Hwf. subst fs ft.
  rewrite run_bind, run_attempt, run_workflows, run_select. cbn [fst snd tables workflow_db].
  destruct (head _) as [e|]; [|done]. cbn [fmap option_fmap option_map].
  rewrite run_bind, run_attempt, run_tickets. unfold get_ticket. rewrite run_select.
  cbn [fst snd tables ticket_db]. unfold current.
  change (WorkflowEventQ.ticket_id (event_of e)) with (EventRow.ticket_id e).
  destruct (TicketTables.ticket ts !! EventRow.ticket_id e) as [r|] eqn:Hr;
    cbn [fmap option_fmap option_map]; [|by apply run_delete_event].
  change (Ticket.lifecycle_managed (ticket_from_row ts r)) with (R.lifecycle_managed r).
  destruct (R.lifecycle_managed r); cbn [negb andb]; [|by apply run_delete_event].
  change (Ticket.lifecycle_status (ticket_from_row ts r))
    with (LifecycleStatus.parse_or_default (R.lifecycle_status r)).
  change (WorkflowEventQ.new_lifecycle_status (event_of e))
    with (LifecycleStatus.parse_or_default (EventRow.new_lifecycle_status e)).
  destruct (bool_decide _); cbn [negb]; [|by apply run_delete_event].
  destruct (handlers _) as [h|] eqn:Hhe; [|by apply run_delete_event].
  rewrite run_bind, run_attempt.
  pose proof (Hh _ h (EventRow.ticket_id e) (Ctx (Pool ts [] nt) (Pool ws [] n) hx q b) Hhe
    ltac:(by split)) as [Hf _].
  destruct (h _ _) as [[[]|[msg|]] y]; cbn [fst snd] in *; [by apply run_delete_event| |done].
  rewrite run_bind, run_stall by done. by rewrite run_delete_event.
Qed.
End Tasks.

(** ** Witnesses *)

(** The ticket "ur-1", managed and being implemented, with the workflow [a] (or
    only the cancelled [b]) and one queued event. *)
Definition sample_event : EventRow.t := EventRow.mk "e1" "ur-1" "open" "implementing" 0 "2024".
Definition sample_managed : R.t :=
  R.mk "ur-1" "ur" "code" "open" "implementing" true 1 None "t" "" None "2024" "2024".
Definition task_ctx (ws : wtables) : ctx unit :=
  Ctx (Pool (TicketTables.set_ticket {[ "ur-1" := sample_managed ]} TicketTables.empty) [] 0)
    (Pool (WorkflowTables.set_event {[ "e1" := sample_event ]} ws) [] 0) tt [] true.

Lemma task_ctx_wf ws : wf (tables (ticket_db (task_ctx ws))).
Proof. apply (bool_decide_unpack _). vm_compute. exact I. Qed.
Lemma task_ctx_healthy ws : wwf ws → healthy (task_ctx ws).
Proof. intros [? ? ? ? ?]. split; [done|by split]. Qed.

Definition succeeds : handler unit := λ _, mret tt.
Definition fails : handler unit := λ _, throw (Anyhow "no worker").

Lemma run_handler_spec_witness :
  ∃ x1, @entered test_env unit "ur-1" LifecycleStatus.Verifying (task_ctx (sample_workflows 0)) x1
    ∧ @run_handler test_env unit (Some fails) "ur-1" LifecycleStatus.Verifying
        (task_ctx (sample_workflows 0))
      = left_after "ur-1" LifecycleStatus.Verifying (Err (Anyhow "no worker")) x1.
Proof.
  apply (@run_handler_spec test_env unit fails "ur-1" LifecycleStatus.Verifying
    (task_ctx (sample_workflows 0))).
  - apply task_ctx_healthy, sample_workflows_wwf.
  - reflexivity.
  - apply task_ctx_wf.
  - intros y Hy. exact Hy.
Defined.

Lemma missing_workflow_not_created_witness :
  ∃ x', @run_handler test_env unit None "ur-1" LifecycleStatus.Implementing
      (task_ctx WorkflowTables.empty) = (Ok tt, x')
    ∧ WorkflowTables.workflow (tables (workflow_db x')) = ∅.
Proof.
  apply (@missing_workflow_not_created test_env unit "ur-1" LifecycleStatus.Implementing
    (task_ctx WorkflowTables.empty)).
  - apply task_ctx_healthy, wwf_empty.
  - reflexivity.
  - apply task_ctx_wf.
  - intros i w Hi. simpl in Hi. by apply lookup_empty_Some in Hi.
Defined.

Lemma poll_once_spec_witness :
  @poll_once unit (λ _, Some succeeds) (task_ctx (sample_workflows 0))
  = (Ok tt, without_event "e1" (task_ctx (sample_workflows 0))).
Proof.
  apply (@poll_once_spec unit (λ _, Some succeeds) (task_ctx (sample_workflows 0))).
  - apply task_ctx_healthy, sample_workflows_wwf.
  - reflexivity.
  - intros st h t y [= <-] Hy. exact Hy.
Defined.
