(* ===== verification/Host.v ===== *)
(** * The world outside the server

    What the handlers reach through gRPC and the file system is not code of the
    server: the commands the builder daemon runs ([git], [gh], hook scripts), the
    daemons of the workers, the log files, and the parsing of JSON ([serde_json]).
    They are the operations of [Host], on an abstract state [host].

    On top of them, as in [ur_rpc/src/stream.rs] and [builderd.rs]: collecting the
    frames of a command's output into a [CompletedExec]. *)

From S2P Require Import Prelude RustStd.
From Stdlib Require Import Ascii String Lia.
Local Open Scope stdpp_scope.

(** The [ErrorInfo] of a status ([tonic_types]): what [status_with_info] attaches. *)
Module ErrorInfo.
Record t : Type := mk { reason : string; domain : string; metadata : gmap string string }.
End ErrorInfo.

(** [tonic::Status] *)
Module Status.
Inductive code : Type :=
| Internal | NotFound | InvalidArgument | FailedPrecondition | Unavailable | OtherCode (n : nat).
#[global] Instance code_eq_dec : EqDecision code.
Proof. solve_decision. Defined.
Record t : Type := mk { code_of : code; message : string; info : option ErrorInfo.t }.
Definition internal (msg : string) : t := mk Internal msg None.
Definition unavailable (msg : string) : t := mk Unavailable msg None.
Definition invalid_argument (msg : string) : t := mk InvalidArgument msg None.
(** By their numbers in the protocol. *)
Definition unimplemented (msg : string) : t := mk (OtherCode 12) msg None.
Definition unauthenticated (msg : string) : t := mk (OtherCode 16) msg None.
(** [error::status_with_info] of [ur_rpc]. *)
Definition status_with_info (c : code) (msg domain reason : string) (metadata : gmap string string) : t :=
  mk c msg (Some (ErrorInfo.mk reason domain metadata)).
End Status.

Module BuilderExecRequest.
Record t : Type := mk { command : string; args : list string; working_dir : string }.
End BuilderExecRequest.

(** The payload of a [CommandOutput] frame. *)
Module Frame.
Inductive t : Type :=
| Stdout (data : string) | Stderr (data : string) | ExitCode (code : Z) | AlreadyRunning | Empty.
End Frame.

(** The requests of the worker daemon the server sends. *)
Module WorkerdRequest.
Inductive t : Type :=
| Implement (ticket_id : string)
| AddressFeedback (ticket_id : string) (pr_number : Z) (handled_comment_ids : list string)
| SetStatusLeft (status_left : string) (length : Z)
| Design (ticket_id : string)
| SendMessage (message : string) (submit : bool).
End WorkerdRequest.

(** [success] and [error] of a response that has them. *)
Module WorkerdResponse.
Record t : Type := mk { success : bool; error : string }.
End WorkerdResponse.

(** [serde_json::Value]; a number is what [as_i64] says of it. *)
Inductive json : Type :=
| JNull
| JBool (b : bool)
| JNumber (i64 : option Z)
| JString (s : string)
| JArray (l : list json)
| JObject (l : list (string * json)).

Class Host : Type := {
  host : Type;
  (** A builder daemon command: refused, or a stream of frames that may break off. *)
  builder_exec : BuilderExecRequest.t →
    SE host Status.t (list (result Frame.t Status.t));
  (** A call to the daemon at an address, with the routing header. *)
  workerd_call : string → option string → WorkerdRequest.t → SE host Status.t WorkerdResponse.t;
  (** [Path::exists] on the server's file system. *)
  path_exists : string → host → bool;
  (** Creating the parent directories and writing the file. *)
  write_file : string → string → SE host string unit;
  (** [Utc::now()] in the two formats of the hook logs. *)
  log_clock : SE host Empty_set (string * string);
  json_parse : string → option json;
  (** Parsing a [tonic] endpoint and a metadata value. *)
  endpoint_ok : string → bool;
  metadata_value : string → result unit string;
  status_display : Status.t → string
}.

(** ** Text of a command's output *)

Definition byte_in (lo hi : nat) (c : ascii) : bool :=
  (lo <=? nat_of_ascii c)%nat && (nat_of_ascii c <=? hi)%nat.
Definition is_cont : ascii → bool := byte_in 128 191.

(** How many bytes the first UTF-8 sequence of [s] has, and whether it is
    complete; an ill-formed one is replaced as a whole (its longest well-formed
    beginning, at least one byte). *)
Definition utf8_head (s : string) : nat * bool :=
  let second (lo hi total : nat) (rest : string) : nat * bool :=
    match rest with
    | String b rest =>
        if byte_in lo hi b then
          match total, rest with
          | 2, _ => (2, true)
          | 3, String c _ => if is_cont c then (3, true) else (2, false)
          | 4, String c (String d _) =>
              if is_cont c then if is_cont d then (4, true) else (3, false) else (2, false)
          | 4, String c EmptyString => if is_cont c then (3, false) else (2, false)
          | _, _ => (2, false)
          end
        else (1, false)
    | EmptyString => (1, false)
    end in
  match s with
  | EmptyString => (0, true)
  | String a rest =>
      let n := nat_of_ascii a in
      if (n <? 128)%nat then (1, true)
      else if byte_in 194 223 a then second 128 191 2 rest
      else if (n =? 224)%nat then second 160 191 3 rest
      else if (n =? 237)%nat then second 128 159 3 rest
      else if byte_in 225 239 a then second 128 191 3 rest
      else if (n =? 240)%nat then second 144 191 4 rest
      else if byte_in 241 243 a then second 128 191 4 rest
      else if (n =? 244)%nat then second 128 143 4 rest
      else (1, false)
  end.

Definition REPLACEMENT : string :=
  String (ascii_of_nat 239) (String (ascii_of_nat 191) (String (ascii_of_nat 189) EmptyString)).

(** [String::from_utf8_lossy] *)
Fixpoint from_utf8_lossy_go (fuel : nat) (s : string) : string :=
  match fuel, s with
  | O, _ | _, EmptyString => EmptyString
  | S fuel, _ =>
      let '(n, ok) := utf8_head s in
      (if ok then str_take n s else REPLACEMENT) +:+ from_utf8_lossy_go fuel (str_drop n s)
  end.
Definition from_utf8_lossy (s : string) : string := from_utf8_lossy_go (String.length s) s.

Module CompletedExec.
Record t : Type := mk { stdout : string; stderr : string; exit_code : Z }.
Definition stdout_text (c : t) : string := trim_end (from_utf8_lossy (stdout c)).
Definition stderr_text (c : t) : string := trim_end (from_utf8_lossy (stderr c)).

(** [collect]: the frames up to the first error of the stream. *)
Fixpoint collect_go (frames : list (result Frame.t Status.t)) (out err : string) (code : option Z)
    : result t Status.t :=
  match frames with
  | [] =>
      match code with
      | Some c => Ok (mk out err c)
      | None => Err (Status.internal "stream ended without an exit code")
      end
  | Err e :: _ => Err e
  | Ok (Frame.Stdout d) :: fs => collect_go fs (out +:+ d) err code
  | Ok (Frame.Stderr d) :: fs => collect_go fs out (err +:+ d) code
  | Ok (Frame.ExitCode c) :: fs => collect_go fs out err (Some c)
  | Ok Frame.AlreadyRunning :: fs | Ok Frame.Empty :: fs => collect_go fs out err code
  end.
Definition collect (frames : list (result Frame.t Status.t)) : result t Status.t :=
  collect_go frames EmptyString EmptyString None.

Definition check (c : t) : result t Status.t :=
  if bool_decide (exit_code c = 0%Z) then Ok c
  else Err (Status.internal
    ("command exited with code " +:+ pretty (exit_code c) +:+
     (if bool_decide (stderr c = EmptyString) then EmptyString else ": " +:+ stderr_text c))).
End CompletedExec.

Section Exec.
Context {HO : Host}.

(** [BuilderdClient::exec_collect] *)
Definition exec_collect (command : string) (args : list string) (working_dir : string)
    : SE host string CompletedExec.t :=
  frames ← map_err (λ e, "builderd exec failed: " +:+ status_display e)
             (builder_exec (BuilderExecRequest.mk command args working_dir));
  map_err (λ e, "builderd stream error: " +:+ status_display e)
    (of_result (CompletedExec.collect frames)).
End Exec.

(** ** Lemmas *)

(** ASCII text is unchanged by the conversion. *)
Fixpoint is_ascii_text (s : string) : bool :=
  match s with
  | EmptyString => true
  | String c s => (nat_of_ascii c <? 128)%nat && is_ascii_text s
  end.

Lemma from_utf8_lossy_ascii s : is_ascii_text s = true → from_utf8_lossy s = s.
Proof.
  unfold from_utf8_lossy. induction s as [|c s IH]; [done|].
  simpl. intros [Hc Hs]%andb_true_iff. rewrite Hc. simpl. by rewrite IH.
Qed.

(** The exit code of a collected run is the last one the stream reported. *)
Lemma collect_go_exit fs out err code c :
  CompletedExec.collect_go fs out err code = Ok c →
  Some (CompletedExec.exit_code c)
  = foldl (λ z f, match f with Ok (Frame.ExitCode x) => Some x | _ => z end) code fs.
Proof.
  revert out err code. induction fs as [|f fs IH]; intros out err code; simpl.
  - destruct code; intros; by simplify_eq/=.
  - destruct f as [[]|]; try done; apply IH.
Qed.
