(* ===== verification/Upkeep.v ===== *)
(** * Upkeep: logs, backups and retries

    What keeps the servers' disk and connections in order: the size-bounded service logs
    ([ur_utils/src/logging.rs]), the removal of old worker logs ([server/src/log_cleanup.rs]),
    the periodic backups and their retention ([ur_config/src/backup.rs],
    [server/src/backup.rs], [snapshot.rs]), and repeated calls ([ur_utils/src/retry.rs],
    [ur_rpc/src/retry.rs]). *)

From Stdlib Require Import Ascii.
From S2P Require Import Prelude RustStd TextLemmas Model Env TicketDb WorkflowDb Host Agent UrConfig.
Local Open Scope stdpp_scope.

(** ** A directory of files

    A file has bytes and the time it was last written.  A call fails without effect, or,
    a write, after some bytes, when the oracle says so; the clock is read at every call. *)

Inductive entry : Type := File (content : string) (modified : Z) | Directory.
Notation directory := (gmap string entry).
Inductive io_error : Type := NotFound | OtherIo | StillRunning.
Record disk : Type := Disk { files : directory; failures : list (option nat); calls : nat }.

(** The order of [read_dir] and the clock. *)
Class FileSystem : Type := {
  read_order : directory → list (string * entry);
  read_order_perm : ∀ m, read_order m ≡ₚ map_to_list m;
  clock : nat → Z
}.

Section Calls.
Context {FS : FileSystem}.

Definition fs {A} (f : Z → directory → result (A * directory) io_error) : SE disk io_error A := λ d,
  match failures d with
  | Some _ :: l => (Err OtherIo, Disk (files d) l (S (calls d)))
  | l =>
      match f (clock (calls d)) (files d) with
      | Ok (a, m) => (Ok a, Disk m (tail l) (S (calls d)))
      | Err e => (Err e, Disk (files d) (tail l) (S (calls d)))
      end
  end.
Definition open_append (name : string) : SE disk io_error unit :=
  fs (λ now m, match m !! name with
               | None => Ok (tt, <[name := File EmptyString now]> m)
               | Some (File _ _) => Ok (tt, m)
               | Some Directory => Err OtherIo
               end).
Definition file_len (name : string) : SE disk io_error Z :=
  fs (λ _ m, match m !! name with
             | Some (File c _) => Ok (Z.of_nat (String.length c), m)
             | Some Directory => Err OtherIo
             | None => Err NotFound
             end).
(** A failed [write_all] may have written part of the text. *)
Definition append_to (name : string) (text : string) : SE disk io_error unit := λ d,
  match files d !! name with
  | Some (File c t) =>
      let now := clock (calls d) in
      match failures d with
      | Some n :: l => (Err OtherIo, Disk (<[name := File (c +:+ str_take n text) now]> (files d)) l (S (calls d)))
      | l => (Ok tt, Disk (<[name := File (c +:+ text) now]> (files d)) (tail l) (S (calls d)))
      end
  | _ => (Err OtherIo, d)
  end.
(** A file replaces a file; a directory is not moved onto anything. *)
Definition rename (source target : string) : SE disk io_error unit :=
  fs (λ _ m, match m !! source, m !! target with
             | None, _ => Err NotFound
             | Some (File _ _), Some Directory => Err OtherIo
             | Some Directory, Some _ => Err OtherIo
             | Some e, _ => Ok (tt, <[target := e]> (delete source m))
             end).
Definition remove_file (name : string) : SE disk io_error unit :=
  fs (λ _ m, match m !! name with
             | Some (File _ _) => Ok (tt, delete name m)
             | Some Directory => Err OtherIo
             | None => Err NotFound
             end).
Definition read_dir : SE disk io_error (list (string * entry)) := fs (λ _ m, Ok (read_order m, m)).
(** A call that reads and may fail. *)
Definition stat : SE disk io_error unit := fs (λ _ m, Ok (tt, m)).
End Calls.

(** ** Service logs *)

Definition U64_MAX : Z := 18446744073709551615.
Definition byte_len (s : string) : Z := Z.of_nat (String.length s).
Definition MAX_FILE_BYTES : Z := 20 * 1024 * 1024.
Definition MAX_FILES : nat := 7.

(** [YYYY-MM-DD], the suffix of an earlier way of rotating. *)
Fixpoint is_date_from (i : nat) (s : string) : bool :=
  match s with
  | EmptyString => true
  | String b s =>
      (if bool_decide (i = 4 ∨ i = 7) then bool_decide (b = "-"%char) else is_ascii_digit b) && is_date_from (S i) s
  end.
Definition is_log_suffix (suffix : string) : bool :=
  match parse_int 0 U64_MAX suffix with
  | Ok n => (1 <=? n)%Z && (n <? Z.of_nat MAX_FILES)%Z
  | Err _ => false
  end
  || bool_decide (String.length suffix = 10) && is_date_from 0 suffix.

Module LogWriter.
Record t : Type := mk { prefix : string; max_bytes : Z }.

Definition path (self : t) (index : nat) : string :=
  if decide (index = 0) then prefix self else prefix self +:+ "." +:+ pretty index.
Definition managed (self : t) (name : string) : bool :=
  String.eqb name (prefix self)
  || match strip_prefix (prefix self +:+ ".") name with Some suffix => is_log_suffix suffix | None => false end.

Section Writer.
Context {FS : FileSystem} (self : t).

(** A managed file: its name, its time, its length. *)
Notation log_file := (string * Z * Z)%type.
Definition logs_of (l : list (string * entry)) : list log_file :=
  omap (λ p, match p.2 with
             | File c t => if managed self p.1 then Some (p.1, t, byte_len c) else None
             | Directory => None
             end) l.
Definition is_active (f : log_file) : Prop := f.1.1 = path self 0.
#[export] Instance is_active_dec f : Decision (is_active f).
Proof. unfold is_active. apply _. Defined.
Fixpoint prune_loop (fs : list log_file) (count : nat) (total : Z) : SE disk io_error unit :=
  match fs with
  | [] => mret tt
  | f :: fs =>
      if bool_decide (count ≤ MAX_FILES) && (total <=? max_bytes self * Z.of_nat MAX_FILES)%Z then mret tt
      else if decide (is_active f) then prune_loop fs count total
      else remove_file f.1.1 ;; prune_loop fs (pred count) (total - f.2)
  end.
Definition prune : SE disk io_error unit :=
  entries ← read_dir;
  let logs := logs_of entries in
  for_each (λ _, stat) logs ;;
  let active_size := (λ f : log_file, f.2) <$> head (filter is_active logs) in
  let total := (foldr (λ f n, f.2 + n) 0 logs + Z.max 0 (max_bytes self - default 0 active_size))%Z in
  let count := length logs + match active_size with None => 1 | Some _ => 0 end in
  prune_loop (order_by (le_by (λ f : log_file, f.1.2) Z.le) logs) count total.

Fixpoint rotate_from (index : nat) : SE disk io_error unit :=
  match index with
  | 0 => prune
  | S i =>
      r ← attempt (rename (path self i) (path self index));
      match r with
      | Ok _ | Err NotFound => rotate_from i
      | Err e => throw e
      end
  end.
Definition rotate : SE disk io_error unit := rotate_from (MAX_FILES - 1).

(** One round of the loop writes at least a byte. *)
Fixpoint write_loop (fuel : nat) (remaining : string) : SE disk io_error unit :=
  match fuel with
  | 0 => if String.eqb remaining EmptyString then mret tt else throw StillRunning
  | S fuel =>
      if String.eqb remaining EmptyString then mret tt
      else
        open_append (path self 0) ;;
        size ← file_len (path self 0);
        when ((0 <? size)%Z && (max_bytes self <? Z.min U64_MAX (size + byte_len remaining))%Z)
          (rotate ;; open_append (path self 0)) ;;
        let length := Z.to_nat (Z.min (byte_len remaining) (max_bytes self)) in
        append_to (path self 0) (str_take length remaining) ;;
        write_loop fuel (str_drop length remaining)
  end.
Definition write_locked (buf : string) : SE disk io_error Z :=
  write_loop (String.length buf) buf ;; mret (byte_len buf).
(** Taking and releasing the lock are calls that may fail. *)
Definition locked {A} (action : SE disk io_error A) : SE disk io_error A :=
  stat ;;
  r ← attempt action;
  unlocked ← attempt stat;
  match r with
  | Ok value => of_result (match unlocked with Ok _ => Ok value | Err e => Err e end)
  | Err e => throw e
  end.
Definition write (buf : string) : SE disk io_error Z := locked (write_locked buf).
(** [LogWriter::new]: it makes the lock file and prunes. *)
Definition open : SE disk io_error unit :=
  stat ;; open_append (prefix self +:+ ".lock") ;; locked prune.
End Writer.
End LogWriter.

(** ** What a computation does to the directory

    [spec m c Q]: from the directory [m], whatever calls fail, [c] ends with a result and
    a directory that satisfy [Q]. *)

Section Spec.
Context {FS : FileSystem}.
Implicit Types (m : directory).

Definition spec {E A} (m : directory) (c : SE disk E A) (Q : result A E → directory → Prop) : Prop :=
  ∀ d, files d = m → Q (c d).1 (files (c d).2).

Lemma spec_ret {E A} m (a : A) (Q : result A E → directory → Prop) : Q (Ok a) m → spec m (mret a) Q.
Proof. by intros H d <-. Qed.
Lemma spec_throw {E A} m e (Q : result A E → directory → Prop) : Q (Err e) m → spec m (throw e) Q.
Proof. by intros H d <-. Qed.
Lemma spec_bind {E A B} m (c : SE disk E A) (k : A → SE disk E B) Q :
  spec m c (λ r m, match r with Ok a => spec m (k a) Q | Err e => Q (Err e) m end) → spec m (c ≫= k) Q.
Proof.
  intros H d Hd. specialize (H d Hd). rewrite run_bind. destruct (c d) as [[a|e] d']; [by apply H|done].
Qed.
Lemma spec_attempt {E E' A} m (c : SE disk E A) (Q : result (result A E) E' → directory → Prop) :
  spec m c (λ r m, Q (Ok r) m) → spec m (attempt c) Q.
Proof. intros H d Hd. specialize (H d Hd). by rewrite run_attempt. Qed.
Lemma spec_mono {E A} m (c : SE disk E A) (Q Q' : result A E → directory → Prop) :
  spec m c Q → (∀ r m', Q r m' → Q' r m') → spec m c Q'.
Proof. intros H HQ d Hd. by apply HQ, H. Qed.
Lemma spec_fs {A} m (f : Z → directory → result (A * directory) io_error) (Q : result A io_error → directory → Prop) :
  Q (Err OtherIo) m →
  (∀ now, match f now m with Ok (a, m') => Q (Ok a) m' | Err e => Q (Err e) m end) → spec m (fs f) Q.
Proof.
  intros H1 H2 d <-. unfold fs. specialize (H2 (clock (calls d))).
  destruct (failures d) as [|[n|] l]; try done; by destruct (f _ _) as [[a m']|e].
Qed.
Lemma spec_append m name text (Q : result unit io_error → directory → Prop) :
  (∀ c t now, m !! name = Some (File c t) →
     Q (Ok tt) (<[name := File (c +:+ text) now]> m)
     ∧ ∀ n, Q (Err OtherIo) (<[name := File (c +:+ str_take n text) now]> m)) →
  ((∀ c t, m !! name ≠ Some (File c t)) → Q (Err OtherIo) m) → spec m (append_to name text) Q.
Proof.
  intros H1 H2 d <-. unfold append_to. destruct (files d !! name) as [[c t|]|] eqn:E; [|by apply H2..].
  destruct (H1 c t (clock (calls d)) eq_refl) as [Ha Hb]. destruct (failures d) as [|[n|] l]; try done. apply Hb.
Qed.

End Spec.

(** ** What the logs hold *)

Lemma app_inj_str (a b c : string) : a +:+ b = a +:+ c → b = c.
Proof. induction a as [|x a IH]; [done|]. by intros [= ?%IH]. Qed.
Lemma str_take_drop n s : str_take n s +:+ str_drop n s = s.
Proof. revert s. induction n as [|n IH]; intros [|c s]; try done. simpl. by rewrite app_cons, IH. Qed.
Lemma length_str_take n s : String.length (str_take n s) = n `min` String.length s.
Proof. revert s. induction n as [|n IH]; intros [|c s]; try done. simpl. by rewrite IH. Qed.
Lemma length_str_drop n s : String.length (str_drop n s) = String.length s - n.
Proof. revert s. induction n as [|n IH]; intros [|c s]; try done. simpl. apply IH. Qed.

(** [a] is the end of [b]. *)
Definition suffix_str (a b : string) : Prop := ∃ p, b = p +:+ a.
Lemma suffix_str_refl a : suffix_str a a.
Proof. by exists EmptyString. Qed.
Lemma suffix_str_trans a b c : suffix_str a b → suffix_str b c → suffix_str a c.
Proof. intros [p ->] [q ->]. exists (q +:+ p). by rewrite app_assoc_str. Qed.
Lemma suffix_str_app a b c : suffix_str a b → suffix_str (a +:+ c) (b +:+ c).
Proof. intros [p ->]. exists p. by rewrite app_assoc_str. Qed.

Section Logs.
Context {FS : FileSystem} (self : LogWriter.t).
Local Abbreviation path := (LogWriter.path self).
Local Abbreviation managed := (LogWriter.managed self).
Local Abbreviation M := (LogWriter.max_bytes self).
Implicit Types (m : directory) (d : disk).
#[local] Existing Instance LogWriter.is_active_dec.

Definition content_of (m : directory) (name : string) : string :=
  match m !! name with Some (File c _) => c | _ => EmptyString end.
(** What the files [n - 1], ..., [0] hold, the oldest first. *)
Fixpoint history_from (n : nat) (m : directory) : string :=
  match n with 0 => EmptyString | S i => content_of m (path i) +:+ history_from i m end.
Definition history (m : directory) : string := history_from MAX_FILES m.
(** Only files the writer made, none larger than the limit. *)
Definition tidy (m : directory) : Prop :=
  ∀ name c t, m !! name = Some (File c t) → managed name = true →
    (∃ i, i < MAX_FILES ∧ name = path i) ∧ (byte_len c ≤ M)%Z.

Lemma path_inj i j : i < MAX_FILES → j < MAX_FILES → path i = path j → i = j.
Proof.
  intros Hi Hj H. unfold LogWriter.path in H.
  assert (∀ k, (if decide (k = 0) then LogWriter.prefix self else LogWriter.prefix self +:+ "." +:+ pretty k)
    = LogWriter.prefix self +:+ (if decide (k = 0) then EmptyString else "." +:+ pretty k)) as Hp.
  { intros k. destruct (decide (k = 0)); [symmetry; apply app_empty|done]. }
  rewrite !Hp in H. apply app_inj_str in H. unfold MAX_FILES in *.
  do 7 (destruct i as [|i]; [do 7 (destruct j as [|j]; [done || by vm_compute in H|]); lia|]). lia.
Qed.
Lemma path_ne i j : i < MAX_FILES → j < MAX_FILES → i ≠ j → path i ≠ path j.
Proof. intros Hi Hj Hne H. by apply Hne, path_inj. Qed.
Lemma path_managed i : i < MAX_FILES → managed (path i) = true.
Proof.
  intros Hi. unfold LogWriter.managed, LogWriter.path. destruct (decide (i = 0)) as [->|Hne]; [by rewrite String.eqb_refl|].
  apply orb_true_iff. right. rewrite <- (app_assoc_str (LogWriter.prefix self) "." (pretty i)).
  unfold strip_prefix. rewrite prefix_app, str_drop_app. unfold MAX_FILES in *.
  do 7 (destruct i as [|i]; [done || by vm_compute|]). lia.
Qed.

(** *** The archives: the managed files besides the active one *)

Definition archive_of (p : string * entry) : option (string * Z * Z) :=
  match p.2 with
  | File c t => if managed p.1 && negb (String.eqb p.1 (path 0)) then Some (p.1, t, byte_len c) else None
  | Directory => None
  end.
Definition archives (m : directory) : list (string * Z * Z) := omap archive_of (map_to_list m).
Definition total_bytes (l : list (string * Z * Z)) : Z := foldr (λ f n, f.2 + n)%Z 0%Z l.
(** The limits of the writer, with room for a full active file. *)
Definition bounded (m : directory) : Prop :=
  length (archives m) + 1 ≤ MAX_FILES
  ∧ (total_bytes (archives m) + Z.max M (byte_len (content_of m (path 0))) ≤ M * Z.of_nat MAX_FILES)%Z.

Lemma total_bytes_perm l l' : l ≡ₚ l' → total_bytes l = total_bytes l'.
Proof. induction 1; simpl; lia. Qed.
Lemma elem_of_archives m n t z :
  (n, t, z) ∈ archives m ↔ n ≠ path 0 ∧ managed n = true ∧ ∃ c, m !! n = Some (File c t) ∧ z = byte_len c.
Proof.
  unfold archives. rewrite list_elem_of_omap. split.
  - intros ([n' e] & Hin & Ha). apply elem_of_map_to_list in Hin. unfold archive_of in Ha. simpl in Ha.
    destruct e as [c t'|]; [|done]. destruct (managed n') eqn:Em; [|done]. simpl in Ha.
    destruct (String.eqb_spec n' (path 0)); [done|]. injection Ha as -> -> <-. eauto.
  - intros (Hn & Hm & c & Hc & ->). exists (n, File c t). split; [by apply elem_of_map_to_list|].
    unfold archive_of. simpl. rewrite Hm. by rewrite (proj2 (String.eqb_neq _ _) Hn).
Qed.
Lemma archives_delete m n t z : (n, t, z) ∈ archives m → archives m ≡ₚ (n, t, z) :: archives (delete n m).
Proof.
  intros (Hn & Hm & c & Hc & ->)%elem_of_archives. unfold archives.
  rewrite <- (map_to_list_delete m n _ Hc). simpl. unfold archive_of at 1. simpl.
  by rewrite Hm, (proj2 (String.eqb_neq _ _) Hn).
Qed.
Lemma archives_NoDup m : NoDup ((λ f, f.1.1) <$> archives m).
Proof.
  induction m as [|k e m Hk IH] using map_ind; [apply NoDup_nil_2|].
  assert (archives (<[k := e]> m) ≡ₚ option_list (archive_of (k, e)) ++ archives m) as ->.
  { unfold archives. rewrite (map_to_list_insert _ _ _ Hk). simpl. by destruct (archive_of (k, e)). }
  destruct (archive_of (k, e)) as [f|] eqn:Ef; [|done]. simpl. apply NoDup_cons. split; [|done].
  assert (f.1.1 = k) as -> by (unfold archive_of in Ef; simpl in Ef; repeat case_match; by simplify_eq).
  intros ([[n t] z] & -> & (_ & _ & c & Hc & _)%elem_of_archives)%list_elem_of_fmap. simpl in Hk. congruence.
Qed.
(** A change of the active file leaves the archives. *)
Lemma archives_active m e : archives (<[path 0 := e]> m) ≡ₚ archives m.
Proof.
  assert (∀ m', archives m' ≡ₚ archives (delete (path 0) m')) as Hd.
  { intros m'. destruct (m' !! path 0) as [e'|] eqn:E; [|by rewrite delete_id].
    unfold archives. rewrite <- (map_to_list_delete m' _ _ E). simpl. unfold archive_of at 1. simpl.
    rewrite String.eqb_refl. simpl. rewrite andb_false_r. by destruct e'. }
  by rewrite Hd, delete_insert_eq, <- Hd.
Qed.

(** *** Renaming and appending *)

Lemma content_insert m k c t : content_of (<[k := File c t]> m) k = c.
Proof. unfold content_of. by rewrite lookup_insert_eq. Qed.
Lemma content_insert_ne m k e k' : k ≠ k' → content_of (<[k := e]> m) k' = content_of m k'.
Proof. intros H. unfold content_of. by rewrite lookup_insert_ne. Qed.
Lemma content_delete m k : content_of (delete k m) k = EmptyString.
Proof. unfold content_of. by rewrite lookup_delete_eq. Qed.
Lemma content_delete_ne m k k' : k ≠ k' → content_of (delete k m) k' = content_of m k'.
Proof. intros H. unfold content_of. by rewrite lookup_delete_ne. Qed.
Lemma history_ext m m' : (∀ i, i < MAX_FILES → content_of m (path i) = content_of m' (path i)) → history m = history m'.
Proof.
  intros H. unfold history. assert (∀ n, n ≤ MAX_FILES → history_from n m = history_from n m') as Hn; [|by apply Hn].
  induction n as [|n IH]; intros Hn; simpl; [done|]. rewrite IH by lia. f_equal. by apply H.
Qed.
(** The active file is the end of the history. *)
Lemma history_active m : ∃ older,
  history m = older +:+ content_of m (path 0)
  ∧ ∀ c t, history (<[path 0 := File c t]> m) = older +:+ c.
Proof.
  exists (content_of m (path 6) +:+ content_of m (path 5) +:+ content_of m (path 4) +:+ content_of m (path 3)
    +:+ content_of m (path 2) +:+ content_of m (path 1)).
  unfold history. cbn [history_from MAX_FILES]. split; [by rewrite !app_assoc_str, app_empty|]. intros c t.
  rewrite content_insert, app_empty.
  rewrite !content_insert_ne by (apply path_ne; unfold MAX_FILES; lia).
  by rewrite !app_assoc_str.
Qed.
(** [m'] holds what [m] holds and then [p], up to the whole of the oldest file. *)
Definition kept (m : directory) (p : string) (m' : directory) : Prop :=
  ∃ x, history m +:+ p = x +:+ history m' ∧ (x = EmptyString ∨ x = content_of m (path 6)).
Lemma kept_same m m' : history m' = history m → kept m EmptyString m'.
Proof. intros H. exists EmptyString. rewrite app_empty, H. by split; [|left]. Qed.
Lemma kept_suffix m p m' : kept m p m' → suffix_str (history m') (history m +:+ p).
Proof. intros (x & H & _). by exists x. Qed.
Lemma history_rename m i c t : S i < MAX_FILES → m !! path i = Some (File c t) →
  S i = 6 ∨ m !! path (S i) = None →
  let m' := <[path (S i) := File c t]> (delete (path i) m) in
  kept m EmptyString m' ∧ (S i = 6 ∨ history m' = history m).
Proof.
  intros Hi Hm Hn. set (m' := <[_ := _]> _).
  assert (content_of m (path i) = c) as Hc by (unfold content_of; by rewrite Hm).
  assert (content_of m' (path (S i)) = c) as H1 by apply content_insert.
  assert (content_of m' (path i) = EmptyString) as H2.
  { unfold m'. rewrite content_insert_ne by (apply path_ne; lia). apply content_delete. }
  assert (∀ j, j < MAX_FILES → j ≠ i → j ≠ S i → content_of m' (path j) = content_of m (path j)) as H3.
  { intros j Hj Hji Hjs. unfold m'. rewrite content_insert_ne, content_delete_ne; [done|apply path_ne; lia|apply path_ne; lia]. }
  assert (S i ≠ 6 → content_of m (path (S i)) = EmptyString) as H4.
  { intros Hne. destruct Hn as [?|Hn]; [done|]. unfold content_of. by rewrite Hn. }
  unfold MAX_FILES in *. clearbody m'. destruct (decide (i = 5)) as [->|].
  - split; [|by left]. exists (content_of m (path 6)). split; [|by right].
    rewrite app_empty. unfold history, MAX_FILES. cbn [history_from]. rewrite H1, H2, !H3 by lia. by rewrite app_nil_str, Hc.
  - assert (history m' = history m) as Hh; [|split; [by apply kept_same|by right]]. symmetry. unfold history, MAX_FILES.
    do 5 (destruct i as [|i]; [cbn [history_from] in *; rewrite H1, H2, Hc, H4, ?H3, ?app_nil_str by lia; done|]). lia.
Qed.

Lemma tidy_insert m name c t : tidy m → (∃ i, i < MAX_FILES ∧ name = path i) → (byte_len c ≤ M)%Z →
  tidy (<[name := File c t]> m).
Proof.
  intros Hm Hn Hc name' c' t'. destruct (decide (name = name')) as [<-|Hne].
  - rewrite lookup_insert_eq. by intros [= <- <-].
  - rewrite lookup_insert_ne by done. apply Hm.
Qed.
Lemma tidy_delete m name : tidy m → tidy (delete name m).
Proof. intros Hm name' c t [_ H]%lookup_delete_Some. by apply (Hm _ _ t). Qed.

(** *** The limits *)

Lemma tidy_bounded m : (0 ≤ M)%Z → tidy m → bounded m.
Proof.
  intros HM Ht.
  assert (∀ n t z, (n, t, z) ∈ archives m → (∃ i, 0 < i < MAX_FILES ∧ n = path i) ∧ (z ≤ M)%Z) as Ha.
  { intros n t z (Hn & Hm & c & Hc & ->)%elem_of_archives. destruct (Ht n c t Hc Hm) as ((i & Hi & ->) & Hz).
    split; [|done]. exists i. split; [|done]. destruct (decide (i = 0)) as [->|]; [done|lia]. }
  assert (length (archives m) ≤ 6) as Hlen.
  { transitivity (length (path <$> [1; 2; 3; 4; 5; 6])); [|done].
    rewrite <- (length_fmap (λ f, f.1.1)). apply submseteq_length, NoDup_submseteq; [apply archives_NoDup|].
    intros n ([[n' t] z] & -> & Hin)%list_elem_of_fmap. destruct (Ha n' t z Hin) as [(i & Hi & ->) _].
    simpl. unfold MAX_FILES in Hi. do 7 (destruct i as [|i]; [lia || set_solver|]). lia. }
  assert (total_bytes (archives m) ≤ M * Z.of_nat (length (archives m)))%Z as Hbytes.
  { clear Hlen. induction (archives m) as [|[[n t] z] l IH]; [simpl; lia|].
    destruct (Ha n t z) as [_ Hz]; [by left|]. specialize (IH ltac:(intros n' t' z' ?; apply (Ha n' t'); by right)).
    simpl. lia. }
  assert (byte_len (content_of m (path 0)) ≤ M)%Z as Hact.
  { unfold content_of. destruct (m !! path 0) as [[c t|]|] eqn:E; [|unfold byte_len; simpl; lia..].
    apply (Ht _ _ _ E). apply path_managed. unfold MAX_FILES. lia. }
  split; [unfold MAX_FILES; lia|]. unfold MAX_FILES. nia.
Qed.

(** *** Pruning *)

(** Files are only removed, and only archives. *)
Definition pruned (m m' : directory) : Prop :=
  ∀ n, m' !! n = m !! n ∨ m' !! n = None ∧ ∃ t z, (n, t, z) ∈ archives m.
(** What is left is at least as new as what was removed. *)
Definition oldest_first (m m' : directory) : Prop :=
  ∀ n t z n' t' z', (n, t, z) ∈ archives m → m' !! n = None → (n', t', z') ∈ archives m → m' !! n' ≠ None → (t ≤ t')%Z.

Lemma prune_loop_spec l m count total :
  StronglySorted (le_by (λ f : string * Z * Z, f.1.2) Z.le) l →
  filter (λ f : string * Z * Z, ¬ f.1.1 = path 0) l ≡ₚ archives m →
  count = length (archives m) + 1 →
  total = (total_bytes (archives m) + Z.max M (byte_len (content_of m (path 0))))%Z →
  spec m (LogWriter.prune_loop self l count total) (λ r m',
    pruned m m' ∧ oldest_first m m'
    ∧ (bounded m → m' = m ∧ r = Ok tt)
    ∧ (r = Ok tt → (byte_len (content_of m (path 0)) ≤ M * Z.of_nat MAX_FILES)%Z → bounded m')
    ∧ r ≠ Err StillRunning).
Proof.
  revert m count total. induction l as [|[[n t] z] l IH]; intros m count total Hs Hperm -> ->; simpl.
  - apply spec_ret. apply Permutation_nil_l in Hperm. unfold pruned, oldest_first, bounded. rewrite <- Hperm.
    split_and!; [by left|by intros ? ? ? ? ? ? ?%elem_of_nil|done| |done]. intros _ Ha. unfold MAX_FILES, byte_len in *. simpl. split; [done || lia|nia].
  - destruct (bool_decide _ && _) eqn:Eb.
    { apply spec_ret. apply andb_true_iff in Eb as [E1%bool_decide_eq_true E2%Z.leb_le].
      split_and!; [by left| |done|by intros; split|done]. intros n0 t0 z0 n1 t1 z1 (_ & _ & c & Hc & _)%elem_of_archives. congruence. }
    assert (¬ bounded m) as Hnb.
    { intros [H1 H2]. apply andb_false_iff in Eb as [E%bool_decide_eq_false|E%Z.leb_gt]; [done|lia]. }
    apply StronglySorted_inv in Hs as [Hs Hhd]. rewrite filter_cons in Hperm. unfold LogWriter.is_active.
    simpl. destruct (decide (n = path 0)) as [->|Hn].
    { rewrite decide_False in Hperm by (by intros H; apply H). eapply spec_mono; [by apply IH|]. intros r m' H. exact H. }
    rewrite decide_True in Hperm by done.
    assert ((n, t, z) ∈ archives m) as Hin by (rewrite <- Hperm; by left).
    pose proof (archives_delete m n t z Hin) as Hdel.
    assert (content_of (delete n m) (path 0) = content_of m (path 0)) as Hact by by apply content_delete_ne.
    apply spec_bind, spec_fs.
    { split_and!; [by left| |done|done|done]. intros n0 t0 z0 n1 t1 z1 (_ & _ & c & Hc & _)%elem_of_archives. congruence. }
    intros _. pose proof Hin as (_ & _ & c & Hc & ->)%elem_of_archives. rewrite Hc.
    eapply spec_mono; [apply IH|].
    + done.
    + rewrite Hdel in Hperm. by apply Permutation_cons_inv in Hperm.
    + apply Permutation_length in Hdel. simpl in Hdel. lia.
    + rewrite (total_bytes_perm _ _ Hdel), Hact. simpl. lia.
    + simpl. rewrite Hact. intros r m' (Hp & Ho & _ & Hb & Hr).
      assert (∀ n0 t0 z0, (n0, t0, z0) ∈ archives m → n0 = n ∧ t0 = t ∨ (n0, t0, z0) ∈ archives (delete n m)) as Hsplit.
      { intros n0 t0 z0 H. rewrite Hdel in H. apply elem_of_cons in H as [[= -> -> ->]|H]; auto. }
      assert (m' !! n = None) as Hgone.
      { destruct (Hp n) as [->|[-> _]]; [apply lookup_delete_eq|done]. }
      split_and!; [| |done|done|done].
      * intros n0. destruct (decide (n0 = n)) as [->|Hne]; [right; split; [done|by eexists _, _]|].
        destruct (Hp n0) as [->|[-> (t0 & z0 & H0)]]; [left; by apply lookup_delete_ne|].
        right. split; [done|]. exists t0, z0. rewrite Hdel. by right.
      * intros n0 t0 z0 n1 t1 z1 H0 Hg H1 Hk. apply Hsplit in H0, H1. destruct H1 as [[-> ->]|H1]; [done|].
        destruct H0 as [[-> ->]|H0]; [|by apply (Ho n0 t0 z0 n1 t1 z1)].
        rewrite Hdel in Hperm. apply Permutation_cons_inv in Hperm. rewrite <- Hperm in H1.
        apply list_elem_of_filter in H1 as [_ H1].
        by apply (proj1 (Forall_forall _ _) Hhd _ H1).
Qed.

Lemma logs_of_cons n e l :
  LogWriter.logs_of self ((n, e) :: l) =
    match e with
    | File c t => if managed n then (n, t, byte_len c) :: LogWriter.logs_of self l else LogWriter.logs_of self l
    | Directory => LogWriter.logs_of self l
    end.
Proof. unfold LogWriter.logs_of. simpl. destruct e; [|done]. by destruct (managed n). Qed.
Lemma logs_archives l : filter (λ f : string * Z * Z, ¬ f.1.1 = path 0) (LogWriter.logs_of self l) = omap archive_of l.
Proof.
  induction l as [|[n e] l IH]; [done|]. rewrite logs_of_cons. simpl. unfold archive_of at 1. simpl.
  destruct e as [c t|]; simpl; [|done]. destruct (managed n); simpl; [|done].
  rewrite filter_cons. simpl. destruct (String.eqb_spec n (path 0)) as [->|Hn]; simpl.
  - rewrite decide_False; [done|]. intros H. by apply H.
  - rewrite decide_True by done. by rewrite IH.
Qed.
Lemma logs_active m : filter (LogWriter.is_active self) (LogWriter.logs_of self (map_to_list m))
  ≡ₚ match m !! path 0 with Some (File c t) => [(path 0, t, byte_len c)] | _ => [] end.
Proof.
  assert (∀ l : list (string * entry), path 0 ∉ l.*1 → filter (LogWriter.is_active self) (LogWriter.logs_of self l) = []) as Hnone.
  { intros l. induction l as [|[n e] l IH]; [done|]. intros [Hn Hl]%not_elem_of_cons. rewrite logs_of_cons.
    destruct e as [c t|]; [|by apply IH]. destruct (managed n); [|by apply IH].
    rewrite filter_cons. rewrite decide_False by (unfold LogWriter.is_active; simpl in *; congruence). by apply IH. }
  destruct (m !! path 0) as [e|] eqn:E.
  - assert (LogWriter.logs_of self (map_to_list m) ≡ₚ LogWriter.logs_of self ((path 0, e) :: map_to_list (delete (path 0) m))) as ->.
    { unfold LogWriter.logs_of. by rewrite (map_to_list_delete m _ _ E). }
    specialize (Hnone (map_to_list (delete (path 0) m))). rewrite logs_of_cons.
    assert (path 0 ∉ (map_to_list (delete (path 0) m)).*1) as Hni.
    { intros ([n e'] & Hn & Hin)%list_elem_of_fmap. simpl in Hn. subst n. apply elem_of_map_to_list in Hin.
      by rewrite lookup_delete_eq in Hin. }
    specialize (Hnone Hni). destruct e as [c t|]; [|by rewrite Hnone].
    rewrite (path_managed 0) by (unfold MAX_FILES; lia). rewrite filter_cons, decide_True by done. by rewrite Hnone.
  - rewrite Hnone; [done|]. intros ([n e'] & Hn & Hin)%list_elem_of_fmap. simpl in Hn. subst n.
    apply elem_of_map_to_list in Hin. congruence.
Qed.

Lemma spec_for_each_stat {A} m (l : list A) (Q : result unit io_error → directory → Prop) :
  Q (Ok tt) m → Q (Err OtherIo) m → spec m (for_each (λ _, stat) l) Q.
Proof.
  intros H1 H2. induction l as [|x l IH]; [by apply spec_ret|]. simpl. apply spec_bind, spec_fs; [done|].
  intros _. apply IH.
Qed.
Lemma prune_spec m :
  spec m (LogWriter.prune self) (λ r m',
    pruned m m' ∧ oldest_first m m' ∧ (bounded m → m' = m)
    ∧ (r = Ok tt → (byte_len (content_of m (path 0)) ≤ M * Z.of_nat MAX_FILES)%Z → bounded m')
    ∧ r ≠ Err StillRunning).
Proof.
  assert (pruned m m ∧ oldest_first m m) as [Hp Ho].
  { split; [by left|]. intros n0 t0 z0 n1 t1 z1 (_ & _ & c & Hc & _)%elem_of_archives. congruence. }
  unfold LogWriter.prune. apply spec_bind, spec_fs; [by split_and!|]. intros _.
  set (logs := LogWriter.logs_of self (read_order m)).
  apply spec_bind, spec_for_each_stat; [|by split_and!].
  assert (logs ≡ₚ LogWriter.logs_of self (map_to_list m)) as Hlogs.
  { unfold logs, LogWriter.logs_of. by rewrite (read_order_perm m). }
  assert (filter (λ f : string * Z * Z, ¬ f.1.1 = path 0) logs ≡ₚ archives m) as Harch.
  { rewrite Hlogs. by rewrite logs_archives. }
  pose proof (logs_active m) as Hactive. rewrite <- Hlogs in Hactive.
  assert (logs ≡ₚ filter (LogWriter.is_active self) logs ++ archives m) as Hsplit.
  { rewrite <- Harch. symmetry. apply (filter_app_complement (LogWriter.is_active self)). }
  eapply spec_mono; [apply (prune_loop_spec _ m)|].
  - apply order_by_sorted; apply _.
  - by rewrite order_by_perm.
  - apply Permutation_length in Hsplit as Hlen. rewrite length_app in Hlen. rewrite Hlen.
    destruct (m !! path 0) as [[c t|]|].
    + apply Permutation_singleton_r in Hactive. rewrite Hactive. simpl. lia.
    + apply Permutation_nil_r in Hactive. rewrite Hactive. simpl. lia.
    + apply Permutation_nil_r in Hactive. rewrite Hactive. simpl. lia.
  - fold (total_bytes logs). rewrite (total_bytes_perm _ _ Hsplit). unfold content_of.
    destruct (m !! path 0) as [[c t|]|].
    + apply Permutation_singleton_r in Hactive. rewrite Hactive. simpl. lia.
    + apply Permutation_nil_r in Hactive. rewrite Hactive. unfold byte_len. simpl. lia.
    + apply Permutation_nil_r in Hactive. rewrite Hactive. unfold byte_len. simpl. lia.
  - simpl. intros r m' (H1 & H2 & H3 & H4 & H5). split_and!; try done. by intros [-> _]%H3.
Qed.

(** *** Rotating and writing *)

Hypothesis limit : (1 ≤ M)%Z ∧ (M * Z.of_nat MAX_FILES ≤ U64_MAX)%Z.

Lemma rotate_spec k m : k < MAX_FILES → tidy m → k = 6 ∨ m !! path k = None →
  spec m (LogWriter.rotate_from self k) (λ r m',
    tidy m' ∧ kept m EmptyString m' ∧ (k = 6 ∨ history m' = history m)
    ∧ (r = Ok tt → k = 0 ∨ m' !! path 0 = None) ∧ r ≠ Err StillRunning).
Proof.
  revert m. induction k as [|i IH]; intros m Hk Ht Hn.
  - simpl. eapply spec_mono; [apply prune_spec|]. simpl. intros r m' (_ & _ & Hb & _ & Hr).
    rewrite (Hb (tidy_bounded m ltac:(lia) Ht)). split_and!; [done|by apply kept_same|by right|by left|done].
  - assert (∀ m', tidy m' → kept m EmptyString m' → S i = 6 ∨ history m' = history m → m' !! path i = None →
      spec m' (LogWriter.rotate_from self i) (λ r m',
        tidy m' ∧ kept m EmptyString m' ∧ (S i = 6 ∨ history m' = history m)
        ∧ (r = Ok tt → S i = 0 ∨ m' !! path 0 = None) ∧ r ≠ Err StillRunning)) as Hnext.
    { intros m' Ht' Hk' Hs' Hn'. destruct i as [|i].
      - simpl. eapply spec_mono; [apply prune_spec|]. simpl. intros r m2 (_ & _ & Hb & _ & Hr).
        rewrite (Hb (tidy_bounded m' ltac:(lia) Ht')). by split_and!; [| | |by right|].
      - eapply spec_mono; [apply IH; [lia|done|by right]|]. simpl. intros r m2 (H1 & H2 & [H3|H3] & H4 & H5).
        { unfold MAX_FILES in Hk. lia. }
        split_and!; [done| |by rewrite H3| |done].
        + destruct Hk' as (x & Hx & Hx'). exists x. by rewrite H3.
        + intros [?|?]%H4; [done|by right]. }
    assert (∀ e, e ≠ StillRunning → spec m (throw e) (λ (r : result unit io_error) m',
        tidy m' ∧ kept m EmptyString m' ∧ (S i = 6 ∨ history m' = history m)
        ∧ (r = Ok tt → S i = 0 ∨ m' !! path 0 = None) ∧ r ≠ Err StillRunning)) as Hstop.
    { intros e He. apply spec_throw. split_and!; [done|by apply kept_same|by right|done|congruence]. }
    cbn [LogWriter.rotate_from]. apply spec_bind, spec_attempt, spec_fs; [by apply Hstop|]. intros _.
    destruct (m !! path i) as [[c t|]|] eqn:Ei.
    3: { apply Hnext; [done|by apply kept_same|by right|done]. }
    + assert (tidy (<[path (S i) := File c t]> (delete (path i) m))) as Ht'.
      { apply tidy_insert; [by apply tidy_delete|eauto|]. apply (Ht _ _ _ Ei). apply path_managed. lia. }
      assert (<[path (S i) := File c t]> (delete (path i) m) !! path i = None) as Hgone.
      { rewrite lookup_insert_ne by (apply path_ne; lia). apply lookup_delete_eq. }
      destruct (history_rename m i c t Hk Ei) as [Hkept Hsame]; [destruct Hn; [left; lia|by right]|].
      destruct (m !! path (S i)) as [[c' t'|]|]; [by apply Hnext|by apply Hstop|by apply Hnext].
    + destruct (m !! path (S i)) as [e|] eqn:Es; [by apply Hstop|].
      assert (history (<[path (S i) := Directory]> (delete (path i) m)) = history m) as Hh.
      { apply history_ext. intros j Hj. unfold content_of.
        destruct (decide (j = S i)) as [->|]; [by rewrite lookup_insert_eq, Es|].
        rewrite lookup_insert_ne by (apply path_ne; lia).
        destruct (decide (j = i)) as [->|]; [by rewrite lookup_delete_eq, Ei|].
        by rewrite lookup_delete_ne by (apply path_ne; lia). }
      apply Hnext; [|by apply kept_same|by right|].
      * intros n c t. destruct (decide (n = path (S i))) as [->|Hni]; [by rewrite lookup_insert_eq|].
        rewrite lookup_insert_ne by done. intros [_ H]%lookup_delete_Some. by apply (Ht n c t).
      * rewrite lookup_insert_ne by (apply path_ne; lia). apply lookup_delete_eq.
Qed.

Lemma open_append_spec m (Q : result unit io_error → directory → Prop) :
  tidy m → Q (Err OtherIo) m →
  (∀ m' c t, tidy m' → history m' = history m → content_of m' (path 6) = content_of m (path 6) →
     m' !! path 0 = Some (File c t) → c = content_of m (path 0) → Q (Ok tt) m') →
  spec m (open_append (path 0)) Q.
Proof.
  intros Ht H1 H2. apply spec_fs; [done|]. intros now. destruct (m !! path 0) as [[c t|]|] eqn:E; [|done|].
  - apply (H2 m c t); try done. unfold content_of. by rewrite E.
  - apply (H2 _ EmptyString now); [|symmetry| |by rewrite lookup_insert_eq|unfold content_of; by rewrite E].
    + apply tidy_insert; [done|exists 0; split; [unfold MAX_FILES; lia|done]|unfold byte_len; simpl; lia].
    + apply history_ext. intros i _. unfold content_of. destruct (decide (path 0 = path i)) as [<-|Hne];
        [by rewrite lookup_insert_eq, E|by rewrite lookup_insert_ne].
    + apply content_insert_ne, path_ne; unfold MAX_FILES; lia.
Qed.
(** Up to the write of a round: the active file is there and has room. *)
Lemma make_room m rem (K : SE disk io_error unit) Q :
  tidy m →
  (∀ m' e, tidy m' → kept m EmptyString m' → e ≠ StillRunning → Q (Err e) m') →
  (∀ m' c t, tidy m' → kept m EmptyString m' → m' !! path 0 = Some (File c t) →
     (byte_len c + Z.min (byte_len rem) M ≤ M)%Z → spec m' K Q) →
  spec m (open_append (path 0) ;;
          size ← file_len (path 0);
          when ((0 <? size)%Z && (M <? Z.min U64_MAX (size + byte_len rem))%Z)
            (LogWriter.rotate self ;; open_append (path 0)) ;;
          K) Q.
Proof.
  intros Ht Herr HK.
  apply spec_bind, open_append_spec; [done|by apply Herr; [|apply kept_same|]|]. intros m1 c t Ht1 Hh1 H61 Hc _.
  apply spec_bind, spec_fs; [by apply Herr; [|apply kept_same|]|]. intros _. rewrite Hc. fold (byte_len c).
  apply spec_bind. destruct (_ && _) eqn:Eb; simpl.
  - apply spec_bind. eapply spec_mono; [apply (rotate_spec 6); [unfold MAX_FILES; lia|done|by left]|].
    simpl. intros r m2 (Ht2 & (x & Hx & Hx6) & _ & Hgone & Hr). rewrite Hh1, app_empty in Hx. rewrite H61 in Hx6.
    assert (∀ m', history m' = history m2 → kept m EmptyString m') as Hkept.
    { intros m' Hm'. exists x. by rewrite Hm', app_empty. }
    destruct r as [[]|e]; [|apply Herr; [done|by apply Hkept|congruence]].
    destruct Hgone as [?|Hgone]; [done|done|]. apply open_append_spec; [done|by apply Herr; [|apply Hkept|]|].
    intros m3 c3 t3 Ht3 Hh3 _ Hc3 Hcc. apply (HK m3 c3 t3); [done|by apply Hkept|done|].
    subst c3. unfold content_of. rewrite Hgone. unfold byte_len at 1. simpl. lia.
  - apply spec_ret. apply (HK m1 c t); [done|by apply kept_same|done|].
    unfold byte_len in *. unfold MAX_FILES in *. apply andb_false_iff in Eb as [E%Z.ltb_ge|E%Z.ltb_ge]; lia.
Qed.

Lemma byte_len_take n s : byte_len (str_take n s) = Z.min (Z.of_nat n) (byte_len s).
Proof. unfold byte_len. rewrite length_str_take. lia. Qed.
Lemma write_loop_empty fuel : LogWriter.write_loop self fuel EmptyString = mret tt.
Proof. by destruct fuel. Qed.
(** How a write of [rem] ends: a part [p] of it was written, all of it unless the write
    failed; of what was there before at most the oldest file is gone, if [rem] fits a file,
    and then a successful write puts it in one piece. *)
Definition written (m : directory) (rem : string) (r : result unit io_error) (m' : directory) : Prop :=
  ∃ p q, rem = p +:+ q ∧ suffix_str (history m') (history m +:+ p) ∧ (r = Ok tt → q = EmptyString)
    ∧ ((byte_len rem ≤ M)%Z → kept m p m'
       ∧ (r = Ok tt → rem ≠ EmptyString → ∃ x, content_of m' (path 0) = x +:+ rem)).
Lemma nothing_written m rem r m' : kept m EmptyString m' → (r = Ok tt → rem = EmptyString) → written m rem r m'.
Proof.
  intros Hk Hr. exists EmptyString, rem. split_and!; [done|by apply kept_suffix|done|].
  intros _. split; [done|]. intros H%Hr. done.
Qed.
Lemma write_loop_spec fuel m rem : tidy m →
  spec m (LogWriter.write_loop self fuel rem) (λ r m',
    tidy m' ∧ written m rem r m' ∧ (String.length rem ≤ fuel → r ≠ Err StillRunning)).
Proof.
  revert m rem. induction fuel as [|fuel IH]; intros m rem Ht; simpl;
    destruct (String.eqb_spec rem EmptyString) as [->|Hrem].
  1, 3: apply spec_ret; split_and!; [done|by apply nothing_written; [apply kept_same|]|done].
  { apply spec_throw. split_and!; [done|by apply nothing_written; [apply kept_same|]|].
    intros Hl. destruct rem; [done|simpl in Hl; lia]. }
  apply make_room; [done| |].
  { intros m' e Ht' Hs' He. split_and!; [done|by apply nothing_written|congruence]. }
  intros m3 c t Ht3 (x & Hx & Hx6) Hc Hroom. rewrite app_empty in Hx. set (n := Z.to_nat (Z.min (byte_len rem) M)).
  destruct (history_active m3) as (older & Hh & Hset). unfold content_of in Hh. rewrite Hc in Hh.
  assert (∀ s now, (byte_len s ≤ Z.min (byte_len rem) M)%Z →
    tidy (<[path 0 := File (c +:+ s) now]> m3) ∧ kept m s (<[path 0 := File (c +:+ s) now]> m3)) as Happ.
  { intros s now Hs. split.
    - apply tidy_insert; [done|exists 0; split; [unfold MAX_FILES; lia|done]|].
      unfold byte_len in *. rewrite length_app_str. lia.
    - exists x. split; [|done]. by rewrite Hset, Hx, Hh, !app_assoc_str. }
  assert (0 < n ∧ n ≤ String.length rem) as Hn.
  { unfold n, byte_len. destruct rem; [done|]. simpl. lia. }
  apply spec_bind, spec_append; [|intros H; by destruct (H c t)].
  intros c0 t0 now Hc0. assert (c0 = c) as -> by congruence. split.
  - destruct (Happ (str_take n rem) now) as [Ht4 Hs4]; [rewrite byte_len_take; unfold n, byte_len; lia|].
    destruct (decide (n = String.length rem)) as [En|Hlt].
    + assert (str_take n rem = rem ∧ str_drop n rem = EmptyString) as [Etake Edrop].
      { pose proof (str_take_app rem EmptyString) as H1. pose proof (str_drop_app rem EmptyString) as H2.
        rewrite app_empty in H1, H2. by rewrite En. }
      rewrite Edrop, Etake in *. rewrite write_loop_empty. apply spec_ret. split_and!; [done| |done].
      exists rem, EmptyString. split_and!; [by rewrite app_empty|by apply kept_suffix|done|].
      intros _. split; [done|]. intros _ _. exists c. apply content_insert.
    + eapply spec_mono; [by apply IH|]. simpl. intros r m' (Ht5 & (p & q & Hpq & Hs5 & Hq & _) & Hrun).
      split_and!; [done| |].
      * exists (str_take n rem +:+ p), q. split_and!; [by rewrite app_assoc_str, <- Hpq, str_take_drop| |done|].
        -- eapply suffix_str_trans; [done|]. rewrite <- app_assoc_str. by apply suffix_str_app, kept_suffix.
        -- intros Hle. unfold n, byte_len in *. lia.
      * intros Hf. apply Hrun. rewrite length_str_drop. lia.
  - intros k. destruct (Happ (str_take k (str_take n rem)) now) as [Ht4 Hs4].
    { rewrite !byte_len_take. unfold n, byte_len. lia. }
    split_and!; [done| |done].
    exists (str_take k (str_take n rem)), (str_drop k (str_take n rem) +:+ str_drop n rem).
    split_and!; [by rewrite <- app_assoc_str, !str_take_drop|by apply kept_suffix|done|by intros _; split].
Qed.

Lemma locked_spec {A} m (c : SE disk io_error A) (Q : result A io_error → directory → Prop) (Q' : result A io_error → directory → Prop) :
  Q' (Err OtherIo) m → spec m c Q → (∀ r m', Q r m' → Q' r m' ∧ Q' (match r with Ok _ => Err OtherIo | Err e => Err e end) m') →
  spec m (LogWriter.locked c) Q'.
Proof.
  intros H0 Hc HQ. apply spec_bind, spec_fs; [done|]. intros _. apply spec_bind, spec_attempt.
  eapply spec_mono; [exact Hc|]. intros r m' [H1 H2]%HQ.
  apply spec_bind, spec_attempt, spec_fs.
  - destruct r as [a|e]; [|by apply spec_throw]. by intros d <-.
  - intros _. destruct r as [a|e]; [|by apply spec_throw]. by intros d <-.
Qed.
End Logs.

Lemma empty_tidy self : tidy self ∅.
Proof. intros n c t. by rewrite lookup_empty. Qed.

(** C38: a service log stays within its limits and keeps the newest records.  Whatever
    calls fail, and whichever process writes, a write leaves only files of the writer,
    none larger than the limit and at most seven with room for a full active one; what the
    files hold, oldest first, is the end of what they held followed by what was written,
    all of the record if the write succeeds; and a record that fits a file costs at most
    the oldest file and, if its write succeeds, is whole at the end of the active one. *)
Theorem log_keeps_newest {FS : FileSystem} self d buf r d' :
  (1 ≤ LogWriter.max_bytes self)%Z → (LogWriter.max_bytes self * Z.of_nat MAX_FILES ≤ U64_MAX)%Z →
  tidy self (files d) → LogWriter.write self buf d = (r, d') →
  tidy self (files d') ∧ bounded self (files d') ∧ r ≠ Err StillRunning
  ∧ ∃ p q, buf = p +:+ q
      ∧ suffix_str (history self (files d')) (history self (files d) +:+ p)
      ∧ (∀ z, r = Ok z → q = EmptyString ∧ z = byte_len buf)
      ∧ ((byte_len buf ≤ LogWriter.max_bytes self)%Z →
          kept self (files d) p (files d')
          ∧ (∀ z, r = Ok z → buf ≠ EmptyString → ∃ x, content_of (files d') (LogWriter.path self 0) = x +:+ buf)).
Proof.
  intros H1 H2 Ht Hw. pose (Q := λ (r : result Z io_error) (m' : directory),
    tidy self m' ∧ r ≠ Err StillRunning ∧ ∃ u, written self (files d) buf u m' ∧ ∀ z, r = Ok z → u = Ok tt ∧ z = byte_len buf).
  assert (∀ m' u, tidy self m' → written self (files d) buf u m' → Q (Err OtherIo) m') as Herr.
  { intros m' u Ht' Hu. split_and!; [done|done|]. exists u. by split. }
  assert (spec (files d) (LogWriter.write self buf) Q) as Hs.
  { apply (locked_spec (files d) _ Q).
    - apply (Herr _ (Err OtherIo)); [done|]. apply nothing_written; [by apply kept_same|done].
    - apply spec_bind. eapply spec_mono; [by apply write_loop_spec|]. simpl. intros u m' (Ht' & Hu & Hrun).
      destruct u as [[]|e].
      + apply spec_ret. split_and!; [done|done|]. exists (Ok tt). split; [done|]. intros z [= Hz]. by rewrite Hz.
      + split_and!; [done|intros [= ->]; by apply Hrun|]. exists (Err e). by split.
    - intros u m' HQ. split; [done|]. destruct u as [z|e]; [|done]. destruct HQ as (Ht' & _ & u & Hu & _). by apply (Herr m' u). }
  specialize (Hs d eq_refl). rewrite Hw in Hs. destruct Hs as (Ht' & Hr & u & (p & q & Hpq & Hsuf & Hq & Hfit) & Hok).
  simpl in *. split_and!; [done|by apply tidy_bounded; [lia|]|done|]. exists p, q. split_and!; [done|done| |].
  - intros z Hz. destruct (Hok z Hz) as [-> ->]. by split; [apply Hq|].
  - intros [Hk Hx]%Hfit. split; [done|]. intros z Hz Hne. destruct (Hok z Hz) as [-> _]. by apply Hx.
Qed.

(** The lock file is not a log. *)
Definition lock_name (self : LogWriter.t) : string := LogWriter.prefix self +:+ ".lock".
Lemma lock_unmanaged self : LogWriter.managed self (lock_name self) = false.
Proof.
  unfold LogWriter.managed, lock_name. apply orb_false_iff. split.
  - apply String.eqb_neq. intros H. rewrite <- (app_empty (LogWriter.prefix self)) in H at 2. by apply app_inj_str in H.
  - change ".lock" with ("." +:+ "lock"). rewrite <- app_assoc_str. unfold strip_prefix. by rewrite prefix_app, str_drop_app.
Qed.
Lemma archives_unmanaged self m n e : LogWriter.managed self n = false → m !! n = None →
  archives self (<[n := e]> m) ≡ₚ archives self m.
Proof.
  intros Hn Hm. unfold archives. rewrite (map_to_list_insert _ _ _ Hm). simpl.
  unfold archive_of at 1. simpl. rewrite Hn. by destruct e.
Qed.

(** C39: a starting service brings its logs within the limits: besides making its lock file
    it only removes managed files other than the active one, the oldest of them first,
    nothing when the limits hold already; and when no call fails, and the active file is
    not larger than all files may be together, at most seven files remain, with room for a
    full active one. *)
Theorem open_prunes {FS : FileSystem} self d r d' :
  let m := files d in let m' := files d' in
  LogWriter.open self d = (r, d') →
  (∀ n, n ≠ lock_name self → m' !! n = m !! n ∨ m' !! n = None ∧ ∃ t z, (n, t, z) ∈ archives self m)
  ∧ oldest_first self m m'
  ∧ (bounded self m → ∀ n, n ≠ lock_name self → m' !! n = m !! n)
  ∧ (r = Ok tt → (byte_len (content_of m (LogWriter.path self 0)) ≤ LogWriter.max_bytes self * Z.of_nat MAX_FILES)%Z →
     bounded self m').
Proof.
  intros m m' Hw.
  pose (Q := λ (r : result unit io_error) (m' : directory),
    (∀ n, n ≠ lock_name self → m' !! n = m !! n ∨ m' !! n = None ∧ ∃ t z, (n, t, z) ∈ archives self m)
    ∧ oldest_first self m m' ∧ (bounded self m → ∀ n, n ≠ lock_name self → m' !! n = m !! n)
    ∧ (r = Ok tt → (byte_len (content_of m (LogWriter.path self 0)) ≤ LogWriter.max_bytes self * Z.of_nat MAX_FILES)%Z →
       bounded self m')).
  assert (∀ m1, (∀ n, n ≠ lock_name self → m1 !! n = m !! n) → Q (Err OtherIo) m1) as Hnone.
  { intros m1 H1. split_and!; [by left; apply H1| |by intros _|done].
    intros n0 t0 z0 n1 t1 z1 (_ & Hm & c & Hc & _)%elem_of_archives Hg. rewrite H1 in Hg; [congruence|].
    intros ->. by rewrite lock_unmanaged in Hm. }
  assert (spec m (LogWriter.open self) Q) as Hs; [|specialize (Hs d eq_refl); by rewrite Hw in Hs].
  assert (∀ m1, archives self m1 ≡ₚ archives self m → (∀ n, n ≠ lock_name self → m1 !! n = m !! n) →
    spec m1 (LogWriter.locked (LogWriter.prune self)) Q) as Hrest.
  { intros m1 Ha H1. eapply locked_spec; [by apply Hnone|apply prune_spec|]. simpl.
    assert (content_of m1 (LogWriter.path self 0) = content_of m (LogWriter.path self 0)) as Hc.
    { unfold content_of. rewrite H1; [done|]. intros H. pose proof (path_managed self 0) as Hp.
      rewrite H, lock_unmanaged in Hp. by specialize (Hp ltac:(unfold MAX_FILES; lia)). }
    assert (bounded self m1 ↔ bounded self m) as Hbi.
    { unfold bounded. by rewrite (Permutation_length Ha), (total_bytes_perm _ _ Ha), Hc. }
    intros u m2 (Hp & Ho & Hb & Hok & _). rewrite Hc in Hok.
    assert (∀ n, n ≠ lock_name self → m2 !! n = m !! n ∨ m2 !! n = None ∧ ∃ t z, (n, t, z) ∈ archives self m) as Hp'.
    { intros n Hn. rewrite <- (H1 n Hn). destruct (Hp n) as [?|(? & t & z & Hin)]; [by left|right].
      split; [done|]. exists t, z. by rewrite <- Ha. }
    assert (oldest_first self m m2) as Ho'.
    { intros n t z n2 t2 z2 Hin Hg Hin2. rewrite <- Ha in Hin, Hin2. by apply (Ho n t z n2 t2 z2). }
    assert (bounded self m → ∀ n, n ≠ lock_name self → m2 !! n = m !! n) as Hb'.
    { intros ->%Hbi%Hb. done. }
    split; [by split_and!|]. destruct u; by split_and!. }
  apply spec_bind, spec_fs; [by apply Hnone|]. intros _. apply spec_bind, spec_fs; [by apply Hnone|]. intros now.
  fold (lock_name self). destruct (m !! lock_name self) as [[c t|]|] eqn:El; [by apply Hrest|by apply Hnone|].
  apply Hrest; [by apply archives_unmanaged; [apply lock_unmanaged|]|]. intros n Hn. by rewrite lookup_insert_ne.
Qed.

(** ** Backups *)

Definition AUTOMATIC_BACKUP_PREFIX : string := "ur-backup-".
Definition MANUAL_BACKUP_PREFIX : string := "manual-ur-backup-".
Definition BACKUP_EXTENSION : string := ".pgdump".
Definition BACKUP_CONTAINER_PATH : string := "/backup".

Module BackupFileName.
Record t : Type := mk { db_name : option string; timestamp : string; manual : bool }.
End BackupFileName.

Definition backup_container_dir (db_name : string) : string := BACKUP_CONTAINER_PATH +:+ "/" +:+ db_name.
Definition automatic_backup_filename (db_name timestamp : string) : string :=
  AUTOMATIC_BACKUP_PREFIX +:+ db_name +:+ "-" +:+ timestamp +:+ BACKUP_EXTENSION.
Definition manual_backup_filename (db_name timestamp : string) : string :=
  MANUAL_BACKUP_PREFIX +:+ db_name +:+ "-" +:+ timestamp +:+ BACKUP_EXTENSION.
(** [YYYYMMDDTHHMMSSZ] *)
Fixpoint is_timestamp_from (i : nat) (s : string) : bool :=
  match s with
  | EmptyString => true
  | String b s =>
      (if decide (i = 8) then bool_decide (b = "T"%char)
       else if decide (i = 15) then bool_decide (b = "Z"%char)
       else is_ascii_digit b) && is_timestamp_from (S i) s
  end.
Definition is_backup_timestamp (s : string) : bool := bool_decide (String.length s = 16) && is_timestamp_from 0 s.
Definition strip_suffix (p s : string) : option string :=
  if ends_with p s then Some (str_take (String.length s - String.length p) s) else None.
Definition rsplit_once (c : ascii) (s : string) : option (string * string) :=
  i ← rfind_char c s; Some (str_take i s, str_drop (S i) s).
(** The prefix, then the rest of the name. *)
Definition parse_prefix (stem : string) : option (string * bool) :=
  match strip_prefix MANUAL_BACKUP_PREFIX stem with
  | Some rest => Some (rest, true)
  | None => match strip_prefix AUTOMATIC_BACKUP_PREFIX stem with Some rest => Some (rest, false) | None => None end
  end.
Definition parse_rest (rest : string) (manual : bool) : option BackupFileName.t :=
  let legacy := if is_backup_timestamp rest then Some (BackupFileName.mk None rest manual) else None in
  match rsplit_once "-" rest with
  | Some (db_name, timestamp) =>
      if negb (String.eqb db_name EmptyString) && is_backup_timestamp timestamp
      then Some (BackupFileName.mk (Some db_name) timestamp manual) else legacy
  | None => legacy
  end.
Definition parse_backup_filename (name : string) : option BackupFileName.t :=
  match strip_suffix BACKUP_EXTENSION name with
  | Some stem => match parse_prefix stem with Some (rest, manual) => parse_rest rest manual | None => None end
  | None => None
  end.
Definition is_backup_file (name : string) : bool := bool_decide (is_Some (parse_backup_filename name)).
(** The automatic backups of a database. *)
Definition automatic_of (db_name name : string) : bool :=
  match parse_backup_filename name with
  | Some p => negb (BackupFileName.manual p) && bool_decide (BackupFileName.db_name p = Some db_name)
  | None => false
  end.

(** What a cleanup reports. *)
Inductive cleanup_failure : Type := DirectoryUnread | NotRemoved (name : string).
Definition newest_first : relation string := λ a b, String.le b a.
#[export] Instance newest_first_dec : RelDecision newest_first.
Proof. intros a b. unfold newest_first. apply _. Defined.
#[export] Instance newest_first_order : Transitive newest_first.
Proof. intros a b c. unfold newest_first. intros H1 H2. by trans b. Qed.
#[export] Instance newest_first_antisymm : AntiSymm (=) newest_first.
Proof. intros a b H1 H2. by apply (anti_symm String.le). Qed.
#[export] Instance newest_first_total : Total newest_first.
Proof. intros a b. unfold newest_first. destruct (total String.le a b); auto. Qed.

Section Backups.
Context {FS : FileSystem}.

Fixpoint remove_backups (current : string) (l : list string) : SE disk Empty_set (list cleanup_failure) :=
  match l with
  | [] => mret []
  | name :: l =>
      if String.eqb name current then remove_backups current l
      else
        r ← attempt (remove_file name);
        rest ← remove_backups current l;
        mret (match r with Ok _ => rest | Err _ => NotRemoved name :: rest end)
  end.
Definition clean_old_backups (db_name current_filename : string) (retain_count : Z)
    : SE disk Empty_set (list cleanup_failure) :=
  r ← attempt read_dir;
  match r with
  | Err _ => mret [DirectoryUnread]
  | Ok entries =>
      let backup_files := order_by newest_first (filter (λ n, automatic_of db_name n = true) entries.*1) in
      remove_backups current_filename (drop (Z.to_nat retain_count) backup_files)
  end.

(** *** The server's periodic backups *)

(** [pg_dump] in the database's container: what it leaves in the file, and whether it
    succeeded; and the formatted time. *)
Class Postgres : Type := {
  pg_dump : string → nat → option string * bool;
  timestamp_now : nat → string;
  timestamp_shape : ∀ n, is_backup_timestamp (timestamp_now n) = true
}.
Context {PG : Postgres}.

Definition dump_args (container_name db_name filename : string) : list string :=
  ["exec"; container_name; "pg_dump"; "-Fc"; "-f"; backup_container_dir db_name +:+ "/" +:+ filename; db_name].
Definition restore_args (container_name db_name filename : string) : list string :=
  ["exec"; container_name; "pg_restore"; "--clean"; "--if-exists"; "-d"; db_name;
   backup_container_dir db_name +:+ "/" +:+ filename].
(** The dump writes into the directory that is mounted at the server's. *)
Definition dump_to (db_name filename : string) : SE disk io_error unit := λ d,
  let '(output, ok) := pg_dump db_name (calls d) in
  let m := match output with
           | Some content => <[filename := File content (clock (calls d))]> (files d)
           | None => files d
           end in
  (if ok then Ok tt else Err OtherIo, Disk m (failures d) (S (calls d))).
Definition run_backup (db_name : string) (retain_count : Z) : SE disk Empty_set (list cleanup_failure) :=
  n ← gets calls;
  let filename := automatic_backup_filename db_name (timestamp_now n) in
  r ← attempt (dump_to db_name filename);
  match r with
  | Ok _ => clean_old_backups db_name filename retain_count
  | Err _ => mret []
  end.

(** What wakes the loop: its interval, or the shutdown channel with its value. *)
Inductive backup_event : Type := Interval | ShutdownChanged (shutdown : bool).
Fixpoint backup_loop (db_name : string) (retain_count : Z) (evs : list backup_event)
    : SE disk Empty_set (list cleanup_failure) :=
  match evs with
  | [] => mret []
  | Interval :: evs =>
      l ← run_backup db_name retain_count; l' ← backup_loop db_name retain_count evs; mret (l ++ l')
  | ShutdownChanged true :: _ => run_backup db_name retain_count
  | ShutdownChanged false :: evs => backup_loop db_name retain_count evs
  end.

Inductive mounted : Type := NoPath | NotDirectory | IsDirectory.
Definition PROBE : string := ".ur-backup-probe".
Definition validate_backup_dir (kind : mounted) : SE disk string unit :=
  match kind with
  | NoPath => throw "backup path does not exist"
  | NotDirectory => throw "backup path is not a directory"
  | IsDirectory =>
      map_err (λ _, "backup path is not writable")
        (fs (λ now m, match m !! PROBE with
                      | Some Directory => Err OtherIo
                      | _ => Ok (tt, <[PROBE := File "probe" now]> m)
                      end)) ;;
      map_err (λ _, "failed to remove backup write probe") (remove_file PROBE)
  end.
(** [BackupTaskManager::spawn]: whether a loop is started. *)
Definition spawn_backups (config : BackupConfig.t) (kind : mounted) : SE disk string bool :=
  match BackupConfig.path config with
  | None => mret false
  | Some _ =>
      if negb (BackupConfig.enabled config) then mret false
      else validate_backup_dir kind ;; mret true
  end.
End Backups.

(** ** Old worker logs *)

(** What [read_dir] finds below a path: a file with the time of its last change, if that
    can be read, or a directory with its entries, if those can be. *)
Inductive log_tree : Type :=
| LogFile (modified : option Z)
| LogDir (entries : option (list (string * log_tree))).
Definition max_time (newest t : option Z) : option Z :=
  match t with
  | None => newest
  | Some t => Some (match newest with Some current => Z.max current t | None => t end)
  end.
Fixpoint newest_mtime (t : log_tree) : option Z :=
  match t with
  | LogFile modified => modified
  | LogDir None => None
  | LogDir (Some l) =>
      (fix go (newest : option Z) (l : list (string * log_tree)) : option Z :=
         match l with
         | [] => newest
         | (_, e) :: l => go (max_time newest (newest_mtime e)) l
         end) None l
  end.
Definition should_remove (now max_age : Z) (t : log_tree) : bool :=
  match newest_mtime t with
  | Some mtime => (max_age <? Z.max 0 (now - mtime))%Z
  | None => true
  end.
(** [run_cleanup]: what is left of the directory of worker logs, and how many were
    removed.  [removable] says which removals succeed. *)
Definition run_cleanup (now max_age : Z) (removable : string → bool) (l : list (string * log_tree))
    : list (string * log_tree) * nat :=
  let gone := λ p : string * log_tree,
    match p.2 with LogDir _ => should_remove now max_age p.2 && removable p.1 | LogFile _ => false end in
  (filter (λ p, gone p = false) l, length (filter (λ p, gone p = true) l)).

(** ** Repeated calls *)

(** [ur_utils::retry]: [None] is the panic of [expect] when no attempt is allowed. *)
Fixpoint retry_from {S E A} (attempts : nat) (last_err : option E) (f : SE S E A) (s : S) : option (result A E) * S :=
  match attempts with
  | 0 => (Err <$> last_err, s)
  | S n =>
      match f s with
      | (Ok val, s) => (Some (Ok val), s)
      | (Err e, s) => retry_from n (Some e) f s
      end
  end.
Definition retry {S E A} (max_attempts : nat) (f : SE S E A) (s : S) : option (result A E) * S :=
  retry_from max_attempts None f s.

Definition DEFAULT_MAX_RETRIES : nat := 3.
Definition DEFAULT_BASE_BACKOFF_MS : Z := 200.
Definition is_retryable (code : Status.code) : bool :=
  match code with
  | Status.Unavailable | Status.Internal => true
  | Status.OtherCode n => bool_decide (n = 2)
  | _ => false
  end.
Definition is_connection_error (status : Status.t) : bool :=
  let msg := to_lowercase (Status.message status) in
  contains "connection refused" msg || contains "connection reset" msg || contains "broken pipe" msg
  || contains "transport error" msg.
Module GrpcRetryPolicy.
Record t : Type := mk { max_retries : nat; base_backoff : Z; attempts_remaining : nat }.
Definition new (max_retries : nat) (base_backoff : Z) : t := mk max_retries base_backoff max_retries.
(** [Some] is a retry after the milliseconds. *)
Definition retry {Res} (self : t) (result : result Res Status.t) : option Z * t :=
  match result with
  | Ok _ => (None, self)
  | Err status =>
      if decide (attempts_remaining self = 0) then (None, self)
      else if negb (is_retryable (Status.code_of status)) && negb (is_connection_error status) then (None, self)
      else
        let remaining := pred (attempts_remaining self) in
        let attempt := max_retries self - remaining in
        (Some (base_backoff self * Z.min U32_MAX (2 ^ Z.of_nat (attempt - 1)))%Z,
         mk (max_retries self) (base_backoff self) remaining)
  end.
(** [RetryChannel::service]: the answers the server would give to the requests, in order;
    the answer of the call, the delays, and how many requests were sent. *)
Fixpoint call {Res} (self : t) (answer : result Res Status.t) (rest : list (result Res Status.t))
    : result Res Status.t * list Z :=
  match retry self answer, rest with
  | (Some delay, self), next :: rest => let r := call self next rest in (r.1, delay :: r.2)
  | _, _ => (answer, [])
  end.
End GrpcRetryPolicy.

(** *** Names *)

Lemma strip_suffix_app s p : strip_suffix p (s +:+ p) = Some s.
Proof.
  assert (String.length (s +:+ p) - String.length p = String.length s) as Hl by (rewrite length_app_str; lia).
  unfold strip_suffix, ends_with. rewrite Hl, str_drop_app, str_take_app, length_app_str.
  rewrite bool_decide_eq_true_2 by done. by rewrite (proj2 (Nat.leb_le _ _)) by lia.
Qed.
Lemma digits_lack_dash i s : is_timestamp_from i s = true → lacks "-"%char s.
Proof.
  revert i. induction s as [|b s IH]; intros i; [done|]. simpl. intros [Hb Hs]%andb_true_iff.
  apply lacks_cons. split; [|by apply (IH (S i))]. intros <-.
  destruct (decide (i = 8)); [done|]. by destruct (decide (i = 15)).
Qed.
Lemma rsplit_once_app a b : lacks "-"%char b → rsplit_once "-" (a +:+ "-" +:+ b) = Some (a, b).
Proof.
  intros Hb. unfold rsplit_once. change (a +:+ "-" +:+ b) with (a +:+ String "-" b).
  rewrite rfind_char_app by done.
  change (Some (str_take (String.length a) (a +:+ String "-" b), str_drop (S (String.length a)) (a +:+ String "-" b))
    = Some (a, b)).
  by rewrite str_take_app, str_drop_cut.
Qed.
Lemma parse_rest_new db ts manual : db ≠ EmptyString → is_backup_timestamp ts = true →
  parse_rest (db +:+ "-" +:+ ts) manual = Some (BackupFileName.mk (Some db) ts manual).
Proof.
  intros Hdb Hts. pose proof Hts as [_ Hd]%andb_true_iff. apply digits_lack_dash in Hd.
  unfold parse_rest. rewrite rsplit_once_app by done. by rewrite (proj2 (String.eqb_neq _ _) Hdb), Hts.
Qed.
Lemma parse_prefix_automatic rest : parse_prefix (AUTOMATIC_BACKUP_PREFIX +:+ rest) = Some (rest, false).
Proof.
  unfold parse_prefix. assert (strip_prefix MANUAL_BACKUP_PREFIX (AUTOMATIC_BACKUP_PREFIX +:+ rest) = None) as -> by done.
  unfold strip_prefix. by rewrite prefix_app, str_drop_app.
Qed.
Lemma parse_prefix_manual rest : parse_prefix (MANUAL_BACKUP_PREFIX +:+ rest) = Some (rest, true).
Proof. unfold parse_prefix, strip_prefix at 1. by rewrite prefix_app, str_drop_app. Qed.
Lemma assoc_name p db ts e : p +:+ db +:+ "-" +:+ ts +:+ e = (p +:+ db +:+ "-" +:+ ts) +:+ e.
Proof. by rewrite !app_assoc_str. Qed.
(** A name carries its database and its time. *)
Lemma parse_automatic db ts : db ≠ EmptyString → is_backup_timestamp ts = true →
  parse_backup_filename (automatic_backup_filename db ts) = Some (BackupFileName.mk (Some db) ts false).
Proof.
  intros Hdb Hts. unfold parse_backup_filename, automatic_backup_filename.
  rewrite assoc_name, strip_suffix_app, parse_prefix_automatic. by apply parse_rest_new.
Qed.
Lemma parse_manual db ts : db ≠ EmptyString → is_backup_timestamp ts = true →
  parse_backup_filename (manual_backup_filename db ts) = Some (BackupFileName.mk (Some db) ts true).
Proof.
  intros Hdb Hts. unfold parse_backup_filename, manual_backup_filename.
  rewrite assoc_name, strip_suffix_app, parse_prefix_manual. by apply parse_rest_new.
Qed.
Lemma automatic_of_automatic db db' ts : db' ≠ EmptyString → is_backup_timestamp ts = true →
  automatic_of db (automatic_backup_filename db' ts) = bool_decide (db' = db).
Proof.
  intros Hdb Hts. unfold automatic_of. rewrite parse_automatic by done. simpl.
  apply bool_decide_ext. naive_solver.
Qed.

(** *** Retention *)

Lemma sorted_drop {A} (R : relation A) `{!Transitive R, !AntiSymm (=) R, !RelDecision R, !EqDecision A} k l n :
  StronglySorted R l → NoDup l →
  n ∈ drop k l ↔ n ∈ l ∧ k ≤ length (filter (λ x, R x n ∧ x ≠ n) l).
Proof.
  intros Hs. revert k. induction Hs as [|x l Hs IH Hx]; intros k Hnd.
  { rewrite drop_nil. split; [by intros ?%elem_of_nil|by intros [?%elem_of_nil _]]. }
  apply NoDup_cons in Hnd as [Hni Hnd]. destruct k as [|k].
  { simpl. split; [by split; [|lia]|by intros [? _]]. }
  simpl. rewrite (IH k Hnd), filter_cons, elem_of_cons. destruct (decide (n = x)) as [->|Hne].
  - rewrite decide_False by by intros []. split; [by intros [? _]|]. intros [_ Hk].
    destruct (filter (λ y, R y x ∧ y ≠ x) l) as [|y l'] eqn:E; [simpl in Hk; lia|].
    assert (y ∈ filter (λ y, R y x ∧ y ≠ x) l) as [[H1 H2] Hy]%list_elem_of_filter by (rewrite E; by left).
    destruct H2. apply (anti_symm R); [done|]. by apply (proj1 (Forall_forall _ _) Hx).
  - split.
    + intros [Hn Hk]. split; [by right|]. rewrite decide_True; [simpl; lia|].
      split; [by apply (proj1 (Forall_forall _ _) Hx)|done].
    + intros [[->|Hn] Hk]; [done|]. split; [done|]. rewrite decide_True in Hk; [simpl in Hk; lia|].
      split; [by apply (proj1 (Forall_forall _ _) Hx)|done].
Qed.

Section Retention.
Context {FS : FileSystem}.

(** The automatic backups of a database in a directory, and how many of them are newer
    than one. *)
Definition automatic_backups (db : string) (m : directory) : list string :=
  filter (λ n, automatic_of db n = true) (map_to_list m).*1.
Definition rank (db : string) (m : directory) (n : string) : nat :=
  length (filter (λ x, newest_first x n ∧ x ≠ n) (automatic_backups db m)).
(** What a cleanup removes, besides what it reports. *)
Definition expired (db current : string) (retain : Z) (m : directory) (failures : list cleanup_failure) (n : string) : Prop :=
  automatic_of db n = true ∧ n ≠ current ∧ Z.to_nat retain ≤ rank db m n
  ∧ DirectoryUnread ∉ failures ∧ NotRemoved n ∉ failures.

Lemma elem_of_automatic db m n : n ∈ automatic_backups db m ↔ automatic_of db n = true ∧ is_Some (m !! n).
Proof.
  unfold automatic_backups. rewrite list_elem_of_filter, list_elem_of_fmap. split.
  - intros (Ha & [n' e] & -> & Hin%elem_of_map_to_list). by split; [|eexists].
  - intros (Ha & e & He). split; [done|]. exists (n, e). split; [done|]. by apply elem_of_map_to_list.
Qed.
Lemma automatic_NoDup db m : NoDup (automatic_backups db m).
Proof. apply NoDup_filter, NoDup_fst_map_to_list. Qed.

Lemma remove_backups_spec current l m : NoDup l →
  spec m (remove_backups current l) (λ r m',
    ∃ failures, r = Ok failures ∧ DirectoryUnread ∉ failures
      ∧ (∀ n, NotRemoved n ∈ failures → n ∈ l)
      ∧ ∀ n, (n ∈ l ∧ n ≠ current ∧ NotRemoved n ∉ failures → m' !! n = None)
           ∧ (¬ (n ∈ l ∧ n ≠ current ∧ NotRemoved n ∉ failures) → m' !! n = m !! n)).
Proof.
  revert m. induction l as [|x l IH]; intros m Hnd.
  { apply spec_ret. exists []. split_and!; [done|by apply not_elem_of_nil|by intros n ?%elem_of_nil|].
    intros n. split; [by intros [?%elem_of_nil _]|done]. }
  apply NoDup_cons in Hnd as [Hni Hnd]. simpl. destruct (String.eqb_spec x current) as [->|Hne].
  - eapply spec_mono; [by apply IH|]. simpl. intros r m' (fl & -> & Hu & Hf & Hn). exists fl.
    split_and!; [done|done|by intros n ?%Hf; right|]. intros n. destruct (Hn n) as [H1 H2]. split.
    + intros ([->|Hin]%elem_of_cons & ? & ?); [done|]. by apply H1.
    + intros H. apply H2. intros (? & ? & ?). apply H. by split_and!; [right| |].
  - apply spec_bind, spec_attempt. apply (spec_mono _ _ (λ r m', (r = Ok tt ∧ m' = delete x m) ∨ (∃ e, r = Err e) ∧ m' = m)).
    { apply spec_fs; [right; split; [by eexists|done]|]. intros _.
      destruct (m !! x) as [[c t|]|]; [by left|right; split; [by eexists|done]..]. }
    intros r m1 Hr. apply spec_bind. eapply spec_mono; [by apply IH|]. simpl. intros r' m' (fl & -> & Hu & Hf & Hn).
    apply spec_ret. destruct Hr as [[-> ->]|[[e ->] ->]].
    + exists fl. split_and!; [done|done|by intros n ?%Hf; right|]. intros n. destruct (Hn n) as [H1 H2]. split.
      * intros ([->|Hin]%elem_of_cons & ? & ?); [|by apply H1]. rewrite H2; [apply lookup_delete_eq|by intros [? _]].
      * intros H. rewrite H2; [|intros (? & ? & ?); apply H; by split_and!; [right| |]].
        apply lookup_delete_ne. intros ->. apply H. split_and!; [by left|done|]. by intros ?%Hf.
    + exists (NotRemoved x :: fl). split_and!; [done|by apply not_elem_of_cons| |].
      * intros n [[= ->]|?%Hf]%elem_of_cons; [by left|by right].
      * intros n. destruct (Hn n) as [H1 H2]. split.
        -- intros ([->|Hin]%elem_of_cons & ? & [? ?]%not_elem_of_cons); [done|]. by apply H1.
        -- intros H. apply H2. intros (? & ? & ?). apply H. split_and!; [by right|done|].
           apply not_elem_of_cons. split; [|done]. intros [= ->]. done.
Qed.

Lemma clean_old_backups_spec db current retain m :
  spec m (clean_old_backups db current retain) (λ r m',
    ∃ failures, r = Ok failures
      ∧ (∀ n, expired db current retain m failures n → m' !! n = None)
      ∧ ∀ n, ¬ expired db current retain m failures n → m' !! n = m !! n).
Proof.
  apply spec_bind, spec_attempt, spec_fs.
  { apply spec_ret. exists [DirectoryUnread]. split_and!; [done| |done]. intros n (_ & _ & _ & H & _). destruct H. by left. }
  intros _. set (l := order_by newest_first _).
  assert (l ≡ₚ automatic_backups db m) as Hl.
  { unfold l, automatic_backups. by rewrite order_by_perm, (read_order_perm m). }
  assert (NoDup l) as Hnd by (rewrite Hl; apply automatic_NoDup).
  assert (∀ n, is_Some (m !! n) → n ∈ drop (Z.to_nat retain) l ↔ automatic_of db n = true ∧ Z.to_nat retain ≤ rank db m n) as Hdrop.
  { intros n Hn. rewrite (sorted_drop newest_first); [|by apply order_by_sorted; apply _|done]. rewrite Hl, elem_of_automatic.
    unfold rank. by rewrite <- Hl; naive_solver. }
  eapply spec_mono; [apply remove_backups_spec|].
  { rewrite <- (take_drop (Z.to_nat retain) l) in Hnd. by apply NoDup_app in Hnd as (_ & _ & ?). }
  simpl. intros r m' (fl & -> & Hu & Hf & Hn). exists fl. split; [done|].
  assert (∀ n, is_Some (m !! n) → expired db current retain m fl n ↔ n ∈ drop (Z.to_nat retain) l ∧ n ≠ current ∧ NotRemoved n ∉ fl) as Hex.
  { intros n Hs. unfold expired. rewrite (Hdrop n Hs). naive_solver. }
  assert (∀ n, m !! n = None → m' !! n = None) as Hnone.
  { intros n Hnn. destruct (Hn n) as [_ H2]. rewrite H2; [done|]. intros (Hin & _).
    assert (n ∈ l) as Hin' by (rewrite <- (take_drop (Z.to_nat retain) l); apply elem_of_app; by right).
    rewrite Hl in Hin'. apply elem_of_automatic in Hin' as [_ [e He]]. congruence. }
  split; intros n H; destruct (m !! n) as [e|] eqn:E; [| |rewrite <- E|]; [apply Hn; by apply (Hex n)|by apply Hnone| |by apply Hnone].
  apply Hn. intros H'. apply H. by apply (Hex n).
Qed.
End Retention.

Lemma le_length_newest `{!FileSystem} db m l : NoDup l → (∀ n, n ∈ l → n ∈ automatic_backups db m) → ∀ k,
  (∀ n, n ∈ l → rank db m n < k) → length l ≤ k.
Proof.
  intros Hnd Hin k Hk. transitivity (length (take k (order_by newest_first (automatic_backups db m)))); [|rewrite length_take; apply Nat.le_min_l].
  apply submseteq_length, NoDup_submseteq; [done|]. intros n Hn.
  pose proof (Hin n Hn) as Ha. rewrite <- (order_by_perm newest_first) in Ha.
  rewrite <- (take_drop k) in Ha. apply elem_of_app in Ha as [Ha|Hd]; [done|].
  apply (sorted_drop newest_first) in Hd as [_ Hd].
  - rewrite order_by_perm in Hd. exfalso. exact (Nat.lt_irrefl _ (Nat.lt_le_trans _ _ _ (Hk n Hn) Hd)).
  - apply order_by_sorted; apply _.
  - rewrite order_by_perm. apply automatic_NoDup.
Qed.

(** C40: the periodic backup of a database.  A dump that fails removes nothing.  After one
    that succeeds the dump is there, and of the other files exactly the automatic backups
    of this database with [retain] newer ones are gone, except those reported: backups of
    other databases, manual and legacy ones and all other files stay; and if nothing is
    reported at most [retain] automatic backups of the database remain besides the new
    one, at most [retain] in all when the new one is the newest and [retain] is not zero. *)
Theorem run_backup_spec {FS : FileSystem} {PG : Postgres} db retain d r d' :
  db ≠ EmptyString → run_backup db retain d = (r, d') →
  let new := automatic_backup_filename db (timestamp_now (calls d)) in
  match pg_dump db (calls d) with
  | (_, false) => r = Ok [] ∧ ∀ n, n ≠ new → files d' !! n = files d !! n
  | (output, true) =>
      let m := match output with Some content => <[new := File content (clock (calls d))]> (files d) | None => files d end in
      ∃ failures, r = Ok failures
        ∧ files d' !! new = m !! new
        ∧ (∀ n, expired db new retain m failures n → files d' !! n = None)
        ∧ (∀ n, ¬ expired db new retain m failures n → files d' !! n = m !! n)
        ∧ (failures = [] →
             length (automatic_backups db (files d')) ≤ S (Z.to_nat retain)
             ∧ (rank db m new = 0 → (1 ≤ retain)%Z → length (automatic_backups db (files d')) ≤ Z.to_nat retain))
  end.
Proof.
  intros Hdb Hr new. unfold run_backup in Hr. rewrite run_bind, run_gets in Hr. fold new in Hr.
  rewrite run_bind, run_attempt in Hr. unfold dump_to in Hr. destruct (pg_dump db (calls d)) as [output ok] eqn:Ep.
  set (m := match output with Some content => <[new := File content (clock (calls d))]> (files d) | None => files d end) in *.
  destruct ok; simpl in Hr.
  2: { injection Hr as <- <-. split; [done|]. intros n Hn. simpl. unfold m. destruct output; [|done].
       by rewrite lookup_insert_ne. }
  pose proof (clean_old_backups_spec db new retain m (Disk m (failures d) (S (calls d))) eq_refl) as Hs.
  rewrite Hr in Hs. cbn [fst snd] in Hs. destruct Hs as (fl & -> & Hgone & Hstay). cbv zeta. exists fl. split_and!; [done| |done|done|].
  { apply Hstay. by intros (_ & H & _). }
  intros ->.
  assert (∀ n, n ∈ automatic_backups db (files d') → n ∈ automatic_backups db m ∧ (n = new ∨ rank db m n < Z.to_nat retain)) as Hleft.
  { intros n [Ha Hn]%elem_of_automatic. simpl in Hgone, Hstay.
    destruct (decide (n = new ∨ rank db m n < Z.to_nat retain)) as [Hd|Hd].
    - split; [|done]. apply elem_of_automatic. split; [done|]. rewrite <- Hstay; [done|]. intros (_ & ? & ? & _). destruct Hd; [done|lia].
    - rewrite Hgone in Hn; [by destruct Hn|]. split_and!; [done|naive_solver|lia|by apply not_elem_of_nil..]. }
  pose proof (automatic_NoDup db (files d')) as Hnd. split.
  - destruct (decide (new ∈ automatic_backups db (files d'))) as [Hin|Hni].
    + apply elem_of_Permutation in Hin as [l Hl]. rewrite Hl in Hnd |- *. simpl. apply le_n_S.
      apply NoDup_cons in Hnd as [Hni Hnd]. apply (le_length_newest db m); [done| |].
      * intros n Hn. apply Hleft. rewrite Hl. by right.
      * intros n Hn. destruct (Hleft n) as [_ [->|]]; [rewrite Hl; by right|done|done].
    + apply le_S, (le_length_newest db m); [done|by intros n [? _]%Hleft|].
      intros n Hn. destruct (Hleft n Hn) as [_ [->|]]; done.
  - intros H0 H1. apply (le_length_newest db m); [done|by intros n [? _]%Hleft|].
    intros n Hn. destruct (Hleft n Hn) as [_ [->|]]; [lia|done].
Qed.

(** *** Old logs and repeated calls *)

(** A readable file at any depth. *)
Inductive holds_file : log_tree → Z → Prop :=
| holds_here t : holds_file (LogFile (Some t)) t
| holds_below l n e t : (n, e) ∈ l → holds_file e t → holds_file (LogDir (Some l)) t.

Section TreeInd.
Variable P : log_tree → Prop.
Hypothesis Pfile : ∀ m, P (LogFile m).
Hypothesis Punread : P (LogDir None).
Hypothesis Pdir : ∀ l, Forall (λ p, P p.2) l → P (LogDir (Some l)).
Fixpoint log_tree_ind' (t : log_tree) : P t :=
  match t with
  | LogFile m => Pfile m
  | LogDir None => Punread
  | LogDir (Some l) =>
      Pdir l ((fix go (l : list (string * log_tree)) : Forall (λ p, P p.2) l :=
        match l with
        | [] => Forall_nil_2 _
        | p :: l => Forall_cons_2 _ p l (log_tree_ind' p.2) (go l)
        end) l)
  end.
End TreeInd.

Lemma newest_mtime_spec t :
  (∀ z, holds_file t z → ∃ z', newest_mtime t = Some z' ∧ (z ≤ z')%Z)
  ∧ ∀ z, newest_mtime t = Some z → holds_file t z.
Proof.
  induction t as [[z|]| |l IH] using log_tree_ind'; simpl.
  - split; [intros z' H; inversion H; eauto with lia|intros ? [= <-]; constructor].
  - split; [intros z' H; inversion H|done].
  - split; [intros z' H; inversion H|done].
  - set (go := fix go newest l := match l with [] => newest | _ :: _ => _ end).
    assert (∀ l0 newest, Forall (λ p, (∀ z, holds_file p.2 z → ∃ z', newest_mtime p.2 = Some z' ∧ (z ≤ z')%Z)
        ∧ ∀ z, newest_mtime p.2 = Some z → holds_file p.2 z) l0 →
      (∀ z, newest = Some z ∨ (∃ n e, (n, e) ∈ l0 ∧ holds_file e z) → ∃ z', go newest l0 = Some z' ∧ (z ≤ z')%Z)
      ∧ ∀ z, go newest l0 = Some z → newest = Some z ∨ ∃ n e, (n, e) ∈ l0 ∧ holds_file e z) as Hgo.
    2: { destruct (Hgo l None IH) as [H1 H2]. split.
         - intros z H. inversion H; subst. apply H1. right. eauto.
         - intros z [?|(n & e & Hin & He)]%H2; [done|]. by econstructor. }
    clear l IH. induction l0 as [|[n e] l0 IHl]; intros newest HF; simpl.
    { split; [|by left]. intros z [->|(n & e & Hin%elem_of_nil & _)]; [by exists z|done]. }
    apply Forall_cons in HF as [[He1 He2] HF]. simpl in He1, He2. destruct (IHl (max_time newest (newest_mtime e)) HF) as [H1 H2]. split.
    + intros z Hz.
      assert (∃ z1, max_time newest (newest_mtime e) = Some z1 ∧ (z ≤ z1)%Z ∨ ∃ n0 e0, (n0, e0) ∈ l0 ∧ holds_file e0 z) as [z1 [[Hm Hle]|Hr]].
      { destruct Hz as [->|(n0 & e0 & [[= -> ->]|Hin]%elem_of_cons & H0)].
        - unfold max_time. destruct (newest_mtime e) as [t|]; eexists; left; split; try done; lia.
        - destruct (He1 z H0) as (z1 & -> & Hle). unfold max_time. destruct newest as [y|]; eexists; left; split; try done; lia.
        - exists 0%Z. right. eauto. }
      * destruct (H1 z1) as (z' & Hz' & Hle'); [by left|]. exists z'. split; [done|lia].
      * apply H1. by right.
    + intros z [Hm|(n0 & e0 & Hin & H0)]%H2; [|right; exists n0, e0; by split; [right|]].
      unfold max_time in Hm. destruct (newest_mtime e) as [t|] eqn:Et; [|by left].
      injection Hm as Hm. destruct newest as [y|].
      * destruct (Z.max_spec y t) as [[_ E]|[_ E]]; rewrite E in Hm; subst; [right|by left].
        exists n, e. split; [by left|by apply He2].
      * subst. right. exists n, e. split; [by left|by apply He2].
Qed.
(** Only directories go, and only those whose files are all older than allowed. *)
Lemma run_cleanup_spec now max_age removable l n t : (0 ≤ max_age)%Z →
  (n, t) ∈ (run_cleanup now max_age removable l).1 ↔
  (n, t) ∈ l ∧ ((∃ m, t = LogFile m) ∨ removable n = false ∨ ∃ z, holds_file t z ∧ (now - z ≤ max_age)%Z).
Proof.
  intros Hage. simpl. rewrite list_elem_of_filter. simpl. destruct (newest_mtime_spec t) as [H1 H2].
  assert (should_remove now max_age t = false ↔ ∃ z, holds_file t z ∧ (now - z ≤ max_age)%Z) as Hs.
  { unfold should_remove. split.
    - destruct (newest_mtime t) as [z|]; [|done]. intros H%Z.ltb_ge. exists z. split; [by apply H2|lia].
    - intros (z & Hz & Hle). destruct (H1 z Hz) as (z' & -> & Hle'). apply Z.ltb_ge. lia. }
  destruct t as [m|o].
  - split; [intros [_ ?]; eauto|by intros [? _]].
  - rewrite andb_false_iff, Hs. split; [intros [[?|?] ?]; auto|]. intros [? [[m Hm]|[?|?]]]; [done|auto|auto].
Qed.

(** An allowed retry ends with a result. *)
Lemma retry_total {S E A} n (f : SE S E A) s : 1 ≤ n → is_Some (retry n f s).1.
Proof.
  unfold retry. destruct n as [|n]; [lia|]. intros _. simpl.
  assert (∀ n e s, is_Some (retry_from n (Some e) f s).1) as H.
  { clear. induction n as [|n IH]; intros e s; simpl; [by eexists|]. destruct (f s) as [[a|e'] s']; [by eexists|apply IH]. }
  destruct (f s) as [[a|e] s']; [by eexists|apply H].
Qed.
(** At most [max] retries, each after twice the time of the one before. *)
Lemma call_delays {Res} max base (answer : result Res Status.t) rest :
  let r := GrpcRetryPolicy.call (GrpcRetryPolicy.new max base) answer rest in
  length r.2 ≤ max ∧ ∀ i d, r.2 !! i = Some d → d = (base * Z.min U32_MAX (2 ^ Z.of_nat i))%Z.
Proof.
  intros r. unfold r, GrpcRetryPolicy.new.
  assert (∀ remaining (answer : result Res Status.t) rest, remaining ≤ max →
    let r := GrpcRetryPolicy.call (GrpcRetryPolicy.mk max base remaining) answer rest in
    length r.2 ≤ remaining
    ∧ ∀ i d, r.2 !! i = Some d → d = (base * Z.min U32_MAX (2 ^ Z.of_nat (max - remaining + i)))%Z) as H.
  2: { destruct (H max answer rest) as [H1 H2]; [done|]. split; [done|]. intros i d Hd. rewrite (H2 i d Hd).
       by rewrite Nat.sub_diag. }
  clear answer rest r. intros remaining answer rest. revert remaining answer.
  induction rest as [|next rest IH]; intros remaining answer Hle; simpl.
  { destruct answer as [a|st]; simpl; [by split; [lia|]|]. destruct (decide (remaining = 0)); simpl; [by split; [lia|]|].
    destruct (_ && _); simpl; by split; [lia|]. }
  destruct answer as [a|st]; simpl; [by split; [lia|]|]. destruct (decide (remaining = 0)); simpl; [by split; [lia|]|].
  destruct (_ && _); simpl; [by split; [lia|]|].
  destruct (IH (pred remaining) next) as [H1 H2]; [lia|]. split; [lia|]. intros [|i] d; simpl.
  - intros [= <-]. do 4 f_equal. lia.
  - intros Hd. rewrite (H2 i d Hd). do 4 f_equal. lia.
Qed.

(** ** Concrete runs *)

Module UpkeepRuns.
#[export, refine] Instance test_fs : FileSystem := {| read_order := λ m, map_to_list m; clock := Z.of_nat |}.
Proof. done. Defined.
#[export, refine] Instance test_postgres : Postgres :=
  {| pg_dump := λ _ _, (Some "dump", true); timestamp_now := λ _, "20260103T000000Z" |}.
Proof. done. Defined.
Definition writer : LogWriter.t := LogWriter.mk "s.log" 8.
Definition d0 : disk := Disk ∅ [] 0.
Definition write_all (bufs : list string) (d : disk) : disk := foldl (λ d b, (LogWriter.write writer b d).2) d bufs.

Definition nine_records : disk := write_all ((λ i, "record0" +:+ pretty i) <$> seq 0 9) d0.
(** Records of eight bytes, the limit: the seven newest are kept. *)
Lemma keeps_seven_records :
  size (files nine_records) = 7
  ∧ (content_of (files nine_records) ∘ LogWriter.path writer) <$> seq 0 7
    = ["record08"; "record07"; "record06"; "record05"; "record04"; "record03"; "record02"].
Proof. split; vm_compute; reflexivity. Qed.

Lemma log_keeps_newest_witness :
  let o := LogWriter.write writer "record00" d0 in
  o.1 = Ok 8%Z ∧ tidy writer (files o.2) ∧ bounded writer (files o.2)
  ∧ ∃ x, content_of (files o.2) "s.log" = x +:+ "record00".
Proof.
  intros o. assert (o.1 = Ok 8%Z) as Ho by (vm_compute; reflexivity).
  destruct (log_keeps_newest writer d0 "record00" o.1 o.2) as (H1 & H2 & _ & p & q & _ & _ & _ & H3).
  - done.
  - done.
  - apply empty_tidy.
  - apply surjective_pairing.
  - destruct H3 as [_ H3]; [done|]. split; [exact Ho|split; [exact H1|split; [exact H2|]]].
    by apply (H3 8%Z).
Defined.

(** Eight dated files, from before there were limits. *)
Definition legacy : disk :=
  Disk (list_to_map ((λ i : nat, ("s.log.2026-01-0" +:+ pretty i, File "old" (Z.of_nat i))) <$> seq 1 8)) [] 9.
Lemma open_prunes_witness :
  let o := LogWriter.open writer legacy in
  o.1 = Ok tt ∧ bounded writer (files o.2)
  ∧ files o.2 !! "s.log.2026-01-01" = None ∧ files o.2 !! "s.log.2026-01-08" = Some (File "old" 8).
Proof.
  intros o. assert (o.1 = Ok tt) as Ho by (vm_compute; reflexivity).
  destruct (open_prunes writer legacy o.1 o.2) as (_ & _ & _ & H).
  - apply surjective_pairing.
  - split; [exact Ho|]. split; [by apply H|split; vm_compute; reflexivity].
Defined.

Definition backup_dir : disk :=
  Disk (list_to_map [("ur-backup-ur_tickets-20260101T000000Z.pgdump", File "a" 1); ("ur-backup-ur_tickets-20260102T000000Z.pgdump", File "b" 2);
    ("ur-backup-ur_workflow-20260101T000000Z.pgdump", File "c" 1); ("manual-ur-backup-ur_tickets-20260101T000000Z.pgdump", File "d" 1);
    ("ur-backup-20250101T000000Z.pgdump", File "e" 0)]) [] 3.
Lemma run_backup_spec_witness :
  let o := run_backup "ur_tickets" 2 backup_dir in
  o.1 = Ok [] ∧ length (automatic_backups "ur_tickets" (files o.2)) ≤ 2
  ∧ files o.2 !! "ur-backup-ur_tickets-20260101T000000Z.pgdump" = None ∧ size (files o.2) = 5.
Proof.
  intros o. assert (o.1 = Ok []) as Ho by (vm_compute; reflexivity).
  pose proof (run_backup_spec "ur_tickets" 2 backup_dir o.1 o.2 ltac:(done) ltac:(apply surjective_pairing)) as H.
  destruct H as (fl & Hfl & _ & _ & _ & Hlen). rewrite Ho in Hfl. injection Hfl as <-.
  destruct (Hlen eq_refl) as [_ Hlen2]. split; [exact Ho|]. split; [|split; vm_compute; reflexivity].
  apply Hlen2; [vm_compute; reflexivity|done].
Defined.
End UpkeepRuns.
