(* ===== verification/Backends.v ===== *)
(** * The git and GitHub backends

    [local_repo/src] and [remote_repo/src]: the traits [LocalRepo] and
    [RemoteRepo] as records of operations, and their implementations on top of
    the builder daemon, [GitBackend] and [GhBackend].  An error is the text of the
    [anyhow] error. *)

From S2P Require Import Prelude RustStd Model Host.
From Stdlib Require Import Ascii String.
Local Open Scope stdpp_scope.

(** ** [local_repo] *)

Module PushStatus.
Inductive t : Type :=
| Success | ForcePushed | Rejected (reason : string) | RemoteRejected (reason : string)
| UpToDate | HookFailed (summary : string).
#[global] Instance eq_dec : EqDecision t.
Proof. solve_decision. Defined.
End PushStatus.

Module PushResult.
Record t : Type := mk { status : PushStatus.t; ref_name : string; summary : string }.
End PushResult.

Module HookResult.
Record t : Type := mk { exit_code : Z; stdout : string; stderr : string }.
End HookResult.

(** The trait [LocalRepo], on the state [H] of the world. *)
Module LocalRepo.
Record t (H : Type) : Type := mk {
  push : string → string → bool → SE H string PushResult.t;
  force_push : string → string → bool → SE H string PushResult.t;
  run_hook : string → string → SE H string HookResult.t;
  current_branch : string → SE H string string;
  fetch : string → SE H string unit;
  reset_hard : string → string → SE H string unit;
  clean : string → SE H string unit;
  checkout : string → string → SE H string unit;
  checkout_branch : string → string → SE H string unit;
  submodule_update : string → SE H string unit;
  clone : string → string → string → SE H string unit
}.
#[global] Arguments mk {H}.
#[global] Arguments push {H}.
#[global] Arguments force_push {H}.
#[global] Arguments run_hook {H}.
#[global] Arguments current_branch {H}.
#[global] Arguments fetch {H}.
#[global] Arguments reset_hard {H}.
#[global] Arguments clean {H}.
#[global] Arguments checkout {H}.
#[global] Arguments checkout_branch {H}.
#[global] Arguments submodule_update {H}.
#[global] Arguments clone {H}.
End LocalRepo.

Definition TAB : string := String (ascii_of_nat 9) EmptyString.

Module GitBackend.
(** [parse_push_output]: the first line of the form flag, tab, refs, tab, summary. *)
Definition is_ref_line (line : string) : bool :=
  bool_decide (String.get 1 line = Some (ascii_of_nat 9)).

Definition status_of_flag (flag : option ascii) (summary : string) : PushStatus.t :=
  match flag with
  | Some "+"%char => PushStatus.ForcePushed
  | Some "="%char => PushStatus.UpToDate
  | Some "!"%char =>
      if contains "remote rejected" summary then PushStatus.RemoteRejected summary
      else PushStatus.Rejected summary
  | _ => PushStatus.Success
  end.

Definition parse_push_output (completed : CompletedExec.t) : PushResult.t :=
  let stdout := CompletedExec.stdout_text completed in
  match list_find (λ line, is_ref_line line = true) (lines stdout) with
  | None =>
      let fallback :=
        if bool_decide (stdout = EmptyString) then CompletedExec.stderr_text completed else stdout in
      let summary := trim fallback in
      PushResult.mk
        (if bool_decide (CompletedExec.exit_code completed ≠ 0%Z)
         then PushStatus.HookFailed summary else PushStatus.Success)
        EmptyString summary
  | Some (_, line) =>
      let flag := String.get 0 line in
      let after_flag := str_drop 2 line in
      let '(refs_part, summary) :=
        match split_once TAB after_flag with
        | Some (r, s) => (r, trim s)
        | None => (after_flag, EmptyString)
        end in
      let ref_name :=
        match split_once ":" refs_part with Some (_, to) => to | None => refs_part end in
      PushResult.mk (status_of_flag flag summary) ref_name summary
  end.

Section Git.
Context {HO : Host}.

Definition exec_git (args : list string) (working_dir : string) : SE host string CompletedExec.t :=
  exec_collect "git" args working_dir.
Definition exec_git_checked (args : list string) (working_dir : string) : SE host string string :=
  completed ← exec_git args working_dir;
  completed ← map_err (λ e, "git command failed: " +:+ status_display e)
                (of_result (CompletedExec.check completed));
  mret (CompletedExec.stdout_text completed).
Definition exec_git_unit (args : list string) (working_dir : string) : SE host string unit :=
  exec_git_checked args working_dir ;; mret tt.

Definition current_branch (working_dir : string) : SE host string string :=
  output ← exec_git_checked ["rev-parse"; "--abbrev-ref"; "HEAD"] working_dir;
  mret (trim output).
Definition push_args (force no_verify : bool) (branch : string) : list string :=
    ["push"; "--porcelain"] ++ (if force then ["--force-with-lease"] else [])
  ++ (if no_verify then ["--no-verify"] else []) ++ ["-u"; "origin"; branch].
Definition push_with (force : bool) (branch working_dir : string) (no_verify : bool)
    : SE host string PushResult.t :=
  completed ← exec_git (push_args force no_verify branch) working_dir;
  mret (parse_push_output completed).
Definition run_hook (script_path working_dir : string) : SE host string HookResult.t :=
  completed ← exec_collect script_path [] working_dir;
  mret (HookResult.mk (CompletedExec.exit_code completed) (CompletedExec.stdout_text completed)
          (CompletedExec.stderr_text completed)).

Definition local_repo : LocalRepo.t host :=
  LocalRepo.mk (push_with false) (push_with true) run_hook current_branch
    (exec_git_unit ["fetch"; "--no-tags"; "origin"])
    (λ working_dir ref_name, exec_git_unit ["reset"; "--hard"; ref_name] working_dir)
    (exec_git_unit ["clean"; "-fdx"])
    (λ working_dir ref_name, exec_git_unit ["checkout"; ref_name] working_dir)
    (λ working_dir branch, exec_git_unit ["checkout"; "-B"; branch] working_dir)
    (exec_git_unit ["submodule"; "update"; "--init"; "--recursive"; "--depth"; "1"])
    (λ url path parent_dir, exec_git_unit
       ["clone"; "--filter=blob:none"; "--no-tags"; "--single-branch"; url; path] parent_dir).
End Git.
End GitBackend.

(** ** [remote_repo] *)

Module PullRequest.
Record t : Type := mk {
  number : Z; url : string; state : string; head_ref : string; base_ref : string;
  title : string; body : string
}.
End PullRequest.
Module CreatePrOpts.
Record t : Type := mk { title : string; body : string; head : string; base : string; draft : bool }.
End CreatePrOpts.
Module MergeResult.
Record t : Type := mk { success : bool; sha : string; error_message : string }.
End MergeResult.
Module MergeStrategy.
Inductive t : Type := Squash | Merge | Rebase.
Definition flag (s : t) : string :=
  match s with Squash => "--squash" | Merge => "--merge" | Rebase => "--rebase" end.
End MergeStrategy.
Module CheckRun.
Record t : Type := mk {
  name : string; status : string; conclusion : string; details_url : string; completed_at : string
}.
End CheckRun.

Module Reactions.
Record t : Type := mk {
  plus_one : Z; minus_one : Z; laugh : Z; confused : Z; heart : Z; hooray : Z; rocket : Z; eyes : Z
}.
End Reactions.
Module ReviewComment.
Record t : Type := mk {
  id : Z; user : string; is_bot : bool; path : string; line : Z; diff_hunk : string; body : string;
  reactions : Reactions.t; in_reply_to_id : option Z; created_at : string
}.
End ReviewComment.
Module ConversationComment.
Record t : Type := mk {
  id : Z; user : string; is_bot : bool; body : string; reactions : Reactions.t; created_at : string
}.
End ConversationComment.

(** [value[key]], [as_str], [as_i64], [as_bool] of [serde_json]. *)
Definition jindex (key : string) (v : json) : json :=
  match v with
  | JObject l => match list_find (λ kv, kv.1 = key) l with Some (_, kv) => kv.2 | None => JNull end
  | _ => JNull
  end.
Definition as_str (v : json) : option string := match v with JString s => Some s | _ => None end.
Definition as_i64 (v : json) : option Z := match v with JNumber n => n | _ => None end.
Definition as_bool (v : json) : option bool := match v with JBool b => Some b | _ => None end.
Definition or_else {A} (a b : option A) : option A := match a with Some x => Some x | None => b end.

Module GhBackend.
Section Gh.
Context {HO : Host} (gh_repo : string).

Definition exec_gh (args : list string) : SE host string CompletedExec.t :=
  frames ← map_err (λ _, "builderd exec failed") (builder_exec (BuilderExecRequest.mk "gh" args "/tmp"));
  map_err (λ e, "stream error: " +:+ status_display e) (of_result (CompletedExec.collect frames)).
Definition exec_gh_checked (args : list string) : SE host string string :=
  completed ← exec_gh args;
  completed ← map_err (λ e, "gh command failed: " +:+ status_display e)
                (of_result (CompletedExec.check completed));
  mret (CompletedExec.stdout_text completed).
Definition exec_gh_json (args : list string) : SE host string json :=
  text ← exec_gh_checked args;
  ok_or (json_parse text) "failed to parse gh JSON output".
(** Parsing into a [Vec<Value>]. *)
Definition exec_gh_json_array (args : list string) : SE host string (list json) :=
  text ← exec_gh_checked args;
  match json_parse text with
  | Some (JArray l) => mret l
  | _ => throw "failed to parse gh JSON output"
  end.

Definition str_or_empty (o : option string) : string := default EmptyString o.
Definition parse_pr_from_api (v : json) : PullRequest.t :=
  PullRequest.mk (default 0%Z (as_i64 (jindex "number" v)))
    (str_or_empty (or_else (as_str (jindex "html_url" v)) (as_str (jindex "url" v))))
    (str_or_empty (as_str (jindex "state" v)))
    (str_or_empty (or_else (as_str (jindex "ref" (jindex "head" v))) (as_str (jindex "headRefName" v))))
    (str_or_empty (or_else (as_str (jindex "ref" (jindex "base" v))) (as_str (jindex "baseRefName" v))))
    (str_or_empty (as_str (jindex "title" v))) (str_or_empty (as_str (jindex "body" v))).

Definition check_mergeable (pr_number : Z) : SE host string string :=
  r ← attempt (exec_gh_json ["api"; "repos/" +:+ gh_repo +:+ "/pulls/" +:+ pretty pr_number]);
  match r with
  | Err _ => mret mergeable.UNKNOWN
  | Ok value =>
      mret match as_bool (jindex "mergeable" value) with
           | Some true => mergeable.MERGEABLE
           | Some false => mergeable.CONFLICT
           | None => mergeable.UNKNOWN
           end
  end.

Definition get_pr (pr_number : Z) : SE host string PullRequest.t :=
  value ← exec_gh_json ["api"; "repos/" +:+ gh_repo +:+ "/pulls/" +:+ pretty pr_number];
  mret (parse_pr_from_api value).

(** The last segment of the printed URL, as a number. *)
Definition pr_number_of_url (pr_url : string) : option Z :=
  match last (split "/" pr_url) with
  | Some s => match parse_i64 s with Ok n => Some n | Err _ => None end
  | None => None
  end.
Definition create_pr (opts : CreatePrOpts.t) : SE host string PullRequest.t :=
  output ← exec_gh_checked
    (["pr"; "create"; "--repo"; gh_repo; "--title"; CreatePrOpts.title opts;
      "--body"; CreatePrOpts.body opts; "--head"; CreatePrOpts.head opts]
     ++ (if bool_decide (CreatePrOpts.base opts = EmptyString) then []
         else ["--base"; CreatePrOpts.base opts])
     ++ (if CreatePrOpts.draft opts then ["--draft"] else []));
  let pr_url := trim output in
  pr_number ← ok_or (pr_number_of_url pr_url)
    ("failed to parse PR number from gh pr create output: " +:+ pr_url);
  value ← exec_gh_json ["pr"; "view"; pretty pr_number; "--repo"; gh_repo; "--json";
    "number,url,state,headRefName,baseRefName,title,body"];
  mret (parse_pr_from_api value).

(** The first line that mentions a hash or has its length. *)
Definition merge_sha (stdout : string) : string :=
  match list_find (λ line, contains "sha" line || (String.length line =? 40)%nat = true) (lines stdout) with
  | Some (_, line) => trim line
  | None => EmptyString
  end.
Definition merge_pr (pr_number : Z) (strategy : MergeStrategy.t) : SE host string MergeResult.t :=
  completed ← exec_gh ["pr"; "merge"; pretty pr_number; "--repo"; gh_repo;
    MergeStrategy.flag strategy; "--delete-branch"];
  let stderr_text := CompletedExec.stderr_text completed in
  if bool_decide (CompletedExec.exit_code completed ≠ 0%Z) then
    let has_conflict := contains "merge conflict" stderr_text || contains "not mergeable" stderr_text
                        || contains "conflicts" stderr_text in
    mret (MergeResult.mk false EmptyString
      (if has_conflict then "merge conflict: " +:+ stderr_text else stderr_text))
  else mret (MergeResult.mk true (merge_sha (CompletedExec.stdout_text completed)) EmptyString).

Definition delete_branch (branch : string) : SE host string unit :=
  completed ← exec_gh ["api"; "-X"; "DELETE"; "repos/" +:+ gh_repo +:+ "/git/refs/heads/" +:+ branch];
  let stderr := CompletedExec.stderr_text completed in
  if bool_decide (CompletedExec.exit_code completed ≠ 0%Z)
     && negb (contains "Reference does not exist" stderr)
  then throw ("failed to delete branch " +:+ branch +:+ ": " +:+ stderr)
  else mret tt.

(** [parse_check_runs] *)
Definition check_run_of (v : json) : CheckRun.t :=
  let state := str_or_empty (as_str (jindex "state" v)) in
  let '(status, conclusion) :=
    if bool_decide (to_uppercase state ∈ ["PENDING"; "EXPECTED"; "QUEUED"; "IN_PROGRESS"])
    then (state, EmptyString) else ("completed", to_lowercase state) in
  CheckRun.mk (str_or_empty (as_str (jindex "name" v))) status conclusion EmptyString
    (str_or_empty (as_str (jindex "completedAt" v))).
Definition parse_check_runs (completed : CompletedExec.t) : result (list CheckRun.t) string :=
  if bool_decide (CompletedExec.exit_code completed ≠ 0%Z) then
    let stderr := CompletedExec.stderr_text completed in
    if contains "no checks reported" stderr then Ok []
    else Err ("gh pr checks failed: " +:+ stderr)
  else match json_parse (CompletedExec.stdout_text completed) with
       | Some (JArray l) => Ok (check_run_of <$> l)
       | _ => Err "failed to parse gh pr checks JSON output"
       end.
Definition check_runs (pr_number : Z) : SE host string (list CheckRun.t) :=
  completed ← exec_gh ["pr"; "checks"; pretty pr_number; "--repo"; gh_repo; "--json";
    "name,state,completedAt"];
  of_result (parse_check_runs completed).

Definition failed_run_logs (run_id : Z) : SE host string string :=
  exec_gh_checked ["run"; "view"; pretty run_id; "--repo"; gh_repo; "--log-failed"].

(** Comments and replies. *)
Definition text_of (key : string) (v : json) : string := str_or_empty (as_str (jindex key v)).
Definition number_of (key : string) (v : json) : Z := default 0%Z (as_i64 (jindex key v)).
Definition parse_reactions (v : json) : Reactions.t :=
  Reactions.mk (number_of "+1" v) (number_of "-1" v) (number_of "laugh" v) (number_of "confused" v)
    (number_of "heart" v) (number_of "hooray" v) (number_of "rocket" v) (number_of "eyes" v).
Definition review_comment_of (v : json) : ReviewComment.t :=
  ReviewComment.mk (number_of "id" v) (text_of "login" (jindex "user" v))
    (bool_decide (text_of "type" (jindex "user" v) = "Bot")) (text_of "path" v) (number_of "line" v)
    (text_of "diff_hunk" v) (text_of "body" v) (parse_reactions (jindex "reactions" v))
    (as_i64 (jindex "in_reply_to_id" v)) (text_of "created_at" v).
Definition get_review_comments (pr_number : Z) : SE host string (list ReviewComment.t) :=
  values ← exec_gh_json_array
    ["api"; "repos/" +:+ gh_repo +:+ "/pulls/" +:+ pretty pr_number +:+ "/comments?per_page=100"];
  mret (review_comment_of <$> values).
Definition conversation_comment_of (v : json) : ConversationComment.t :=
  ConversationComment.mk (number_of "id" v) (text_of "login" (jindex "user" v))
    (bool_decide (text_of "type" (jindex "user" v) = "Bot")) (text_of "body" v)
    (parse_reactions (jindex "reactions" v)) (text_of "created_at" v).
Definition get_conversation_comments (pr_number : Z) : SE host string (list ConversationComment.t) :=
  values ← exec_gh_json_array
    ["api"; "repos/" +:+ gh_repo +:+ "/issues/" +:+ pretty pr_number +:+ "/comments?per_page=100"];
  mret (conversation_comment_of <$> values).
Definition reply_to_comment (pr_number comment_id : Z) (body : string) : SE host string Z :=
  value ← exec_gh_json ["api"; "repos/" +:+ gh_repo +:+ "/pulls/" +:+ pretty pr_number
    +:+ "/comments/" +:+ pretty comment_id +:+ "/replies"; "-f"; "body=" +:+ body];
  ok_or (as_i64 (jindex "id" value)) "reply response missing id".
Definition post_issue_comment (pr_number : Z) (body : string) : SE host string Z :=
  value ← exec_gh_json ["api"; "repos/" +:+ gh_repo +:+ "/issues/" +:+ pretty pr_number +:+ "/comments";
    "-f"; "body=" +:+ body];
  ok_or (as_i64 (jindex "id" value)) "issue comment response missing id".
(** The trait's default method: the bot's prefix. *)
Definition reply_bot_comment (pr_number comment_id : Z) (body : string) : SE host string Z :=
  reply_to_comment pr_number comment_id ("🤖 " +:+ body).
End Gh.
End GhBackend.
