(* ===== verification/HandlerLib.v ===== *)
(** * What the workflow handlers share

    The configuration they read, the lookups each of them starts with, the client
    of the worker daemons ([server/src/workerd_client.rs], [workerd_address.rs],
    [worker_label.rs]) and the log of a failed hook
    ([workflow/handlers/hook_log.rs]). *)

From S2P Require Import Prelude RustStd Model Env TicketDb TicketGraph TicketRepo WorkflowDb.
From S2P Require Import WorkflowRepo WorkerRepo Context Host UrConfig.
From Stdlib Require Import Ascii.
Local Open Scope stdpp_scope.

(** The part of [ur_config::Config] the handlers read. *)
Module Config.
Record t : Type := mk {
  projects : gmap string ProjectConfig.t;
  max_implement_cycles : option Z;
  config_dir : string;
  logs_dir : string;
  worker_prefix : string;
  builderd_addr : string
}.
End Config.

Definition WORKERD_GRPC_PORT : string := "9120".

Section Handlers.
Context {HE : Env} {HO : Host} (config : Config.t).
Abbreviation run A := (SE (ctx host) anyhow A).

(** A computation of the outside world whose error is an [anyhow] error. *)
Definition outside_call {A} (m : SE host string A) : run A := map_err Anyhow (external m).

(** ** Lookups *)

Definition load_ticket (ticket_id : string) : run Ticket.t :=
  o ← of_sqlx (tickets (get_ticket ticket_id));
  expect_some o ("ticket not found: " +:+ ticket_id).

Definition load_workflow (ticket_id : string) : run Workflow.t :=
  o ← of_sqlx (workflows (get_workflow_by_ticket ticket_id));
  expect_some o ("no workflow found for ticket " +:+ ticket_id).

(** The workflow's worker; [what] is what cannot be done without one. *)
Definition assigned_worker (workflow : Workflow.t) (ticket_id what : string) : run string :=
  if bool_decide (Workflow.worker_id workflow = "")
  then bail ("no worker_id on workflow for ticket " +:+ ticket_id +:+ " — cannot " +:+ what)
  else mret (Workflow.worker_id workflow).

Definition load_worker (worker_id : string) : run Worker :=
  o ← of_sqlx (workflows (get_worker worker_id));
  expect_some o ("worker " +:+ worker_id +:+ " not found in database").

(** The slot a worker is linked to. *)
Definition load_slot (worker_id : string) : run Slot.t :=
  link ← of_sqlx (workflows (get_worker_slot worker_id));
  link ← expect_some link ("no slot linked to worker " +:+ worker_id);
  let slot_id := link.1.2 in
  slot ← of_sqlx (workflows (get_slot slot_id));
  expect_some slot ("slot " +:+ slot_id +:+ " not found in database").

(** ** The worker's daemon *)

(** [address_for] and [with_routing] *)
Definition address_for (worker : Worker) : string :=
  match WorkerRow.runtime worker with
  | WorkerRuntime.Container =>
      "http://" +:+ Config.worker_prefix config +:+ WorkerRow.process_id worker +:+ ":"
      +:+ WORKERD_GRPC_PORT
  | WorkerRuntime.Local => Config.builderd_addr config
  end.
Definition routing_worker_id (worker : Worker) : option string :=
  match WorkerRow.runtime worker with
  | WorkerRuntime.Container => None
  | WorkerRuntime.Local => Some (WorkerRow.worker_id worker)
  end.

(** Building a client panics on an address that is not one; a call first builds
    the routing header, then fails as the daemon does. *)
Definition workerd_request (rpc : string) (worker : Worker) (req : WorkerdRequest.t)
    : run WorkerdResponse.t :=
  if negb (endpoint_ok (address_for worker)) then throw Panic
  else
    match (match routing_worker_id worker with
           | None => Ok tt
           | Some w => match metadata_value w with
                       | Ok _ => Ok tt
                       | Err e => Err ("invalid worker id '" +:+ w +:+ "' for routing header: " +:+ e)
                       end
           end) with
    | Err e => bail e
    | Ok _ =>
        map_err (λ e, Anyhow ("workerd " +:+ rpc +:+ " failed: " +:+ status_display e))
          (external (workerd_call (address_for worker) (routing_worker_id worker) req))
    end.

(** A dispatch through [tracked_client_for]: on success the worker is marked
    working, and a failure to mark it is only logged. *)
Definition dispatch (rpc : string) (worker : Worker) (req : WorkerdRequest.t) : run unit :=
  workerd_request rpc worker req ;;
  ignore_err (workflows (update_worker_agent_status (WorkerRow.worker_id worker) AgentStatus.Working)).

(** A caller's [map_err] around the client's error. *)
Definition wrap {A} (prefix : string) (m : run A) : run A :=
  map_err (λ e, match e with Anyhow msg => Anyhow (prefix +:+ msg) | Panic => Panic end) m.

(** An error that is only logged; a panic is not an error. *)
Definition log_error {A} (m : run A) : run unit :=
  r ← attempt m;
  match r with
  | Err Panic => throw Panic
  | _ => mret tt
  end.

(** [worker_label::push] *)
Definition build_label (ticket_id : string) (pr_number : option string) : string :=
  match pr_number with
  | Some pr => "[" +:+ ticket_id +:+ " PR-" +:+ pr +:+ "] "
  | None => "[" +:+ ticket_id +:+ "] "
  end.
Definition set_status_left (worker : Worker) (label : string) (length : Z) : run unit :=
  resp ← workerd_request "SetStatusLeft" worker (WorkerdRequest.SetStatusLeft label length);
  if WorkerdResponse.success resp then mret tt else bail (WorkerdResponse.error resp).
Definition push_label (worker_id : string) : run unit :=
  o ← of_sqlx (workflows (ticket_id_by_worker_id worker_id));
  ticket_id ← expect_some o ("no active workflow found for worker " +:+ worker_id);
  meta ← of_sqlx (tickets (get_meta ticket_id "ticket"));
  let label := build_label ticket_id (meta !! "pr_number") in
  worker ← load_worker worker_id;
  wrap "workerd SetStatusLeft failed: " (set_status_left worker label 50).

(** ** The log of a failed hook *)

Definition CONTAINER_LOGS_DIR : string := "/var/ur/logs".

Definition format_log_content (hook : string) (exit_code : Z) (timestamp stdout stderr : string) : string :=
  "exit_code: " +:+ pretty exit_code +:+ NEWLINE +:+ "timestamp: " +:+ timestamp +:+ NEWLINE
  +:+ "hook: " +:+ hook +:+ NEWLINE +:+ "---" +:+ NEWLINE +:+ stdout +:+ NEWLINE
  +:+ "---" +:+ NEWLINE +:+ stderr.

(** A failed write is only logged. *)
Definition write_hook_failure_log (worker_id hook stdout stderr : string) (exit_code : Z) : run string :=
  now ← map_err (λ e : Empty_set, match e with end) (external log_clock);
  let '(file_stamp, timestamp) := now in
  let filename := hook +:+ "-" +:+ file_stamp +:+ ".log" in
  let host_path := path_join (path_join (path_join (Config.logs_dir config) "workers") worker_id) filename in
  ignore_err (external (write_file host_path
    (format_log_content hook exit_code timestamp stdout stderr))) ;;
  mret (CONTAINER_LOGS_DIR +:+ "/" +:+ filename).

(** [ticket_repo.add_activity(ticket_id, "workflow", ..)?] *)
Definition add_workflow_activity (ticket_id message : string) : run unit :=
  of_sqlx (tickets (add_activity ticket_id "workflow" message)) ;; mret tt.
(** The lines of an activity message. *)
Definition message_lines (l : list string) : string := join NEWLINE l.
End Handlers.

(** ** Two services of other components *)

(** [TicketClient]'s issue tickets and the worker manager's [stop_by_worker_id],
    which the merge handler and the GitHub poller use. *)
Class WorkflowServices {HO : Host} : Type := {
  create_workflow_issue_ticket : string → string → string → string → SE (ctx host) anyhow string;
  stop_by_worker_id : string → SE (ctx host) string unit
}.

(** What a service leaves alone: the workflows, their intents, a working database
    and the coordinator's channel. *)
Record leaves_workflows {H} (x y : ctx H) : Prop := LeavesWorkflows {
  leaves_rows : WorkflowTables.workflow (tables (workflow_db y)) = WorkflowTables.workflow (tables (workflow_db x));
  leaves_intents : WorkflowTables.workflow_intent (tables (workflow_db y))
                   = WorkflowTables.workflow_intent (tables (workflow_db x));
  leaves_working : faults (workflow_db x) = [] → faults (workflow_db y) = [];
  leaves_channel : sent y = sent x ∧ receiving y = receiving x
}.
(** What the two services promise to the components that use them. *)
Class LawfulServices {HO : Host} {HM : WorkflowServices} : Prop := {
  issue_leaves parent kind title body x :
    leaves_workflows x (create_workflow_issue_ticket parent kind title body x).2;
  stop_leaves worker x : leaves_workflows x (stop_by_worker_id worker x).2
}.

(** [ticket_client::issue_type] *)
Definition CI_FAILURE : string := "ci_failure".
Definition MERGE_CONFLICT : string := "merge_conflict".
Definition MERGE_REJECTION : string := "merge_rejection".
