(* ===== verification/WorkHandlers.v ===== *)
(** * The handlers that put a worker to work and check its work

    [workflow/handlers]: [dispatch_implement.rs], [feedback_address.rs],
    [verify.rs], and the two handlers that do nothing. *)

From S2P Require Import Prelude RustStd Model Env TicketDb TicketGraph TicketRepo WorkflowDb.
From S2P Require Import WorkflowRepo WorkerRepo Context Host Backends UrConfig HandlerLib.
From Stdlib Require Import Ascii.
Local Open Scope stdpp_scope.

Module HookOutcome.
Inductive t : Type := Pass | PushAgain | Fail.
#[global] Instance eq_dec : EqDecision t.
Proof. solve_decision. Defined.
End HookOutcome.

Section Handlers.
Context {HE : Env} {HO : Host} (config : Config.t).
Abbreviation run A := (SE (ctx host) anyhow A).

(** [AwaitingDispatchHandler] and [ReviewStartHandler] *)
Definition acknowledge (ticket_id : string) : run unit := mret tt.

(** ** Implementing *)

(** [resolve_cycle_limit] *)
Definition resolve_cycle_limit (project_key : string) : option Z :=
  match Config.projects config !! project_key ≫= ProjectConfig.max_implement_cycles with
  | Some m => Some m
  | None => Config.max_implement_cycles config
  end.

(** Whether the limit was reached, in which case the workflow is stalled. *)
Definition check_cycle_limit (ticket_id project_key : string) : run bool :=
  match resolve_cycle_limit project_key with
  | None => mret false
  | Some max_cycles =>
      workflow ← load_workflow ticket_id;
      if (max_cycles <=? as_u32 (Workflow.implement_cycles workflow))%Z then
        let reason := "implement cycle limit reached (" +:+ pretty (Workflow.implement_cycles workflow)
                      +:+ "/" +:+ pretty max_cycles +:+ ")" in
        of_sqlx (workflows (set_workflow_stalled ticket_id reason)) ;;
        mret true
      else mret false
  end.

Definition read_worker_branch (worker_id ticket_id : string) : run string :=
  slot ← load_slot worker_id;
  branch ← outside_call (LocalRepo.current_branch GitBackend.local_repo (Slot.host_path slot));
  if bool_decide (branch = "HEAD")
  then bail ("worker " +:+ worker_id +:+ " checkout is in detached HEAD state — "
             +:+ "cannot determine branch for ticket " +:+ ticket_id)
  else mret branch.

Definition ensure_ticket_branch (ticket : Ticket.t) (ticket_id worker_id : string) : run string :=
  match Ticket.branch ticket with
  | Some b => mret b
  | None =>
      branch ← read_worker_branch worker_id ticket_id;
      of_sqlx (tickets (update_ticket ticket_id (TicketUpdate.of_branch (Some branch)))) ;;
      mret branch
  end.

Definition dispatch_implement (ticket_id : string) : run unit :=
  ticket ← load_ticket ticket_id;
  limited ← check_cycle_limit ticket_id (Ticket.project ticket);
  if limited : bool then mret tt
  else
    of_sqlx (workflows (increment_implement_cycles ticket_id)) ;;
    workflow ← load_workflow ticket_id;
    worker_id ← assigned_worker workflow ticket_id "dispatch implement";
    worker ← load_worker worker_id;
    (if bool_decide (WorkerRow.container_status worker ≠ "running")
     then bail ("worker " +:+ worker_id +:+ " is not running (status: "
                +:+ WorkerRow.container_status worker +:+ ")")
     else mret tt) ;;
    ensure_ticket_branch ticket ticket_id worker_id ;;
    wrap "workerd implement RPC failed: "
      (dispatch config "Implement" worker (WorkerdRequest.Implement ticket_id)).

(** ** Addressing feedback *)

Definition int_error_text (e : int_error) : string :=
  match e with
  | IntEmpty => "cannot parse integer from empty string"
  | InvalidDigit => "invalid digit found in string"
  | PosOverflow => "number too large to fit in target type"
  | NegOverflow => "number too small to fit in target type"
  end.

Definition feedback_address (ticket_id : string) : run unit :=
  load_ticket ticket_id ;;
  workflow ← load_workflow ticket_id;
  worker_id ← assigned_worker workflow ticket_id "dispatch address feedback";
  meta ← of_sqlx (tickets (get_meta ticket_id "ticket"));
  pr_number_str ← expect_some (meta !! "pr_number")
    ("no pr_number metadata on ticket " +:+ ticket_id +:+ " — cannot address feedback tickets");
  pr_number ← of_result (match parse_u32 pr_number_str with
                         | Ok n => Ok n
                         | Err e => Err (Anyhow ("invalid pr_number '" +:+ pr_number_str +:+ "' on ticket "
                             +:+ ticket_id +:+ ": " +:+ int_error_text e))
                         end);
  pending_comments ← of_sqlx (workflows (get_pending_feedback_comments ticket_id));
  all_seen ← of_sqlx (workflows (get_seen_comment_ids ticket_id));
  let handled_comment_ids := filter (λ i, i ∉ pending_comments) all_seen in
  worker ← load_worker worker_id;
    (if bool_decide (WorkerRow.container_status worker ≠ "running")
   then bail ("worker " +:+ worker_id +:+ " is not running (status: "
              +:+ WorkerRow.container_status worker +:+ ") — cannot dispatch address feedback for ticket "
              +:+ ticket_id)
   else mret tt) ;;
  wrap "workerd address_feedback_tickets RPC failed: "
    (dispatch config "AddressFeedbackTickets" worker
       (WorkerdRequest.AddressFeedback ticket_id pr_number handled_comment_ids)).

(** ** Verifying *)

Definition classify_hook_outcome (exit_code push_again_exit_code : Z) : HookOutcome.t :=
  if (exit_code =? 0)%Z then HookOutcome.Pass
  else if (exit_code =? push_again_exit_code)%Z then HookOutcome.PushAgain
  else HookOutcome.Fail.

(** [None] is the panic of slicing inside a character. *)
Definition build_output_summary (stdout stderr : string) : option string :=
  let parts :=
    (if bool_decide (stdout = "") then [] else ["stdout:" +:+ NEWLINE +:+ stdout])
    ++ (if bool_decide (stderr = "") then [] else ["stderr:" +:+ NEWLINE +:+ stderr]) in
  match parts with
  | [] => Some "(no output)"
  | _ =>
      let combined := join NEWLINE parts in
      if (4000 <? String.length combined)
      then s ← slice_to combined 4000; Some (s +:+ "...(truncated)")
      else Some combined
  end.

Definition hook_path_in (dirs : list string) (root : string) : string := foldl path_join root dirs.
Definition find_workflow_hook_path (project_key slot_host_path : string) (h : host) : option string :=
  let host_overlay :=
    hook_path_in ["projects"; project_key; "hooks"; "workflow"; "pre-push"] (Config.config_dir config) in
  let in_repo := hook_path_in ["ur-hooks"; "workflow"; "pre-push"] slot_host_path in
  if path_exists host_overlay h then Some host_overlay
  else if path_exists in_repo h then Some in_repo
  else None.

Definition advance_to_pushing (ticket_id : string) : run unit :=
  send "Pushing" ticket_id LifecycleStatus.Pushing.
Definition advance_to_implementing (ticket_id : string) : run unit :=
  send "Implementing" ticket_id LifecycleStatus.Implementing.

(** The hook and the directory to run it in, or [None] when there is none and the
    ticket has been sent on to [Pushing]. *)
Definition resolve_hook_context (ticket_id project_key : string) : run (option (string * string)) :=
  workflow ← load_workflow ticket_id;
  worker_id ← assigned_worker workflow ticket_id "run verification";
  slot ← load_slot worker_id;
  let working_dir := Slot.host_path slot in
  found ← gets (λ x, find_workflow_hook_path project_key working_dir (outside x));
  match found with
  | Some hook_path => mret (Some (hook_path, working_dir))
  | None => advance_to_pushing ticket_id ;; mret None
  end.

Definition add_hook_activity (ticket_id result output : string) : run unit :=
  add_workflow_activity ticket_id (message_lines
    ["[workflow] pre-push hook " +:+ result; "source: workflow"; "hook: pre-push";
     "result: " +:+ result; "---"; output]).
Definition add_hook_failure_activity (ticket_id log_path output : string) : run unit :=
  add_workflow_activity ticket_id (message_lines
    ["[workflow] verify failed — logs at " +:+ log_path; "source: workflow"; "hook: pre-push";
     "result: fail"; "---"; output]).

(** Step 5 of [run_verification]: the hook has run. *)
Definition process_hook_result (ticket_id : string) (project_config : ProjectConfig.t)
    (r : HookResult.t) : run unit :=
  output_summary ← ok_or (build_output_summary (HookResult.stdout r) (HookResult.stderr r)) Panic;
  workflow ← load_workflow ticket_id;
  worker_id ← assigned_worker workflow ticket_id "run verification";
  match classify_hook_outcome (HookResult.exit_code r) (ProjectConfig.push_again_exit_code project_config) with
  | HookOutcome.Pass =>
      add_hook_activity ticket_id "pass" output_summary ;;
      advance_to_pushing ticket_id
  | HookOutcome.PushAgain =>
      add_hook_activity ticket_id "push_again" output_summary ;;
      advance_to_pushing ticket_id
  | HookOutcome.Fail =>
      log_path ← write_hook_failure_log config worker_id "verify" (HookResult.stdout r)
        (HookResult.stderr r) (HookResult.exit_code r);
      add_hook_failure_activity ticket_id log_path output_summary ;;
      advance_to_implementing ticket_id
  end.

Definition run_verification (ticket_id : string) : run unit :=
  ticket ← load_ticket ticket_id;
  let project_key := Ticket.project ticket in
  match Config.projects config !! project_key with
  | None => advance_to_pushing ticket_id
  | Some project_config =>
      resolved ← resolve_hook_context ticket_id project_key;
      match resolved with
      | None => mret tt
      | Some (hook_path, working_dir) =>
          r ← attempt (external (LocalRepo.run_hook GitBackend.local_repo hook_path working_dir));
          match r with
          | Err _ =>
              add_hook_activity ticket_id "pass" "hook not found or not executable, skipping verification" ;;
              advance_to_pushing ticket_id
          | Ok hook_result => process_hook_result ticket_id project_config hook_result
          end
      end
  end.
End Handlers.
