(* ===== verification/DeliveryHandlers.v ===== *)
(** * The handlers that deliver a worker's branch

    [workflow/handlers/push.rs] and [merge.rs].  The retry after a rejected push
    is written, as in the code, against an interface: the record [RetryDeps] of
    its effects, and a [LocalRepo]. *)

From S2P Require Import Prelude RustStd Model Env TicketDb TicketGraph TicketRepo WorkflowDb.
From S2P Require Import WorkflowRepo WorkerRepo Context Coordinator Host Backends UrConfig HandlerLib.
From S2P Require Import WorkHandlers.
From Stdlib Require Import Ascii.
Local Open Scope stdpp_scope.

(** ** Branch patterns *)

(** The segments of a single-star pattern, one after the other; what is left of
    the value after the last one. *)
Fixpoint glob_segments (first : bool) (parts : list string) (value : string) : option string :=
  match parts with
  | [] => Some value
  | part :: parts =>
      if bool_decide (part = "") then glob_segments false parts value
      else
        match find part value with
        | None => None
        | Some found =>
            if first && bool_decide (found ≠ 0) then None
            else if negb first && contains "/" (str_take found value) then None
            else glob_segments false parts (str_drop (found + String.length part) value)
        end
  end.

Definition glob_match_single_star (pattern value : string) : bool :=
  let parts := split "*" pattern in
  match parts with
  | [_] => bool_decide (pattern = value)
  | _ =>
      match glob_segments true parts value with
      | None => false
      | Some rest =>
          if negb (ends_with "*" pattern) then bool_decide (rest = "")
          else negb (contains "/" rest)
      end
  end.

Definition glob_match_double_star (parts : list string) (value : string) : bool :=
  match parts with
  | [p] => glob_match_single_star p value
  | _ =>
      let first := default "" (head parts) in
      let last := default "" (last parts) in
      if negb (bool_decide (first = "")) && negb (starts_with first value) then false
      else if negb (bool_decide (last = "")) && negb (ends_with last value) then false
      else true
  end.

Definition pattern_matches (pattern value : string) : bool :=
  if bool_decide (pattern = value) then true
  else
    let parts := split "**" pattern in
    if 1 <? length parts then glob_match_double_star parts value
    else glob_match_single_star pattern value.

Definition default_is_protected (branch : string) : bool :=
  bool_decide (branch = "main") || bool_decide (branch = "master").

(** [gh_repo_from_url] *)
Definition gh_repo_from_url (url : string) : option string :=
  match strip_prefix "git@github.com:" url with
  | Some path => Some (trim_end_matches ".git" path)
  | None =>
      match or_else (strip_prefix "https://github.com/" url) (strip_prefix "http://github.com/" url) with
      | Some rest => Some (trim_end_matches ".git" rest)
      | None =>
          if contains "/" url && negb (contains ":" url) && negb (contains "//" url)
          then Some url else None
      end
  end.

Definition push_status_label (status : PushStatus.t) : string :=
  match status with
  | PushStatus.Success => "success"
  | PushStatus.ForcePushed => "force_pushed"
  | PushStatus.UpToDate => "up_to_date"
  | PushStatus.Rejected _ => "rejected"
  | PushStatus.RemoteRejected _ => "remote_rejected"
  | PushStatus.HookFailed _ => "hook_failed"
  end.

Definition build_pr_title (title : string) (meta : gmap string string) : string :=
  match meta !! ticket_meta.REF with
  | Some r => let trimmed := trim r in
      if bool_decide (trimmed = "") then title else trimmed +:+ " " +:+ title
  | None => title
  end.

(** ** The retry of a rejected push *)

(** The trait [RetryDeps], over the state [S] of the caller. *)
Module RetryDeps.
Record t (S : Type) : Type := mk {
  record_activity : string → string → SE S anyhow unit;
  send_transition : LifecycleStatus → SE S anyhow unit;
  handle_hook_failed_outcome : string → SE S anyhow unit;
  handle_success_outcome : PushResult.t → SE S anyhow unit
}.
#[global] Arguments mk {S}.
#[global] Arguments record_activity {S}.
#[global] Arguments send_transition {S}.
#[global] Arguments handle_hook_failed_outcome {S}.
#[global] Arguments handle_success_outcome {S}.
End RetryDeps.

Section Retry.
Context {S H : Type} (on_outside : ∀ A, SE H string A → SE S string A).

Definition rebase_detail (branch : string) : string :=
  "Force-push rejected after fetching origin. Branch `" +:+ branch +:+ "` has diverged from "
  +:+ "`origin/" +:+ branch +:+ "` and requires a rebase. Run "
  +:+ "`git fetch origin && git rebase origin/" +:+ branch
  +:+ "`, resolve any conflicts, then continue.".

Definition perform_non_protected_retry (local_repo : LocalRepo.t H) (working_dir branch : string)
    (no_verify : bool) (deps : RetryDeps.t S) : SE S anyhow unit :=
  ignore_err (on_outside _ (LocalRepo.fetch local_repo working_dir)) ;;
  force_result ← map_err Anyhow (on_outside _ (LocalRepo.force_push local_repo branch working_dir no_verify));
  match PushResult.status force_result with
  | PushStatus.Success | PushStatus.ForcePushed | PushStatus.UpToDate =>
      RetryDeps.handle_success_outcome deps
        (PushResult.mk (PushResult.status force_result) (PushResult.ref_name force_result)
           ("Force push after rejection: " +:+ PushResult.summary force_result))
  | PushStatus.Rejected _ | PushStatus.RemoteRejected _ =>
      RetryDeps.record_activity deps "rebase_required" (rebase_detail branch) ;;
      RetryDeps.send_transition deps LifecycleStatus.Implementing
  | PushStatus.HookFailed summary => RetryDeps.handle_hook_failed_outcome deps summary
  end.
End Retry.

(** ** Pushing *)

Section Push.
Context {HE : Env} {HO : Host} (config : Config.t).
Abbreviation run A := (SE (ctx host) anyhow A).

Definition is_branch_protected (branch project_key : string) : bool :=
  match Config.projects config !! project_key with
  | Some pc => existsb (λ p, pattern_matches p branch) (ProjectConfig.protected_branches pc)
  | None => default_is_protected branch
  end.

Definition add_push_activity (ticket_id result detail : string) : run unit :=
  add_workflow_activity ticket_id (message_lines
    ["[workflow] push " +:+ result; "source: workflow"; "result: " +:+ result; "---"; detail]).

Definition stall_agent (ticket_id worker_id : string) : run unit :=
  map_err (λ e, Anyhow ("failed to set agent_status to stalled for worker " +:+ worker_id
                        +:+ " (ticket " +:+ ticket_id +:+ "): " +:+ sqlx_display e))
    (workflows (update_worker_agent_status worker_id AgentStatus.Stalled)).

Definition handle_hook_failed (ticket_id branch worker_id summary : string) : run unit :=
  log_path ← write_hook_failure_log config worker_id "push" summary "" 1;
  add_workflow_activity ticket_id (message_lines
    ["[workflow] push failed — logs at " +:+ log_path; "source: workflow"; "result: hook_failed";
     "---"; summary]) ;;
  send "Implementing" ticket_id LifecycleStatus.Implementing.

Definition set_ticket_meta (ticket_id key value : string) : run unit :=
  of_sqlx (tickets (set_meta ticket_id "ticket" key value)).

Definition resolve_gh_repo (ticket_id : string) (meta : gmap string string) : run string :=
  match meta !! "gh_repo" with
  | Some r => mret r
  | None =>
      ticket ← load_ticket ticket_id;
      project_config ← expect_some (Config.projects config !! Ticket.project ticket)
        ("no project config for '" +:+ Ticket.project ticket +:+ "' — cannot determine gh_repo for PR creation");
      repo ← map_err Anyhow (of_result (ProjectConfig.require_repo project_config));
      derived ← expect_some (gh_repo_from_url repo)
        ("cannot derive GitHub owner/repo from project repo URL '" +:+ repo +:+ "' for project '"
         +:+ Ticket.project ticket +:+ "'");
      set_ticket_meta ticket_id "gh_repo" derived ;;
      mret derived
  end.

(** Best effort: nothing here fails the caller. *)
Definition push_worker_label (ticket_id : string) : run unit :=
  r ← attempt (workflows (get_workflow_by_ticket ticket_id));
  match r with
  | Ok (Some wf) =>
      if bool_decide (Workflow.worker_id wf = "") then mret tt
      else log_error (push_label config (Workflow.worker_id wf))
  | _ => mret tt
  end.

Definition ensure_pr (ticket_id branch title body : string) : run unit :=
  meta ← of_sqlx (tickets (get_meta ticket_id "ticket"));
  if bool_decide (is_Some (meta !! "pr_number")) then mret tt
  else
    gh_repo ← resolve_gh_repo ticket_id meta;
    let pr_body := if bool_decide (body = "") then "Ticket: " +:+ ticket_id
                   else body +:+ NEWLINE +:+ NEWLINE +:+ "Ticket: " +:+ ticket_id in
    pr ← outside_call (GhBackend.create_pr gh_repo
           (CreatePrOpts.mk (build_pr_title title meta) pr_body branch "" false));
    set_ticket_meta ticket_id "pr_number" (pretty (PullRequest.number pr)) ;;
    set_ticket_meta ticket_id "pr_url" (PullRequest.url pr) ;;
    set_ticket_meta ticket_id "gh_repo" gh_repo ;;
    push_worker_label ticket_id.

Definition initialize_conditions_and_emit_event (ticket_id : string) : run unit :=
  of_sqlx (workflows (initialize_workflow_conditions ticket_id)) ;;
  meta ← of_sqlx (tickets (get_meta ticket_id "ticket"));
    (if bool_decide (is_Some (meta !! ticket_meta.AUTOAPPROVE))
   then of_sqlx (workflows (update_workflow_condition ticket_id WorkflowCondition.ReviewStatus
                  review_status.APPROVED))
   else mret tt) ;;
  workflow ← of_sqlx (workflows (get_workflow_by_ticket ticket_id));
  match workflow with
  | Some w => ignore_err (workflows (insert_workflow_event (Workflow.id w) WorkflowEvent.PrCreated))
  | None => mret tt
  end.

Definition handle_push_success (ticket_id branch title body : string) (push_result : PushResult.t)
    : run unit :=
  add_push_activity ticket_id (push_status_label (PushResult.status push_result))
    (PushResult.summary push_result) ;;
  ensure_pr ticket_id branch title body ;;
  initialize_conditions_and_emit_event ticket_id ;;
  send "InReview" ticket_id LifecycleStatus.InReview.

Definition status_debug (l : LifecycleStatus) : string :=
  match l with
  | LifecycleStatus.Design => "Design" | LifecycleStatus.Open => "Open"
  | LifecycleStatus.Implementing => "Implementing" | LifecycleStatus.Pushing => "Pushing"
  | LifecycleStatus.InReview => "InReview" | LifecycleStatus.AddressingFeedback => "AddressingFeedback"
  | LifecycleStatus.Merging => "Merging" | LifecycleStatus.Verifying => "Verifying"
  | LifecycleStatus.AwaitingDispatch => "AwaitingDispatch" | LifecycleStatus.Done => "Done"
  | LifecycleStatus.Cancelled => "Cancelled"
  end.

(** [WorkflowRetryDeps] *)
Definition workflow_retry_deps (ticket_id branch title body worker_id : string) : RetryDeps.t (ctx host) :=
  RetryDeps.mk (add_push_activity ticket_id)
    (λ target, send (status_debug target) ticket_id target)
    (handle_hook_failed ticket_id branch worker_id)
    (handle_push_success ticket_id branch title body).

Definition handle_push_rejected (ticket_id branch title body worker_id project_key reason working_dir : string)
    (no_verify : bool) : run unit :=
  if is_branch_protected branch project_key then
    add_push_activity ticket_id "rejected_protected" ("Push rejected on protected branch: " +:+ reason) ;;
    stall_agent ticket_id worker_id
  else
    perform_non_protected_retry (λ A, external) GitBackend.local_repo working_dir branch no_verify
      (workflow_retry_deps ticket_id branch title body worker_id).

Definition handle_push (ticket_id : string) : run unit :=
  ticket ← load_ticket ticket_id;
  branch ← expect_some (Ticket.branch ticket)
    ("ticket " +:+ ticket_id +:+ " has no branch set — cannot push without a branch");
  workflow ← load_workflow ticket_id;
  worker_id ← assigned_worker workflow ticket_id "run push";
  slot ← load_slot worker_id;
  let working_dir := Slot.host_path slot in
  let no_verify := Workflow.noverify workflow in
  push_result ← outside_call (LocalRepo.push GitBackend.local_repo branch working_dir no_verify);
  match PushResult.status push_result with
  | PushStatus.Success | PushStatus.ForcePushed | PushStatus.UpToDate =>
      handle_push_success ticket_id branch (Ticket.title ticket) (Ticket.body ticket) push_result
  | PushStatus.Rejected reason =>
      handle_push_rejected ticket_id branch (Ticket.title ticket) (Ticket.body ticket) worker_id
        (Ticket.project ticket) reason working_dir no_verify
  | PushStatus.RemoteRejected reason =>
      add_push_activity ticket_id "remote_rejected" ("Remote rejected push: " +:+ reason) ;;
      stall_agent ticket_id worker_id
  | PushStatus.HookFailed summary => handle_hook_failed ticket_id branch worker_id summary
  end.
End Push.

(** ** Merging *)


(** The conditions that are not met, as text. *)
Definition condition_failures (w : Workflow.t) : list string :=
  (if bool_decide (Workflow.ci_status w = ci_status.SUCCEEDED) then []
   else ["ci_status=" +:+ Workflow.ci_status w +:+ " (expected " +:+ ci_status.SUCCEEDED +:+ ")"])
  ++ (if bool_decide (Workflow.mergeable w = mergeable.MERGEABLE) then []
      else ["mergeable=" +:+ Workflow.mergeable w +:+ " (expected " +:+ mergeable.MERGEABLE +:+ ")"])
  ++ (if bool_decide (Workflow.review_status w = review_status.APPROVED) then []
      else ["review_status=" +:+ Workflow.review_status w +:+ " (expected " +:+ review_status.APPROVED +:+ ")"]).

Definition check_pre_merge_conditions (workflow : Workflow.t) (ticket_id : string) : result unit anyhow :=
  match condition_failures workflow with
  | [] => Ok tt
  | failures => Err (Anyhow ("pre-merge conditions not met for ticket " +:+ ticket_id +:+ ": "
                             +:+ join ", " failures))
  end.

Definition is_merge_conflict (error_message : string) : bool :=
  let error_lower := to_lowercase error_message in
  contains "merge conflict" error_lower || contains "not mergeable" error_lower
  || contains "conflicts" error_lower.

Section Merge.
Context {HE : Env} {HO : Host} {HM : WorkflowServices}.
Abbreviation run A := (SE (ctx host) anyhow A).

Definition transition_to_implementing (ticket_id : string) : run unit :=
  send "Implementing" ticket_id LifecycleStatus.Implementing.

(** [handle_merge_conflict] and [handle_merge_rejection]: an issue ticket and an
    activity, neither of which fails the handler, then the transition. *)
Definition report_failed_merge (issue_type title body activity ticket_id : string) : run unit :=
  log_error (create_workflow_issue_ticket ticket_id issue_type title body) ;;
  log_error (add_workflow_activity ticket_id activity) ;;
  transition_to_implementing ticket_id.

Definition handle_merge_conflict (ticket_id pr_number error_message : string) : run unit :=
  report_failed_merge MERGE_CONFLICT ("Merge conflict on PR #" +:+ pr_number)
    ("PR #" +:+ pr_number +:+ " merge failed due to conflicts." +:+ NEWLINE +:+ NEWLINE
     +:+ "Error: " +:+ error_message +:+ NEWLINE +:+ NEWLINE
     +:+ "Resolve the merge conflicts and push updated changes.")
    (message_lines ["[workflow] merge conflict detected"; "source: workflow"; "result: fail"; "---";
       "PR #" +:+ pr_number +:+ " merge failed: " +:+ error_message])
    ticket_id.
Definition handle_merge_rejection (ticket_id pr_number error_message : string) : run unit :=
  report_failed_merge MERGE_REJECTION ("Merge rejected on PR #" +:+ pr_number)
    ("PR #" +:+ pr_number +:+ " merge was rejected." +:+ NEWLINE +:+ NEWLINE
     +:+ "Error: " +:+ error_message +:+ NEWLINE +:+ NEWLINE
     +:+ "This may be caused by branch protection rules or other repository settings.")
    (message_lines ["[workflow] merge rejected"; "source: workflow"; "result: fail"; "---";
       "PR #" +:+ pr_number +:+ " merge rejected: " +:+ error_message])
    ticket_id.

Definition parse_pr_number (pr_number ticket_id : string) : result Z anyhow :=
  match parse_i64 pr_number with
  | Ok n => Ok n
  | Err _ => Err (Anyhow ("invalid pr_number '" +:+ pr_number +:+ "' on ticket " +:+ ticket_id))
  end.

Definition merge_pr (ticket_id pr_number gh_repo : string) : run unit :=
  pr_num ← of_result (parse_pr_number pr_number ticket_id);
  r ← outside_call (GhBackend.merge_pr gh_repo pr_num MergeStrategy.Squash);
  if negb (MergeResult.success r) then
    if is_merge_conflict (MergeResult.error_message r)
    then handle_merge_conflict ticket_id pr_number (MergeResult.error_message r)
    else handle_merge_rejection ticket_id pr_number (MergeResult.error_message r)
  else mret tt.

Definition kill_worker (worker_id : string) : run unit :=
  map_err (λ e, Anyhow ("failed to stop worker " +:+ worker_id +:+ ": " +:+ e)) (stop_by_worker_id worker_id).

Definition close_ticket (ticket_id : string) : run unit :=
  of_sqlx (tickets (update_ticket ticket_id
    (TicketUpdate.mk (Some "closed") (Some LifecycleStatus.Done) None None None None None None None None))) ;;
  mret tt.

Definition execute_merge (ticket_id : string) : run unit :=
  load_ticket ticket_id ;;
  meta ← of_sqlx (tickets (get_meta ticket_id "ticket"));
    (if bool_decide (is_Some (meta !! ticket_meta.AUTOAPPROVE))
   then of_sqlx (workflows (update_workflow_condition ticket_id WorkflowCondition.ReviewStatus
                  review_status.APPROVED))
   else mret tt) ;;
  workflow ← load_workflow ticket_id;
  worker_id ← assigned_worker workflow ticket_id "merge";
  of_result (check_pre_merge_conditions workflow ticket_id) ;;
  pr_number ← expect_some (meta !! "pr_number")
    ("no pr_number metadata on ticket " +:+ ticket_id +:+ " — cannot merge PR");
  gh_repo ← expect_some (meta !! "gh_repo")
    ("no gh_repo metadata on ticket " +:+ ticket_id +:+ " — cannot merge PR");
  pr_num ← of_result (parse_pr_number pr_number ticket_id);
  pr ← outside_call (GhBackend.get_pr gh_repo pr_num);
  let already_merged := bool_decide (PullRequest.state pr ∈ ["closed"; "CLOSED"; "MERGED"]) in
  kill_worker worker_id ;;
    (if already_merged
   then ignore_err (external (GhBackend.delete_branch gh_repo (PullRequest.head_ref pr)))
   else merge_pr ticket_id pr_number gh_repo) ;;
  ignore_err (workflows (update_workflow_status ticket_id LifecycleStatus.Done)) ;;
  close_ticket ticket_id.
End Merge.

(** [build_handlers] *)


Definition build_handlers `{HE : Env} `{HO : Host} `{HM : !WorkflowServices} (config : Config.t)
    (target : LifecycleStatus) : option (handler host) :=
  match target with
  | LifecycleStatus.AwaitingDispatch => Some acknowledge
  | LifecycleStatus.Implementing => Some (dispatch_implement config)
  | LifecycleStatus.Verifying => Some (run_verification config)
  | LifecycleStatus.Pushing => Some (handle_push config)
  | LifecycleStatus.AddressingFeedback => Some (feedback_address config)
  | LifecycleStatus.Merging => Some execute_merge
  | LifecycleStatus.InReview => Some acknowledge
  | _ => None
  end.
