(* ===== verification/TestWorld.v ===== *)
(** * A concrete world for the handlers

    Instances of [Host] and [WorkflowServices] that keep a journal of the calls and
    answer the builder's commands from a script, and small databases: one ticket
    with its workflow, worker and slot.  The handlers' theorems are applied here. *)

From S2P Require Import Prelude RustStd Model Env TicketDb TicketGraph TicketRepo WorkflowDb.
From S2P Require Import WorkflowRepo WorkerRepo Context Host Backends UrConfig HandlerLib WorkHandlers.
From S2P Require Import DeliveryHandlers.
From Stdlib Require Import Ascii.
Local Open Scope stdpp_scope.

(** ** The world *)

Record world : Type := World {
  commands : list BuilderExecRequest.t;
  script : list (result (list (result Frame.t Status.t)) Status.t);
  messages : list WorkerdRequest.t;
  files : list string;
  stopped : list string;
  issues : list (string * string)
}.

(** A pull request as the GitHub API prints it, with some state. *)
Definition pr_json (state : string) : json :=
  JObject [("number", JNumber (Some 7%Z)); ("html_url", JString "https://github.com/o/r/pull/7");
    ("state", JString state); ("head", JObject [("ref", JString "feature")]);
    ("base", JObject [("ref", JString "main")])].

(** Output of [gh], in place of the JSON it stands for. *)
Definition sample_json : list (string * json) :=
  [("nothing", JArray []);
   ("build passed", JArray [JObject [("name", JString "build"); ("state", JString "SUCCESS")]]);
   ("build failed", JArray [JObject [("name", JString "build"); ("state", JString "FAILURE")]]);
   ("can merge", JObject [("mergeable", JBool true)]);
   ("approval", JArray [JObject [("id", JNumber (Some 1%Z)); ("body", JString "ur approve");
      ("created_at", JString "2024-01-02")]])].

Definition test_host : Host := {|
  host := world;
  builder_exec req h :=
    (match script h with [] => Ok [Ok (Frame.ExitCode 0)] | r :: _ => r end,
     World (commands h ++ [req]) (tail (script h)) (messages h) (files h) (stopped h) (issues h));
  workerd_call _ _ req h :=
    (Ok (WorkerdResponse.mk true ""),
     World (commands h) (script h) (messages h ++ [req]) (files h) (stopped h) (issues h));
  path_exists p h := bool_decide (p ∈ files h);
  write_file p _ h :=
    (Ok tt, World (commands h) (script h) (messages h) (files h ++ [p]) (stopped h) (issues h));
  log_clock h := (Ok ("20240101-000000", "2024-01-01T00:00:00Z"), h);
  json_parse s := match strip_prefix "pr " s with
                  | Some state => Some (pr_json state)
                  | None => (λ x, x.2.2) <$> list_find (λ kv, kv.1 = s) sample_json
                  end;
  endpoint_ok _ := true;
  metadata_value _ := Ok tt;
  status_display := Status.message
|}.

Definition test_services : @WorkflowServices test_host := {|
  create_workflow_issue_ticket parent kind _ _ :=
    @external test_host.(@host) anyhow string (λ h,
      (Ok "ur-issue", World (commands h) (script h) (messages h) (files h) (stopped h)
                        (issues h ++ [(parent, kind)])));
  stop_by_worker_id w :=
    @external test_host.(@host) string unit (λ h,
      (Ok tt, World (commands h) (script h) (messages h) (files h) (stopped h ++ [w]) (issues h)))
|}.

#[export] Instance test_services_lawful : @LawfulServices test_host test_services.
Proof. split; by intros; destruct x. Qed.

(** ** The configuration and the databases *)

Definition test_project (protected : list string) : ProjectConfig.t :=
  ProjectConfig.mk "ur" (Some "git@github.com:o/r.git") "ur" 10 [] [] [] None
    (ContainerConfig.mk "ur-worker" [] []) 10 (Some 3%Z) protected None false ["flaky"] [] 10
    None None None None.
Definition test_config : Config.t :=
  Config.mk {[ "ur" := test_project ["main"; "release/*"] ]} None "/config" "/logs" "ur-" "http://builderd".

Definition test_ticket (branch : string) : ExportTicket.t :=
  ExportTicket.mk "ur-1" "ur" "code" "open" "implementing" true 1 None "t" "" (Some branch) "2024" "2024".
Definition test_tickets (branch : string) : tables_t :=
  TicketTables.set_meta {[ ("ur-1", "ticket", "pr_number") := "7"; ("ur-1", "ticket", "gh_repo") := "o/r" ]}
    (TicketTables.set_ticket {[ "ur-1" := test_ticket branch ]} TicketTables.empty).

Definition test_workflow (status : string) (cycles : Z) (ci mg rv : string) : WorkflowRow.t :=
  WorkflowRow.set_conditions ci mg rv (WorkflowRow.set_worker_id "w1" (WorkflowRow.set_cycles cycles
    (WorkflowRow.fresh "a" "ur-1" status "2024"))).
Definition test_worker : WorkerRow.t string :=
  WorkerRow.mk "w1" "p1" "ur" "c1" "secret" "code" "claude" "running" "idle" (Some "/pool/ur/0")
    "2024" "2024" 0 None "container".
Definition test_workflows (w : WorkflowRow.t) : wtables :=
  WorkflowTables.set_worker {[ "w1" := test_worker ]}
    (WorkflowTables.set_worker_slot {[ ("w1", "s0") := "2024" ]}
      (WorkflowTables.set_slot {[ "s0" := Slot.mk "s0" "ur" "0" "/pool/ur/0" "2024" "2024" ]}
        (WorkflowTables.set_workflow {[ "a" := w ]} WorkflowTables.empty))).

Definition test_ctx (branch : string) (w : WorkflowRow.t)
    (script : list (result (list (result Frame.t Status.t)) Status.t)) : ctx world :=
  Ctx (Pool (test_tickets branch) [] 0) (Pool (test_workflows w) [] 0)
    (World [] script [] [] [] []) [] true.

(** A command that prints some text and exits. *)
Definition exits (code : Z) (out err : string) : result (list (result Frame.t Status.t)) Status.t :=
  Ok [Ok (Frame.Stdout out); Ok (Frame.Stderr err); Ok (Frame.ExitCode code)].

Lemma test_ctx_workflow b w sc i r :
  WorkflowTables.workflow (tables (workflow_db (test_ctx b w sc))) !! i = Some r → i = "a" ∧ r = w.
Proof.
  change (({[ "a" := w ]} : gmap string WorkflowRow.t) !! i = Some r → i = "a" ∧ r = w).
  by intros [<- <-]%lookup_singleton_Some.
Qed.
