(* ===== verification/HandlerRules.v ===== *)
(** * Triples for the handlers

    Rules for the Hoare triples of [Prelude] over the handlers' context, and the
    triples of the lookups every handler starts with. *)

From S2P Require Import Prelude RustStd Model Env TicketDb TicketGraph TicketRepo TicketUpdates.
From S2P Require Import WorkflowDb WorkflowRepo WorkerRepo WorkflowProps Context Host Backends.
From S2P Require Import HandlerLib.
Local Open Scope stdpp_scope.

Section Rules.
Context {S E : Type}.

Lemma triple_ret {A} (P : S → Prop) (a : A) (Q : A → S → Prop) (R : E → S → Prop) :
    (∀ s, P s → Q a s) → triple P (mret a) Q R.
Proof. intros HQ s. apply HQ. Qed.
Lemma triple_ret_bind {A B} (P : S → Prop) (a : A) (k : A → SE S E B) (Q : B → S → Prop)
    (R : E → S → Prop) : triple P (k a) Q R → triple P (mret a ≫= k) Q R.
Proof. done. Qed.
Lemma triple_conseq {A} (P : S → Prop) (m : SE S E A) (Q Q' : A → S → Prop) (R R' : E → S → Prop) :
  triple P m Q R → (∀ a s, Q a s → Q' a s) → (∀ e s, R e s → R' e s) → triple P m Q' R'.
Proof. intros Hm HQ HR s Hs. specialize (Hm s Hs). destruct (m s) as [[a|e] s']; auto. Qed.
Lemma triple_pre {A} (P P' : S → Prop) (m : SE S E A) (Q : A → S → Prop) (R : E → S → Prop) :
  triple P m Q R → (∀ s, P' s → P s) → triple P' m Q R.
Proof. intros Hm HP s Hs. apply Hm, HP, Hs. Qed.
(** A step that establishes a fact [φ] about its result. *)
Lemma triple_bind {A B} (P P' : S → Prop) (φ : A → Prop) (m : SE S E A) (k : A → SE S E B)
    (Q : B → S → Prop) (R : E → S → Prop) :
  triple P m (λ a s, P' s ∧ φ a) R → (∀ a, φ a → triple P' (k a) Q R) → triple P (m ≫= k) Q R.
Proof.
  intros Hm Hk s Hs. rewrite run_bind. specialize (Hm s Hs).
  destruct (m s) as [[a|e] s']; [|done]. destruct Hm as [Hs' Ha]. by apply (Hk a Ha).
Qed.
(** A reader: it leaves the assertion alone, also when it fails. *)
Lemma triple_read {A B} (P : S → Prop) (φ : A → Prop) (m : SE S E A) (k : A → SE S E B)
    (Q : B → S → Prop) (R : E → S → Prop) :
  triple P m (λ a s, P s ∧ φ a) (λ _, P) → (∀ e s, P s → R e s) →
    (∀ a, φ a → triple P (k a) Q R) → triple P (m ≫= k) Q R.
Proof.
  intros Hm HR Hk. eapply triple_bind; [|exact Hk]. by apply (triple_conseq P m _ _ _ _ Hm).
Qed.
Lemma triple_assoc {A B C} (P : S → Prop) (m : SE S E A) (k : A → SE S E B) (l : B → SE S E C)
    (Q : C → S → Prop) (R : E → S → Prop) :
  triple P (m ≫= λ a, k a ≫= l) Q R → triple P ((m ≫= k) ≫= l) Q R.
Proof.
  intros Hm s Hs. specialize (Hm s Hs). rewrite run_bind in Hm. rewrite !run_bind.
  by destruct (m s) as [[a|e] s'].
Qed.
Lemma triple_preserves {A} (P : S → Prop) (m : SE S E A) (Q : S → Prop) :
  preserves Q m → (∀ s, P s → Q s) → triple P m (λ _, Q) (λ _, Q).
Proof.
  intros Hm HP s Hs. specialize (Hm s (HP s Hs)). by destruct (m s) as [[a|e] s'].
Qed.
Lemma triple_map_err {E' A} (P : S → Prop) (f : E → E') (m : SE S E A) (Q : A → S → Prop) (R : S → Prop) :
  triple P m Q (λ _, R) → triple P (map_err f m) Q (λ _, R).
Proof. intros Hm s Hs. specialize (Hm s Hs). rewrite run_map_err. by destruct (m s) as [[a|e] s']. Qed.
Lemma triple_of_result {A} (P : S → Prop) (r : result A E) :
  triple P (of_result r) (λ a s, P s ∧ r = Ok a) (λ _, P).
Proof. intros s Hs. rewrite run_of_result. by destruct r. Qed.
Lemma triple_ignore_err {E' A} (P : S → Prop) (m : SE S E A) (Q : S → Prop) (R : E' → S → Prop) :
  triple P m (λ _, Q) (λ _, Q) → triple P (ignore_err m) (λ _, Q) R.
Proof. intros Hm s Hs. specialize (Hm s Hs). rewrite run_ignore_err. by destruct (m s) as [[a|e] s']. Qed.
End Rules.

Section Statements.
Context {T : Type}.
Lemma triple_select {A} (f : T → A) t :
  triple (λ p, tables p = t) (select f) (λ a p, tables p = t ∧ a = f t) (λ _ p, tables p = t).
Proof. intros [t' fs n] Ht. simpl in Ht. subst. by destruct fs as [|[] fs]. Qed.
Lemma triple_update_stmt (f : T → T) t :
  triple (λ p, tables p = t) (update_stmt f) (λ _ p, tables p = f t) (λ _ p, tables p = t).
Proof. intros [t' fs n] Ht. simpl in Ht. subst. by destruct fs as [|[] fs]. Qed.
Lemma triple_statement {A} (f : T → result (A * T) sqlx_error) t :
  triple (λ p, tables p = t) (statement f) (λ a p, f t = Ok (a, tables p)) (λ _ p, tables p = t).
Proof.
  intros [t' fs n] Ht. simpl in Ht. subst. destruct fs as [|[] fs]; cbn; destruct (f t) as [[a t']|e] eqn:Hf;
    cbn; rewrite ?Hf; done.
Qed.
End Statements.

Section Handlers.
Context {HE : Env} {HO : Host} (config : Config.t).

(** The tables, the world and the channel of a context. *)
Definition channel (x : ctx host) : list TransitionRequest.t * bool := (sent x, receiving x).
Definition is_at (s : tables_t) (w : wtables) (h : host) (q : list TransitionRequest.t * bool)
    (x : ctx host) : Prop :=
  tables (ticket_db x) = s ∧ tables (workflow_db x) = w ∧ outside x = h ∧ channel x = q.

Context (s : tables_t) (w : wtables) (h : host) (q : list TransitionRequest.t * bool).
Local Abbreviation here := (is_at s w h q).

Lemma triple_tickets {A} (m : db A) (φ : A → Prop) :
  triple (λ p, tables p = s) m (λ a p, tables p = s ∧ φ a) (λ _ p, tables p = s) →
  triple here (of_sqlx (tickets m)) (λ a x, here x ∧ φ a) (λ _, here).
Proof.
  intros Hm. apply triple_map_err. intros [t d h' q' b] (? & ? & ? & ?). simpl in *.
  specialize (Hm t). rewrite run_tickets. destruct (m t) as [[a|e] p]; simpl; [|split_and!; auto].
  destruct Hm as [Hp Ha]; [done|]. by split_and!.
Qed.
Lemma triple_workflows {A} (m : wdb A) (w' : wtables) (φ : A → Prop) :
  triple (λ p, tables p = w) m (λ a p, tables p = w' ∧ φ a) (λ _ p, tables p = w) →
  triple here (of_sqlx (workflows m)) (λ a x, is_at s w' h q x ∧ φ a) (λ _, here).
Proof.
  intros Hm. apply triple_map_err. intros [t d h' q' b] (? & ? & ? & ?). simpl in *.
  specialize (Hm d). rewrite run_workflows. destruct (m d) as [[a|e] p]; simpl; [|split_and!; auto].
  destruct Hm as [Hp Ha]; [done|]. by split_and!.
Qed.
Lemma triple_expect_some {A} (o : option A) msg :
  triple here (expect_some o msg) (λ a x, here x ∧ o = Some a) (λ _, here).
Proof. intros x Hx. rewrite run_expect_some. by destruct o. Qed.

(** ** Lookups *)

Lemma triple_load_ticket t :
  triple here (load_ticket t)
    (λ a x, here x ∧ ∃ r, TicketTables.ticket s !! t = Some r ∧ a = ticket_from_row s r) (λ _, here).
Proof.
  unfold load_ticket. eapply triple_read; [apply triple_tickets, triple_select|done|].
  intros o ->. eapply triple_conseq; [apply triple_expect_some| |done].
  intros a x [Hx (r & Hr & ->)%fmap_Some]. eauto.
Qed.
Lemma triple_load_workflow t :
  triple here (load_workflow t)
    (λ a x, here x ∧ ∃ i r, WorkflowTables.workflow w !! i = Some r ∧ active_for t r = true
       ∧ a = row_to_workflow r) (λ _, here).
Proof.
  unfold load_workflow. eapply triple_read; [apply triple_workflows, triple_select|done|].
  intros o ->. eapply triple_conseq; [apply triple_expect_some| |done].
  intros a x [Hx (r & Hr & ->)%fmap_Some]. split; [done|].
  apply head_elem, elem_of_matching in Hr as [Ha (i & Hi)]. eauto.
Qed.
Lemma triple_get_meta t ty :
  triple here (of_sqlx (tickets (get_meta t ty)))
    (λ a x, here x ∧ ∀ k, a !! k = TicketTables.meta s !! (t, ty, k)) (λ _, here).
Proof.
  apply triple_tickets. destruct (run_get_meta s t ty 0) as (m & Hm & Hk). unfold get_meta in *.
  rewrite run_select in Hm. match goal with |- context [select ?f] =>
    eapply triple_conseq; [apply (triple_select f s)| |done] end.
  intros a p [Hp ->]. split; [done|]. by injection Hm as ->.
Qed.
Lemma triple_assigned_worker wf t what :
  triple here (assigned_worker wf t what)
    (λ a x, here x ∧ a = Workflow.worker_id wf ∧ a ≠ "") (λ _, here).
Proof. unfold assigned_worker. case_bool_decide; by intros x Hx. Qed.
Lemma triple_load_worker i : triple here (load_worker i) (λ _ x, here x ∧ True) (λ _, here).
Proof.
  unfold load_worker. eapply (triple_read _ (λ _, True)); [|done|intros o _].
  - eapply triple_workflows, triple_read; [apply triple_select|done|intros row _].
    eapply triple_conseq; [apply triple_of_result| |done]. naive_solver.
  - eapply triple_conseq; [apply triple_expect_some| |done]. naive_solver.
Qed.
Lemma triple_load_slot i :
  triple here (load_slot i) (λ a x, here x ∧ ∃ j, WorkflowTables.slot w !! j = Some a) (λ _, here).
Proof.
  unfold load_slot. eapply triple_read; [apply triple_workflows, triple_select|done|intros link _].
  eapply triple_read; [apply triple_expect_some|done|intros l _].
  eapply triple_read; [apply triple_workflows, triple_select|done|intros slot ->].
  eapply triple_conseq; [apply triple_expect_some| |done].
  intros a x [Hx Ha]. split; [done|]. eexists. exact Ha.
Qed.

(** An update of the active workflows of a ticket. *)
Lemma triple_update_active t f :
  triple here (of_sqlx (workflows (update_active t f)))
    (λ _ x, is_at s (WorkflowTables.set_workflow
       (update_where (active_for t) f (WorkflowTables.workflow w)) w) h q x ∧ True) (λ _, here).
Proof.
  apply triple_workflows. eapply triple_conseq; [apply triple_update_stmt| |done]. by split.
Qed.

(** A call to the outside. *)
Lemma triple_outside_call {A} (m : SE host string A) :
  triple here (outside_call m)
    (λ a x, is_at s w (m h).2 q x ∧ (m h).1 = Ok a) (λ _, is_at s w (m h).2 q).
Proof.
  intros [t d h' q' b] (? & ? & ? & ?). simpl in *. subst. unfold outside_call.
  rewrite run_map_err, run_external. destruct (m h) as [[a|e] h'']; simpl; by split_and!.
Qed.
(** The same as a value, and a reading of the outside. *)
Lemma triple_attempt_external {A} (m : SE host string A) :
  triple here (attempt (external m) : SE (ctx host) anyhow _)
    (λ r x, is_at s w (m h).2 q x ∧ r = (m h).1) (λ _, here).
Proof.
  intros [t d h' q' b] (? & ? & ? & ?). simpl in *. subst.
  rewrite run_attempt, run_external. simpl. by split_and!.
Qed.
Lemma triple_gets_outside {A} (f : host → A) :
  triple here (gets (λ x, f (outside x)) : SE (ctx host) anyhow A) (λ a x, here x ∧ a = f h) (λ _, here).
Proof. intros x (? & ? & ? & ?). rewrite run_gets. subst. by split_and!. Qed.
End Handlers.

(** What does not touch the world outside nor the channel. *)
Section Still.
Context {HE : Env} {HO : Host} (h : host) (q : list TransitionRequest.t * bool).

Definition still (x : ctx host) : Prop := outside x = h ∧ channel x = q.

Lemma still_at s w x : is_at s w h q x → still x.
Proof. by intros (_ & _ & ? & ?). Qed.
Lemma still_tickets {A} (m : db A) : preserves still (tickets m).
Proof. intros [t d h' q' b] Hx. unfold tickets. by rewrite run_zoom. Qed.
Lemma still_workflows {A} (m : wdb A) : preserves still (workflows m).
Proof. intros [t d h' q' b] Hx. unfold workflows. by rewrite run_zoom. Qed.
Lemma still_of_sqlx {A} (m : SE (ctx host) sqlx_error A) : preserves still m → preserves still (of_sqlx m).
Proof. apply preserves_map_err. Qed.
Lemma still_activity t msg : preserves still (add_workflow_activity t msg).
Proof.
  unfold add_workflow_activity. apply preserves_bind; [apply still_of_sqlx, still_tickets|].
  intros _. apply preserves_ret.
Qed.
End Still.
#[export] Hint Resolve still_tickets still_workflows still_of_sqlx still_activity : preserves.
