(* ===== verification/HandlerProps.v ===== *)
(** * The transitions the handlers request

    A small logic for computations on the handler context: [silent] ones leave
    the coordinator's channel alone, and [emits] bounds what the others send.  With
    it, the graph of the workflow's own transitions: whatever the databases and
    the world answer, a handler asks for at most one transition, of its own
    ticket, along an edge of the graph. *)

From S2P Require Import Prelude RustStd Model Env TicketDb TicketGraph TicketRepo WorkflowDb.
From S2P Require Import WorkflowRepo WorkerRepo Context Coordinator Host Backends HandlerLib.
From S2P Require Import WorkHandlers DeliveryHandlers TestWorld.
From Stdlib Require Import Ascii Lia.
Local Open Scope stdpp_scope.

Section Logic.
Context {H : Type}.

Definition queue_is (q : list TransitionRequest.t) (b : bool) (x : ctx H) : Prop :=
  sent x = q ∧ receiving x = b.
Definition silent {E A} (m : SE (ctx H) E A) : Prop := ∀ q b, preserves (queue_is q b) m.

Lemma silent_ret {E A} (a : A) : silent (mret a : SE (ctx H) E A).
Proof. intros q b. apply preserves_ret. Qed.
Lemma silent_throw {E A} (e : E) : silent (throw e : SE (ctx H) E A).
Proof. intros q b. apply preserves_throw. Qed.
Lemma silent_ok_or {E A} (o : option A) (e : E) : silent (ok_or o e : SE (ctx H) E A).
Proof. intros q b. apply preserves_ok_or. Qed.
Lemma silent_of_result {E A} (r : result A E) : silent (of_result r : SE (ctx H) E A).
Proof. intros q b. apply preserves_of_result. Qed.
Lemma silent_gets {E A} (f : ctx H → A) : silent (gets f : SE (ctx H) E A).
Proof. intros q b. apply preserves_gets. Qed.
Lemma silent_bind {E A B} (m : SE (ctx H) E A) (k : A → SE (ctx H) E B) :
  silent m → (∀ a, silent (k a)) → silent (m ≫= k).
Proof. intros Hm Hk q b. apply preserves_bind; [apply Hm|]. intros a. apply Hk. Qed.
Lemma silent_map_err {E E' A} (f : E → E') (m : SE (ctx H) E A) : silent m → silent (map_err f m).
Proof. intros Hm q b. apply preserves_map_err, Hm. Qed.
Lemma silent_attempt {E E' A} (m : SE (ctx H) E A) : silent m → silent (attempt m : SE (ctx H) E' _).
Proof. intros Hm q b. apply preserves_attempt, Hm. Qed.
Lemma silent_ignore_err {E E' A} (m : SE (ctx H) E A) :
  silent m → silent (ignore_err m : SE (ctx H) E' _).
Proof. intros Hm q b. apply preserves_ignore_err, Hm. Qed.
Lemma silent_tickets {A} (m : db A) : silent (tickets m : SE (ctx H) _ _).
Proof. intros q b [t w h q' b'] Hq. unfold tickets. rewrite run_zoom. exact Hq. Qed.
Lemma silent_workflows {A} (m : wdb A) : silent (workflows m : SE (ctx H) _ _).
Proof. intros q b [t w h q' b'] Hq. unfold workflows. rewrite run_zoom. exact Hq. Qed.
Lemma silent_external {E A} (m : SE H E A) : silent (external m).
Proof. intros q b [t w h q' b'] Hq. rewrite run_external. exact Hq. Qed.

(** What a computation asks for in the name of a ticket; [R] relates whether it
    succeeded to the status it asked for, if any. *)
Definition emits {A} (R : bool → option LifecycleStatus → Prop) (ticket_id : string)
    (m : SE (ctx H) anyhow A) : Prop :=
  ∀ x, receiving x = true → ∃ o, R (is_ok (m x).1) o
    ∧ sent (m x).2 = sent x ++ option_list (TransitionRequest.mk ticket_id <$> o)
    ∧ receiving (m x).2 = true.

Lemma emits_silent {A} R t (m : SE (ctx H) anyhow A) :
    (∀ b, R b None) → silent m → emits R t m.
Proof.
  intros HR Hm x Hx. destruct (Hm (sent x) true x) as [Hs Hr]; [done|].
  exists None. rewrite app_nil_r. auto.
Qed.

Lemma emits_bind {A B} R t (m : SE (ctx H) anyhow A) (k : A → SE (ctx H) anyhow B) :
  R false None → silent m → (∀ a, emits R t (k a)) → emits R t (m ≫= k).
Proof.
  intros HR Hm Hk x Hx. rewrite run_bind. destruct (Hm (sent x) true x) as [Hs Hr]; [done|].
  destruct (m x) as [[a|e] y]; simpl in *.
  - destruct (Hk a y Hr) as (o & Ho & Hsent & Hrec). exists o. by rewrite Hsent, Hs.
  - exists None. by rewrite app_nil_r.
Qed.

(** A request made at the end of a first part that itself is a sequence. *)
Lemma emits_assoc {A B C} R t (m : SE (ctx H) anyhow A) (k : A → SE (ctx H) anyhow B)
    (l : B → SE (ctx H) anyhow C) :
  emits R t (m ≫= λ a, k a ≫= l) → emits R t ((m ≫= k) ≫= l).
Proof.
  intros Hm x Hx. specialize (Hm x Hx). rewrite run_bind in Hm. rewrite !run_bind.
  by destruct (m x) as [[a|e] y].
Qed.
Lemma emits_ret_bind {A B} R t (a : A) (k : A → SE (ctx H) anyhow B) :
  emits R t (k a) → emits R t (mret a ≫= k).
Proof. done. Qed.

(** Steps after the request, which may still fail. *)
Lemma emits_then {A B} (R : option LifecycleStatus → Prop) t (m : SE (ctx H) anyhow A)
    (k : A → SE (ctx H) anyhow B) :
  emits (λ _, R) t m → (∀ a, silent (k a)) → emits (λ _, R) t (m ≫= k).
Proof.
  intros Hm Hk x Hx. rewrite run_bind. destruct (Hm x Hx) as (o & Ho & Hsent & Hrec).
  exists o. split; [done|]. destruct (m x) as [[a|e] y]; simpl in *; [|done].
  destruct (Hk a (sent y) true y) as [Hs Hr]; [done|]. by rewrite Hs, Hsent, Hr.
Qed.

Lemma emits_send (R : bool → option LifecycleStatus → Prop) label t st :
  R true (Some st) → emits R t (send label t st).
Proof. intros HR x Hx. unfold send. rewrite Hx. exists (Some st). done. Qed.

(** Steps after the request that cannot fail. *)
Lemma emits_send_then {B} (R : bool → option LifecycleStatus → Prop) label t st
    (k : unit → SE (ctx H) anyhow B) b :
  R true (Some st) → (∀ a x, k a x = (Ok b, x)) → emits R t (send label t st ≫= k).
Proof.
  intros HR Hk x Hx. rewrite run_bind. unfold send. rewrite Hx. cbn. rewrite Hk.
  by exists (Some st).
Qed.

Lemma emits_weaken {A} (R R' : bool → option LifecycleStatus → Prop) t (m : SE (ctx H) anyhow A) :
    (∀ b o, R b o → R' b o) → emits R t m → emits R' t m.
Proof. intros HR Hm x Hx. destruct (Hm x Hx) as (o & Ho & ?). exists o. auto. Qed.
End Logic.

Create HintDb silent.
#[export] Hint Resolve silent_ret silent_throw silent_ok_or silent_of_result silent_gets
  silent_tickets silent_workflows silent_external : silent.

(** Silence of a composite operation from that of its parts. *)
Ltac solve_silent :=
  repeat first
    [ progress intros
    | solve [eauto 2 with silent]
    | apply silent_bind | apply silent_map_err | apply silent_attempt | apply silent_ignore_err
    | case_match ].

Section Silent.
Context {HE : Env} {HO : Host} (config : Config.t).

Lemma silent_load_ticket t : silent (load_ticket (HO:=HO) t).
Proof. unfold load_ticket, of_sqlx, expect_some. solve_silent. Qed.
Lemma silent_load_workflow t : silent (load_workflow (HO:=HO) t).
Proof. unfold load_workflow, of_sqlx, expect_some. solve_silent. Qed.
Lemma silent_assigned_worker w t what : silent (assigned_worker (HO:=HO) w t what).
Proof. unfold assigned_worker, bail. solve_silent. Qed.
Lemma silent_load_worker w : silent (load_worker (HO:=HO) w).
Proof. unfold load_worker, of_sqlx, expect_some. solve_silent. Qed.
Lemma silent_load_slot w : silent (load_slot (HO:=HO) w).
Proof. unfold load_slot, of_sqlx, expect_some. solve_silent. Qed.
Lemma silent_workerd_request rpc w req : silent (workerd_request config rpc w req).
Proof. unfold workerd_request, bail. solve_silent. Qed.
Lemma silent_dispatch rpc w req : silent (dispatch config rpc w req).
Proof. unfold dispatch. apply silent_bind; [apply silent_workerd_request|]. solve_silent. Qed.
Lemma silent_write_log w h o e c : silent (write_hook_failure_log config w h o e c).
Proof. unfold write_hook_failure_log. solve_silent. Qed.
Lemma silent_activity t msg : silent (add_workflow_activity (HO:=HO) t msg).
Proof. unfold add_workflow_activity, of_sqlx. solve_silent. Qed.
Lemma silent_outside_call {A} (m : SE host string A) : silent (outside_call m).
Proof. unfold outside_call. solve_silent. Qed.
Lemma silent_of_sqlx {A} (m : SE (ctx host) sqlx_error A) : silent m → silent (of_sqlx m).
Proof. apply silent_map_err. Qed.
End Silent.

#[export] Hint Resolve silent_load_ticket silent_load_workflow silent_assigned_worker silent_load_worker
  silent_load_slot silent_workerd_request silent_dispatch silent_write_log silent_activity
  silent_outside_call : silent.

(** ** The graph *)

(** What the handler of a status may ask for, and whether it may do so and still
    fail. *)
Definition edge (from : LifecycleStatus) (ok : bool) (to : option LifecycleStatus) : Prop :=
  match from with
  | LifecycleStatus.Verifying =>
      if ok then to = Some LifecycleStatus.Pushing ∨ to = Some LifecycleStatus.Implementing
      else to = None
  | LifecycleStatus.Pushing =>
      to = None
      ∨ ok = true ∧ (to = Some LifecycleStatus.InReview ∨ to = Some LifecycleStatus.Implementing)
  | LifecycleStatus.Merging => to = None ∨ to = Some LifecycleStatus.Implementing
  | _ => to = None
  end.

Section Graph.
Context {HE : Env} {HO : Host} (config : Config.t).
Abbreviation emits_on s := (emits (H:=host) (edge s)).

Lemma silent_dispatch_implement t : silent (dispatch_implement config t).
Proof.
  unfold dispatch_implement, check_cycle_limit, ensure_ticket_branch, read_worker_branch, wrap, of_sqlx, bail.
  solve_silent.
Qed.
Lemma silent_feedback_address t : silent (feedback_address config t).
Proof. unfold feedback_address, wrap, of_sqlx, expect_some, bail. solve_silent. Qed.

(** *** Verifying *)

Lemma emits_pushing t : emits_on LifecycleStatus.Verifying t (advance_to_pushing t).
Proof. apply emits_send. by left. Qed.
Lemma emits_hook_pass t r o :
  emits_on LifecycleStatus.Verifying t (add_hook_activity t r o ;; advance_to_pushing t).
Proof. apply emits_bind; [done|apply silent_activity|intros _; apply emits_pushing]. Qed.

Lemma emits_process_hook t pc r : emits_on LifecycleStatus.Verifying t (process_hook_result config t pc r).
Proof.
  unfold process_hook_result. apply emits_bind; [done|solve_silent|intros summary].
  apply emits_bind; [done|solve_silent|intros w]. apply emits_bind; [done|solve_silent|intros wid].
  destruct (classify_hook_outcome _ _); [apply emits_hook_pass..|].
  apply emits_bind; [done|solve_silent|intros path].
  apply emits_bind; [done|apply silent_activity|intros _]. apply emits_send. by right.
Qed.

(** A ticket without a hook has been sent on when [resolve_hook_context] says so. *)
Lemma emits_verification t : emits_on LifecycleStatus.Verifying t (run_verification config t).
Proof.
  unfold run_verification. apply emits_bind; [done|solve_silent|intros ticket].
  destruct (Config.projects config !! _) as [pc|]; [|apply emits_pushing].
  unfold resolve_hook_context. apply emits_assoc, emits_bind; [done|solve_silent|intros w].
  apply emits_assoc, emits_bind; [done|solve_silent|intros wid].
  apply emits_assoc, emits_bind; [done|solve_silent|intros slot].
  apply emits_assoc, emits_bind; [done|solve_silent|intros [hook|]].
  - apply emits_ret_bind, emits_bind; [done|solve_silent|intros [r|e]].
    + apply emits_process_hook.
    + apply emits_hook_pass.
  - apply emits_assoc. unfold advance_to_pushing. apply (emits_send_then _ _ _ _ _ tt); [by left|done].
Qed.

(** *** Pushing *)

Lemma silent_push_label w : silent (push_label config w).
Proof. unfold push_label, wrap, set_status_left, of_sqlx, expect_some, bail. solve_silent. Qed.
Lemma silent_push_worker_label t : silent (push_worker_label config t).
Proof.
  unfold push_worker_label, log_error. solve_silent. all: first [apply silent_push_label|solve_silent].
Qed.
Lemma silent_ensure_pr t b title body : silent (ensure_pr config t b title body).
Proof.
  unfold ensure_pr, resolve_gh_repo, set_ticket_meta, of_sqlx, expect_some. solve_silent.
  all: apply silent_push_worker_label.
Qed.
Lemma silent_conditions t : silent (initialize_conditions_and_emit_event (HO:=HO) t).
Proof. unfold initialize_conditions_and_emit_event, of_sqlx. solve_silent. Qed.
Lemma silent_stall_agent t w : silent (stall_agent (HO:=HO) t w).
Proof. unfold stall_agent. solve_silent. Qed.

Lemma emits_push_success t b title body r :
  emits_on LifecycleStatus.Pushing t (handle_push_success config t b title body r).
Proof.
  unfold handle_push_success. apply emits_bind; [by left|apply silent_activity|intros _].
  apply emits_bind; [by left|apply silent_ensure_pr|intros _].
  apply emits_bind; [by left|apply silent_conditions|intros _]. apply emits_send. right. auto.
Qed.
Lemma emits_hook_failed t b w summary :
  emits_on LifecycleStatus.Pushing t (handle_hook_failed config t b w summary).
Proof.
  unfold handle_hook_failed. apply emits_bind; [by left|solve_silent|intros path].
  apply emits_bind; [by left|apply silent_activity|intros _]. apply emits_send. right. auto.
Qed.
Lemma emits_stalled t w result detail :
  emits_on LifecycleStatus.Pushing t (add_push_activity t result detail ;; stall_agent t w).
Proof.
  apply emits_silent; [by left|]. apply silent_bind; [apply silent_activity|intros _; apply silent_stall_agent].
Qed.

Lemma emits_retry t branch title body w wd nv :
  emits_on LifecycleStatus.Pushing t
    (perform_non_protected_retry (λ A, external) GitBackend.local_repo wd branch nv
       (workflow_retry_deps config t branch title body w)).
Proof.
  unfold perform_non_protected_retry. apply emits_bind; [by left|solve_silent|intros _].
  apply emits_bind; [by left|solve_silent|intros r].
  assert (emits_on LifecycleStatus.Pushing t
    (add_push_activity t "rebase_required" (rebase_detail branch) ;;
     send (status_debug LifecycleStatus.Implementing) t LifecycleStatus.Implementing)) as Hrebase.
  { apply emits_bind; [by left|apply silent_activity|intros _]. apply emits_send. right. auto. }
  destruct (PushResult.status r) as [| |? |? | |summary].
  1,2,5: apply emits_push_success.
  1,2: exact Hrebase.
  apply emits_hook_failed.
Qed.

Lemma emits_push t : emits_on LifecycleStatus.Pushing t (handle_push config t).
Proof.
  unfold handle_push. do 3 (apply emits_bind; [by left|unfold expect_some; solve_silent|intros ?]).
  do 3 (apply emits_bind; [by left|unfold expect_some; solve_silent|intros ?]).
  destruct (PushResult.status _) as [| |? |? | |summary].
  1,2,5: apply emits_push_success.
  - unfold handle_push_rejected. destruct (is_branch_protected _ _ _);
      [apply emits_stalled|apply emits_retry].
  - apply emits_stalled.
  - apply emits_hook_failed.
Qed.

(** *** Merging *)

Context {HM : WorkflowServices} {HL : LawfulServices}.

(** The two services do not use the coordinator's channel. *)
Lemma silent_issue t k title body : silent (create_workflow_issue_ticket t k title body).
Proof. intros q b x [<- <-]. apply (issue_leaves t k title body x). Qed.
Lemma silent_stop w : silent (stop_by_worker_id w).
Proof. intros q b x [<- <-]. apply (stop_leaves w x). Qed.
Local Hint Resolve silent_issue silent_stop : core.

Lemma emits_merge_pr t n repo : emits_on LifecycleStatus.Merging t (merge_pr t n repo).
Proof.
  unfold merge_pr. apply emits_bind; [by left|solve_silent|intros num].
  apply emits_bind; [by left|solve_silent|intros r]. case_match.
  2: { apply emits_silent; [by left|solve_silent]. }
  assert (∀ k title body activity,
    emits_on LifecycleStatus.Merging t (report_failed_merge k title body activity t)) as Hrep.
  { intros. unfold report_failed_merge, log_error.
    do 2 (apply emits_bind; [by left|solve_silent|intros _]). apply emits_send. by right. }
  case_match; apply Hrep.
Qed.

Lemma emits_merge t : emits_on LifecycleStatus.Merging t (execute_merge t).
Proof.
  unfold execute_merge, kill_worker, of_sqlx, expect_some.
  do 10 (apply emits_bind; [by left|solve_silent|intros ?]).
  apply emits_bind; [by left|solve_silent|intros _].
  apply emits_then.
  - case_match; [apply emits_silent; [by left|solve_silent]|apply emits_merge_pr].
  - intros _. unfold close_ticket, of_sqlx. solve_silent.
Qed.

(** C19: The workflow's own transitions follow the graph: whatever the databases,
    the builder and the worker daemons answer, the handler of a status asks the
    coordinator for at most one transition, for its own ticket; verifying asks
    for exactly one, to pushing or back to implementing, unless it fails; pushing
    asks for review, for implementing, or for nothing; merging for implementing
    or nothing; the others for nothing. *)
Theorem handlers_follow_graph status h t x :
  build_handlers config status = Some h → receiving x = true →
  ∃ o, edge status (is_ok (h t x).1) o
    ∧ sent (h t x).2 = sent x ++ option_list (TransitionRequest.mk t <$> o).
Proof.
  intros Hh Hx. assert (emits_on status t (h t)) as He.
  { destruct status; simplify_eq/=; try (apply emits_silent; [by intros []|]).
    - apply silent_dispatch_implement.
    - apply emits_push.
    - apply silent_ret.
    - apply silent_feedback_address.
    - apply emits_merge.
    - apply emits_verification.
    - apply silent_ret. }
  destruct (He x Hx) as (o & Ho & Hs & _). eauto.
Qed.
End Graph.

(** ** Witness: a merge that GitHub refuses *)

Definition graph_ctx : ctx world :=
  test_ctx "feature" (test_workflow "merging" 1 "succeeded" "mergeable" "approved")
    [exits 0 "pr open" ""; exits 1 "" "Pull request is not mergeable"].
Definition graph_run : result unit anyhow * ctx world :=
  @execute_merge test_env test_host test_services "ur-1" graph_ctx.

Lemma handlers_follow_graph_witness :
  (∃ o, edge LifecycleStatus.Merging (is_ok graph_run.1) o
     ∧ sent graph_run.2 = [] ++ option_list (TransitionRequest.mk "ur-1" <$> o))
  ∧ sent graph_run.2 = [TransitionRequest.mk "ur-1" LifecycleStatus.Implementing].
Proof.
  split; [|vm_compute; reflexivity].
  exact (@handlers_follow_graph test_env test_host test_config test_services test_services_lawful
    LifecycleStatus.Merging (@execute_merge test_env test_host test_services) "ur-1" graph_ctx
    eq_refl eq_refl).
Defined.
