(* ===== verification/DeliveryProps.v ===== *)
(** * The delivery handlers: the gate before a merge, and pushes to protected branches *)

From S2P Require Import Prelude RustStd Model Env TicketDb TicketGraph TicketRepo TicketUpdates.
From S2P Require Import WorkflowDb WorkflowRepo WorkerRepo WorkflowProps Context Coordinator Host.
From S2P Require Import Backends HandlerLib WorkHandlers DeliveryHandlers HandlerRules TestWorld.
From Stdlib Require Import Ascii Lia.
Local Open Scope stdpp_scope.

(** ** The gate before a merge *)

(** The conditions of the merge, on the databases a handler starts from. *)
Definition autoapprove (ticket_id : string) (s : tables_t) : Prop :=
  is_Some (TicketTables.meta s !! (ticket_id, "ticket", ticket_meta.AUTOAPPROVE)).
Definition gate_open (ticket_id : string) (s : tables_t) (w : wtables) : Prop :=
  ∃ i r, WorkflowTables.workflow w !! i = Some r ∧ active_for ticket_id r = true
    ∧ WorkflowRow.ci_status r = ci_status.SUCCEEDED
    ∧ WorkflowRow.mergeable r = mergeable.MERGEABLE
    ∧ (WorkflowRow.review_status r = review_status.APPROVED ∨ autoapprove ticket_id s)
    ∧ WorkflowRow.worker_id r ≠ "".

Section Merge.
Context {HE : Env} {HO : Host} {HM : WorkflowServices}.

Lemma condition_failures_nil w :
  condition_failures w = [] ↔ Workflow.ci_status w = ci_status.SUCCEEDED
    ∧ Workflow.mergeable w = mergeable.MERGEABLE ∧ Workflow.review_status w = review_status.APPROVED.
Proof. unfold condition_failures. repeat case_bool_decide; naive_solver. Qed.
Lemma check_passes w t : check_pre_merge_conditions w t = Ok tt → condition_failures w = [].
Proof. unfold check_pre_merge_conditions. by destruct (condition_failures w). Qed.

(** The databases after the step that approves automatically. *)
Definition approved (t : string) (w : wtables) : wtables :=
  WorkflowTables.set_workflow (update_where (active_for t)
    (WorkflowRow.set_condition WorkflowCondition.ReviewStatus review_status.APPROVED)
    (WorkflowTables.workflow w)) w.

Lemma approved_row t w i r :
  WorkflowTables.workflow (approved t w) !! i = Some r → active_for t r = true →
  ∃ r0, WorkflowTables.workflow w !! i = Some r0 ∧ active_for t r0 = true
    ∧ WorkflowRow.ci_status r = WorkflowRow.ci_status r0
    ∧ WorkflowRow.mergeable r = WorkflowRow.mergeable r0
    ∧ WorkflowRow.worker_id r = WorkflowRow.worker_id r0.
Proof.
  unfold approved. cbn. rewrite lookup_update_where. intros (r0 & Hr0 & ->)%fmap_Some Ha.
  exists r0. split; [done|]. destruct (active_for t r0) eqn:E; [by split_and!|congruence].
Qed.

(** From a passed check to the gate on the state before. *)
Lemma gate_of_check t s w w' i r (auto : bool) :
    (auto = true → autoapprove t s) →
  w' = (if auto then approved t w else w) →
  WorkflowTables.workflow w' !! i = Some r → active_for t r = true →
  WorkflowRow.worker_id r ≠ "" →
  check_pre_merge_conditions (row_to_workflow r) t = Ok tt → gate_open t s w.
Proof.
  intros Hauto -> Hi Ha Hw (Hci & Hmg & Hrv)%check_passes%condition_failures_nil.
  destruct auto; [|exists i, r; split_and!; auto].
  destruct (approved_row _ _ _ _ Hi Ha) as (r0 & Hr0 & Ha0 & E1 & E2 & E3).
  exists i, r0. cbn in *. rewrite <-E1, <-E2, <-E3. split_and!; auto.
Qed.

(** Where a handler that has not passed the gate leaves things. *)
Definition untouched (x y : ctx host) : Prop :=
  tables (ticket_db y) = tables (ticket_db x) ∧ outside y = outside x ∧ sent y = sent x.

Lemma untouched_at x w' y :
  is_at (tables (ticket_db x)) w' (outside x) (channel x) y → untouched x y.
Proof. intros (? & ? & ? & [= ? ?]). by split_and!. Qed.

Lemma triple_autoapprove t s w h q (meta : gmap string string) (auto := bool_decide (is_Some (meta !! ticket_meta.AUTOAPPROVE))) :
  triple (is_at s w h q)
    (if auto then of_sqlx (workflows (update_workflow_condition t WorkflowCondition.ReviewStatus
                    review_status.APPROVED)) else mret tt)
    (λ _ y, is_at s (if auto then approved t w else w) h q y ∧ True) (λ _, is_at s w h q).
Proof.
  destruct auto; [apply triple_update_active|by apply triple_ret].
Qed.

(** Up to and including the check. *)
Lemma merge_gate_triple t x :
  let s := tables (ticket_db x) in let w := tables (workflow_db x) in
  triple (is_at s w (outside x) (channel x)) (execute_merge t)
    (λ _ _, gate_open t s w) (λ _ y, untouched x y ∨ gate_open t s w).
Proof.
  intros s w. assert (∀ w' (e : anyhow) y, is_at s w' (outside x) (channel x) y → untouched x y ∨ gate_open t s w)
    as Hleft by (intros w' _ y Hy; left; by apply (untouched_at x w')).
  unfold execute_merge. eapply triple_read; [apply triple_load_ticket|apply Hleft|intros ticket _].
  eapply triple_read; [apply triple_get_meta|apply Hleft|intros meta Hmeta].
  eapply triple_bind.
  { eapply triple_conseq; [apply triple_autoapprove|intros ? ? Hy; exact Hy|apply Hleft]. }
  intros _ _. eapply triple_read; [apply triple_load_workflow|apply Hleft|].
  intros wf (i & r & Hi & Ha & ->).
  eapply triple_read; [apply triple_assigned_worker|apply Hleft|intros wid [-> Hwid]].
  eapply triple_read; [apply triple_of_result|apply Hleft|intros [] Hcheck].
  assert (gate_open t s w) as Hgate.
  { eapply gate_of_check; [|done|exact Hi|done|exact Hwid|exact Hcheck].
    rewrite bool_decide_eq_true. unfold autoapprove. by rewrite <-Hmeta. }
  clearbody s w. intros y _. match goal with |- match ?m with _ => _ end => destruct m as [[]] end; auto.
Qed.

(** C20: The merge handler changes nothing outside and no ticket, and asks for no
    transition, unless the ticket's active workflow has a worker, its checks
    succeeded, its pull request is mergeable and it is approved (by a review or
    automatically); in particular it kills no worker, merges nothing and closes no
    ticket, and it fails. *)
Theorem merge_gate t x :
  let '(res, y) := execute_merge t x in
  gate_open t (tables (ticket_db x)) (tables (workflow_db x))
  ∨ (is_ok res = false ∧ tables (ticket_db y) = tables (ticket_db x)
     ∧ outside y = outside x ∧ sent y = sent x).
Proof.
  pose proof (merge_gate_triple t x x) as Hm. cbn in Hm. destruct (execute_merge t x) as [[a|e] y].
  - left. by apply Hm.
  - destruct Hm as [Hu|Hg]; [by split_and!|right|by left]. by destruct Hu as (? & ? & ?).
Qed.
End Merge.

(** ** Pushes to protected branches *)

Section Push.
Context {HE : Env} {HO : Host} (config : Config.t).

Abbreviation push_of b wd nv := (LocalRepo.push GitBackend.local_repo b wd nv).
(** The remote refuses the branch, wherever it is pushed from. *)
Definition rejects (b : string) (h : host) : Prop :=
  ∀ wd nv, ∃ p reason, (push_of b wd nv h).1 = Ok p ∧ PushResult.status p = PushStatus.Rejected reason.
(** At most one push happened, and nothing else. *)
Definition pushed_once (b : string) (h : host) (q : list TransitionRequest.t * bool) (y : ctx host) : Prop :=
  channel y = q ∧ (outside y = h ∨ ∃ wd nv, outside y = (push_of b wd nv h).2).

Lemma pushed_at b s w h q y : is_at s w h q y → pushed_once b h q y.
Proof. intros (_ & _ & ? & ?). split; [done|by left]. Qed.

Lemma rejected_push_triple t s w h q r b :
  TicketTables.ticket s !! t = Some r → ExportTicket.branch r = Some b →
  is_branch_protected config b (ExportTicket.project r) = true → rejects b h →
  triple (is_at s w h q) (handle_push config t) (λ _, pushed_once b h q) (λ _, pushed_once b h q).
Proof.
  intros Hr Hb Hprot Hrej. assert (∀ (e : anyhow) y, is_at s w h q y → pushed_once b h q y) as Hnone
    by (intros _ y Hy; by apply (pushed_at b s w)).
  unfold handle_push. eapply triple_read; [apply triple_load_ticket|apply Hnone|].
  intros a (r' & Hr' & ->). simplify_eq. cbn -[load_workflow]. rewrite Hb.
  eapply triple_read; [apply triple_expect_some|apply Hnone|intros b' [= <-]].
  eapply triple_read; [apply triple_load_workflow|apply Hnone|intros wf _].
  eapply triple_read; [apply triple_assigned_worker|apply Hnone|intros wid _].
  eapply triple_read; [apply triple_load_slot|apply Hnone|intros slot _].
  destruct (Hrej (Slot.host_path slot) (Workflow.noverify wf)) as (p & reason & Hp & Hst).
  set (h' := (push_of b (Slot.host_path slot) (Workflow.noverify wf) h).2).
  assert (∀ y, still h' q y → pushed_once b h q y) as Hdone
    by (intros y [Hy Hq]; split; [done|right]; eauto).
  eapply triple_bind.
  { eapply triple_conseq; [apply triple_outside_call|intros ? ? Hy; exact Hy|].
    intros ? y Hy. by apply Hdone, (still_at _ _ s w). }
  intros p' Hp'. assert (p' = p) as -> by (cbn in *; congruence). rewrite Hst.
  unfold handle_push_rejected. rewrite Hprot.
  eapply triple_conseq; [|intros ? y Hy; exact (Hdone y Hy)|intros ? y Hy; exact (Hdone y Hy)].
  apply triple_preserves; [|intros y; apply still_at].
  unfold add_push_activity, stall_agent. solve_preserves.
Qed.

(** C22: A rejected push of a protected branch is final: the handler makes that one
    push and no other call to the world outside (no fetch, no forced push), and
    asks for no transition. *)
Theorem protected_never_forced t x r b :
  TicketTables.ticket (tables (ticket_db x)) !! t = Some r → ExportTicket.branch r = Some b →
  is_branch_protected config b (ExportTicket.project r) = true → rejects b (outside x) →
  let y := (handle_push config t x).2 in
  sent y = sent x
  ∧ (outside y = outside x ∨ ∃ wd nv, outside y = (push_of b wd nv (outside x)).2).
Proof.
  intros Hr Hb Hprot Hrej. cbn zeta.
  pose proof (rejected_push_triple t (tables (ticket_db x)) (tables (workflow_db x)) (outside x) (channel x)
    r b Hr Hb Hprot Hrej x ltac:(by split_and!)) as Hm.
  destruct (handle_push config t x) as [[a|e] y]; by destruct Hm as [[= ? ?] ?].
Qed.
End Push.

(** A refused push, as [git push --porcelain] prints it. *)
Definition refused : result (list (result Frame.t Status.t)) Status.t :=
  exits 1 ("To github" +:+ NEWLINE +:+ "!" +:+ TAB +:+ "refs/heads/main:refs/heads/main" +:+ TAB
           +:+ "[rejected] (fetch first)") "".
Definition push_ctx : ctx world :=
  test_ctx "main" (test_workflow "pushing" 1 "pending" "unknown" "pending") [refused].

Lemma protected_never_forced_witness :
  let y := (@handle_push test_env test_host test_config "ur-1" push_ctx).2 in
  sent y = [] ∧ length (commands (outside y)) = 1.
Proof.
  split.
  - refine (proj1 (@protected_never_forced test_env test_host test_config "ur-1" push_ctx (test_ticket "main")
      "main" _ _ _ _)); try reflexivity.
    intros wd []; eexists _, _; (split; [vm_compute; reflexivity|reflexivity]).
  - vm_compute. reflexivity.
Defined.

(** ** A merge that fails *)

Definition merge_ctx : ctx world :=
  test_ctx "feature" (test_workflow "merging" 1 "succeeded" "mergeable" "approved")
    [exits 0 "pr open" ""; exits 1 "" "Pull request is not mergeable"].

(** A merge that GitHub refuses is reported with an issue ticket and a request
    to implement again, but the handler then goes on as after a merge: the workflow
    is done and the ticket closed, so the implementing handler it asked for finds
    no workflow and fails. *)
Theorem failed_merge_closes_ticket :
  ∃ y, @execute_merge test_env test_host test_services "ur-1" merge_ctx = (Ok tt, y)
    ∧ sent y = [TransitionRequest.mk "ur-1" LifecycleStatus.Implementing]
    ∧ issues (outside y) = [("ur-1", MERGE_CONFLICT)] ∧ stopped (outside y) = ["w1"]
    ∧ (ExportTicket.status <$> TicketTables.ticket (tables (ticket_db y)) !! "ur-1") = Some "closed"
    ∧ (WorkflowRow.status <$> WorkflowTables.workflow (tables (workflow_db y)) !! "a") = Some "done"
    ∧ (@dispatch_implement test_env test_host test_config "ur-1" y).1
      = Err (Anyhow "no workflow found for ticket ur-1").
Proof. eexists. split; [vm_compute; reflexivity|]. split_and!; vm_compute; reflexivity. Qed.

(** * The patterns of protected branches

    What [pattern_matches] accepts for the patterns the code's documentation
    names, and where it accepts less or more than a glob would. *)

From S2P Require Import TextLemmas.

From Stdlib Require Import Ascii String Lia.

Section Strings.

(** Splitting a text whose beginning lacks the separator's first character. *)
Definition prepend (p : string) (l : list string) : list string :=
  match l with [] => [p] | h :: t => (p +:+ h) :: t end.
Lemma split_prepend a q p s :
  contains (String a EmptyString) p = false →
  split (String a q) (p +:+ s) = prepend p (split (String a q) s).
Proof.
  unfold split. induction p as [|c p IH]; intros Hp.
  - simpl. by destruct (split_go _ 0 s) eqn:E; [apply split_go_ne in E|].
  - apply contains_cons in Hp as [Hac Hp]. change (String c p +:+ s) with (String c (p +:+ s)).
    cbn [split_go]. destruct (String.prefix _ _) eqn:Hpre; [by apply prefix_cons in Hpre as [? _]|].
    rewrite IH by done. by destruct (split_go _ 0 s).
Qed.
End Strings.

Definition star_free (p : string) : Prop := contains "*" p = false.
Definition slash_free (r : string) : Prop := contains "/" r = false.

Section Patterns.
Context (p v : string) (Hp : star_free p).

Lemma split_plain a q : a = "*"%char → split (String a q) p = [p].
Proof.
  intros ->. rewrite <-(app_empty p), split_prepend by done. cbn. by rewrite !app_empty.
Qed.

Lemma ends_with_star s : ends_with "*" (s +:+ "*") = true.
Proof.
  unfold ends_with. assert (String.length (s +:+ "*") = S (String.length s)) as ->.
  { induction s as [|c s IH]; [done|]. rewrite app_cons. simpl. by rewrite IH. }
  cbn [String.length]. replace (S (String.length s) - 1) with (String.length s) by lia.
  rewrite str_drop_app. by rewrite bool_decide_true.
Qed.

(** One trailing star. *)
Lemma single_star : glob_match_single_star (p +:+ "*") v = true ↔ ∃ r, v = p +:+ r ∧ slash_free r.
Proof.
  unfold glob_match_single_star. rewrite split_prepend by done.
  change (split "*" "*") with [EmptyString; EmptyString]. cbn [prepend]. rewrite app_empty, ends_with_star.
  cbn [glob_segments negb]. rewrite (bool_decide_true (EmptyString = EmptyString)) by done.
  case_bool_decide as Hnil.
  - rewrite Hnil, negb_true_iff. split; [by exists v|]. by intros (r & -> & Hr).
  - destruct (find p v) as [[|n]|] eqn:Hf; cbn.
    + apply find_0, prefix_drop in Hf.
      rewrite bool_decide_false, negb_true_iff by (by intros []). split; [by eauto|].
      intros (r & Hv & Hr). rewrite Hv. by rewrite str_drop_app.
    + rewrite bool_decide_true by done. split; [done|]. intros (r & -> & _). pose proof (prefix_app p r) as Hpre.
      apply find_0 in Hpre. congruence.
    + split; [done|]. intros (r & -> & _). pose proof (prefix_app p r) as Hpre.
      apply find_0 in Hpre. congruence.
Qed.

Lemma double_star : glob_match_double_star [p; EmptyString] v = true ↔ ∃ r, v = p +:+ r.
Proof.
  cbn. case_bool_decide as Hnil; cbn.
  - rewrite Hnil. by split; [exists v|].
  - destruct (starts_with p v) eqn:Hs; cbn; [apply starts_with_spec in Hs; by split|].
    split; [done|]. intros Hr. apply starts_with_spec in Hr. congruence.
Qed.

(** A pattern without a star matches itself only; with one star at its end, what
    continues it without a slash; with two, whatever continues it. *)
Theorem branch_patterns :
    (pattern_matches p v = true ↔ v = p)
  ∧ (pattern_matches (p +:+ "*") v = true ↔ ∃ r, v = p +:+ r ∧ slash_free r)
  ∧ (pattern_matches (p +:+ "**") v = true ↔ ∃ r, v = p +:+ r).
Proof.
  unfold pattern_matches. split_and!.
  - case_bool_decide as Heq; [naive_solver|]. rewrite (split_plain "*" "*") by done. cbn.
    unfold glob_match_single_star. rewrite (split_plain "*" EmptyString) by done.
    rewrite bool_decide_eq_true. naive_solver.
  - case_bool_decide as Heq.
    + split; [|done]. intros _. exists "*". by split.
    + rewrite split_prepend by done. change (split "**" "*") with ["*"]. cbn [prepend length Nat.ltb].
      apply single_star.
  - case_bool_decide as Heq; [split; [eauto|done]|].
    rewrite split_prepend by done. change (split "**" "**") with [EmptyString; EmptyString].
    cbn [prepend length]. rewrite app_empty. apply double_star.
Qed.
End Patterns.

(** The shape of the configured patterns, on a branch below a release. *)
Lemma branch_patterns_witness :
  pattern_matches "release/" "release/1.0" = false
  ∧ (∃ r, "release/1.0" = "release/" +:+ r ∧ slash_free r) ∧ star_free "release/".
Proof.
  split; [vm_compute; reflexivity|]. split; [|vm_compute; reflexivity].
  apply (branch_patterns "release/" "release/1.0" ltac:(vm_compute; reflexivity)). vm_compute. reflexivity.
Defined.

(** Elsewhere the matching is not that of a glob: a star takes the first
    occurrence of what follows it, so a branch ending in the wanted text can be
    missed; and between two double stars nothing is compared. *)
Example star_misses_later_occurrence :
  pattern_matches "*-main" "x-main-main" = false
  ∧ is_branch_protected (Config.mk {[ "ur" := test_project ["*-main"] ]} None "" "" "" "") "x-main-main" "ur" = false.
Proof. split; vm_compute; reflexivity. Qed.
Example double_star_ignores_middle : pattern_matches "a/**/b/**/c" "a/x/c" = true.
Proof. vm_compute. reflexivity. Qed.
