(* ===== verification/WorkProps.v ===== *)
(** * The bound on implementing cycles, and the classification of a hook's exit *)

From S2P Require Import Prelude RustStd Model Env TicketDb TicketGraph TicketRepo TicketUpdates.
From S2P Require Import WorkflowDb WorkflowRepo WorkerRepo WorkflowProps Context Host Backends.
From S2P Require Import UrConfig HandlerLib WorkHandlers HandlerRules DeliveryHandlers TestWorld.
From S2P Require Import HandlerProps.
From Stdlib Require Import Lia.
Local Open Scope stdpp_scope.

Section Cycles.
Context {HE : Env} {HO : Host} (config : Config.t) (t : string).

Abbreviation rows_of x := (WorkflowTables.workflow (tables (workflow_db x))).

(** The active workflows of the ticket have a property. *)
Definition of_active (P : WorkflowRow.t → Prop) (m : gmap string WorkflowRow.t) : Prop :=
  map_Forall (λ _ r, active_for t r = true → P r) m.
Definition cycles_within (max : Z) : gmap string WorkflowRow.t → Prop :=
  of_active (λ r, (0 <= WorkflowRow.implement_cycles r <= max)%Z).
Definition one_active (m : gmap string WorkflowRow.t) : Prop :=
  ∀ i j a b, m !! i = Some a → m !! j = Some b → active_for t a = true → active_for t b = true → i = j.

(** Nothing of the handler but its increment writes a workflow. *)
Definition same_workflows (m : gmap string WorkflowRow.t) (x : ctx host) : Prop := rows_of x = m.

Lemma keeps_tickets {A} m (o : db A) : preserves (same_workflows m) (tickets o).
Proof. intros [a d h q b] Hx. unfold tickets. by rewrite run_zoom. Qed.
Lemma keeps_external {E A} m (o : SE host E A) : preserves (same_workflows m) (external o).
Proof. intros [a d h q b] Hx. by rewrite run_external. Qed.
Lemma keeps_workflows {A} m (o : wdb A) :
  preserves (on_tables (λ s, WorkflowTables.workflow s = m)) o → preserves (same_workflows m) (workflows o).
Proof.
  intros Ho. exact (preserves_zoom (S := ctx host) (on_tables (λ s, WorkflowTables.workflow s = m)) o Ho).
Qed.
Lemma keeps_load_worker m i : preserves (same_workflows m) (load_worker i).
Proof.
  unfold load_worker, of_sqlx, expect_some. apply preserves_bind; [|intros ?; apply preserves_ok_or].
  apply preserves_map_err, keeps_workflows. unfold get_worker. solve_preserves.
Qed.
Lemma keeps_load_slot m i : preserves (same_workflows m) (load_slot i).
Proof.
  unfold load_slot, of_sqlx, expect_some. solve_preserves; apply keeps_workflows.
  - unfold get_worker_slot. solve_preserves.
  - unfold get_slot. solve_preserves.
Qed.
Lemma keeps_dispatch m rpc w req : preserves (same_workflows m) (dispatch config rpc w req).
Proof.
  unfold dispatch, workerd_request, bail. apply preserves_bind.
  - repeat case_match; first [apply preserves_throw | apply preserves_map_err, keeps_external].
  - intros _. apply preserves_ignore_err, keeps_workflows. unfold update_worker_agent_status.
    apply preserves_bind; [apply preserves_utc_now|intros now]. by apply preserves_update_stmt.
Qed.
Lemma keeps_branch m ticket w : preserves (same_workflows m) (ensure_ticket_branch ticket t w).
Proof.
  unfold ensure_ticket_branch, read_worker_branch, outside_call, of_sqlx, bail.
  case_match; [apply preserves_ret|]. apply preserves_bind.
  - apply preserves_bind; [apply keeps_load_slot|intros slot].
    apply preserves_bind; [apply preserves_map_err, keeps_external|intros branch].
    case_bool_decide; [apply preserves_throw|apply preserves_ret].
  - intros branch. apply preserves_bind; [apply preserves_map_err, keeps_tickets|intros _; apply preserves_ret].
Qed.

(** The counters after an increment. *)
Lemma increment_bounded m max :
  one_active m → cycles_within max m →
    (∃ i r, m !! i = Some r ∧ active_for t r = true ∧ (WorkflowRow.implement_cycles r < max)%Z) →
  cycles_within max (update_where (active_for t)
    (λ r, WorkflowRow.set_cycles (WorkflowRow.implement_cycles r + 1) r) m).
Proof.
  intros Hone Hm (i & r & Hi & Ha & Hlt) j a Hj Haj. rewrite lookup_update_where in Hj.
  apply fmap_Some in Hj as (a0 & Ha0 & ->). destruct (active_for t a0) eqn:E; [|congruence].
  pose proof (Hone i j r a0 Hi Ha0 Ha E) as <-.
  rewrite Hi in Ha0. injection Ha0 as <-. specialize (Hm i r Hi Ha).
  simpl in *. lia.
Qed.

(** ** The handler *)

(** The outcome of the check of the limit. *)
Lemma triple_check_limit s w h q project max :
  resolve_cycle_limit config project = Some max →
  triple (is_at s w h q) (check_cycle_limit config t project)
    (λ b x, if b : bool
       then ∃ reason, is_at s (WorkflowTables.set_workflow (update_where (active_for t)
              (WorkflowRow.set_stall true reason) (WorkflowTables.workflow w)) w) h q x
       else is_at s w h q x ∧ ∃ i r, WorkflowTables.workflow w !! i = Some r ∧ active_for t r = true
              ∧ (as_u32 (WorkflowRow.implement_cycles r) < max)%Z)
    (λ _, is_at s w h q).
Proof.
  intros Hmax. unfold check_cycle_limit. rewrite Hmax.
  eapply triple_read; [apply triple_load_workflow|done|intros wf (i & r & Hi & Ha & ->)]. cbn.
  destruct (max <=? _)%Z eqn:Hle.
  - eapply triple_bind; [apply triple_update_active|intros [] _]. apply triple_ret. eauto.
  - apply triple_ret. intros x Hx. split; [done|]. exists i, r. apply Z.leb_gt in Hle. eauto.
Qed.

Definition incremented (m : gmap string WorkflowRow.t) : gmap string WorkflowRow.t :=
  update_where (active_for t) (λ r, WorkflowRow.set_cycles (WorkflowRow.implement_cycles r + 1) r) m.

Lemma triple_increment s w h q :
  triple (is_at s w h q) (of_sqlx (workflows (increment_implement_cycles t)))
    (λ _ x, is_at s (WorkflowTables.set_workflow (incremented (WorkflowTables.workflow w)) w) h q x ∧ True)
    (λ _, is_at s w h q).
Proof.
  apply triple_workflows. eapply triple_conseq; [apply triple_statement| |done].
  intros [] p Hp. cbn in Hp. case_match; by simplify_eq.
Qed.

(** What the handler does after the increment keeps the counters. *)
Lemma preserves_after_increment m ticket :
  preserves (same_workflows m)
    (workflow ← load_workflow t;
     worker_id ← assigned_worker workflow t "dispatch implement";
     worker ← load_worker worker_id;
     (if bool_decide (WorkerRow.container_status worker ≠ "running")
      then bail ("worker " +:+ worker_id +:+ " is not running (status: "
                 +:+ WorkerRow.container_status worker +:+ ")")
      else mret tt) ;;
     ensure_ticket_branch ticket t worker_id ;;
     wrap "workerd implement RPC failed: "
       (dispatch config "Implement" worker (WorkerdRequest.Implement t))).
Proof.
  apply preserves_bind; [|intros wf].
  { unfold load_workflow, of_sqlx, expect_some. apply preserves_bind; [|intros ?; apply preserves_ok_or].
    apply preserves_map_err, keeps_workflows, preserves_select. }
  apply preserves_bind; [unfold assigned_worker, bail; solve_preserves|intros wid].
  apply preserves_bind; [apply keeps_load_worker|intros worker].
  apply preserves_bind; [unfold bail; solve_preserves|intros _].
  apply preserves_bind; [apply keeps_branch|intros _].
  apply preserves_map_err, keeps_dispatch.
Qed.

(** C21: The implementing handler never takes the ticket's workflow past the limit
    of its project: whatever fails, the counter stays within it; and when the
    counter has reached the limit the handler calls no worker and, if it succeeds,
    the workflow is stalled. *)
Theorem implement_cycles_bounded x r max :
  TicketTables.ticket (tables (ticket_db x)) !! t = Some r →
  resolve_cycle_limit config (ExportTicket.project r) = Some max → (0 <= max <= U32_MAX)%Z →
  one_active (rows_of x) → cycles_within max (rows_of x) →
  let run := dispatch_implement config t x in
  cycles_within max (rows_of run.2)
  ∧ (of_active (λ w, WorkflowRow.implement_cycles w = max) (rows_of x) →
     outside run.2 = outside x
     ∧ (is_ok run.1 = true → of_active (λ w, WorkflowRow.stalled w = true) (rows_of run.2))).
Proof.
  intros Hr Hmax Hrange Hone Hm. cbn zeta.
  set (s := tables (ticket_db x)) in *. set (w := tables (workflow_db x)) in *.
  set (full := of_active (λ w, WorkflowRow.implement_cycles w = max) (WorkflowTables.workflow w)) in *.
  set (post := λ (b : bool) (y : ctx host), cycles_within max (rows_of y)
    ∧ (full → outside y = outside x ∧ (b = true → of_active (λ w, WorkflowRow.stalled w = true) (rows_of y)))).
  assert (triple (is_at s w (outside x) (channel x)) (dispatch_implement config t)
    (λ _, post true) (λ _, post false)) as Htr.
  2: { specialize (Htr x ltac:(by split_and!)). by destruct (dispatch_implement config t x) as [[]]. }
  assert (∀ (e : anyhow) y, is_at s w (outside x) (channel x) y → post false y) as Hnone.
  { intros _ y (_ & Hw & Ho & _). unfold post. rewrite Hw. by split. }
  unfold dispatch_implement. eapply triple_read; [apply triple_load_ticket|apply Hnone|].
  intros a (r' & Hr' & ->). assert (r' = r) as -> by congruence. cbn [Ticket.project ticket_from_row ticket_of].
  intros x0 Hx0. rewrite run_bind.
  pose proof (triple_check_limit s w (outside x) (channel x) _ max Hmax x0 Hx0) as Hc.
  destruct (check_cycle_limit config t _ x0) as [[[|]|e] x1]; [| |by apply (Hnone e)].
  - destruct Hc as (reason & _ & Hw & Ho & _). unfold post. cbn. rewrite Hw. cbn. split.
    + intros i a Hi Ha. rewrite lookup_update_where in Hi. apply fmap_Some in Hi as (a0 & Ha0 & ->).
      destruct (active_for t a0) eqn:E; [exact (Hm i a0 Ha0 E)|congruence].
    + intros _. split; [done|]. intros _ i a Hi Ha. rewrite lookup_update_where in Hi.
      apply fmap_Some in Hi as (a0 & Ha0 & ->). destruct (active_for t a0) eqn:E; [done|congruence].
  - destruct Hc as [Hx1 (i & r0 & Hi & Ha0 & Hlt)].
    pose proof (Hm i r0 Hi Ha0) as Hr0. unfold as_u32, U32_MAX in *.
    rewrite Z.mod_small in Hlt by lia.
    assert (¬ full) as Hfull by (intros Hf; specialize (Hf i r0 Hi Ha0); cbn in Hf; lia).
    cbn [negb]. rewrite run_bind. pose proof (triple_increment s w (outside x) (channel x) x1 Hx1) as Hinc.
    destruct (of_sqlx _ x1) as [[[]|e] x2]; [|by apply (Hnone e)].
    destruct Hinc as [(_ & Hw & _) _].
    pose proof (preserves_after_increment (rows_of x2) (ticket_from_row s r) x2 eq_refl) as Hrest.
    match type of Hrest with same_workflows _ (?m _).2 => destruct (m x2) as [[[]|e] y] end;
      cbn [fst snd] in Hrest; (split; [|done]); rewrite Hrest, Hw; apply increment_bounded; eauto.
Qed.
End Cycles.

Section CycleWitness.
(** A workflow that has used its three cycles. *)
Definition full_ctx : ctx world := test_ctx "feature" (test_workflow "implementing" 3 "" "" "") [].

Definition full_run : result unit anyhow * ctx world :=
  @dispatch_implement test_env test_host test_config "ur-1" full_ctx.

Lemma implement_cycles_bounded_witness :
  cycles_within "ur-1" 3 (WorkflowTables.workflow (tables (workflow_db full_run.2)))
  ∧ outside full_run.2 = outside full_ctx ∧ is_ok full_run.1 = true.
Proof.
  assert (cycles_within "ur-1" 3 (WorkflowTables.workflow (tables (workflow_db full_ctx)))) as Hm
    by (apply map_Forall_singleton; intros _; vm_compute; by split).
  assert (of_active "ur-1" (λ w, WorkflowRow.implement_cycles w = 3%Z)
    (WorkflowTables.workflow (tables (workflow_db full_ctx)))) as Hfull by by apply map_Forall_singleton.
  assert (one_active "ur-1" (WorkflowTables.workflow (tables (workflow_db full_ctx)))) as Hone.
  { by intros i j a b [-> _]%test_ctx_workflow [-> _]%test_ctx_workflow. }
  pose proof (@implement_cycles_bounded test_env test_host test_config "ur-1" full_ctx
    (test_ticket "feature") 3 eq_refl eq_refl ltac:(by vm_compute) Hone Hm) as [Hb Hout].
  split_and!; [exact Hb|exact (proj1 (Hout Hfull))|vm_compute; reflexivity].
Defined.
End CycleWitness.

(** ** Verifying *)

Section Verify.
Context {HE : Env} {HO : Host} (config : Config.t).

(** Where verification sends the ticket, for the directory of its slot: back to
    implementing only when the hook ran and failed, neither with success nor with
    the code that asks for another push. *)
Definition verdict (pc : ProjectConfig.t) (project wd : string) (h : host) : LifecycleStatus :=
  match find_workflow_hook_path config project wd h with
  | None => LifecycleStatus.Pushing
  | Some hook =>
      match (LocalRepo.run_hook GitBackend.local_repo hook wd h).1 with
      | Err _ => LifecycleStatus.Pushing
      | Ok r =>
          if bool_decide (HookResult.exit_code r = 0%Z
                          ∨ HookResult.exit_code r = ProjectConfig.push_again_exit_code pc)
          then LifecycleStatus.Pushing else LifecycleStatus.Implementing
      end
  end.
(** Success means that one transition was asked for. *)
Definition asks (v : LifecycleStatus) (ok : bool) (o : option LifecycleStatus) : Prop :=
  ok = true → o = Some v.
Abbreviation asking v := (emits (H:=host) (asks v)).

Lemma asks_activity v t msg label :
  asking v t (add_workflow_activity t msg ;; send label t v).
Proof. apply emits_bind; [done|apply silent_activity|intros _; by apply emits_send]. Qed.
Lemma classify_pass code again :
  classify_hook_outcome code again ≠ HookOutcome.Fail ↔ code = 0%Z ∨ code = again.
Proof.
  unfold classify_hook_outcome. destruct (Z.eqb_spec code 0), (Z.eqb_spec code again); naive_solver.
Qed.
Lemma asks_process t pc r :
  asking (if bool_decide (HookResult.exit_code r = 0%Z
            ∨ HookResult.exit_code r = ProjectConfig.push_again_exit_code pc)
          then LifecycleStatus.Pushing else LifecycleStatus.Implementing) t (process_hook_result config t pc r).
Proof.
  unfold process_hook_result. apply emits_bind; [done|solve_silent|intros summary].
  apply emits_bind; [done|solve_silent|intros w]. apply emits_bind; [done|solve_silent|intros wid].
  rewrite (bool_decide_ext _ _ (symmetry (classify_pass _ _))).
  destruct (classify_hook_outcome _ _); cbn.
  - apply asks_activity.
  - apply asks_activity.
  - apply emits_bind; [done|solve_silent|intros path]. apply asks_activity.
Qed.
Lemma triple_asks {A} v t q (m : SE (ctx host) anyhow A) :
  asking v t m →
  triple (λ x, channel x = (q, true)) m (λ _ x, sent x = q ++ [TransitionRequest.mk t v]) (λ _ _, True).
Proof.
  intros Hm x [= <- Hx]. destruct (Hm x Hx) as (o & Ho & Hs & _).
  destruct (m x) as [[a|e] y]; [|done]. specialize (Ho eq_refl) as ->. exact Hs.
Qed.

(** A successful verification asks for exactly one transition, that of the
    verdict of the hook, run once in the directory of a slot. *)
Theorem verification_verdict t x r pc :
  TicketTables.ticket (tables (ticket_db x)) !! t = Some r →
  Config.projects config !! ExportTicket.project r = Some pc → receiving x = true →
  let run := run_verification config t x in
  is_ok run.1 = true →
  ∃ i slot, WorkflowTables.slot (tables (workflow_db x)) !! i = Some slot
    ∧ sent run.2 = sent x ++ [TransitionRequest.mk t
        (verdict pc (ExportTicket.project r) (Slot.host_path slot) (outside x))].
Proof.
  intros Hr Hpc Hx. cbn zeta. set (s := tables (ticket_db x)) in *. set (w := tables (workflow_db x)).
  set (post := λ y : ctx host, ∃ i slot, WorkflowTables.slot w !! i = Some slot
    ∧ sent y = sent x ++ [TransitionRequest.mk t
        (verdict pc (ExportTicket.project r) (Slot.host_path slot) (outside x))]).
  assert (triple (is_at s w (outside x) (sent x, true)) (run_verification config t) (λ _, post) (λ _ _, True))
    as Htr.
  2: { specialize (Htr x ltac:(split_and!; try done; unfold channel; by rewrite Hx)).
       by destruct (run_verification config t x) as [[]]. }
  unfold run_verification. eapply triple_read; [apply triple_load_ticket|done|].
  intros a (r' & Hr' & ->). simplify_eq. cbn [Ticket.project ticket_from_row ticket_of]. rewrite Hpc.
  unfold resolve_hook_context. eapply triple_assoc, triple_read; [apply triple_load_workflow|done|intros wf _].
  eapply triple_assoc, triple_read; [apply triple_assigned_worker|done|intros wid _].
  eapply triple_assoc, triple_read; [apply triple_load_slot|done|intros slot [i Hi]].
  eapply triple_assoc, triple_read; [apply triple_gets_outside|done|intros found Hfound].
  assert (∀ v h' (m : SE (ctx host) anyhow unit),
    v = verdict pc (ExportTicket.project r) (Slot.host_path slot) (outside x) → asking v t m →
    triple (is_at s w h' (sent x, true)) m (λ _, post) (λ _ _, True)) as Hfin.
  { intros v h' m -> Hm. eapply triple_conseq; [|intros ? ? Hy; exists i, slot; split; [exact Hi|exact Hy]|done].
    eapply triple_pre; [apply (triple_asks _ t (sent x) m Hm)|by intros y (_ & _ & _ & ?)]. }
  cbn in Hfound. unfold verdict in Hfin. rewrite <-Hfound in Hfin. destruct found as [hook|].
  2: { apply (Hfin LifecycleStatus.Pushing); [done|]. apply emits_assoc.
       apply (emits_send_then _ _ _ _ _ tt); done. }
  apply triple_ret_bind.
  eapply triple_bind; [eapply triple_conseq; [apply triple_attempt_external|intros ? ? Hy; exact Hy|done]|].
  intros res Hres. cbv beta in Hres. rewrite <-Hres in Hfin. destruct res as [hr|e].
  - eapply Hfin; [reflexivity|apply asks_process].
  - eapply Hfin; [reflexivity|apply asks_activity].
Qed.
End Verify.

(** A hook that fails. *)
Definition verify_ctx : ctx world :=
  Ctx (Pool (test_tickets "feature") [] 0)
    (Pool (test_workflows (test_workflow "verifying" 1 "" "" "")) [] 0)
    (World [] [exits 2 "1 test failed" ""] [] ["/pool/ur/0/ur-hooks/workflow/pre-push"] [] []) [] true.
Definition verify_run : result unit anyhow * ctx world :=
  @run_verification test_env test_host test_config "ur-1" verify_ctx.

Lemma verification_verdict_witness :
  (∃ i slot, WorkflowTables.slot (tables (workflow_db verify_ctx)) !! i = Some slot
     ∧ sent verify_run.2 = [] ++ [TransitionRequest.mk "ur-1"
         (@verdict test_host test_config (test_project ["main"; "release/*"]) "ur"
            (Slot.host_path slot) (outside verify_ctx))])
  ∧ sent verify_run.2 = [TransitionRequest.mk "ur-1" LifecycleStatus.Implementing].
Proof.
  split; [|vm_compute; reflexivity].
  exact (@verification_verdict test_env test_host test_config "ur-1" verify_ctx (test_ticket "feature")
    (test_project ["main"; "release/*"]) eq_refl eq_refl eq_refl ltac:(vm_compute; reflexivity)).
Defined.
