(* ===== verification/GithubPoller.v ===== *)
(** * The GitHub poller

    [server/src/workflow/github_poller.rs]: for every ticket in review, the CI
    status, the mergeability and the review commands of its pull request are polled
    into the workflow's conditions, and a transition is asked for; then the pending
    replies to comments are posted.  A cycle never fails: errors are logged.  The
    delays between calls are left out.  The iteration order of a [HashMap] is a
    parameter. *)

From S2P Require Import Prelude RustStd Model Env TicketDb TicketGraph TicketRepo WorkflowDb.
From S2P Require Import WorkflowRepo WorkerRepo Context Host Backends UrConfig HandlerLib.
From Stdlib Require Import Ascii.
Local Open Scope stdpp_scope.

(** ** Values of a condition as constants *)

Definition to_ci_status_const (value : string) : string :=
  if bool_decide (value = ci_status.SUCCEEDED) then ci_status.SUCCEEDED
  else if bool_decide (value = ci_status.FAILED) then ci_status.FAILED
  else ci_status.PENDING.
Definition to_mergeable_const (value : string) : string :=
  if bool_decide (value = mergeable.MERGEABLE) then mergeable.MERGEABLE
  else if bool_decide (value = mergeable.CONFLICT) then mergeable.CONFLICT
  else mergeable.UNKNOWN.
Definition to_review_status_const (value : string) : string :=
  if bool_decide (value = review_status.APPROVED) then review_status.APPROVED
  else if bool_decide (value = review_status.CHANGES_REQUESTED) then review_status.CHANGES_REQUESTED
  else review_status.PENDING.

(** ** Check runs *)

Definition is_check_completed (status conclusion : string) : bool :=
  bool_decide (status = "")
  || eq_ignore_ascii_case status "completed"
  || eq_ignore_ascii_case status "success"
  || eq_ignore_ascii_case status "failure"
  || eq_ignore_ascii_case status "neutral"
  || eq_ignore_ascii_case status "skipped"
  || negb (bool_decide (conclusion = "")).
Definition is_check_failed (conclusion : string) : bool :=
  negb (bool_decide (conclusion = ""))
  && negb (eq_ignore_ascii_case conclusion "success")
  && negb (eq_ignore_ascii_case conclusion "skipped")
  && negb (eq_ignore_ascii_case conclusion "neutral").
Definition filter_ignored_checks (runs : list CheckRun.t) (ignored : list string) : list CheckRun.t :=
  filter (λ r, CheckRun.name r ∉ ignored) runs.

(** [a > b] on strings. *)
Definition str_gt (a b : string) : bool := negb (bool_decide (String.le a b)).

Record CiCheckResult : Type := mkCi { ci_result_status : string; ci_completed_at : string }.

(** The loop of [evaluate_ci_runs]: all completed, any failed, the latest time. *)
Fixpoint evaluate_loop (runs : list CheckRun.t) (all_completed any_failed : bool) (latest : string)
    : bool * bool * string :=
  match runs with
  | [] => (all_completed, any_failed, latest)
  | run :: runs =>
      if negb (is_check_completed (CheckRun.status run) (CheckRun.conclusion run))
      then evaluate_loop runs false any_failed latest
      else
        evaluate_loop runs all_completed (any_failed || is_check_failed (CheckRun.conclusion run))
          (if negb (bool_decide (CheckRun.completed_at run = "")) && str_gt (CheckRun.completed_at run) latest
           then CheckRun.completed_at run else latest)
  end.
Definition evaluate_ci_runs (runs : list CheckRun.t) : CiCheckResult :=
  let '(all_completed, any_failed, latest) := evaluate_loop runs true false "" in
  mkCi (if any_failed : bool then ci_status.FAILED
        else if all_completed : bool then ci_status.SUCCEEDED else ci_status.PENDING) latest.

(** What [check_ci_status] makes of the runs. *)
Definition ci_of_runs (runs : list CheckRun.t) (ignored : list string) : string * string :=
  match runs with
  | [] => (ci_status.SUCCEEDED, "")
  | _ =>
      match filter_ignored_checks runs ignored with
      | [] => (ci_status.SUCCEEDED, "")
      | filtered =>
          let r := evaluate_ci_runs filtered in (ci_result_status r, ci_completed_at r)
      end
  end.

(** ** Review signals *)

Module ReviewSignal.
Inductive t : Type := Approve | RequestChanges | Merged | Closed | Pending.
#[global] Instance eq_dec : EqDecision t.
Proof. solve_decision. Defined.
End ReviewSignal.

Record ReviewCheckResult : Type := mkCheck { check_signal : ReviewSignal.t; check_unseen : nat }.
Record ReviewResult : Type := mkReview {
  status : string; signal : ReviewSignal.t; unseen_count : nat
}.

Definition parse_review_command (text : string) : option ReviewSignal.t :=
  if bool_decide (text = "ur approve") then Some ReviewSignal.Approve
  else if bool_decide (text = "ur respond") then Some ReviewSignal.RequestChanges
  else None.

(** [v.get(key)], [v.as_array()] of [serde_json]. *)
Definition jget (key : string) (v : json) : option json :=
  match v with
  | JObject l => (λ x, x.2.2) <$> list_find (λ kv, kv.1 = key) l
  | _ => None
  end.
Definition as_array (v : json) : option (list json) := match v with JArray l => Some l | _ => None end.

Section Poller.
Context {HE : Env} {HO : Host} {HM : WorkflowServices} (config : Config.t).
Abbreviation run A := (SE (ctx host) anyhow A).

Definition has_commits_after_comment (commits_stdout comment_created_at : string) : bool :=
  let commits := default (JArray []) (json_parse (from_utf8_lossy commits_stdout)) in
  match as_array commits ≫= last with
  | None => false
  | Some latest_commit =>
      let commit_date := default "" (c ← jget "commit" latest_commit; c ← jget "committer" c;
                                     d ← jget "date" c; as_str d) in
      negb (bool_decide (comment_created_at = "")) && negb (bool_decide (commit_date = ""))
      && str_gt commit_date comment_created_at
  end.

Definition exec_gh_via_builderd (args : list string) : SE host string CompletedExec.t :=
  exec_collect "gh" args "/tmp".

Definition check_ci_status (gh_repo : string) (pr_number : Z) (ignored : list string)
    : SE host string (string * string) :=
  runs ← GhBackend.check_runs gh_repo pr_number;
  mret (ci_of_runs runs ignored).

Definition collect_failing_checks (gh_repo : string) (pr_number : Z) (ignored : list string)
    : SE host string string :=
  r ← attempt (GhBackend.check_runs gh_repo pr_number);
  match r with
  | Err e => mret ("(failed to fetch check runs: " +:+ e +:+ ")")
  | Ok runs =>
      let failures := (λ r, CheckRun.name r +:+ ": " +:+ CheckRun.conclusion r) <$>
        filter (λ r, is_check_failed (CheckRun.conclusion r) = true) (filter_ignored_checks runs ignored) in
      mret match failures with
           | [] => "CI failed (no specific failing checks identified)"
           | _ => "Failing checks:" +:+ NEWLINE +:+ join NEWLINE failures
           end
  end.

Definition determine_closed_pr_signal (state gh_repo : string) (pr_number : Z)
    : SE host string ReviewSignal.t :=
  if bool_decide (state = "MERGED") then mret ReviewSignal.Merged
  else
    completed ← exec_gh_via_builderd ["api"; "repos/" +:+ gh_repo +:+ "/pulls/" +:+ pretty pr_number];
    completed ← map_err (λ e, "gh api PR state failed: " +:+ status_display e)
                  (of_result (CompletedExec.check completed));
    pr_json ← ok_or (json_parse (CompletedExec.stdout_text completed)) "failed to parse PR JSON";
    let merged := default false (v ← jget "merged" pr_json; as_bool v) in
    mret (if merged then ReviewSignal.Merged else ReviewSignal.Closed).

(** The comments that are not recorded as seen. *)
Definition unseen_comments (comments : list ConversationComment.t) (seen : list string)
    : list ConversationComment.t :=
  filter (λ c, pretty (ConversationComment.id c) ∉ seen) comments.

Definition check_open_pr_comments (gh_repo : string) (pr_number : Z) (seen : list string)
    : SE host string ReviewCheckResult :=
  comments ← GhBackend.get_conversation_comments gh_repo pr_number;
  let unseen := unseen_comments comments seen in
  match last unseen with
  | None => mret (mkCheck ReviewSignal.Pending 0)
  | Some latest_comment =>
      commits ← attempt (exec_gh_via_builderd ["api"; "repos/" +:+ gh_repo +:+ "/pulls/" +:+
        pretty pr_number +:+ "/commits?per_page=1&sort=created&direction=desc"]);
      let pushed_since :=
        match commits with
        | Ok completed =>
            bool_decide (CompletedExec.exit_code completed = 0%Z)
            && has_commits_after_comment (CompletedExec.stdout_text completed)
                 (ConversationComment.created_at latest_comment)
        | Err _ => false
        end in
      mret (mkCheck
        (if pushed_since then ReviewSignal.Pending
         else default ReviewSignal.Pending (parse_review_command (trim (ConversationComment.body latest_comment))))
        (length unseen))
  end.

Definition check_review_signal (gh_repo : string) (pr_number : Z) (seen : list string)
    : SE host string ReviewCheckResult :=
  pr ← GhBackend.get_pr gh_repo pr_number;
  if bool_decide (PullRequest.state pr ∈ ["closed"; "CLOSED"; "MERGED"]) then
    signal ← determine_closed_pr_signal (PullRequest.state pr) gh_repo pr_number;
    mret (mkCheck signal 0)
  else check_open_pr_comments gh_repo pr_number seen.

(** ** The conditions *)

Definition emit_workflow_event (workflow_id : string) (event : WorkflowEvent) : run unit :=
  ignore_err (workflows (insert_workflow_event workflow_id event)).
Definition emit_workflow_event_at (workflow_id : string) (event : WorkflowEvent) (created_at : string)
    : run unit :=
  ignore_err (workflows
    (if bool_decide (created_at = "") then insert_workflow_event workflow_id event
     else insert_workflow_event_at workflow_id event created_at)).

Definition ci_event (new_status : string) : option WorkflowEvent :=
  if bool_decide (new_status = ci_status.SUCCEEDED) then Some WorkflowEvent.CiSucceeded
  else if bool_decide (new_status = ci_status.FAILED) then Some WorkflowEvent.CiFailed
  else None.

Definition poll_ci_condition (ticket_id : string) (workflow : Workflow.t) (gh_repo : string)
    (pr_number : Z) (ignored : list string) : run string :=
  r ← attempt (external (check_ci_status gh_repo pr_number ignored));
  match r with
  | Err _ => mret (to_ci_status_const (Workflow.ci_status workflow))
  | Ok (new_status, ci_completed_at) =>
      if bool_decide (new_status = Workflow.ci_status workflow) then mret new_status
      else
        u ← attempt (workflows (update_workflow_condition ticket_id WorkflowCondition.CiStatus new_status));
        match u with
        | Err _ => mret (to_ci_status_const (Workflow.ci_status workflow))
        | Ok _ =>
            match ci_event new_status with
            | Some event => emit_workflow_event_at (Workflow.id workflow) event ci_completed_at
            | None => mret tt
            end ;;
            mret new_status
        end
  end.

Definition poll_mergeable_condition (ticket_id : string) (workflow : Workflow.t) (gh_repo : string)
    (pr_number : Z) : run string :=
  new_status ← map_err Anyhow (external (GhBackend.check_mergeable gh_repo pr_number));
  if bool_decide (new_status = Workflow.mergeable workflow) then mret new_status
  else
    u ← attempt (workflows (update_workflow_condition ticket_id WorkflowCondition.Mergeable new_status));
    match u with
    | Err _ => mret (to_mergeable_const (Workflow.mergeable workflow))
    | Ok _ =>
        (if bool_decide (new_status = mergeable.CONFLICT)
         then emit_workflow_event (Workflow.id workflow) WorkflowEvent.MergeConflictDetected
         else mret tt) ;;
        mret new_status
    end.

(** The status a review signal asks for. *)
Definition status_of_signal (signal : ReviewSignal.t) : option string :=
  match signal with
  | ReviewSignal.Approve => Some review_status.APPROVED
  | ReviewSignal.RequestChanges => Some review_status.CHANGES_REQUESTED
  | ReviewSignal.Merged | ReviewSignal.Closed | ReviewSignal.Pending => None
  end.
Definition review_event (new_status : string) : option WorkflowEvent :=
  if bool_decide (new_status = review_status.APPROVED) then Some WorkflowEvent.ReviewApproved
  else if bool_decide (new_status = review_status.CHANGES_REQUESTED)
       then Some WorkflowEvent.ReviewChangesRequested
  else None.

Definition poll_review_condition (ticket_id : string) (workflow : Workflow.t) (gh_repo : string)
    (pr_number : Z) : run ReviewResult :=
  let current_status := to_review_status_const (Workflow.review_status workflow) in
  seen ← attempt (workflows (get_seen_comment_ids ticket_id));
  match seen with
  | Err _ => mret (mkReview current_status ReviewSignal.Pending 0)
  | Ok seen_comment_ids =>
      r ← attempt (external (check_review_signal gh_repo pr_number seen_comment_ids));
      match r with
      | Err _ => mret (mkReview current_status ReviewSignal.Pending 0)
      | Ok result =>
          let unchanged := mkReview current_status (check_signal result) (check_unseen result) in
          match status_of_signal (check_signal result) with
          | None => mret unchanged
          | Some new_status =>
              let updated := mkReview new_status (check_signal result) (check_unseen result) in
              if bool_decide (new_status = Workflow.review_status workflow) then mret updated
              else
                u ← attempt (workflows
                      (update_workflow_condition ticket_id WorkflowCondition.ReviewStatus new_status));
                match u with
                | Err _ => mret unchanged
                | Ok _ =>
                    match review_event new_status with
                    | Some event => emit_workflow_event (Workflow.id workflow) event
                    | None => mret tt
                    end ;;
                    mret updated
                end
          end
      end
  end.

(** ** Transitions *)

(** A closed channel is only logged. *)
Definition send_transition (ticket_id : string) (to : LifecycleStatus) : run unit :=
  ignore_err (send "" ticket_id to).

Definition set_feedback_mode_and_transition (ticket_id feedback_mode : string) (target : LifecycleStatus)
    : run unit :=
  r ← attempt (workflows (set_workflow_feedback_mode ticket_id feedback_mode));
  match r with
  | Err _ => mret tt
  | Ok _ => send_transition ticket_id target
  end.

Definition comment_ids (comments : list ConversationComment.t) : list string :=
  (λ c, pretty (ConversationComment.id c)) <$> comments.
Definition record_comments_and_transition (ticket_id gh_repo : string) (pr_number : Z)
    (feedback_mode : string) (target : LifecycleStatus) : run unit :=
  r ← attempt (external (GhBackend.get_conversation_comments gh_repo pr_number));
  let ids := match r with Ok comments => comment_ids comments | Err _ => [] end in
  ignore_err (workflows (insert_workflow_comments ticket_id ids)) ;;
  set_feedback_mode_and_transition ticket_id feedback_mode target.

Definition count_unseen_comments (ticket_id gh_repo : string) (pr_number : Z) : run nat :=
  seen ← attempt (workflows (get_seen_comment_ids ticket_id));
  match seen with
  | Err _ => mret 0
  | Ok seen_ids =>
      r ← attempt (external (GhBackend.get_conversation_comments gh_repo pr_number));
      mret match r with
           | Ok comments => length (unseen_comments comments seen_ids)
           | Err _ => 0
           end
  end.

(** Merging when there is nothing to address but the approval itself. *)
Definition merge_or_feedback (ticket_id gh_repo : string) (pr_number : Z) (unseen : nat) : run unit :=
  record_comments_and_transition ticket_id gh_repo pr_number feedback_mode.LATER
    (if unseen <=? 1 then LifecycleStatus.Merging else LifecycleStatus.AddressingFeedback).

Definition handle_manual_merge (ticket_id workflow_id gh_repo : string) (pr_number : Z) : run unit :=
  for_each (λ cv, ignore_err (workflows (update_workflow_condition ticket_id cv.1 cv.2)))
    [(WorkflowCondition.ReviewStatus, review_status.APPROVED);
     (WorkflowCondition.CiStatus, ci_status.SUCCEEDED);
     (WorkflowCondition.Mergeable, mergeable.MERGEABLE)] ;;
  emit_workflow_event workflow_id WorkflowEvent.ReviewApproved ;;
  unseen ← count_unseen_comments ticket_id gh_repo pr_number;
  merge_or_feedback ticket_id gh_repo pr_number unseen.

Definition cancel_workflow_and_revert (ticket_id : string) : run unit :=
  r ← attempt (workflows (get_workflow_by_ticket ticket_id));
  let worker_id := match r with Ok (Some wf) => Workflow.worker_id wf | _ => "" end in
  u ← attempt (workflows (update_workflow_status ticket_id LifecycleStatus.Cancelled));
  match u with
  | Err _ => mret tt
  | Ok _ =>
      (if bool_decide (worker_id = "") then mret tt else ignore_err (stop_by_worker_id worker_id)) ;;
      ignore_err (tickets (update_ticket ticket_id (TicketUpdate.of_status "open")))
  end.

Definition evaluate_transition (ticket_id workflow_id gh_repo : string) (pr_number : Z)
    (ci mg : string) (review : ReviewResult) (has_failures : bool) : run unit :=
  match signal review with
  | ReviewSignal.Merged => handle_manual_merge ticket_id workflow_id gh_repo pr_number
  | ReviewSignal.Closed => cancel_workflow_and_revert ticket_id
  | _ =>
      if bool_decide (status review = review_status.CHANGES_REQUESTED) then
        ignore_err (workflows (reset_implement_cycles ticket_id)) ;;
        record_comments_and_transition ticket_id gh_repo pr_number feedback_mode.NOW
          LifecycleStatus.AddressingFeedback
      else if has_failures then send_transition ticket_id LifecycleStatus.Implementing
      else if bool_decide (status review = review_status.APPROVED)
              && bool_decide (ci = ci_status.SUCCEEDED) && bool_decide (mg = mergeable.MERGEABLE)
      then merge_or_feedback ticket_id gh_repo pr_number (unseen_count review)
      else mret tt
  end.

Definition create_issue_tickets_and_evaluate (ticket_id workflow_id gh_repo : string) (pr_number : Z)
    (ignored : list string) (ci mg : string) (review : ReviewResult) : run unit :=
  let ci_failed := bool_decide (ci = ci_status.FAILED) in
  let conflict := bool_decide (mg = mergeable.CONFLICT) in
  (if ci_failed then
     failing ← map_err Anyhow (external (collect_failing_checks gh_repo pr_number ignored));
     log_error (create_workflow_issue_ticket ticket_id CI_FAILURE
       ("CI failure on PR #" +:+ pretty pr_number) failing)
   else mret tt) ;;
  (if conflict then
     log_error (create_workflow_issue_ticket ticket_id MERGE_CONFLICT
       ("Merge conflict on PR #" +:+ pretty pr_number)
       "The PR has merge conflicts that must be resolved.")
   else mret tt) ;;
  evaluate_transition ticket_id workflow_id gh_repo pr_number ci mg review (ci_failed || conflict).

(** ** A cycle *)

Definition extract_pr_context (meta : gmap string string) : option (Z * string) :=
  match meta !! "pr_number" with
  | None => None
  | Some pr =>
      match parse_i64 pr with
      | Err _ => None
      | Ok pr_number => (λ r, (pr_number, r)) <$> meta !! "gh_repo"
      end
  end.

Definition ignored_checks (project : string) : list string :=
  match Config.projects config !! project with
  | Some p => ProjectConfig.ignored_workflow_checks p
  | None => []
  end.

Definition check_in_review_ticket (ticket : Ticket.t) : run unit :=
  let ticket_id := Ticket.id ticket in
  m ← attempt (tickets (get_meta ticket_id "ticket"));
  match m with
  | Err _ => mret tt
  | Ok meta =>
      match extract_pr_context meta with
      | None => mret tt
      | Some (pr_number, gh_repo) =>
          if bool_decide (is_Some (meta !! "autoapprove")) then
            set_feedback_mode_and_transition ticket_id feedback_mode.LATER LifecycleStatus.AddressingFeedback
          else
            w ← attempt (workflows (get_workflow_by_ticket ticket_id));
            match w with
            | Ok (Some workflow) =>
                let ignored := ignored_checks (Ticket.project ticket) in
                ci ← poll_ci_condition ticket_id workflow gh_repo pr_number ignored;
                mg ← poll_mergeable_condition ticket_id workflow gh_repo pr_number;
                review ← poll_review_condition ticket_id workflow gh_repo pr_number;
                create_issue_tickets_and_evaluate ticket_id (Workflow.id workflow) gh_repo pr_number
                  ignored ci mg review
            | _ => mret tt
            end
      end
  end.

Definition check_in_review_tickets (ticket_ids : list string) : run unit :=
  r ← attempt (tickets (get_tickets_by_ids ticket_ids));
  match r with
  | Err _ => mret tt
  | Ok ts => for_each check_in_review_ticket ts
  end.

(** ** Replies *)

Definition group_pending_replies (pending : list TicketComment.t)
    : gmap (string * Z * string) (list string) :=
  foldl (λ grouped row,
    let k := (TicketComment.gh_repo row, TicketComment.pr_number row, TicketComment.comment_id row) in
    <[k := default [] (grouped !! k) ++ [TicketComment.ticket_id row]]> grouped) ∅ pending.

Definition build_reply_body (ticket_ids : list string) : string :=
  match ticket_ids with
  | [i] => "Tracking in `" +:+ i +:+ "`"
  | _ => "Tracking in " +:+ join ", " ((λ i, "`" +:+ i +:+ "`") <$> ticket_ids)
  end.

(** A reply to a review comment; a comment of the conversation is answered by a
    comment of its own. *)
Definition post_reply_with_fallback (gh_repo : string) (pr_number comment_id : Z) (body : string)
    : SE host string unit :=
  r ← attempt (GhBackend.reply_bot_comment gh_repo pr_number comment_id body);
  match r with
  | Ok _ => mret tt
  | Err e =>
      if contains "HTTP 404" e || contains "not found" e
      then GhBackend.post_issue_comment gh_repo pr_number ("🤖 " +:+ body) ;; mret tt
      else throw e
  end.

Definition mark_replies_posted (comment_id : string) (ticket_ids : list string) : run unit :=
  for_each (λ ticket_id, ignore_err (tickets (mark_reply_posted comment_id ticket_id))) ticket_ids.

Definition post_group (g : (string * Z * string) * list string) : run unit :=
  let '((gh_repo, pr_number, comment_id), ticket_ids) := g in
  match parse_i64 comment_id with
  | Err _ => mret tt
  | Ok comment_id_i64 =>
      r ← attempt (external
            (post_reply_with_fallback gh_repo pr_number comment_id_i64 (build_reply_body ticket_ids)));
      match r with
      | Err _ => mret tt
      | Ok _ => mark_replies_posted comment_id ticket_ids
      end
  end.

(** The order in which a [HashMap] is iterated. *)
Context (iter_order : gmap (string * Z * string) (list string) → list ((string * Z * string) * list string)).

Definition scan_pending_replies : run unit :=
  r ← attempt (tickets get_pending_replies);
  match r with
  | Err _ => mret tt
  | Ok [] => mret tt
  | Ok pending => for_each post_group (iter_order (group_pending_replies pending))
  end.

(** [poll_once] *)
Definition poll_reviews : run unit :=
  r ← attempt (workflows (ticket_ids_by_workflow_status LifecycleStatus.InReview));
  match r with
  | Err _ => mret tt
  | Ok ticket_ids =>
      (if bool_decide (ticket_ids = []) then mret tt else check_in_review_tickets ticket_ids) ;;
      scan_pending_replies
  end.
End Poller.
