(* ===== verification/PollerProps.v ===== *)
(** * Properties of the GitHub poller

    The verdict on check runs, the transitions a review asks for, and that a
    comment is acted upon once. *)

From S2P Require Import Prelude RustStd Model Env TicketDb TicketGraph TicketRepo TicketUpdates.
From S2P Require Import WorkflowDb WorkflowRepo WorkerRepo WorkflowProps Context Host Backends.
From S2P Require Import HandlerLib HandlerRules GithubPoller TestWorld.
From Stdlib Require Import Ascii Lia.
Local Open Scope stdpp_scope.

(** ** Databases without failures *)

Section Healthy.
Context {HO : Host} (t i : string).

(** The ticket has one active workflow, the row [r] under the key [i]. *)
Record row_is (d : pool wtables) (r : WorkflowRow.t) : Prop := RowIs {
  row_faults : faults d = [];
  row_found : WorkflowTables.workflow (tables d) !! i = Some r;
  row_active : active_for t r = true;
  row_unique : ∀ j r', WorkflowTables.workflow (tables d) !! j = Some r' → active_for t r' = true → j = i
}.
Definition at_row (q : list TransitionRequest.t) (r : WorkflowRow.t) (x : ctx host) : Prop :=
  row_is (workflow_db x) r ∧ channel x = (q, true).

(** What leaves the workflow table alone and no failure behind. *)
Definition keeps_rows {A} (o : wdb A) : Prop :=
  ∀ m, preserves (λ d, faults d = [] ∧ WorkflowTables.workflow (tables d) = m) o.

Lemma keeps_statement {A} (f : wtables → result (A * wtables) sqlx_error) :
  (∀ s a s', f s = Ok (a, s') → WorkflowTables.workflow s' = WorkflowTables.workflow s) →
  keeps_rows (statement f).
Proof.
  intros Hf m [s fs n] [Hfs Hm]. simpl in *. subst. rewrite run_statement.
  destruct (f s) as [[a s']|e] eqn:E; [|done]. simpl. split; [done|]. by eapply Hf.
Qed.
Lemma keeps_select {A} (f : wtables → A) : keeps_rows (select f).
Proof. apply keeps_statement. by intros s a s' [= _ <-]. Qed.
Lemma keeps_update f :
  (∀ s, WorkflowTables.workflow (f s) = WorkflowTables.workflow s) → keeps_rows (update_stmt f).
Proof. intros Hf. apply keeps_statement. intros s a s' [= _ <-]. apply Hf. Qed.
Lemma keeps_tick {E} m : preserves (λ d, faults d = [] ∧ WorkflowTables.workflow (tables d) = m)
  (tick : SE (pool wtables) E nat).
Proof. by intros [s fs n]. Qed.

Lemma keeps_row_is {A} (o : wdb A) d r : keeps_rows o → row_is d r → row_is (o d).2 r.
Proof.
  intros Ho [Hf Hi Ha Hu]. destruct (Ho _ d (conj Hf eq_refl)) as [Hf' Hm].
  split; [done|by rewrite Hm|done|]. intros j r'. rewrite Hm. apply Hu.
Qed.

(** Triples of the calls. *)
Lemma triple_keep {A} q r (o : wdb A) :
  keeps_rows o → triple (at_row q r) (ignore_err (workflows o) : SE (ctx host) anyhow unit)
    (λ _, at_row q r) (λ _ _, False).
Proof.
  intros Ho [a d h q' b] [Hr [= -> ->]]. simpl in *. rewrite run_ignore_err, run_workflows. simpl.
  split; [by apply keeps_row_is|done].
Qed.
Lemma triple_keep_attempt {A} q r (o : wdb A) :
  keeps_rows o → triple (at_row q r) (attempt (workflows o) : SE (ctx host) anyhow _)
    (λ _, at_row q r) (λ _ _, False).
Proof.
  intros Ho [a d h q' b] [Hr [= -> ->]]. simpl in *. rewrite run_attempt, run_workflows. simpl.
  split; [by apply keeps_row_is|done].
Qed.
Lemma triple_external_attempt {A} q r (m : SE host string A) :
  triple (at_row q r) (attempt (external m) : SE (ctx host) anyhow _)
    (λ _, at_row q r) (λ _ _, False).
Proof. intros [a d h q' b] Hx. rewrite run_attempt, run_external. exact Hx. Qed.
Lemma triple_tickets_attempt {A} q r (m : db A) :
  triple (at_row q r) (attempt (tickets m) : SE (ctx host) anyhow _)
    (λ _, at_row q r) (λ _ _, False).
Proof. intros [a d h q' b] Hx. rewrite run_attempt, run_tickets. exact Hx. Qed.

(** An update of the active workflows that leaves them active. *)
Lemma row_is_update f d r :
  (∀ x, active_for t (f x) = active_for t x) → row_is d r →
  row_is (update_active t f d).2 (f r) ∧ (update_active t f d).1 = Ok tt.
Proof.
  intros Hf [Hfs Hi Ha Hu]. destruct d as [s fs n]. simpl in *. subst fs. unfold update_active.
  rewrite run_update_stmt. split; [|done]. split; simpl; [done|..].
  - rewrite lookup_update_where, Hi. simpl. by rewrite Ha.
  - by rewrite Hf.
  - intros j r' Hj Hr'. rewrite lookup_update_where in Hj.
    apply fmap_Some in Hj as (r0 & Hr0 & ->). apply (Hu j r0 Hr0).
    destruct (active_for t r0) eqn:E; [done|congruence].
Qed.
Lemma triple_update_attempt q r f :
  (∀ x, active_for t (f x) = active_for t x) →
  triple (at_row q r) (attempt (workflows (update_active t f)) : SE (ctx host) anyhow _)
    (λ u x, at_row q (f r) x ∧ u = Ok tt) (λ _ _, False).
Proof.
  intros Hf [a d h q' b] [Hr [= -> ->]]. rewrite run_attempt, run_workflows. simpl in *.
  by destruct (row_is_update f d r Hf Hr).
Qed.
Lemma triple_update_ignore q r f :
  (∀ x, active_for t (f x) = active_for t x) →
  triple (at_row q r) (ignore_err (workflows (update_active t f)) : SE (ctx host) anyhow _)
    (λ _, at_row q (f r)) (λ _ _, False).
Proof.
  intros Hf [a d h q' b] [Hr [= -> ->]]. rewrite run_ignore_err, run_workflows. simpl in *.
  by destruct (row_is_update f d r Hf Hr).
Qed.
Lemma triple_get_workflow q r :
  triple (at_row q r) (attempt (workflows (get_workflow_by_ticket t)) : SE (ctx host) anyhow _)
    (λ o x, at_row q r x ∧ o = Ok (Some (row_to_workflow r))) (λ _ _, False).
Proof.
  intros [a [s fs n] h q' b] [[Hfs Hi Ha Hu] [= -> ->]]. simpl in *. subst fs.
  rewrite run_attempt, run_workflows. cbn [workflow_db].
  destruct (get_workflow_by_ticket_spec s t n) as (o & Hrun & Hnone & Hsome). rewrite Hrun. simpl.
  split; [by split|]. destruct o as [wf|].
  - destruct (Hsome wf eq_refl) as (j & r' & Hj & Hr' & ->).
    pose proof (Hu j r' Hj Hr') as ->. by simplify_eq.
  - destruct Hnone as [Hnone _]. rewrite (Hnone eq_refl i r Hi) in Ha. done.
Qed.
End Healthy.

(** ** The poll of one ticket *)

Section Poll.
Context {HE : Env} {HO : Host} {HM : WorkflowServices} (config : Config.t) (t i : string).
Abbreviation run A := (SE (ctx host) anyhow A).
Abbreviation row := WorkflowRow.t.

Lemma keeps_bind {A B} (m : wdb A) (k : A → wdb B) : keeps_rows m → (∀ a, keeps_rows (k a)) → keeps_rows (m ≫= k).
Proof. intros Hm Hk x. apply preserves_bind; [apply Hm|]. intros a. apply Hk. Qed.
Lemma keeps_draw {A} (f : nat → A) : keeps_rows (n ← tick; mret (f n)).
Proof. intros m. apply preserves_bind; [apply keeps_tick|]. intros n. apply preserves_ret. Qed.
Lemma keeps_history j w e c : keeps_rows (insert_history j w e c).
Proof.
  apply keeps_statement. intros s a s' Hs. destruct (insert_row _ _ _); [|done].
  case_decide; by simplify_eq.
Qed.
Lemma keeps_event w e : keeps_rows (insert_workflow_event w e).
Proof.
  apply keeps_bind; [apply keeps_draw|intros j]. apply keeps_bind; [apply keeps_draw|intros now].
  apply keeps_history.
Qed.
Lemma keeps_event_at w e c : keeps_rows (insert_workflow_event_at w e c).
Proof. apply keeps_bind; [apply keeps_draw|intros j]. apply keeps_history. Qed.
Lemma keeps_comments ids : keeps_rows (insert_workflow_comments t ids).
Proof.
  intros m. apply preserves_for_each. intros c. apply (keeps_bind (A:=string)); [apply keeps_draw|intros now].
  apply keeps_update. intros s. by case_match.
Qed.

(** An active row stays active when another column changes. *)
Lemma condition_active c v (x : row) : active_for t (WorkflowRow.set_condition c v x) = active_for t x.
Proof. by destruct c. Qed.

Definition same_but_ci (r r' : row) : Prop :=
  WorkflowRow.mergeable r' = WorkflowRow.mergeable r ∧ WorkflowRow.review_status r' = WorkflowRow.review_status r.
Definition same_but_mergeable (r r' : row) : Prop :=
  WorkflowRow.ci_status r' = WorkflowRow.ci_status r ∧ WorkflowRow.review_status r' = WorkflowRow.review_status r.
Definition same_but_review (r r' : row) : Prop :=
  WorkflowRow.ci_status r' = WorkflowRow.ci_status r ∧ WorkflowRow.mergeable r' = WorkflowRow.mergeable r.

(** A constant other than the default is the stored value. *)
Lemma ci_const v : to_ci_status_const v = ci_status.SUCCEEDED → v = ci_status.SUCCEEDED.
Proof. unfold to_ci_status_const. repeat case_bool_decide; by intros. Qed.
Lemma mergeable_const v : to_mergeable_const v = mergeable.MERGEABLE → v = mergeable.MERGEABLE.
Proof. unfold to_mergeable_const. repeat case_bool_decide; by intros. Qed.
Lemma review_const v : to_review_status_const v = review_status.APPROVED → v = review_status.APPROVED.
Proof. unfold to_review_status_const. repeat case_bool_decide; by intros. Qed.

Lemma triple_emit q r w e : triple (at_row t i q r) (emit_workflow_event w e) (λ _, at_row t i q r) (λ _ _, False).
Proof. apply triple_keep, keeps_event. Qed.
Lemma triple_emit_at q r w e c :
  triple (at_row t i q r) (emit_workflow_event_at w e c) (λ _, at_row t i q r) (λ _ _, False).
Proof. apply triple_keep. case_bool_decide; [apply keeps_event|apply keeps_event_at]. Qed.

(** Sequencing where nothing is learnt. *)
Lemma triple_seq {S E A B} (P P' : S → Prop) (m : SE S E A) (k : A → SE S E B) (Q : B → S → Prop) (R : E → S → Prop) :
  triple P m (λ _, P') (λ _ _, False) → (∀ a, triple P' (k a) Q R) → triple P (m ≫= k) Q R.
Proof.
  intros Hm Hk. eapply (triple_bind _ P' (λ _, True)); [|by intros a _].
  eapply triple_conseq; [exact Hm|by split|done].
Qed.
Lemma triple_learn {S E A B} (P P' : S → Prop) (φ : A → Prop) (m : SE S E A) (k : A → SE S E B)
    (Q : B → S → Prop) (R : E → S → Prop) :
  triple P m (λ a s, P' s ∧ φ a) (λ _ _, False) → (∀ a, φ a → triple P' (k a) Q R) → triple P (m ≫= k) Q R.
Proof. intros Hm. apply triple_bind. by eapply triple_conseq; [exact Hm|..]. Qed.

(** A step that establishes an assertion about some [x]. *)
Lemma triple_exists {S E A B X} (P : S → Prop) (P' : X → S → Prop) (φ : A → X → Prop) (m : SE S E A)
    (k : A → SE S E B) (Q : B → S → Prop) (R : E → S → Prop) :
  triple P m (λ a s, ∃ x, P' x s ∧ φ a x) R → (∀ a x, φ a x → triple (P' x) (k a) Q R) → triple P (m ≫= k) Q R.
Proof.
  intros Hm Hk s Hs. rewrite run_bind. specialize (Hm s Hs).
  destruct (m s) as [[a|e] s']; [|done]. destruct Hm as (x & Hs' & Ha). by apply (Hk a x Ha).
Qed.

Definition polled (same : row → row → Prop) (get : row → string) (good : string)
    (q : list TransitionRequest.t) (r : row) (v : string) (x : ctx host) : Prop :=
  ∃ r', at_row t i q r' x ∧ same r r' ∧ (v = good → get r' = good).

Lemma triple_poll_ci q r wf repo pr ignored :
  Workflow.ci_status wf = WorkflowRow.ci_status r →
  triple (at_row t i q r) (poll_ci_condition t wf repo pr ignored)
    (polled same_but_ci WorkflowRow.ci_status ci_status.SUCCEEDED q r) (λ _ _, False).
Proof.
  intros Hwf. unfold poll_ci_condition. rewrite Hwf. eapply triple_seq; [apply triple_external_attempt|intros [[v at_]|e]].
  2: { apply triple_ret. intros x Hx. exists r. split; [done|]. split; [done|]. apply ci_const. }
  case_bool_decide as Heq.
  { apply triple_ret. intros x Hx. exists r. split; [done|]. split; [done|]. by intros <-. }
  eapply triple_learn; [apply (triple_update_attempt t i q r), condition_active|intros u ->].
  eapply triple_seq; [|intros _; apply triple_ret].
  - destruct (ci_event v); [apply triple_emit_at|by apply triple_ret].
  - intros x Hx. exists (WorkflowRow.set_condition WorkflowCondition.CiStatus v r). by split.
Qed.

Lemma triple_poll_mergeable q r wf repo pr :
  Workflow.mergeable wf = WorkflowRow.mergeable r →
  triple (at_row t i q r) (poll_mergeable_condition t wf repo pr)
    (polled same_but_mergeable WorkflowRow.mergeable mergeable.MERGEABLE q r) (λ _, at_row t i q r).
Proof.
  intros Hwf. unfold poll_mergeable_condition. rewrite Hwf. eapply (triple_bind _ (at_row t i q r) (λ _, True)).
  { intros [a d h q' b] Hx. rewrite run_map_err, run_external.
    by destruct (GhBackend.check_mergeable repo pr h) as [[]]. }
  intros v _. case_bool_decide as Heq.
  { apply triple_ret. intros x Hx. exists r. split; [done|]. split; [done|]. by intros <-. }
  eapply triple_learn; [apply (triple_update_attempt t i q r), condition_active|intros u ->].
  eapply triple_seq; [|intros _; apply triple_ret].
  - case_bool_decide; [apply triple_emit|by apply triple_ret].
  - intros x Hx. exists (WorkflowRow.set_condition WorkflowCondition.Mergeable v r). by split.
Qed.

Lemma triple_poll_review q r wf repo pr :
  Workflow.review_status wf = WorkflowRow.review_status r →
  triple (at_row t i q r) (poll_review_condition t wf repo pr)
    (λ v x, polled same_but_review WorkflowRow.review_status review_status.APPROVED q r (status v) x)
    (λ _ _, False).
Proof.
  assert (∀ sg n x, at_row t i q r x → polled same_but_review WorkflowRow.review_status review_status.APPROVED
    q r (status (mkReview (to_review_status_const (WorkflowRow.review_status r)) sg n)) x) as Hsame.
  { intros sg n x Hx. exists r. split; [done|]. split; [done|]. apply review_const. }
  intros Hwf. unfold poll_review_condition. rewrite Hwf. eapply triple_seq; [apply triple_keep_attempt, keeps_select|intros [seen|e]].
  2: { apply triple_ret, Hsame. }
  eapply triple_seq; [apply triple_external_attempt|intros [result|e]]; [|apply triple_ret, Hsame].
  destruct (status_of_signal _) as [v|]; [|apply triple_ret, Hsame].
  case_bool_decide as Heq.
  { apply triple_ret. intros x Hx. exists r. split; [done|]. split; [done|]. simpl. by intros <-. }
  eapply triple_learn; [apply (triple_update_attempt t i q r), condition_active|intros u ->].
  eapply triple_seq; [|intros _; apply triple_ret].
  - destruct (review_event v); [apply triple_emit|by apply triple_ret].
  - intros x Hx. exists (WorkflowRow.set_condition WorkflowCondition.ReviewStatus v r). by split.
Qed.

(** ** The transition asked for *)

(** The conditions the merge handler checks. *)
Definition all_green (r : row) : Prop :=
  WorkflowRow.ci_status r = ci_status.SUCCEEDED ∧ WorkflowRow.mergeable r = mergeable.MERGEABLE
  ∧ WorkflowRow.review_status r = review_status.APPROVED.
Definition green (x : ctx host) : Prop := ∃ r, row_is t i (workflow_db x) r ∧ all_green r.

(** At most one transition was asked for; merging only when all is green. *)
Definition asked (q : list TransitionRequest.t) (x : ctx host) : Prop :=
  sent x = q ∨ ∃ target,
    sent x = q ++ [TransitionRequest.mk t target]
    ∧ target ∈ [LifecycleStatus.Implementing; LifecycleStatus.AddressingFeedback; LifecycleStatus.Merging]
    ∧ (target = LifecycleStatus.Merging → green x).
Definition unasked (q : list TransitionRequest.t) (e : anyhow) (x : ctx host) : Prop := asked q x.

Lemma asked_none q r x : at_row t i q r x → asked q x.
Proof. intros [_ [= Hs _]]. by left. Qed.

Lemma triple_send q r target :
  target ∈ [LifecycleStatus.Implementing; LifecycleStatus.AddressingFeedback; LifecycleStatus.Merging] →
  (target = LifecycleStatus.Merging → all_green r) →
  triple (at_row t i q r) (send_transition t target) (λ _, asked q) (λ _ _, False).
Proof.
  intros Hin Hgreen [a d h q' b] [Hr [= -> ->]]. unfold send_transition. rewrite run_ignore_err, run_send.
  right. exists target. split_and!; [done|done|]. intros Hm. exists r. split; [exact Hr|auto].
Qed.

(** Columns other than the conditions. *)
Definition keeps_green (f : row → row) : Prop :=
  (∀ x, active_for t (f x) = active_for t x) ∧ (∀ x, all_green x → all_green (f x)).

Lemma triple_set_feedback q r mode target :
  target ∈ [LifecycleStatus.Implementing; LifecycleStatus.AddressingFeedback; LifecycleStatus.Merging] →
  (target = LifecycleStatus.Merging → all_green r) →
  triple (at_row t i q r) (set_feedback_mode_and_transition t mode target) (λ _, asked q) (λ _ _, False).
Proof.
  intros Hin Hgreen. unfold set_feedback_mode_and_transition.
  eapply triple_learn; [by apply (triple_update_attempt t i q r)|intros u ->].
  by apply triple_send.
Qed.

Lemma triple_record q r repo pr mode target :
  target ∈ [LifecycleStatus.Implementing; LifecycleStatus.AddressingFeedback; LifecycleStatus.Merging] →
  (target = LifecycleStatus.Merging → all_green r) →
  triple (at_row t i q r) (record_comments_and_transition t repo pr mode target) (λ _, asked q) (λ _ _, False).
Proof.
  intros Hin Hgreen. unfold record_comments_and_transition.
  eapply triple_seq; [apply triple_external_attempt|intros rc].
  eapply triple_seq; [apply triple_keep, keeps_comments|intros _]. by apply triple_set_feedback.
Qed.

Lemma triple_merge_or_feedback q r repo pr n :
  all_green r → triple (at_row t i q r) (merge_or_feedback t repo pr n) (λ _, asked q) (λ _ _, False).
Proof. intros Hr. apply triple_record; [destruct (n <=? 1); set_solver|done]. Qed.

Lemma triple_manual_merge q r w repo pr :
  triple (at_row t i q r) (handle_manual_merge t w repo pr) (λ _, asked q) (λ _ _, False).
Proof.
  unfold handle_manual_merge.
  set (r' := WorkflowRow.set_condition WorkflowCondition.Mergeable mergeable.MERGEABLE
    (WorkflowRow.set_condition WorkflowCondition.CiStatus ci_status.SUCCEEDED
      (WorkflowRow.set_condition WorkflowCondition.ReviewStatus review_status.APPROVED r))).
  assert (all_green r') as Hgreen by done. apply (triple_seq _ (at_row t i q r')).
  - cbn [for_each fst snd]. do 3 (eapply triple_seq; [apply triple_update_ignore, condition_active|intros _]).
    by apply triple_ret.
  - intros _. eapply triple_seq; [apply triple_emit|intros _].
    apply (triple_seq _ (at_row t i q r')); [|intros n; by apply triple_merge_or_feedback].
    unfold count_unseen_comments. eapply triple_seq; [apply triple_keep_attempt, keeps_select|intros [seen|e]].
    + eapply triple_seq; [apply triple_external_attempt|intros rc]. by apply triple_ret.
    + by apply triple_ret.
Qed.

Context {HL : LawfulServices}.

Lemma at_row_leaves q r x y : leaves_workflows x y → at_row t i q r x → at_row t i q r y.
Proof.
  intros [Hrows _ Hf [Hs Hr]] [[Hf' Hi Ha Hu] [= Hs' Hr']]. split.
  - split; [by apply Hf|by rewrite Hrows|done|]. intros j r'. rewrite Hrows. apply Hu.
  - unfold channel. by rewrite Hs, Hr, Hs', Hr'.
Qed.
Lemma services_at_row q r k title body :
  preserves (at_row t i q r) (create_workflow_issue_ticket t k title body).
Proof. intros x. apply at_row_leaves, issue_leaves. Qed.
Lemma stop_channel w q : preserves (λ x, channel x = (q, true)) (stop_by_worker_id w).
Proof. intros x. destruct (leaves_channel _ _ (stop_leaves w x)) as [Hs Hr]. unfold channel. by rewrite Hs, Hr. Qed.

Lemma triple_cancel q r :
  triple (at_row t i q r) (cancel_workflow_and_revert t) (λ _, asked q) (λ _, asked q).
Proof.
  eapply (triple_conseq _ _ (λ _ x, channel x = (q, true)) _ (λ _ x, channel x = (q, true)));
    [|intros ? x [= Hs _]; by left|intros ? x [= Hs _]; by left].
  apply triple_preserves; [|by intros x [_ ?]].
  assert (∀ A (m : wdb A), preserves (λ x : ctx host, channel x = (q, true)) (workflows m)) as Hw.
  { intros A m [a d h q' b] Hx. by rewrite run_workflows. }
  assert (∀ A (m : db A), preserves (λ x : ctx host, channel x = (q, true)) (tickets m)) as Ht.
  { intros A m [a d h q' b] Hx. by rewrite run_tickets. }
  unfold cancel_workflow_and_revert. apply preserves_bind; [apply preserves_attempt, Hw|intros o].
  apply preserves_bind; [apply preserves_attempt, Hw|intros [u|e]]; [|apply preserves_ret].
  apply preserves_bind; [|intros _; apply preserves_ignore_err, Ht].
  case_bool_decide; [apply preserves_ret|apply preserves_ignore_err, stop_channel].
Qed.

Lemma triple_evaluate q r w repo pr ci mg review failures :
  (status review = review_status.APPROVED → WorkflowRow.review_status r = review_status.APPROVED) →
  (ci = ci_status.SUCCEEDED → WorkflowRow.ci_status r = ci_status.SUCCEEDED) →
  (mg = mergeable.MERGEABLE → WorkflowRow.mergeable r = mergeable.MERGEABLE) →
  triple (at_row t i q r) (evaluate_transition t w repo pr ci mg review failures) (λ _, asked q) (λ _, asked q).
Proof.
  intros Hrv Hci Hmg. assert (∀ (m : run unit),
    triple (at_row t i q r) m (λ _, asked q) (λ _ _, False) → triple (at_row t i q r) m (λ _, asked q) (λ _, asked q))
    as Hsure by (intros m Hm; by eapply triple_conseq; [exact Hm|..]).
  unfold evaluate_transition.
  assert (triple (at_row t i q r)
    (if bool_decide (status review = review_status.CHANGES_REQUESTED) then
       ignore_err (workflows (reset_implement_cycles t)) ;;
       record_comments_and_transition t repo pr feedback_mode.NOW LifecycleStatus.AddressingFeedback
     else if failures : bool then send_transition t LifecycleStatus.Implementing
     else if bool_decide (status review = review_status.APPROVED)
             && bool_decide (ci = ci_status.SUCCEEDED) && bool_decide (mg = mergeable.MERGEABLE)
     then merge_or_feedback t repo pr (unseen_count review) else mret tt)
    (λ _, asked q) (λ _ _, False)) as Hrest.
  { case_bool_decide.
    - eapply triple_seq; [by apply triple_update_ignore|intros _]. apply triple_record; [set_solver|done].
    - destruct failures; [apply triple_send; [set_solver|done]|].
      destruct (bool_decide _ && _ && _) eqn:E; [|apply triple_ret, asked_none].
      rewrite !andb_true_iff, !bool_decide_eq_true in E. destruct E as [[? ?] ?].
      apply triple_merge_or_feedback. split_and!; auto. }
  destruct (signal review); auto.
  - apply Hsure, triple_manual_merge.
  - apply triple_cancel.
Qed.

Lemma triple_log_issue q r k title body :
  triple (at_row t i q r) (log_error (create_workflow_issue_ticket t k title body))
    (λ _, at_row t i q r) (λ _, asked q).
Proof.
  eapply triple_conseq; [apply (triple_preserves _ _ (at_row t i q r))|done|intros ? x; apply asked_none].
  - unfold log_error. apply preserves_bind; [apply preserves_attempt, services_at_row|intros a].
    repeat case_match; first [apply preserves_ret|apply preserves_throw].
  - done.
Qed.

Lemma triple_check ticket q r :
  Ticket.id ticket = t →
  triple (at_row t i q r) (check_in_review_ticket config ticket) (λ _, asked q) (λ _, asked q).
Proof.
  intros Ht. unfold check_in_review_ticket. rewrite Ht. cbn zeta.
  assert (∀ m : run unit, triple (at_row t i q r) m (λ _, asked q) (λ _ _, False) →
    triple (at_row t i q r) m (λ _, asked q) (λ _, asked q)) as Hsure
    by (intros m Hm; by eapply triple_conseq; [exact Hm|..]).
  assert (triple (at_row t i q r) (mret tt : run unit) (λ _, asked q) (λ _, asked q)) as Hnothing
    by (apply triple_ret, asked_none).
  eapply triple_seq; [apply triple_tickets_attempt|intros [meta|e]; [|exact Hnothing]].
  destruct (extract_pr_context meta) as [[pr repo]|]; [|exact Hnothing].
  case_bool_decide; [apply Hsure, triple_set_feedback; [set_solver|done]|].
  eapply triple_learn; [apply triple_get_workflow|intros o ->].
  eapply (triple_exists _ (at_row t i q)).
  { eapply triple_conseq; [by apply triple_poll_ci|intros ? ? Hx; exact Hx|done]. }
  intros ci r1 [[Hmg1 Hrv1] Hci]. eapply (triple_exists _ (at_row t i q)).
  { eapply triple_conseq; [by apply (triple_poll_mergeable q r1)|intros ? ? Hx; exact Hx|].
    intros ? x. apply asked_none. }
  intros mg r2 [[Hci2 Hrv2] Hmg]. eapply (triple_exists _ (at_row t i q)).
  { eapply triple_conseq; [apply (triple_poll_review q r2); simpl; congruence|intros ? ? Hx; exact Hx|done]. }
  intros review r3 [[Hci3 Hmg3] Hrv].
  unfold create_issue_tickets_and_evaluate. apply (triple_bind _ (at_row t i q r3) (λ _, True)).
  { apply (triple_conseq _ _ (λ _, at_row t i q r3) _ (λ _, asked q)); [|done|done].
    case_bool_decide; [|by apply triple_ret]. apply (triple_bind _ (at_row t i q r3) (λ _, True)).
    - intros [a d h q' b] Hx. rewrite run_map_err, run_external.
      destruct (collect_failing_checks _ _ _ h) as [[]]; [by split|by apply (asked_none q r3)].
    - intros failing _. apply triple_log_issue. }
  intros _ _. apply (triple_bind _ (at_row t i q r3) (λ _, True)).
  { apply (triple_conseq _ _ (λ _, at_row t i q r3) _ (λ _, asked q)); [|done|done].
    case_bool_decide; [apply triple_log_issue|by apply triple_ret]. }
  intros _ _. apply triple_evaluate; [exact Hrv| |].
  - intros E. by rewrite Hci3, Hci2, (Hci E).
  - intros E. by rewrite Hmg3, (Hmg E).
Qed.

(** For a ticket with one active workflow and a database that does not fail,
    the poll of its pull request asks for at most one transition, to implementing,
    to addressing feedback or to merging, and for merging only when the conditions
    it has stored are those the merge handler checks: all three are green. *)
Theorem merging_request_passes_gate ticket q r x :
  Ticket.id ticket = t → at_row t i q r x →
  let y := (check_in_review_ticket config ticket x).2 in
  sent y = q ∨ ∃ target,
    sent y = q ++ [TransitionRequest.mk t target]
    ∧ target ∈ [LifecycleStatus.Implementing; LifecycleStatus.AddressingFeedback; LifecycleStatus.Merging]
    ∧ (target = LifecycleStatus.Merging → ∃ r',
         WorkflowTables.workflow (tables (workflow_db y)) !! i = Some r' ∧ active_for t r' = true
         ∧ WorkflowRow.ci_status r' = ci_status.SUCCEEDED
         ∧ WorkflowRow.mergeable r' = mergeable.MERGEABLE
         ∧ WorkflowRow.review_status r' = review_status.APPROVED).
Proof.
  intros Ht Hx. cbn zeta. pose proof (triple_check ticket q r Ht x Hx) as Hm.
  assert (asked q (check_in_review_ticket config ticket x).2) as [Ha|(target & Hs & Hin & Hg)].
  { by destruct (check_in_review_ticket config ticket x) as [[[]|e] y]. }
  - by left.
  - right. exists target. split_and!; [done|done|]. intros Hmerge.
    destruct (Hg Hmerge) as (r' & Hrow & Hci & Hmg & Hrv). exists r'.
    split_and!; [apply (row_found _ _ _ _ Hrow)|apply (row_active _ _ _ _ Hrow)|done..].
Qed.
End Poll.

(** A review that approves, with all checks passed. *)
Definition review_row : WorkflowRow.t := test_workflow "in_review" 1 "pending" "unknown" "pending".
Definition review_ctx : ctx world :=
  test_ctx "feature" review_row
    [exits 0 "build passed" ""; exits 0 "can merge" ""; exits 0 "pr open" ""; exits 0 "approval" "";
     exits 0 "nothing" ""; exits 0 "approval" ""].
Definition review_ticket : Ticket.t := ticket_from_row (test_tickets "feature") (test_ticket "feature").
Definition review_run : result unit anyhow * ctx world :=
  @check_in_review_ticket test_env test_host test_services test_config review_ticket review_ctx.

Lemma merging_request_passes_gate_witness :
  sent review_run.2 = [TransitionRequest.mk "ur-1" LifecycleStatus.Merging]
  ∧ (sent review_run.2 = [] ∨ ∃ target, sent review_run.2 = [] ++ [TransitionRequest.mk "ur-1" target]
     ∧ target ∈ [LifecycleStatus.Implementing; LifecycleStatus.AddressingFeedback; LifecycleStatus.Merging]
     ∧ (target = LifecycleStatus.Merging → ∃ r',
         WorkflowTables.workflow (tables (workflow_db review_run.2)) !! "a" = Some r'
         ∧ active_for "ur-1" r' = true ∧ WorkflowRow.ci_status r' = ci_status.SUCCEEDED
         ∧ WorkflowRow.mergeable r' = mergeable.MERGEABLE
         ∧ WorkflowRow.review_status r' = review_status.APPROVED)).
Proof.
  split; [vm_compute; reflexivity|].
  refine (@merging_request_passes_gate test_env test_host test_services test_config "ur-1" "a" test_services_lawful
    review_ticket [] review_row review_ctx eq_refl _).
  split; [|reflexivity]. split; [reflexivity|reflexivity|reflexivity|].
  by intros j r' [-> _]%test_ctx_workflow.
Defined.

(** ** The verdict on the checks of a pull request *)

Lemma lower_lower s : to_lowercase (to_lowercase s) = to_lowercase s.
Proof.
  induction s as [|c s IH]; [done|]. cbn [to_lowercase]. rewrite IH. f_equal.
  by destruct c as [[] [] [] [] [] [] [] []].
Qed.
Lemma upper_lower s : to_uppercase (to_lowercase s) = to_uppercase s.
Proof.
  induction s as [|c s IH]; [done|]. cbn [to_lowercase to_uppercase]. rewrite IH. f_equal.
  by destruct c as [[] [] [] [] [] [] [] []].
Qed.
(** Texts that differ in capitals also differ in case-blind comparison. *)
Lemma eq_ignore_upper a b : to_uppercase a ≠ to_uppercase b → eq_ignore_ascii_case a b = false.
Proof.
  intros Hne. apply bool_decide_false. intros Heq. apply Hne.
  by rewrite <-(upper_lower a), Heq, upper_lower.
Qed.

(** A check of [gh pr checks]: its name and state; what the state says. *)
Definition name_of (v : json) : string := default "" (as_str (jindex "name" v)).
Definition state_of (v : json) : string := default "" (as_str (jindex "state" v)).
Definition running (v : json) : Prop :=
  to_uppercase (state_of v) ∈ ["PENDING"; "EXPECTED"; "QUEUED"; "IN_PROGRESS"].
Definition passed (v : json) : Prop :=
  to_lowercase (state_of v) ∈ [""; "success"; "skipped"; "neutral"].

Section Checks.
Abbreviation run_of := GhBackend.check_run_of.

Lemma run_of_running v : running v →
  CheckRun.status (run_of v) = state_of v ∧ CheckRun.conclusion (run_of v) = "".
Proof.
  intros Hrun. unfold GhBackend.check_run_of, GhBackend.str_or_empty.
  change (default EmptyString (as_str (jindex "state" v))) with (state_of v).
  by rewrite bool_decide_true.
Qed.
Lemma run_of_completed v : ¬ running v →
  CheckRun.status (run_of v) = "completed" ∧ CheckRun.conclusion (run_of v) = to_lowercase (state_of v).
Proof.
  intros Hrun. unfold GhBackend.check_run_of, GhBackend.str_or_empty.
  change (default EmptyString (as_str (jindex "state" v))) with (state_of v).
  by rewrite bool_decide_false.
Qed.
Lemma run_of_name v : CheckRun.name (run_of v) = name_of v.
Proof. unfold GhBackend.check_run_of. by case_match. Qed.

Lemma run_completed v :
  is_check_completed (CheckRun.status (run_of v)) (CheckRun.conclusion (run_of v)) = negb (bool_decide (running v)).
Proof.
  case_bool_decide as Hrun.
  - destruct (run_of_running v Hrun) as [-> ->]. unfold is_check_completed, running in *.
    rewrite (bool_decide_false (state_of v = "")) by (intros E; rewrite E in Hrun; set_solver).
    rewrite (bool_decide_true (EmptyString = EmptyString)) by done. simpl.
    assert (∀ x, to_uppercase x ∉ ["PENDING"; "EXPECTED"; "QUEUED"; "IN_PROGRESS"] →
      eq_ignore_ascii_case (state_of v) x = false) as Hno
      by (intros x Hx; apply eq_ignore_upper; intros E; by rewrite E in Hrun).
    rewrite !Hno; [done|apply (bool_decide_unpack _); vm_compute; exact I..].
  - by destruct (run_of_completed v Hrun) as [-> ->].
Qed.
Lemma run_failed v :
  ¬ running v → is_check_failed (CheckRun.conclusion (run_of v)) = negb (bool_decide (passed v)).
Proof.
  intros Hrun. destruct (run_of_completed v Hrun) as [_ ->]. unfold passed, is_check_failed, eq_ignore_ascii_case.
  rewrite lower_lower. change (to_lowercase "success") with "success".
  change (to_lowercase "skipped") with "skipped". change (to_lowercase "neutral") with "neutral".
  repeat case_bool_decide; try done; set_solver.
Qed.

Lemma not_Exists_nil {A} (P : A → Prop) : ¬ Exists P [].
Proof. intros H. inversion H. Qed.
(** The two flags of the loop. *)
Lemma evaluate_loop_flags vs all failed latest :
  (evaluate_loop (run_of <$> vs) all failed latest).1
  = (all && negb (bool_decide (Exists running vs)),
     failed || bool_decide (Exists (λ v, ¬ running v ∧ ¬ passed v) vs)).
Proof.
  revert all failed latest. induction vs as [|v vs IH]; intros all failed latest.
  - rewrite (bool_decide_false (Exists running [])) by apply not_Exists_nil.
    rewrite (bool_decide_false (Exists _ [])) by apply not_Exists_nil.
    simpl. by rewrite andb_true_r, orb_false_r.
  - cbn [fmap list_fmap evaluate_loop]. rewrite run_completed. destruct (decide (running v)) as [Hr|Hr].
    + rewrite (bool_decide_true (running v)) by done. cbn [negb]. rewrite IH. cbn [andb].
      rewrite (bool_decide_true (Exists running _)), andb_false_r by (by left).
      do 2 f_equal. apply bool_decide_ext. rewrite Exists_cons. naive_solver.
    + rewrite (bool_decide_false (running v)) by done. cbn [negb]. rewrite IH, run_failed by done.
      f_equal; [do 2 f_equal; apply bool_decide_ext; rewrite Exists_cons; naive_solver|].
      rewrite <-orb_assoc. f_equal. rewrite <-bool_decide_not, <-bool_decide_or.
      apply bool_decide_ext. rewrite Exists_cons. naive_solver.
Qed.

(** The CI status of a pull request: failed when a check that is not ignored has
    ended in a state other than success, skipped or neutral; succeeded when every
    such check has ended, in one of these; pending otherwise.  No checks at all,
    or only ignored ones, are a success. *)
Theorem ci_verdict vs ignored :
  let relevant := filter (λ v, name_of v ∉ ignored) vs in
  let verdict := (ci_of_runs (run_of <$> vs) ignored).1 in
  (verdict = ci_status.FAILED ↔ ∃ v, v ∈ relevant ∧ ¬ running v ∧ ¬ passed v)
  ∧ (verdict = ci_status.SUCCEEDED ↔ ∀ v, v ∈ relevant → ¬ running v ∧ passed v)
  ∧ verdict ∈ [ci_status.FAILED; ci_status.SUCCEEDED; ci_status.PENDING].
Proof.
  intros relevant verdict.
  assert (filter_ignored_checks (run_of <$> vs) ignored = run_of <$> relevant) as Hfilter.
  { unfold relevant, filter_ignored_checks. clear. induction vs as [|v vs IH]; [done|].
    rewrite fmap_cons, !filter_cons, run_of_name. case_decide; [|done]. rewrite fmap_cons. by f_equal. }
  assert (verdict = if bool_decide (Exists (λ v, ¬ running v ∧ ¬ passed v) relevant) then ci_status.FAILED
                    else if bool_decide (Exists running relevant) then ci_status.PENDING
                    else ci_status.SUCCEEDED) as ->.
  { unfold verdict, ci_of_runs. rewrite Hfilter. destruct vs as [|v0 vs']; [done|].
    cbn [fmap list_fmap]. destruct relevant as [|v rest] eqn:Hrel; [done|]. cbn [fmap list_fmap].
    unfold evaluate_ci_runs. rewrite <-fmap_cons.
    pose proof (evaluate_loop_flags (v :: rest) true false "") as Hf.
    destruct (evaluate_loop _ _ _ _) as [[all failed] latest]. cbn in Hf. injection Hf as -> ->. cbn.
    by repeat destruct (bool_decide _). }
  set (bad := Exists _ relevant).
  assert (bad ↔ ∃ v, v ∈ relevant ∧ ¬ running v ∧ ¬ passed v) as Hbad by apply Exists_exists.
  rewrite <-Hbad. assert (Exists running relevant ↔ ∃ v, v ∈ relevant ∧ running v) as Hrun by apply Exists_exists.
  destruct (decide bad) as [Hb|Hb]; [rewrite (bool_decide_true bad) by done|rewrite (bool_decide_false bad) by done].
  - split_and!; [done|split; [done|]|set_solver]. intros Hall. apply Hbad in Hb. naive_solver.
  - case_bool_decide as Hr; (split_and!; [done| |set_solver]).
    + split; [done|]. intros Hall. apply Hrun in Hr. naive_solver.
    + split; [|done]. intros _ v Hv. assert (¬ running v) by naive_solver.
      split; [done|]. destruct (decide (passed v)); naive_solver.
Qed.
End Checks.
