(* ===== verification/TicketService.v ===== *)
(** * The ticket service

    [server/src/grpc_ticket.rs]: the RPCs of the command line client, the workers
    and the terminal interface over the two databases.  A handler is a computation
    on the server: the context of the workflow handlers, the coordinator's
    cancellation channel and the background tasks spawned and not yet run.  It
    fails with a [Status].  The streaming RPCs (export, import, user interface
    events) are left out.  The iteration order of a [HashMap] or [HashSet] is a
    parameter, as is stopping a worker: [WorkerManagerProps] supplies the manager's. *)

From S2P Require Import Prelude RustStd Model Env TicketDb TicketGraph TicketRepo WorkflowDb.
From S2P Require Import WorkflowRepo WorkerRepo Context Host HandlerLib.
From Stdlib Require Import Ascii.
Local Open Scope stdpp_scope.

(** ** The server *)

Record server (H : Type) : Type := Server {
  context : ctx H;
  (** The cancellation channel: ids sent and not yet received. *)
  cancelled : list string;
  cancel_receiving : bool;
  (** Label refreshes spawned and not yet run. *)
  spawned : list string
}.
Arguments Server {H}.
Arguments context {H}.
Arguments cancelled {H}.
Arguments cancel_receiving {H}.
Arguments spawned {H}.

#[export] Program Instance context_lens {H} : Lens (server H) (ctx H) := {
  view := context;
  put c s := Server c (cancelled s) (cancel_receiving s) (spawned s)
}.
Solve All Obligations with by intros; try destruct s.

(** The order in which the hash tables are iterated. *)
Class HashOrder : Type := {
  iter_map : gmap string string → list (string * string);
  iter_set : gset string → list string;
  iter_map_perm m : iter_map m ≡ₚ map_to_list m;
  iter_set_perm s : iter_set s ≡ₚ elements s
}.

(** The parts of [TicketServiceHandler] that are not state: the configured
    projects, and which of its optional collaborators it has. *)
Module TicketServiceHandler.
Record t : Type := mk {
  valid_project_keys : gset string;
  transition_tx : bool;
  cancel_tx : bool;
  worker_manager : bool;
  worker_repo : bool
}.
End TicketServiceHandler.

(** ** Errors *)

Module RefCandidate.
Record t : Type := mk { id : string; status : string; title : string }.
End RefCandidate.

Definition DOMAIN_TICKET : string := "ur.ticket".

Module TicketError.
Inductive t : Type :=
| NotFound (id : string)
| HasOpenChildren (id : string) (children : list string)
| ActiveWorkflow (id : string)
| AmbiguousRef (ref_value : string) (candidates : list RefCandidate.t)
| Validation (msg : string)
| Db (msg : string).

Definition to_string (e : t) : string :=
  match e with
  | NotFound id => "ticket not found: " +:+ id
  | HasOpenChildren id _ =>
      "ticket " +:+ id +:+ " has open children; close them first or use --force"
  | ActiveWorkflow id => "ticket " +:+ id +:+ " already has an active workflow"
  | AmbiguousRef ref_value candidates =>
      "ref '" +:+ ref_value +:+ "' matches " +:+ pretty (length candidates) +:+ " tickets:" +:+ NEWLINE
      +:+ join NEWLINE ((λ c, "  " +:+ RefCandidate.id c +:+ "  " +:+ RefCandidate.status c +:+ "  "
                                +:+ RefCandidate.title c) <$> candidates)
      +:+ NEWLINE +:+ "re-run with a ticket ID, or: ur ticket list --meta ref=" +:+ ref_value
  | Validation msg => "validation error: " +:+ msg
  | Db msg => "database error: " +:+ msg
  end.

(** [From<TicketError> for Status] *)
Definition to_status (e : t) : Status.t :=
  match e with
  | NotFound id =>
      Status.status_with_info Status.NotFound (to_string e) DOMAIN_TICKET "NOT_FOUND" {[ "ticket_id" := id ]}
  | HasOpenChildren id children =>
      Status.status_with_info Status.FailedPrecondition (to_string e) DOMAIN_TICKET
        "TICKET_HAS_OPEN_CHILDREN" {[ "ticket_id" := id; "children" := join "," children ]}
  | ActiveWorkflow id =>
      Status.status_with_info Status.FailedPrecondition (to_string e) DOMAIN_TICKET
        "TICKET_HAS_ACTIVE_WORKFLOW" {[ "ticket_id" := id ]}
  | AmbiguousRef ref_value candidates =>
      Status.status_with_info Status.FailedPrecondition (to_string e) DOMAIN_TICKET
        "TICKET_AMBIGUOUS_REF"
        {[ "ref" := ref_value; "candidates" := join "," (RefCandidate.id <$> candidates) ]}
  | Validation _ =>
      Status.status_with_info Status.InvalidArgument (to_string e) DOMAIN_TICKET "INVALID_ARGUMENT" ∅
  | Db _ => Status.status_with_info Status.Internal (to_string e) DOMAIN_TICKET "INTERNAL" ∅
  end.
End TicketError.

(** ** Messages *)

(** [ur_rpc::proto::ticket::Ticket] *)
Module PTicket.
Record t : Type := mk {
  id : string;
  ticket_type : string;
  status : string;
  priority : Z;
  parent_id : string;
  title : string;
  body : string;
  created_at : string;
  updated_at : string;
  project : string;
  branch : string;
  depth : Z;
  children_completed : Z;
  children_total : Z;
  dispatch_status : string;
  blocked : bool
}.
(** What every listing makes of a ticket. *)
Definition of_ticket (t : Ticket.t) (depth : Z) : PTicket.t :=
  mk (Ticket.id t) (Ticket.type_ t) (Ticket.status t) (Ticket.priority t)
    (default "" (Ticket.parent_id t)) (Ticket.title t) (Ticket.body t) (Ticket.created_at t)
    (Ticket.updated_at t) (Ticket.project t) (default "" (Ticket.branch t)) depth
    (Ticket.children_completed t) (Ticket.children_total t) "" false.
Definition with_dispatch (d : string) (p : t) : t :=
  mk (id p) (ticket_type p) (status p) (priority p) (parent_id p) (title p) (body p) (created_at p)
    (updated_at p) (project p) (branch p) (depth p) (children_completed p) (children_total p) d (blocked p).
Definition with_blocked (b : bool) (p : t) : t :=
  mk (id p) (ticket_type p) (status p) (priority p) (parent_id p) (title p) (body p) (created_at p)
    (updated_at p) (project p) (branch p) (depth p) (children_completed p) (children_total p)
    (dispatch_status p) b.
End PTicket.

Module TicketEdge.
Record t : Type := mk { other_id : string; relation : string }.
End TicketEdge.

Module WorkflowInfo.
Record t : Type := mk {
  id : string;
  ticket_id : string;
  status : string;
  stalled : bool;
  stall_reason : string;
  implement_cycles : Z;
  worker_id : string;
  feedback_mode : string;
  created_at : string;
  pr_url : string;
  history : list (string * string);
  ticket_children_open : Z;
  ticket_children_closed : Z;
  ticket_title : string
}.
End WorkflowInfo.

Module CreateTicketRequest.
Record t : Type := mk {
  project : string;
  ticket_type : string;
  status : string;
  priority : Z;
  parent_id : option string;
  title : string;
  body : string;
  id : option string;
  created_at : option string;
  wip : bool;
  branch : option string
}.
End CreateTicketRequest.

Module ListTicketsRequest.
Record t : Type := mk {
  project : option string;
  ticket_type : option string;
  status : option string;
  meta_key : option string;
  meta_value : option string;
  tree_root_id : option string;
  page_size : option Z;
  offset : option Z;
  include_children : option bool;
  parent_id : option string
}.
End ListTicketsRequest.

Module UpdateTicketRequest.
Record t : Type := mk {
  id : string;
  status : option string;
  priority : option Z;
  title : option string;
  body : option string;
  force : bool;
  ticket_type : option string;
  parent_id : option string;
  branch : option string;
  project : option string
}.
End UpdateTicketRequest.

Module GetTicketResponse.
Record t : Type := mk {
  ticket : PTicket.t;
  metadata : list (string * string);
  activities : list Activity.t;
  edges : list TicketEdge.t
}.
End GetTicketResponse.

Module MetaListFilter.
Record t : Type := mk { project : option string; type_ : option string; status : option string }.
End MetaListFilter.

(** [o.filter(|s| !s.is_empty())] *)
Definition non_empty (o : option string) : option string :=
  match o with Some s => if bool_decide (s = "") then None else Some s | None => None end.

(** [opt.is_none_or(|p| x == p)] *)
Definition is_none_or_eq (o : option string) (x : string) : bool :=
  match o with None => true | Some p => bool_decide (x = p) end.

(** The comma-separated values, trimmed. *)
Definition split_trimmed (s : string) : list string := trim <$> split "," s.

Definition classify_edge (ticket_id : string) (e : Edge.t) : TicketEdge.t :=
  match Edge.kind e with
  | EdgeKind.Blocks =>
      if bool_decide (Edge.source_id e = ticket_id)
      then TicketEdge.mk (Edge.target_id e) edge_relation.BLOCKS
      else TicketEdge.mk (Edge.source_id e) edge_relation.BLOCKED_BY
  | EdgeKind.RelatesTo =>
      if bool_decide (Edge.source_id e = ticket_id)
      then TicketEdge.mk (Edge.target_id e) edge_relation.RELATES_TO
      else TicketEdge.mk (Edge.source_id e) edge_relation.RELATES_TO
  end.
Definition classify_edges (ticket_id : string) (raw : list Edge.t) : list TicketEdge.t :=
  classify_edge ticket_id <$> raw.

Definition workflow_to_proto (wf : Workflow.t) (pr_url : string) (history : list (string * string))
    (children_open children_closed : Z) (ticket_title : string) : WorkflowInfo.t :=
  WorkflowInfo.mk (Workflow.id wf) (Workflow.ticket_id wf) (LifecycleStatus.as_str (Workflow.status wf))
    (Workflow.stalled wf) (Workflow.stall_reason wf) (Workflow.implement_cycles wf)
    (Workflow.worker_id wf) (Workflow.feedback_mode wf) (Workflow.created_at wf) pr_url history
    children_open children_closed ticket_title.

Section Service.
Context {HE : Env} {HG : PetGraph} {HO : Host} {HH : HashOrder}.
Context (config : Config.t) (self : TicketServiceHandler.t).
Context (stop_by_worker_id : string → SE (ctx host) string unit).
Abbreviation rpc A := (SE (server host) Status.t A).
Abbreviation call A := (SE (server host) TicketError.t A).

(** A repository call; its error is [TicketError::Db]. *)
Definition db_error (e : sqlx_error) : TicketError.t := TicketError.Db (sqlx_display e).
Definition on_tickets {A} (m : db A) : call A := map_err db_error (zoom (tickets m)).
Definition on_workflows {A} (m : wdb A) : call A := map_err db_error (zoom (workflows m)).
(** [?] on a [TicketError] in a function that returns a [Status]. *)
Definition into {A} (m : call A) : rpc A := map_err TicketError.to_status m.
Definition refuse {A} (e : TicketError.t) : rpc A := throw (TicketError.to_status e).

(** ** The background label refresh *)

Definition label_refresh (ticket_id : string) : SE (ctx host) anyhow unit :=
  r ← attempt (workflows (get_workflow_by_ticket ticket_id));
  match r with
  | Ok (Some wf) =>
      if bool_decide (Workflow.worker_id wf = "") then mret tt
      else log_error (push_label config (Workflow.worker_id wf))
  | _ => mret tt
  end.
Definition spawn_label_refresh_for_ticket {E} (ticket_id : string) : SE (server host) E unit :=
  if TicketServiceHandler.worker_repo self
  then modify (λ s, Server (context s) (cancelled s) (cancel_receiving s) (spawned s ++ [ticket_id]))
  else mret tt.
(** The runtime runs the oldest spawned task; a panic ends only the task. *)
Definition run_spawned (s : server host) : server host :=
  match spawned s with
  | [] => s
  | t :: rest => Server (label_refresh t (context s)).2 (cancelled s) (cancel_receiving s) rest
  end.

(** ** Workflows as messages *)

Definition enrich_workflow (wf : Workflow.t) : rpc WorkflowInfo.t :=
  meta ← attempt (zoom (tickets (get_meta (Workflow.ticket_id wf) "ticket")));
  let pr_url := match meta with Ok m => default "" (m !! "pr_url") | Err _ => "" end in
  ticket ← into (on_tickets (get_ticket_by_id (Workflow.ticket_id wf)));
  let ticket_title := default "" (Ticket.title <$> ticket) in
  history ← into (on_workflows (get_workflow_events (Workflow.id wf)));
  counts ← into (on_tickets (get_ticket_children_counts (Workflow.ticket_id wf)));
  mret (workflow_to_proto wf pr_url history counts.1 counts.2 ticket_title).
(** The counts of the page are not used. *)
Definition enrich_paginated_workflow (pw : Workflow.t * Z * Z) : rpc WorkflowInfo.t :=
  enrich_workflow pw.1.1.

(** ** Cancellation *)

(** [cancel_tx.send(..)]: a closed channel is only logged. *)
Definition send_cancel {E} (ticket_id : string) : SE (server host) E unit :=
  if TicketServiceHandler.cancel_tx self
  then modify (λ s, if cancel_receiving s
                    then Server (context s) (cancelled s ++ [ticket_id]) true (spawned s) else s)
  else mret tt.
Definition kill_workflow_worker {E} (ticket_id worker_id : string) : SE (server host) E unit :=
  if bool_decide (worker_id = "") then mret tt
  else if negb (TicketServiceHandler.worker_manager self) then mret tt
  else ignore_err (zoom (stop_by_worker_id worker_id)).

Definition cancel_active_workflow (ticket_id : string) : rpc unit :=
  workflow ← into (on_workflows (get_workflow_by_ticket ticket_id));
  match workflow with
  | None => mret tt
  | Some workflow =>
      send_cancel ticket_id ;;
      kill_workflow_worker ticket_id (Workflow.worker_id workflow) ;;
      into (on_workflows (delete_intents_for_ticket ticket_id)) ;;
      into (on_workflows (update_workflow_status ticket_id LifecycleStatus.Cancelled))
  end.

(** ** Lookups *)

Definition resolve_ticket_ref (arg : string) : call string :=
  o ← on_tickets (get_ticket_by_id arg);
  if bool_decide (is_Some o) then mret arg
  else
    matches ← on_tickets (tickets_by_metadata ticket_meta.REF arg);
    match matches with
    | [] => throw (TicketError.NotFound arg)
    | [m] => mret (MetadataMatchTicket.id m)
    | _ => throw (TicketError.AmbiguousRef arg
             ((λ m, RefCandidate.mk (MetadataMatchTicket.id m) (MetadataMatchTicket.status m)
                      (MetadataMatchTicket.title m)) <$> matches))
    end.

Definition hydrate_meta_matches (matches : list MetadataMatchTicket.t) (f : MetaListFilter.t)
    : call (list PTicket.t) :=
  full ← on_tickets (get_tickets_by_ids (MetadataMatchTicket.id <$> matches));
  let statuses := match MetaListFilter.status f with Some s => split_trimmed s | None => [] end in
  mret ((λ t, PTicket.of_ticket t 0) <$>
    filter (λ t, is_none_or_eq (MetaListFilter.project f) (Ticket.project t)
               && is_none_or_eq (MetaListFilter.type_ f) (Ticket.type_ t)
               && (bool_decide (statuses = []) || bool_decide (Ticket.status t ∈ statuses)) = true) full).
Definition list_by_meta (key : string) (value : option string) (f : MetaListFilter.t)
    : call (list PTicket.t) :=
  matches ← match value with
            | Some value => on_tickets (tickets_by_metadata key value)
            | None => on_tickets (tickets_with_metadata_key key)
            end;
  hydrate_meta_matches matches f.

(** The ids of the tickets, then the parents not among what was collected. *)
Definition ids_to_query (tickets : list PTicket.t) : list string :=
  foldl (λ ids t, if negb (bool_decide (PTicket.parent_id t = "")) && bool_decide (PTicket.parent_id t ∉ ids)
                  then ids ++ [PTicket.parent_id t] else ids) (PTicket.id <$> tickets) tickets.
Definition set_dispatch_status (active : gmap string string) (t : PTicket.t) : PTicket.t :=
  match active !! PTicket.id t with
  | Some status => PTicket.with_dispatch status t
  | None =>
      if bool_decide (PTicket.parent_id t = "") then t
      else match active !! PTicket.parent_id t with
           | Some status => PTicket.with_dispatch status t
           | None => t
           end
  end.
Definition enrich_dispatch_status (tickets : list PTicket.t) : rpc (list PTicket.t) :=
  match tickets with
  | [] => mret []
  | _ =>
      active ← into (on_workflows (get_active_workflows_by_ticket_ids (ids_to_query tickets)));
      mret (set_dispatch_status active <$> tickets)
  end.
Definition enrich_blocked (tickets : list PTicket.t) : rpc (list PTicket.t) :=
  match tickets with
  | [] => mret []
  | _ =>
      blocked ← into (on_tickets (blocked_among (PTicket.id <$> tickets)));
      mret ((λ t, PTicket.with_blocked (bool_decide (PTicket.id t ∈ blocked)) t) <$> tickets)
  end.
Definition enrich (tickets : list PTicket.t) : rpc (list PTicket.t) :=
  tickets ← enrich_dispatch_status tickets; enrich_blocked tickets.

(** [TicketServiceHandler::list_ticket_tree] *)
Definition list_tree (root_id : string) (status_filter : option string) : rpc (list PTicket.t) :=
  rows ← into (on_tickets (list_ticket_tree root_id status_filter));
  mret ((λ x, PTicket.of_ticket x.1 x.2) <$> rows).

Definition list_workflows_by_project (page_size : option Z) (offset : Z) (status : option LifecycleStatus)
    (project : string) : rpc (list (Workflow.t * Z * Z) * Z) :=
  all ← into (on_workflows (list_workflows_paginated None 0 status));
  tickets ← into (on_tickets (get_tickets_by_ids ((λ pw, Workflow.ticket_id pw.1.1) <$> all.1)));
  let matching_ids := Ticket.id <$> filter (λ t, Ticket.project t = project) tickets in
  let filtered := filter (λ pw, Workflow.ticket_id pw.1.1 ∈ matching_ids) all.1 in
  let rest := drop (Z.to_nat offset) filtered in
  mret (match page_size with Some ps => take (Z.to_nat ps) rest | None => rest end,
        as_i32 (Z.of_nat (length filtered))).

(** ** Tickets *)

Definition unknown_project (project : string) : TicketError.t :=
  TicketError.Validation ("unknown project '" +:+ project +:+ "'; configured projects: "
    +:+ join ", " (iter_set (TicketServiceHandler.valid_project_keys self))).
(** Projects are checked only when some are configured. *)
Definition project_known (project : string) : bool :=
  bool_decide (TicketServiceHandler.valid_project_keys self = ∅)
  || bool_decide (project ∈ TicketServiceHandler.valid_project_keys self).

(** The row a request asks for. *)
Definition new_ticket_of (req : CreateTicketRequest.t) : NewTicket.t :=
  NewTicket.mk (non_empty (CreateTicketRequest.id req)) (CreateTicketRequest.project req)
    (CreateTicketRequest.ticket_type req) (as_i32 (CreateTicketRequest.priority req))
    (non_empty (CreateTicketRequest.parent_id req)) (CreateTicketRequest.title req)
    (CreateTicketRequest.body req)
    (if bool_decide (CreateTicketRequest.status req = "") then None else Some (CreateTicketRequest.status req))
    (if CreateTicketRequest.wip req then Some LifecycleStatus.Design else None)
    (non_empty (CreateTicketRequest.branch req)) (non_empty (CreateTicketRequest.created_at req)).
(** [TicketService::create_ticket]: the id of the ticket. *)
Definition create (req : CreateTicketRequest.t) : rpc string :=
  if negb (project_known (CreateTicketRequest.project req))
  then refuse (unknown_project (CreateTicketRequest.project req))
  else
    ticket ← into (on_tickets (create_ticket (new_ticket_of req)));
    mret (Ticket.id ticket).

(** The branch of [list_tickets] without metadata and tree: pages. *)
Definition list_page (req : ListTicketsRequest.t) : rpc (list PTicket.t * Z) :=
  let statuses := match non_empty (ListTicketsRequest.status req) with
                  | Some s => split_trimmed s | None => [] end in
  let f := TicketFilter.mk (non_empty (ListTicketsRequest.project req)) statuses
             (non_empty (ListTicketsRequest.ticket_type req))
             (non_empty (ListTicketsRequest.parent_id req)) None in
  let offset := default 0%Z (ListTicketsRequest.offset req) in
  if (offset <? 0)%Z then refuse (TicketError.Validation "offset must be non-negative")
  else if match ListTicketsRequest.page_size req with Some ps => (ps <=? 0)%Z | None => false end
  then refuse (TicketError.Validation "page_size must be positive")
  else
    page ← into (on_tickets (list_tickets_paginated f (ListTicketsRequest.page_size req) offset
                               (default false (ListTicketsRequest.include_children req))));
    tickets ← enrich ((λ t, PTicket.of_ticket t 0) <$> page.1);
    mret (tickets, page.2).
(** [TicketService::list_tickets] *)
Definition list_ (req : ListTicketsRequest.t) : rpc (list PTicket.t * Z) :=
  let meta_filter := MetaListFilter.mk (non_empty (ListTicketsRequest.project req))
                       (non_empty (ListTicketsRequest.ticket_type req))
                       (non_empty (ListTicketsRequest.status req)) in
  let finish (tickets : list PTicket.t) : rpc (list PTicket.t * Z) :=
    tickets ← enrich tickets;
    mret (tickets, as_i32 (Z.of_nat (length tickets))) in
  match non_empty (ListTicketsRequest.meta_key req) with
  | Some key =>
      tickets ← into (list_by_meta key (non_empty (ListTicketsRequest.meta_value req)) meta_filter);
      finish tickets
  | None =>
      match non_empty (ListTicketsRequest.tree_root_id req) with
      | Some root_id =>
          tickets ← list_tree root_id (non_empty (ListTicketsRequest.status req));
          finish tickets
      | None => list_page req
      end
  end.

(** [TicketService::get_ticket] *)
Definition get (arg : string) (activity_author_filter : option string) : rpc GetTicketResponse.t :=
  id ← into (resolve_ticket_ref arg);
  o ← into (on_tickets (get_ticket_by_id id));
  t ← into (ok_or o (TicketError.NotFound id));
  meta ← into (on_tickets (get_meta id "ticket"));
  activities ← match activity_author_filter with
               | Some author => into (on_tickets (get_activities_by_author id author))
               | None => into (on_tickets (get_activities id))
               end;
  raw_edges ← into (on_tickets (edges_for id None));
  mret (GetTicketResponse.mk (PTicket.of_ticket t 0) (iter_map meta) activities
          (classify_edges id raw_edges)).

(** The fields of an update. *)
Definition update_parent (req : UpdateTicketRequest.t) : option (option string) :=
  match UpdateTicketRequest.parent_id req with
  | None => None
  | Some s => if bool_decide (s = "NONE") then Some None else Some (Some s)
  end.
Definition update_branch (req : UpdateTicketRequest.t) : option (option string) :=
  match UpdateTicketRequest.branch req with
  | None => None
  | Some s => if bool_decide (s = "NONE") then Some None
              else if bool_decide (s = "") then None else Some (Some s)
  end.
Definition ticket_update_of (req : UpdateTicketRequest.t) : TicketUpdate.t :=
  TicketUpdate.mk (non_empty (UpdateTicketRequest.status req)) None None
    (non_empty (UpdateTicketRequest.ticket_type req)) (as_i32 <$> UpdateTicketRequest.priority req)
    (non_empty (UpdateTicketRequest.title req)) (non_empty (UpdateTicketRequest.body req))
    (update_branch req) (update_parent req) (non_empty (UpdateTicketRequest.project req)).
(** Closing: the children first, or a refusal. *)
Definition close_children (req : UpdateTicketRequest.t) : rpc unit :=
  let id := UpdateTicketRequest.id req in
  if UpdateTicketRequest.force req
  then into (on_tickets (close_open_children id)) ;; mret tt
  else
    all_closed ← into (on_tickets (epic_all_children_closed id));
    if all_closed : bool then mret tt else refuse (TicketError.HasOpenChildren id []).
(** [TicketService::update_ticket]: the new id, empty when it is the old one. *)
Definition update (req : UpdateTicketRequest.t) : rpc string :=
  let id := UpdateTicketRequest.id req in
  match non_empty (UpdateTicketRequest.project req) with
  | Some p => if negb (project_known p) then refuse (unknown_project p) else mret tt
  | None => mret tt
  end ;;
  let u := ticket_update_of req in
  (if bool_decide (TicketUpdate.status u = Some "closed") then close_children req else mret tt) ;;
  updated ← into (on_tickets (update_ticket id u));
  mret (if bool_decide (Ticket.id updated = id) then "" else Ticket.id updated).

(** ** Metadata, edges, activities *)

(** [TicketService::set_meta]: two keys belong to the workflow. *)
Definition put_meta (ticket_id key value : string) : rpc unit :=
  if bool_decide (key = ticket_meta.NOVERIFY) then
    into (on_workflows (set_workflow_noverify ticket_id
      (bool_decide (value = "true") || bool_decide (value = "1"))))
  else if bool_decide (key = ticket_meta.FEEDBACK_MODE) then
    into (on_workflows (set_workflow_feedback_mode ticket_id value))
  else
    into (on_tickets (set_meta ticket_id "ticket" key value)) ;;
    if bool_decide (key = ticket_meta.PR_NUMBER) then spawn_label_refresh_for_ticket ticket_id else mret tt.
(** [TicketService::delete_meta] *)
Definition remove_meta (ticket_id key : string) : rpc unit :=
  into (on_tickets (delete_meta ticket_id "ticket" key)) ;;
  if bool_decide (key = ticket_meta.PR_NUMBER) then spawn_label_refresh_for_ticket ticket_id else mret tt.

Definition add_block (blocker_id blocked_id : string) : rpc unit :=
  into (on_tickets (add_edge blocker_id blocked_id EdgeKind.Blocks)).
Definition remove_block (blocker_id blocked_id : string) : rpc unit :=
  into (on_tickets (remove_edge blocker_id blocked_id EdgeKind.Blocks)).
Definition add_link (left_id right_id : string) (edge_kind : option string) : rpc unit :=
  let kind := default "relates_to" edge_kind in
  if bool_decide (kind = "relates_to")
  then into (on_tickets (add_edge left_id right_id EdgeKind.RelatesTo))
  else refuse (TicketError.Validation ("unknown edge kind: " +:+ kind)).
Definition remove_link (left_id right_id : string) : rpc unit :=
  into (on_tickets (remove_edge left_id right_id EdgeKind.RelatesTo)).

(** [TicketService::add_activity]: the id of the activity. *)
Definition record_activity (ticket_id author message : string) (metadata : gmap string string)
    : rpc string :=
  activity ← into (on_tickets (add_activity ticket_id author message));
  for_each (λ kv, into (on_tickets (set_meta (Activity.id activity) "activity" kv.1 kv.2)))
    (iter_map metadata) ;;
  mret (Activity.id activity).
(** Activities with their metadata, one query each. *)
Fixpoint with_metadata (l : list Activity.t) : rpc (list (Activity.t * list (string * string))) :=
  match l with
  | [] => mret []
  | a :: l =>
      meta ← into (on_tickets (get_meta (Activity.id a) "activity"));
      rest ← with_metadata l;
      mret ((a, iter_map meta) :: rest)
  end.
Definition list_activities (ticket_id : string) : rpc (list (Activity.t * list (string * string))) :=
  activities ← into (on_tickets (get_activities ticket_id));
  with_metadata activities.

(** [TicketService::dispatchable_tickets] *)
Definition dispatchable (epic_id : string) (project : option string) : rpc (list DispatchableTicket.t) :=
  into (on_tickets (dispatchable_tickets epic_id (non_empty project))).

(** ** Workflows *)

(** [transition_tx.send(..)] of a handler that has one; [what] names the request. *)
Definition request_transition (what ticket_id : string) (to : LifecycleStatus) : rpc unit :=
  map_err (λ _, Status.internal ("failed to " +:+ what +:+ ": channel closed"))
    (zoom (send "" ticket_id to)).
Definition parse_status (s : string) : rpc LifecycleStatus :=
  match LifecycleStatus.from_str s with
  | Ok st => mret st
  | Err _ => throw (Status.invalid_argument ("invalid status: " +:+ s))
  end.

(** The checks of [TicketService::create_workflow]: the status to start in. *)
Definition check_dispatch (ticket_id status : string) : rpc LifecycleStatus :=
  if negb (TicketServiceHandler.transition_tx self)
  then throw (Status.unavailable "workflow creation not available on this server (no workflow engine)")
  else
    o ← into (on_tickets (get_ticket ticket_id));
    ticket ← into (ok_or o (TicketError.NotFound ticket_id));
    if bool_decide (Ticket.status ticket = "closed") then
      refuse (TicketError.Validation
        ("ticket " +:+ ticket_id +:+ " has status 'closed', cannot create workflow"))
    else if negb (type_dispatchable (Ticket.type_ ticket)) then
      refuse (TicketError.Validation
        ("ticket " +:+ ticket_id +:+ " has type '" +:+ Ticket.type_ ticket
         +:+ "', which cannot be dispatched"))
    else
      status ← parse_status status;
      active ← into (on_workflows (get_workflow_by_ticket ticket_id));
      if bool_decide (is_Some active) then refuse (TicketError.ActiveWorkflow ticket_id)
      else mret status.
(** The rest of it: the row and the request. *)
Definition start_workflow (ticket_id : string) (status : LifecycleStatus) : rpc string :=
  workflow ← into (on_workflows (create_workflow ticket_id status));
  request_transition "send transition request" ticket_id status ;;
  mret (Workflow.id workflow).
(** [TicketService::create_workflow]: the id of the workflow. *)
Definition dispatch_workflow (ticket_id status : string) : rpc string :=
  status ← check_dispatch ticket_id status; start_workflow ticket_id status.

Definition cancel_workflow (ticket_id : string) : rpc unit := cancel_active_workflow ticket_id.
Definition stall_workflow (ticket_id : string) : rpc unit :=
  map_err (λ e, Status.internal ("stall_workflow failed: " +:+ sqlx_display e))
    (zoom (workflows (set_workflow_stalled ticket_id "Manually stalled"))).

(** [TicketService::redrive_ticket]: the new status. *)
Definition redrive (id to_status : string) : rpc string :=
  if negb (TicketServiceHandler.transition_tx self)
  then throw (Status.unavailable "redrive not available on this server (no workflow coordinator)")
  else
    to_status ← parse_status to_status;
    ignore_err (zoom (workflows (clear_workflow_stall id))) ;;
    ignore_err (zoom (workflows (reset_implement_cycles id))) ;;
    into (on_workflows (delete_workflow_events_for_ticket id)) ;;
    request_transition "submit redrive transition" id to_status ;;
    mret (LifecycleStatus.as_str to_status).

Definition get_workflow (ticket_id : string) : rpc WorkflowInfo.t :=
  workflow ← into (on_workflows (get_latest_workflow_by_ticket ticket_id));
  match workflow with
  | Some wf => enrich_workflow wf
  | None => throw (Status.status_with_info Status.NotFound ("no workflow for ticket " +:+ ticket_id)
              DOMAIN_TICKET "NOT_FOUND" {[ "ticket_id" := ticket_id ]})
  end.

Fixpoint enrich_all (l : list (Workflow.t * Z * Z)) : rpc (list WorkflowInfo.t) :=
  match l with
  | [] => mret []
  | pw :: l => i ← enrich_paginated_workflow pw; rest ← enrich_all l; mret (i :: rest)
  end.
(** [TicketService::list_workflows] *)
Definition list_workflow_infos (status : option string) (page_size offset : option Z)
    (project : option string) : rpc (list WorkflowInfo.t * Z) :=
  status_filter ← match status with
                  | None => mret None
                  | Some s => match LifecycleStatus.from_str s with
                              | Ok st => mret (Some st)
                              | Err e => throw (Status.invalid_argument e)
                              end
                  end;
  let offset := default 0%Z offset in
  if (offset <? 0)%Z then refuse (TicketError.Validation "offset must be non-negative")
  else if match page_size with Some ps => (ps <=? 0)%Z | None => false end
  then refuse (TicketError.Validation "page_size must be positive")
  else
    page ← match non_empty project with
           | Some project_key => list_workflows_by_project page_size offset status_filter project_key
           | None => into (on_workflows (list_workflows_paginated page_size offset status_filter))
           end;
    infos ← enrich_all page.1;
    mret (infos, page.2).
End Service.

(** * Issue tickets of workflows

    [server/src/workflow/ticket_client.rs]: the workflow handlers and the poller
    create a child ticket for a failed CI run, a merge conflict or a rejected merge
    through the ticket service.  A child with the same metadata key that is still
    open is reused.  With stopping a worker as a parameter, which
    [WorkerManagerProps] instantiates with the worker manager, the client implements
    the interface [WorkflowServices] the handlers are verified against. *)

From Stdlib Require Import Ascii.

Definition META_KEY_PREFIX : string := "workflow_issue".
Definition issue_key (issue_type : string) : string := META_KEY_PREFIX +:+ ":" +:+ issue_type.

(** [parent_id.split('-').next().unwrap_or("ur")] *)
Definition project_of_id (id : string) : string := default "ur" (head (split "-" id)).

Section TicketService.
Context {HE : Env} {HG : PetGraph} {HO : Host} {HH : HashOrder}.
Context (self : TicketServiceHandler.t).
Abbreviation run A := (SE (server host) anyhow A).

(** [.map_err(|s| anyhow!("{what} failed: {}", s.message()))] *)
Definition rpc_failed {A} (what : string) (m : SE (server host) Status.t A) : run A :=
  map_err (λ s, Anyhow (what +:+ " failed: " +:+ Status.message s)) m.

Definition open_issues_request (key : string) : ListTicketsRequest.t :=
  ListTicketsRequest.mk None None (Some "open") (Some key) (Some "true") None None None None None.
(** The first candidate that is an open child. *)
Fixpoint first_open_child (parent_id : string) (candidates : list PTicket.t) : run (option string) :=
  match candidates with
  | [] => mret None
  | c :: candidates =>
      detail ← rpc_failed "get_ticket" (get (PTicket.id c) None);
      let ticket := GetTicketResponse.ticket detail in
      if bool_decide (PTicket.parent_id ticket = parent_id) && bool_decide (PTicket.status ticket = "open")
      then mret (Some (PTicket.id ticket))
      else first_open_child parent_id candidates
  end.
Definition find_existing_issue (parent_id key : string) : run (option string) :=
  candidates ← rpc_failed "list_tickets" (list_ (open_issues_request key));
  first_open_child parent_id candidates.1.

Definition issue_request (parent_id title body : string) : CreateTicketRequest.t :=
  CreateTicketRequest.mk (project_of_id parent_id) "code" "" 2 (Some parent_id) title body None None
    false None.
(** [TicketClient::create_workflow_issue_ticket] *)
Definition create_issue (parent_id issue_type title body : string) : run string :=
  let key := issue_key issue_type in
  existing ← find_existing_issue parent_id key;
  match existing with
  | Some existing_id => mret existing_id
  | None =>
      ticket_id ← rpc_failed "create_ticket" (create self (issue_request parent_id title body));
      rpc_failed "set_meta" (put_meta self ticket_id key "true") ;;
      mret ticket_id
  end.

(** The client inside a handler's context: its key is not the pull request's
    number, so no label refresh is spawned, and it sends no cancellation. *)
Definition create_issue_in (parent_id issue_type title body : string) : SE (ctx host) anyhow string :=
  λ c, let '(r, s) := create_issue parent_id issue_type title body (Server c [] true []) in (r, context s).

(** What the handlers and the poller use, implemented. *)
Definition ticket_services (stop_by_worker_id : string → SE (ctx host) string unit) : WorkflowServices := {|
  HandlerLib.create_workflow_issue_ticket := create_issue_in;
  HandlerLib.stop_by_worker_id := stop_by_worker_id
|}.
End TicketService.
