(* ===== verification/ServiceProps.v ===== *)
(** * What the ticket service keeps and does

    The RPCs keep at most one active workflow per ticket, which the workflow
    database itself does not enforce; two of them that overlap do not.  Dispatching
    and cancelling a workflow are specified on every branch. *)

From S2P Require Import Prelude RustStd Model Env TicketDb TicketGraph TicketRepo WorkflowDb.
From S2P Require Import WorkflowRepo WorkerRepo WorkflowProps Context Host HandlerLib HandlerRules.
From S2P Require Import TicketService TestWorld.
Local Open Scope stdpp_scope.

(** ** One active workflow per ticket *)

Definition one_active (s : wtables) : Prop :=
  ∀ i j r r', WorkflowTables.workflow s !! i = Some r → WorkflowTables.workflow s !! j = Some r' →
    W.ticket_id r = W.ticket_id r' → active r = true → active r' = true → i = j.

Lemma one_active_update P f s :
  (∀ r, W.ticket_id (f r) = W.ticket_id r) → (∀ r, active (f r) = true → active r = true) →
  one_active s → one_active (WorkflowTables.set_workflow (update_where P f (WorkflowTables.workflow s)) s).
Proof.
  intros Ht Ha Hs i j r r'. simpl. rewrite !lookup_update_where, !fmap_Some.
  intros (r0 & Hi & ->) (r1 & Hj & ->) Htt.
  assert (∀ x, W.ticket_id (if P x then f x else x) = W.ticket_id x) as Ht' by (intros x; by destruct (P x)).
  assert (∀ x, active (if P x then f x else x) = true → active x = true) as Ha'
    by (intros x; destruct (P x); auto).
  rewrite !Ht' in Htt. eauto.
Qed.

(** The RPCs that change something, the issue tickets of the workflows and the
    background refreshes. *)
Module ServiceOp.
Inductive t : Type :=
| Create (req : CreateTicketRequest.t)
| Update (req : UpdateTicketRequest.t)
| PutMeta (ticket_id key value : string)
| RemoveMeta (ticket_id key : string)
| AddBlock (blocker blocked : string)
| RemoveBlock (blocker blocked : string)
| AddLink (left right : string) (kind : option string)
| RemoveLink (left right : string)
| RecordActivity (ticket_id author message : string) (metadata : gmap string string)
| Dispatch (ticket_id status : string)
| Cancel (ticket_id : string)
| Stall (ticket_id : string)
| Redrive (ticket_id status : string)
| CreateIssue (parent_id issue_type title body : string)
| Refresh.

Definition exec {HE : Env} {HG : PetGraph} {HO : Host} {HH : HashOrder} (config : Config.t)
    (self : TicketServiceHandler.t) (stop : string → SE (ctx host) string unit) (o : t)
    : SE (server host) False unit :=
  match o with
  | Create req => ignore_err (create self req)
  | Update req => ignore_err (update self req)
  | PutMeta i k v => ignore_err (put_meta self i k v)
  | RemoveMeta i k => ignore_err (remove_meta self i k)
  | AddBlock a b => ignore_err (add_block a b)
  | RemoveBlock a b => ignore_err (remove_block a b)
  | AddLink a b k => ignore_err (add_link a b k)
  | RemoveLink a b => ignore_err (remove_link a b)
  | RecordActivity i a m md => ignore_err (record_activity i a m md)
  | Dispatch i st => ignore_err (dispatch_workflow self i st)
  | Cancel i => ignore_err (cancel_workflow self stop i)
  | Stall i => ignore_err (stall_workflow i)
  | Redrive i st => ignore_err (redrive self i st)
  | CreateIssue p k t b => ignore_err (create_issue self p k t b)
  | Refresh => modify (run_spawned config)
  end.
End ServiceOp.

Section Service.
Context {HE : Env} {HG : PetGraph} {HO : Host} {HH : HashOrder}.
Context (config : Config.t) (self : TicketServiceHandler.t).

Lemma run_on_workflows {A} (m : wdb A) t w h q b c k sp :
  on_workflows m (Server (Ctx t w h q b) c k sp)
  = (match (m w).1 with Ok a => Ok a | Err e => Err (db_error e) end, Server (Ctx t (m w).2 h q b) c k sp).
Proof. unfold on_workflows. rewrite run_map_err, run_zoom. cbn. rewrite run_workflows. by destruct (m w) as [[a|e] p]. Qed.
Lemma run_on_tickets {A} (m : db A) t w h q b c k sp :
  on_tickets m (Server (Ctx t w h q b) c k sp)
  = (match (m t).1 with Ok a => Ok a | Err e => Err (db_error e) end, Server (Ctx (m t).2 w h q b) c k sp).
Proof. unfold on_tickets. rewrite run_map_err, run_zoom. cbn. rewrite run_tickets. by destruct (m t) as [[a|e] p]. Qed.
Lemma run_into {A} (m : SE (server host) TicketError.t A) x :
  into m x = (match (m x).1 with Ok a => Ok a | Err e => Err (TicketError.to_status e) end, (m x).2).
Proof. unfold into. rewrite run_map_err. by destruct (m x) as [[a|e] y]. Qed.

(** The invariant, on contexts and on servers. *)
Definition one_active_ctx (c : ctx host) : Prop := one_active (tables (workflow_db c)).
Definition one_active_server (x : server host) : Prop := one_active_ctx (context x).
Local Abbreviation keeps m := (preserves one_active_server m).

Lemma holds_workflows {A} (m : wdb A) : preserves (on_tables one_active) m → keeps (on_workflows m).
Proof. intros Hm [[t w h q b] c k sp] Hx. rewrite run_on_workflows. exact (Hm w Hx). Qed.
Lemma holds_tickets {A} (m : db A) : keeps (on_tickets m).
Proof. intros [[t w h q b] c k sp] Hx. by rewrite run_on_tickets. Qed.
Lemma keeps_into {A} (m : SE (server host) TicketError.t A) : keeps m → keeps (into m).
Proof. apply preserves_map_err. Qed.
Lemma keeps_refuse {A} e : keeps (refuse e : SE (server host) Status.t A).
Proof. by intros x. Qed.
Lemma keeps_zoom {E A} (m : SE (ctx host) E A) : preserves one_active_ctx m → keeps (zoom m).
Proof. intros Hm x Hx. rewrite run_zoom. exact (Hm _ Hx). Qed.
Lemma keeps_send label i st : preserves one_active_ctx (send label i st : SE (ctx host) anyhow unit).
Proof. intros [t w h q b] Hx. by destruct b. Qed.
Lemma keeps_update_active t f :
  (∀ r, W.ticket_id (f r) = W.ticket_id r) → (∀ r, active (f r) = true → active r = true) →
  preserves (on_tables one_active) (update_active t f).
Proof. intros Ht Ha. apply preserves_update_stmt. intros s. by apply one_active_update. Qed.
Lemma keeps_workflow_stmt (f : wtables → wtables) :
  (∀ s, WorkflowTables.workflow (f s) = WorkflowTables.workflow s) →
  preserves (on_tables one_active) (update_stmt f).
Proof. intros Hf. apply preserves_update_stmt. intros s Hs. unfold one_active in *. by rewrite Hf. Qed.

Lemma keeps_spawn {E} t : keeps (spawn_label_refresh_for_ticket self t : SE _ E unit).
Proof. unfold spawn_label_refresh_for_ticket. case_match; by intros x. Qed.
Lemma keeps_send_cancel {E} t : keeps (send_cancel self t : SE _ E unit).
Proof.
  unfold send_cancel. case_match; [|by intros x]. apply preserves_modify. intros [c q [] sp]; done.
Qed.

(** A label refresh reads the databases and calls a worker. *)
Lemma keeps_label_refresh t : preserves one_active_ctx (label_refresh config t).
Proof.
  assert (∀ A (m : wdb A), preserves (on_tables one_active) m →
    preserves one_active_ctx (workflows m : SE (ctx host) _ A)) as Hw.
  { intros A m Hm [t' w h q b] Hx. rewrite run_workflows. exact (Hm w Hx). }
  assert (∀ A (m : db A), preserves one_active_ctx (tickets m : SE (ctx host) _ A)) as Ht.
  { intros A m [t' w h q b] Hx. by rewrite run_tickets. }
  assert (∀ E A (m : SE host E A), preserves one_active_ctx (external m)) as He.
  { intros E A m [t' w h q b] Hx. by rewrite run_external. }
  assert (∀ A (m : SE (ctx host) anyhow A), preserves one_active_ctx m → preserves one_active_ctx (log_error m)) as Hl.
  { intros A m Hm. apply preserves_bind; [by apply preserves_attempt|]. intros [|[]]; by intros x. }
  unfold label_refresh. apply preserves_bind; [apply preserves_attempt, Hw, preserves_select|].
  intros [[wf|]|]; [|by intros x..]. case_match; [by intros x|]. apply Hl.
  unfold push_label, load_worker, expect_some, wrap, set_status_left, workerd_request, of_sqlx, get_worker, bail.
  solve_preserves.
  all: try (apply Hw; solve_preserves); try apply Ht; try apply He; by intros x.
Qed.

Lemma keeps_run_spawned (x : server host) : one_active_server x → one_active_server (run_spawned config x).
Proof.
  intros Hx. unfold run_spawned. destruct (spawned x) as [|t rest]; [done|].
  exact (keeps_label_refresh t _ Hx).
Qed.

(** ** Dispatching *)

(** What [check_dispatch] has seen when it lets a status through. *)
Lemma check_dispatch_idle i status x :
  match check_dispatch self i status x with
  | (Ok st, y) => LifecycleStatus.from_str status = Ok st
      ∧ ∀ j r, WorkflowTables.workflow (tables (workflow_db (context y))) !! j = Some r → active_for i r = false
  | (Err _, _) => True
  end
  ∧ tables (workflow_db (context (check_dispatch self i status x).2)) = tables (workflow_db (context x)).
Proof.
  destruct x as [[t w h q b] c k sp]. unfold check_dispatch. destruct (negb _); [done|].
  rewrite run_bind, run_into, run_on_tickets. cbn [fst snd].
  destruct (get_ticket i t) as [[o|e] t1]; cbn; [|done]. rewrite run_bind, run_into, run_ok_or. cbn.
  destruct o as [ticket|]; cbn; [|done]. case_bool_decide; cbn; [done|].
  destruct (type_dispatchable _); cbn; [|done]. unfold parse_status.
  destruct (LifecycleStatus.from_str status) as [st|e] eqn:Hst; [|done].
  rewrite run_bind, run_ret, run_bind, run_into, run_on_workflows. cbn [fst snd].
  unfold get_workflow_by_ticket, get_workflow_by_ticket_inner, select, statement.
  destruct w as [s fs n]. destruct fs as [|[] fs]; [|done|].
  all: cbn; destruct (head (matching (active_for i) (WorkflowTables.workflow s))) as [r|] eqn:Hh; cbn; [done|].
  all: split; [split; [done|]|done]; intros j r Hj; destruct (active_for i r) eqn:Ha; [exfalso|done].
  all: apply head_None in Hh; assert (r ∈ matching (active_for i) (WorkflowTables.workflow s)) as Hr
         by (apply elem_of_matching; eauto); rewrite Hh in Hr; by apply elem_of_nil in Hr.
Qed.

(** A row for a ticket without an active workflow. *)
Lemma one_active_insert s m i t st now :
  (∀ j r, WorkflowTables.workflow s !! j = Some r → active_for t r = false) → one_active s →
  insert_row i (W.fresh i t st now) (WorkflowTables.workflow s) = Ok m →
  one_active (WorkflowTables.set_workflow m s).
Proof.
  intros Hidle Hs [Hn ->]%insert_row_Ok j k r r'. simpl.
  assert (∀ j r, WorkflowTables.workflow s !! j = Some r → W.ticket_id r = t → active r = true → False) as Hno.
  { intros j' x Hx Ht Ha. specialize (Hidle j' x Hx). unfold active_for in Hidle.
    by rewrite Ht, Ha, bool_decide_true in Hidle. }
  intros [[<- <-]|[Hj Hr]]%lookup_insert_Some [[<- <-]|[Hk Hr']]%lookup_insert_Some Ht Ha Ha'; [done| | |eauto].
  - exfalso. by apply (Hno k r').
  - exfalso. by apply (Hno j r).
Qed.

Lemma holds_dispatch i status : keeps (dispatch_workflow self i status).
Proof.
  intros x Hx. unfold dispatch_workflow. rewrite run_bind. pose proof (check_dispatch_idle i status x) as [Hi Ht].
  destruct (check_dispatch self i status x) as [[st|e] y]; cbn [snd] in Ht; [|unfold one_active_server, one_active_ctx; simpl; by rewrite Ht].
  destruct Hi as [_ Hidle]. assert (one_active_server y) as Hy by (unfold one_active_server, one_active_ctx; by rewrite Ht).
  unfold start_workflow. rewrite run_bind, run_into. clear Ht Hx x.
  destruct y as [[t w h q b] c k sp]. rewrite run_on_workflows. cbn [fst snd].
  assert (on_tables one_active (create_workflow i st w).2) as Hw.
  { unfold create_workflow. destruct w as [s fs n]. rewrite run_bind, run_new_uuid, run_bind, run_utc_now, run_bind.
    unfold statement. destruct fs as [|[] fs]; [|done|].
    all: cbn [faults tables]; destruct (insert_row _ _ _) as [m|e] eqn:Hm; [|exact Hy].
    all: exact (one_active_insert s m _ _ _ _ Hidle Hy Hm). }
  destruct (create_workflow i st w) as [[a|e] w'] eqn:Hc; [|exact Hw]. cbn [fst snd] in *.
  revert Hw. generalize w'. clear. intros w' Hw.
  enough (keeps (request_transition "send transition request" i st ;; mret (Workflow.id a))) as Hk by exact (Hk (Server (Ctx t w' h q b) c k sp) Hw).
  apply preserves_bind; [|intros; apply preserves_ret]. apply preserves_map_err, keeps_zoom, keeps_send.
Qed.

(** ** Dispatching, with a database that does not fail *)

Section Spec.
Context (t : tables_t) (w : wtables) (n m : nat) (h : host) (q : list TransitionRequest.t).
Context (c : list string) (k : bool) (sp : list string).
Local Abbreviation at_ w' m' q' c' := (Server (Ctx (Pool t [] n) (Pool w' [] m') h q' true) c' k sp).
Local Abbreviation start := (at_ w m q c).

(** When a ticket may be dispatched in a status. *)
Definition may_dispatch (i status : string) (st : LifecycleStatus) : Prop :=
  (∃ r, TicketTables.ticket t !! i = Some r ∧ R.status r ≠ "closed" ∧ type_dispatchable (R.type_ r) = true)
  ∧ LifecycleStatus.from_str status = Ok st
  ∧ ∀ j r, WorkflowTables.workflow w !! j = Some r → active_for i r = false.

Lemma check_dispatch_spec i status :
  TicketServiceHandler.transition_tx self = true →
  (∃ st, may_dispatch i status st ∧ check_dispatch self i status start = (Ok st, start))
  ∨ (∀ st, ¬ may_dispatch i status st) ∧ ∃ e, check_dispatch self i status start = (Err e, start)
      ∧ Status.code_of e ∈ [Status.NotFound; Status.InvalidArgument; Status.FailedPrecondition].
Proof.
  intros Htx. unfold check_dispatch. rewrite Htx. cbn [negb].
  rewrite run_bind, run_into, run_on_tickets. unfold get_ticket. rewrite run_select. cbn [fst snd].
  rewrite run_bind, run_into, run_ok_or.
  destruct (TicketTables.ticket t !! i) as [r|] eqn:Hr; cbn.
  2: { right. split; [intros st ((r & Hr' & _) & _); congruence|]. eexists. split; [done|]. by left. }
  case_bool_decide as Hc; cbn.
  { right. split; [intros st ((r' & Hr' & Hc' & _) & _); by simplify_eq|]. eexists. split; [done|]. set_solver. }
  destruct (type_dispatchable (R.type_ r)) eqn:Hty; cbn.
  2: { right. split; [intros st ((r' & Hr' & _ & Hty') & _); congruence|]. eexists. split; [done|]. set_solver. }
  unfold parse_status. destruct (LifecycleStatus.from_str status) as [st|e] eqn:Hst.
  2: { right. split; [intros st (_ & Hst' & _); congruence|]. eexists. split; [done|]. set_solver. }
  rewrite run_bind, run_ret, run_bind, run_into, run_on_workflows.
  destruct (get_workflow_by_ticket_spec w i m) as (o & -> & Hnone & Hsome). cbn [fst snd].
  destruct o as [wf|]; cbn.
  - right. destruct (Hsome wf eq_refl) as (j & x & Hx & Ha & _).
    split; [intros st' (_ & _ & Hno); rewrite (Hno j x Hx) in Ha; done|]. eexists. split; [done|]. set_solver.
  - left. exists st. split; [|done]. split_and!; [|done|by apply Hnone]. by exists r.
Qed.

(** Dispatching a ticket: when it exists, is not closed, has a dispatchable
    type and no active workflow, and the status is one, a workflow in that status
    is stored, the coordinator is asked for it and the new id is returned;
    otherwise the request is refused and nothing changes at all. *)
Theorem dispatch_workflow_spec i status :
  TicketServiceHandler.transition_tx self = true →
  WorkflowTables.workflow w !! uuid_v4 m = None →
  (∃ st, may_dispatch i status st ∧
     dispatch_workflow self i status start
     = (Ok (uuid_v4 m),
        at_ (WorkflowTables.set_workflow
               (<[uuid_v4 m := W.fresh (uuid_v4 m) i status (now_rfc3339 (S m))]>
                  (WorkflowTables.workflow w)) w)
          (S (S m)) (q ++ [TransitionRequest.mk i st]) c))
  ∨ (∀ st, ¬ may_dispatch i status st) ∧ ∃ e, dispatch_workflow self i status start = (Err e, start)
      ∧ Status.code_of e ∈ [Status.NotFound; Status.InvalidArgument; Status.FailedPrecondition].
Proof.
  intros Htx Hu. unfold dispatch_workflow. rewrite run_bind.
  destruct (check_dispatch_spec i status Htx) as [(st & Hm & ->)|[Hno (e & -> & Hc)]]; [left|right; eauto].
  exists st. split; [done|]. destruct Hm as (_ & Hst%LifecycleStatus.as_from_str & _).
  unfold start_workflow. rewrite run_bind, run_into, run_on_workflows.
  unfold create_workflow. rewrite run_bind, run_new_uuid, run_bind, run_utc_now, run_bind.
  rewrite run_statement, insert_row_fresh by done. rewrite Hst. reflexivity.
Qed.
End Spec.

(** ** All requests *)

Context (stop_by_worker_id : string → SE (ctx host) string unit).
Context (Hstop : ∀ w x, leaves_workflows x (stop_by_worker_id w x).2).

Lemma keeps_stop w : preserves one_active_ctx (stop_by_worker_id w).
Proof. intros x Hx. unfold one_active_ctx, one_active in *. by rewrite (leaves_rows _ _ (Hstop w x)). Qed.

Lemma keeps_cancel i : keeps (cancel_active_workflow self stop_by_worker_id i).
Proof.
  apply preserves_bind; [apply keeps_into, holds_workflows, preserves_select|]. intros [wf|]; [|apply preserves_ret].
  apply preserves_bind; [apply keeps_send_cancel|intros _].
  apply preserves_bind.
  { unfold kill_workflow_worker. repeat case_match; try apply preserves_ret. apply preserves_ignore_err, keeps_zoom, keeps_stop. }
  intros _. apply preserves_bind; [by apply keeps_into, holds_workflows, keeps_workflow_stmt|intros _].
  apply keeps_into, holds_workflows, keeps_update_active; [done|]. by intros r.
Qed.

Ltac solve_keeps :=
  repeat first
    [ match goal with |- ∀ _, _ => intro end
    | apply holds_workflows; first [apply preserves_select | apply keeps_update_active; [done|by intros []]
                                   | by apply keeps_workflow_stmt | by auto]
    | apply keeps_into | apply holds_tickets | apply keeps_refuse | apply keeps_spawn
    | apply preserves_bind | apply preserves_ret | apply preserves_throw | apply preserves_ok_or
    | apply preserves_ignore_err | apply preserves_attempt | apply preserves_map_err
    | apply preserves_for_each
    | case_match ].

Lemma keeps_put_meta i k v : keeps (put_meta self i k v).
Proof. unfold put_meta. solve_keeps.
Qed.
Lemma keeps_create req : keeps (create self req).
Proof. unfold create. solve_keeps. Qed.
Lemma keeps_list req : keeps (list_ req).
Proof.
  unfold list_, list_page, enrich, enrich_dispatch_status, enrich_blocked, list_tree, list_by_meta, hydrate_meta_matches.
  assert (∀ ids, preserves (on_tables one_active) (get_active_workflows_by_ticket_ids ids)) as Ha.
  { intros ids. unfold get_active_workflows_by_ticket_ids. case_match; [apply preserves_ret|apply preserves_select]. }
  solve_keeps.
Qed.
Lemma keeps_get a f : keeps (get a f).
Proof. unfold get, resolve_ticket_ref. solve_keeps. Qed.
Lemma keeps_create_issue p k t b : keeps (create_issue self p k t b).
Proof.
  unfold create_issue, find_existing_issue, rpc_failed.
  assert (∀ l, keeps (first_open_child p l)) as Hc.
  { induction l as [|x l IH]; [apply preserves_ret|]. cbn [first_open_child].
    apply preserves_bind; [apply preserves_map_err, keeps_get|]. intros d. case_match; [apply preserves_ret|exact IH]. }
  repeat first [progress intros | apply Hc | apply keeps_put_meta | apply keeps_create | apply keeps_list
    | apply preserves_bind | apply preserves_ret | apply preserves_map_err | case_match].
Qed.
Lemma keeps_redrive i st : keeps (redrive self i st).
Proof.
  unfold redrive, parse_status, request_transition. solve_keeps.
  all: try (apply keeps_zoom, keeps_send).
  all: apply keeps_zoom; intros [t' w h q b] Hx; rewrite run_workflows.
  all: refine (keeps_update_active _ _ _ _ w Hx); [done|by intros []].
Qed.

(** C23: Whatever sequence of requests the ticket service handles, one after another, with
    whatever database failures, a ticket never has two active workflows if none had at the
    start, although the database would accept a second one.  Two dispatches of a ticket
    that overlap can give it two: [overlapping_dispatches] below. *)
Theorem service_keeps_one_active (ops : list ServiceOp.t) (x : server host) :
  one_active (tables (workflow_db (context x))) →
  one_active (tables (workflow_db (context
    (for_each (ServiceOp.exec config self stop_by_worker_id) ops x).2))).
Proof.
  apply (preserves_for_each one_active_server). intros o.
  destruct o; cbn [ServiceOp.exec]; try apply preserves_ignore_err.
  all: try first [apply keeps_create | apply keeps_put_meta | apply holds_dispatch | apply keeps_cancel
                 | apply keeps_create_issue | apply keeps_redrive].
  - unfold update, close_children. solve_keeps.
  - unfold remove_meta. solve_keeps.
  - unfold add_block. solve_keeps.
  - unfold remove_block. solve_keeps.
  - unfold add_link. solve_keeps.
  - unfold remove_link. solve_keeps.
  - unfold record_activity. solve_keeps.
  - apply preserves_map_err, keeps_zoom. intros [t' w h q b] Hx. rewrite run_workflows.
    refine (keeps_update_active _ _ _ _ w Hx); [done|by intros []].
  - apply preserves_modify. intros y. apply keeps_run_spawned.
Qed.

(** ** Cancelling, with a database that does not fail *)

Local Abbreviation rows_of x := (WorkflowTables.workflow (tables (workflow_db (context x)))).
Local Abbreviation intents_of x := (WorkflowTables.workflow_intent (tables (workflow_db (context x)))).

(** What the two statements of a cancellation leave. *)
Lemma cancel_statements i y : faults (workflow_db (context y)) = [] →
  ∃ z, (into (on_workflows (delete_intents_for_ticket i)) ;;
        into (on_workflows (update_workflow_status i LifecycleStatus.Cancelled))) y = (Ok tt, z)
  ∧ rows_of z = update_where (active_for i) (W.set_status "cancelled") (rows_of y)
  ∧ intents_of z = filter (λ kv, IntentRow.ticket_id kv.2 ≠ i) (intents_of y)
  ∧ cancelled z = cancelled y.
Proof.
  destruct y as [[t [s fs m] h q b] c k sp]. cbn. intros ->.
  rewrite run_bind, run_into, run_on_workflows. eexists. split; [reflexivity|]. by split_and!.
Qed.

(** Cancelling a workflow always succeeds when the database works.  A ticket
    without an active workflow is left alone; otherwise exactly its active
    workflows become cancelled, exactly its intents are removed and the
    coordinator is told to abort its handler. *)
Theorem cancel_workflow_spec i x : faults (workflow_db (context x)) = [] →
  ∃ y, cancel_workflow self stop_by_worker_id i x = (Ok tt, y)
  ∧ ((∀ j r, rows_of x !! j = Some r → active_for i r = false) → y = x)
  ∧ ((∃ j r, rows_of x !! j = Some r ∧ active_for i r = true) →
       rows_of y = update_where (active_for i) (W.set_status "cancelled") (rows_of x)
       ∧ (∀ j r, rows_of y !! j = Some r → active_for i r = false)
       ∧ (∀ j r, intents_of y !! j = Some r ↔ intents_of x !! j = Some r ∧ IntentRow.ticket_id r ≠ i)
       ∧ (TicketServiceHandler.cancel_tx self = true → cancel_receiving x = true →
          cancelled y = cancelled x ++ [i])).
Proof.
  destruct x as [[t [s fs m] h q b] c k sp]. cbn. intros ->.
  unfold cancel_workflow, cancel_active_workflow. rewrite run_bind, run_into, run_on_workflows.
  destruct (get_workflow_by_ticket_spec s i m) as (o & -> & Hnone & Hsome). cbn [fst snd].
  destruct o as [wf|].
  2: { eexists. split; [done|]. split; [done|]. intros (j & r & Hj & Ha).
       by rewrite (proj1 Hnone eq_refl j r Hj) in Ha. }
  set (x1 := Server _ c k sp). rewrite run_bind.
  set (x2 := (send_cancel self i x1 : result unit Status.t * _).2).
  assert (send_cancel self i x1 = (Ok tt, x2) ∧ context x2 = context x1
    ∧ (TicketServiceHandler.cancel_tx self = true → k = true → cancelled x2 = c ++ [i])) as (-> & Hc2 & Hcan).
  { unfold x2, send_cancel, x1. destruct (TicketServiceHandler.cancel_tx self); [|done].
    rewrite run_modify. by destruct k. }
  rewrite run_bind. set (x3 := (kill_workflow_worker self stop_by_worker_id i (Workflow.worker_id wf) x2 : result unit Status.t * _).2).
  assert (kill_workflow_worker self stop_by_worker_id i (Workflow.worker_id wf) x2 = (Ok tt, x3)
    ∧ faults (workflow_db (context x3)) = [] ∧ rows_of x3 = WorkflowTables.workflow s
    ∧ intents_of x3 = WorkflowTables.workflow_intent s ∧ cancelled x3 = cancelled x2) as (-> & Hf & Hr & Hi & Hc3).
  { unfold x3, kill_workflow_worker. do 2 (case_match; [by rewrite run_ret; cbn; rewrite Hc2|]).
    rewrite run_ignore_err, run_zoom. cbn [fst snd view put context_lens context cancelled].
    destruct (Hstop (Workflow.worker_id wf) (context x2)) as [? ? Hw _]. rewrite Hc2 in *.
    split_and!; try done. by apply Hw. }
  destruct (cancel_statements i x3 Hf) as (y & -> & Hy1 & Hy2 & Hy3). rewrite Hr in Hy1. rewrite Hi in Hy2.
  exists y. split; [done|]. split.
  - intros Hno. destruct (Hsome wf eq_refl) as (j & r & Hj & Ha & _). by rewrite (Hno j r Hj) in Ha.
  - intros _. split; [done|]. rewrite Hy1, Hy2, Hy3, Hc3. split_and!; [| |done].
    + intros j r. rewrite lookup_update_where, fmap_Some. intros (r0 & _ & ->).
      destruct (active_for i r0) eqn:E; [|done]. unfold active_for. by rewrite andb_false_r.
    + intros j r. by rewrite map_lookup_filter_Some.
Qed.
End Service.

(** ** A concrete server *)

Definition map_order : HashOrder := {|
  iter_map m := map_to_list m;
  iter_set s := elements s;
  iter_map_perm m := Permutation_refl _;
  iter_set_perm s := Permutation_refl _
|}.
Definition full_handler : TicketServiceHandler.t := TicketServiceHandler.mk {[ "ur" ]} true true true true.
Definition test_stop : string → SE (ctx world) string unit := @stop_by_worker_id test_host test_services.
Definition test_server (row : WorkflowRow.t) : server world := Server (test_ctx "feature" row []) [] true [].
(** The ticket's only workflow is done. *)
Definition idle_server : server world :=
  test_server (test_workflow "done" 0 "pending" "unknown" "pending").
Definition busy_server : server world :=
  test_server (test_workflow "implementing" 0 "pending" "unknown" "pending").

Lemma single_workflow_active b w sc :
  one_active (tables (workflow_db (test_ctx b w sc))).
Proof. intros i j r r' [-> _]%test_ctx_workflow [-> _]%test_ctx_workflow. done. Qed.

(** A workflow is cancelled, the next one refused and then dispatched. *)
Definition dispatch_twice : list ServiceOp.t :=
  [ServiceOp.Cancel "ur-1"; ServiceOp.Dispatch "ur-1" "implementing"; ServiceOp.Dispatch "ur-1" "open"].
Definition run_ops (ops : list ServiceOp.t) (x : server world) : server world :=
  (for_each (@ServiceOp.exec test_env naive_petgraph test_host map_order test_config full_handler test_stop) ops x).2.
Lemma service_keeps_one_active_witness :
  length (matching active (WorkflowTables.workflow
    (tables (workflow_db (context (run_ops dispatch_twice busy_server)))))) = 1
  ∧ one_active (tables (workflow_db (context (run_ops dispatch_twice busy_server)))).
Proof.
  split; [vm_compute; reflexivity|].
  apply (@service_keeps_one_active test_env naive_petgraph test_host map_order test_config full_handler test_stop).
  - exact (@stop_leaves test_host test_services test_services_lawful).
  - apply single_workflow_active.
Defined.

Lemma dispatch_workflow_spec_witness :
  ∃ y, @dispatch_workflow test_env test_host full_handler "ur-1" "implementing" idle_server
       = (Ok (@uuid_v4 test_env 0), y)
     ∧ sent (context y) = [TransitionRequest.mk "ur-1" LifecycleStatus.Implementing].
Proof.
  destruct (@dispatch_workflow_spec test_env test_host full_handler (test_tickets "feature")
    (test_workflows (test_workflow "done" 0 "pending" "unknown" "pending")) 0 0
    (World [] [] [] [] [] []) [] [] true [] "ur-1" "implementing") as [(st & (_ & Hst & _) & Hrun)|[_ (e & Hrun & _)]].
  - reflexivity.
  - reflexivity.
  - injection Hst as <-. eexists. split; [exact Hrun|reflexivity].
  - vm_compute in Hrun. discriminate.
Defined.

Lemma cancel_workflow_spec_witness :
  ∃ y, @cancel_workflow test_env test_host full_handler test_stop "ur-1" busy_server = (Ok tt, y)
     ∧ cancelled y = ["ur-1"]
     ∧ ∀ j r, WorkflowTables.workflow (tables (workflow_db (context y))) !! j = Some r → active_for "ur-1" r = false.
Proof.
  destruct (@cancel_workflow_spec test_env test_host full_handler test_stop
    (@stop_leaves test_host test_services test_services_lawful) "ur-1" busy_server)
    as (y & Hrun & _ & Hact); [reflexivity|].
  destruct Hact as (_ & Hidle & _ & Hcan); [by eexists "a", _|].
  exists y. split; [exact Hrun|]. split; [by rewrite Hcan|exact Hidle].
Defined.

(** Two requests to dispatch the same ticket that overlap, so that both check
    before either stores its workflow, both succeed: the ticket then has two active
    workflows and the coordinator two requests. *)
Theorem overlapping_dispatches :
  let self := full_handler in
  let overlap : SE (server world) Status.t (string * string) :=
    st1 ← @check_dispatch test_env test_host self "ur-1" "implementing";
    st2 ← @check_dispatch test_env test_host self "ur-1" "implementing";
    i ← @start_workflow test_env test_host "ur-1" st1;
    j ← @start_workflow test_env test_host "ur-1" st2;
    mret (i, j) in
  ∃ i j y, overlap idle_server = (Ok (i, j), y) ∧ i ≠ j
    ∧ ¬ one_active (tables (workflow_db (context y)))
    ∧ length (sent (context y)) = 2.
Proof.
  eexists _, _, _. split; [vm_compute; reflexivity|]. split; [vm_compute; discriminate|]. split; [|reflexivity].
  intros Hone.
  set (row n := W.fresh (@uuid_v4 test_env n) "ur-1" "implementing" (@now_rfc3339 test_env (S n))).
  assert (@uuid_v4 test_env 0 = @uuid_v4 test_env 2) as H; [|by vm_compute in H].
  apply (Hone _ _ (row 0) (row 2)); vm_compute; reflexivity.
Qed.
