(* ===== verification/IssueProps.v ===== *)
(** * Issue tickets are created once

    The ticket client creates an issue ticket for a parent and a kind of issue
    unless one is open: a second call answers with the ticket of the first. *)

From S2P Require Import Prelude RustStd Model Env TicketDb TicketGraph TicketRepo.
From S2P Require Import TicketUpdates WorkflowDb WorkflowRepo WorkerRepo Context Host HandlerLib.
From S2P Require Import TicketService TestWorld ServiceProps.
From Stdlib Require Import Ascii.
Local Open Scope stdpp_scope.

Section Issues.
Context {HE : Env} {HG : PetGraph} {HO : Host} {HH : HashOrder} (self : TicketServiceHandler.t).
Context (w : wtables) (m : nat) (h : host) (q : list TransitionRequest.t) (b : bool).
Context (c : list string) (k : bool) (sp : list string).
(** The server with some ticket database that does not fail. *)
Local Abbreviation with_db p := (Server (Ctx p (Pool w [] m) h q b) c k sp).
Local Abbreviation on t n := (with_db (Pool t [] n)).

Definition open_with_key (t : tables_t) (key i : string) : Prop :=
  ∃ r, TicketTables.ticket t !! i = Some r ∧ R.status r = "open"
    ∧ TicketTables.meta t !! (i, "ticket", key) = Some "true".
(** An open child of [parent] marked with the issue. *)
Definition open_issue (t : tables_t) (parent key i : string) : Prop :=
  open_with_key t key i ∧ ∃ r, TicketTables.ticket t !! i = Some r ∧ R.parent_id r = Some parent.

Lemma run_blocked_among ids t n : ∃ bl, blocked_among ids (Pool t [] n) = (Ok bl, Pool t [] n).
Proof. destruct ids; eexists; reflexivity. Qed.
Lemma run_active_workflows ids :
  ∃ a, get_active_workflows_by_ticket_ids ids (Pool w [] m) = (Ok a, Pool w [] m).
Proof. destruct ids; eexists; reflexivity. Qed.

Lemma run_enrich l t n :
  ∃ l', enrich l (on t n) = (Ok l', on t n) ∧ PTicket.id <$> l' = PTicket.id <$> l.
Proof.
  unfold enrich. rewrite run_bind. destruct l as [|x l]; [by exists []|].
  unfold enrich_dispatch_status. rewrite run_bind, run_into, run_on_workflows.
  destruct (run_active_workflows (ids_to_query (x :: l))) as (a & ->). cbn [fst snd]. rewrite run_ret.
  assert (∀ l : list PTicket.t, PTicket.id <$> (set_dispatch_status a <$> l) = PTicket.id <$> l) as Hid.
  { intros l'. rewrite <-list_fmap_compose. apply list_fmap_ext. intros i y _. cbn.
    unfold set_dispatch_status. by repeat case_match. }
  rewrite fmap_cons. unfold enrich_blocked. rewrite <-fmap_cons. rewrite run_bind, run_into, run_on_tickets.
  destruct (run_blocked_among (PTicket.id <$> (set_dispatch_status a <$> x :: l)) t n) as (bl & ->).
  cbn [fst snd]. rewrite run_ret. eexists. split; [reflexivity|].
  rewrite <-(Hid (x :: l)), <-!list_fmap_compose. by apply list_fmap_ext.
Qed.

(** The rows that carry the key, as the listing finds them. *)
Lemma elem_of_key_matches (t : tables_t) key i : wf t →
  i ∈ MetadataMatchTicket.id <$> (meta_match <$> order_by by_join_priority
        (filter (λ x, x.2.1.2 = key ∧ x.2.2 = "true") (meta_join t)))
  ↔ ∃ r, TicketTables.ticket t !! i = Some r ∧ TicketTables.meta t !! (i, "ticket", key) = Some "true".
Proof.
  intros ((Hk & _) & _). rewrite <-list_fmap_compose, list_elem_of_fmap. split.
  - intros ([r [[[e ty] k'] v]] & -> & Hx). rewrite elem_of_order_by in Hx.
    apply list_elem_of_filter in Hx as [[Hkey Hv] Hj]. cbn in Hkey, Hv. subst k' v.
    unfold meta_join in Hj. apply list_elem_of_bind in Hj as ([[[e' ty'] k'] v'] & Hr & Hm).
    cbn in Hr. case_decide as Hty; [|by apply elem_of_nil in Hr]. subst ty'.
    apply list_elem_of_fmap in Hr as (r' & Heq & Hr). simplify_eq. apply elem_of_option_list in Hr.
    apply elem_of_map_to_list in Hm. match type of Hr with _ !! ?e0 = Some ?r0 => pose proof (Hk e0 r0 Hr) as He end. simpl in He. cbn. rewrite He. eauto.
  - intros (r & Hr & Hm). exists (r, ((i, "ticket", key), "true")). pose proof (Hk i r Hr) as He. simpl in He.
    split; [done|]. rewrite elem_of_order_by. apply list_elem_of_filter. split; [done|].
    unfold meta_join. apply list_elem_of_bind. exists ((i, "ticket", key), "true").
    split; [|by apply elem_of_map_to_list]. cbn. rewrite decide_True by done.
    apply list_elem_of_fmap. exists r. split; [done|]. by apply elem_of_option_list.
Qed.

Lemma run_get_tickets_by_ids (t : tables_t) n ids : wf t →
  ∃ l, get_tickets_by_ids ids (Pool t [] n) = (Ok l, Pool t [] n)
    ∧ ∀ x, x ∈ l ↔ ∃ r, TicketTables.ticket t !! R.id r = Some r ∧ R.id r ∈ ids ∧ x = ticket_of r 0 0.
Proof.
  intros ((Hk & _) & _). destruct ids as [|i ids].
  { exists []. split; [done|]. intros x. split; [intros Hx; by apply elem_of_nil in Hx|].
    intros (r & _ & Hr & _). by apply elem_of_nil in Hr. }
  eexists. split; [reflexivity|]. intros x. rewrite list_elem_of_fmap. split.
  - intros (r & -> & Hr). rewrite elem_of_order_by in Hr. apply list_elem_of_filter in Hr as [Hin Hr].
    apply elem_of_rows in Hr as (j & Hj). exists r.
    split_and!; [by rewrite (Hk j r Hj)|done..].
  - intros (r & Hr & Hin & ->). exists r. split; [done|]. rewrite elem_of_order_by.
    apply list_elem_of_filter. split; [done|]. apply elem_of_rows. eauto.
Qed.

Lemma run_list_issues t n key : wf t → key ≠ "" →
  ∃ l z, list_ (open_issues_request key) (on t n) = (Ok (l, z), on t n)
    ∧ ∀ i, i ∈ PTicket.id <$> l ↔ open_with_key t key i.
Proof.
  intros Hwf Hkey. unfold list_, open_issues_request, non_empty. cbn [ListTicketsRequest.meta_key
    ListTicketsRequest.meta_value ListTicketsRequest.project ListTicketsRequest.ticket_type ListTicketsRequest.status].
  rewrite (bool_decide_false (key = "")) by done. cbn [bool_decide decide].
  rewrite (bool_decide_false ("true" = "")), (bool_decide_false ("open" = "")) by done.
  rewrite run_bind, run_into. unfold list_by_meta. rewrite run_bind, run_on_tickets.
  unfold tickets_by_metadata. rewrite run_select. cbn [fst snd].
  set (matches := meta_match <$> _). unfold hydrate_meta_matches. rewrite run_bind, run_on_tickets.
  destruct (run_get_tickets_by_ids t n (MetadataMatchTicket.id <$> matches) Hwf) as (full & -> & Hfull).
  cbn [fst snd MetaListFilter.status MetaListFilter.project MetaListFilter.type_].
  rewrite run_ret. cbn [fst snd]. rewrite run_bind.
  match goal with |- context [enrich ?l _] => destruct (run_enrich l t n) as (l' & -> & Hids) end.
  rewrite run_ret. do 2 eexists. split; [reflexivity|]. intros i. rewrite Hids.
  rewrite <-list_fmap_compose, list_elem_of_fmap. setoid_rewrite list_elem_of_filter. setoid_rewrite Hfull.
  unfold matches. setoid_rewrite (elem_of_key_matches t key _ Hwf).
  assert (split_trimmed "open" = ["open"]) as -> by done. cbn [is_none_or_eq andb].
  rewrite (bool_decide_false (["open"] = [])) by done. cbn [orb]. setoid_rewrite bool_decide_eq_true.
  setoid_rewrite list_elem_of_singleton. unfold open_with_key. destruct Hwf as ((Hk & _) & _). split.
  - intros (x & -> & Hst & r & Hr & (r' & Hr' & Hm) & ->). exists r. cbn in *. by simplify_eq.
  - intros (r & Hr & Hst & Hm). exists (ticket_of r 0 0). pose proof (Hk i r Hr) as Hi. simpl in Hi.
    split; [by rewrite <-Hi|]. split; [done|]. exists r. rewrite Hi. eauto.
Qed.

Lemma run_get t n i r : TicketTables.ticket t !! i = Some r →
  ∃ d, get i None (on t n) = (Ok d, on t n)
    ∧ GetTicketResponse.ticket d = PTicket.of_ticket (ticket_from_row t r) 0.
Proof.
  intros Hr. unfold get, resolve_ticket_ref, get_ticket_by_id, get_ticket.
  rewrite run_bind, run_into, run_bind, run_on_tickets, run_select. cbn [fst snd]. rewrite Hr. cbn [fmap option_fmap option_map].
  rewrite bool_decide_true by done. rewrite run_ret. cbn [fst snd].
  rewrite run_bind, run_into, run_on_tickets, run_select. cbn [fst snd]. rewrite Hr. cbn [fmap option_fmap option_map].
  rewrite run_bind, run_into, run_ok_or. cbn [fst snd]. rewrite run_bind, run_into, run_on_tickets.
  unfold get_meta. rewrite run_select. cbn [fst snd]. rewrite run_bind, run_into, run_on_tickets.
  unfold get_activities. rewrite run_select. cbn [fst snd]. rewrite run_bind, run_into, run_on_tickets.
  unfold edges_for. rewrite run_select. cbn [fst snd]. rewrite run_ret. by eexists.
Qed.

(** The search for an open child among candidates. *)
Lemma run_first_open_child t n parent l : wf t → parent ≠ "" →
  (∀ i, i ∈ PTicket.id <$> l → ∃ r, TicketTables.ticket t !! i = Some r) →
  ∃ o, first_open_child parent l (on t n) = (Ok o, on t n)
    ∧ (∀ i, o = Some i → i ∈ PTicket.id <$> l
         ∧ ∃ r, TicketTables.ticket t !! i = Some r ∧ R.parent_id r = Some parent)
    ∧ (o = None → ∀ i r, i ∈ PTicket.id <$> l → TicketTables.ticket t !! i = Some r →
         R.parent_id r = Some parent → R.status r ≠ "open").
Proof.
  intros Hwf Hp. pose proof (proj1 (proj1 Hwf)) as Hk. induction l as [|x l IH]; intros Hl.
  { exists None. split_and!; [done|done|]. intros _ i r Hi. by apply elem_of_nil in Hi. }
  destruct IH as (o & Ho & Hsome & Hnone); [intros i Hi; apply Hl; by right|].
  destruct (Hl (PTicket.id x)) as (r & Hr); [by left|]. cbn [first_open_child].
  destruct (run_get t n _ r Hr) as (d & Hd & Hdt). rewrite run_bind. unfold rpc_failed.
  rewrite run_map_err, Hd. cbn zeta. rewrite Hdt. cbn [PTicket.of_ticket ticket_from_row ticket_of
    PTicket.parent_id PTicket.status PTicket.id Ticket.parent_id Ticket.status Ticket.id].
  pose proof (Hk _ r Hr) as Hid. simpl in Hid. rewrite Hid.
  case_bool_decide as Hpar; [case_bool_decide as Hst|]; cbn [andb].
  - eexists. split; [done|]. split; [|done]. intros i [= <-]. split; [by left|]. exists r. split; [done|].
    destruct (R.parent_id r); cbn in Hpar; congruence.
  - exists o. split; [exact Ho|]. split.
    + intros i Hi. destruct (Hsome i Hi) as [? ?]. split; [by right|done].
    + intros Hn i r' Hi Hr'. rewrite fmap_cons in Hi. apply elem_of_cons in Hi as [->|Hi]; [by simplify_eq|].
      by apply (Hnone Hn i).
  - exists o. split; [exact Ho|]. split.
    + intros i Hi. destruct (Hsome i Hi) as [? ?]. split; [by right|done].
    + intros Hn i r' Hi Hr' Hpr. rewrite fmap_cons in Hi.
      apply elem_of_cons in Hi as [->|Hi]; [simplify_eq; by rewrite Hpr in Hpar|]. by apply (Hnone Hn i).
Qed.

Lemma run_find_existing t n parent key : wf t → parent ≠ "" → key ≠ "" →
  ∃ o, find_existing_issue parent key (on t n) = (Ok o, on t n)
    ∧ (∀ i, o = Some i → open_issue t parent key i)
    ∧ (o = None → ∀ i, ¬ open_issue t parent key i).
Proof.
  intros Hwf Hp Hkey. unfold find_existing_issue, rpc_failed. rewrite run_bind, run_map_err.
  destruct (run_list_issues t n key Hwf Hkey) as (l & z & -> & Hl). cbn [fst].
  destruct (run_first_open_child t n parent l Hwf Hp) as (o & -> & Hsome & Hnone).
  { intros i (r & Hr & _)%Hl. eauto. }
  exists o. split_and!; [done| |].
  - intros i Hi. destruct (Hsome i Hi) as [Hin Hpar]. apply Hl in Hin. by split.
  - intros Hn i [Ho (r & Hr & Hpr)]. pose proof Ho as (r' & Hr' & Hst & _).
    assert (r' = r) as -> by congruence.
    apply Hl in Ho. by apply (Hnone Hn i r).
Qed.

(** A ticket created as an issue: a fresh id and an open child of its parent. *)
Lemma run_create_child t n parent title body tk p : wf t → parent ∈ ids t →
  create_ticket (new_ticket_of (issue_request parent title body)) (Pool t [] n) = (Ok tk, p) →
  ∃ now n', p = Pool (with_row t (new_row (Ticket.id tk) (new_ticket_of (issue_request parent title body)) now)) [] n'
    ∧ Ticket.id tk ∉ ids t ∧ wf (tables p).
Proof.
  intros Hwf Hpar Hrun. set (nt := new_ticket_of (issue_request parent title body)) in *.
  assert (wf (tables p)) as Hwf'.
  { replace p with (create_ticket nt (Pool t [] n)).2 by (by rewrite Hrun). by apply wf_create_ticket. }
  revert Hrun. unfold create_ticket. change (NewTicket.created_at nt) with (None : option string).
  change (NewTicket.id nt) with (None : option string). rewrite run_bind, run_utc_now, run_bind.
  unfold insert_with_generated_id. rewrite run_bind, run_generate_base36.
  rewrite (run_insert_attempts t Hwf _ nt).
  2: { unfold parent_ok, new_row. cbn. by destruct (bool_decide (parent = "")). }
  destruct (list_find _ _) as [[j i]|] eqn:Hf; [|done].
  apply list_find_Some in Hf as (Hj & Hfree & _).
  rewrite run_bind. cbn [when bool_decide decide]. rewrite bool_decide_false by (by intros [? [=]]).
  cbn [when]. rewrite !run_ret. intros [= <- <-]. cbn [Ticket.id new_ticket_result]. eauto.
Qed.

Lemma run_put_issue_key t n i kind : wf t →
  put_meta self i (issue_key kind) "true" (on t n)
  = (Ok tt, on (with_meta t (<[(i, "ticket", issue_key kind) := "true"]> (TicketTables.meta t))) n).
Proof.
  intros Hwf. unfold put_meta. rewrite !bool_decide_false by (unfold issue_key; discriminate).
  rewrite run_bind, run_into, run_on_tickets. unfold set_meta. rewrite run_statement, commit_self; [done|].
  by apply with_meta_wf.
Qed.

(** C24: Creating an issue ticket answers with an open child of the parent that
    carries the kind's metadata key, the existing one when there is one, and then
    nothing changes; a new one otherwise, and then it is the only one.  Asking again
    for the same parent and kind, with any text, answers with the same ticket and
    changes nothing. *)
Theorem issue_ticket_once t n parent kind title body i y :
  wf t → parent ∈ ids t → parent ≠ "" →
  create_issue self parent kind title body (on t n) = (Ok i, y) →
  (∃ t' n', y = (on t' n') ∧ wf t' ∧ open_issue t' parent (issue_key kind) i
     ∧ ((∃ j, open_issue t parent (issue_key kind) j) → y = on t n)
     ∧ ((∀ j, ¬ open_issue t parent (issue_key kind) j) →
          i ∉ ids t ∧ ∀ j, open_issue t' parent (issue_key kind) j → j = i))
  ∧ ∀ title' body', create_issue self parent kind title' body' y = (Ok i, y).
Proof.
  intros Hwf Hpar Hp Hrun. assert (issue_key kind ≠ "") as Hkey by (unfold issue_key; discriminate).
  destruct (run_find_existing t n parent (issue_key kind) Hwf Hp Hkey) as (o & Hfind & Hsome & Hnone).
  unfold create_issue in Hrun. rewrite run_bind, Hfind in Hrun. destruct o as [i0|].
  - injection Hrun as <- <-. split.
    + exists t, n. split_and!; [done|done|by apply Hsome|done|]. intros Hno. by destruct (Hno i0 (Hsome i0 eq_refl)).
    + intros title' body'. unfold create_issue. by rewrite run_bind, Hfind.
  - rewrite run_bind in Hrun. unfold rpc_failed at 1 in Hrun. rewrite run_map_err in Hrun. unfold create in Hrun.
    destruct (negb (project_known _ _)); [done|]. rewrite run_bind, run_into, run_on_tickets in Hrun.
    destruct (create_ticket _ (Pool t [] n)) as [[tk|e] p] eqn:Hc; [|done]. cbn [fst snd] in Hrun.
    destruct (run_create_child t n parent title body tk p Hwf Hpar Hc) as (now & n' & -> & Hfree & Hwf1).
    rewrite run_ret, run_bind in Hrun. unfold rpc_failed in Hrun.
    rewrite run_map_err, run_put_issue_key, run_ret in Hrun by exact Hwf1. injection Hrun as <- <-.
    set (i := Ticket.id tk) in *. set (r := new_row i _ now) in *.
    set (t1 := with_row t r) in *. set (t2 := with_meta t1 _).
    assert (wf t2) as Hwf2 by by apply with_meta_wf.
    assert (open_issue t2 parent (issue_key kind) i) as Hopen.
    { assert (TicketTables.ticket t2 !! i = Some r) as Hr by (simpl; by rewrite lookup_insert_eq).
      split; exists r; (split; [exact Hr|]); [|by unfold r, new_row; cbn; rewrite bool_decide_false].
      split; [done|]. simpl. by rewrite lookup_insert_eq. }
    assert (∀ j, open_issue t2 parent (issue_key kind) j → j = i) as Honly.
    { intros j [(r1 & Hr1 & Hst & Hm) (r2 & Hr2 & Hp2)]. destruct (decide (j = i)) as [|Hne]; [done|exfalso].
      simpl in Hr1, Hr2, Hm. rewrite lookup_insert_ne in Hr1, Hr2 by done. rewrite lookup_insert_ne in Hm by congruence.
      apply (Hnone eq_refl j). split; [by exists r1|by exists r2]. }
    split.
    + exists t2, n'. split_and!; [done|done|done| |done].
      intros (j & Hj). by destruct (Hnone eq_refl j).
    + intros title' body'. unfold create_issue. rewrite run_bind.
      destruct (run_find_existing t2 n' parent (issue_key kind) Hwf2 Hp Hkey) as (o & -> & Hsome' & Hnone').
      destruct o as [j|]; [|by destruct (Hnone' eq_refl i)]. by rewrite (Honly j (Hsome' j eq_refl)).
Qed.
End Issues.

(** ** The client keeps what the handlers rely on *)

Section Frame.
Context {HE : Env} {HG : PetGraph} {HO : Host} {HH : HashOrder} (self : TicketServiceHandler.t).
Context (x0 : server host).

Definition framed (s : server host) : Prop :=
  leaves_workflows (context x0) (context s) ∧ cancelled s = cancelled x0 ∧ spawned s = spawned x0.
Local Abbreviation frames m := (preserves framed m).

Lemma frames_tickets {A} (m : db A) : frames (on_tickets m).
Proof. intros [[t w h q b] c k sp] [[? ? ? ?] ?]. by rewrite run_on_tickets. Qed.
Lemma frames_select {A} (f : wtables → A) : frames (on_workflows (select f)).
Proof.
  intros [[t [s fs n] h q b] c k sp] [[Hr Hi Hf Hc] Hx]. rewrite run_on_workflows.
  split; [split|exact Hx]; cbn in *.
  1,2: by destruct fs as [|[]].
  - intros H0. specialize (Hf H0). by subst fs.
  - done.
Qed.
Lemma frames_active ids : frames (on_workflows (get_active_workflows_by_ticket_ids ids)).
Proof.
  destruct ids; [|apply frames_select]. intros [[t w h q b] c k sp] Hx. by rewrite run_on_workflows.
Qed.
Lemma frames_refuse {A} e : frames (refuse e : SE (server host) Status.t A).
Proof. by intros x. Qed.

Ltac solve_frames :=
  repeat first
    [ match goal with |- ∀ _, _ => intro end
    | apply frames_select | apply frames_active | apply frames_tickets | apply frames_refuse
    | apply preserves_bind | apply preserves_ret | apply preserves_throw | apply preserves_ok_or
    | apply preserves_map_err | case_match ].

Lemma frames_create_issue p kind t b : frames (create_issue self p kind t b).
Proof.
  assert (∀ l, frames (first_open_child p l)) as Hc.
  { induction l as [|x l IH]; [apply preserves_ret|]. cbn [first_open_child]. unfold get, resolve_ticket_ref.
    apply preserves_bind; [unfold rpc_failed, into; solve_frames|]. intros d. case_match; [apply preserves_ret|exact IH]. }
  unfold create_issue, find_existing_issue, rpc_failed. apply preserves_bind.
  { apply preserves_bind; [|intros x; apply Hc]. unfold list_, list_page, enrich, enrich_dispatch_status,
      enrich_blocked, list_tree, list_by_meta, hydrate_meta_matches, into. solve_frames. }
  intros [i|]; [apply preserves_ret|]. unfold create, put_meta, into.
  rewrite !bool_decide_false by (unfold issue_key; discriminate). solve_frames.
Qed.
End Frame.

(** The issue tickets implement the interface of the handlers: no workflow, no
    request, no cancellation and no background task comes from them. *)
#[export] Instance ticket_services_lawful {HE : Env} {HG : PetGraph} {HO : Host} {HH : HashOrder}
    (self : TicketServiceHandler.t) (stop : string → SE (ctx host) string unit)
    (Hstop : ∀ w x, leaves_workflows x (stop w x).2) :
  @LawfulServices HO (ticket_services self stop).
Proof.
  split; [|exact Hstop]. intros p kind t b x. cbn. unfold create_issue_in.
  pose proof (frames_create_issue self (Server x [] true []) p kind t b (Server x [] true [])) as Hf.
  destruct (create_issue self p kind t b (Server x [] true [])) as [r s]. apply Hf. by split.
Qed.

(** ** A parent whose project has a dash in its key

    The project of the child is what stands before the first dash of the parent's
    id: for a parent of the project "my-app" that is "my". *)

Lemma dashed_project_refused {HE : Env} {HG : PetGraph} {HO : Host} {HH : HashOrder}
    (self : TicketServiceHandler.t) t n w m h q b c k sp kind title body :
  wf t → TicketServiceHandler.valid_project_keys self = {[ "my-app" ]} →
  (∀ i, ¬ open_issue t "my-app-1" (issue_key kind) i) →
  let x := Server (Ctx (Pool t [] n) (Pool w [] m) h q b) c k sp in
  ∃ e, create_issue self "my-app-1" kind title body x = (Err e, x).
Proof.
  intros Hwf Hkeys Hno x. unfold create_issue. rewrite run_bind.
  destruct (run_find_existing w m h q b c k sp t n "my-app-1" (issue_key kind) Hwf) as (o & Hf & Hsome & _);
    [done|unfold issue_key; discriminate|]. unfold x. rewrite Hf.
  destruct o as [i|]; [by destruct (Hno i (Hsome i eq_refl))|]. unfold rpc_failed, create, project_known.
  rewrite Hkeys, !bool_decide_false by (vm_compute; discriminate || (apply (bool_decide_unpack _); vm_compute; exact I)).
  by eexists.
Qed.

(** ** Witness *)

Definition issue_server : server world :=
  Server (Ctx (Pool (test_tickets "feature") [] 0) (Pool WorkflowTables.empty [] 0)
    (World [] [] [] [] [] []) [] true) [] true [].
Definition issue_run (title : string) (x : server world) : result string anyhow * server world :=
  @create_issue test_env naive_petgraph test_host map_order full_handler "ur-1" CI_FAILURE title "" x.
Definition first_issue : result string anyhow * server world := issue_run "CI failure" issue_server.
Definition first_issue_id : string := match first_issue.1 with Ok i => i | Err _ => "" end.

Lemma issue_ticket_once_witness :
  first_issue.1 = Ok first_issue_id
  ∧ issue_run "CI failure again" first_issue.2 = (Ok first_issue_id, first_issue.2).
Proof.
  assert (first_issue.1 = Ok first_issue_id) as H by (vm_compute; reflexivity).
  split; [exact H|].
  refine (proj2 (@issue_ticket_once test_env naive_petgraph test_host map_order full_handler
    WorkflowTables.empty 0 (World [] [] [] [] [] []) [] true [] true [] (test_tickets "feature") 0
    "ur-1" CI_FAILURE "CI failure" "" first_issue_id first_issue.2 _ _ _ _) "CI failure again" "").
  - apply (bool_decide_unpack _). vm_compute. exact I.
  - apply (bool_decide_unpack _). vm_compute. exact I.
  - discriminate.
  - change (first_issue = (Ok first_issue_id, first_issue.2)). rewrite <-H. by destruct first_issue.
Defined.
