(* ===== verification/Pool.v ===== *)
(** * The pool of repository slots

    [server/src/pool.rs] with its client [builder_pool_client.rs] and the worker
    strategies ([strategy.rs]).  A pool keeps clones of a project's repository in
    numbered slots; a launch acquires one, and a claim in memory holds it from its
    selection until the worker's row is linked to it.

    The file system and git work is the builder daemon's: its calls are the
    operations of [PoolHost].  The registry of projects is the map it holds when
    the operation runs.  A [SlotClaim] is the name of a slot in the claim set:
    dropping the guard removes it. *)

From S2P Require Import Prelude RustStd Model Env TicketDb WorkflowDb WorkerRepo Context Host UrConfig.
From Stdlib Require Import Ascii.
Local Open Scope stdpp_scope.

(** ** Strategies *)

Module WorkerStrategy.
Inductive t : Type := Code | Design | Manual.
#[global] Instance eq_dec : EqDecision t.
Proof. solve_decision. Defined.
Definition ALL : list t := [Code; Design; Manual].
Definition from_name (name : string) : result t string :=
  if decide (name = "code") then Ok Code
  else if decide (name = "design") then Ok Design
  else if decide (name = "manual") then Ok Manual
  else Err ("unknown worker strategy: " +:+ name).
Definition name (s : t) : string :=
  match s with Code => "code" | Design => "design" | Manual => "manual" end.
Definition common_skills : list string :=
  ["green"; "cli-design"; "reclaude"; "writing-skills"; "rag-docs"; "address-feedback"; "code-review";
   "brain"; "brain:init"].
Definition skills (s : t) : list string :=
  common_skills ++
  match s with
  | Code => ["implement"; "ship"; "bacon"; "systematic-debugging"; "test-driven-development"]
  | Design => ["design"; "dispatch"]
  | Manual => ["implement"; "implement-agents"; "ship"; "bacon"; "systematic-debugging";
               "test-driven-development"; "design"; "dispatch"; "brain:dream"; "brain:dream-init"]
  end.
Lemma strategy_from_name s : from_name (name s) = Ok s.
Proof. by destruct s. Qed.
End WorkerStrategy.
Abbreviation WorkerStrategy := WorkerStrategy.t.

(** ** The builder daemon's pool service *)

Class PoolHost {HO : Host} : Type := {
  scan_slots_rpc : string → SE host Status.t (list Z);
  prepare_new_slot_rpc : string → string → string → SE host Status.t string;
  recycle_slot_rpc : string → string → string → SE host Status.t string;
  prepare_shared_slot_rpc : string → string → SE host Status.t string;
  checkout_branch_rpc : string → string → string → string → SE host Status.t unit;
  clean_slot_rpc : string → string → SE host Status.t unit;
  code_display : Status.code → string
}.

(** The manager's state: the server's context and the slots being acquired. *)
Record pool_state (H : Type) : Type := PoolState {
  pool_ctx : ctx H;
  claiming : gset string
}.
Arguments PoolState {H}.
Arguments pool_ctx {H}.
Arguments claiming {H}.
#[export] Program Instance pool_ctx_lens {H} : Lens (pool_state H) (ctx H) := {
  view := pool_ctx;
  put c s := PoolState c (claiming s)
}.
Solve All Obligations with by intros; try destruct s.

(** [next_slot_index]: the first gap, or the next index. *)
Fixpoint next_slot_index_go (i : Z) (existing : list Z) : Z :=
  match existing with
  | [] => i
  | idx :: rest => if bool_decide (idx = i) then next_slot_index_go (i + 1) rest else i
  end.
Definition next_slot_index (existing : list Z) : Z := next_slot_index_go 0 existing.

Section Pool.
Context {HE : Env} {HO : Host} {HP : PoolHost}.
Context (projects : gmap string ProjectConfig.t) (git_branch_prefix : string).
Abbreviation pooled A := (SE (pool_state host) string A).
Abbreviation run A := (SE (ctx host) string A).

(** ** The client *)

(** [preserve_status_message] *)
Definition preserve_status_message (rpc : string) (status : Status.t) : string :=
  "builder_pool " +:+ rpc +:+ ": " +:+ Status.message status +:+ " (" +:+ code_display (Status.code_of status) +:+ ")".
Definition pool_rpc {A} (rpc : string) (m : SE host Status.t A) : run A :=
  map_err (preserve_status_message rpc) (external m).
Definition scan_slots (project_key : string) : run (list Z) :=
  pool_rpc "scan_slots" (scan_slots_rpc project_key).
Definition prepare_new_slot (project_key slot_name repo_url : string) : run string :=
  pool_rpc "prepare_new_slot" (prepare_new_slot_rpc project_key slot_name repo_url).
Definition recycle_slot (project_key slot_name repo_url : string) : run string :=
  pool_rpc "recycle_slot" (recycle_slot_rpc project_key slot_name repo_url).
Definition prepare_shared_slot (project_key repo_url : string) : run string :=
  pool_rpc "prepare_shared_slot" (prepare_shared_slot_rpc project_key repo_url).
Definition checkout_branch_in (project_key slot_name branch_prefix branch_name : string) : run unit :=
  pool_rpc "checkout_branch" (checkout_branch_rpc project_key slot_name branch_prefix branch_name).
Definition clean_slot (project_key slot_name : string) : run unit :=
  pool_rpc "clean_slot" (clean_slot_rpc project_key slot_name).

(** A repository call, with what could not be done. *)
Definition db_call {A} (what : string) (m : wdb A) : run A :=
  map_err (λ e, what +:+ ": " +:+ sqlx_display e) (workflows m).

(** ** Acquiring *)

Definition resolve_pool_project (project_key : string) : result (ProjectConfig.t * string) string :=
  match projects !! project_key with
  | None => Err ("unknown project: " +:+ project_key)
  | Some project =>
      match ProjectConfig.repo project with
      | Some repo => Ok (project, repo)
      | None => Err ("project '" +:+ project_key +:+ "' is local (local = true, no repo) — pool slots "
          +:+ "require a git remote. Use workspace mode instead: "
          +:+ "ur worker launch -m manual -w <dir> -p " +:+ project_key)
      end
  end.

(** [claim_slot] and the drop of the guard. *)
Definition claim_slot (slot_id : string) : pooled bool := λ s,
  if decide (slot_id ∈ claiming s) then (Ok false, s)
  else (Ok true, PoolState (pool_ctx s) ({[ slot_id ]} ∪ claiming s)).
Definition drop_claim {E} (slot_id : string) : SE (pool_state host) E unit :=
  modify (λ s, PoolState (pool_ctx s) (claiming s ∖ {[ slot_id ]})).
(** A computation that owns a claim: an early return drops it. *)
Definition holding {A} (slot_id : string) (m : pooled A) : pooled A :=
  r ← attempt m;
  match r with
  | Ok a => mret a
  | Err e => drop_claim slot_id ;; throw e
  end.

(** The first candidate that nobody has claimed, now claimed. *)
Fixpoint claim_first (candidates : list Slot.t) : pooled (option Slot.t) :=
  match candidates with
  | [] => mret None
  | slot :: rest =>
      ok ← claim_slot (Slot.id slot);
      if ok : bool then mret (Some slot) else claim_first rest
  end.

(** A slot is prepared and stored when none is free and the limit allows one more:
    its name, path and id. *)
Definition insert_prepared (project_key repo : string) (pool_limit : Z) : run (string * string * string) :=
  existing_slots ← map_err (λ e, "scan_slots failed for " +:+ project_key +:+ ": " +:+ e)
                     (scan_slots project_key);
  let total_slots := as_u32 (Z.of_nat (length existing_slots)) in
  if (pool_limit <=? total_slots)%Z then
    throw ("pool limit reached for project " +:+ project_key +:+ ": " +:+ pretty total_slots
           +:+ "/" +:+ pretty pool_limit +:+ " slots in use")
  else
    let next_index := next_slot_index (merge_sort Z.le existing_slots) in
    let slot_name := pretty next_index in
    host_path ← map_err (λ e, "prepare_new_slot failed for " +:+ project_key +:+ "/" +:+ slot_name
                              +:+ ": " +:+ e)
                  (prepare_new_slot project_key slot_name repo);
    now ← zoom (T := pool wtables) utc_now;
    slot_id ← zoom (T := pool wtables) new_uuid;
    db_call "db error inserting new slot"
      (insert_slot (Slot.mk slot_id project_key slot_name host_path now now)) ;;
    mret (slot_name, host_path, slot_id).
(** The new slot is claimed too; a launch that saw the row may have been first. *)
Definition claim_prepared (project_key slot_name host_path slot_id : string) : pooled (string * string) :=
  ok ← claim_slot slot_id;
  if ok : bool then mret (host_path, slot_id)
  else throw ("newly prepared slot " +:+ slot_name +:+ " was already claimed for " +:+ project_key).

(** A claimed slot is recycled; a failure gives the claim back. *)
Definition recycle_claimed (project_key repo : string) (slot : Slot.t) : pooled (string * string) :=
  holding (Slot.id slot)
    (host_path ← zoom (map_err (λ e, "recycle_slot failed for slot " +:+ Slot.slot_name slot +:+ ": " +:+ e)
                         (recycle_slot project_key (Slot.slot_name slot) repo));
     mret (host_path, Slot.id slot)).

(** What follows the query: the slot's path and the claim. *)
Definition take_slot (project_key repo : string) (pool_limit : Z) (candidates : list Slot.t)
    : pooled (string * string) :=
  claimed ← claim_first candidates;
  match claimed with
  | Some slot => recycle_claimed project_key repo slot
  | None =>
      x ← zoom (insert_prepared project_key repo pool_limit);
      let '(slot_name, host_path, slot_id) := x in
      claim_prepared project_key slot_name host_path slot_id
  end.

Definition query_slots (project_key : string) : pooled (list Slot.t) :=
  zoom (db_call "db error finding available slot" (find_available_slots project_key)).
Definition acquire_slot (project_key : string) : pooled (string * string) :=
  pr ← of_result (resolve_pool_project project_key);
  candidates ← query_slots project_key;
  take_slot project_key pr.2 (ProjectConfig.pool_limit pr.1) candidates.

Definition acquire_shared_slot (project_key : string) : run string :=
  pr ← of_result (resolve_pool_project project_key);
  map_err (λ e, "prepare_shared_slot failed for " +:+ project_key +:+ ": " +:+ e)
    (prepare_shared_slot project_key pr.2).

(** ** Releasing *)

(** A failed cleanup is only logged. *)
Definition release_slot (worker_id slot_path : string) : run unit :=
  slot ← db_call "db error looking up slot by host path" (get_slot_by_host_path slot_path);
  match slot with
  | Some slot => ignore_err (clean_slot (Slot.project_key slot) (Slot.slot_name slot))
  | None => mret tt
  end ;;
  db_call "db error unlinking worker from slot" (unlink_worker_slot worker_id).

Definition checkout_branch (host_slot_path branch_name : string) : run unit :=
  slot ← db_call "db error looking up slot for checkout" (get_slot_by_host_path host_slot_path);
  slot ← ok_or slot ("slot not found in DB for path: " +:+ host_slot_path);
  map_err (λ e, "checkout_branch failed in " +:+ host_slot_path +:+ ": " +:+ e)
    (checkout_branch_in (Slot.project_key slot) (Slot.slot_name slot) git_branch_prefix branch_name).

(** ** By strategy *)

Definition acquire_by (strategy : WorkerStrategy) (project_key : string) : pooled (string * option string) :=
  match strategy with
  | WorkerStrategy.Code | WorkerStrategy.Manual =>
      pc ← acquire_slot project_key; mret (pc.1, Some pc.2)
  | WorkerStrategy.Design =>
      path ← zoom (acquire_shared_slot project_key); mret (path, None)
  end.
Definition release_by (strategy : WorkerStrategy) (worker_id slot_path : string) : run unit :=
  match strategy with
  | WorkerStrategy.Code | WorkerStrategy.Manual => release_slot worker_id slot_path
  | WorkerStrategy.Design => mret tt
  end.
End Pool.

(** * Launches that compete for slots

    Several launches run at once on the server.  Each is cut at the awaits of
    [Pool.acquire_slot] where it reads or writes what others share: the query for
    free slots, the choice of one (synchronous), the recycling or the preparation
    of a slot, the claim of a prepared one; then the link to the launch's worker
    and the end of the launch, which drops the claim.  A launch can end at any
    point: an error, or a request that is cancelled.

    [exec] performs one step, [runs] a schedule.  [acquire_phases] shows that a
    launch that runs alone is [acquire_slot]. *)

Inductive phase : Type :=
| Querying
| Selecting (candidates : list Slot.t)
| Recycling (slot : Slot.t)
| Preparing
| Inserted (slot_name host_path slot_id : string)
| Holding (host_path slot_id : string)
| Linked (slot_id : string).

#[export] Instance phase_eq_dec : EqDecision phase.
Proof. solve_decision. Defined.

(** The claim the launch's guard holds. *)
Definition claim_of (p : phase) : option string :=
  match p with
  | Recycling slot => Some (Slot.id slot)
  | Holding _ slot_id | Linked slot_id => Some slot_id
  | _ => None
  end.

Section Launches.
Context {HE : Env} {HO : Host} {HP : PoolHost}.

(** A launch: its project's key, repository and limit, and where it is. *)
Record launch : Type := Launch { project_key : string; repo : string; pool_limit : Z; at_phase : phase }.
Definition with_phase (p : phase) (l : launch) : launch :=
  Launch (project_key l) (repo l) (pool_limit l) p.

Record machine : Type := Machine { shared : pool_state host; launches : gmap nat launch }.

Inductive label : Type :=
| Start (t : nat) (l : launch)
| Step (t : nat)
| Link (t : nat) (worker_id : string)
| End_ (t : nat)
| Other (x : ctx host).

(** A phase's computation: the next phase, or the end of the launch. *)
Definition advance (l : launch) : SE (pool_state host) string phase :=
  match at_phase l with
  | Querying => candidates ← query_slots (project_key l); mret (Selecting candidates)
  | Selecting candidates =>
      claimed ← claim_first candidates;
      mret (match claimed with Some slot => Recycling slot | None => Preparing end)
  | Recycling slot =>
      pc ← recycle_claimed (project_key l) (repo l) slot; mret (Holding pc.1 pc.2)
  | Preparing =>
      x ← zoom (insert_prepared (project_key l) (repo l) (pool_limit l));
      let '(slot_name, host_path, slot_id) := x in mret (Inserted slot_name host_path slot_id)
  | Inserted slot_name host_path slot_id =>
      pc ← claim_prepared (project_key l) slot_name host_path slot_id; mret (Holding pc.1 pc.2)
  | p => mret p
  end.

Definition end_launch (t : nat) (l : launch) (s : pool_state host) (m : machine) : machine :=
  Machine (match claim_of (at_phase l) with
           | Some slot_id => (drop_claim slot_id s : result unit Empty_set * _).2
           | None => s
           end) (delete t (launches m)).

Definition exec (l : label) (m : machine) : option machine :=
  match l with
  | Start t l =>
      if decide ((t ∉ dom (launches m)) ∧ at_phase l = Querying)
      then Some (Machine (shared m) (<[t := l]> (launches m))) else None
  | Step t =>
      l ← launches m !! t;
      Some (match advance l (shared m) with
            | (Ok p, s) => Machine s (<[t := with_phase p l]> (launches m))
            | (Err _, s) => Machine s (delete t (launches m))
            end)
  | Link t worker_id =>
      l ← launches m !! t;
      match at_phase l with
      | Holding _ slot_id =>
          Some (match zoom (db_call "failed to link worker to slot" (link_worker_slot worker_id slot_id)) (shared m) with
                | (Ok _, s) => Machine s (<[t := with_phase (Linked slot_id) l]> (launches m))
                | (Err _, s) => end_launch t l s m
                end)
      | _ => None
      end
  | End_ t => l ← launches m !! t; Some (end_launch t l (shared m) m)
  | Other x => Some (Machine (PoolState x (claiming (shared m))) (launches m))
  end.
Fixpoint runs (ls : list label) (m : machine) : option machine :=
  match ls with
  | [] => Some m
  | l :: ls => exec l m ≫= runs ls
  end.
Definition quiet (x : ctx host) : machine := Machine (PoolState x ∅) ∅.

(** A launch that runs alone. *)
Fixpoint advance_all (fuel : nat) (l : launch) : SE (pool_state host) string (string * string) :=
  match fuel, at_phase l with
  | _, Holding host_path slot_id => mret (host_path, slot_id)
  | S fuel, _ => p ← advance l; advance_all fuel (with_phase p l)
  | O, _ => throw ""
  end.
End Launches.

Section Alone.
Context {HE : Env} {HO : Host} {HP : PoolHost}.

(** The phases in sequence are [acquire_slot]. *)
Lemma advance_all_S n l s : (∀ path id, at_phase l ≠ Holding path id) →
  advance_all (S n) l s = match advance l s with
                          | (Ok p, s') => advance_all n (with_phase p l) s'
                          | (Err e, s') => (Err e, s')
                          end.
Proof. intros Hl. cbn [advance_all]. by destruct (at_phase l); try done; edestruct Hl. Qed.

(** The phases in sequence are [acquire_slot]. *)
Lemma acquire_phases projects key project repo s :
  resolve_pool_project projects key = Ok (project, repo) →
  advance_all 4 (Launch key repo (ProjectConfig.pool_limit project) Querying) s
  = acquire_slot projects key s.
Proof.
  intros Hp. unfold acquire_slot. rewrite Hp, run_bind, run_of_result, run_bind.
  rewrite advance_all_S by done. unfold advance. cbn [at_phase project_key Pool.repo pool_limit fst snd].
  rewrite run_bind. destruct (query_slots key s) as [[cands|e] s1]; [|done].
  unfold take_slot. rewrite run_ret, run_bind, advance_all_S by done. unfold advance.
  cbn [with_phase at_phase project_key Pool.repo pool_limit]. rewrite run_bind.
  destruct (claim_first cands s1) as [[[slot|]|e] s2]; [| |done]; rewrite run_ret, advance_all_S by done;
    unfold advance; cbn [with_phase at_phase project_key Pool.repo pool_limit]; rewrite run_bind.
  - destruct (recycle_claimed key repo slot s2) as [[[path id]|e] s3]; [|done]. by rewrite run_ret.
  - rewrite run_bind. destruct (zoom _ s2) as [[[[name path] id]|e] s3]; [|done].
    rewrite run_ret, advance_all_S by done. unfold advance.
    cbn [with_phase at_phase project_key Pool.repo pool_limit]. rewrite run_bind.
    destruct (claim_prepared key name path id s3) as [[[? ?]|e] s4]; [|done]. by rewrite run_ret.
Qed.
End Alone.
