(* ===== verification/PoolProps.v ===== *)
(** * Slots have one user

    The claims of concurrent launches, what they guarantee and what they do not:
    no two launches ever claim the same slot and no claim outlives its launch, in
    any schedule; and, as long as the list of free slots a launch chooses from is
    not out of date, the pool behaves like one lock per slot. *)

From S2P Require Import Prelude RustStd Model Env TicketDb WorkflowDb WorkerRepo WorkerProps Context Host.
From S2P Require Import UrConfig Pool HandlerLib TestWorld.
From Stdlib Require Import Lia.
Local Open Scope stdpp_scope.

Section Claims.
Context {HE : Env} {HO : Host} {HP : PoolHost}.
Implicit Types (m : machine) (l : launch) (s : pool_state host).

(** ** What a computation does to the claims *)

(** [zoom] into the context leaves the claims. *)
Lemma zoom_claiming {E A} (o : SE (ctx host) E A) s : claiming (zoom o s).2 = claiming s.
Proof. by rewrite run_zoom. Qed.
Lemma claim_first_claims cands s :
  match claim_first cands s with
  | (Ok (Some slot), s') => slot ∈ cands ∧ (Slot.id slot ∉ claiming s)
      ∧ claiming s' = {[ Slot.id slot ]} ∪ claiming s ∧ pool_ctx s' = pool_ctx s
  | (Ok None, s') => s' = s
  | (Err _, _) => False
  end.
Proof.
  induction cands as [|slot cands IH]; [done|]. cbn [claim_first]. rewrite run_bind. unfold claim_slot.
  case_decide as Hin.
  - destruct (claim_first cands s) as [[[x|]|] s']; try done.
    destruct IH as (? & ? & ? & ?). split_and!; [by right|done..].
  - rewrite run_ret. split_and!; [by left|done..].
Qed.
Lemma recycle_claims key repo slot s :
  match recycle_claimed key repo slot s with
  | (Ok pc, s') => claiming s' = claiming s ∧ pc.2 = Slot.id slot
  | (Err _, s') => claiming s' = claiming s ∖ {[ Slot.id slot ]}
  end.
Proof.
  unfold recycle_claimed, holding. rewrite run_bind, run_attempt, run_bind.
  set (o := zoom _). pose proof (zoom_claiming (map_err (λ e : string, "recycle_slot failed for slot "
    +:+ Slot.slot_name slot +:+ ": " +:+ e) (recycle_slot key (Slot.slot_name slot) repo)) s) as Hc.
  fold o in Hc. destruct (o s) as [[path|e] s1]; cbn [fst snd] in *.
  - rewrite !run_ret. by split.
  - rewrite run_bind. unfold drop_claim. rewrite run_modify, run_throw. cbn. by rewrite Hc.
Qed.
Lemma claim_prepared_claims key name path id s :
  match claim_prepared key name path id s with
  | (Ok pc, s') => pc.2 = id ∧ (id ∉ claiming s) ∧ claiming s' = {[ id ]} ∪ claiming s
      ∧ pool_ctx s' = pool_ctx s
  | (Err _, s') => s' = s
  end.
Proof. unfold claim_prepared. rewrite run_bind. unfold claim_slot. by case_decide. Qed.

(** ** The claims of all launches *)

Definition claims (m : machine) (t : nat) (slot_id : string) : Prop :=
  ∃ l, launches m !! t = Some l ∧ claim_of (at_phase l) = Some slot_id.
(** The set is exactly what the launches claim, each slot by one of them. *)
Record claims_ok (m : machine) : Prop := ClaimsOk {
  claims_held slot_id : slot_id ∈ claiming (shared m) ↔ ∃ t, claims m t slot_id;
  claims_inj t t' slot_id : claims m t slot_id → claims m t' slot_id → t = t'
}.

(** A step of launch [t] that replaces what it claims. *)
Lemma claims_ok_update m s t (o o' : option string) (ls : gmap nat launch) :
  claims_ok m →
  (∀ x, claims m t x ↔ o = Some x) →
  (∀ t' x, t' ≠ t → (∃ l, ls !! t' = Some l ∧ claim_of (at_phase l) = Some x) ↔ claims m t' x) →
  (∀ x, (∃ l, ls !! t = Some l ∧ claim_of (at_phase l) = Some x) ↔ o' = Some x) →
  claiming s = (claiming (shared m) ∖ default ∅ (singleton <$> o)) ∪ default ∅ (singleton <$> o') →
  (∀ x, o' = Some x → o ≠ Some x → x ∉ claiming (shared m)) →
  claims_ok (Machine s ls).
Proof.
  intros [Hh Hinj] Ho Hother Ht Hs Hnew.
  assert (∀ t' x, claims (Machine s ls) t' x ↔ if decide (t' = t) then o' = Some x else claims m t' x) as Hc.
  { intros t' x. case_decide as E; [subst t'; apply Ht|by apply Hother]. }
  assert (∀ t' x, t' ≠ t → claims m t' x → o ≠ Some x) as Hdis.
  { intros t' x Hne Hx Ho'. apply Hne. apply (Hinj t' t x Hx). by apply Ho. }
  split.
  - intros x. cbn. rewrite Hs, elem_of_union, elem_of_difference, Hh. split.
    + intros [[[t' Hx] Hn]|Hx].
      * exists t'. apply Hc. case_decide as E; [|done]. subst t'. apply Ho in Hx as ->. set_solver.
      * exists t. apply Hc. rewrite decide_True by done. destruct o'; set_solver.
    + intros [t' Hx]. apply Hc in Hx. case_decide as E; [right; subst o'; set_solver|].
      left. split; [by exists t'|]. specialize (Hdis t' x E Hx). destruct o; set_solver.
  - intros t1 t2 x H1%Hc H2%Hc. destruct (decide (t1 = t)) as [E1|N1], (decide (t2 = t)) as [E2|N2].
    + by rewrite E1, E2.
    + exfalso. apply (Hnew x); [done|by eapply Hdis|apply Hh; by exists t2].
    + exfalso. apply (Hnew x); [done|by eapply Hdis|apply Hh; by exists t1].
    + by eapply Hinj.
Qed.

(** The claim of one launch, when its entry is replaced or removed. *)
Lemma claims_at m t l x : launches m !! t = Some l → claims m t x ↔ claim_of (at_phase l) = Some x.
Proof. intros Hl. unfold claims. rewrite Hl. naive_solver. Qed.
Lemma claims_none m t x : launches m !! t = None → claims m t x ↔ None = Some x.
Proof. intros Hl. unfold claims. rewrite Hl. naive_solver. Qed.
Lemma claims_ok_insert m s t l' (o : option string) :
  claims_ok m → (∀ x, claims m t x ↔ o = Some x) →
  claiming s = (claiming (shared m) ∖ default ∅ (singleton <$> o))
               ∪ default ∅ (singleton <$> claim_of (at_phase l')) →
  (∀ x, claim_of (at_phase l') = Some x → o ≠ Some x → x ∉ claiming (shared m)) →
  claims_ok (Machine s (<[t := l']> (launches m))).
Proof.
  intros Hok Ho Hs Hnew. eapply claims_ok_update; [done|done| | |done|done].
  - intros t' x Hne. by rewrite lookup_insert_ne.
  - intros x. rewrite lookup_insert_eq. naive_solver.
Qed.
Lemma claims_ok_delete m s t (o : option string) :
  claims_ok m → (∀ x, claims m t x ↔ o = Some x) →
  claiming s = claiming (shared m) ∖ default ∅ (singleton <$> o) →
  claims_ok (Machine s (delete t (launches m))).
Proof.
  intros Hok Ho Hs. eapply (claims_ok_update _ _ _ o None); [done|done| | | |done].
  - intros t' x Hne. by rewrite lookup_delete_ne.
  - intros x. rewrite lookup_delete_eq. naive_solver.
  - rewrite Hs. cbn. by rewrite union_empty_r_L.
Qed.

(** What one step of a launch does to its own claim. *)
Lemma advance_claims l s p s' : advance l s = (Ok p, s') →
  claiming s' = (claiming s ∖ default ∅ (singleton <$> claim_of (at_phase l)))
                ∪ default ∅ (singleton <$> claim_of p)
  ∧ (∀ x, claim_of p = Some x → claim_of (at_phase l) ≠ Some x → x ∉ claiming s)
  ∨ claim_of p = claim_of (at_phase l) ∧ claiming s' = claiming s.
Proof.
  unfold advance. destruct (at_phase l) as [|cands|slot| |name path id|path id|id] eqn:Hp; rewrite ?run_bind.
  - pose proof (zoom_claiming (db_call "db error finding available slot" (find_available_slots (project_key l))) s) as Hc.
    fold (query_slots (project_key l)) in Hc.
    destruct (query_slots (project_key l) s) as [[cs|e] s1]; [|done]. intros [= <- <-]. by right.
  - pose proof (claim_first_claims cands s) as Hc. destruct (claim_first cands s) as [[[slot|]|e] s1]; [| |done].
    + destruct Hc as (_ & Hn & Hc & _). intros [= <- <-]. left. cbn. rewrite Hc.
      split; [set_solver|]. by intros x [= <-].
    + subst s1. intros [= <- <-]. by right.
  - pose proof (recycle_claims (project_key l) (repo l) slot s) as Hc.
    destruct (recycle_claimed _ _ slot s) as [[[path id]|e] s1]; [|done]. destruct Hc as [Hc Hid].
    intros [= <- <-]. right. cbn in *. by rewrite Hid.
  - pose proof (zoom_claiming (insert_prepared (project_key l) (repo l) (pool_limit l)) s) as Hc.
    destruct (zoom _ s) as [[[[name path] id]|e] s1]; [|done]. intros [= <- <-]. by right.
  - pose proof (claim_prepared_claims (project_key l) name path id s) as Hc.
    destruct (claim_prepared _ name path id s) as [[[? ?]|e] s1]; [|done]. destruct Hc as (Hid & Hn & Hc & _).
    intros [= <- <-]. left. cbn in *. rewrite Hc, Hid. split; [set_solver|]. by intros x [= <-].
  - intros [= <- <-]. by right.
  - intros [= <- <-]. by right.
Qed.
Lemma advance_fails l s e s' : advance l s = (Err e, s') →
  claiming s' = claiming s ∖ default ∅ (singleton <$> claim_of (at_phase l)).
Proof.
  unfold advance. destruct (at_phase l) as [|cands|slot| |name path id|path id|id] eqn:Hp; rewrite ?run_bind.
  - pose proof (zoom_claiming (db_call "db error finding available slot" (find_available_slots (project_key l))) s) as Hc.
    fold (query_slots (project_key l)) in Hc.
    destruct (query_slots (project_key l) s) as [[cs|?] s1]; [done|]. intros [= _ <-]. cbn. set_solver.
  - pose proof (claim_first_claims cands s) as Hc. by destruct (claim_first cands s) as [[[slot|]|?] s1].
  - pose proof (recycle_claims (project_key l) (repo l) slot s) as Hc.
    destruct (recycle_claimed _ _ slot s) as [[[path id]|?] s1]; [done|]. by intros [= _ <-].
  - pose proof (zoom_claiming (insert_prepared (project_key l) (repo l) (pool_limit l)) s) as Hc.
    destruct (zoom _ s) as [[[[name path] id]|?] s1]; [done|]. intros [= _ <-]. cbn in *. set_solver.
  - pose proof (claim_prepared_claims (project_key l) name path id s) as Hc.
    destruct (claim_prepared _ name path id s) as [[[? ?]|?] s1]; [done|]. intros [= _ <-]. cbn. set_solver.
  - done.
  - done.
Qed.

Lemma claims_ok_end m s t l : claims_ok m → launches m !! t = Some l → claiming s = claiming (shared m) →
  claims_ok (end_launch t l s m).
Proof.
  intros Hok Hl Hs. eapply claims_ok_delete; [done|intros x; by apply claims_at|].
  destruct (claim_of (at_phase l)); cbn; rewrite ?Hs; [done|set_solver].
Qed.
Lemma claims_ok_exec la m m' : claims_ok m → exec la m = Some m' → claims_ok m'.
Proof.
  intros Hok. unfold exec. destruct la as [t l|t|t w|t|x].
  - case_decide as Hd; [|done]. destruct Hd as [Hn Hq]. intros [= <-]. apply not_elem_of_dom in Hn.
    apply (claims_ok_insert m (shared m) t l None); rewrite ?Hq; [done|intros x; by apply claims_none| |done].
    cbn. set_solver.
  - destruct (launches m !! t) as [l|] eqn:Hl; [|done]. cbn. intros [= <-].
    destruct (advance l (shared m)) as [[p|e] s] eqn:Ha.
    + apply advance_claims in Ha as [[Hs Hnew]|[Hp Hs]].
      * apply claims_ok_insert with (o := claim_of (at_phase l)); [done|intros x; by apply claims_at|done|done].
      * apply claims_ok_insert with (o := claim_of (at_phase l)); [done|intros x; by apply claims_at| |].
        -- cbn. rewrite Hp, Hs. destruct (claim_of (at_phase l)) as [i|] eqn:Hi; cbn; [|set_solver].
           assert (i ∈ claiming (shared m)); [|apply set_eq; intros j; destruct (decide (j = i)); set_solver].
           apply (claims_held m Hok). exists t. by apply (claims_at m t l).
        -- cbn. rewrite Hp. naive_solver.
    + apply advance_fails in Ha. by eapply claims_ok_delete; [|intros x; apply claims_at|].
  - destruct (launches m !! t) as [l|] eqn:Hl; [|done]. cbn. destruct (at_phase l) as [| | | | |path id|] eqn:Hp; try done.
    intros [= <-]. destruct (zoom _ (shared m)) as [r s] eqn:Hz.
    assert (claiming s = claiming (shared m)) as Hs by (apply (f_equal snd) in Hz; cbn in Hz; by rewrite <-Hz, zoom_claiming).
    destruct r as [[]|e]; [|by apply claims_ok_end].
    eapply (claims_ok_insert m s t _ (Some id)); [done|intros x; rewrite (claims_at m t l) by done; by rewrite Hp| |].
    + cbn. rewrite Hs. apply set_eq. intros j. destruct (decide (j = id)); [|set_solver]. subst j.
      assert (id ∈ claiming (shared m)); [|set_solver]. apply (claims_held m Hok). exists t.
      apply (claims_at m t l); [done|by rewrite Hp].
    + cbn. naive_solver.
  - destruct (launches m !! t) as [l|] eqn:Hl; [|done]. cbn. intros [= <-]. by apply claims_ok_end.
  - intros [= <-]. destruct Hok as [Hh Hi]. by split.
Qed.

Lemma claims_ok_quiet x : claims_ok (quiet x).
Proof.
  split; cbn; [|by intros t t' i (l & Hl & _)]. intros i. split; [set_solver|]. by intros (t & l & Hl & _).
Qed.

(** The claims of concurrent launches.  In any schedule of launches of any
    projects, whatever fails and whichever launches are cancelled, two launches never
    hold a claim on the same slot, and the set of claims is exactly what the running
    launches hold: a launch that ends, fails or is cancelled leaves no claim. *)
Theorem claims_exclusive ls x m : runs ls (quiet x) = Some m →
  (∀ t t' slot_id, claims m t slot_id → claims m t' slot_id → t = t')
  ∧ (∀ slot_id, slot_id ∈ claiming (shared m) ↔ ∃ t, claims m t slot_id).
Proof.
  pose proof (claims_ok_quiet x) as Hq. revert Hq. generalize (quiet x). induction ls as [|la ls IH]; intros m0 Hok; simpl.
  - intros [= <-]. destruct Hok as [Hh Hi]. by split.
  - destruct (exec la m0) as [m1|] eqn:E; [|done]. cbn. apply IH. by eapply claims_ok_exec.
Qed.
End Claims.

(** ** One lock per slot *)

Inductive owner : Type := Launching (t : nat) | Worker_ (worker_id : string).

(** The abstract pool: who has each slot. *)
Inductive lock_step : relation (gmap string owner) :=
| Take a slot_id t : a !! slot_id = None → lock_step a (<[slot_id := Launching t]> a)
| HandOver a slot_id t w : a !! slot_id = Some (Launching t) → lock_step a (<[slot_id := Worker_ w]> a)
| Free a slot_id : lock_step a (delete slot_id a).

Lemma free_all (a a' : gmap string owner) : a' ⊆ a → rtc lock_step a a'.
Proof.
  intros Hs. rewrite <-(map_difference_union a' a Hs).
  assert (a' ##ₘ a ∖ a') as Hd.
  { apply map_disjoint_spec. intros i x y Hx [_ Hy]%lookup_difference_Some. by rewrite Hy in Hx. }
  revert Hd. generalize (a ∖ a'). intros d. induction d as [|i o d Hi IH] using map_ind; intros Hd.
  - by rewrite (right_id_L ∅ (∪)).
  - apply map_disjoint_insert_r in Hd as [Hn Hd]. eapply rtc_l; [apply (Free _ i)|].
    rewrite <-insert_union_r, delete_insert_id by (done || by apply lookup_union_None). by apply IH.
Qed.

Section Locks.
Context {HE : Env} {HO : Host} {HP : PoolHost}.
Implicit Types (m : machine) (l : launch) (s : pool_state host).

Definition rows_of (s : pool_state host) : wtables := tables (workflow_db (pool_ctx s)).

(** Who has a slot in the machine: a launch between its choice and its link, an
    active worker linked to it. *)
Definition active_link (t : wtables) (worker_id slot_id : string) : bool :=
  bool_decide (is_Some (WorkflowTables.worker_slot t !! (worker_id, slot_id)))
  && match WorkflowTables.worker t !! worker_id with Some w => is_active w | None => false end.
Definition owned_slot (p : phase) : option string :=
  match p with
  | Recycling slot => Some (Slot.id slot)
  | Holding _ slot_id => Some slot_id
  | _ => None
  end.
Definition own_at (m : machine) (t : nat) : option string :=
  l ← launches m !! t; owned_slot (at_phase l).
Definition owns (m : machine) (slot_id : string) (o : owner) : bool :=
  match o with
  | Launching t => bool_decide (own_at m t = Some slot_id)
  | Worker_ w => active_link (rows_of (shared m)) w slot_id
  end.
Definition abstracts (m : machine) (a : gmap string owner) : Prop :=
  ∀ slot_id o, a !! slot_id = Some o ↔ owns m slot_id o = true.

(** A step does not act on a list of free slots that is out of date: a slot that a
    launch newly claims is in use by no worker.  Steps of other requests link no
    slot and activate no linked worker. *)
Definition fresh (la : label) (m : machine) : Prop :=
  match la with
  | Step t =>
      match launches m !! t with
      | Some l =>
          match advance l (shared m) with
          | (Ok p, _) =>
              match claim_of (at_phase l), claim_of p with
              | None, Some slot_id => slot_in_use (rows_of (shared m)) slot_id = false
              | _, _ => True
              end
          | _ => True
          end
      | None => True
      end
  | Other x => ∀ w slot_id, active_link (tables (workflow_db x)) w slot_id = true →
      active_link (rows_of (shared m)) w slot_id = true
  | _ => True
  end.
Fixpoint fresh_runs (ls : list label) (m : machine) : Prop :=
  match ls with
  | [] => True
  | la :: ls => fresh la m ∧ match exec la m with Some m' => fresh_runs ls m' | None => True end
  end.

(** ** The steps and the links *)

Definition same_links (t t' : wtables) : Prop :=
  WorkflowTables.worker_slot t' = WorkflowTables.worker_slot t
  ∧ WorkflowTables.worker t' = WorkflowTables.worker t.
Lemma same_links_active t t' w i : same_links t t' → active_link t' w i = active_link t w i.
Proof. intros [H1 H2]. unfold active_link. by rewrite H1, H2. Qed.

Lemma same_links_refl t : same_links t t.
Proof. by split. Qed.

(** A computation that writes neither links nor workers. *)
Definition keeps_links {A} (o : SE (ctx host) string A) : Prop :=
  ∀ t, preserves (λ x, same_links t (tables (workflow_db x))) o.
Lemma keeps_links_external {A} (f : Status.t → string) (o : SE host Status.t A) :
  keeps_links (map_err f (external o)).
Proof. intros t. apply preserves_map_err. intros [a d h q b] Hx. by rewrite run_external. Qed.
Lemma keeps_links_db {A} what (o : wdb A) : (∀ t, preserves (on_tables (same_links t)) o) →
  keeps_links (db_call what o).
Proof. intros Ho t. apply preserves_map_err. exact (preserves_zoom (S := ctx host) _ o (Ho t)). Qed.
Lemma keeps_links_draw {A} (o : SE (Prelude.pool wtables) string A) :
  (∀ t, preserves (on_tables (same_links t)) o) → keeps_links (zoom o).
Proof. intros Ho t. exact (preserves_zoom (S := ctx host) _ o (Ho t)). Qed.
Lemma keeps_links_insert key repo limit : keeps_links (insert_prepared key repo limit).
Proof.
  intros t. unfold insert_prepared. apply preserves_bind; [apply preserves_map_err, keeps_links_external|].
  intros existing. case_match; [apply preserves_throw|]. apply preserves_bind; [apply preserves_map_err, keeps_links_external|].
  intros path. apply preserves_bind; [apply keeps_links_draw; intros t'; apply preserves_utc_now|]. intros now.
  apply preserves_bind; [apply keeps_links_draw; intros t'; apply preserves_new_uuid|]. intros id.
  apply preserves_bind; [|intros _; apply preserves_ret]. apply keeps_links_db. intros t'.
  apply preserves_statement. intros x u x' Hx. unfold insert_row. repeat case_match; try done.
  by intros [= _ <-].
Qed.
Lemma zoom_links {A} (o : SE (ctx host) string A) s : keeps_links o → same_links (rows_of s) (rows_of (zoom o s).2).
Proof. intros Ho. rewrite run_zoom. apply (Ho (rows_of s)). apply same_links_refl. Qed.

Lemma holding_ctx {A} id (o : SE (pool_state host) string A) s :
  pool_ctx (holding id o s).2 = pool_ctx (o s).2.
Proof. unfold holding. rewrite run_bind, run_attempt. by destruct (o s) as [[a|e] s1]. Qed.
Lemma recycle_links key repo slot s : same_links (rows_of s) (rows_of (recycle_claimed key repo slot s).2).
Proof.
  unfold rows_of, recycle_claimed. rewrite holding_ctx, run_bind.
  match goal with |- context [zoom ?o s] => pose proof (zoom_links o s) as Hl; destruct (zoom o s) as [[path|e] s1] end;
    apply Hl; intros t; apply preserves_map_err, keeps_links_external.
Qed.

(** No phase of [acquire_slot] changes a link or a worker. *)
Lemma advance_links l s : same_links (rows_of s) (rows_of (advance l s).2).
Proof.
  unfold advance. destruct (at_phase l) as [|cands|slot| |name path id|path id|id]; rewrite ?run_bind; try done.
  - pose proof (zoom_links (db_call "db error finding available slot" (find_available_slots (project_key l))) s) as Hl.
    fold (query_slots (project_key l)) in Hl.
    destruct (query_slots (project_key l) s) as [[cs|e] s1]; apply Hl, keeps_links_db; intros t; apply preserves_select.
  - pose proof (claim_first_claims cands s) as Hc. unfold rows_of.
    destruct (claim_first cands s) as [[[slot|]|e] s1]; [|by subst s1|done].
    rewrite run_ret. cbn. destruct Hc as (_ & _ & _ & ->). apply same_links_refl.
  - pose proof (recycle_links (project_key l) (repo l) slot s) as Hl.
    destruct (recycle_claimed _ _ slot s) as [[[? ?]|e] s1]; exact Hl.
  - pose proof (zoom_links (insert_prepared (project_key l) (repo l) (pool_limit l)) s (keeps_links_insert _ _ _)) as Hl.
    destruct (zoom _ s) as [[[[name path] id]|e] s1]; exact Hl.
  - pose proof (claim_prepared_claims (project_key l) name path id s) as Hc. unfold rows_of.
    destruct (claim_prepared _ name path id s) as [[[? ?]|e] s1]; [|by subst s1].
    destruct Hc as (_ & _ & _ & Hc). rewrite run_ret. cbn. rewrite Hc. apply same_links_refl.
Qed.

(** ** The simulation *)

Lemma owned_claimed m t i : own_at m t = Some i → claims m t i.
Proof.
  unfold own_at, claims. intros (l & Hl & Hi)%bind_Some. exists l. split; [done|].
  by destruct (at_phase l); simpl in *.
Qed.
Lemma in_use_link m w i : owns m i (Worker_ w) = true → slot_in_use (rows_of (shared m)) i = true.
Proof.
  cbn. unfold active_link. intros [Hl Hw]%andb_true_iff. apply bool_decide_eq_true in Hl.
  apply slot_in_use_spec. destruct (_ !! w) as [r|] eqn:Hr; [|done]. by exists w, r.
Qed.
(** A free slot: no claim and no active link. *)
Lemma unowned m a i : claims_ok m → abstracts m a → (i ∉ claiming (shared m)) →
  slot_in_use (rows_of (shared m)) i = false → a !! i = None.
Proof.
  intros Hok Ha Hn Hu. apply eq_None_not_Some. intros [[t|w] Ho]; apply Ha in Ho.
  - apply bool_decide_eq_true, owned_claimed in Ho. apply Hn, (claims_held m Hok). by exists t.
  - apply in_use_link in Ho. by rewrite Ho in Hu.
Qed.

(** One launch changes what it owns, and the links stay. *)
Lemma simulate_own m m' a t :
  abstracts m a → same_links (rows_of (shared m)) (rows_of (shared m')) →
  (∀ t', t' ≠ t → own_at m' t' = own_at m t') →
  (∀ i, own_at m' t = Some i → own_at m t = Some i ∨ own_at m t = None ∧ a !! i = None) →
  ∃ a', rtc lock_step a a' ∧ abstracts m' a'.
Proof.
  intros Ha Hl Hother Hown.
  assert (∀ i o, owns m' i o = match o with
                               | Launching t' => if decide (t' = t) then bool_decide (own_at m' t = Some i) else owns m i o
                               | Worker_ _ => owns m i o end) as Ho.
  { intros i [t'|w]; cbn; [case_decide as E; [by rewrite E|by rewrite Hother]|by apply same_links_active]. }
  destruct (own_at m' t) as [i|] eqn:Ei.
  - destruct (Hown i eq_refl) as [Em|[Em Hi]].
    + exists a. split; [done|]. intros j o. rewrite Ho, (Ha j o). destruct o as [t'|]; [|done].
      case_decide as E; [|done]. subst t'. cbn. by rewrite Em.
    + exists (<[i := Launching t]> a). split; [by apply rtc_once, Take|]. intros j o. rewrite Ho.
      destruct (decide (j = i)) as [->|Hj].
      * rewrite lookup_insert_eq. split.
        -- intros [= <-]. rewrite decide_True by done. by apply bool_decide_eq_true.
        -- intros Hown'. assert (owns m i o = true → False) as Hno by (intros Hx; apply Ha in Hx; by rewrite Hi in Hx).
           destruct o as [t'|w]; [|by destruct (Hno Hown')]. case_decide as E; [by subst|by destruct (Hno Hown')].
      * rewrite lookup_insert_ne by done. rewrite (Ha j o). destruct o as [t'|w]; [|done].
        case_decide as E; [|done]. subst t'. cbn. rewrite Em, !bool_decide_eq_true. naive_solver.
  - destruct (own_at m t) as [i|] eqn:Em.
    + exists (delete i a). split; [apply rtc_once, Free|]. intros j o. rewrite Ho.
      assert (a !! i = Some (Launching t)) as Hi by (apply Ha; by apply bool_decide_eq_true).
      destruct (decide (j = i)) as [->|Hj].
      * rewrite lookup_delete_eq. split; [done|]. intros Hx.
        assert (∀ o', owns m i o' = true → o' = Launching t) as Hu.
        { intros o' Ho'. apply Ha in Ho'. by rewrite Hi in Ho'; injection Ho' as <-. }
        destruct o as [t'|w]; [|by apply Hu in Hx]. case_decide as E; [by apply bool_decide_eq_true in Hx|].
        apply Hu in Hx. by injection Hx as ->.
      * rewrite lookup_delete_ne by done. rewrite (Ha j o). destruct o as [t'|w]; [|done].
        case_decide as E; [|done]. subst t'. cbn. rewrite Em, !bool_decide_eq_true. naive_solver.
    + exists a. split; [done|]. intros j o. rewrite Ho, (Ha j o). destruct o as [t'|]; [|done].
      case_decide as E; [|done]. subst t'. cbn. by rewrite Em.
Qed.

Lemma link_rows w i s :
  match zoom (db_call "failed to link worker to slot" (link_worker_slot w i)) s with
  | (Ok _, s') => ∃ now, WorkflowTables.worker_slot (rows_of s') = <[(w, i) := now]> (WorkflowTables.worker_slot (rows_of s))
                       ∧ WorkflowTables.worker (rows_of s') = WorkflowTables.worker (rows_of s)
  | (Err _, s') => same_links (rows_of s) (rows_of s')
  end.
Proof.
  destruct s as [[td [t fs n] h q b] cl]. rewrite run_zoom. cbn [view pool_ctx_lens pool_ctx]. unfold db_call, link_worker_slot.
  rewrite run_map_err, run_workflows, run_bind, run_utc_now. unfold statement. cbn [faults tables].
  destruct fs as [|[] fs]; [| |]; try apply same_links_refl; unfold insert_row; repeat case_match; simplify_eq;
    cbn; try apply same_links_refl; by eexists.
Qed.
Lemma active_link_insert t t' w i now j w' :
  WorkflowTables.worker_slot t' = <[(w, i) := now]> (WorkflowTables.worker_slot t) →
  WorkflowTables.worker t' = WorkflowTables.worker t →
  active_link t' w' j =
    if decide (w' = w ∧ j = i)
    then match WorkflowTables.worker t !! w with Some r => is_active r | None => false end
    else active_link t w' j.
Proof.
  intros Hl Hw. unfold active_link. rewrite Hl, Hw. case_decide as E.
  - destruct E as [-> ->]. by rewrite lookup_insert_eq, bool_decide_true by by eexists.
  - by rewrite lookup_insert_ne by naive_solver.
Qed.

(** A phase keeps the slot its launch owns. *)
Lemma advance_owned l s p s' i j : advance l s = (Ok p, s') →
  owned_slot (at_phase l) = Some j → owned_slot p = Some i → Some j = Some i.
Proof.
  unfold advance. destruct (at_phase l) as [|cands|slot| |name path id|path id|id]; intros H; try done; intros [= <-].
  - rewrite run_bind in H. pose proof (recycle_claims (project_key l) (repo l) slot s) as Hc.
    destruct (recycle_claimed _ _ slot s) as [[[q id]|e] s1]; [|done]. destruct Hc as [_ Hid].
    injection H as <- _. cbn in *. by rewrite Hid.
  - by injection H as <- _.
Qed.
Lemma advance_unowned l s p s' i : advance l s = (Ok p, s') →
  owned_slot (at_phase l) = None → owned_slot p = Some i → claim_of (at_phase l) = None.
Proof. unfold advance. destruct (at_phase l); try done. intros [= <- _]. done. Qed.

Lemma lookup_hand_over (b : bool) (a : gmap string owner) i x j :
  (if b then <[i := x]> a else delete i a) !! j
  = if decide (j = i) then (if b then Some x else None) else a !! j.
Proof.
  case_decide as E; [subst j|]; destruct b;
    rewrite ?lookup_insert_eq, ?lookup_delete_eq, ?lookup_insert_ne, ?lookup_delete_ne by done; done.
Qed.

(** A launch that ends gives up what it owns. *)
Lemma simulate_end m a t s : abstracts m a → same_links (rows_of (shared m)) (rows_of s) →
  ∃ a', rtc lock_step a a' ∧ abstracts (Machine s (delete t (launches m))) a'.
Proof.
  intros Ha Hl. apply (simulate_own m (Machine s (delete t (launches m))) a t Ha Hl); unfold own_at; cbn.
  - intros t' Hne. by rewrite lookup_delete_ne.
  - by rewrite lookup_delete_eq.
Qed.

Lemma simulate_exec la m m' a :
  claims_ok m → abstracts m a → fresh la m → exec la m = Some m' →
  ∃ a', rtc lock_step a a' ∧ abstracts m' a'.
Proof.
  intros Hok Ha Hfresh. unfold exec. destruct la as [t l|t|t w|t|x].
  - case_decide as Hd; [|done]. destruct Hd as [Hn Hq]. intros [= <-].
    apply (simulate_own m (Machine (shared m) (<[t := l]> (launches m))) a t Ha (same_links_refl _)); unfold own_at; cbn.
    + intros t' Hne. by rewrite lookup_insert_ne.
    + rewrite lookup_insert_eq. cbn. by rewrite Hq.
  - destruct (launches m !! t) as [l|] eqn:Hl; [|done]. cbn. intros [= <-].
    pose proof (advance_links l (shared m)) as Hlk.
    destruct (advance l (shared m)) as [[p|e] s] eqn:Hadv; [|by apply simulate_end].
    apply (simulate_own m (Machine s (<[t := with_phase p l]> (launches m))) a t Ha Hlk); unfold own_at; cbn; rewrite ?lookup_insert_eq, ?Hl; cbn.
    + intros t' Hne. by rewrite lookup_insert_ne.
    + intros i Hi. destruct (owned_slot (at_phase l)) as [j|] eqn:Hj.
      * left. by eapply advance_owned.
      * right. split; [done|]. assert (claim_of (at_phase l) = None) as Hc by (by eapply advance_unowned).
        assert (claim_of p = Some i) as Hp by (by destruct p).
        apply (unowned m); [done|done| |cbn in Hfresh; by rewrite Hl, Hadv, Hc, Hp in Hfresh].
        apply advance_claims in Hadv as [[_ Hnew]|[E _]]; [apply Hnew; [done|by rewrite Hc]|by rewrite E, Hc in Hp].
  - destruct (launches m !! t) as [l|] eqn:Hl; [|done]. cbn. destruct (at_phase l) as [| | | | |path i|] eqn:Hp; try done.
    intros [= <-]. pose proof (link_rows w i (shared m)) as Hlk.
    destruct (zoom _ (shared m)) as [[[]|e] s]; cycle 1.
    { apply simulate_end; [done|]. by rewrite Hp. }
    destruct Hlk as (now & Hws & Hw).
    assert (a !! i = Some (Launching t)) as Hi.
    { apply Ha. cbn. apply bool_decide_eq_true. unfold own_at. rewrite Hl. cbn. by rewrite Hp. }
    exists (if match WorkflowTables.worker (rows_of (shared m)) !! w with Some r => is_active r | None => false end
            then <[i := Worker_ w]> a else delete i a).
    split; [case_match; [case_match|]; apply rtc_once; by econstructor|].
    assert (∀ o, owns m i o = true → o = Launching t) as Hu.
    { intros o Ho. apply Ha in Ho. by rewrite Hi in Ho; injection Ho as <-. }
    assert (own_at m t = Some i) as Hown by (unfold own_at; rewrite Hl; cbn; by rewrite Hp).
    intros j o. rewrite lookup_hand_over. destruct o as [t'|w']; cbn.
    + rewrite bool_decide_eq_true. unfold own_at; cbn. destruct (decide (t' = t)) as [->|Ht].
      { rewrite lookup_insert_eq. cbn. repeat case_match; simplify_eq; split; try done.
        intros Hj%Ha%bool_decide_eq_true. congruence. }
      rewrite lookup_insert_ne by done. change (launches m !! t' ≫= _) with (own_at m t').
      case_decide as Hj; [|etrans; [apply (Ha j (Launching t'))|cbn; by rewrite bool_decide_eq_true]].
      subst j. split; [by case_match|]. intros Ho. exfalso.
      specialize (Hu (Launching t')). cbn in Hu. rewrite bool_decide_eq_true in Hu. apply Ht. by injection (Hu Ho).
    + rewrite (active_link_insert (rows_of (shared m)) _ w i now j w') by done. case_decide as Hj.
      * subst j. specialize (Hu (Worker_ w')). cbn in Hu.
        destruct (decide (w' = w)) as [->|Hne].
        -- rewrite decide_True by done. by destruct (match _ with Some _ => _ | None => _ end).
        -- rewrite decide_False by naive_solver. split; [case_match; congruence|]. intros Ho. by apply Hu in Ho.
      * rewrite decide_False by naive_solver. apply (Ha j (Worker_ w')).
  - destruct (launches m !! t) as [l|] eqn:Hl; [|done]. cbn. intros [= <-].
    apply simulate_end; [done|]. unfold rows_of. by destruct (claim_of (at_phase l)).
  - intros [= <-]. exists (filter (λ kv, owns (Machine (PoolState x (claiming (shared m))) (launches m)) kv.1 kv.2 = true) a).
    split; [apply free_all, map_filter_subseteq|]. intros i o. rewrite map_lookup_filter_Some. cbn [fst snd].
    split; [by intros [_ ?]|]. intros Ho. split; [|done]. apply Ha. destruct o as [t|w]; [done|]. by apply Hfresh.
Qed.

(** C3: The pool refines one lock per slot.  In any schedule in which no launch acts
    on an out-of-date list, every step of the machine is matched by steps of the
    abstract pool, that takes a free slot for a launch, hands it over to the launch's
    worker and frees it: at the end the abstract pool says of each slot who has it, so
    no slot has two users. *)
Theorem pool_refines_locks ls x m a :
  abstracts (quiet x) a → fresh_runs ls (quiet x) → runs ls (quiet x) = Some m →
  ∃ a', rtc lock_step a a' ∧ abstracts m a'
      ∧ ∀ slot_id o o', owns m slot_id o = true → owns m slot_id o' = true → o = o'.
Proof.
  assert (claims_ok (quiet x)) as Hok by apply claims_ok_quiet.
  revert a Hok. generalize (quiet x). induction ls as [|la ls IH]; intros m0 a Hok Ha; simpl.
  - intros _ [= <-]. exists a. split_and!; [done|done|]. intros i o o' Ho Ho'.
    apply Ha in Ho, Ho'. by simplify_eq.
  - intros [Hf Hfs]. destruct (exec la m0) as [m1|] eqn:E; [|done]. cbn. intros Hr.
    destruct (simulate_exec la m0 m1 a Hok Ha Hf E) as (a1 & H1 & Ha1).
    destruct (IH m1 a1) as (a2 & H2 & Ha2 & Hex); [by eapply claims_ok_exec|done|done|done|].
    exists a2. split_and!; [by etrans|done|done].
Qed.
End Locks.

(** ** Schedules *)

(** The pool service of a builder daemon that succeeds. *)
Definition test_pool : @PoolHost test_host := {|
  scan_slots_rpc _ h := (Ok [0%Z], h);
  prepare_new_slot_rpc key name _ h := (Ok ("/pool/" +:+ key +:+ "/" +:+ name), h);
  recycle_slot_rpc key name _ h := (Ok ("/pool/" +:+ key +:+ "/" +:+ name), h);
  prepare_shared_slot_rpc key _ h := (Ok ("/pool/" +:+ key +:+ "/shared"), h);
  checkout_branch_rpc _ _ _ _ h := (Ok tt, h);
  clean_slot_rpc _ _ h := (Ok tt, h);
  code_display _ := "code"
|}.
(** One slot, no links and two workers that are being launched. *)
Definition launching (i : string) : WorkerRow.t string :=
  WorkerRow.mk i ("p-" +:+ i) "ur" "c" "secret" "code" "claude" "provisioning" "starting" None "" "" 0 None "container".
Definition one_slot : ctx world :=
  Ctx (Pool TicketTables.empty [] 0)
    (Pool (WorkflowTables.set_worker {[ "w1" := launching "w1"; "w2" := launching "w2" ]}
             (WorkflowTables.set_slot {[ "s0" := Slot.mk "s0" "ur" "0" "/pool/ur/0" "" "" ]}
                WorkflowTables.empty)) [] 0)
    (World [] [] [] [] [] []) [] true.
Definition new_launch : launch := Launch "ur" "git@github.com:o/r.git" 10 Querying.
Abbreviation test_runs ls := (@runs test_env test_host test_pool ls (@quiet test_host one_slot)).

(** Two launches side by side: the second one prepares a slot of its own. *)
Definition side_by_side : list (@label test_host) :=
  [Start 0 new_launch; Start 1 new_launch; Step 0; Step 1; Step 0; Step 1; Step 0; Step 1; Step 1;
   Link 0 "w1"; End_ 0; Link 1 "w2"; End_ 1].
Lemma claims_exclusive_witness :
  ∃ m, test_runs [Start 0 new_launch; Start 1 new_launch; Step 0; Step 1; Step 0; Step 1] = Some m
    ∧ @claims test_host m 0 "s0"
    ∧ (∀ t t' slot_id, @claims test_host m t slot_id → @claims test_host m t' slot_id → t = t')
    ∧ ∀ slot_id, slot_id ∈ claiming (shared m) ↔ ∃ t, @claims test_host m t slot_id.
Proof.
  destruct (test_runs [Start 0 new_launch; Start 1 new_launch; Step 0; Step 1; Step 0; Step 1]) as [m|] eqn:E;
    [|vm_compute in E; discriminate E].
  exists m. split; [reflexivity|]. split.
  - vm_compute in E. injection E as <-. eexists. split; vm_compute; reflexivity.
  - apply (@claims_exclusive test_env test_host test_pool _ _ _ E).
Defined.
Lemma pool_refines_locks_witness :
  ∃ m a', test_runs side_by_side = Some m ∧ rtc lock_step ∅ a'
    ∧ @abstracts test_host m a' ∧ @owns test_host m "s0" (Worker_ "w1") = true
    ∧ @owns test_host m (uuid_v4 (Env := test_env) 1) (Worker_ "w2") = true.
Proof.
  destruct (test_runs side_by_side) as [m|] eqn:E; [|vm_compute in E; discriminate E].
  destruct (@pool_refines_locks test_env test_host test_pool side_by_side one_slot m ∅) as (a' & H1 & H2 & _).
  - intros i o. split; [discriminate|]. destruct o as [t|w]; [discriminate|].
    unfold owns, active_link. cbn. discriminate.
  - vm_compute. repeat split.
  - exact E.
  - exists m, a'. split_and!; [reflexivity|exact H1|exact H2|..];
      vm_compute in E; injection E as <-; reflexivity.
Defined.

(** A stale list gives a slot to two workers.  Two launches list the free slots;
    the first one chooses the slot, links its worker and ends before the second one
    goes on: the second one still has the slot in its list, finds it unclaimed, and
    links its worker to it too. *)
Theorem stale_list_shares_slot :
  match test_runs [Start 0 new_launch; Start 1 new_launch; Step 0; Step 1;
                   Step 0; Step 0; Link 0 "w1"; End_ 0; Step 1; Step 1; Link 1 "w2"; End_ 1] with
  | Some m => @owns test_host m "s0" (Worker_ "w1") = true ∧ @owns test_host m "s0" (Worker_ "w2") = true
  | None => False
  end.
Proof. vm_compute. by split. Qed.
