(* ===== verification/WorkerModes.v ===== *)
(** * Worker modes

    [WorkerModesConfig] of [server/src/worker.rs]: the named modes of [ur.toml]
    and how a launch resolves one to a strategy, skills, a model, an effort, an
    agent and a runtime.  The TOML library has already decoded the sections: of a
    value that it may reject, the input is a result, with the library's message.
    A [HashMap] that is read from the file is the list of its entries. *)

From S2P Require Import Prelude RustStd Model Agent UrConfig Pool.
Local Open Scope stdpp_scope.

(** A [{ model, effort }] entry and a strategy-keyed table of them. *)
Module StrategyEntry.
Record t : Type := mk { model : option string; effort : option string }.
End StrategyEntry.
Module RawStrategyDefaults.
Record t : Type := mk {
  code : option StrategyEntry.t; design : option StrategyEntry.t; manual : option StrategyEntry.t
}.
Definition get (d : t) (s : WorkerStrategy) : option StrategyEntry.t :=
  match s with
  | WorkerStrategy.Code => code d
  | WorkerStrategy.Design => design d
  | WorkerStrategy.Manual => manual d
  end.
End RawStrategyDefaults.
(** [RawWorkerModels]: by agent. *)
Abbreviation worker_models := (gmap AgentType RawStrategyDefaults.t).

Module RawModeEntry.
Record t : Type := mk {
  base : string;
  skills : list string;
  model : option string;
  effort : option string;
  agent : option string;
  runtime : option (result WorkerRuntime string)
}.
End RawModeEntry.

(** The [worker_models] section: which of its keys are tables ([None]: it is not a
    table itself), and the decoded section. *)
Module RawModelsSection.
Record t : Type := mk {
  keys : option (list (string * bool));
  decoded : result (list (string * RawStrategyDefaults.t)) string
}.
End RawModelsSection.
Module RawModesFile.
Record t : Type := mk {
  agent : option string;
  runtime : option (result WorkerRuntime string);
  models : option RawModelsSection.t;
  modes : option (result (list (string * RawModeEntry.t)) string)
}.
End RawModesFile.

Definition default_worker_modes : gmap string (list string) :=
  list_to_map ((λ s, (WorkerStrategy.name s, WorkerStrategy.skills s)) <$> WorkerStrategy.ALL).
Definition seed_strategies : gmap string WorkerStrategy :=
  list_to_map ((λ s, (WorkerStrategy.name s, s)) <$> WorkerStrategy.ALL).
Definition default_agents (default_agent : AgentType) : gmap string AgentType :=
  list_to_map ((λ s, (WorkerStrategy.name s, default_agent)) <$> WorkerStrategy.ALL).

Definition unknown_worker_models_agent_error (key : string) : string :=
  "invalid worker_models config: unknown agent '" +:+ key +:+ "' in [worker_models." +:+ key
  +:+ "]. Valid agents: " +:+ debug_strs (AgentType.name <$> AgentType.ALL).

Definition validate_effort (agent : AgentType) (effort ctxt : string) : result unit string :=
  check_that (bool_decide (effort ∈ AgentType.supported_efforts agent))
    ("invalid " +:+ ctxt +:+ ": agent '" +:+ AgentType.name agent +:+ "' does not support effort '" +:+ effort
     +:+ "'. Valid efforts: " +:+ debug_strs (AgentType.supported_efforts agent)).

Fixpoint validate_entries (agent : AgentType) (l : list StrategyEntry.t) : result unit string :=
  match l with
  | [] => Ok tt
  | entry :: l =>
      let? _ := match StrategyEntry.effort entry with
                | Some effort => validate_effort agent effort "worker_models config"
                | None => Ok tt
                end in
      validate_entries agent l
  end.
Definition strategy_entries (d : RawStrategyDefaults.t) : list StrategyEntry.t :=
  omap id [RawStrategyDefaults.code d; RawStrategyDefaults.design d; RawStrategyDefaults.manual d].
Fixpoint models_by_agent (l : list (string * RawStrategyDefaults.t)) (per_agent : worker_models)
    : result worker_models string :=
  match l with
  | [] => Ok per_agent
  | (key, defaults) :: l =>
      match AgentType.parse key with
      | Err _ => Err (unknown_worker_models_agent_error key)
      | Ok agent =>
          let? _ := validate_entries agent (strategy_entries defaults) in
          models_by_agent l (<[agent := defaults]> per_agent)
      end
  end.
Definition parse_worker_models (section : option RawModelsSection.t) : result worker_models string :=
  match section with
  | None => Ok ∅
  | Some section =>
      match RawModelsSection.keys section with
      | None => Err "invalid worker_models config: expected a table"
      | Some table =>
          match list_find (λ kb : string * bool, kb.2 = false) table with
          | Some (_, (key, _)) => Err ("invalid worker_models config: '" +:+ key
              +:+ "' must be an agent table; use [worker_models.<agent>] with inline "
              +:+ "{ model, effort } strategy entries")
          | None =>
              match RawModelsSection.decoded section with
              | Err e => Err ("invalid worker_models config: " +:+ e)
              | Ok raw => models_by_agent raw ∅
              end
          end
      end
  end.

Definition effective_default_model (agent : AgentType) (strategy : WorkerStrategy) (overrides : worker_models)
    : string :=
  default "" ((d ← overrides !! agent; e ← RawStrategyDefaults.get d strategy; StrategyEntry.model e)
              ∪ AgentType.default_model agent (WorkerStrategy.name strategy)).
Definition effective_default_effort (agent : AgentType) (strategy : WorkerStrategy) (overrides : worker_models)
    : string :=
  default (AgentType.default_effort agent)
    (d ← overrides !! agent; e ← RawStrategyDefaults.get d strategy; StrategyEntry.effort e).

Definition parse_top_level_runtime (raw : option (result WorkerRuntime string)) : result WorkerRuntime string :=
  match raw with
  | None => Ok WorkerRuntime.Container
  | Some (Ok r) => Ok r
  | Some (Err e) => Err ("runtime: " +:+ e)
  end.
Definition resolve_entry_agent (mode_name : string) (raw_agent : option string) (default_agent : AgentType)
    : result AgentType string :=
  match raw_agent with
  | None => Ok default_agent
  | Some name =>
      match AgentType.parse name with
      | Ok a => Ok a
      | Err e => Err ("invalid agent '" +:+ name +:+ "' for worker mode '" +:+ mode_name +:+ "': " +:+ e)
      end
  end.

Module ResolvedMode.
Record t : Type := mk {
  strategy : WorkerStrategy; skills : list string; model : string; effort : string; agent : AgentType
}.
End ResolvedMode.

Module WorkerModesConfig.
Record t : Type := mk {
  modes : gmap string (list string);
  strategies : gmap string WorkerStrategy;
  explicit_models : gmap string string;
  explicit_efforts : gmap string string;
  agents : gmap string AgentType;
  default_agent : AgentType;
  mode_runtimes : gmap string WorkerRuntime;
  default_runtime : WorkerRuntime;
  model_overrides : worker_models
}.
(** The built-in modes only. *)
Definition built_in (agent : AgentType) (runtime : WorkerRuntime) (overrides : worker_models) : t :=
  mk default_worker_modes seed_strategies ∅ ∅ (default_agents agent) agent ∅ runtime overrides.

(** [map.insert] of a value that may be missing. *)
Definition insert_some {A} (k : string) (o : option A) (m : gmap string A) : gmap string A :=
  match o with Some a => <[k := a]> m | None => m end.

(** One entry of [worker_modes]. *)
Definition add_mode (c : t) (name : string) (entry : RawModeEntry.t) : result t string :=
  match WorkerStrategy.from_name (RawModeEntry.base entry) with
  | Err _ => Err ("invalid base '" +:+ RawModeEntry.base entry +:+ "' for worker mode '" +:+ name
      +:+ "': must be 'code', 'design', or 'manual'")
  | Ok strategy =>
      let? agent := resolve_entry_agent name (RawModeEntry.agent entry) (default_agent c) in
      let? _ := match RawModeEntry.effort entry with
                | Some effort => validate_effort agent effort ("worker mode '" +:+ name +:+ "'")
                | None => Ok tt
                end in
      let? runtime := match RawModeEntry.runtime entry with
                      | None => Ok None
                      | Some (Ok r) => Ok (Some r)
                      | Some (Err e) => Err ("worker_modes." +:+ name +:+ ".runtime: " +:+ e)
                      end in
      Ok (mk (<[name := RawModeEntry.skills entry]> (modes c)) (<[name := strategy]> (strategies c))
            (insert_some name (RawModeEntry.model entry) (explicit_models c))
            (insert_some name (RawModeEntry.effort entry) (explicit_efforts c))
            (<[name := agent]> (agents c)) (default_agent c)
            (insert_some name runtime (mode_runtimes c)) (default_runtime c) (model_overrides c))
  end.
Fixpoint add_modes (c : t) (l : list (string * RawModeEntry.t)) : result t string :=
  match l with
  | [] => Ok c
  | (name, entry) :: l => let? c := add_mode c name entry in add_modes c l
  end.

(** [from_toml], after the file is decoded. *)
Definition from_toml (raw : RawModesFile.t) : result t string :=
  let? default_agent := resolve_top_level_agent (RawModesFile.agent raw) in
  let? default_runtime := parse_top_level_runtime (RawModesFile.runtime raw) in
  let? model_overrides := parse_worker_models (RawModesFile.models raw) in
  match RawModesFile.modes raw with
  | None => Ok (built_in default_agent default_runtime model_overrides)
  | Some (Err e) => Err ("invalid worker_modes config: " +:+ e)
  | Some (Ok entries) => add_modes (built_in default_agent default_runtime model_overrides) entries
  end.

Definition mode_name (mode : string) : string := if bool_decide (mode = "") then "code" else mode.

Definition resolve_runtime (c : t) (mode : string) (requested project : option WorkerRuntime) : WorkerRuntime :=
  resolve_worker_runtime requested (mode_runtimes c !! mode_name mode) project (default_runtime c).
Definition resolve_skills (c : t) (mode : string) (skills : list string) : result (list string) string :=
  if negb (bool_decide (skills = [])) then Ok skills
  else match modes c !! mode_name mode with
       | Some l => Ok l
       | None => Err ("unknown worker mode: " +:+ mode_name mode)
       end.
Definition resolve_mode (c : t) (mode : string) (requested_agent : option AgentType)
    : result ResolvedMode.t string :=
  let name := mode_name mode in
  match strategies c !! name, modes c !! name with
  | Some strategy, Some skills =>
      let agent := default (default (default_agent c) (agents c !! name)) requested_agent in
      Ok (ResolvedMode.mk strategy skills
            (default (effective_default_model agent strategy (model_overrides c)) (explicit_models c !! name))
            (default (effective_default_effort agent strategy (model_overrides c)) (explicit_efforts c !! name))
            agent)
  | _, _ => Err ("unknown worker mode: " +:+ name)
  end.
End WorkerModesConfig.

(** [merge_skills]: the mode's skills, then what the project and the global
    configuration add; the mounts of the global ones that are new. *)
Fixpoint add_project_skills (seen : gset string) (merged project_skills : list string)
    : gset string * list string :=
  match project_skills with
  | [] => (seen, merged)
  | skill :: rest =>
      if decide (skill ∈ seen) then add_project_skills seen merged rest
      else add_project_skills ({[ skill ]} ∪ seen) (merged ++ [skill]) rest
  end.
Fixpoint add_global_skills (seen : gset string) (merged : list string) (mounts : list (string * string))
    (globals : list GlobalSkill.t) : list string * list (string * string) :=
  match globals with
  | [] => (merged, mounts)
  | g :: rest =>
      if decide (GlobalSkill.name g ∈ seen) then add_global_skills seen merged mounts rest
      else add_global_skills ({[ GlobalSkill.name g ]} ∪ seen) (merged ++ [GlobalSkill.name g])
             (mounts ++ [(GlobalSkill.name g, GlobalSkill.host_path g)]) rest
  end.
Definition merge_skills (global_skills : GlobalSkillsConfig.t) (strategy : WorkerStrategy)
    (mode_skills project_skills : list string) : list string * list (string * string) :=
  let '(seen, merged) := add_project_skills (list_to_set mode_skills) mode_skills project_skills in
  add_global_skills seen merged [] (GlobalSkillsConfig.for_strategy global_skills (WorkerStrategy.name strategy)).

(** * Properties of the worker modes

    Every mode of a configuration that loads resolves, to an effort that its agent
    supports unless the launch asks for another agent; the skills of a launch are
    those of its sources in order, without repetitions. *)

From S2P Require Import TextLemmas ConfigProps.
From Stdlib Require Import Lia.
Import WorkerModesConfig.

(** ** Modes *)

Definition mode_entries (raw : RawModesFile.t) : list (string * RawModeEntry.t) :=
  match RawModesFile.modes raw with Some (Ok l) => l | _ => [] end.
Definition known_modes (raw : RawModesFile.t) : list string :=
  (WorkerStrategy.name <$> WorkerStrategy.ALL) ++ (mode_entries raw).*1.

(** The overrides of an agent are efforts it supports. *)
Definition overrides_ok (m : worker_models) : Prop :=
  ∀ agent d s entry e, m !! agent = Some d → RawStrategyDefaults.get d s = Some entry →
    StrategyEntry.effort entry = Some e → e ∈ AgentType.supported_efforts agent.
(** Every mode has a strategy, skills and an agent that supports its effort. *)
Record modes_ok (names : list string) (c : t) : Prop := ModesOk {
  modes_dom i : i ∈ dom (modes c) ↔ i ∈ names;
  strategies_dom i : i ∈ dom (strategies c) ↔ i ∈ names;
  efforts_ok i e : explicit_efforts c !! i = Some e →
    ∃ a, agents c !! i = Some a ∧ e ∈ AgentType.supported_efforts a;
  overrides_fine : overrides_ok (model_overrides c)
}.

Lemma validate_effort_Ok a e ctxt : validate_effort a e ctxt = Ok tt → e ∈ AgentType.supported_efforts a.
Proof. by intros ?%check_that_Ok%bool_decide_eq_true. Qed.
Lemma validate_entries_Ok a l entry e : validate_entries a l = Ok tt → entry ∈ l →
  StrategyEntry.effort entry = Some e → e ∈ AgentType.supported_efforts a.
Proof.
  induction l as [|x l IH]; [by intros _ ?%elem_of_nil|]. simpl. intros H [->|Hin]%elem_of_cons He.
  - rewrite He in H. take_ok. by eapply validate_effort_Ok.
  - apply IH; [|done..]. by take_ok.
Qed.
Lemma models_by_agent_ok l m m' : models_by_agent l m = Ok m' → overrides_ok m → overrides_ok m'.
Proof.
  revert m. induction l as [|[key d] l IH]; intros m; simpl; [by intros [= <-]|].
  destruct (AgentType.parse key) as [a|]; [|done]. intros H Hm. take_ok.
  eapply IH; [done|]. intros a' d' s entry e. destruct (decide (a' = a)) as [->|Hne].
  - rewrite lookup_insert_eq. intros [= <-] Hg He. eapply validate_entries_Ok; [done| |done].
    unfold strategy_entries. rewrite list_elem_of_omap. exists (Some entry). split; [|done].
    rewrite <-Hg. destruct s; set_solver.
  - rewrite lookup_insert_ne by done. apply Hm.
Qed.
Lemma parse_models_ok s m : parse_worker_models s = Ok m → overrides_ok m.
Proof.
  unfold parse_worker_models. destruct s as [s|]; [|by intros [= <-]].
  repeat case_match; try done. intros Hl. by eapply models_by_agent_ok.
Qed.

Lemma add_mode_ok names c name entry c' :
  modes_ok names c → explicit_efforts c !! name = None → add_mode c name entry = Ok c' →
  modes_ok (names ++ [name]) c'
  ∧ ∀ i, i ≠ name → explicit_efforts c' !! i = explicit_efforts c !! i.
Proof.
  intros [Hm Hs He Ho] Hn. unfold add_mode. destruct (WorkerStrategy.from_name _) as [st|]; [|done]. intros H.
  destruct (resolve_entry_agent _ _ _) as [a|] eqn:Ha; [|done].
  destruct (match RawModeEntry.effort entry with Some _ => _ | None => _ end) as [[]|] eqn:Hv; [|done].
  destruct (match RawModeEntry.runtime entry with Some _ => _ | None => _ end) as [rt|]; [|done].
  injection H as <-. split; [split|]; cbn.
  - intros i. rewrite dom_insert. rewrite elem_of_union, Hm, elem_of_app. set_solver.
  - intros i. rewrite dom_insert. rewrite elem_of_union, Hs, elem_of_app. set_solver.
  - intros i e. destruct (decide (i = name)) as [->|Hne].
    + rewrite lookup_insert_eq. destruct (RawModeEntry.effort entry) as [ef|]; cbn.
      * rewrite lookup_insert_eq. intros [= <-]. exists a. split; [done|]. by eapply validate_effort_Ok.
      * by rewrite Hn.
    + rewrite lookup_insert_ne by done.
      destruct (RawModeEntry.effort entry); cbn; rewrite ?lookup_insert_ne by done; apply He.
  - exact Ho.
  - intros i Hne. destruct (RawModeEntry.effort entry); cbn; by rewrite ?lookup_insert_ne by done.
Qed.
Lemma add_modes_ok l : ∀ names c c',
  modes_ok names c → NoDup l.*1 → (∀ i, i ∈ l.*1 → explicit_efforts c !! i = None) →
  add_modes c l = Ok c' → modes_ok (names ++ l.*1) c'.
Proof.
  induction l as [|[name entry] l IH]; intros names c c' Hok Hnd Hnew; cbn [add_modes].
  { intros [= <-]. by rewrite app_nil_r. }
  rewrite fmap_cons in Hnd, Hnew |- *. cbn [fst] in *. apply NoDup_cons in Hnd as [Hn Hnd]. destruct (add_mode c name entry) as [c1|] eqn:E; [|done].
  intros H. destruct (add_mode_ok names c name entry c1 Hok) as [Hok1 Hex]; [apply Hnew; by left|done|].
  replace (names ++ name :: l.*1) with ((names ++ [name]) ++ l.*1) by (by rewrite <-app_assoc).
  apply (IH _ c1); [done|done| |done]. intros i Hi. rewrite Hex; [apply Hnew; by right|].
  intros ->. done.
Qed.

Lemma from_toml_ok raw c : from_toml raw = Ok c → NoDup (mode_entries raw).*1 → modes_ok (known_modes raw) c.
Proof.
  unfold from_toml, known_modes, mode_entries. intros H Hnd.
  destruct (resolve_top_level_agent _) as [a|]; [|done].
  destruct (parse_top_level_runtime _) as [rt|]; [|done].
  destruct (parse_worker_models _) as [m|] eqn:Hm; [|done]. apply parse_models_ok in Hm.
  assert (modes_ok (WorkerStrategy.name <$> WorkerStrategy.ALL) (built_in a rt m)) as Hb.
  { split; cbn; [set_solver|set_solver|done|done]. }
  destruct (RawModesFile.modes raw) as [[entries|e]|]; [|done|].
  - by eapply add_modes_ok in H.
  - injection H as <-. by rewrite app_nil_r.
Qed.

(** The modes of a configuration that loads.  Exactly the built-in modes and
    those of the file resolve, the empty name being "code"; a mode resolves to its
    strategy's agent or the one it names, or to the one the launch asks for; and when
    the launch asks for none, the effort is one the agent supports. *)
Theorem modes_resolve raw c : from_toml raw = Ok c → NoDup (mode_entries raw).*1 →
  (∀ mode agent, is_ok (resolve_mode c mode agent) = true ↔ mode_name mode ∈ known_modes raw)
  ∧ (∀ mode r, resolve_mode c mode None = Ok r →
       ResolvedMode.effort r ∈ AgentType.supported_efforts (ResolvedMode.agent r))
  ∧ (∀ mode a r, resolve_mode c mode (Some a) = Ok r → ResolvedMode.agent r = a).
Proof.
  intros Hc Hnd. destruct (from_toml_ok raw c Hc Hnd) as [Hm Hs He Ho]. split_and!.
  - intros mode agent. unfold resolve_mode. split.
    + intros H. apply Hm, elem_of_dom. destruct (strategies c !! mode_name mode), (modes c !! mode_name mode); try done.
    + intros Hk. pose proof (proj2 (Hm _) Hk) as H1%elem_of_dom. pose proof (proj2 (Hs _) Hk) as H2%elem_of_dom.
      by destruct H1 as [? ->], H2 as [? ->].
  - intros mode r. unfold resolve_mode. destruct (strategies c !! _) as [st|]; [|done].
    destruct (modes c !! _) as [sk|]; [|done]. intros [= <-]. cbn.
    destruct (explicit_efforts c !! mode_name mode) as [e|] eqn:Ee; cbn.
    + by destruct (He _ _ Ee) as (a & -> & Hin).
    + unfold effective_default_effort. generalize (default (default_agent c) (agents c !! mode_name mode)).
      intros a. destruct (model_overrides c !! a) as [d|] eqn:Ed; cbn; [|by destruct a; set_solver].
      destruct (RawStrategyDefaults.get d st) as [entry|] eqn:Eg; cbn; [|by destruct a; set_solver].
      destruct (StrategyEntry.effort entry) as [e|] eqn:Eef; cbn; [by eapply Ho|by destruct a; set_solver].
  - intros mode a r. unfold resolve_mode. destruct (strategies c !! mode_name mode), (modes c !! mode_name mode); try done.
    by intros [= <-].
Qed.

(** A file with a mode of its own. *)
Definition deep_mode : RawModesFile.t :=
  RawModesFile.mk None None None
    (Some (Ok [("deep", RawModeEntry.mk "code" ["green"] None (Some "ultra") (Some "codex") None)])).

Lemma modes_resolve_witness :
  ∃ c, from_toml deep_mode = Ok c ∧ is_ok (resolve_mode c "deep" None) = true
     ∧ is_ok (resolve_mode c "" None) = true ∧ is_ok (resolve_mode c "other" None) = false.
Proof.
  destruct (from_toml deep_mode) as [c|] eqn:E; [|vm_compute in E; discriminate E].
  exists c. split; [reflexivity|].
  destruct (modes_resolve deep_mode c E) as [H _]; [vm_compute; repeat constructor; set_solver|].
  split_and!; [apply H; vm_compute; set_solver|apply H; vm_compute; set_solver|].
  apply not_true_iff_false. rewrite H. vm_compute. set_solver.
Defined.

(** An effort is checked against the agent of its mode, not against the one the
    launch asks for: a mode whose agent supports an effort hands it to an agent that
    does not. *)
Theorem requested_agent_gets_foreign_effort :
  match from_toml deep_mode with
  | Ok c => match resolve_mode c "deep" (Some AgentType.Claude) with
            | Ok r => ResolvedMode.agent r = AgentType.Claude
                ∧ ResolvedMode.effort r = "ultra" ∧ ("ultra" ∉ AgentType.supported_efforts AgentType.Claude)
            | Err _ => False
            end
  | Err _ => False
  end.
Proof. vm_compute. split_and!; [done|done|]. set_solver. Qed.

(** ** Skills *)

Lemma add_project_skills_spec seen merged project :
  seen = list_to_set merged →
  let r := add_project_skills seen merged project in
  r.1 = list_to_set r.2 ∧ (∃ added, r.2 = merged ++ added) ∧ (NoDup merged → NoDup r.2)
  ∧ ∀ s, s ∈ r.2 ↔ s ∈ merged ∨ s ∈ project.
Proof.
  revert seen merged. induction project as [|p project IH]; intros seen merged Hs; cbn [add_project_skills].
  { cbn. split_and!; [done|exists []; by rewrite app_nil_r|done|]. set_solver. }
  case_decide as Hp.
  - destruct (IH seen merged Hs) as (H1 & H2 & H3 & H4). split_and!; [done..|]. intros s. rewrite H4.
    subst seen. apply elem_of_list_to_set in Hp. set_solver.
  - destruct (IH ({[ p ]} ∪ seen) (merged ++ [p])) as (H1 & [added H2] & H3 & H4).
    { subst seen. rewrite list_to_set_app_L. set_solver. }
    split_and!; [done| | |].
    + exists (p :: added). by rewrite H2, <-app_assoc.
    + intros Hnd. apply H3, NoDup_app. split_and!; [done| |apply NoDup_singleton].
      intros x Hx ->%list_elem_of_singleton. apply Hp. subst seen. by apply elem_of_list_to_set.
    + intros s. rewrite H4. set_solver.
Qed.
Lemma add_global_skills_spec seen merged mounts globals :
  seen = list_to_set merged →
  let r := add_global_skills seen merged mounts globals in
  ∃ new, r.1 = merged ++ new.*1 ∧ r.2 = mounts ++ new
    ∧ (NoDup merged → NoDup r.1)
    ∧ (∀ n, n ∈ new.*1 ↔ n ∈ (GlobalSkill.name <$> globals) ∧ (n ∉ merged))
    ∧ (∀ n p, (n, p) ∈ new → GlobalSkill.mk n p ∈ globals).
Proof.
  revert seen merged mounts. induction globals as [|g globals IH]; intros seen merged mounts Hs;
    cbn [add_global_skills].
  { exists []. cbn. rewrite !app_nil_r. split_and!; [done..|set_solver|set_solver]. }
  case_decide as Hp.
  - destruct (IH seen merged mounts Hs) as (new & H1 & H2 & H3 & H4 & H5). exists new.
    split_and!; [done..| |intros n p Hnp; right; by apply H5]. intros n. rewrite H4.
    subst seen. apply elem_of_list_to_set in Hp. rewrite fmap_cons, elem_of_cons. naive_solver.
  - destruct (IH ({[ GlobalSkill.name g ]} ∪ seen) (merged ++ [GlobalSkill.name g])
                (mounts ++ [(GlobalSkill.name g, GlobalSkill.host_path g)])) as (new & H1 & H2 & H3 & H4 & H5).
    { subst seen. rewrite list_to_set_app_L. set_solver. }
    exists ((GlobalSkill.name g, GlobalSkill.host_path g) :: new). rewrite fmap_cons. cbn [fst]. split_and!.
    + by rewrite H1, <-app_assoc.
    + by rewrite H2, <-app_assoc.
    + intros Hnd. apply H3, NoDup_app. split_and!; [done| |apply NoDup_singleton].
      intros x Hx ->%list_elem_of_singleton. apply Hp. subst seen. by apply elem_of_list_to_set.
    + intros n. rewrite elem_of_cons, H4, fmap_cons, elem_of_cons.
      assert (GlobalSkill.name g ∉ merged) by (intros ?; apply Hp; subst seen; by apply elem_of_list_to_set).
      rewrite elem_of_app, list_elem_of_singleton.
      destruct (decide (n = GlobalSkill.name g)) as [->|]; tauto.
    + intros n p [[= -> ->]|Hnp]%elem_of_cons; [apply elem_of_cons; left; by destruct g|right; by apply H5].
Qed.

(** The skills of a launch.  The mode's come first, unchanged; then those of the
    project and of the global configuration for the strategy, none missing and none
    twice; and exactly the global ones that neither the mode nor the project names are
    mounted, from the path the configuration gives. *)
Theorem merge_skills_spec global strategy mode_skills project_skills :
  let globals := GlobalSkillsConfig.for_strategy global (WorkerStrategy.name strategy) in
  let r := merge_skills global strategy mode_skills project_skills in
  (∃ added, r.1 = mode_skills ++ added)
  ∧ (NoDup mode_skills → NoDup r.1)
  ∧ (∀ s, s ∈ r.1 ↔ s ∈ mode_skills ∨ s ∈ project_skills ∨ s ∈ (GlobalSkill.name <$> globals))
  ∧ (∀ n, n ∈ r.2.*1 ↔ n ∈ (GlobalSkill.name <$> globals) ∧ (n ∉ mode_skills) ∧ (n ∉ project_skills))
  ∧ (∀ n p, (n, p) ∈ r.2 → GlobalSkill.mk n p ∈ globals).
Proof.
  intros globals. unfold merge_skills. fold globals.
  destruct (add_project_skills_spec (list_to_set mode_skills) mode_skills project_skills eq_refl)
    as (H1 & [added H2] & H3 & H4).
  destruct (add_project_skills _ mode_skills project_skills) as [seen merged]. cbn [fst snd] in *.
  destruct (add_global_skills_spec seen merged [] globals H1) as (new & G1 & G2 & G3 & G4 & G5).
  destruct (add_global_skills seen merged [] globals) as [names mounts]. cbn [fst snd] in *. subst names mounts.
  split_and!.
  - exists (added ++ new.*1). by rewrite H2, <-app_assoc.
  - auto.
  - intros s. rewrite elem_of_app, G4, H4. destruct (decide (s ∈ merged)); set_solver.
  - intros n. rewrite app_nil_l, G4, H4. set_solver.
  - done.
Qed.
