(* ===== verification/RunOpts.v ===== *)
(** * The request that launches a worker's container

    [server/src/run_opts_builder.rs] and, of [worker.rs], what fills it: the
    configuration of a launch, the environment of the container, and the resolution
    of a project's instruction file, memory and brain.

    The file system of the server, the process environment, git and the container
    service of the builder daemon are the operations of [WorkerHost]; an error of
    the file system is its text.  Paths are strings; two of them that have the same
    components are the same path. *)

From S2P Require Import Prelude RustStd Model Agent UrConfig Host Pool.
Local Open Scope stdpp_scope.

(** ** Requests to the container service *)

Module LaunchWorkerRequest.
Record t : Type := mk {
  image : string;
  name : string;
  cpus : Z;
  memory : string;
  volumes : list (string * string);
  port_maps : list (Z * Z);
  env_vars : list (string * string);
  workdir : string;
  network : string;
  add_hosts : list (string * string)
}.
End LaunchWorkerRequest.

Class WorkerHost {HO : Host} : Type := {
  (** [std::env::var]: the environment does not change while the server runs. *)
  env_var : string → option string;
  create_dir_all : string → SE host string unit;
  (** Creating a file that does not exist yet; an error says whether it does. *)
  create_new_file : string → SE host (bool * string) unit;
  (** [chown] to the worker's user and group. *)
  chown_worker : string → SE host string unit;
  (** [git init] in a directory: whether it succeeded, and its standard error. *)
  git_init : string → SE host string (bool * string);
  launch_worker_rpc : LaunchWorkerRequest.t → SE host Status.t string;
  stop_worker_rpc : string → SE host Status.t unit;
  (** The identifier of the container with a name, empty when there is none. *)
  inspect_worker_rpc : string → SE host Status.t string;
  inspect_network_rpc : string → SE host Status.t bool
}.

(** ** Paths *)

(** [Path::components], without the leading root; a dot counts at the beginning. *)
Definition path_components (p : string) : list string :=
  let real := filter (λ c, c ≠ "" ∧ c ≠ ".") in
  match split "/" p with
  | "." :: l => "." :: real l
  | l => real l
  end.
Definition is_absolute (p : string) : bool := starts_with "/" p.
Definition path_of_components (absolute : bool) (l : list string) : string :=
  (if absolute then "/" else "") +:+ join "/" l.
Definition path_parent (p : string) : option string :=
  match reverse (path_components p) with
  | [] => None
  | _ :: l => Some (path_of_components (is_absolute p) (reverse l))
  end.
(** The rest of a list after a prefix. *)
Fixpoint list_strip (pre l : list string) : option (list string) :=
  match pre, l with
  | [], l => Some l
  | x :: pre, y :: l => if decide (x = y) then list_strip pre l else None
  | _ :: _, [] => None
  end.
(** [Path::strip_prefix] *)
Definition path_strip_prefix (base p : string) : option string :=
  if decide (is_absolute base = is_absolute p)
  then join "/" <$> list_strip (path_components base) (path_components p)
  else None.

(** ** A launch *)

Module WorkerConfig.
Record t : Type := mk {
  process_id : string;
  worker_id : string;
  image_id : string;
  cpus : Z;
  memory : string;
  workspace_dir : option string;
  proxy_hostname : string;
  project_key : string;
  agent_type : string;
  strategy : WorkerStrategy;
  skills : list string;
  model : string;
  effort : string;
  instruction_md : option string;
  mounts : list MountConfig.t;
  ports : list PortMapping.t;
  slot_id : option string;
  context_mounts : list (string * string);
  hostexec_scripts : list string;
  extra_skill_mounts : list (string * string);
  memory_dir : option string;
  brain_dir : option string;
  workspace_brain_dir : option string;
  forge : option ForgeType;
  runtime : WorkerRuntime
}.
End WorkerConfig.
Abbreviation WorkerConfig := WorkerConfig.t.

(** ** The builder *)

Module RunOptsBuilder.
Record t : Type := mk {
  image : string;
  name : string;
  network : string;
  cpus : Z;
  memory : string;
  workdir : option string;
  volumes : list (string * string);
  port_maps : list (Z * Z);
  env_vars : list (string * string)
}.
Definition new (image name network : string) : t := mk image name network 0 "" None [] [] [].
Definition with_cpus (x : Z) (b : t) : t :=
  mk (image b) (name b) (network b) x (memory b) (workdir b) (volumes b) (port_maps b) (env_vars b).
Definition with_memory (x : string) (b : t) : t :=
  mk (image b) (name b) (network b) (cpus b) x (workdir b) (volumes b) (port_maps b) (env_vars b).
Definition with_workdir (x : string) (b : t) : t :=
  mk (image b) (name b) (network b) (cpus b) (memory b) (Some x) (volumes b) (port_maps b) (env_vars b).
Definition push_volume (host_path container_path : string) (b : t) : t :=
  mk (image b) (name b) (network b) (cpus b) (memory b) (workdir b)
    (volumes b ++ [(host_path, container_path)]) (port_maps b) (env_vars b).
Definition set_env_vars (x : list (string * string)) (b : t) : t :=
  mk (image b) (name b) (network b) (cpus b) (memory b) (workdir b) (volumes b) (port_maps b) x.
Definition push_env (key value : string) (b : t) : t := set_env_vars (env_vars b ++ [(key, value)]) b.

Definition add_workspace (workspace_dir : option string) (b : t) : t :=
  match workspace_dir with Some d => push_volume d "/workspace" b | None => b end.
Definition add_extra_skills (mounts : list (string * string)) (b : t) : t :=
  foldl (λ b m, push_volume m.2 ("/home/worker/.agent-shared/potential-skills/" +:+ m.1 +:+ ":ro") b) b mounts.
Definition add_ports (ports : list PortMapping.t) (b : t) : t :=
  mk (image b) (name b) (network b) (cpus b) (memory b) (workdir b) (volumes b)
    (port_maps b ++ ((λ p, (PortMapping.host_port p, PortMapping.container_port p)) <$> ports)) (env_vars b).

(** A variable that is already there gets the new value in its place. *)
Fixpoint set_env (key value : string) (l : list (string * string)) : list (string * string) :=
  match l with
  | [] => [(key, value)]
  | kv :: l => if decide (kv.1 = key) then (key, value) :: l else kv :: set_env key value l
  end.
Definition add_env_vars (l : list (string * string)) (b : t) : t :=
  set_env_vars (foldl (λ env kv, set_env kv.1 kv.2 env) (env_vars b) l) b.

Definition build (b : t) : LaunchWorkerRequest.t :=
  LaunchWorkerRequest.mk (image b) (name b) (cpus b) (memory b) (volumes b) (port_maps b) (env_vars b)
    (default "" (workdir b)) (network b) [].
End RunOptsBuilder.
Abbreviation RunOptsBuilder := RunOptsBuilder.t.

Definition UR_HOST_CONFIG_ENV : string := "UR_HOST_CONFIG".
Definition UR_CONFIG_ENV : string := "UR_CONFIG".
Definition UR_PROJECT_INSTRUCTION_ENV : string := "UR_PROJECT_INSTRUCTION".
Definition UR_BRAIN_ENV : string := "UR_BRAIN".
Definition UR_WORKER_ID_ENV : string := "UR_WORKER_ID".
Definition UR_WORKER_SECRET_ENV : string := "UR_WORKER_SECRET".
Definition WORKER_HOME : string := "/home/worker".
Definition BRAIN_CONTAINER_PATH : string := "/brain".

(** [remap_to_container_config] *)
Definition remap_to_container_config (host_path host_config_dir : string) (container_config : option string)
    : string :=
  match container_config with
  | None => host_path
  | Some c =>
      match path_strip_prefix host_config_dir host_path with
      | Some rel => path_join c rel
      | None => host_path
      end
  end.

Section RunOpts.
Context {HO : Host} {HW : WorkerHost}.
Abbreviation run A := (SE host string A).

Definition convention_check_path (host_path host_config_dir : string) : string :=
  remap_to_container_config host_path host_config_dir
    (match env_var UR_HOST_CONFIG_ENV, env_var UR_CONFIG_ENV with
     | Some _, Some container_config => Some container_config
     | _, _ => None
     end).

Definition ensure_file_exists (path : string) : run unit :=
  there ← gets (path_exists path);
  if there : bool then mret tt
  else
    match path_parent path with Some parent => create_dir_all parent | None => mret tt end ;;
    r ← attempt (create_new_file path);
    match r with
    | Ok _ => mret tt
    | Err (already_exists, e) => if already_exists : bool then mret tt else throw e
    end.

(** *** What a project's directories resolve to *)

(** A template of the configuration, or the project's own file when it is there. *)
Definition resolve_convention (template : option string) (project_key convention_path host_config_dir : string)
    (h : host) : option string :=
  match template with
  | Some x => Some x
  | None =>
      if bool_decide (project_key = "") then None
      else if path_exists (convention_check_path convention_path host_config_dir) h
      then Some convention_path else None
  end.
Definition in_project (host_config_dir project_key file : string) : string :=
  path_join (path_join (path_join host_config_dir "projects") project_key) file.
Definition resolve_project_instruction (instruction_md : option string) (project_key host_config_dir : string)
    (agent : AgentType) (h : host) : option string :=
  resolve_convention instruction_md project_key
    (in_project host_config_dir project_key (AgentType.instruction_filename agent)) host_config_dir h.
Definition resolve_memory_dir (memory_dir : option string) (project_key host_config_dir : string) (h : host)
    : option string :=
  resolve_convention memory_dir project_key (in_project host_config_dir project_key "memory") host_config_dir h.
Definition resolve_brain_dir (brain_dir workspace_brain_dir : option string)
    (project_key host_config_dir : string) (h : host) : option string :=
  match brain_dir with
  | Some x => Some x
  | None =>
      if bool_decide (project_key = "") then workspace_brain_dir
      else
        let convention_path := brain_convention_path host_config_dir project_key in
        if path_exists (convention_check_path convention_path host_config_dir) h
        then Some convention_path else None
  end.
Definition brain_host_path (config : WorkerConfig) (host_config_dir : string) (h : host) : option string :=
  template ← resolve_brain_dir (WorkerConfig.brain_dir config) (WorkerConfig.workspace_brain_dir config)
               (WorkerConfig.project_key config) host_config_dir h;
  match resolve_template_path template host_config_dir with
  | Ok (ResolvedTemplatePath.HostPath path) => Some path
  | _ => None
  end.

(** *** Contributors that can fail *)

Definition add_credentials (host_config_dir local_config_dir : string) (agent : AgentType) (b : RunOptsBuilder)
    : run RunOptsBuilder :=
  match AgentType.auth agent with
  | None => mret b
  | Some auth =>
      let path := AgentAuth.credentials_path auth in
      match AgentType.file_name path with
      | None => throw ("credentials_path '" +:+ path +:+ "' has no filename")
      | Some filename =>
          let creds dir := path_join (path_join dir (AgentType.name agent)) filename in
          map_err (λ e, "failed to ensure credentials file: " +:+ e)
            (ensure_file_exists (creds local_config_dir)) ;;
          when (AgentAuth.allows_in_container_bootstrap auth)
            (map_err (λ e, "failed to chown credentials file: " +:+ e) (chown_worker (creds local_config_dir))) ;;
          mret (RunOptsBuilder.push_volume (creds host_config_dir) (path_join WORKER_HOME path) b)
      end
  end.

Definition add_project_instruction (instruction_md : option string) (host_config_dir : string)
    (agent : AgentType) (b : RunOptsBuilder) : result RunOptsBuilder string :=
  match instruction_md with
  | None => Ok b
  | Some template =>
      match resolve_template_path template host_config_dir with
      | Err e => Err ("failed to resolve instruction_md: " +:+ e)
      | Ok (ResolvedTemplatePath.HostPath host_path) =>
          let container := "/var/ur/project-instruction/" +:+ AgentType.instruction_filename agent in
          Ok (RunOptsBuilder.push_env UR_PROJECT_INSTRUCTION_ENV container
                (RunOptsBuilder.push_volume host_path (container +:+ ":ro") b))
      | Ok (ResolvedTemplatePath.ProjectRelative rel) =>
          Ok (RunOptsBuilder.push_env UR_PROJECT_INSTRUCTION_ENV (path_join "/workspace" rel) b)
      end
  end.

(** A directory for the worker: created where the server sees it, and owned by the
    worker's user. *)
Definition make_worker_dir (what host_path host_config_dir : string) : run unit :=
  let create_path := convention_check_path host_path host_config_dir in
  map_err (λ e, "failed to create " +:+ what +:+ " '" +:+ create_path +:+ "': " +:+ e)
    (create_dir_all create_path) ;;
  map_err (λ e, "failed to chown " +:+ what +:+ " '" +:+ create_path +:+ "': " +:+ e)
    (chown_worker create_path).
Definition resolve_host_dir (what template host_config_dir : string) : result string string :=
  match resolve_template_path template host_config_dir with
  | Err e => Err ("failed to resolve " +:+ what +:+ ": " +:+ e)
  | Ok (ResolvedTemplatePath.HostPath p) => Ok p
  | Ok (ResolvedTemplatePath.ProjectRelative _) =>
      Err (what +:+ " resolved to a project-relative path, which is not supported "
           +:+ "(use an absolute path or %URCONFIG%)")
  end.
Definition add_memory_dir (memory_dir : option string) (host_config_dir : string) (agent : AgentType)
    (b : RunOptsBuilder) : run RunOptsBuilder :=
  match memory_dir, AgentType.memory_subdir agent with
  | Some template, Some memory_subdir =>
      host_path ← of_result (resolve_host_dir "memory_dir" template host_config_dir);
      make_worker_dir "memory_dir" host_path host_config_dir ;;
      mret (RunOptsBuilder.push_volume host_path
        (path_join (path_join WORKER_HOME (AgentType.home_subdir agent)) memory_subdir) b)
  | _, _ => mret b
  end.
Definition add_brain_dir (brain_dir : option string) (host_config_dir : string) (b : RunOptsBuilder)
    : run RunOptsBuilder :=
  match brain_dir with
  | None => mret b
  | Some template =>
      host_path ← of_result (resolve_host_dir "brain_dir" template host_config_dir);
      make_worker_dir "brain_dir" host_path host_config_dir ;;
      mret (RunOptsBuilder.push_env UR_BRAIN_ENV BRAIN_CONTAINER_PATH
        (RunOptsBuilder.push_volume host_path BRAIN_CONTAINER_PATH b))
  end.

Definition add_mount (host_config_dir : string) (b : RunOptsBuilder) (m : MountConfig.t)
    : result RunOptsBuilder string :=
  match resolve_template_path (MountConfig.source m) host_config_dir with
  | Err e => Err ("failed to resolve mount source '" +:+ MountConfig.source m +:+ "': " +:+ e)
  | Ok (ResolvedTemplatePath.ProjectRelative _) =>
      Err ("mount source '" +:+ MountConfig.source m
           +:+ "' resolved to a project-relative path, which is not supported for mounts")
  | Ok (ResolvedTemplatePath.HostPath p) =>
      Ok (RunOptsBuilder.push_volume p
            (MountConfig.destination m +:+ (if MountConfig.readonly m then ":ro" else "")) b)
  end.
Fixpoint add_mounts (mounts : list MountConfig.t) (host_config_dir : string) (b : RunOptsBuilder)
    : result RunOptsBuilder string :=
  match mounts with
  | [] => Ok b
  | m :: mounts => let? b' := add_mount host_config_dir b m in add_mounts mounts host_config_dir b'
  end.

Definition HOOK_KINDS : list string := ["git"; "skills"; "startup"; "startup-bg"].
Definition add_host_hooks_overlay (project_key host_config_dir local_config_dir : string) (h : host)
    (b : RunOptsBuilder) : RunOptsBuilder :=
  if bool_decide (project_key = "") then b
  else
    let base dir := in_project dir project_key "hooks" in
    foldl (λ b kind,
      if path_exists (path_join (base local_config_dir) kind) h
      then RunOptsBuilder.push_volume (path_join (base host_config_dir) kind)
             ("/var/ur/host-hooks/" +:+ kind +:+ ":ro") b
      else b) b HOOK_KINDS.

(** A failure to prepare the directory is ignored. *)
Definition add_logs_dir (host_logs_dir local_logs_dir worker_id : string) (b : RunOptsBuilder)
    : run RunOptsBuilder :=
  let logs dir := path_join (path_join dir "workers") worker_id in
  r ← attempt (create_dir_all (logs local_logs_dir));
  when (is_ok r) (ignore_err (chown_worker (logs local_logs_dir))) ;;
  mret (RunOptsBuilder.push_env "UR_LOGS_DIR" "/var/ur/logs"
          (RunOptsBuilder.push_volume (logs host_logs_dir) "/var/ur/logs" b)).

(** [check_script_exists], with the workspace when it can be looked at. *)
Definition check_script_exists (rel_path : string) (workspace_path : option string) (h : host)
    : result unit string :=
  match workspace_path with
  | None => Ok tt
  | Some ws =>
      let source := path_join ws rel_path in
      check_that (path_exists source h) ("hostexec script '" +:+ rel_path +:+ "' not found at '" +:+ source
        +:+ "': ensure the script is committed to the repository")
  end.
Fixpoint add_project_hostexec_scripts (scripts : list string) (shim_host_path : string)
    (workspace_path : option string) (h : host) (b : RunOptsBuilder) : result RunOptsBuilder string :=
  match scripts with
  | [] => Ok b
  | rel_path :: scripts =>
      let? _ := check_script_exists rel_path workspace_path h in
      add_project_hostexec_scripts scripts shim_host_path workspace_path h
        (RunOptsBuilder.push_volume shim_host_path ("/workspace/" +:+ rel_path +:+ ":ro") b)
  end.
End RunOpts.

(** ** The environment of the container *)

(** [proxy_env_vars] *)
Definition proxy_env_vars (proxy_hostname : string) : list (string * string) :=
  let proxy_url := "http://" +:+ proxy_hostname +:+ ":3128" in
  [("HTTP_PROXY", proxy_url); ("HTTPS_PROXY", proxy_url); ("NO_PROXY", "")].

Definition optional_env (there : bool) (key value : string) : list (string * string) :=
  if there then [(key, value)] else [].
Definition non_empty (s : string) : bool := negb (bool_decide (s = "")).
Definition build_worker_env_vars (config : WorkerConfig) (worker_secret : string)
    (network_config : NetworkConfig.t) (worker_port : Z) : list (string * string) :=
  let skills := WorkerConfig.skills config ++
    (if bool_decide (WorkerConfig.forge config = Some ForgeType.Gitea)
        && negb (bool_decide ("gitea" ∈ WorkerConfig.skills config)) then ["gitea"] else []) in
  [("UR_SERVER_ADDR", NetworkConfig.server_hostname network_config +:+ ":" +:+ pretty worker_port);
   (UR_WORKER_ID_ENV, WorkerConfig.worker_id config); (UR_WORKER_SECRET_ENV, worker_secret)]
  ++ proxy_env_vars (WorkerConfig.proxy_hostname config)
  ++ optional_env (negb (bool_decide (skills = []))) "UR_WORKER_SKILLS" (join "," skills)
  ++ [("UR_AGENT_TYPE", WorkerConfig.agent_type config);
      ("UR_WORKER_INSTRUCTION_STRATEGY", WorkerStrategy.name (WorkerConfig.strategy config))]
  ++ optional_env (non_empty (WorkerConfig.model config)) "UR_WORKER_MODEL" (WorkerConfig.model config)
  ++ [("UR_WORKER_EFFORT", WorkerConfig.effort config)]
  ++ match WorkerConfig.forge config with
     | Some f => [("UR_WORKER_FORGE", ForgeType.as_str f)]
     | None => []
     end
  ++ optional_env (non_empty (WorkerConfig.project_key config)) "UR_PROJECT" (WorkerConfig.project_key config)
  ++ match WorkerConfig.workspace_dir config with
     | Some d => [("UR_HOST_WORKSPACE", d)]
     | None => []
     end.

(** [context_mount_configs] *)
Definition context_mount_configs (context_mounts : list (string * string)) : list MountConfig.t :=
  (λ m, MountConfig.mk m.2 ("/context/" +:+ m.1) false) <$> context_mounts.
