(* ===== verification/WorkerManager.v ===== *)
(** * The worker manager

    [server/src/worker.rs]: worker identifiers and their verification, the two
    phases of a launch, stopping a worker by its identifier or by the name of its
    process, and the queries about running workers; with the clients
    [network_manager.rs] and [builder_container_client.rs].

    A launch writes the worker's row before it starts the container, because the
    daemon in the container authenticates while it starts, and takes it back when
    anything fails afterwards. *)

From S2P Require Import Prelude RustStd Model Env Agent UrConfig WorkflowDb WorkerRepo Context Host Pool.
From S2P Require Import RunOpts.
From Stdlib Require Import Ascii.
Local Open Scope stdpp_scope.

(** ** Identifiers *)

Module WorkerId.
Definition generate {HE : Env} {T E} (process_id : string) : SE (pool T) E string :=
  suffix ← generate_base36 4; mret (process_id +:+ "-" +:+ suffix).
Definition parse (s : string) : result string string :=
  match rfind_char "-"%char s with
  | None => Err ("invalid worker ID (no dash): " +:+ s)
  | Some dash_pos =>
      let suffix := str_drop (S dash_pos) s in
      let? _ := check_that (negb (bool_decide (dash_pos = 0)))
                  ("invalid worker ID (empty process_id): " +:+ s) in
      let? _ := check_that (bool_decide (String.length suffix = 4)
                            && all_chars (λ c, is_ascii_lowercase c || is_ascii_digit c) suffix)
                  ("invalid worker ID suffix (expected 4 [a-z0-9] chars): " +:+ s) in
      Ok s
  end.
End WorkerId.

Module WorkerContext.
Record t : Type := mk {
  project_key : option string;
  slot_path : string;
  strategy : string;
  brain_path : option string
}.
End WorkerContext.
Module WorkerSummary.
Record t : Type := mk {
  process_id : string;
  worker_id : string;
  container_id : string;
  project_key : string;
  mode : string;
  directory : string;
  container_status : string;
  agent_status : string;
  agent_type : string;
  runtime : WorkerRuntime
}.
End WorkerSummary.

(** The manager's own fields; its modes and skills are in [WorkerModes]. *)
Module WorkerManager.
Record t : Type := mk {
  workspace : string;
  host_config_dir : string;
  local_config_dir : string;
  logs_dir : string;
  host_logs_dir : string;
  network_name : string;
  network_config : NetworkConfig.t;
  worker_port : Z
}.
End WorkerManager.

(** ** The clients *)

Definition preserve_status_code (rpc : string) (status : Status.t) : Status.t :=
  match Status.code_of status with
  | Status.NotFound | Status.FailedPrecondition | Status.Internal | Status.Unavailable
  | Status.InvalidArgument => status
  | code => Status.mk code ("builder_container " +:+ rpc +:+ ": " +:+ Status.message status) None
  end.

Section Manager.
Context {HE : Env} {HO : Host} {HP : PoolHost} {HW : WorkerHost}.
Context (self : WorkerManager.t).
Import WorkerManager.
Abbreviation run A := (SE (ctx host) string A).

Definition container_rpc {A} (rpc : string) (m : SE host Status.t A) : SE (ctx host) Status.t A :=
  external (map_err (preserve_status_code rpc) m).
Definition launch_worker (r : LaunchWorkerRequest.t) : SE (ctx host) Status.t string :=
  container_rpc "launch_worker" (launch_worker_rpc r).
Definition stop_worker (container_id : string) : SE (ctx host) Status.t unit :=
  container_rpc "stop_worker" (stop_worker_rpc container_id).
Definition inspect_worker (container_id : string) : SE (ctx host) Status.t string :=
  container_rpc "inspect_worker" (inspect_worker_rpc container_id).
Definition inspect_network (name : string) : SE (ctx host) Status.t bool :=
  container_rpc "inspect_network" (inspect_network_rpc name).

(** [NetworkManager::ensure] *)
Definition ensure_network : run unit :=
  there ← map_err (λ s, "inspect_network gRPC error: " +:+ status_display s)
            (inspect_network (network_name self));
  if there : bool then mret tt
  else throw ("Docker network '" +:+ network_name self
              +:+ "' does not exist — is docker compose running?").

(** A container that is gone is stopped. *)
Definition tolerate_missing (m : SE (ctx host) Status.t unit) : run unit :=
  r ← attempt m;
  match r with
  | Ok _ => mret tt
  | Err status =>
      if bool_decide (Status.code_of status = Status.NotFound) then mret tt
      else throw (status_display status)
  end.

(** ** Queries *)

Definition with_status (container_status : string) : run (list Worker) :=
  db_call "db error" (list_workers_by_container_status container_status).
Definition resolve_process_id (worker_id : string) : run string :=
  worker ← db_call "db error" (get_worker worker_id);
  ok_or (WorkerRow.process_id <$> worker) ("unknown worker: " +:+ worker_id).
Definition get_worker_context (worker_id : string) : SE (ctx host) Empty_set (option WorkerContext.t) :=
  r ← attempt (workflows (get_worker worker_id));
  mret (match r with
        | Ok (Some w) =>
            workspace_path ← WorkerRow.workspace_path w;
            Some (WorkerContext.mk
              (if bool_decide (WorkerRow.project_key w = "") then None else Some (WorkerRow.project_key w))
              workspace_path (WorkerRow.strategy w) (WorkerRow.brain_path w))
        | _ => None
        end).
Definition verify_worker (worker_id secret : string) : SE (ctx host) Empty_set bool :=
  match WorkerId.parse worker_id with
  | Err _ => mret false
  | Ok _ =>
      r ← attempt (workflows (WorkerRepo.verify_worker worker_id secret));
      mret (match r with Ok b => b | Err _ => false end)
  end.

Definition by_process_id : relation WorkerSummary.t := le_by WorkerSummary.process_id String.le.
#[local] Instance by_process_id_dec : RelDecision by_process_id.
Proof. unfold by_process_id. apply _. Defined.
Definition summary_of (w : Worker) : WorkerSummary.t :=
  WorkerSummary.mk (WorkerRow.process_id w) (WorkerRow.worker_id w) (WorkerRow.container_id w)
    (WorkerRow.project_key w) (WorkerRow.strategy w) (default "" (WorkerRow.workspace_path w))
    (WorkerRow.container_status w) (WorkerRow.agent_status w) (WorkerRow.agent_type w) (WorkerRow.runtime w).
Definition list_running : SE (ctx host) Empty_set (list WorkerSummary.t) :=
  r ← attempt (workflows (list_workers_by_container_status "running"));
  mret (order_by by_process_id (summary_of <$> match r with Ok l => l | Err _ => [] end)).
Definition get_workspace_dir (process_id : string) : run (option string) :=
  workers ← with_status "running";
  worker ← ok_or (list_find (λ w, WorkerRow.process_id w = process_id) workers) ("unknown worker: " +:+ process_id);
  mret (WorkerRow.workspace_path worker.2).

(** ** Launching *)

Definition prepare (process_id : string) (workspace_dir : option string) : run (option string) :=
  running ← with_status "running";
  provisioning ← with_status "provisioning";
  if existsb (λ w, bool_decide (WorkerRow.process_id w = process_id)) (running ++ provisioning)
  then throw ("process already running: " +:+ process_id)
  else match workspace_dir with
  | Some d => mret (Some d)
  | None =>
      let repo_dir := path_join (workspace self) process_id in
      map_err (λ e, "failed to create repo dir: " +:+ e) (external (create_dir_all repo_dir)) ;;
      out ← map_err (λ e, "failed to run git init: " +:+ e) (external (git_init repo_dir));
      if out.1 : bool then mret (Some repo_dir)
      else throw ("git init failed: " +:+ from_utf8_lossy out.2)
  end.

Definition agent_of (config : WorkerConfig) : AgentType :=
  match AgentType.parse (WorkerConfig.agent_type config) with
  | Ok a => a
  | Err _ => AgentType.Claude
  end.
Definition shim_host_path : string := path_join (path_join (host_config_dir self) "hostexec") "script-shim.sh".

Definition build_launch_request (config : WorkerConfig) (worker_secret container_name : string)
    : SE host string LaunchWorkerRequest.t :=
  let env_vars := build_worker_env_vars config worker_secret (network_config self) (worker_port self) in
  let agent := agent_of config in
  let dir := host_config_dir self in
  let key := WorkerConfig.project_key config in
  project_instruction ← gets (resolve_project_instruction (WorkerConfig.instruction_md config) key dir agent);
  memory_dir ← gets (resolve_memory_dir (WorkerConfig.memory_dir config) key dir);
  brain_dir ← gets (resolve_brain_dir (WorkerConfig.brain_dir config) (WorkerConfig.workspace_brain_dir config) key dir);
  let b := RunOptsBuilder.add_workspace (WorkerConfig.workspace_dir config)
    (RunOptsBuilder.with_workdir "/workspace" (RunOptsBuilder.with_memory (WorkerConfig.memory config)
      (RunOptsBuilder.with_cpus (WorkerConfig.cpus config)
        (RunOptsBuilder.new (WorkerConfig.image_id config) container_name (network_name self))))) in
  b ← add_logs_dir (host_logs_dir self) (logs_dir self) (WorkerConfig.worker_id config) b;
  b ← add_credentials dir (local_config_dir self) agent b;
  b ← gets (λ h, RunOptsBuilder.add_extra_skills (WorkerConfig.extra_skill_mounts config)
                   (add_host_hooks_overlay key dir (local_config_dir self) h b));
  b ← of_result (add_project_instruction project_instruction dir agent b);
  b ← add_memory_dir memory_dir dir agent b;
  b ← add_brain_dir brain_dir dir b;
  b ← of_result (add_mounts (WorkerConfig.mounts config) dir b);
  b ← of_result (add_mounts (context_mount_configs (WorkerConfig.context_mounts config)) dir b);
  h ← gets id;
  b ← of_result (add_project_hostexec_scripts (WorkerConfig.hostexec_scripts config) shim_host_path None h b);
  mret (RunOptsBuilder.build (RunOptsBuilder.add_env_vars env_vars
          (RunOptsBuilder.add_ports (WorkerConfig.ports config) b))).

(** The row before the container starts. *)
Definition provisioning_worker (config : WorkerConfig) (container_name worker_secret now : string)
    (brain_path : option string) : Worker :=
  WorkerRow.mk (WorkerConfig.worker_id config) (WorkerConfig.process_id config) (WorkerConfig.project_key config)
    container_name worker_secret (WorkerStrategy.name (WorkerConfig.strategy config))
    (WorkerConfig.agent_type config) "provisioning" "starting" (WorkerConfig.workspace_dir config) now now 0
    brain_path (WorkerConfig.runtime config).
Definition record_provisioning_worker (config : WorkerConfig) (container_name worker_secret : string) : run unit :=
  now ← zoom (T := pool wtables) utc_now;
  brain_path ← external (gets (brain_host_path config (host_config_dir self)));
  db_call "failed to record worker"
    (insert_worker (provisioning_worker config container_name worker_secret now brain_path)).
Definition finalize_launch (config : WorkerConfig) (container_id : string) : run unit :=
  db_call "failed to finalize worker launch"
    (finalize_worker_launch (WorkerConfig.worker_id config) container_id) ;;
  match WorkerConfig.slot_id config with
  | Some slot_id => db_call "failed to link worker to slot" (link_worker_slot (WorkerConfig.worker_id config) slot_id)
  | None => mret tt
  end.
(** Takes the row back; the error says whether that failed too. *)
Definition remove_provisioning_worker {A} (worker_id error : string) : run A :=
  r ← attempt (workflows (delete_worker worker_id));
  match r with
  | Ok _ => throw error
  | Err e => throw (error +:+ "; failed to remove provisional worker: " +:+ sqlx_display e)
  end.

Definition container_name_of (process_id : string) : string :=
  NetworkConfig.worker_prefix (network_config self) +:+ process_id.

(** What follows the recording of the row. *)
Definition launch_recorded (config : WorkerConfig) (request : LaunchWorkerRequest.t) : run string :=
  r ← attempt (launch_worker request);
  match r with
  | Err status =>
      remove_provisioning_worker (WorkerConfig.worker_id config)
        ("launch_worker gRPC error: " +:+ status_display status)
  | Ok container_id =>
      r ← attempt (finalize_launch config container_id);
      match r with
      | Ok _ => mret container_id
      | Err error =>
          r ← attempt (stop_worker container_id);
          let stop_error := match r with
                            | Ok _ => ""
                            | Err status => "; failed to clean up container: " +:+ status_display status
                            end in
          remove_provisioning_worker (WorkerConfig.worker_id config) (error +:+ stop_error)
      end
  end.
(** [run_and_record]: the container's identifier and the worker's secret. *)
Definition run_and_record (config : WorkerConfig) : run (string * string) :=
  map_err (λ e, "failed to create worker logs dir: " +:+ e)
    (external (create_dir_all (path_join (path_join (logs_dir self) "workers") (WorkerConfig.worker_id config)))) ;;
  map_err (λ e, "failed to ensure Docker network: " +:+ e) ensure_network ;;
  worker_secret ← zoom (T := pool wtables) new_uuid;
  let container_name := container_name_of (WorkerConfig.process_id config) in
  tolerate_missing (stop_worker container_name) ;;
  request ← external (build_launch_request config worker_secret container_name);
  record_provisioning_worker config container_name worker_secret ;;
  container_id ← launch_recorded config request;
  mret (container_id, worker_secret).

(** ** Stopping *)

Definition stop_by_worker_id (worker_id : string) : run unit :=
  worker ← db_call "db error" (get_worker worker_id);
  worker ← ok_or worker ("unknown worker: " +:+ worker_id);
  tolerate_missing (stop_worker (WorkerRow.container_id worker)) ;;
  strategy ← of_result (match WorkerStrategy.from_name (WorkerRow.strategy worker) with
                        | Ok s => Ok s
                        | Err e => Err ("invalid strategy in db: " +:+ e)
                        end);
  match bool_decide (WorkerRow.project_key worker = ""), WorkerRow.workspace_path worker with
  | false, Some slot_path => release_by strategy worker_id slot_path
  | _, _ => mret tt
  end ;;
  db_call "failed to update worker status" (update_worker_container_status worker_id "stopped").

(** A container of this name that no running worker's row claims: a worker whose
    row drifted is stopped properly, an orphan is removed. *)
Definition stop_unrecorded_by_name (process_id : string) : run unit :=
  let container_name := container_name_of process_id in
  container_id ← map_err (λ s, "cannot determine what occupies container " +:+ container_name +:+ ": "
                                +:+ status_display s) (inspect_worker container_name);
  if bool_decide (container_id = "") then throw ("unknown worker: " +:+ process_id)
  else
    owner ← db_call "db error" (get_worker_by_container_id container_id);
    match owner with
    | Some owner =>
        worker_id ← of_result (WorkerId.parse (WorkerRow.worker_id owner));
        stop_by_worker_id worker_id
    | None =>
        r ← attempt (stop_worker container_id);
        match r with
        | Ok _ => mret tt
        | Err status =>
            if bool_decide (Status.code_of status = Status.NotFound)
            then throw ("unknown worker: " +:+ process_id)
            else throw (status_display status)
        end
    end.
(** The newest running worker of the process. *)
Definition stop (process_id : string) : run unit :=
  workers ← with_status "running";
  match list_find (λ w, WorkerRow.process_id w = process_id) (reverse workers) with
  | Some (_, worker) =>
      worker_id ← of_result (WorkerId.parse (WorkerRow.worker_id worker));
      stop_by_worker_id worker_id
  | None => stop_unrecorded_by_name process_id
  end.
End Manager.
