(* ===== verification/WorkerManagerProps.v ===== *)
(** * Launching and stopping workers

    A launch is all or nothing for the workflow database, a launched worker can
    authenticate, stopping a worker frees its slot, and the request that starts a
    container carries the worker's identity. *)

From S2P Require Import Prelude RustStd TextLemmas Model Env Agent UrConfig TicketDb WorkflowDb WorkerRepo Context Host.
From S2P Require Import TicketGraph WorkerProps TicketService IssueProps Pool HandlerLib TestWorld PoolProps RunOpts WorkerManager.
From Stdlib Require Import Ascii Lia.
Local Open Scope stdpp_scope.

(** ** What a computation leaves *)

(** Between [x0] and [x]: the workflow tables satisfy [P], a working database works
    on, and tickets and requests are as they were. *)
Record frame {H} (P : wtables → Prop) (x0 x : ctx H) : Prop := Frame {
  frame_tables : P (tables (workflow_db x));
  frame_working : faults (workflow_db x0) = [] → faults (workflow_db x) = [];
  frame_tickets : ticket_db x = ticket_db x0;
  frame_channel : sent x = sent x0 ∧ receiving x = receiving x0
}.
Definition frame_pool (P : wtables → Prop) (fs : list bool) (p : pool wtables) : Prop :=
  P (tables p) ∧ (fs = [] → faults p = []).

Lemma frame_refl {H} (x : ctx H) : frame (eq (tables (workflow_db x))) x x.
Proof. by split. Qed.

Lemma frame_statement {A} P fs (f : wtables → result (A * wtables) sqlx_error) :
  (∀ t a t', P t → f t = Ok (a, t') → P t') → preserves (frame_pool P fs) (statement f).
Proof.
  intros Hf [t gs n] [Hp Hg]. simpl in *. unfold statement. simpl.
  destruct gs as [|[] gs]; [|split; [done|]; intros E; by specialize (Hg E)|].
  - destruct (f t) as [[a t']|e] eqn:E; split; simpl; eauto.
  - destruct (f t) as [[a t']|e] eqn:E; (split; [simpl; by eauto|]); intros E'; by specialize (Hg E').
Qed.
Lemma frame_select {A} P fs (f : wtables → A) : preserves (frame_pool P fs) (select f).
Proof. apply frame_statement. by intros t a t' Ht [= _ <-]. Qed.
Lemma frame_update P fs (f : wtables → wtables) : (∀ t, P t → P (f t)) → preserves (frame_pool P fs) (update_stmt f).
Proof. intros Hf. apply frame_statement. intros t a t' Ht [= _ <-]. by apply Hf. Qed.
Lemma frame_now {E} P fs {HE : Env} : preserves (frame_pool P fs) (utc_now : SE (pool wtables) E string).
Proof. by intros p. Qed.
Lemma frame_uuid {E} P fs {HE : Env} : preserves (frame_pool P fs) (new_uuid : SE (pool wtables) E string).
Proof. by intros p. Qed.
Create HintDb frames.
#[local] Hint Resolve frame_select frame_now frame_uuid : frames.

Section Frames.
Context {HE : Env} {HO : Host} {HP : PoolHost} {HW : WorkerHost}.
Abbreviation framed P x0 m := (preserves (frame P x0) m).

Lemma framed_external {E A} P (x0 : ctx host) (m : SE host E A) : framed P x0 (external m).
Proof. intros [t w h q b] [? ? ? ?]. rewrite run_external. by split. Qed.
Lemma framed_workflows {A} P (x0 : ctx host) (m : wdb A) :
  preserves (frame_pool P (faults (workflow_db x0))) m → framed P x0 (workflows m).
Proof.
  intros Hm [t w h q b] [Ht Hw ? ?]. rewrite run_workflows. destruct (Hm w) as [Ht' Hw']; [by split|]. by split.
Qed.
Lemma framed_draw {E A} P (x0 : ctx host) (m : SE (pool wtables) E A) :
  preserves (frame_pool P (faults (workflow_db x0))) m → framed P x0 (zoom m : SE (ctx host) E A).
Proof.
  intros Hm [t w h q b] [Ht Hw ? ?]. rewrite run_zoom. destruct (Hm w) as [Ht' Hw']; [by split|]. by split.
Qed.
Lemma framed_db {A} P (x0 : ctx host) what (m : wdb A) :
  preserves (frame_pool P (faults (workflow_db x0))) m → framed P x0 (db_call what m).
Proof. intros Hm. by apply preserves_map_err, framed_workflows. Qed.
Lemma framed_rpc {A} P (x0 : ctx host) rpc (m : SE host Status.t A) : framed P x0 (container_rpc rpc m).
Proof. apply framed_external. Qed.
Lemma framed_pool_rpc {A} P (x0 : ctx host) rpc (m : SE host Status.t A) : framed P x0 (pool_rpc rpc m).
Proof. apply preserves_map_err, framed_external. Qed.
Lemma framed_tolerate P (x0 : ctx host) m : framed P x0 m → framed P x0 (tolerate_missing m).
Proof.
  intros Hm. unfold tolerate_missing. apply preserves_bind; [by apply preserves_attempt|].
  intros [[]|s]; [apply preserves_ret|]. case_match; [apply preserves_ret|apply preserves_throw].
Qed.
Lemma framed_get_worker {E} P (x0 : ctx host) worker_id f :
  framed P x0 (map_err (f : _ → E) (workflows (get_worker worker_id))).
Proof.
  apply preserves_map_err, framed_workflows. unfold get_worker.
  apply preserves_bind; [apply frame_select|]. intros row. apply preserves_of_result.
Qed.

(** A computation in a frame, followed by another: what is proved of its failure
    and of what follows it. *)
Lemma run_framed {E A B} P (x0 x : ctx host) (m : SE (ctx host) E A) (k : A → SE (ctx host) E B)
    (Q : result B E → ctx host → Prop) :
  framed P x0 m → frame P x0 x → (∀ e y, frame P x0 y → Q (Err e) y) →
  (∀ a y, frame P x0 y → Q (k a y).1 (k a y).2) → Q ((m ≫= k) x).1 ((m ≫= k) x).2.
Proof.
  intros Hm Hx He Hk. rewrite run_bind. specialize (Hm x Hx). destruct (m x) as [[a|e] y]; [by apply Hk|by apply He].
Qed.

(** ** The interface of the handlers *)

(** Stopping a worker touches no workflow, no intent and no request. *)
Lemma stop_leaves_workflows worker_id (x : ctx host) :
  leaves_workflows x (stop_by_worker_id worker_id x).2.
Proof.
  pose (P := λ s, WorkflowTables.workflow s = WorkflowTables.workflow (tables (workflow_db x))
    ∧ WorkflowTables.workflow_intent s = WorkflowTables.workflow_intent (tables (workflow_db x))).
  assert (frame P x (stop_by_worker_id worker_id x).2) as [[Hr Hi] Hw Ht Hc]; [|by split].
  assert (framed P x (stop_by_worker_id worker_id)) as Hp; [|apply Hp; by split].
  unfold stop_by_worker_id. apply preserves_bind; [apply framed_get_worker|]. intros o.
  apply preserves_bind; [apply preserves_ok_or|]. intros w.
  apply preserves_bind; [apply framed_tolerate, framed_rpc|]. intros _.
  apply preserves_bind; [apply preserves_of_result|]. intros strategy.
  apply preserves_bind.
  - case_match; [apply preserves_ret|]. case_match; [|apply preserves_ret].
    unfold release_by, release_slot. destruct strategy; [|apply preserves_ret|].
    all: apply preserves_bind; [apply framed_db, frame_select|]; intros slot.
    all: apply preserves_bind; [|intros _; by apply framed_db, frame_update].
    all: destruct slot; [apply preserves_ignore_err, framed_pool_rpc|apply preserves_ret].
  - intros _. apply framed_db. unfold update_worker_container_status.
    apply preserves_bind; [apply frame_now|]. intros now. by apply frame_update.
Qed.
End Frames.

(** ** A launch is all or nothing *)

Section Launch.
Context {HE : Env} {HO : Host} {HP : PoolHost} {HW : WorkerHost} (self : WorkerManager.t).
Abbreviation framed P x0 m := (preserves (frame P x0) m).

(** The tables after a launch: a fresh worker's row, running in its container with
    its secret, linked to its slot when it has one; nothing else. *)
Record launched (config : WorkerConfig) (container_id secret : string) (s t : wtables) : Prop := Launched {
  launched_fresh : WorkflowTables.worker s !! WorkerConfig.worker_id config = None;
  launched_tables : ∃ row now,
    t = WorkflowTables.set_worker_slot
          (match WorkerConfig.slot_id config with
           | Some i => <[(WorkerConfig.worker_id config, i) := now]> (WorkflowTables.worker_slot s)
           | None => WorkflowTables.worker_slot s
           end)
          (WorkflowTables.set_worker (<[WorkerConfig.worker_id config := row]> (WorkflowTables.worker s)) s)
    ∧ WorkerRow.worker_id row = WorkerConfig.worker_id config
    ∧ WorkerRow.process_id row = WorkerConfig.process_id config
    ∧ WorkerRow.project_key row = WorkerConfig.project_key config
    ∧ WorkerRow.strategy row = WorkerStrategy.name (WorkerConfig.strategy config)
    ∧ WorkerRow.workspace_path row = WorkerConfig.workspace_dir config
    ∧ WorkerRow.runtime row = WorkerRuntime.as_str (WorkerConfig.runtime config)
    ∧ WorkerRow.container_status row = "running"
    ∧ WorkerRow.container_id row = container_id ∧ WorkerRow.worker_secret row = secret
}.

(** Taking the row back restores the tables. *)
Lemma delete_recorded (s : wtables) i row : wwf s → WorkflowTables.worker s !! i = None →
  delete_workers (λ j _, bool_decide (j = i))
    (WorkflowTables.set_worker (<[i := row]> (WorkflowTables.worker s)) s) = s.
Proof.
  intros Hwf Hi. unfold delete_workers. simpl.
  assert (filter (λ kv : string * WorkerRow.t string, bool_decide (kv.1 = i) = false)
            (<[i := row]> (WorkflowTables.worker s)) = WorkflowTables.worker s) as ->.
  { rewrite map_filter_insert_False by (simpl; by rewrite bool_decide_eq_false; naive_solver).
    rewrite delete_id by done. apply map_filter_id. intros j r Hj. simpl. apply bool_decide_eq_false. congruence. }
  assert (filter (λ kv : string * string * string, kv.1.1 ∈ dom (WorkflowTables.worker s))
            (WorkflowTables.worker_slot s) = WorkflowTables.worker_slot s) as ->.
  { apply map_filter_id. intros [j k] y Hj. by destruct (wwf_links s Hwf (j, k) y Hj). }
  by destruct s.
Qed.

Lemma run_remove {A} (s : wtables) row config error t n h q b : wwf s →
  WorkflowTables.worker s !! WorkerConfig.worker_id config = None →
  ∃ e, (remove_provisioning_worker (WorkerConfig.worker_id config) error : SE (ctx host) string A)
      (Ctx t (Pool (WorkflowTables.set_worker (<[WorkerConfig.worker_id config := row]> (WorkflowTables.worker s)) s) [] n) h q b)
    = (Err e, Ctx t (Pool s [] n) h q b).
Proof.
  intros Hwf Hi. unfold remove_provisioning_worker. rewrite run_bind, run_attempt, run_workflows.
  unfold delete_worker. rewrite run_statement. cbn [fst snd]. rewrite delete_recorded by done. by eexists.
Qed.
Lemma run_finalize (s : wtables) row i cid n :
  finalize_worker_launch i cid (Pool (WorkflowTables.set_worker (<[i := row]> (WorkflowTables.worker s)) s) [] n)
  = (Ok tt, Pool (WorkflowTables.set_worker
      (<[i := WorkerRow.set_container cid "running" (now_rfc3339 n) row]> (WorkflowTables.worker s)) s) [] (S n)).
Proof.
  unfold finalize_worker_launch. rewrite run_bind, run_utc_now, run_bind, run_statement. simpl.
  rewrite lookup_insert_eq, bool_decide_true by (by eexists). unfold update_worker. simpl. by rewrite alter_insert_eq.
Qed.
Lemma run_link (s : wtables) w i n :
  (∃ e, link_worker_slot w i (Pool s [] n) = (Err e, Pool s [] (S n)))
  ∨ link_worker_slot w i (Pool s [] n)
    = (Ok tt, Pool (WorkflowTables.set_worker_slot (<[(w, i) := now_rfc3339 n]> (WorkflowTables.worker_slot s)) s) [] (S n)).
Proof.
  unfold link_worker_slot. rewrite run_bind, run_utc_now, run_statement. unfold insert_row.
  case_decide; [left; by eexists|]. case_decide; [by right|left; by eexists].
Qed.

(** From the recorded row to the end of the launch. *)
Lemma run_launch_recorded config request (s : wtables) row t n h q b :
  wwf s → WorkflowTables.worker s !! WorkerConfig.worker_id config = None →
  let '(r, y) := launch_recorded config request
    (Ctx t (Pool (WorkflowTables.set_worker (<[WorkerConfig.worker_id config := row]> (WorkflowTables.worker s)) s) [] n) h q b) in
  (ticket_db y = t ∧ sent y = q ∧ receiving y = b ∧ faults (workflow_db y) = [])
  ∧ match r with
    | Err _ => tables (workflow_db y) = s
    | Ok cid => ∃ now now', tables (workflow_db y) = WorkflowTables.set_worker_slot
        (match WorkerConfig.slot_id config with
         | Some i => <[(WorkerConfig.worker_id config, i) := now']> (WorkflowTables.worker_slot s)
         | None => WorkflowTables.worker_slot s
         end)
        (WorkflowTables.set_worker (<[WorkerConfig.worker_id config := WorkerRow.set_container cid "running" now row]>
           (WorkflowTables.worker s)) s)
    end.
Proof.
  intros Hwf Hi. unfold launch_recorded. rewrite run_bind, run_attempt. unfold launch_worker, container_rpc.
  rewrite run_external. destruct (map_err _ _ h) as [[cid|st] h1]; cbn [fst snd].
  2: { destruct (@run_remove string s row config ("launch_worker gRPC error: " +:+ status_display st) t n h1 q b Hwf Hi)
         as (e & ->). by split. }
  rewrite run_bind, run_attempt. unfold finalize_launch, db_call.
  rewrite run_bind, run_map_err, run_workflows, run_finalize. cbn [fst snd].
  destruct (WorkerConfig.slot_id config) as [i|].
  2: { rewrite run_ret. cbn [fst snd]. rewrite run_ret. split; [done|]. exists (now_rfc3339 n), "". by destruct s. }
  rewrite run_map_err, run_workflows.
  match goal with |- context [link_worker_slot _ _ (Pool ?s1 [] ?k)] =>
    destruct (run_link s1 (WorkerConfig.worker_id config) i k) as [(e & ->)| ->] end; cbn [fst snd].
  - rewrite run_bind, run_attempt. unfold stop_worker, container_rpc. rewrite run_external. cbn [fst snd].
    match goal with |- context [remove_provisioning_worker _ ?err ?x] => set (E := err) end.
    match goal with |- context [remove_provisioning_worker _ _ (Ctx t (Pool (WorkflowTables.set_worker (<[_ := ?r]> _) _) _ ?k) ?h2 q b)] =>
      destruct (@run_remove string s r config E t k h2 q b Hwf Hi) as (e' & ->) end. by split.
  - rewrite run_ret. split; [done|]. exists (now_rfc3339 n), (now_rfc3339 (S n)). done.
Qed.

Definition recorded_row (config : WorkerConfig) (name secret now : string) (h : host) : WorkerRow.t string :=
  WorkerRow.with_runtime (WorkerRuntime.as_str (WorkerConfig.runtime config)) 0
    (provisioning_worker config name secret now (brain_host_path config (WorkerManager.host_config_dir self) h)).
Lemma run_record config name secret (s : wtables) t n h q b :
  let i := WorkerConfig.worker_id config in
  let y p := Ctx t (Pool p [] (S n)) h q b in
  (∃ e, record_provisioning_worker self config name secret (Ctx t (Pool s [] n) h q b) = (Err e, y s))
  ∨ WorkflowTables.worker s !! i = None
    ∧ record_provisioning_worker self config name secret (Ctx t (Pool s [] n) h q b)
      = (Ok tt, y (WorkflowTables.set_worker
          (<[i := recorded_row config name secret (now_rfc3339 n) h]> (WorkflowTables.worker s)) s)).
Proof.
  assert (∀ E k, (zoom (T := pool wtables) utc_now : SE (ctx host) E string) (Ctx t (Pool s [] k) h q b)
    = (Ok (now_rfc3339 k), Ctx t (Pool s [] (S k)) h q b)) as Hnow by reflexivity.
  unfold record_provisioning_worker. rewrite run_bind, Hnow, run_bind, run_external. cbn [fst snd]. rewrite run_gets. cbn [fst snd].
  unfold db_call. rewrite run_map_err, run_workflows.
  unfold insert_worker. rewrite run_statement. unfold insert_row. simpl.
  destruct (WorkflowTables.worker s !! WorkerConfig.worker_id config) as [r|] eqn:Hi.
  - left. rewrite decide_True by (by eexists). by eexists.
  - right. split; [done|]. by rewrite decide_False by (by intros [? ?]).
Qed.

(** A launch is all or nothing.  When the database answers, a launch either ends
    with the worker's row added: running in its container, with the secret that is
    returned, which authenticates it, and linked to its slot; or it fails and leaves
    the workflow database as it was, whatever failed. *)
Theorem launch_all_or_nothing config (x : ctx host) :
  faults (workflow_db x) = [] → wwf (tables (workflow_db x)) →
  let '(r, y) := run_and_record self config x in
  frame (λ _, True) x y
  ∧ match r with
    | Err _ => tables (workflow_db y) = tables (workflow_db x)
    | Ok (container_id, secret) =>
        launched config container_id secret (tables (workflow_db x)) (tables (workflow_db y))
        ∧ (WorkerId.parse (WorkerConfig.worker_id config) = Ok (WorkerConfig.worker_id config) →
           (verify_worker (WorkerConfig.worker_id config) secret y).1 = Ok true)
    end.
Proof.
  intros Hfs Hwf. set (s := tables (workflow_db x)) in *.
  pose (Q := λ (r : result (string * string) string) (y : ctx host), frame (λ _, True) x y
    ∧ match r with
      | Err _ => tables (workflow_db y) = s
      | Ok (container_id, secret) => launched config container_id secret s (tables (workflow_db y))
          ∧ (WorkerId.parse (WorkerConfig.worker_id config) = Ok (WorkerConfig.worker_id config) →
             (verify_worker (WorkerConfig.worker_id config) secret y).1 = Ok true)
      end).
  cut (Q (run_and_record self config x).1 (run_and_record self config x).2);
    [by destruct (run_and_record self config x) as [[[? ?]|] ?]|].
  assert (∀ e y, frame (eq s) x y → Q (Err e) y) as Hfail by (intros e y [He ? ? ?]; split; [by split|by rewrite <-He]).
  unfold run_and_record.
  apply (run_framed (eq s) x); [apply preserves_map_err, framed_external|apply frame_refl|done|]. intros _ x1 H1.
  apply (run_framed (eq s) x); [|done|done|].
  { apply preserves_map_err. unfold ensure_network. apply preserves_bind; [apply preserves_map_err, framed_rpc|].
    intros there. case_match; [apply preserves_ret|apply preserves_throw]. }
  intros _ x2 H2. apply (run_framed (eq s) x); [apply framed_draw, frame_uuid|done|done|]. intros secret x3 H3.
  apply (run_framed (eq s) x); [apply framed_tolerate, framed_rpc|done|done|]. intros _ x4 H4.
  apply (run_framed (eq s) x); [apply framed_external|done|done|]. clear x1 x2 x3 H1 H2 H3 x4 H4.
  intros request x5 [Hs Hw Ht Hc]. specialize (Hw Hfs). destruct x5 as [t [s' fs n] h q b]. simpl in Hs, Hw, Ht, Hc.
  subst s' fs. rewrite run_bind.
  destruct (run_record config (container_name_of self (WorkerConfig.process_id config)) secret s t n h q b)
    as [(e & ->)|[Hi ->]]; [by apply Hfail|]. rewrite run_bind.
  match goal with |- context [recorded_row ?c ?nm ?sec ?now h] => set (row := recorded_row c nm sec now h) end.
  pose proof (run_launch_recorded config request s row t (S n) h q b Hwf Hi) as Hl.
  destruct (launch_recorded config request _) as [[cid|e] y]; destruct Hl as ((H1 & H2 & H3 & H4) & Hy); cbn [fst snd].
  2: { split; [|done]. split; [done| |congruence|naive_solver congruence]. done. }
  rewrite run_ret. cbn [fst snd]. destruct Hy as (now & now' & Hy). split; [|split].
  - split; [done| |congruence|naive_solver congruence]. done.
  - split; [done|]. eexists _, now'. split; [exact Hy|]. by repeat split.
  - intros Hp. unfold verify_worker. rewrite Hp, run_bind, run_attempt.
    destruct y as [t' [ty fs m] h' q' b']. cbn in H4, Hy. subst ty fs. rewrite run_workflows.
    unfold WorkerRepo.verify_worker. rewrite run_bind, run_select. cbn [fst snd]. rewrite !run_ret. cbn.
    match goal with |- context [matching ?P ?m] => assert (matching P m ≠ []) as Hne end.
    { apply elem_of_not_nil with (x := WorkerRow.set_container cid "running" now row). apply elem_of_matching.
      split; [by rewrite !bool_decide_true|]. exists (WorkerConfig.worker_id config). apply lookup_insert_eq. }
    f_equal. apply bool_decide_true. destruct (matching _ _); [done|]. simpl. lia.
Qed.
End Launch.

(** ** Stopping *)

Section Stop.
Context {HE : Env} {HO : Host} {HP : PoolHost} {HW : WorkerHost}.
Abbreviation framed P x0 m := (preserves (frame P x0) m).

(** The container service stops the container, or says that it is gone. *)
Definition stoppable (container_id : string) (h : host) : bool :=
  match (stop_worker_rpc container_id h).1 with
  | Ok _ => true
  | Err s => bool_decide (Status.code_of s = Status.NotFound)
  end.
Lemma preserved_code rpc s : Status.code_of (preserve_status_code rpc s) = Status.code_of s.
Proof. unfold preserve_status_code. by destruct (Status.code_of s) eqn:E. Qed.
Lemma run_tolerate container_id t w h q b :
  let '(r, y) := tolerate_missing (stop_worker container_id) (Ctx t w h q b) in
  is_ok r = stoppable container_id h ∧ ∃ h', y = Ctx t w h' q b.
Proof.
  unfold tolerate_missing, stop_worker, container_rpc, stoppable. rewrite run_bind, run_attempt, run_external, run_map_err.
  destruct (stop_worker_rpc container_id h) as [[[]|s] h1]; cbn [fst snd]; [rewrite run_ret; by eauto|].
  rewrite preserved_code. case_bool_decide; [rewrite run_ret|rewrite run_throw]; by eauto.
Qed.

(** Which workers give a slot back: those of a project, with a workspace and a
    strategy that owns its slot. *)
Definition gives_back (row : WorkerRow.t string) : bool :=
  negb (bool_decide (WorkerRow.project_key row = "")) && bool_decide (is_Some (WorkerRow.workspace_path row))
  && negb (bool_decide (WorkerRow.strategy row = "design")).
Definition unlinked (worker_id : string) (s : wtables) : wtables :=
  WorkflowTables.set_worker_slot (filter (λ kv, kv.1.1 ≠ worker_id) (WorkflowTables.worker_slot s)) s.
Definition stopped (worker_id now : string) (row : WorkerRow.t string) (s : wtables) : wtables :=
  update_worker worker_id (WorkerRow.set_container (WorkerRow.container_id row) "stopped" now)
    (if gives_back row then unlinked worker_id s else s).

Lemma run_release strategy worker_id path (s : wtables) t n h q b :
  ∃ h', release_by strategy worker_id path (Ctx t (Pool s [] n) h q b)
    = (Ok tt, Ctx t (Pool (match strategy with WorkerStrategy.Design => s | _ => unlinked worker_id s end) [] n) h' q b).
Proof.
  assert (∃ h', release_slot worker_id path (Ctx t (Pool s [] n) h q b)
    = (Ok tt, Ctx t (Pool (unlinked worker_id s) [] n) h' q b)) as Hr; [|destruct strategy; simpl; eauto].
  unfold release_slot, db_call. rewrite run_bind, run_map_err, run_workflows. unfold get_slot_by_host_path.
  rewrite run_select. cbn [fst snd]. rewrite run_bind. destruct (head _) as [slot|].
  - rewrite run_ignore_err. assert (∃ h1, (clean_slot (Slot.project_key slot) (Slot.slot_name slot)
      (Ctx t (Pool s [] n) h q b)).2 = Ctx t (Pool s [] n) h1 q b) as [h1 ->].
    { unfold clean_slot, pool_rpc. rewrite run_map_err, run_external. destruct (clean_slot_rpc _ _ h) as [[] ?]; by eexists. }
    rewrite run_map_err, run_workflows. by eexists.
  - rewrite run_ret, run_map_err, run_workflows. by eexists.
Qed.
Lemma run_mark_stopped worker_id (s : wtables) t n h q b :
  db_call "failed to update worker status" (update_worker_container_status worker_id "stopped")
    (Ctx t (Pool s [] n) h q b)
  = (Ok tt, Ctx t (Pool (update_worker worker_id (λ w, WorkerRow.set_container (WorkerRow.container_id w) "stopped"
      (now_rfc3339 n) w) s) [] (S n)) h q b).
Proof.
  unfold db_call. rewrite run_map_err, run_workflows. unfold update_worker_container_status.
  by rewrite run_bind, run_utc_now, run_update_stmt.
Qed.

(** Stopping a worker.  When the database answers, the stop succeeds exactly when
    the worker exists, its container stops or is already gone, and its strategy is
    known; the worker is then stopped and, if it is one of a project with a slot of its
    own, linked to no slot any more; nothing else changes.  A stop that fails changes
    no row. *)
Theorem stop_by_worker_id_spec worker_id (x : ctx host) :
  faults (workflow_db x) = [] → wwf (tables (workflow_db x)) →
  let s := tables (workflow_db x) in
  let '(r, y) := stop_by_worker_id worker_id x in
  frame (λ _, True) x y
  ∧ (is_ok r = true ↔ ∃ row, WorkflowTables.worker s !! worker_id = Some row
       ∧ stoppable (WorkerRow.container_id row) (outside x) = true
       ∧ is_ok (WorkerStrategy.from_name (WorkerRow.strategy row)) = true)
  ∧ match r with
    | Err _ => tables (workflow_db y) = s
    | Ok _ => ∃ row now, WorkflowTables.worker s !! worker_id = Some row
        ∧ tables (workflow_db y) = stopped worker_id now row s
    end.
Proof.
  destruct x as [t [s fs n] h q b]. simpl. intros -> Hwf. unfold stop_by_worker_id.
  rewrite run_bind. unfold db_call at 1. rewrite run_map_err, run_workflows. unfold get_worker.
  rewrite run_bind, run_select. cbn [fst snd].
  destruct (WorkflowTables.worker s !! worker_id) as [row|] eqn:Hrow; cycle 1.
  { rewrite run_of_result. cbn [fst snd worker_from_optional]. rewrite run_bind, run_ok_or. split; [by split|]. split; [naive_solver|done]. }
  assert (∃ rt, worker_from_optional (Some row)
      = Ok (Some (WorkerRow.with_runtime rt (WorkerRow.idle_redispatch_count row) row))) as (rt & ->).
  { unfold worker_from_optional, worker_from_row.
    destruct (wwf_runtimes s Hwf worker_id row Hrow) as [-> | ->]; by eexists. }
  rewrite run_of_result. cbn [fst snd]. rewrite run_bind, run_ok_or, run_bind.
  pose proof (run_tolerate (WorkerRow.container_id row) t (Pool s [] n) h q b) as Hst. cbn [WorkerRow.container_id WorkerRow.with_runtime].
  destruct (tolerate_missing _ _) as [[[]|e] y]; destruct Hst as [Hst (h1 & ->)]; simpl in Hst.
  2: { split; [by split|]. split; [naive_solver congruence|done]. }
  rewrite run_bind, run_of_result. cbn [WorkerRow.strategy WorkerRow.with_runtime].
  destruct (WorkerStrategy.from_name (WorkerRow.strategy row)) as [strategy|e] eqn:Hname.
  2: { split; [by split|]. split; [|done]. intros. split; [done|]. intros (r & Hr & _ & Hok). simplify_eq. by rewrite Hname in Hok. }
  rewrite run_bind. match goal with |- context [(if _ then _ else _) (Ctx t (Pool s [] n) h1 q b)] =>
    match goal with |- context [?m (Ctx t (Pool s [] n) h1 q b)] => set (release := m) end end.
  assert (∃ h2, release (Ctx t (Pool s [] n) h1 q b)
    = (Ok tt, Ctx t (Pool (if gives_back row then unlinked worker_id s else s) [] n) h2 q b)) as (h2 & ->).
  { unfold release, gives_back. simpl. case_bool_decide; [by exists h1|].
    destruct (WorkerRow.workspace_path row) as [path|]; [|by exists h1].
    destruct (run_release strategy worker_id path s t n h1 q b) as (h2 & ->). exists h2.
    rewrite (bool_decide_true (is_Some _)) by (by eexists). simpl.
    assert (strategy = WorkerStrategy.Design ↔ WorkerRow.strategy row = "design") as Hd.
    { unfold WorkerStrategy.from_name in Hname. repeat case_decide; simplify_eq; split; congruence. }
    destruct strategy; [rewrite bool_decide_false by naive_solver|rewrite bool_decide_true by naive_solver
      |rewrite bool_decide_false by naive_solver]; done. }
  rewrite run_mark_stopped. split; [by split|]. split.
  { split; [|done]. intros _. exists row. rewrite Hname. by split_and!; [|symmetry|]. }
  exists row, (now_rfc3339 n). split; [done|]. simpl. unfold stopped, update_worker. f_equal.
  apply map_eq. intros i. assert (WorkflowTables.worker (if gives_back row then unlinked worker_id s else s) = WorkflowTables.worker s)
    as -> by (by destruct (gives_back row)).
  destruct (decide (i = worker_id)) as [->|Hne]; [by rewrite !lookup_alter_eq, Hrow|by rewrite !lookup_alter_ne].
Qed.
End Stop.

(** ** The request that starts the container *)

(** The environment of a launch has each variable once, and setting one keeps it so. *)
Lemma elem_of_set_env k v l k' v' :
  (k', v') ∈ RunOptsBuilder.set_env k v l → (k', v') = (k, v) ∨ (k', v') ∈ l.
Proof.
  induction l as [|[k0 v0] l IH]; simpl; [set_solver|]. case_decide; set_solver.
Qed.
Lemma set_env_keys k v l : (RunOptsBuilder.set_env k v l).*1 = if decide (k ∈ l.*1) then l.*1 else l.*1 ++ [k].
Proof.
  induction l as [|[k0 v0] l IH]; [done|]. cbn [RunOptsBuilder.set_env fst].
  destruct (decide (k0 = k)) as [->|Hne]; rewrite !fmap_cons; cbn [fst]; [by rewrite decide_True by set_solver|].
  rewrite IH. destruct (decide (k ∈ l.*1)); [by rewrite decide_True by set_solver|by rewrite decide_False by set_solver].
Qed.
Lemma set_env_NoDup k v l : NoDup l.*1 → NoDup (RunOptsBuilder.set_env k v l).*1.
Proof.
  intros Hl. rewrite set_env_keys. case_decide as E; [done|]. apply NoDup_app. split; [done|].
  split; [set_solver|apply NoDup_singleton].
Qed.
Lemma set_env_there k v l : (k, v) ∈ RunOptsBuilder.set_env k v l.
Proof.
  induction l as [|[k0 v0] l IH]; [by left|]. cbn [RunOptsBuilder.set_env fst]. case_decide; [by left|by right].
Qed.
Lemma set_env_other k v l k' v' : k' ≠ k → (k', v') ∈ l → (k', v') ∈ RunOptsBuilder.set_env k v l.
Proof.
  intros Hne. induction l as [|[k0 v0] l IH]; [by intros ?%elem_of_nil|]. cbn [RunOptsBuilder.set_env fst].
  intros [Heq|Hin]%elem_of_cons.
  - injection Heq as <- <-. rewrite decide_False by done. by left.
  - case_decide; right; [done|by apply IH].
Qed.
Lemma add_env_vars_spec l b : NoDup (RunOptsBuilder.env_vars b).*1 → NoDup l.*1 →
  NoDup (RunOptsBuilder.env_vars (RunOptsBuilder.add_env_vars l b)).*1
  ∧ ∀ kv, kv ∈ l → kv ∈ RunOptsBuilder.env_vars (RunOptsBuilder.add_env_vars l b).
Proof.
  unfold RunOptsBuilder.add_env_vars. simpl. generalize (RunOptsBuilder.env_vars b). clear b.
  induction l as [|[k v] l IH]; intros env He Hl; simpl; [by split; [|intros kv ?%elem_of_nil]|].
  apply NoDup_cons in Hl as [Hk Hl]. destruct (IH (RunOptsBuilder.set_env k v env)) as [H1 H2];
    [by apply set_env_NoDup|done|]. split; [done|].
  intros kv [->|Hin]%elem_of_cons; [|by apply H2].
  assert (∀ l' env', k ∉ l'.*1 → (k, v) ∈ env' →
    (k, v) ∈ foldl (λ env (kv : string * string), RunOptsBuilder.set_env kv.1 kv.2 env) env' l') as Hkeep.
  { clear. induction l' as [|[k' v'] l' IH]; intros env' Hn Hin; simpl in *; [done|].
    apply IH; [set_solver|]. apply set_env_other; [set_solver|done]. }
  apply Hkeep; [done|apply set_env_there].
Qed.
Lemma worker_env_NoDup config secret net port : NoDup (build_worker_env_vars config secret net port).*1.
Proof.
  unfold build_worker_env_vars, proxy_env_vars, optional_env.
  repeat match goal with |- context [if ?b then [_] else []] => destruct b end.
  all: destruct (WorkerConfig.forge config), (WorkerConfig.workspace_dir config); cbn.
  all: apply (bool_decide_unpack _); vm_compute; exact I.
Qed.

Section Request.
Context {HE : Env} {HO : Host} {HP : PoolHost} {HW : WorkerHost} (self : WorkerManager.t).

(** What a contributor adds: volumes, and of the variables at most [keys]. *)
Record extends (keys : list string) (b b' : RunOptsBuilder) : Prop := Extends {
  extends_fields : RunOptsBuilder.image b' = RunOptsBuilder.image b ∧ RunOptsBuilder.name b' = RunOptsBuilder.name b
    ∧ RunOptsBuilder.network b' = RunOptsBuilder.network b;
  extends_volumes : ∃ v, RunOptsBuilder.volumes b' = RunOptsBuilder.volumes b ++ v;
  extends_env : ∃ e, RunOptsBuilder.env_vars b' = RunOptsBuilder.env_vars b ++ e ∧ e.*1 `sublist_of` keys
}.
Lemma extends_refl keys b : extends keys b b.
Proof. split; [done|exists []; by rewrite app_nil_r|exists []; rewrite app_nil_r; split; [done|apply sublist_nil_l]]. Qed.
Lemma extends_trans k1 k2 b1 b2 b3 : extends k1 b1 b2 → extends k2 b2 b3 → extends (k1 ++ k2) b1 b3.
Proof.
  intros [(? & ? & ?) [v1 Hv1] (e1 & He1 & Hk1)] [(? & ? & ?) [v2 Hv2] (e2 & He2 & Hk2)]. split.
  - split_and!; congruence.
  - exists (v1 ++ v2). by rewrite Hv2, Hv1, app_assoc.
  - exists (e1 ++ e2). rewrite He2, He1, app_assoc, fmap_app. split; [done|by apply sublist_app].
Qed.
Lemma extends_volume h c b : extends [] b (RunOptsBuilder.push_volume h c b).
Proof. split; [done|by eexists|exists []; rewrite app_nil_r; by split]. Qed.
Lemma extends_push k v b : extends [k] b (RunOptsBuilder.push_env k v b).
Proof. split; [done|exists []; by rewrite app_nil_r|by eexists]. Qed.
Lemma extends_volumes_of {A} (f : RunOptsBuilder → A → RunOptsBuilder) l b :
  (∀ b x, extends [] b (f b x)) → extends [] b (foldl f b l).
Proof.
  intros Hf. revert b. induction l as [|x l IH]; intros b; simpl; [apply extends_refl|].
  exact (extends_trans [] [] _ _ _ (Hf b x) (IH _)).
Qed.
Lemma extends_weaken k b b' : extends [] b b' → extends k b b'.
Proof.
  intros [? ? (e & He & Hk)]. split; [done|done|]. exists e. split; [done|].
  apply sublist_nil_r in Hk. rewrite Hk. apply sublist_nil_l.
Qed.

(** *** The contributors *)

(** The result of a computation, when there is one. *)
Definition yields {A} (m : SE host string A) (P : A → Prop) : Prop := ∀ h a h', m h = (Ok a, h') → P a.
Lemma yields_bind {A B} (m : SE host string A) (k : A → SE host string B) (P : A → Prop) Q :
  yields m P → (∀ a, P a → yields (k a) Q) → yields (m ≫= k) Q.
Proof.
  intros Hm Hk h b h'. rewrite run_bind. destruct (m h) as [[a|e] h1] eqn:E; [|done]. intros Hb. by eapply Hk; [eapply Hm|].
Qed.
Lemma yields_ret {A} (a : A) (P : A → Prop) : P a → yields (mret a) P.
Proof. intros Ha h b h' [= <- _]. done. Qed.
Lemma yields_throw {A} e (P : A → Prop) : yields (throw e) P.
Proof. intros h b h'. by rewrite run_throw. Qed.
Lemma yields_any {A} (m : SE host string A) : yields m (λ _, True).
Proof. done. Qed.
Lemma yields_of_result {A} r (P : A → Prop) : (∀ a, r = Ok a → P a) → yields (of_result r) P.
Proof. intros Hr h a h'. rewrite run_of_result. intros [= Ha _]. by apply Hr. Qed.
Lemma yields_gets {A} (f : host → A) (P : A → Prop) : (∀ h, P (f h)) → yields (gets f) P.
Proof. intros Hf h a h'. rewrite run_gets. intros [= <- _]. apply Hf. Qed.

Lemma add_workspace_extends d b : extends [] b (RunOptsBuilder.add_workspace d b).
Proof. destruct d; [apply extends_volume|apply extends_refl]. Qed.
Lemma add_logs_dir_extends d1 d2 i b : yields (add_logs_dir d1 d2 i b) (extends ["UR_LOGS_DIR"] b).
Proof.
  unfold add_logs_dir. eapply yields_bind; [apply yields_any|]. intros r _.
  eapply yields_bind; [apply yields_any|]. intros _ _. apply yields_ret.
  exact (extends_trans [] _ _ _ _ (extends_volume _ _ b) (extends_push _ _ _)).
Qed.
Lemma add_credentials_extends d1 d2 agent b : yields (add_credentials d1 d2 agent b) (extends [] b).
Proof.
  unfold add_credentials. destruct (AgentType.auth agent) as [auth|]; [|apply yields_ret, extends_refl].
  destruct (AgentType.file_name _); [|apply yields_throw].
  eapply yields_bind; [apply yields_any|]. intros _ _. eapply yields_bind; [apply yields_any|]. intros _ _.
  apply yields_ret, extends_volume.
Qed.
Lemma overlay_extends key d1 d2 h mounts b :
  extends [] b (RunOptsBuilder.add_extra_skills mounts (add_host_hooks_overlay key d1 d2 h b)).
Proof.
  unfold RunOptsBuilder.add_extra_skills, add_host_hooks_overlay.
  refine (extends_trans [] [] _ _ _ _ (extends_volumes_of _ _ _ (λ b m, extends_volume _ _ b))).
  case_bool_decide; [apply extends_refl|]. apply extends_volumes_of. intros b' k.
  case_match; [apply extends_volume|apply extends_refl].
Qed.
Lemma add_project_instruction_extends o d agent b b' : add_project_instruction o d agent b = Ok b' →
  extends [UR_PROJECT_INSTRUCTION_ENV] b b'.
Proof.
  unfold add_project_instruction. destruct o as [template|]; [|intros [= <-]; apply extends_refl].
  destruct (resolve_template_path template d) as [[rel|p]|]; [| |done]; intros [= <-]; [apply extends_push|].
  exact (extends_trans [] _ _ _ _ (extends_volume _ _ b) (extends_push _ _ _)).
Qed.
Lemma add_memory_dir_extends o d agent b : yields (add_memory_dir o d agent b) (extends [] b).
Proof.
  unfold add_memory_dir. destruct o; [|apply yields_ret, extends_refl].
  case_match; [|apply yields_ret, extends_refl].
  eapply yields_bind; [apply yields_any|]. intros p _. eapply yields_bind; [apply yields_any|]. intros _ _.
  apply yields_ret, extends_volume.
Qed.
Lemma add_brain_dir_extends o d b : yields (add_brain_dir o d b) (extends [UR_BRAIN_ENV] b).
Proof.
  unfold add_brain_dir. destruct o; [|apply yields_ret, extends_refl].
  eapply yields_bind; [apply yields_any|]. intros p _. eapply yields_bind; [apply yields_any|]. intros _ _.
  apply yields_ret. exact (extends_trans [] _ _ _ _ (extends_volume _ _ b) (extends_push _ _ _)).
Qed.
Lemma add_mounts_extends mounts d b b' : add_mounts mounts d b = Ok b' → extends [] b b'.
Proof.
  revert b. induction mounts as [|m mounts IH]; intros b; simpl; [intros [= <-]; apply extends_refl|].
  destruct (add_mount d b m) as [b1|] eqn:E; [|done]. intros Hb.
  refine (extends_trans [] [] _ _ _ _ (IH _ Hb)). revert E. unfold add_mount.
  destruct (resolve_template_path (MountConfig.source m) d) as [[rel|p]|]; [done| |done]. intros [= <-]. apply extends_volume.
Qed.
Lemma add_scripts_extends scripts shim ws h b b' : add_project_hostexec_scripts scripts shim ws h b = Ok b' →
  extends [] b b' ∧ ∀ s, s ∈ scripts → (shim, "/workspace/" +:+ s +:+ ":ro") ∈ RunOptsBuilder.volumes b'.
Proof.
  revert b. induction scripts as [|s scripts IH]; intros b; simpl.
  { intros [= <-]. split; [apply extends_refl|]. by intros s ?%elem_of_nil. }
  destruct (check_script_exists s ws h); [|done]. intros Hb. destruct (IH _ Hb) as [He Hs].
  split; [exact (extends_trans [] [] _ _ _ (extends_volume _ _ b) He)|].
  intros s' [->|Hin]%elem_of_cons; [|by apply Hs]. destruct (extends_volumes _ _ _ He) as [v ->]. simpl. set_solver.
Qed.

(** The three variables that the contributors may set. *)
Definition CONTRIBUTED : list string := ["UR_LOGS_DIR"; UR_PROJECT_INSTRUCTION_ENV; UR_BRAIN_ENV].

(** The request that starts a worker's container.  Whatever the file system holds:
    it is for the configured image, name and network; each variable of its environment
    is set once, with the worker's own identifier and secret; the workspace is mounted;
    and every declared script is covered by the read-only shim. *)
Theorem launch_request_spec config secret name :
  yields (build_launch_request self config secret name) (λ r,
    LaunchWorkerRequest.image r = WorkerConfig.image_id config ∧ LaunchWorkerRequest.name r = name
    ∧ LaunchWorkerRequest.network r = WorkerManager.network_name self
    ∧ NoDup (LaunchWorkerRequest.env_vars r).*1
    ∧ (∀ kv, kv ∈ build_worker_env_vars config secret (WorkerManager.network_config self)
                    (WorkerManager.worker_port self) → kv ∈ LaunchWorkerRequest.env_vars r)
    ∧ (∀ d, WorkerConfig.workspace_dir config = Some d → (d, "/workspace") ∈ LaunchWorkerRequest.volumes r)
    ∧ (∀ s, s ∈ WorkerConfig.hostexec_scripts config →
         (shim_host_path self, "/workspace/" +:+ s +:+ ":ro") ∈ LaunchWorkerRequest.volumes r)).
Proof.
  unfold build_launch_request. cbv zeta. set (b0 := RunOptsBuilder.add_workspace _ _).
  eapply yields_bind; [apply yields_any|]. intros instruction _.
  eapply yields_bind; [apply yields_any|]. intros memory _. eapply yields_bind; [apply yields_any|]. intros brain _.
  eapply yields_bind; [apply add_logs_dir_extends|]. intros b1 H1.
  eapply yields_bind; [apply add_credentials_extends|]. intros b2 H2.
  eapply (yields_bind _ _ (extends [] b2)); [apply yields_gets; intros h; apply overlay_extends|]. intros b3 H3.
  eapply yields_bind; [apply yields_of_result; intros b; apply add_project_instruction_extends|]. intros b4 H4.
  eapply yields_bind; [apply add_memory_dir_extends|]. intros b5 H5.
  eapply yields_bind; [apply add_brain_dir_extends|]. intros b6 H6.
  eapply yields_bind; [apply yields_of_result; intros b; apply add_mounts_extends|]. intros b7 H7.
  eapply yields_bind; [apply yields_of_result; intros b; apply add_mounts_extends|]. intros b8 H8.
  eapply yields_bind; [apply yields_any|]. intros h _.
  eapply yields_bind; [apply yields_of_result; intros b; apply add_scripts_extends|]. intros b9 [H9 Hscripts].
  apply yields_ret.
  assert (extends CONTRIBUTED b0 b9) as [(Hi & Hn & Hw) [v Hv] (e & He & Hk)].
  { exact (extends_trans ["UR_LOGS_DIR"] _ _ _ _ H1 (extends_trans [] _ _ _ _ H2 (extends_trans [] _ _ _ _ H3
      (extends_trans [UR_PROJECT_INSTRUCTION_ENV] _ _ _ _ H4 (extends_trans [] _ _ _ _ H5
      (extends_trans [UR_BRAIN_ENV] [] _ _ _ H6 (extends_trans [] [] _ _ _ H7 (extends_trans [] [] _ _ _ H8 H9)))))))). }
  destruct (add_env_vars_spec (build_worker_env_vars config secret (WorkerManager.network_config self)
    (WorkerManager.worker_port self)) (RunOptsBuilder.add_ports (WorkerConfig.ports config) b9)) as [Hnd Hin].
  { change (RunOptsBuilder.env_vars (RunOptsBuilder.add_ports _ b9)) with (RunOptsBuilder.env_vars b9).
    rewrite He. unfold b0, RunOptsBuilder.add_workspace. assert (NoDup CONTRIBUTED) as Hc
      by (apply (bool_decide_unpack _); vm_compute; exact I).
    destruct (WorkerConfig.workspace_dir config); simpl; by apply (sublist_NoDup _ _ Hc). }
  { apply worker_env_NoDup. }
  assert (∀ d, WorkerConfig.workspace_dir config = Some d → (d, "/workspace") ∈ RunOptsBuilder.volumes b9) as Hws.
  { intros d Hd. rewrite Hv. unfold b0. rewrite Hd. simpl. by left. }
  unfold RunOptsBuilder.build. simpl in *. unfold b0, RunOptsBuilder.add_workspace in *.
  destruct (WorkerConfig.workspace_dir config); simpl in *; by split_and!.
Qed.
End Request.

(** ** Identifiers *)

Lemma base36_plain n `{EnvLaws} : is_ascii_lowercase (base36_at n) || is_ascii_digit (base36_at n) = true
  ∧ base36_at n ≠ "-"%char.
Proof.
  unfold base36_at. pose proof (gen_range36_lt n) as Hlt. revert Hlt. generalize (gen_range36 n). intros k Hk.
  do 36 (destruct k as [|k]; [vm_compute; by split|]). lia.
Qed.
Lemma base36_suffix len n `{EnvLaws} :
  all_chars (λ c, is_ascii_lowercase c || is_ascii_digit c) (base36_string len n) = true
  ∧ lacks "-"%char (base36_string len n).
Proof.
  revert n. induction len as [|len IH]; intros n; simpl; [split; [done|apply lacks_empty]|].
  destruct (base36_plain n) as [H1 H2], (IH (S n)) as [H3 H4]. rewrite H1, H3. split; [done|].
  apply lacks_cons. by split.
Qed.
(** A generated identifier is one the server accepts, unless the process has no name. *)
Lemma generated_id_parses process_id (p : pool wtables) id p' `{EnvLaws} :
  (WorkerId.generate process_id p : result string string * _) = (Ok id, p') →
  WorkerId.parse id = Ok id ↔ process_id ≠ "".
Proof.
  destruct p as [t fs n]. unfold WorkerId.generate. rewrite run_bind, run_generate_base36, run_ret.
  destruct (base36_suffix 4 n) as [H1 H2]. pose proof (length_base36_string 4 n) as Hlen.
  revert H1 H2 Hlen. generalize (base36_string 4 n). intros suffix H1 H2 Hlen [= <- _].
  change (process_id +:+ "-" +:+ suffix) with (process_id +:+ String "-"%char suffix).
  unfold WorkerId.parse. rewrite rfind_char_app by done. cbv zeta.
  rewrite str_drop_cut, H1, Hlen, (bool_decide_true (4 = 4)) by done. cbn [andb check_that].
  destruct process_id as [|c s]; [by split|]. by split.
Qed.

(** ** The manager behind the interface of the handlers

    The services of the handlers and of the poller, with the issue tickets of the
    ticket client and the stop of the worker manager, keep their promises. *)
#[export] Instance server_services_lawful {HE : Env} {HG : PetGraph} {HO : Host} {HP : PoolHost} {HW : WorkerHost}
    {HH : HashOrder} (handler : TicketServiceHandler.t) :
  @LawfulServices HO (ticket_services handler WorkerManager.stop_by_worker_id).
Proof. apply ticket_services_lawful, stop_leaves_workflows. Qed.

(** ** Witnesses *)

(** A container service in which every container starts, and is gone when asked. *)
Definition test_workers : @WorkerHost test_host := {|
  env_var _ := None;
  create_dir_all _ h := (Ok tt, h);
  create_new_file _ h := (Ok tt, h);
  chown_worker _ h := (Ok tt, h);
  git_init _ h := (Ok (true, ""), h);
  launch_worker_rpc _ h := (Ok "c1", h);
  stop_worker_rpc _ h := (Err (Status.mk Status.NotFound "gone" None), h);
  inspect_worker_rpc _ h := (Ok "", h);
  inspect_network_rpc _ h := (Ok true, h)
|}.
Definition test_manager : WorkerManager.t :=
  WorkerManager.mk "/ws" "/cfg" "/cfg" "/logs" "/logs" "ur-workers"
    (NetworkConfig.mk "ur" "ur-workers" "ur-server" "ur-worker-") 12322.
Definition test_launch : WorkerConfig :=
  WorkerConfig.mk "ur-1" "ur-1-abcd" "ur-worker:latest" 2 "8G" (Some "/pool/ur/0") "ur-squid" "ur" "claude"
    WorkerStrategy.Code ["implement"] "opus" "high" None [] [] (Some "s0") [] ["bin/check"] [] None None None
    (Some ForgeType.GitHub) WorkerRuntime.Container.
Definition free_slot : wtables :=
  WorkflowTables.set_slot {[ "s0" := Slot.mk "s0" "ur" "0" "/pool/ur/0" "" "" ]} WorkflowTables.empty.
Definition launch_ctx (s : wtables) : ctx world :=
  Ctx (Pool TicketTables.empty [] 0) (Pool s [] 0) (World [] [] [] [] [] []) [] true.
Lemma free_slot_wwf : wwf free_slot.
Proof.
  split.
  - split_and!; [done|done|by apply map_Forall_singleton|done].
  - done.
  - done.
  - intros i j a b. simpl. rewrite !lookup_singleton_Some. naive_solver.
  - done.
Qed.
Abbreviation test_run_and_record := (@run_and_record test_env test_host test_workers test_manager).

Lemma launch_all_or_nothing_witness :
  ∃ secret y, test_run_and_record test_launch (launch_ctx free_slot) = (Ok ("c1", secret), y)
    ∧ launched test_launch "c1" secret free_slot (tables (workflow_db y)).
Proof.
  pose proof (@launch_all_or_nothing test_env test_host test_workers test_manager test_launch
    (launch_ctx free_slot) eq_refl free_slot_wwf) as Hl. revert Hl.
  destruct (test_run_and_record test_launch (launch_ctx free_slot)) as [[[cid secret]|e] y] eqn:E.
  - intros (_ & Hl & _). assert (cid = "c1") as -> by (vm_compute in E; by injection E as <- _ _).
    exists secret, y. by split.
  - exfalso. vm_compute in E. discriminate E.
Defined.
Lemma stop_by_worker_id_spec_witness :
  let '(r, y) := @stop_by_worker_id test_env test_host test_pool test_workers "w1" (launch_ctx stopped_tables) in
  r = Ok tt ∧ ∃ row now, tables (workflow_db y) = stopped "w1" now row stopped_tables.
Proof.
  pose proof (@stop_by_worker_id_spec test_env test_host test_pool test_workers "w1" (launch_ctx stopped_tables)
    eq_refl stopped_wwf) as Hs. revert Hs.
  destruct (@stop_by_worker_id test_env test_host test_pool test_workers "w1" (launch_ctx stopped_tables)) as [[[]|e] y] eqn:E.
  - intros (_ & _ & row & now & _ & Ht). split; [reflexivity|]. by exists row, now.
  - exfalso. vm_compute in E. discriminate E.
Defined.
Lemma launch_request_spec_witness :
  match (@build_launch_request test_host test_workers test_manager test_launch "s" "n" (World [] [] [] [] [] [])).1 with
  | Ok r => NoDup (LaunchWorkerRequest.env_vars r).*1
      ∧ ("/cfg/hostexec/script-shim.sh", "/workspace/bin/check:ro") ∈ LaunchWorkerRequest.volumes r
  | Err _ => False
  end.
Proof.
  destruct (@build_launch_request test_host test_workers test_manager test_launch "s" "n" (World [] [] [] [] [] []))
    as [[r|e] h] eqn:E; [|vm_compute in E; discriminate E].
  destruct (@launch_request_spec test_host test_workers test_manager test_launch "s" "n" _ _ _ E)
    as (_ & _ & _ & H1 & _ & _ & H2).
  split; [exact H1|]. apply (H2 "bin/check"). by left.
Defined.
