(* ===== verification/LaunchService.v ===== *)
(** * The worker service

    [server/src/grpc.rs], [launch_runtime.rs] and [auth.rs]: launching and stopping
    workers on request, the signals their agents send, and the check of a worker's
    identity.

    The server's state is the pool's, with the databases, the projects the registry
    holds, and the background tasks spawned and not yet run; [run_task] runs one.
    A task that waits for a worker polls the database; what the rest of the server
    does between two polls is an argument. *)

From S2P Require Import Prelude RustStd Model Env Agent UrConfig TicketDb TicketRepo WorkflowDb WorkflowRepo WorkerRepo.
From S2P Require Import TicketGraph Context Host Pool HandlerLib WorkerModes RunOpts WorkerManager.
From Stdlib Require Import Ascii.
Local Open Scope stdpp_scope.

(** ** Errors *)

Definition DOMAIN_CORE : string := "ur.core".

Module CoreError.
Inductive t : Type :=
| InvalidMode (reason : string)
| InvalidAgent (reason : string)
| InvalidImage (reason : string)
| InvalidRuntime (reason : string)
| LocalRuntimeUnsupported (reason : string)
| LocalRuntimeLaunchUnavailable
| PoolSlotFailed (reason : string)
| InvalidContextRepo (reason : string)
| LocalProjectUnsupportedLaunch (project_key reason : string)
| MissingCredentials (agent remediation : string)
| PrepareFailed (reason : string)
| RunFailed (reason : string)
| StopFailed (reason : string)
| WorkspaceNotFound (process_id : string)
| WorkerNotFound (worker_id : string)
| SendMessageFailed (reason : string)
| Unimplemented.

Definition to_string (e : t) : string :=
  match e with
  | InvalidMode reason => "invalid mode: " +:+ reason
  | InvalidAgent reason => "invalid agent: " +:+ reason
  | InvalidImage reason => "invalid image: " +:+ reason
  | InvalidRuntime reason => "invalid runtime: " +:+ reason
  | LocalRuntimeUnsupported reason => "local runtime unsupported: " +:+ reason
  | LocalRuntimeLaunchUnavailable =>
      "local runtime launch is not available yet — use runtime = " +:+ QUOTE +:+ "container" +:+ QUOTE
  | PoolSlotFailed reason => "pool slot acquisition failed: " +:+ reason
  | InvalidContextRepo reason => "invalid context repo: " +:+ reason
  | LocalProjectUnsupportedLaunch project_key reason =>
      "project '" +:+ project_key +:+ "' is local (local = true, no repo) — " +:+ reason
      +:+ ". Local projects support only manual mode with a workspace mount: "
      +:+ "ur worker launch -m manual -w <dir> -p " +:+ project_key
  | MissingCredentials _ remediation => remediation
  | PrepareFailed reason => "prepare failed: " +:+ reason
  | RunFailed reason => "run failed: " +:+ reason
  | StopFailed reason => "stop failed: " +:+ reason
  | WorkspaceNotFound process_id => "workspace not found for process: " +:+ process_id
  | WorkerNotFound worker_id => "worker not found: " +:+ worker_id
  | SendMessageFailed reason => "send message failed: " +:+ reason
  | Unimplemented => "operation not implemented on worker server"
  end.

Definition simple_status (c : Status.code) (e : t) (err_type : string) : Status.t :=
  Status.status_with_info c (to_string e) DOMAIN_CORE err_type ∅.
Definition status_with_meta (c : Status.code) (e : t) (err_type key value : string) : Status.t :=
  Status.status_with_info c (to_string e) DOMAIN_CORE err_type {[ key := value ]}.

(** [From<CoreError> for Status] *)
Definition to_status (e : t) : Status.t :=
  match e with
  | InvalidMode _ | InvalidAgent _ | InvalidImage _ | InvalidRuntime _ | InvalidContextRepo _ =>
      simple_status Status.InvalidArgument e "INVALID_ARGUMENT"
  | LocalRuntimeUnsupported _ | LocalRuntimeLaunchUnavailable =>
      simple_status Status.FailedPrecondition e "INVALID_ARGUMENT"
  | LocalProjectUnsupportedLaunch project_key _ =>
      status_with_meta Status.FailedPrecondition e "INVALID_ARGUMENT" "project_key" project_key
  | MissingCredentials agent _ =>
      status_with_meta Status.FailedPrecondition e "INVALID_ARGUMENT" "agent" agent
  | PoolSlotFailed _ | PrepareFailed _ | RunFailed _ | StopFailed _ | SendMessageFailed _ =>
      simple_status Status.Internal e "INTERNAL"
  | WorkerNotFound worker_id => status_with_meta Status.NotFound e "NOT_FOUND" "worker_id" worker_id
  | WorkspaceNotFound process_id => status_with_meta Status.NotFound e "NOT_FOUND" "process_id" process_id
  | Unimplemented => Status.unimplemented (to_string e)
  end.
End CoreError.

(** A header of a request: missing, or with a value that may not be text. *)
Abbreviation header := (option (result string unit)).

(** A call is refused with a status, or its task panics. *)
Inductive rpc_error : Type :=
| Refused (status : Status.t)
| Panicked.

(** ** Requests *)

Module WorkerLaunchRequest.
Record t : Type := mk {
  worker_id : string;
  image_id : string;
  cpus : Z;
  memory : string;
  workspace_dir : string;
  mode : string;
  skills : list string;
  project_key : string;
  context_repos : list string;
  dispatch : bool;
  agent_type : string;
  runtime : string
}.
End WorkerLaunchRequest.
Abbreviation WorkerLaunchRequest := WorkerLaunchRequest.t.

Module ResolvedLaunch.
Record t : Type := mk {
  workspace_dir : option string;
  project_key : string;
  slot_claim : option string;
  worker_id : string;
  resolved_skills : list string;
  strategy : WorkerStrategy;
  model : string;
  effort : string;
  agent : AgentType;
  runtime : WorkerRuntime;
  generated_process_id : option string
}.
End ResolvedLaunch.

(** ** Decisions before a launch *)

Definition parse_requested_agent (agent_type : string) : result (option AgentType) CoreError.t :=
  if bool_decide (agent_type = "") then Ok None
  else match AgentType.parse agent_type with
       | Ok a => Ok (Some a)
       | Err e => Err (CoreError.InvalidAgent e)
       end.

(** [None] is the panic of [fallback_image]. *)
Definition resolve_worker_image (agent : AgentType) (requested_image_id project_image image_tag : string)
    : option (result string CoreError.t) :=
  let raw := if negb (bool_decide (requested_image_id = "")) then Some requested_image_id
             else if negb (bool_decide (project_image = "")) then Some project_image
             else None in
  match raw with
  | Some raw => Some match AgentType.resolve_image agent raw image_tag with
                     | Ok i => Ok i
                     | Err e => Err (CoreError.InvalidImage e)
                     end
  | None => Ok <$> AgentType.fallback_image agent image_tag
  end.

(** [std::fs::metadata]: the length of a file. *)
Class LaunchHost {HO : Host} : Type := { file_len : string → host → option Z }.

Definition check_credentials_seeded `{LaunchHost} (agent : AgentType) (config_dir : string) (h : host)
    : result unit CoreError.t :=
  if match AgentType.auth agent with Some a => AgentAuth.allows_in_container_bootstrap a | None => false end
  then Ok tt
  else match AgentType.host_credentials_path agent config_dir with
       | None => Ok tt
       | Some path =>
           if credentials_file_is_seeded (file_len path h) then Ok tt
           else Err (CoreError.MissingCredentials (AgentType.name agent) (AgentType.credentials_remediation agent))
       end.

Definition local_launch_rejection_reason (strategy : WorkerStrategy) (mode workspace_dir : string)
    : option string :=
  if negb (bool_decide (strategy = WorkerStrategy.Manual))
  then Some ("mode '" +:+ mode +:+ "' needs a repo pool and a ticket branch")
  else if bool_decide (workspace_dir = "")
  then Some "a workspace mount is required, as there is no repo pool to fall back on"
  else None.

Definition is_local (projects : gmap string ProjectConfig.t) (key : string) : bool :=
  match projects !! key with Some p => ProjectConfig.is_local p | None => false end.

(** The key of the request, or the first part of the worker's identifier when it
    names a project. *)
Definition effective_project_key (req : WorkerLaunchRequest) (projects : gmap string ProjectConfig.t) : string :=
  if negb (bool_decide (WorkerLaunchRequest.project_key req = "")) then WorkerLaunchRequest.project_key req
  else match head (split "-" (WorkerLaunchRequest.worker_id req)) with
       | None => ""
       | Some prefix =>
           if negb (bool_decide (prefix = "")) && bool_decide (is_Some (projects !! prefix)) then prefix else ""
       end.

(** *** [launch_runtime.rs] *)

Definition parse_requested_runtime (raw : string) : result (option WorkerRuntime) CoreError.t :=
  if bool_decide (raw = "") then Ok None
  else match WorkerRuntime.from_str raw with
       | Ok r => Ok (Some r)
       | Err reason => Err (CoreError.InvalidRuntime reason)
       end.
Definition local_runtime_rejection_reason (agent : AgentType) (project_is_local has_pool_slot : bool)
    : option string :=
  if negb (AgentType.supports_local_runtime agent)
  then Some ("agent '" +:+ AgentType.name agent +:+ "' does not support the local runtime (claude only)")
  else if project_is_local
  then Some "local projects (local = true) cannot use the local runtime; they have no pool"
  else if negb has_pool_slot
  then Some "the local runtime requires a pool slot (-p <project> without -w)"
  else None.
Definition reject_local_runtime_launch_until_available : result unit CoreError.t :=
  Err CoreError.LocalRuntimeLaunchUnavailable.
Definition validate_launch_runtime (runtime : WorkerRuntime) (agent : AgentType)
    (project_is_local has_pool_slot : bool) : result unit CoreError.t :=
  match runtime with
  | WorkerRuntime.Container => Ok tt
  | WorkerRuntime.Local =>
      match local_runtime_rejection_reason agent project_is_local has_pool_slot with
      | Some reason => Err (CoreError.LocalRuntimeUnsupported reason)
      | None => reject_local_runtime_launch_until_available
      end
  end.

(** [Path::file_name]: the last component, when it is a name. *)
Definition path_file_name (p : string) : option string :=
  match last (path_components p) with
  | Some c => if bool_decide (c = ".." ∨ c = ".") then None else Some c
  | None => None
  end.
Definition generate_manual_process_id (project_key : string) (workspace_dir : option string) : string :=
  let name := workspace_dir ≫= path_file_name in
  if bool_decide (project_key = "") then default "workspace" name +:+ "-man-0"
  else project_key +:+ "-man-" +:+ default "0" name.

(** ** The server *)

(** A task in the background. *)
Inductive task : Type :=
| StepComplete (worker_id : string)
| DispatchReadiness (worker_id : string)
| RequestHuman (worker_id message : string)
| DesignDispatch (process_id worker_id : string)
| LabelPush (worker_id : string).

Record core (H : Type) : Type := Core {
  slots : pool_state H;
  (** The registry's projects. *)
  registered : gmap string ProjectConfig.t;
  tasks : list task
}.
Arguments Core {H}.
Arguments slots {H}.
Arguments registered {H}.
Arguments tasks {H}.
Definition core_ctx {H} (s : core H) : ctx H := pool_ctx (slots s).

#[export] Program Instance slots_lens {H} : Lens (core H) (pool_state H) := {
  view := slots;
  put p s := Core p (registered s) (tasks s)
}.
Solve All Obligations with by intros; try destruct s.

(** [LaunchManager]: its configuration, with the worker manager's modes and skills
    and what the clients of the workers' daemons need. *)
Module LaunchManager.
Record t : Type := mk {
  worker_manager : WorkerManager.t;
  worker_modes : WorkerModesConfig.t;
  global_skills : GlobalSkillsConfig.t;
  git_branch_prefix : string;
  proxy_hostname : string;
  workspace_brain_dir : option string;
  config_dir : string;
  worker_image_tag : string;
  resolver : Config.t
}.
End LaunchManager.

Module ProjectLaunchFields.
Record t : Type := mk {
  instruction_md : option string;
  mounts : list MountConfig.t;
  ports : list PortMapping.t;
  resolved_image : string;
  hostexec_scripts : list string;
  memory_dir : option string;
  brain_dir : option string;
  project_skills : list string;
  forge : option ForgeType
}.
Definition default : t := mk None [] [] "" [] None None [] None.
End ProjectLaunchFields.

(** [WorkerSummary] of the protocol: what the worker manager knows, with its
    ticket's and its workflow's state. *)
Module WorkerEntry.
Record t : Type := mk {
  worker : WorkerSummary.t;
  lifecycle_status : string;
  pr_url : string;
  workflow_id : string;
  workflow_status : string;
  workflow_stalled : bool;
  workflow_stall_reason : string
}.
End WorkerEntry.

(** [try_join_all]: the calls complete in some order, and the first failure ends
    the others. *)
Class JoinOrder : Type := {
  join_order : nat → list nat;
  join_order_perm n : join_order n ≡ₚ seq 0 n
}.
Fixpoint join_in {S E A B} (order : list nat) (f : A → SE S E B) (l : list A) : SE S E (list (nat * B)) :=
  match order with
  | [] => mret []
  | i :: order =>
      match l !! i with
      | Some a => b ← f a; rest ← join_in order f l; mret ((i, b) :: rest)
      | None => join_in order f l
      end
  end.
Definition try_join_all `{JoinOrder} {S E A B} (f : A → SE S E B) (l : list A) : SE S E (list B) :=
  done ← join_in (join_order (length l)) f l;
  mret (omap (λ i, (list_to_map done : gmap nat B) !! i) (seq 0 (length l))).

Section Service.
Context {HE : Env} {HO : Host} {HP : PoolHost} {HW : WorkerHost} {HL : LaunchHost} {HJ : JoinOrder}.
Context (self : LaunchManager.t).
Abbreviation run A := (SE (core host) rpc_error A).

(** A part's operation; a core error becomes a status at the question mark. *)
Definition in_ctx {E A} (m : SE (ctx host) E A) : SE (core host) E A :=
  zoom (T := pool_state host) (zoom (T := ctx host) m).
Definition core_error (e : CoreError.t) : rpc_error := Refused (CoreError.to_status e).
Definition refuse {A} (e : CoreError.t) : run A := throw (core_error e).
Definition or_refuse {A} (r : result A CoreError.t) : run A := map_err core_error (of_result r).
Definition calling {A} (f : string → CoreError.t) (m : SE (ctx host) string A) : run A :=
  map_err (λ e, core_error (f e)) (in_ctx m).
Definition spawn (t : task) : run unit := modify (λ s, Core (slots s) (registered s) (tasks s ++ [t])).

(** ** Launching *)

(** Every key is checked before any slot is acquired. *)
Fixpoint check_context_repos (projects : gmap string ProjectConfig.t) (keys : list string)
    : result unit CoreError.t :=
  match keys with
  | [] => Ok tt
  | key :: keys =>
      let? _ := check_that (bool_decide (is_Some (projects !! key)))
                  (CoreError.InvalidContextRepo ("unknown project key: " +:+ key)) in
      let? _ := check_that (negb (is_local projects key))
                  (CoreError.InvalidContextRepo ("project '" +:+ key +:+ "' is local (local = true, no repo) — context repos "
                     +:+ "are mounted from a shared pool clone, which requires a git remote")) in
      check_context_repos projects keys
  end.
Definition acquire_shared_context_slot (key : string) : run (string * string) :=
  projects ← gets registered;
  path ← calling (λ e, CoreError.InvalidContextRepo ("failed to acquire shared slot for " +:+ key +:+ ": " +:+ e))
           (acquire_shared_slot projects key);
  mret (key, path).
Definition acquire_context_repos (context_repos : list string) : run (list (string * string)) :=
  projects ← gets registered;
  or_refuse (check_context_repos projects context_repos) ;;
  try_join_all acquire_shared_context_slot context_repos.

Definition bind_workflow_worker (process_id worker_id : string) (strategy : WorkerStrategy) : run unit :=
  if bool_decide (strategy = WorkerStrategy.Manual) then mret tt
  else calling CoreError.RunFailed
         (db_call "failed to set workflow worker_id" (set_workflow_worker_id process_id worker_id)).

Definition persist_pool_branch (ticket_id branch : string) : run unit :=
  ticket ← calling CoreError.RunFailed
    (map_err (λ e, "failed to look up ticket: " +:+ sqlx_display e) (tickets (get_ticket ticket_id)));
  match ticket with
  | None => mret tt
  | Some _ =>
      calling CoreError.RunFailed
        (map_err (λ e, "failed to set branch on ticket: " +:+ sqlx_display e)
           (tickets (update_ticket ticket_id
              (TicketUpdate.mk None None None None None None None (Some (Some branch)) None None)))) ;;
      mret tt
  end.
Definition post_launch_setup (process_id worker_id : string) (has_pool_slot : bool) (strategy : WorkerStrategy)
    (dispatch : bool) : run unit :=
  when (negb (bool_decide (strategy = WorkerStrategy.Manual)))
    (when has_pool_slot (persist_pool_branch process_id worker_id) ;;
     when (bool_decide (strategy = WorkerStrategy.Design) && dispatch) (spawn (DesignDispatch process_id worker_id))) ;;
  spawn (LabelPush worker_id).

Definition reject_unsupported_local_launch (projects : gmap string ProjectConfig.t) (project_key : string)
    (req : WorkerLaunchRequest) (strategy : WorkerStrategy) : result unit CoreError.t :=
  if bool_decide (project_key = "") || negb (is_local projects project_key) then Ok tt
  else match local_launch_rejection_reason strategy (WorkerLaunchRequest.mode req)
               (WorkerLaunchRequest.workspace_dir req) with
       | Some reason => Err (CoreError.LocalProjectUnsupportedLaunch project_key reason)
       | None => Ok tt
       end.
Definition resolve_launch_runtime (projects : gmap string ProjectConfig.t) (req : WorkerLaunchRequest)
    (project_key : string) (agent : AgentType) : result WorkerRuntime CoreError.t :=
  let? requested := parse_requested_runtime (WorkerLaunchRequest.runtime req) in
  let runtime := WorkerModesConfig.resolve_runtime (LaunchManager.worker_modes self) (WorkerLaunchRequest.mode req)
                   requested (projects !! project_key ≫= ProjectConfig.runtime) in
  let? _ := validate_launch_runtime runtime agent (is_local projects project_key)
              (negb (bool_decide (project_key = "")) && bool_decide (WorkerLaunchRequest.workspace_dir req = "")) in
  Ok runtime.

(** What is decided before any slot is acquired: the mode, the project's key and
    the runtime. *)
Definition resolve_request (projects : gmap string ProjectConfig.t) (req : WorkerLaunchRequest)
    : result (ResolvedMode.t * string * WorkerRuntime) CoreError.t :=
  let? requested_agent := parse_requested_agent (WorkerLaunchRequest.agent_type req) in
  let? mode := match WorkerModesConfig.resolve_mode (LaunchManager.worker_modes self)
                       (WorkerLaunchRequest.mode req) requested_agent with
               | Ok m => Ok m
               | Err e => Err (CoreError.InvalidMode e)
               end in
  let key := effective_project_key req projects in
  let? _ := reject_unsupported_local_launch projects key req (ResolvedMode.strategy mode) in
  let? runtime := resolve_launch_runtime projects req key (ResolvedMode.agent mode) in
  Ok (mode, key, runtime).

(** A launch that owns a claim gives it back when it fails. *)
Definition release_claim (claim : option string) : run unit :=
  match claim with
  | Some slot_id => zoom (T := pool_state host) (drop_claim slot_id)
  | None => mret tt
  end.
Definition guarding {A} (claim : option string) (m : run A) : run A :=
  r ← attempt m;
  match r with
  | Ok a => mret a
  | Err e => release_claim claim ;; throw e
  end.

(** The workspace, the project's key and the claim of the slot. *)
Definition choose_workspace (projects : gmap string ProjectConfig.t) (req : WorkerLaunchRequest) (key : string)
    (strategy : WorkerStrategy) : run (option string * string * option string) :=
  let dir := WorkerLaunchRequest.workspace_dir req in
  match bool_decide (key = ""), bool_decide (dir = "") with
  | false, false => mret (Some dir, key, None)
  | false, true =>
      pc ← map_err (λ e, core_error (CoreError.PoolSlotFailed e))
             (zoom (T := pool_state host) (acquire_by projects strategy key));
      mret (Some pc.1, key, pc.2)
  | true, false => mret (Some dir, "", None)
  | true, true => mret (None, "", None)
  end.

Definition resolve_launch_workspace (req : WorkerLaunchRequest) : run ResolvedLaunch.t :=
  projects ← gets registered;
  x ← or_refuse (resolve_request projects req);
  let '(mode, key, runtime) := x in
  let strategy := ResolvedMode.strategy mode in
  w ← choose_workspace projects req key strategy;
  let '(workspace_dir, project_key, slot_claim) := w in
  let manual := bool_decide (strategy = WorkerStrategy.Manual) in
  let generated := if manual then Some (generate_manual_process_id project_key workspace_dir) else None in
  guarding slot_claim
    (worker_id ← in_ctx (zoom (T := pool wtables)
       (WorkerId.generate (default (WorkerLaunchRequest.worker_id req) generated)));
     match manual, workspace_dir, slot_claim with
     | false, Some slot_path, Some _ =>
         calling CoreError.PoolSlotFailed (checkout_branch (LaunchManager.git_branch_prefix self) slot_path worker_id)
     | _, _, _ => mret tt
     end ;;
     mret (ResolvedLaunch.mk workspace_dir project_key slot_claim worker_id (ResolvedMode.skills mode) strategy
             (ResolvedMode.model mode) (ResolvedMode.effort mode) (ResolvedMode.agent mode) runtime generated)).

Definition extract_project_launch_fields (projects : gmap string ProjectConfig.t) (project_key : string)
    : ProjectLaunchFields.t :=
  match projects !! project_key with
  | Some p =>
      if bool_decide (project_key = "") then ProjectLaunchFields.default
      else ProjectLaunchFields.mk (ProjectConfig.instruction_md p) (ContainerConfig.mounts (ProjectConfig.container p))
             (ContainerConfig.ports (ProjectConfig.container p)) (ContainerConfig.image (ProjectConfig.container p))
             (ProjectConfig.hostexec_scripts p) (ProjectConfig.memory_dir p) (ProjectConfig.brain_dir p)
             (ProjectConfig.skills p) (ProjectConfig.resolve_forge p)
  | None => ProjectLaunchFields.default
  end.

Definition DEFAULT_WORKER_CPUS : Z := 2%Z.
Definition DEFAULT_WORKER_MEMORY : string := "8G".

(** The worker's configuration, from the resolved launch. *)
Definition build_worker_config (projects : gmap string ProjectConfig.t) (req : WorkerLaunchRequest)
    (r : ResolvedLaunch.t) (process_id : string) (workspace_dir : option string)
    (context_mounts : list (string * string)) : option (result WorkerConfig CoreError.t) :=
  let fields := extract_project_launch_fields projects (ResolvedLaunch.project_key r) in
  let mode_skills := match WorkerLaunchRequest.skills req with
                     | [] => ResolvedLaunch.resolved_skills r
                     | l => l
                     end in
  let '(skills, extra_skill_mounts) := merge_skills (LaunchManager.global_skills self) (ResolvedLaunch.strategy r)
    mode_skills (ProjectLaunchFields.project_skills fields) in
  image ← resolve_worker_image (ResolvedLaunch.agent r) (WorkerLaunchRequest.image_id req)
            (ProjectLaunchFields.resolved_image fields) (LaunchManager.worker_image_tag self);
  Some (let? image_id := image in
    Ok (WorkerConfig.mk process_id (ResolvedLaunch.worker_id r) image_id
      (if bool_decide (WorkerLaunchRequest.cpus req = 0%Z) then DEFAULT_WORKER_CPUS else WorkerLaunchRequest.cpus req)
      (if bool_decide (WorkerLaunchRequest.memory req = "") then DEFAULT_WORKER_MEMORY
       else WorkerLaunchRequest.memory req)
      workspace_dir (LaunchManager.proxy_hostname self) (ResolvedLaunch.project_key r)
      (AgentType.name (ResolvedLaunch.agent r)) (ResolvedLaunch.strategy r) skills (ResolvedLaunch.model r)
      (ResolvedLaunch.effort r) (ProjectLaunchFields.instruction_md fields) (ProjectLaunchFields.mounts fields)
      (ProjectLaunchFields.ports fields) (ResolvedLaunch.slot_claim r) context_mounts
      (ProjectLaunchFields.hostexec_scripts fields) extra_skill_mounts (ProjectLaunchFields.memory_dir fields)
      (ProjectLaunchFields.brain_dir fields) (LaunchManager.workspace_brain_dir self)
      (ProjectLaunchFields.forge fields) (ResolvedLaunch.runtime r))).

(** What follows the resolution, with the claim held. *)
Definition launch_resolved (req : WorkerLaunchRequest) (r : ResolvedLaunch.t) : run (string * string) :=
  seeded ← in_ctx (external (gets (check_credentials_seeded (ResolvedLaunch.agent r) (LaunchManager.config_dir self))));
  or_refuse seeded ;;
  let process_id := default (WorkerLaunchRequest.worker_id req) (ResolvedLaunch.generated_process_id r) in
  context_mounts ← acquire_context_repos (WorkerLaunchRequest.context_repos req);
  workspace_dir ← calling CoreError.PrepareFailed
    (prepare (LaunchManager.worker_manager self) process_id (ResolvedLaunch.workspace_dir r));
  projects ← gets registered;
  config ← match build_worker_config projects req r process_id workspace_dir context_mounts with
           | Some c => or_refuse c
           | None => throw Panicked
           end;
  bind_workflow_worker process_id (ResolvedLaunch.worker_id r) (ResolvedLaunch.strategy r) ;;
  cs ← calling CoreError.RunFailed (run_and_record (LaunchManager.worker_manager self) config);
  post_launch_setup process_id (ResolvedLaunch.worker_id r)
    (bool_decide (is_Some (ResolvedLaunch.slot_claim r))) (ResolvedLaunch.strategy r)
    (WorkerLaunchRequest.dispatch req) ;;
  mret (cs.1, process_id).

(** The container's identifier and the process's. *)
Definition launch (req : WorkerLaunchRequest) : run (string * string) :=
  r ← resolve_launch_workspace req;
  result ← guarding (ResolvedLaunch.slot_claim r) (launch_resolved req r);
  release_claim (ResolvedLaunch.slot_claim r) ;;
  mret result.

(** A process's name may read as an identifier, so it is tried as a name too. *)
Definition stop_worker_request (id : string) : run unit :=
  calling CoreError.StopFailed
    match WorkerId.parse id with
    | Ok worker_id =>
        res ← attempt (stop_by_worker_id worker_id);
        match res with
        | Ok tt => mret tt
        | Err _ => stop (LaunchManager.worker_manager self) id
        end
    | Err _ => stop (LaunchManager.worker_manager self) id
    end.

(** ** Signals of agents *)

Definition worker_id_of (h : header) : run string :=
  match h with
  | None => throw (Refused (Status.unauthenticated "missing ur-worker-id header"))
  | Some (Err _) => throw (Refused (Status.invalid_argument "invalid ur-worker-id header encoding"))
  | Some (Ok w) => mret w
  end.
Definition internal {A} (what : string) (m : SE (ctx host) sqlx_error A) : run A :=
  map_err (λ e, Refused (Status.internal (what +:+ ": " +:+ sqlx_display e))) (in_ctx m).

(** The tasks of the worker signals, on the databases and the channel. *)
Abbreviation signal A := (SE (ctx host) anyhow A).

Definition send_transition (ticket_id : string) (to : LifecycleStatus) : signal unit :=
  map_err (λ _, Anyhow "failed to send transition request: channel closed") (send "" ticket_id to).

(** A failure is only logged. *)
Definition mark_pending_feedback_comments (ticket_id : string) : signal unit :=
  pending ← attempt (workflows (get_pending_feedback_comments ticket_id));
  match pending with
  | Ok (_ :: _ as pending) => ignore_err (workflows (mark_feedback_created ticket_id pending))
  | _ => mret tt
  end.
Definition feedback_target (feedback_mode : string) : LifecycleStatus :=
  if bool_decide (feedback_mode = "now") then LifecycleStatus.Implementing else LifecycleStatus.Merging.
Definition handle_workflow_step_complete (worker_id : string) : signal unit :=
  ticket_id ← of_sqlx (workflows (ticket_id_by_worker_id worker_id));
  match ticket_id with
  | None => mret tt
  | Some ticket_id =>
      workflow ← load_workflow ticket_id;
      match route (Workflow.status workflow) with
      | NextStepResult.Advance to => send_transition ticket_id to
      | NextStepResult.AdvanceByFeedbackMode =>
          mark_pending_feedback_comments ticket_id ;;
          send_transition ticket_id (feedback_target (Workflow.feedback_mode workflow))
      | NextStepResult.Ignore => mret tt
      end
  end.

Definition handle_awaiting_dispatch_readiness (worker_id : string) : signal unit :=
  ticket_id ← of_sqlx (workflows (ticket_id_by_worker_id worker_id));
  match ticket_id with
  | None => mret tt
  | Some ticket_id =>
      workflow ← of_sqlx (workflows (get_workflow_by_ticket ticket_id));
      match workflow with
      | Some wf =>
          when (bool_decide (Workflow.status wf = LifecycleStatus.AwaitingDispatch))
            (send_transition ticket_id LifecycleStatus.Implementing)
      | None => mret tt
      end
  end.

Definition handle_request_human_activity (worker_id message : string) : signal unit :=
  ticket_id ← of_sqlx (workflows (ticket_id_by_worker_id worker_id));
  match ticket_id with
  | None => mret tt
  | Some ticket_id =>
      activity ← of_sqlx (tickets (add_activity ticket_id "agent" message));
      of_sqlx (tickets (set_meta (Activity.id activity) "activity" "source" "agent")) ;;
      of_sqlx (tickets (set_meta (Activity.id activity) "activity" "kind" "request-human")) ;;
      of_sqlx (workflows (set_workflow_stalled ticket_id message))
  end.

(** ** Waiting for a worker

    A poll reads the worker's row; [between] is what others do to the state between
    two polls, as often as the timeout allows. *)
Fixpoint wait_until_idle (timed_out not_found worker_id : string) (between : list (ctx host → ctx host))
    : signal Worker :=
  worker ← of_sqlx (workflows (get_worker worker_id));
  worker ← expect_some worker not_found;
  if bool_decide (WorkerRow.agent_status worker = AgentStatus.as_str AgentStatus.Idle) then mret worker
  else match between with
       | [] => bail timed_out
       | f :: between => modify f ;; wait_until_idle timed_out not_found worker_id between
       end.
Definition dispatch_design_on_ready (process_id worker_id : string) (between : list (ctx host → ctx host))
    : signal unit :=
  worker ← wait_until_idle ("timed out waiting for worker " +:+ process_id +:+ " to become idle")
             ("worker " +:+ worker_id +:+ " not found") worker_id between;
  wrap "workerd Design RPC failed: "
    (dispatch (LaunchManager.resolver self) "Design" worker (WorkerdRequest.Design process_id)).
(** The label's own timeout of five seconds is not modelled. *)
Definition push_label_on_ready (worker_id : string) (between : list (ctx host → ctx host)) : signal unit :=
  wait_until_idle ("timed out waiting for worker " +:+ worker_id +:+ " to become reachable")
    ("worker " +:+ worker_id +:+ " not found in database") worker_id between ;;
  push_label (LaunchManager.resolver self) worker_id.

(** A task runs; its error is only logged. *)
Definition task_body (t : task) (between : list (ctx host → ctx host)) : signal unit :=
  match t with
  | StepComplete worker_id => handle_workflow_step_complete worker_id
  | DispatchReadiness worker_id => handle_awaiting_dispatch_readiness worker_id
  | RequestHuman worker_id message => handle_request_human_activity worker_id message
  | DesignDispatch process_id worker_id => dispatch_design_on_ready process_id worker_id between
  | LabelPush worker_id => push_label_on_ready worker_id between
  end.
Definition run_task {E} (t : task) (between : list (ctx host → ctx host)) : SE (core host) E unit :=
  ignore_err (in_ctx (task_body t between)).

(** ** The handlers of the two servers *)

Definition workflow_step_complete (worker : header) : run unit :=
  worker_id ← worker_id_of worker;
  spawn (StepComplete worker_id).

Definition update_agent_status (worker : header) (status message : string) : run unit :=
  worker_id ← worker_id_of worker;
  agent_status ← map_err (λ e, Refused (Status.invalid_argument e)) (of_result (AgentStatus.from_str status));
  internal "failed to update agent status" (workflows (update_worker_agent_status worker_id agent_status)) ;;
  when (bool_decide (status = "idle")) (spawn (DispatchReadiness worker_id)) ;;
  when (bool_decide (status = "stalled") && negb (bool_decide (message = ""))) (spawn (RequestHuman worker_id message)).

Definition not_found_info {A} (msg : string) : run A :=
  throw (Refused (Status.status_with_info Status.NotFound msg DOMAIN_CORE "NOT_FOUND" ∅)).
Definition resolve_gh_repo_for_worker (worker_id : string) : run string :=
  ticket_id ← internal "failed to look up worker ticket" (workflows (ticket_id_by_worker_id worker_id));
  match ticket_id with
  | None => not_found_info ("no ticket assigned to worker " +:+ worker_id)
  | Some ticket_id =>
      meta ← internal "failed to read ticket metadata" (tickets (get_meta ticket_id "ticket"));
      match meta !! "gh_repo" with
      | Some repo => mret repo
      | None => not_found_info ("gh_repo metadata not found on ticket " +:+ ticket_id)
      end
  end.
Definition link_comment_ticket (worker : header) (pr_number comment_id : Z) (ticket_id : string) : run unit :=
  worker_id ← worker_id_of worker;
  gh_repo ← resolve_gh_repo_for_worker worker_id;
  internal "failed to insert ticket comment"
    (tickets (insert_ticket_comment (pretty comment_id) ticket_id pr_number gh_repo)).

(** The directory, the agent's status and the runtime. *)
Definition worker_info (process_id : string) : run (string * string * string) :=
  workspace_dir ← calling (λ _, CoreError.WorkspaceNotFound process_id) (get_workspace_dir process_id);
  worker ← internal "failed to get worker" (workflows (get_worker process_id));
  mret (default "" workspace_dir,
        from_option WorkerRow.agent_status "" worker,
        from_option (λ w, WorkerRuntime.as_str (WorkerRow.runtime w)) "" worker).

Definition entry_of (s : WorkerSummary.t) : SE (ctx host) Empty_set WorkerEntry.t :=
  ticket ← attempt (tickets (get_ticket (WorkerSummary.process_id s)));
  let ticket := match ticket with Ok t => t | Err _ => None end in
  pr_url ← match ticket with
           | Some _ =>
               meta ← attempt (tickets (get_meta (WorkerSummary.process_id s) "ticket"));
               mret (default "" (match meta with Ok m => m | Err _ => ∅ end !! "pr_url"))
           | None => mret ""
           end;
  workflow ← attempt (workflows (get_workflow_by_ticket (WorkerSummary.process_id s)));
  let workflow := match workflow with Ok w => w | Err _ => None end in
  mret (WorkerEntry.mk s (from_option (λ t, LifecycleStatus.as_str (Ticket.lifecycle_status t)) "" ticket) pr_url
          (from_option Workflow.id "" workflow)
          (from_option (λ w, LifecycleStatus.as_str (Workflow.status w)) "" workflow)
          (from_option Workflow.stalled false workflow) (from_option Workflow.stall_reason "" workflow)).
Fixpoint entries_of (l : list WorkerSummary.t) : SE (ctx host) Empty_set (list WorkerEntry.t) :=
  match l with
  | [] => mret []
  | s :: l => e ← entry_of s; rest ← entries_of l; mret (e :: rest)
  end.
Definition worker_list : SE (core host) Empty_set (list WorkerEntry.t) :=
  in_ctx (summaries ← list_running; entries_of summaries).

(** A message is typed into the agent's terminal; unless told otherwise, it is
    submitted. *)
Definition send_message (worker : Worker) (message : string) (submit : bool) : signal unit :=
  resp ← workerd_request (LaunchManager.resolver self) "SendMessage" worker (WorkerdRequest.SendMessage message submit);
  if WorkerdResponse.success resp
  then ignore_err (workflows (update_worker_agent_status (WorkerRow.worker_id worker) AgentStatus.Working))
  else bail (WorkerdResponse.error resp).
Definition send_worker_message (process_id message : string) (submit : option bool) : run unit :=
  workers ← calling CoreError.SendMessageFailed
    (map_err (λ e, "db error: " +:+ sqlx_display e) (workflows (list_workers_by_container_status "running")));
  match list_find (λ w, WorkerRow.process_id w = process_id) workers with
  | None => refuse (CoreError.WorkerNotFound process_id)
  | Some (_, worker) =>
      map_err (λ e, match e with
                    | Anyhow msg => core_error (CoreError.SendMessageFailed msg)
                    | Panic => Panicked
                    end)
        (in_ctx (send_message worker message (default true submit)))
  end.

(** The host's server does not take the signals of agents, nor the workers' server
    the queries of the command line. *)
Definition unimplemented {A} : run A := refuse CoreError.Unimplemented.

(** ** [auth.rs] *)

Definition required_header (h : header) (name : string) : run string :=
  match h with
  | None => throw (Refused (Status.unauthenticated ("missing " +:+ name +:+ " header")))
  | Some (Err _) => throw (Refused (Status.unauthenticated ("invalid " +:+ name +:+ " header value")))
  | Some (Ok v) => mret v
  end.
Definition worker_auth_interceptor (worker secret : header) : run unit :=
  worker_id ← required_header worker "ur-worker-id";
  secret ← required_header secret "ur-worker-secret";
  verified ← in_ctx (attempt (workflows (WorkerRepo.verify_worker worker_id secret)));
  match verified with
  | Ok true => mret tt
  | _ => throw (Refused (Status.unauthenticated "worker authentication failed: invalid worker-id or secret"))
  end.
End Service.
