(* ===== verification/LaunchProps.v ===== *)
(** * Launch requests and the signals of agents

    A launch request is decided before anything happens, and whatever fails
    afterwards leaves no claim on a slot and no half-recorded worker; a worker's
    signals ask only for transitions of its own ticket along the graph; a worker is
    who it says it is. *)

From S2P Require Import Prelude RustStd Model Env Agent UrConfig TicketDb TicketRepo WorkflowDb WorkflowRepo WorkerRepo.
From S2P Require Import TicketGraph Context Host WorkflowInvariant Pool PoolProps HandlerLib WorkerModes.
From S2P Require Import RunOpts WorkerManager TestWorld WorkerManagerProps LaunchService.
From Stdlib Require Import Ascii Lia.
Local Open Scope stdpp_scope.

(** ** A computation's parts *)

(** What follows a computation that keeps an invariant. *)
Lemma run_preserving {S E A B} (I : S → Prop) (m : SE S E A) (k : A → SE S E B) (Q : result B E → S → Prop) x :
  preserves I m → I x → (∀ e y, I y → Q (Err e) y) → (∀ a y, I y → Q (k a y).1 (k a y).2) →
  Q ((m ≫= k) x).1 ((m ≫= k) x).2.
Proof.
  intros Hm Hx He Hk. rewrite run_bind. specialize (Hm x Hx). destruct (m x) as [[a|e] y]; [by apply Hk|by apply He].
Qed.

(** Between [x0] and [x] the tables changed as [P] says; the claims are those of
    [x0] and, where there is one, the claim [o]; nothing else of the server
    changed. *)
Record held {H} (P : wtables → Prop) (o : option string) (x0 x : core H) : Prop := Held {
  held_frame : frame P (core_ctx x0) (core_ctx x);
  held_registered : registered x = registered x0;
  held_tasks : tasks x = tasks x0;
  held_claims : claiming (slots x) = default ∅ (singleton <$> o) ∪ claiming (slots x0);
  held_fresh i : o = Some i → i ∉ claiming (slots x0)
}.

(** The tables [s0] with more slots. *)
Record more_slots (s0 s : wtables) : Prop := MoreSlots {
  more_wwf : wwf s;
  more_slots_of : WorkflowTables.slot s0 ⊆ WorkflowTables.slot s;
  more_rest : WorkflowTables.set_slot (WorkflowTables.slot s0) s = s0
}.

Lemma more_slots_refl s : wwf s → more_slots s s.
Proof. intros Hs. split; [done..|]. by destruct s. Qed.

Section Held.
Context {HE : Env} {HO : Host} {HP : PoolHost} {HW : WorkerHost} {HL : LaunchHost} {HJ : JoinOrder}.

Lemma held_refl (x : core host) : wwf (tables (workflow_db (core_ctx x))) →
  held (more_slots (tables (workflow_db (core_ctx x)))) None x x.
Proof.
  intros Hs. split; [|done|done|cbn; set_solver|done]. split; [by apply more_slots_refl|done..].
Qed.

Lemma held_in_ctx {E A} P o x0 (m : SE (ctx host) E A) :
  preserves (frame P (core_ctx x0)) m → preserves (held P o x0) (in_ctx m).
Proof.
  intros Hm x [Hf ? ? ? ?]. unfold in_ctx. rewrite !run_zoom. cbn [snd]. split; [|done..]. by apply (Hm _ Hf).
Qed.
Lemma held_calling {A} P o x0 f (m : SE (ctx host) string A) :
  preserves (frame P (core_ctx x0)) m → preserves (held P o x0) (calling f m).
Proof. intros Hm. by apply preserves_map_err, held_in_ctx. Qed.
Lemma held_or_refuse {A} P o x0 (r : result A CoreError.t) : preserves (held P o x0) (or_refuse r : SE (core host) _ _).
Proof. apply preserves_map_err, preserves_of_result. Qed.
Lemma held_call {E A} P o x0 (f : string → E) rpc (m : SE host Status.t A) :
  preserves (held P o x0) (map_err f (in_ctx (pool_rpc rpc m))).
Proof. apply preserves_map_err, held_in_ctx, framed_pool_rpc. Qed.

(** The claim goes when a guarded computation fails, and at the end. *)
Lemma run_release_claim P o x0 x : held P o x0 x →
  held P None x0 (release_claim o x : result unit rpc_error * _).2 ∧ (release_claim o x : result unit rpc_error * _).1 = Ok tt.
Proof.
  intros [Hf Hr Ht Hc Hn]. destruct o as [i|]; [|by split; [split|]]. split; [|done].
  unfold release_claim. rewrite run_zoom. split; [done..| |done]. cbn in *. rewrite Hc. specialize (Hn i eq_refl). set_solver.
Qed.
Lemma run_guarding {A} P o x0 (m : SE (core host) rpc_error A) x : preserves (held P o x0) m → held P o x0 x →
  match guarding o m x with
  | (Ok a, y) => m x = (Ok a, y) ∧ held P o x0 y
  | (Err e, y) => held P None x0 y
  end.
Proof.
  intros Hm Hx. unfold guarding. rewrite run_bind, run_attempt. specialize (Hm x Hx).
  destruct (m x) as [[a|e] y]; cbn [fst snd] in *; [by rewrite run_ret|].
  rewrite run_bind. destruct (run_release_claim P o x0 y Hm) as [Hr Ho].
  destruct (release_claim o y) as [[[]|] z]; [|done]. by rewrite run_throw.
Qed.

(** ** Acquiring a slot *)

Lemma framed_insert_slot (s0 : wtables) (x0 : ctx host) slot :
  preserves (frame_pool (more_slots s0) (faults (workflow_db x0))) (insert_slot slot).
Proof.
  apply frame_statement. intros s a s' [Hw Hs Hr] Hi.
  assert (winv ∅ s') as [Hw' _].
  { assert (preserves (on_tables (winv ∅)) (insert_slot slot)) as Hp by (apply winv_insert_slot; try apply map_Forall_empty).
    specialize (Hp (Pool s [] 0)). unfold insert_slot in Hp. rewrite run_statement, Hi in Hp. apply Hp.
    split; [done|apply map_empty_subseteq]. }
  destruct (insert_row _ _ _) as [m|] eqn:Em; [|done]. destruct (existsb _ _); [done|]. injection Hi as _ <-.
  apply insert_row_Ok in Em as [Hn ->]. split; [done| |].
  - etrans; [exact Hs|].
    by apply insert_subseteq.
  - by destruct s.
Qed.
Lemma framed_insert_prepared key repo limit s0 (x0 : ctx host) :
  preserves (frame (more_slots s0) x0) (insert_prepared key repo limit).
Proof.
  unfold insert_prepared. apply preserves_bind; [apply preserves_map_err, framed_pool_rpc|]. intros existing.
  case_match; [apply preserves_throw|]. apply preserves_bind; [apply preserves_map_err, framed_pool_rpc|]. intros path.
  apply preserves_bind; [apply framed_draw, frame_now|]. intros now.
  apply preserves_bind; [apply framed_draw, frame_uuid|]. intros id.
  apply preserves_bind; [apply framed_db, framed_insert_slot|]. intros _. apply preserves_ret.
Qed.

(** The same on the pool's part of the server. *)
Definition pool_held P o (x0 : core host) (p : pool_state host) : Prop :=
  held P o x0 (Core p (registered x0) (tasks x0)).
Lemma pool_held_zoom {E A} P o x0 (m : SE (ctx host) E A) :
  preserves (frame P (core_ctx x0)) m → preserves (pool_held P o x0) (zoom m).
Proof. intros Hm p [Hf ? ? ? ?]. rewrite run_zoom. split; [|done..]. by apply (Hm _ Hf). Qed.
Lemma pool_held_claim P i x0 p p' : pool_held P None x0 p → i ∉ claiming p →
  claiming p' = {[ i ]} ∪ claiming p → pool_ctx p' = pool_ctx p → pool_held P (Some i) x0 p'.
Proof.
  intros [Hf Hr Ht Hc Hn] Hi Hc' Hp. cbn in *. rewrite (left_id_L ∅ (∪)) in Hc.
  split; cbn; [|done|done|congruence|]. { destruct Hf. unfold core_ctx. cbn. rewrite Hp. by split. }
  intros j [= <-]. by rewrite <-Hc.
Qed.
Lemma pool_held_drop P i x0 p p' : pool_held P (Some i) x0 p →
  claiming p' = claiming p ∖ {[ i ]} → frame P (core_ctx x0) (pool_ctx p') → pool_held P None x0 p'.
Proof.
  intros [Hf Hr Ht Hc Hn] Hc' Hp. specialize (Hn i eq_refl). split; cbn in *; [done..| |done].
  rewrite Hc', Hc. set_solver.
Qed.

Lemma run_acquire_slot projects key s0 x0 p : pool_held (more_slots s0) None x0 p →
  match acquire_slot projects key p with
  | (Ok pc, p') => pool_held (more_slots s0) (Some pc.2) x0 p'
  | (Err _, p') => pool_held (more_slots s0) None x0 p'
  end.
Proof.
  intros Hp. unfold acquire_slot. rewrite run_bind, run_of_result.
  destruct (resolve_pool_project projects key) as [[project repo]|e]; [|done]. rewrite run_bind. unfold query_slots.
  assert (preserves (pool_held (more_slots s0) None x0)
    (zoom (db_call "db error finding available slot" (find_available_slots key)))) as Hq
    by (apply pool_held_zoom, framed_db, frame_select).
  specialize (Hq p Hp). destruct (zoom _ p) as [[cands|e] p1]; [|done]. cbn [fst snd] in *.
  unfold take_slot. rewrite run_bind. pose proof (claim_first_claims cands p1) as Hc.
  destruct (claim_first cands p1) as [[[slot|]|e] p2]; [| |done].
  - destruct Hc as (_ & Hn & Hc & Hx). pose proof (pool_held_claim _ _ _ _ _ Hq Hn Hc Hx) as Hs.
    pose proof (recycle_claims key repo slot p2) as Hr.
    assert (frame (more_slots s0) (core_ctx x0) (pool_ctx (recycle_claimed key repo slot p2).2)) as Hf.
    { unfold recycle_claimed. rewrite holding_ctx, run_bind.
      match goal with |- context [zoom ?m p2] => assert (preserves (pool_held (more_slots s0) (Some (Slot.id slot)) x0) (zoom m)) as Hz end.
      { apply pool_held_zoom, preserves_map_err, framed_pool_rpc. }
      specialize (Hz p2 Hs). destruct (zoom _ p2) as [[path|e] p3]; apply (held_frame _ _ _ _ Hz). }
    destruct (recycle_claimed key repo slot p2) as [[pc|e] p3]; cbn [snd] in *.
    + destruct Hr as [Hr ->], Hs as [_ ? ? Hs1 Hs2]. split; cbn in *; [done..|congruence|done].
    + by eapply pool_held_drop.
  - subst p2. rewrite run_bind. assert (preserves (pool_held (more_slots s0) None x0)
      (zoom (insert_prepared key repo (ProjectConfig.pool_limit project)))) as Hi by apply pool_held_zoom, framed_insert_prepared.
    specialize (Hi p1 Hq). destruct (zoom _ p1) as [[[[name path] id]|e] p2]; [|done]. cbn [snd] in Hi.
    pose proof (claim_prepared_claims key name path id p2) as Hc.
    destruct (claim_prepared key name path id p2) as [[pc|e] p3]; [|by subst p3].
    destruct Hc as (-> & Hn & Hc & Hx). by eapply pool_held_claim.
Qed.

(** A slot for a strategy: only a design worker shares one and claims none. *)
Lemma run_acquire_by projects strategy key s0 x0 p : pool_held (more_slots s0) None x0 p →
  match acquire_by projects strategy key p with
  | (Ok pc, p') => pool_held (more_slots s0) pc.2 x0 p' ∧ (is_Some pc.2 ↔ strategy ≠ WorkerStrategy.Design)
  | (Err _, p') => pool_held (more_slots s0) None x0 p'
  end.
Proof.
  intros Hp. unfold acquire_by. destruct strategy.
  2: { rewrite run_bind. assert (preserves (pool_held (more_slots s0) None x0) (zoom (acquire_shared_slot projects key))) as Hs.
    { apply pool_held_zoom. apply preserves_bind; [apply preserves_of_result|]. intros pr. apply preserves_map_err, framed_pool_rpc. }
    specialize (Hs p Hp). destruct (zoom _ p) as [[path|e] p']; [|done]. split; [done|]. split; [by intros []|done]. }
  all: rewrite run_bind; pose proof (run_acquire_slot projects key s0 x0 p Hp) as Ha;
    destruct (acquire_slot projects key p) as [[pc|e] p']; [|done]; by split.
Qed.

(** What a slot is acquired for. *)
Lemma run_choose_workspace projects req key strategy s0 x0 x : held (more_slots s0) None x0 x →
  match choose_workspace projects req key strategy x with
  | (Ok w, y) => held (more_slots s0) w.2 x0 y ∧ w.1.2 = key
      ∧ (is_Some w.2 ↔ strategy ≠ WorkerStrategy.Design ∧ key ≠ "" ∧ WorkerLaunchRequest.workspace_dir req = "")
  | (Err _, y) => held (more_slots s0) None x0 y
  end.
Proof.
  intros Hx. unfold choose_workspace.
  assert (∀ A (a : A), (mret a : SE (core host) rpc_error A) x = (Ok a, x)) as Hret by done.
  destruct (bool_decide_reflect (key = "")) as [Ek|Ek],
    (bool_decide_reflect (WorkerLaunchRequest.workspace_dir req = "")) as [Ed|Ed]; rewrite ?Hret; cbn [fst snd];
    try (split_and!; [done..|split; [by intros []|naive_solver]]).
  rewrite run_bind, run_map_err, run_zoom. cbn [view slots_lens].
  assert (pool_held (more_slots s0) None x0 (slots x)) as Hp by (destruct Hx; by split).
  pose proof (run_acquire_by projects strategy key s0 x0 (slots x) Hp) as Ha. destruct Hx as [_ Hreg Hts _ _].
  destruct (acquire_by projects strategy key (slots x)) as [[pc|e] p'] eqn:Ea; cbn [fst snd].
  - destruct Ha as [Ha Hd]. split_and!; [|done|naive_solver]. cbn. unfold pool_held in Ha. by rewrite Hreg, Hts.
  - unfold pool_held in Ha. cbn. by rewrite Hreg, Hts.
Qed.

(** ** A launch up to its container *)

Context (self : LaunchManager.t).

Lemma framed_generate {E} P (x0 : ctx host) id : preserves (frame P x0)
  (zoom (T := Prelude.pool wtables) (WorkerId.generate id) : SE (ctx host) E string).
Proof.
  apply framed_draw. intros [t fs n] [Ht Hf]. unfold WorkerId.generate. rewrite run_bind, run_generate_base36, run_ret.
  by split.
Qed.
Lemma framed_checkout P (x0 : ctx host) path branch :
  preserves (frame P x0) (checkout_branch (LaunchManager.git_branch_prefix self) path branch).
Proof.
  unfold checkout_branch. apply preserves_bind; [apply framed_db, frame_select|]. intros slot.
  apply preserves_bind; [apply preserves_ok_or|]. intros sl. apply preserves_map_err, framed_pool_rpc.
Qed.
Lemma framed_prepare P (x0 : ctx host) pid dir :
  preserves (frame P x0) (prepare (LaunchManager.worker_manager self) pid dir).
Proof.
  assert (∀ st, preserves (frame P x0) (with_status st)) as Hst.
  { intros st. apply framed_db. unfold list_workers_by_container_status. apply preserves_bind; [apply frame_select|].
    intros rs. apply preserves_of_result. }
  unfold prepare. apply preserves_bind; [apply Hst|]. intros l1. apply preserves_bind; [apply Hst|]. intros l2.
  case_match; [apply preserves_throw|]. destruct dir; [apply preserves_ret|].
  apply preserves_bind; [apply preserves_map_err, framed_external|]. intros _.
  apply preserves_bind; [apply preserves_map_err, framed_external|]. intros out.
  case_match; [apply preserves_ret|apply preserves_throw].
Qed.
Lemma preserves_join {S E A B} (I : S → Prop) (f : A → SE S E B) l :
  (∀ a, preserves I (f a)) → preserves I (try_join_all f l).
Proof.
  intros Hf. unfold try_join_all. apply preserves_bind; [|intros done; apply preserves_ret].
  induction (join_order (length l)) as [|i order IH]; [apply preserves_ret|]. cbn [join_in]. destruct (l !! i); [|done].
  apply preserves_bind; [done|]. intros b. apply preserves_bind; [done|]. intros rest. apply preserves_ret.
Qed.
Lemma held_context_repos P o x0 keys : preserves (held P o x0) (acquire_context_repos keys : SE (core host) _ _).
Proof.
  unfold acquire_context_repos. apply preserves_bind; [apply preserves_gets|]. intros projects.
  apply preserves_bind; [apply held_or_refuse|]. intros _. apply preserves_join. intros key.
  unfold acquire_shared_context_slot. apply preserves_bind; [apply preserves_gets|]. intros ps.
  apply preserves_bind; [|intros path; apply preserves_ret]. apply held_calling.
  apply preserves_bind; [apply preserves_of_result|]. intros pr. apply preserves_map_err, framed_pool_rpc.
Qed.

(** What the resolution settles. *)
Record resolved (projects : gmap string ProjectConfig.t) (req : WorkerLaunchRequest) (r : ResolvedLaunch.t) : Prop := Resolved {
  resolved_mode : ∃ mode, resolve_request self projects req = Ok (mode, ResolvedLaunch.project_key r, ResolvedLaunch.runtime r)
    ∧ ResolvedLaunch.strategy r = ResolvedMode.strategy mode ∧ ResolvedLaunch.agent r = ResolvedMode.agent mode;
  resolved_slot : is_Some (ResolvedLaunch.slot_claim r) ↔ ResolvedLaunch.strategy r ≠ WorkerStrategy.Design
    ∧ ResolvedLaunch.project_key r ≠ "" ∧ WorkerLaunchRequest.workspace_dir req = "";
  resolved_generated : is_Some (ResolvedLaunch.generated_process_id r) ↔ ResolvedLaunch.strategy r = WorkerStrategy.Manual;
  resolved_worker : ∃ suffix, ResolvedLaunch.worker_id r
    = default (WorkerLaunchRequest.worker_id req) (ResolvedLaunch.generated_process_id r) +:+ "-" +:+ suffix
}.
Lemma run_resolve_launch req s0 x0 x : held (more_slots s0) None x0 x →
  match resolve_launch_workspace self req x with
  | (Ok r, y) => held (more_slots s0) (ResolvedLaunch.slot_claim r) x0 y ∧ resolved (registered x) req r
  | (Err _, y) => held (more_slots s0) None x0 y
  end.
Proof.
  intros Hx. unfold resolve_launch_workspace. rewrite run_bind, run_gets, run_bind. unfold or_refuse.
  rewrite run_map_err, run_of_result. destruct (resolve_request self (registered x) req) as [[[mode key] rt]|e] eqn:Hm; [|done].
  rewrite run_bind. pose proof (run_choose_workspace (registered x) req key (ResolvedMode.strategy mode) s0 x0 x Hx) as Hw.
  destruct (choose_workspace _ req key _ x) as [[[[dir pk] claim]|e] y]; [|done]. cbn [fst snd] in Hw.
  destruct Hw as (Hy & -> & Hclaim).
  set (manual := bool_decide (ResolvedMode.strategy mode = WorkerStrategy.Manual)).
  set (gen := if manual then Some (generate_manual_process_id key dir) else None).
  match goal with |- context [guarding claim ?m y] => set (body := m) end.
  assert (preserves (held (more_slots s0) claim x0) body) as Hb.
  { apply preserves_bind; [apply held_in_ctx, framed_generate|]. intros wid.
    apply preserves_bind; [|intros _; apply preserves_ret].
    repeat case_match; try apply preserves_ret. apply held_calling, framed_checkout. }
  pose proof (run_guarding _ _ _ body y Hb Hy) as Hg. destruct (guarding claim body y) as [[r|e] z]; [|done].
  destruct Hg as [Hr Hz]. unfold body in Hr. rewrite run_bind in Hr. unfold in_ctx in Hr at 1.
  rewrite !run_zoom in Hr. unfold WorkerId.generate in Hr. rewrite run_bind in Hr.
  destruct (view (view (view y))) as [ty fy ny]. rewrite run_generate_base36, run_ret in Hr. cbn [fst snd] in Hr.
  rewrite run_bind in Hr. match type of Hr with match ?m with _ => _ end = _ => destruct m as [[[]|e] z'] end; [|done].
  rewrite run_ret in Hr. injection Hr as <- _. split; [exact Hz|]. split; cbn.
  - by exists mode.
  - exact Hclaim.
  - unfold gen, manual. case_bool_decide; split; [done|eauto|by intros []|done].
  - by eexists.
Qed.

(** ** The launch *)

(** The ticket's workflow is bound to the worker before the container starts. *)
Definition bound (process_id worker_id : string) (strategy : WorkerStrategy) (s : wtables) : wtables :=
  if bool_decide (strategy = WorkerStrategy.Manual) then s
  else WorkflowTables.set_workflow
         (update_where (active_for process_id) (W.set_worker_id worker_id) (WorkflowTables.workflow s)) s.
Definition prepared (s0 : wtables) (process_id worker_id : string) (strategy : WorkerStrategy) (s : wtables) : Prop :=
  ∃ s1, more_slots s0 s1 ∧ s = bound process_id worker_id strategy s1.

Lemma prepared_wwf s0 pid wid strategy s : prepared s0 pid wid strategy s → wwf s.
Proof.
  intros (s1 & [Hw _ _] & ->). unfold bound. case_bool_decide; [done|].
  assert (winv ∅ s1) as Hi by (split; [done|apply map_empty_subseteq]).
  by destruct (winv_update_active ∅ (map_Forall_empty _) pid (W.set_worker_id wid) s1 (λ _, eq_refl) Hi).
Qed.
Lemma run_bind_worker pid wid strategy s0 o x0 x : faults (workflow_db (core_ctx x0)) = [] →
  held (more_slots s0) o x0 x →
  ∃ y, bind_workflow_worker pid wid strategy x = (Ok tt, y) ∧ held (prepared s0 pid wid strategy) o x0 y.
Proof.
  intros Hf0 [[Ht Hw Hk Hc] Hr Hts Hcl Hfr]. unfold bind_workflow_worker.
  case_bool_decide as Es.
  - exists x. split; [done|]. split; [|done..]. split; [|done..]. exists (tables (workflow_db (core_ctx x))).
    unfold bound. by rewrite bool_decide_true by done.
  - destruct x as [[[t [s fs n] h q b] cl] reg ts]. unfold core_ctx in *. cbn in Ht, Hw, Hk, Hc, Hr, Hts, Hcl. specialize (Hw Hf0). subst fs.
    unfold calling, in_ctx, db_call. rewrite run_map_err, !run_zoom. cbn [view slots_lens pool_ctx_lens slots pool_ctx].
    rewrite run_map_err, run_workflows. unfold set_workflow_worker_id, update_active. rewrite run_update_stmt.
    eexists. split; [reflexivity|]. split; [|done..]. split; [|done..]. cbn. exists s. split; [done|].
    unfold bound. by rewrite bool_decide_false by done.
Qed.

(** A configuration made for a resolved request. *)
Record config_for (r : ResolvedLaunch.t) (req : WorkerLaunchRequest) (config : WorkerConfig) : Prop := ConfigFor {
  config_process : WorkerConfig.process_id config
    = default (WorkerLaunchRequest.worker_id req) (ResolvedLaunch.generated_process_id r);
  config_worker : WorkerConfig.worker_id config = ResolvedLaunch.worker_id r;
  config_slot : WorkerConfig.slot_id config = ResolvedLaunch.slot_claim r;
  config_project : WorkerConfig.project_key config = ResolvedLaunch.project_key r;
  config_strategy : WorkerConfig.strategy config = ResolvedLaunch.strategy r;
  config_agent : WorkerConfig.agent_type config = AgentType.name (ResolvedLaunch.agent r);
  config_runtime : WorkerConfig.runtime config = ResolvedLaunch.runtime r
}.
Lemma build_config_for projects req r pid dir mounts config :
  pid = default (WorkerLaunchRequest.worker_id req) (ResolvedLaunch.generated_process_id r) →
  build_worker_config self projects req r pid dir mounts = Some (Ok config) → config_for r req config.
Proof.
  intros ->. unfold build_worker_config. destruct (merge_skills _ _ _ _) as [skills extra].
  destruct (resolve_worker_image _ _ _ _) as [[i|e]|]; [|done..]. cbn. intros [= <-]. by split.
Qed.

(** The tasks of a launch: a design worker is sent its command, and the label of
    every worker is pushed. *)
Definition launch_tasks (req : WorkerLaunchRequest) (config : WorkerConfig) : list task :=
  (if bool_decide (WorkerConfig.strategy config = WorkerStrategy.Design) && WorkerLaunchRequest.dispatch req
   then [DesignDispatch (WorkerConfig.process_id config) (WorkerConfig.worker_id config)] else [])
  ++ [LabelPush (WorkerConfig.worker_id config)].

Lemma persist_keeps pid wid (x : core host) :
  let y := (persist_pool_branch pid wid x).2 in
  workflow_db (core_ctx y) = workflow_db (core_ctx x) ∧ registered y = registered x ∧ tasks y = tasks x
  ∧ claiming (slots y) = claiming (slots x).
Proof.
  unfold persist_pool_branch. rewrite run_bind. unfold calling, in_ctx. rewrite run_map_err, !run_zoom.
  destruct x as [[[t w h q b] cl] reg ts]. cbn [view slots_lens pool_ctx_lens slots pool_ctx].
  rewrite run_map_err, run_tickets. destruct (get_ticket pid t) as [[[tk|]|e] t1]; cbn [fst snd]; [|done..].
  rewrite run_bind, run_map_err, !run_zoom. cbn [put view slots_lens pool_ctx_lens slots pool_ctx].
  rewrite run_map_err, run_tickets. by destruct (update_ticket pid _ t1) as [[[]|e] t2].
Qed.

(** What a launch leaves when it holds the claim [o]. *)
Definition ran (s0 : wtables) (r : ResolvedLaunch.t) (req : WorkerLaunchRequest) (o : option string) (x0 : core host)
    (config : WorkerConfig) (container_id : string) (y : core host) : Prop :=
  config_for r req config
  ∧ (∃ secret s, prepared s0 (WorkerConfig.process_id config) (WorkerConfig.worker_id config)
                   (WorkerConfig.strategy config) s
      ∧ launched config container_id secret s (tables (workflow_db (core_ctx y))))
  ∧ registered y = registered x0 ∧ claiming (slots y) = default ∅ (singleton <$> o) ∪ claiming (slots x0)
  ∧ (∀ i, WorkerConfig.slot_id config = Some i → i ∉ claiming (slots x0)).
Lemma run_post_setup s0 r req o x0 config cid pid wid y : ran s0 r req o x0 config cid y →
  pid = WorkerConfig.process_id config → wid = WorkerConfig.worker_id config → tasks y = tasks x0 →
  match post_launch_setup pid wid (bool_decide (is_Some (WorkerConfig.slot_id config)))
          (WorkerConfig.strategy config) (WorkerLaunchRequest.dispatch req) y with
  | (Ok _, z) => ran s0 r req o x0 config cid z ∧ tasks z = tasks x0 ++ launch_tasks req config
  | (Err e, z) => ran s0 r req o x0 config cid z ∧ tasks z = tasks x0 ∧ is_Some (WorkerConfig.slot_id config)
      ∧ WorkerConfig.strategy config ≠ WorkerStrategy.Manual
      ∧ persist_pool_branch (WorkerConfig.process_id config) (WorkerConfig.worker_id config) y = (Err e, z)
  end.
Proof.
  intros (Hc & Hl & Hr & Hcl & Hf) -> -> Ht. unfold post_launch_setup, launch_tasks. rewrite run_bind.
  destruct (bool_decide_reflect (WorkerConfig.strategy config = WorkerStrategy.Manual)) as [Em|Em].
  { cbn [negb when]. rewrite run_ret, Em. cbn. split; [done|]. by rewrite Ht. }
  cbn [negb when]. rewrite run_bind. destruct (bool_decide_reflect (is_Some (WorkerConfig.slot_id config))) as [Es|Es]; cbn [when].
  - pose proof (persist_keeps (WorkerConfig.process_id config) (WorkerConfig.worker_id config) y) as Hp.
    destruct (persist_pool_branch _ _ y) as [[[]|e] z] eqn:Epb; cbn [snd] in Hp; destruct Hp as (Hw & Hr' & Ht' & Hcl').
    all: assert (ran s0 r req o x0 config cid z) as Hz by (unfold ran; rewrite Hw, Hr', Hcl'; by split_and!).
    2: { split_and!; [done|congruence|done..]. }
    destruct (_ && _); (split; [exact Hz|]); cbn; by rewrite ?Ht', ?Ht, <-?app_assoc.
  - rewrite run_ret. assert (ran s0 r req o x0 config cid y) as Hy by (by split_and!).
    destruct (_ && _); (split; [exact Hy|]); cbn; by rewrite ?Ht, <-?app_assoc.
Qed.

(** What a launch that failed with [e] leaves: new slots at most, the binding of the
    ticket's workflow when the launch failed before or in [run_and_record], or the
    row of the running worker when the call that records the branch of its slot is
    what failed, with the error of the launch. *)
Definition failed_launch (s0 : wtables) (r : ResolvedLaunch.t) (req : WorkerLaunchRequest) (o : option string)
    (e : rpc_error) (x0 y : core host) : Prop :=
  registered y = registered x0 ∧ claiming (slots y) = default ∅ (singleton <$> o) ∪ claiming (slots x0)
  ∧ tasks y = tasks x0
  ∧ (more_slots s0 (tables (workflow_db (core_ctx y)))
     ∨ (∃ config, config_for r req config
          ∧ prepared s0 (WorkerConfig.process_id config) (WorkerConfig.worker_id config) (WorkerConfig.strategy config)
              (tables (workflow_db (core_ctx y))))
     ∨ (∃ config cid x1 y1, ran s0 r req o x0 config cid y
          ∧ is_Some (WorkerConfig.slot_id config) ∧ WorkerConfig.strategy config ≠ WorkerStrategy.Manual
          ∧ persist_pool_branch (WorkerConfig.process_id config) (WorkerConfig.worker_id config) x1 = (Err e, y1)
          ∧ core_ctx y = core_ctx y1)).
Lemma held_failed s0 r req o e x0 y : held (more_slots s0) o x0 y → failed_launch s0 r req o e x0 y.
Proof. intros [[Ht _ _ _] Hr Hts Hc _]. split_and!; [done..|by left]. Qed.

Lemma run_launch_resolved req r s0 x0 x : faults (workflow_db (core_ctx x0)) = [] →
  held (more_slots s0) (ResolvedLaunch.slot_claim r) x0 x →
  match launch_resolved self req r x with
  | (Ok (cid, pid), y) => ∃ config, pid = WorkerConfig.process_id config
      ∧ ran s0 r req (ResolvedLaunch.slot_claim r) x0 config cid y ∧ tasks y = tasks x0 ++ launch_tasks req config
  | (Err e, y) => failed_launch s0 r req (ResolvedLaunch.slot_claim r) e x0 y
  end.
Proof.
  intros Hf0 Hx. set (o := ResolvedLaunch.slot_claim r) in *.
  pose (Q := λ (res : result (string * string) rpc_error) (y : core host), match res with
    | Ok (cid, pid) => ∃ config, pid = WorkerConfig.process_id config
        ∧ ran s0 r req o x0 config cid y ∧ tasks y = tasks x0 ++ launch_tasks req config
    | Err e => failed_launch s0 r req o e x0 y
    end).
  cut (Q (launch_resolved self req r x).1 (launch_resolved self req r x).2).
  { by destruct (launch_resolved self req r x) as [[[? ?]|] ?]. }
  assert (∀ e y, held (more_slots s0) o x0 y → Q (Err e) y) as He by (intros e y; apply held_failed).
  unfold launch_resolved.
  apply (run_preserving (held (more_slots s0) o x0)); [apply held_in_ctx, framed_external|done|done|]. intros seeded x1 H1.
  apply (run_preserving (held (more_slots s0) o x0)); [apply held_or_refuse|done|done|]. intros _ x2 H2.
  set (pid := default (WorkerLaunchRequest.worker_id req) (ResolvedLaunch.generated_process_id r)).
  apply (run_preserving (held (more_slots s0) o x0)); [apply held_context_repos|done|done|]. intros mounts x3 H3.
  apply (run_preserving (held (more_slots s0) o x0)); [apply held_calling, framed_prepare|done|done|]. intros dir x4 H4.
  rewrite run_bind, run_gets, run_bind.
  destruct (build_worker_config self (registered x4) req r pid dir mounts) as [[config|e]|] eqn:Hb; [|by apply He..].
  unfold or_refuse. rewrite run_map_err, run_of_result, run_bind.
  pose proof (build_config_for _ _ _ _ _ _ _ eq_refl Hb) as Hcf. destruct (Hcf) as [Hpid Hwid Hslot _ Hstr _ _].
  fold pid in Hpid. rewrite <-Hpid, <-Hwid, <-Hstr.
  destruct (run_bind_worker (WorkerConfig.process_id config) (WorkerConfig.worker_id config)
    (WorkerConfig.strategy config) s0 o x0 x4 Hf0 H4) as (x5 & -> & H5). clear x1 x2 x3 x4 H1 H2 H3 H4 Hb.
  destruct H5 as [[Ht Hw Hk Hc] Hr Hts Hcl Hfr]. specialize (Hw Hf0).
  rewrite run_bind. unfold calling, in_ctx. rewrite run_map_err, !run_zoom. cbn [view slots_lens pool_ctx_lens].
  pose proof (launch_all_or_nothing (LaunchManager.worker_manager self) config (core_ctx x5) Hw (prepared_wwf _ _ _ _ _ Ht)) as Hl.
  unfold core_ctx in *. destruct (run_and_record _ config (pool_ctx (slots x5))) as [[[cid secret]|e] c]; cbn [fst snd].
  - destruct Hl as (_ & Hl & _). rewrite run_bind.
    set (y := put (put c (slots x5)) x5). change (is_Some (ResolvedLaunch.slot_claim r)) with (is_Some o).
    assert (ran s0 r req o x0 config cid y) as Hran.
    { split_and!; [done| |done|done|by rewrite Hslot]. by exists secret, (tables (workflow_db (pool_ctx (slots x5)))). }
    pose proof (run_post_setup s0 r req o x0 config cid _ _ y Hran eq_refl eq_refl Hts) as Hp. rewrite Hslot in Hp.
    change (ResolvedLaunch.slot_claim r) with o in Hp.
    destruct (post_launch_setup _ _ _ _ _ y) as [[[]|e] z].
    + rewrite run_ret. exists config. by destruct Hp.
    + destruct Hp as (Hz & Htz & Hs & Hm & Hpb). destruct (Hz) as (_ & _ & Hrz & Hcz & _).
      split_and!; [done..|]. right; right. exists config, cid, y, z. by rewrite Hslot.
  - destruct Hl as [_ Hl]. split_and!; [done..|]. right; left. exists config. split; [done|]. cbn. by rewrite Hl.
Qed.

(** Releasing the claim of a launch that ran or failed. *)
Lemma release_claims o (x0 x : core host) :
  claiming (slots x) = default ∅ (singleton <$> o) ∪ claiming (slots x0) →
  (∀ i, o = Some i → i ∉ claiming (slots x0)) →
  let y := (release_claim o x : result unit rpc_error * _).2 in
  claiming (slots y) = claiming (slots x0) ∧ core_ctx y = core_ctx x ∧ registered y = registered x ∧ tasks y = tasks x.
Proof.
  intros Hc Hf. destruct o as [i|]; cbn in *; [|by rewrite Hc, (left_id_L ∅ (∪))].
  specialize (Hf i eq_refl). rewrite Hc. split_and!; [set_solver|done..].
Qed.
Lemma released_ran s0 r req o x0 config cid x : ran s0 r req o x0 config cid x →
  (∀ i, o = Some i → i ∉ claiming (slots x0)) →
  ran s0 r req None x0 config cid (release_claim o x : result unit rpc_error * _).2.
Proof.
  intros (H1 & H2 & H3 & H4 & H5) Hf. destruct (release_claims o x0 x H4 Hf) as (Hc & Hx & Hr & _).
  unfold ran. rewrite Hc, Hx, Hr. split_and!; [done..| |done]. cbn. by rewrite (left_id_L ∅ (∪)).
Qed.


(** ** Decisions before any effect *)

(** A request is decided before anything happens.  When its agent, mode, project or runtime
    is refused, the server is exactly as it was and the error is that of the
    decision; a request that passes runs in a container, and for a local project it
    is a manual worker in a given directory. *)
Theorem launch_decided_first req (x : core host) :
  match resolve_request self (registered x) req with
  | Err e => launch self req x = (Err (core_error e), x)
  | Ok (mode, key, runtime) => runtime = WorkerRuntime.Container
      ∧ key = effective_project_key req (registered x)
      ∧ (is_local (registered x) key = true → key ≠ "" →
         ResolvedMode.strategy mode = WorkerStrategy.Manual ∧ WorkerLaunchRequest.workspace_dir req ≠ "")
  end.
Proof.
  destruct (resolve_request self (registered x) req) as [[[mode key] rt]|e] eqn:E.
  2: { unfold launch, resolve_launch_workspace. rewrite run_bind, run_bind, run_gets, run_bind, E. done. }
  unfold resolve_request in E. destruct (parse_requested_agent _) as [agent|]; [|done].
  destruct (WorkerModesConfig.resolve_mode _ _ agent) as [m|]; [|done].
  set (k := effective_project_key req (registered x)) in *.
  destruct (reject_unsupported_local_launch _ k req (ResolvedMode.strategy m)) as [[]|] eqn:El; [|done].
  destruct (resolve_launch_runtime self _ req k _) as [r|] eqn:Er; [|done]. injection E as <- <- <-.
  split_and!; [|done|].
  - unfold resolve_launch_runtime in Er. destruct (parse_requested_runtime _) as [q|]; [|done]. cbn zeta in Er.
    destruct (WorkerModesConfig.resolve_runtime _ _ _ _); [by injection Er|]. cbn in Er.
    by destruct (local_runtime_rejection_reason _ _ _).
  - intros Hl Hk. unfold reject_unsupported_local_launch in El. rewrite Hl, bool_decide_false in El by done.
    cbn in El. unfold local_launch_rejection_reason in El.
    destruct (bool_decide_reflect (ResolvedMode.strategy m = WorkerStrategy.Manual)); [|done].
    by destruct (bool_decide_reflect (WorkerLaunchRequest.workspace_dir req = "")).
Qed.
End Held.

(** ** Witnesses *)

Definition test_files : @LaunchHost test_host := {| file_len _ _ := Some 100%Z |}.
#[local] Program Instance in_order : JoinOrder := {| join_order n := seq 0 n |}.
Next Obligation. done. Qed.
Definition test_modes : WorkerModesConfig.t :=
  WorkerModesConfig.built_in AgentType.Claude WorkerRuntime.Container ∅.
Definition test_launcher : LaunchManager.t :=
  LaunchManager.mk test_manager test_modes (GlobalSkillsConfig.mk [] [] []) "" "ur-squid" None "/cfg" "latest"
    test_config.
Definition ur_project : ProjectConfig.t :=
  ProjectConfig.mk "ur" (Some "git@github.com:o/r.git") "ur" 10 [] [] [] None (ContainerConfig.mk "" [] []) 10 None []
    None false [] [] 200 None None None None.
Definition code_request : WorkerLaunchRequest :=
  WorkerLaunchRequest.mk "ur-1" "" 0 "" "" "" [] "" [] true "" "".
Definition launch_core (c : ctx world) : @core world := Core (PoolState c ∅) {[ "ur" := ur_project ]} [].
Abbreviation test_do_launch := (@launch test_env test_host test_pool test_workers test_files in_order test_launcher).


(** A launch whose worker runs although the request failed: the ticket database
    fails when the branch of the slot is to be recorded. *)
Definition tickets_failing : ctx world :=
  Ctx (Pool TicketTables.empty [true] 0) (Pool free_slot [] 0) (World [] [] [] [] [] []) [] true.
Example failed_launch_runs :
  let '(r, y) := test_do_launch code_request (launch_core tickets_failing) in
  is_ok r = false
  ∧ (WorkerRow.container_status <$> (map_to_list (WorkflowTables.worker (tables (workflow_db (core_ctx y))))).*2)
    = ["running"].
Proof. vm_compute. by split. Qed.
