(* ===== verification/SignalProps.v ===== *)
(** * What workers may say

    A worker's signals ask for transitions of its own ticket along the graph only,
    and change no workflow themselves; requests of workers are accepted from
    registered workers only; what the server tells about a worker. *)

From S2P Require Import Prelude RustStd Model Env Agent UrConfig TicketDb TicketRepo WorkflowDb WorkflowRepo WorkerRepo.
From S2P Require Import TicketGraph Context Host Pool HandlerLib WorkerModes RunOpts WorkerManager TestWorld.
From S2P Require Import WorkflowProps WorkerProps PoolProps WorkerManagerProps LaunchService LaunchProps.
From Stdlib Require Import Ascii Lia.
Local Open Scope stdpp_scope.

Section Signals.
Context {HE : Env} {HO : Host} (self : LaunchManager.t).

(** The ticket and the status of the workflow a worker works on. *)
Definition worker_ticket (worker_id : string) (s : wtables) : option string :=
  W.ticket_id <$> head (matching (λ r, bool_decide (W.worker_id r = worker_id) && active r) (WorkflowTables.workflow s)).
Definition worker_workflow (worker_id : string) (s : wtables) : option (string * Workflow.t) :=
  ticket_id ← worker_ticket worker_id s;
  row ← head (matching (active_for ticket_id) (WorkflowTables.workflow s));
  Some (ticket_id, row_to_workflow row).

(** What a signal asks for. *)
Definition step_request (worker_id : string) (s : wtables) : option TransitionRequest.t :=
  tw ← worker_workflow worker_id s;
  match Workflow.status tw.2 with
  | LifecycleStatus.Implementing => Some (TransitionRequest.mk tw.1 LifecycleStatus.Verifying)
  | LifecycleStatus.AddressingFeedback =>
      Some (TransitionRequest.mk tw.1
        (if bool_decide (Workflow.feedback_mode tw.2 = "now") then LifecycleStatus.Implementing
         else LifecycleStatus.Merging))
  | _ => None
  end.
Definition ready_request (worker_id : string) (s : wtables) : option TransitionRequest.t :=
  tw ← worker_workflow worker_id s;
  match Workflow.status tw.2 with
  | LifecycleStatus.AwaitingDispatch => Some (TransitionRequest.mk tw.1 LifecycleStatus.Implementing)
  | _ => None
  end.
Definition signal_request (t : task) (s : wtables) : option TransitionRequest.t :=
  match t with
  | StepComplete worker_id => step_request worker_id s
  | DispatchReadiness worker_id => ready_request worker_id s
  | _ => None
  end.

(** From [x] to [y] at most the request [q] was sent and at most comments of the
    workflows were marked. *)
Record signalled (q : option TransitionRequest.t) (x y : ctx host) : Prop := Signalled {
  signalled_sent : ∃ l, sent y = sent x ++ l ∧ (l = [] ∨ Some <$> l = [q]);
  signalled_rows : WorkflowTables.workflow (tables (workflow_db y)) = WorkflowTables.workflow (tables (workflow_db x))
    ∧ WorkflowTables.workflow_intent (tables (workflow_db y)) = WorkflowTables.workflow_intent (tables (workflow_db x))
    ∧ WorkflowTables.worker (tables (workflow_db y)) = WorkflowTables.worker (tables (workflow_db x));
  signalled_tickets : ticket_db y = ticket_db x
}.
(** Nothing sent yet. *)
Definition unsent (x y : ctx host) : Prop := signalled None x y ∧ sent y = sent x ∧ receiving y = receiving x.

Lemma unsent_refl x : unsent x x.
Proof. split; [split|]; [exists []; rewrite app_nil_r; by auto|done..]. Qed.
Lemma unsent_signalled q x y : unsent x y → signalled q x y.
Proof.
  intros [[_ Hr Ht] [Hs _]]. split; [|done..]. exists []. rewrite app_nil_r. by auto.
Qed.
Lemma run_send_transition ticket_id to x y : unsent x y →
  signalled (Some (TransitionRequest.mk ticket_id to)) x (send_transition ticket_id to y).2.
Proof.
  intros Hu. destruct (Hu) as [[_ Hr Ht] [Hs _]]. unfold send_transition, send. rewrite run_map_err.
  destruct (receiving y); cbn [snd]; [|by apply unsent_signalled]. split; [|done..].
  eexists. cbn. rewrite Hs. split; [done|]. by right.
Qed.

(** A read of the tables, whether it fails or not. *)
Lemma run_read {A} (f : wtables → A) x y : unsent x y →
  match of_sqlx (workflows (select f)) y with
  | (Ok a, z) => a = f (tables (workflow_db y)) ∧ unsent x z ∧ tables (workflow_db z) = tables (workflow_db y)
  | (Err _, z) => unsent x z
  end.
Proof.
  intros Hu. destruct y as [t [s fs n] h q b]. rewrite run_of_sqlx, run_workflows.
  assert (∀ fs', unsent x (Ctx t (Pool s fs' n) h q b)) as Hu'.
  { intros fs'. destruct Hu as [[? ? ?] ?]. split; [split|]; done. }
  unfold select, statement. cbn. destruct fs as [|[] fs]; cbn; try apply Hu'; split_and!; try done; apply Hu'.
Qed.
Lemma worker_ticket_rows worker_id s s' : WorkflowTables.workflow s' = WorkflowTables.workflow s →
  worker_ticket worker_id s' = worker_ticket worker_id s ∧ worker_workflow worker_id s' = worker_workflow worker_id s.
Proof. intros H. unfold worker_workflow, worker_ticket. by rewrite H. Qed.

Lemma run_mark_pending ticket_id x y : unsent x y →
  unsent x (mark_pending_feedback_comments ticket_id y).2 ∧ (mark_pending_feedback_comments ticket_id y).1 = Ok tt.
Proof.
  intros Hu. unfold mark_pending_feedback_comments. rewrite run_bind, run_attempt. cbn [fst snd].
  assert (∀ A (m : wdb A), (∀ s, preserves (on_tables (λ s', ∃ c, s' = WorkflowTables.set_comments c s)) m) →
    ∀ y, unsent x y → unsent x (workflows m y).2) as Hm.
  { intros A m Hp [t p h q b] [[H1 H2 H3] [H4 H5]]. rewrite run_workflows. cbn [snd].
    destruct (Hp (tables p) p) as [c Hc]; [exists (WorkflowTables.workflow_comments (tables p)); by destruct (tables p)|].
    split; [split|]; cbn in *; rewrite ?Hc; done. }
  assert (unsent x (workflows (get_pending_feedback_comments ticket_id) y).2) as H1.
  { apply Hm; [|done]. intros s. apply preserves_select. }
  destruct (workflows (get_pending_feedback_comments ticket_id) y) as [[[|c cs]|e] z]; cbn [fst snd] in *;
    rewrite ?run_ret; [done| |done].
  rewrite run_ignore_err. split; [|done]. apply Hm; [|done]. intros s. apply preserves_for_each. intros c'.
  apply preserves_update_stmt. intros s' [c0 ->]. by eexists.
Qed.

Lemma step_signalled worker_id x :
  signalled (step_request worker_id (tables (workflow_db x))) x (handle_workflow_step_complete worker_id x).2.
Proof.
  unfold handle_workflow_step_complete. rewrite run_bind.
  pose proof (run_read (λ s, worker_ticket worker_id s) x x (unsent_refl x)) as Ht.
  change (ticket_id_by_worker_id worker_id) with (select (worker_ticket worker_id)).
  destruct (of_sqlx _ x) as [[o|e] y1]; cbn [snd]; [|by apply unsent_signalled]. destruct Ht as (-> & H1 & Hs1).
  destruct (worker_ticket worker_id (tables (workflow_db x))) as [ticket_id|] eqn:Ew; [|rewrite run_ret; by apply unsent_signalled].
  rewrite run_bind. unfold load_workflow. rewrite run_bind.
  unfold get_workflow_by_ticket, get_workflow_by_ticket_inner.
  match goal with |- context [of_sqlx (workflows (select ?f)) y1] => pose proof (run_read f x y1 H1) as Hw end.
  destruct (of_sqlx _ y1) as [[o|e] y2]; cbn [snd]; [|by apply unsent_signalled]. destruct Hw as (-> & H2 & _).
  rewrite run_expect_some, Hs1. destruct (head (matching (active_for ticket_id) _)) as [row|] eqn:Er; cbn [fmap option_fmap option_map];
    [|by apply unsent_signalled].
  unfold step_request, worker_workflow. rewrite Ew. cbn [mbind option_bind]. rewrite Er. cbn [mbind option_bind fst snd].
  destruct (Workflow.status (row_to_workflow row)); cbn [route]; rewrite ?run_ret; try by apply unsent_signalled.
  - by apply run_send_transition.
  - rewrite run_bind. destruct (run_mark_pending ticket_id x y2 H2) as [H3 E3].
    destruct (mark_pending_feedback_comments ticket_id y2) as [[[]|] y3]; [|done]. cbn in H3.
    by apply run_send_transition.
Qed.
Lemma ready_signalled worker_id x :
  signalled (ready_request worker_id (tables (workflow_db x))) x (handle_awaiting_dispatch_readiness worker_id x).2.
Proof.
  unfold handle_awaiting_dispatch_readiness. rewrite run_bind.
  pose proof (run_read (λ s, worker_ticket worker_id s) x x (unsent_refl x)) as Ht.
  change (ticket_id_by_worker_id worker_id) with (select (worker_ticket worker_id)).
  destruct (of_sqlx _ x) as [[o|e] y1]; cbn [snd]; [|by apply unsent_signalled]. destruct Ht as (-> & H1 & Hs1).
  destruct (worker_ticket worker_id (tables (workflow_db x))) as [ticket_id|] eqn:Ew; [|rewrite run_ret; by apply unsent_signalled].
  rewrite run_bind. unfold get_workflow_by_ticket, get_workflow_by_ticket_inner.
  match goal with |- context [of_sqlx (workflows (select ?f)) y1] => pose proof (run_read f x y1 H1) as Hw end.
  destruct (of_sqlx _ y1) as [[o|e] y2]; cbn [snd]; [|by apply unsent_signalled]. destruct Hw as (-> & H2 & _).
  rewrite Hs1. destruct (head (matching (active_for ticket_id) _)) as [row|] eqn:Er; cbn [fmap option_fmap option_map];
    [|rewrite run_ret; by apply unsent_signalled].
  unfold ready_request, worker_workflow. rewrite Ew. cbn [mbind option_bind]. rewrite Er. cbn [mbind option_bind fst snd].
  unfold when. case_bool_decide as E; [rewrite E; by apply run_send_transition|]. rewrite run_ret. by apply unsent_signalled.
Qed.

(** On a working database the request is sent. *)
Lemma step_sent worker_id t s n h q :
  sent (handle_workflow_step_complete worker_id (Ctx t (Pool s [] n) h q true)).2
  = q ++ option_list (step_request worker_id s).
Proof.
  unfold handle_workflow_step_complete. rewrite run_bind, run_of_sqlx, run_workflows.
  change (ticket_id_by_worker_id worker_id) with (select (worker_ticket worker_id)). rewrite run_select. cbn [fst snd].
  unfold step_request, worker_workflow.
  destruct (worker_ticket worker_id s) as [ticket_id|]; [|rewrite run_ret; cbn; by rewrite app_nil_r].
  rewrite run_bind. unfold load_workflow. rewrite run_bind, run_of_sqlx, run_workflows.
  unfold get_workflow_by_ticket, get_workflow_by_ticket_inner. rewrite run_select. cbn [fst snd]. rewrite run_expect_some.
  cbn [mbind option_bind]. destruct (head (matching (active_for ticket_id) _)) as [row|];
    cbn [fmap option_fmap option_map mbind option_bind fst snd]; [|cbn; by rewrite app_nil_r].
  destruct (Workflow.status (row_to_workflow row)); cbn [route]; rewrite ?run_ret; try (cbn; by rewrite app_nil_r); [done|].
  rewrite run_bind. unfold mark_pending_feedback_comments at 1. rewrite run_bind, run_attempt, run_workflows.
  unfold get_pending_feedback_comments. rewrite run_select. cbn [fst snd].
  destruct (comments_where ticket_id _ s) as [|c cs]; [done|]. by rewrite run_ignore_err, run_workflows.
Qed.
Lemma ready_sent worker_id t s n h q :
  sent (handle_awaiting_dispatch_readiness worker_id (Ctx t (Pool s [] n) h q true)).2
  = q ++ option_list (ready_request worker_id s).
Proof.
  unfold handle_awaiting_dispatch_readiness. rewrite run_bind, run_of_sqlx, run_workflows.
  change (ticket_id_by_worker_id worker_id) with (select (worker_ticket worker_id)). rewrite run_select. cbn [fst snd].
  unfold ready_request, worker_workflow.
  destruct (worker_ticket worker_id s) as [ticket_id|]; [|rewrite run_ret; cbn; by rewrite app_nil_r].
  rewrite run_bind, run_of_sqlx, run_workflows. unfold get_workflow_by_ticket, get_workflow_by_ticket_inner.
  rewrite run_select. cbn [fst snd mbind option_bind]. destruct (head (matching (active_for ticket_id) _)) as [row|];
    cbn [fmap option_fmap option_map mbind option_bind fst snd]; [|cbn; by rewrite app_nil_r].
  unfold when. case_bool_decide as E; [by rewrite E|]. rewrite run_ret.
  destruct (Workflow.status (row_to_workflow row)); try done; cbn; by rewrite app_nil_r.
Qed.

(** C5: What the signals of an agent can ask for.  Whatever fails, the task of a completed step
    or of an idle worker sends at most one request: for the ticket the worker is
    bound to, and to the status that the ticket's active workflow leads to from
    where it is (verifying after implementing; after addressing feedback,
    implementing again or merging, as the feedback mode says; implementing from
    awaiting dispatch).  It changes no workflow, intent, worker or ticket, and when
    the database answers and the coordinator listens, the request is sent. *)
Theorem signals_ask_for_own_ticket t between (x : ctx host) :
  match t with StepComplete _ | DispatchReadiness _ => True | _ => False end →
  let y := (task_body self t between x).2 in
  signalled (signal_request t (tables (workflow_db x))) x y
  ∧ (faults (workflow_db x) = [] → receiving x = true →
     sent y = sent x ++ option_list (signal_request t (tables (workflow_db x)))).
Proof.
  intros Ht. destruct t as [w|w| | |]; [| |done..]; cbn [task_body signal_request]; split.
  - apply step_signalled.
  - destruct x as [t [s fs n] h q b]. cbn. intros -> ->. apply step_sent.
  - apply ready_signalled.
  - destruct x as [t [s fs n] h q b]. cbn. intros -> ->. apply ready_sent.
Qed.
End Signals.

Section Service.
Context {HE : Env} {HO : Host} {HP : PoolHost} {HW : WorkerHost} {HL : LaunchHost} {HJ : JoinOrder}.

(** ** Who is let in *)

(** C6: The check of a worker's identity.  A request is let in only with both headers, of which
    the identifier is the key of a worker's row and the secret is that row's; when
    the database answers, exactly these are; any failure of the database keeps
    everyone out, and the check changes nothing but the state of the connection. *)
Theorem worker_auth_spec (worker secret : header) (x : core host) :
  wwf (tables (workflow_db (core_ctx x))) →
  let '(r, y) := worker_auth_interceptor worker secret x in
  let registered_pair := ∃ w s row, worker = Some (Ok w) ∧ secret = Some (Ok s)
    ∧ WorkflowTables.worker (tables (workflow_db (core_ctx x))) !! w = Some row ∧ WorkerRow.worker_secret row = s in
  (r = Ok tt → registered_pair) ∧ (faults (workflow_db (core_ctx x)) = [] → registered_pair → r = Ok tt)
  ∧ tables (workflow_db (core_ctx y)) = tables (workflow_db (core_ctx x))
  ∧ (∀ e, r = Err e → ∃ msg, e = Refused (Status.unauthenticated msg)).
Proof.
  intros Hwf. unfold worker_auth_interceptor. rewrite run_bind.
  destruct worker as [[w|[]]|]; cbn [required_header];
    [rewrite run_ret|rewrite run_throw; split_and!; [naive_solver..|]; intros e [= <-]; by eexists..].
  rewrite run_bind. destruct secret as [[s|[]]|]; cbn [required_header];
    [rewrite run_ret|rewrite run_throw; split_and!; [naive_solver..|]; intros e [= <-]; by eexists..].
  rewrite run_bind. unfold in_ctx. rewrite !run_zoom.
  destruct x as [[[t [tb fs n] h q b] cl] reg ts]. cbn [view slots_lens pool_ctx_lens slots pool_ctx].
  rewrite run_attempt, run_workflows. unfold core_ctx in *. cbn in Hwf.
  pose (P := λ r : WorkerRow.t string, bool_decide (WorkerRow.worker_id r = w) && bool_decide (WorkerRow.worker_secret r = s)).
  assert ((∃ row, WorkflowTables.worker tb !! w = Some row ∧ WorkerRow.worker_secret row = s)
    ↔ (0 < Z.of_nat (length (matching P (WorkflowTables.worker tb))))%Z) as Hrow.
  { split.
    - intros (row & Hr & Hs). destruct (matching P (WorkflowTables.worker tb)) eqn:E; [|cbn; lia].
      exfalso. apply (not_elem_of_nil row). rewrite <-E. apply elem_of_matching. split; [|by eexists].
      unfold P. rewrite Hs, !bool_decide_true; [done..|]. by apply (proj2 (proj2 (proj2 (wwf_keys _ Hwf)))).
    - destruct (matching P (WorkflowTables.worker tb)) as [|row l] eqn:E; [cbn; lia|]. intros _.
      assert (row ∈ matching P (WorkflowTables.worker tb)) as Hin by (rewrite E; by left).
      apply elem_of_matching in Hin as [Hp [k Hk]]. apply andb_true_iff in Hp as [H1 H2].
      apply bool_decide_eq_true in H1, H2. exists row. split; [|done]. rewrite <-H1.
      by rewrite (proj2 (proj2 (proj2 (wwf_keys _ Hwf))) k row Hk). }
  unfold WorkerRepo.verify_worker. fold P. rewrite run_bind. unfold select, statement. cbn [faults tables].
  destruct fs as [|[] fs]; cbn [fst snd]; try rewrite !run_ret; cbn [fst snd].
  2: { split_and!; [done|done|done|]. intros e [= <-]. by eexists. }
  all: destruct (bool_decide_reflect (0 < Z.of_nat (length (matching P (WorkflowTables.worker tb))))%Z) as [Hlt|Hlt].
  all: cbn; split_and!; try done; try (intros e [= <-]; by eexists).
  all: try (intros _; apply Hrow in Hlt as (row & ? & ?); by exists w, s, row).
  intros _ (w' & s' & row & [= <-] & [= <-] & ? & ?). destruct Hlt. apply Hrow. by exists row.
Qed.

(** ** What is told about a worker *)

(** The status of a worker is looked up under the wrong identifier.  The directory of a
    running worker is found by the name of its process, which the request carries;
    but the agent's status and the runtime are read from the row whose worker
    identifier is that name.  A generated identifier never is, so both are empty,
    while the list of workers shows them. *)
Theorem worker_info_loses_status process_id row (x : core host) :
  faults (workflow_db (core_ctx x)) = [] →
  let rows := WorkflowTables.worker (tables (workflow_db (core_ctx x))) in
  wwf (tables (workflow_db (core_ctx x))) →
  rows !! WorkerRow.worker_id row = Some row → WorkerRow.process_id row = process_id →
  WorkerRow.container_status row = "running" → rows !! process_id = None →
  ∃ dir, (worker_info process_id x).1 = Ok (dir, "", "").
Proof.
  intros Hf rows Hwf Hi Hp Hst Hn. destruct x as [[[t [s fs n] h q b] cl] reg ts]. unfold core_ctx in *. cbn in Hf. subst fs rows.
  cbn [slots pool_ctx workflow_db tables] in *. set (P := λ r : WorkerRow.t string, bool_decide (WorkerRow.container_status r = "running")).
  set (rs := order_by by_worker_created (matching P (WorkflowTables.worker s))).
  assert (row ∈ rs) as Hin.
  { apply elem_of_order_by, elem_of_matching. split; [by apply bool_decide_eq_true|by eexists]. }
  destruct (workers_from_rows_Ok rs) as (ws & Hws & Hall).
  { apply Forall_forall. intros r Hr. apply elem_of_order_by, elem_of_matching in Hr as [_ [i Hr]].
    by apply (wwf_runtimes _ Hwf i). }
  assert (is_Some (list_find (λ w, WorkerRow.process_id w = process_id) ws)) as [[k w] Hw].
  { apply list_elem_of_lookup in Hin as [k Hk]. destruct (Forall2_lookup_l _ _ _ _ _ Hall Hk) as (w & Hwk & Hw).
    apply (list_find_elem_of _ _ w); [by eapply list_elem_of_lookup_2|]. rewrite <-Hp. unfold worker_from_row in Hw.
    destruct (WorkerRuntime.from_str _); [|done]. by injection Hw as <-. }
  exists (default "" (WorkerRow.workspace_path w)). unfold worker_info. rewrite run_bind. unfold calling, in_ctx.
  rewrite run_map_err, !run_zoom. cbn [view slots_lens pool_ctx_lens slots pool_ctx]. unfold get_workspace_dir.
  rewrite run_bind. unfold with_status, db_call. rewrite run_map_err, run_workflows.
  unfold list_workers_by_container_status, select_workers. rewrite run_bind, run_select, run_of_result. fold P rs. rewrite Hws.
  cbn [fst snd]. rewrite run_bind, run_ok_or, Hw. cbn [fst snd]. rewrite run_ret. cbn [fst snd].
  rewrite run_bind. unfold internal, in_ctx. rewrite run_map_err, !run_zoom. cbn [put view slots_lens pool_ctx_lens slots pool_ctx].
  rewrite run_workflows. unfold get_worker. rewrite run_bind, run_select, run_of_result, Hn. done.
Qed.
End Service.

(** ** Witnesses *)

Definition implementing_tables : wtables :=
  WorkflowTables.set_worker {[ "w1" := WorkerRow.set_container "c1" "running" "" (launching "w1") ]}
    (WorkflowTables.set_workflow {[ "a" := test_workflow "implementing" 0 "" "" "" ]} WorkflowTables.empty).
Lemma signals_ask_for_own_ticket_witness :
  sent (@task_body test_env test_host test_launcher (StepComplete "w1") [] (launch_ctx implementing_tables)).2
  = [TransitionRequest.mk "ur-1" LifecycleStatus.Verifying].
Proof.
  destruct (@signals_ask_for_own_ticket test_env test_host test_launcher (StepComplete "w1") [] (launch_ctx implementing_tables) I)
    as [_ Hs]. rewrite (Hs eq_refl eq_refl). reflexivity.
Defined.
Lemma implementing_wwf : wwf implementing_tables.
Proof.
  split; [|done|done|done|].
  - split_and!; [by apply map_Forall_singleton|done|done|by apply map_Forall_singleton].
  - apply map_Forall_singleton. by left.
Qed.
Lemma worker_auth_spec_witness :
  (@worker_auth_interceptor test_host (Some (Ok "w1")) (Some (Ok "secret")) (launch_core (launch_ctx implementing_tables))).1
  = Ok tt.
Proof.
  pose proof (@worker_auth_spec test_host (Some (Ok "w1")) (Some (Ok "secret"))
    (launch_core (launch_ctx implementing_tables)) implementing_wwf) as Hs. revert Hs.
  destruct (worker_auth_interceptor _ _ _) as [r y]. intros (_ & Hs & _). apply (Hs eq_refl).
  exists "w1", "secret", (WorkerRow.set_container "c1" "running" "" (launching "w1")). by split_and!.
Defined.
Lemma worker_info_loses_status_witness :
  ∃ dir, (@worker_info test_env test_host "p-w1" (launch_core (launch_ctx implementing_tables))).1 = Ok (dir, "", "").
Proof.
  apply (@worker_info_loses_status test_env test_host "p-w1" (WorkerRow.set_container "c1" "running" "" (launching "w1")));
    [reflexivity|exact implementing_wwf|reflexivity..].
Defined.
