(* ===== verification/HostExec.v ===== *)
(** * Commands of workers on the host

    [server/src/hostexec] and [grpc_hostexec.rs]: which commands and scripts a
    worker may run on the host, the transformation of a command by a Lua script, the
    mapping of the worker's directories to the host's, and the request that is
    forwarded to the builder daemon; and [builderd]'s resolution of the directory.

    The Lua interpreter, the scripts' texts and the directory of scripts are
    parameters ([LuaVm], [ScriptFiles]). *)

From S2P Require Import Prelude RustStd Model Env Agent UrConfig TicketDb WorkflowDb WorkerRepo Context Host Pool.
From S2P Require Import RunOpts WorkerManager LaunchService.
From Stdlib Require Import Ascii.
Local Open Scope stdpp_scope.

(** ** Lua scripts *)

Module WorkerCtx.
Record t : Type := mk {
  worker_id : string;
  process_id : string;
  project_key : string;
  slot_path : string;
  branch : string;
  allow_no_verify : bool
}.
End WorkerCtx.
Module TransformResult.
Record t : Type := mk { command : string; args : list string; working_dir : string; env : gmap string string }.
End TransformResult.
Module LuaCommandMetadata.
Record t : Type := mk { long_lived : bool; bidi : bool }.
End LuaCommandMetadata.

(** [mlua::Value], as far as the code tells values apart. *)
Inductive lua_value (T F : Type) : Type :=
| Nil
| Boolean (b : bool)
| Table (t : T)
| Function_ (f : F)
| OtherValue.
Arguments Nil {T F}.
Arguments Boolean {T F}.
Arguments Table {T F}.
Arguments Function_ {T F}.
Arguments OtherValue {T F}.

(** The interpreter: a virtual machine with the sandbox's libraries, its globals,
    calls, and what a table holds; errors are their texts. *)
Class LuaVm : Type := {
  lua_vm : Type;
  lua_table : Type;
  lua_function : Type;
  lua_new : result lua_vm string;
  lua_exec : string → lua_vm → result lua_vm string;
  lua_global : lua_vm → string → result (lua_value lua_table lua_function) string;
  lua_global_function : lua_vm → string → result lua_function string;
  lua_call : lua_vm → lua_function → string → list string → string → option WorkerCtx.t →
    result (lua_value lua_table lua_function) string;
  table_string : lua_table → string → result string string;
  table_value : lua_table → string → result (lua_value lua_table lua_function) string;
  table_len : lua_table → result nat string;
  table_item : lua_table → nat → result string string;
  table_pairs : lua_table → list (result (string * string) string)
}.

Section Lua.
Context `{LuaVm}.

(** [.map_err(|e| anyhow!("{what}: {e}"))] *)
Definition saying {A} (what : string) (r : result A string) : result A string :=
  match r with Ok a => Ok a | Err e => Err (what +:+ ": " +:+ e) end.
Definition create_sandbox : result lua_vm string := saying "creating lua vm" lua_new.

Definition extract_args (value : lua_value lua_table lua_function) : result (list string) string :=
  match value with
  | Table tbl =>
      let? len := saying "getting args table len" (table_len tbl) in
      collect_results ((λ i, saying ("args[" +:+ pretty i +:+ "] must be a string") (table_item tbl i)) <$> seq 1 len)
  | _ => Err "'args' field must be a table"
  end.
Definition extract_env (value : lua_value lua_table lua_function) : result (gmap string string) string :=
  match value with
  | Nil => Ok ∅
  | Table tbl =>
      let? pairs := collect_results (saying "env entries must be string key-value pairs" <$> table_pairs tbl) in
      Ok (foldl (λ m kv, <[kv.1 := kv.2]> m) ∅ pairs)
  | _ => Err "'env' field must be a table or nil"
  end.

Definition run_transform (lua_source command : string) (args : list string) (working_dir : string)
    (worker_context : option WorkerCtx.t) : result TransformResult.t string :=
  let? vm := create_sandbox in
  let? vm := saying "loading lua script" (lua_exec lua_source vm) in
  let? transform := saying "lua script must define a transform function" (lua_global_function vm "transform") in
  let? res := saying "lua transform failed" (lua_call vm transform command args working_dir worker_context) in
  match res with
  | Table tbl =>
      let? command := saying "missing or invalid 'command' field (expected string)" (table_string tbl "command") in
      let? args_value := saying "missing 'args' field" (table_value tbl "args") in
      let? args := extract_args args_value in
      let? working_dir := saying "missing or invalid 'working_dir' field (expected string)" (table_string tbl "working_dir") in
      let? env_value := saying "reading 'env' field" (table_value tbl "env") in
      let? env := extract_env env_value in
      Ok (TransformResult.mk command args working_dir env)
  | _ => Err "lua transform must return a table"
  end.

Definition read_boolean_global (vm : lua_vm) (key : string) : result bool string :=
  let? value := saying ("reading " +:+ key) (lua_global vm key) in
  match value with
  | Nil => Ok false
  | Boolean b => Ok b
  | _ => Err (key +:+ " must be a boolean")
  end.
Definition read_metadata (lua_source : string) : result LuaCommandMetadata.t string :=
  let? vm := create_sandbox in
  let? vm := saying "loading lua script" (lua_exec lua_source vm) in
  let? transform := saying "reading transform function" (lua_global vm "transform") in
  match transform with
  | Function_ _ =>
      let? long_lived := read_boolean_global vm "long_lived" in
      let? bidi := read_boolean_global vm "bidi" in
      Ok (LuaCommandMetadata.mk long_lived bidi)
  | _ => Err "lua script must define a transform function"
  end.
End Lua.

(** ** The commands *)

Module CommandConfig.
Record t : Type := mk { lua_source : option string; long_lived : bool; bidi : bool }.
Definition passthrough : t := mk None false false.
End CommandConfig.

(** The directory of scripts: nothing when it does not exist; and the texts of the
    built-in scripts. *)
Class ScriptFiles {HO : Host} : Type := {
  read_dir : string → host → result (option (list string)) string;
  is_file : string → host → result bool string;
  read_to_string : string → host → result string string;
  default_script : string → string
}.

(** [Path::extension] and [Path::file_stem] *)
Definition path_extension (p : string) : option string :=
  name ← path_file_name p;
  match rfind_char "."%char name with
  | Some (S i) => Some (str_drop (S (S i)) name)
  | _ => None
  end.
Definition path_file_stem (p : string) : option string :=
  name ← path_file_name p;
  match rfind_char "."%char name with
  | Some (S i) => Some (str_take (S i) name)
  | _ => Some name
  end.
Definition is_ascii_alphanumeric (c : ascii) : bool :=
  is_ascii_lowercase c || is_ascii_lowercase (to_ascii_lowercase_char c) || is_ascii_digit c.
Definition command_name (path : string) : result string string :=
  match path_file_stem path with
  | Some name =>
      if bool_decide (name = "")
         || negb (all_chars (λ c, is_ascii_alphanumeric c || bool_decide (c ∈ ["."; "_"; "-"]%char)) name)
      then Err ("invalid hostexec command filename " +:+ path)
      else Ok name
  | None => Err ("invalid hostexec command filename " +:+ path)
  end.

Definition DEFAULT_COMMAND_NAMES : list string :=
  ["bazel"; "cargo"; "docker"; "gh"; "git"; "go"; "make"; "npm"; "pnpm"; "tsc"; "ur"].
Definition HOSTEXEC_DIR : string := "hostexec".

Module HostExecConfigManager.
Section Manager.
Context {HO : Host} {HF : ScriptFiles} {HV : LuaVm}.

(** [LuaDiscoveryManager::discover]; an error with context shows the context. *)
Fixpoint discover_entries (paths : list string) (h : host) : result (list (string * CommandConfig.t)) string :=
  match paths with
  | [] => Ok []
  | path :: paths =>
      if negb (bool_decide (path_extension path = Some "lua")) then discover_entries paths h
      else match is_file path h with
      | Err _ => Err ("reading metadata for " +:+ path)
      | Ok false => discover_entries paths h
      | Ok true =>
          let? name := command_name path in
          match read_to_string path h with
          | Err _ => Err ("reading lua script " +:+ path)
          | Ok lua_source =>
              match read_metadata lua_source with
              | Err _ => Err ("validating lua script " +:+ path)
              | Ok m =>
                  let? rest := discover_entries paths h in
                  Ok ((name, CommandConfig.mk (Some lua_source) (LuaCommandMetadata.long_lived m)
                               (LuaCommandMetadata.bidi m)) :: rest)
              end
          end
      end
  end.
Definition discover (hostexec_dir : string) (h : host) : result (list (string * CommandConfig.t)) string :=
  match read_dir hostexec_dir h with
  | Ok None => Ok []
  | Err _ => Err ("reading hostexec directory " +:+ hostexec_dir)
  | Ok (Some entries) => discover_entries (merge_sort String.le entries) h
  end.

(** The commands, and whether scripts are discovered. *)
Record t : Type := mk { commands : gmap string CommandConfig.t; discovery : bool }.

Definition builtins : gmap string CommandConfig.t :=
  let script name bidi := CommandConfig.mk (Some (default_script name)) false bidi in
  list_to_map [("git", script "git" false); ("gh", script "gh" true); ("cargo", script "cargo" false);
    ("docker", script "docker" false); ("ur", script "ur" false); ("make", script "make" false);
    ("go", script "go" false); ("bazel", script "bazel" false); ("npm", script "npm" false);
    ("pnpm", script "pnpm" false); ("tsc", script "tsc" false); ("tea", script "tea" false)].
Definition load (config_dir : string) (h : host) : result t string :=
  let? found := discover (path_join config_dir HOSTEXEC_DIR) h in
  Ok (mk (foldl (λ m nc, <[nc.1 := nc.2]> m) builtins found) true).
Definition reload (c : t) (config_dir : string) (h : host) : result t string :=
  if discovery c then load config_dir h else Err "hostexec discovery is not configured".
End Manager.
Definition empty : t := mk ∅ false.
Definition effective_defaults (c : t) : gmap string CommandConfig.t :=
  list_to_map (omap (λ name, (λ cfg, (name, cfg)) <$> commands c !! name) DEFAULT_COMMAND_NAMES).
Definition defaults_only (c : t) : t := mk (effective_defaults c) (discovery c).

(** The defaults, with the forge's tool, what the project grants, and without what
    it denies. *)
Definition with_forge (c : t) (forge : option ForgeType) (m : gmap string CommandConfig.t) : gmap string CommandConfig.t :=
  if bool_decide (forge = Some ForgeType.Gitea)
  then delete "gh" (<["tea" := default CommandConfig.passthrough (commands c !! "tea")]> m)
  else m.
Definition grant (c : t) (m : gmap string CommandConfig.t) (name : string) : gmap string CommandConfig.t :=
  match commands c !! name, m !! name with
  | Some cfg, _ => <[name := cfg]> m
  | None, Some _ => m
  | None, None => <[name := CommandConfig.passthrough]> m
  end.
Definition with_project_commands (c : t) (granted denied : list string) (forge : option ForgeType) : t :=
  mk (foldl (λ m name, delete name m) (foldl (grant c) (with_forge c forge (effective_defaults c)) granted) denied)
    (discovery c).

Definition is_allowed (c : t) (command : string) : bool := bool_decide (is_Some (commands c !! command)).
Definition get (c : t) (command : string) : option CommandConfig.t := commands c !! command.
Definition command_names (c : t) : list string := merge_sort String.le (map_to_list (commands c)).*1.
Definition command_entries (c : t) : list (string * bool) :=
  (λ name, (name, from_option CommandConfig.bidi false (commands c !! name))) <$> command_names c.
End HostExecConfigManager.

(** ** The projects' scripts *)

(** [ScriptRegistry]: per project the scripts it allows. *)
Definition script_registry : Type := gmap string (gset string).
Definition from_projects (projects : gmap string ProjectConfig.t) : script_registry :=
  (λ p, list_to_set (ProjectConfig.hostexec_scripts p)) <$> projects.
Definition allows (r : script_registry) (project_key rel_path : string) : bool :=
  let normalized := default rel_path (strip_prefix "./" rel_path) in
  match r !! project_key with Some s => bool_decide (normalized ∈ s) | None => false end.

(** ** Directories and scripts *)

Module HostExecError.
Inductive t : Type :=
| CommandNotAllowed (command : string)
| TransformRejected (reason : string)
| BuilderdUnavailable
| BuilderdExecFailed (message : string)
| InvalidWorkerId (reason : string)
| WorkerNotFound (worker_id : string)
| InvalidWorkingDir (path reason : string)
| MissingStartFrame
| ScriptNotAllowed (script project : string).

Definition to_string (e : t) : string :=
  match e with
  | CommandNotAllowed command => "command not allowed: " +:+ command
  | TransformRejected reason => "transform rejected: " +:+ reason
  | BuilderdUnavailable => "builderd unavailable"
  | BuilderdExecFailed message => "builderd exec failed: " +:+ message
  | InvalidWorkerId reason => "invalid worker ID: " +:+ reason
  | WorkerNotFound worker_id => "worker not found: " +:+ worker_id
  | InvalidWorkingDir path reason => "invalid working directory " +:+ path +:+ ": " +:+ reason
  | MissingStartFrame => "missing start frame"
  | ScriptNotAllowed script project => "script not allowed: " +:+ script +:+ " for project " +:+ project
  end.

Definition DOMAIN_HOSTEXEC : string := "ur.hostexec".
(** [From<HostExecError> for Status]; permission denied by its number. *)
Definition to_status (e : t) : Status.t :=
  let status c reason meta := Status.status_with_info c (to_string e) DOMAIN_HOSTEXEC reason meta in
  match e with
  | CommandNotAllowed command => status (Status.OtherCode 7) "COMMAND_NOT_ALLOWED" {[ "command" := command ]}
  | TransformRejected _ => status Status.InvalidArgument "TRANSFORM_REJECTED" ∅
  | BuilderdUnavailable => status Status.Unavailable "BUILDERD_UNAVAILABLE" ∅
  | BuilderdExecFailed _ => status Status.Internal "INTERNAL" ∅
  | InvalidWorkerId _ => status Status.InvalidArgument "INVALID_ARGUMENT" ∅
  | WorkerNotFound worker_id => status Status.NotFound "NOT_FOUND" {[ "worker_id" := worker_id ]}
  | InvalidWorkingDir path _ => status Status.InvalidArgument "INVALID_ARGUMENT" {[ "path" := path ]}
  | MissingStartFrame => status Status.InvalidArgument "INVALID_ARGUMENT" ∅
  | ScriptNotAllowed script project =>
      status (Status.OtherCode 7) "SCRIPT_NOT_ALLOWED" {[ "script" := script; "project" := project ]}
  end.
End HostExecError.

Definition BRAIN_HOSTEXEC_COMMAND : string := "git".
(** [s.strip_prefix(p)] when nothing or a slash follows. *)
Definition below (p s : string) : option string :=
  match strip_prefix p s with
  | Some rest => if bool_decide (rest = "") || starts_with "/" rest then Some rest else None
  | None => None
  end.
Definition is_brain_dir (container_dir : string) : bool :=
  bool_decide (is_Some (below BRAIN_CONTAINER_PATH container_dir)).
Fixpoint trim_start_char (c : ascii) (s : string) : string :=
  match s with
  | String c' s' => if decide (c' = c) then trim_start_char c s' else s
  | EmptyString => EmptyString
  end.
Definition map_brain_working_dir_impl (container_dir brain_host_path : string) : result string HostExecError.t :=
  match below BRAIN_CONTAINER_PATH container_dir with
  | None => Err (HostExecError.InvalidWorkingDir container_dir "working_dir must start with /brain")
  | Some rest =>
      let rel := trim_start_char "/"%char rest in
      if bool_decide (".." ∈ split "/" rel)
      then Err (HostExecError.InvalidWorkingDir container_dir "working_dir must not contain '..'")
      else Ok (if bool_decide (rel = "") then brain_host_path else path_join brain_host_path rel)
  end.

Definition validate_script_path (script_path : string) : result string string :=
  match strip_prefix "/workspace/" script_path with
  | None => Err ("script_path must start with /workspace/: " +:+ script_path)
  | Some rel =>
      if bool_decide (rel = "") then Err ("script_path must not be /workspace/ alone: " +:+ script_path)
      else if existsb (λ segment, bool_decide (segment = ".." ∨ segment = "")) (split "/" rel)
      then Err ("script_path contains invalid segment: " +:+ script_path)
      else Ok rel
  end.

(** Below the workspace's template, for a slot of the pool by the rest of its path;
    an absolute path for another workspace. *)
Definition WORKSPACE_TEMPLATE : string := "%WORKSPACE%".
Definition map_working_dir_impl (container_dir : string) (slot_path : option string) (host_workspace : string)
    : result string HostExecError.t :=
  match strip_prefix "/workspace" container_dir with
  | None => Err (HostExecError.InvalidWorkingDir container_dir "working_dir must start with /workspace")
  | Some suffix =>
      if negb (bool_decide (suffix = "")) && negb (starts_with "/" suffix)
      then Err (HostExecError.InvalidWorkingDir container_dir "invalid working_dir")
      else match slot_path with
      | Some sp =>
          match strip_prefix host_workspace sp with
          | Some rel =>
              let slot_relative := trim_start_char "/"%char rel in
              Ok (WORKSPACE_TEMPLATE +:+ (if bool_decide (slot_relative = "") then "" else "/" +:+ slot_relative)
                  +:+ suffix)
          | None => Ok (sp +:+ suffix)
          end
      | None => Ok (WORKSPACE_TEMPLATE +:+ suffix)
      end
  end.
Definition map_script_path_impl : string → option string → string → result string HostExecError.t :=
  map_working_dir_impl.

(** ** The service *)

Module HostExecRequest.
Record t : Type := mk { command : string; args : list string; working_dir : string; script_path : string }.
End HostExecRequest.
(** A frame of the worker's stream; [None] when it has no payload. *)
Module HostExecMessage.
Inductive t : Type := Start (r : HostExecRequest.t) | Stdin (data : string) | NoPayload.
End HostExecMessage.
Module ExecRequest.
Record t : Type := mk {
  command : string; args : list string; working_dir : string; env : gmap string string; long_lived : bool
}.
End ExecRequest.

(** The builder daemon's exec: the start frame and the input; the frames of the
    answer. *)
Class ExecHost {HO : Host} : Type := {
  builderd_exec : ExecRequest.t → list string → SE host Status.t (list (result Frame.t Status.t))
}.

(** Frames up to the first error. *)
Fixpoint until_error {A E} (l : list (result A E)) : list A :=
  match l with Ok a :: l => a :: until_error l | _ => [] end.
(** [forward_stdin_to_builder] *)
Definition stdin_frames (inbound : list (result HostExecMessage.t Status.t)) : list string :=
  omap (λ m, match m with HostExecMessage.Stdin data => Some data | _ => None end) (until_error inbound).

Module HostExecServiceHandler.
Record t : Type := mk {
  projects : gmap string ProjectConfig.t;
  hostexec_config : HostExecConfigManager.t;
  script_registry : HostExec.script_registry;
  host_workspace : string;
  git_branch_prefix : string
}.
End HostExecServiceHandler.

Section Service.
Context {HE : Env} {HO : Host} {HV : LuaVm} {HX : ExecHost}.
Context (self : HostExecServiceHandler.t).
Import HostExecServiceHandler.
Abbreviation run A := (SE (ctx host) Status.t A).
Definition failing {A} (e : HostExecError.t) : run A := throw (HostExecError.to_status e).
Definition or_fail {A} (r : result A HostExecError.t) : run A := map_err HostExecError.to_status (of_result r).
Definition never {A} (m : SE (ctx host) Empty_set A) : run A :=
  map_err (λ e : Empty_set, match e with end) m.

Definition forward_to_builderd (t : TransformResult.t) (long_lived is_bidi : bool)
    (inbound : list (result HostExecMessage.t Status.t)) : run (list Frame.t) :=
  frames ← map_err (λ s, HostExecError.to_status (HostExecError.BuilderdExecFailed (status_display s)))
    (external (builderd_exec
       (ExecRequest.mk (TransformResult.command t) (TransformResult.args t) (TransformResult.working_dir t)
          (TransformResult.env t) long_lived)
       (if is_bidi then stdin_frames inbound else [])));
  mret (until_error frames).

(** Who asks: the process, the context scripts see, and the commands it has. *)
Definition resolve_request_context (worker : header)
    : run (string * option WorkerCtx.t * HostExecConfigManager.t) :=
  match worker with
  | None => mret ("", None, hostexec_config self)
  | Some (Err _) => failing (HostExecError.InvalidWorkerId "invalid ur-worker-id header encoding")
  | Some (Ok worker_id_str) =>
      worker_id ← or_fail (match WorkerId.parse worker_id_str with
                           | Ok w => Ok w
                           | Err e => Err (HostExecError.InvalidWorkerId e)
                           end);
      process_id ← map_err (λ e, HostExecError.to_status (HostExecError.WorkerNotFound e)) (resolve_process_id worker_id);
      proc_context ← never (get_worker_context worker_id);
      mret (match proc_context with
            | Some ctx =>
                match WorkerContext.project_key ctx with
                | Some project_key =>
                    let branch := match WorkerStrategy.from_name (WorkerContext.strategy ctx) with
                                  | Ok WorkerStrategy.Manual => ""
                                  | _ => git_branch_prefix self +:+ worker_id_str
                                  end in
                    let p := projects self !! project_key in
                    (process_id,
                     Some (WorkerCtx.mk worker_id_str process_id project_key (WorkerContext.slot_path ctx) branch
                             (from_option ProjectConfig.allow_no_verify false p)),
                     HostExecConfigManager.with_project_commands (hostexec_config self)
                       (from_option ProjectConfig.hostexec [] p) (from_option ProjectConfig.hostexec_deny [] p)
                       (p ≫= ProjectConfig.resolve_forge))
                | None =>
                    (process_id,
                     Some (WorkerCtx.mk worker_id_str process_id "" (WorkerContext.slot_path ctx) "" false),
                     HostExecConfigManager.defaults_only (hostexec_config self))
                end
            | None => (process_id, None, HostExecConfigManager.defaults_only (hostexec_config self))
            end)
  end.

Definition brain_host_path (worker_context : option WorkerCtx.t) : run (option string) :=
  match worker_context with
  | None => mret None
  | Some c =>
      match WorkerId.parse (WorkerCtx.worker_id c) with
      | Err _ => mret None
      | Ok worker_id => ctx ← never (get_worker_context worker_id); mret (ctx ≫= WorkerContext.brain_path)
      end
  end.
Definition map_working_dir (container_dir : string) (slot_path : option string) : result string HostExecError.t :=
  map_working_dir_impl container_dir slot_path (host_workspace self).

(** The directory of a command on the host. *)
Definition command_dir (req : HostExecRequest.t) (worker_context : option WorkerCtx.t) : run string :=
  let dir := HostExecRequest.working_dir req in
  if is_brain_dir dir then
    if negb (bool_decide (HostExecRequest.command req = BRAIN_HOSTEXEC_COMMAND))
    then failing (HostExecError.InvalidWorkingDir dir ("only " +:+ BRAIN_HOSTEXEC_COMMAND +:+ " may run in /brain"))
    else
      brain ← brain_host_path worker_context;
      match brain with
      | None => failing (HostExecError.InvalidWorkingDir dir "worker has no brain mount")
      | Some brain => or_fail (map_brain_working_dir_impl dir brain)
      end
  else or_fail (map_working_dir dir (WorkerCtx.slot_path <$> worker_context)).
(** The command as its script transforms it. *)
Definition transformed (cfg : CommandConfig.t) (req : HostExecRequest.t) (host_working_dir : string)
    (worker_context : option WorkerCtx.t) : result TransformResult.t HostExecError.t :=
  match CommandConfig.lua_source cfg with
  | Some lua_source =>
      match run_transform lua_source (HostExecRequest.command req) (HostExecRequest.args req) host_working_dir
              worker_context with
      | Ok t => Ok t
      | Err e => Err (HostExecError.TransformRejected e)
      end
  | None => Ok (TransformResult.mk (HostExecRequest.command req) (HostExecRequest.args req) host_working_dir ∅)
  end.
Definition exec_command (req : HostExecRequest.t) (worker_context : option WorkerCtx.t)
    (config : HostExecConfigManager.t) (inbound : list (result HostExecMessage.t Status.t)) : run (list Frame.t) :=
  cfg ← or_fail (match HostExecConfigManager.get config (HostExecRequest.command req) with
                 | Some cfg => Ok cfg
                 | None => Err (HostExecError.CommandNotAllowed (HostExecRequest.command req))
                 end);
  host_working_dir ← command_dir req worker_context;
  t ← or_fail (transformed cfg req host_working_dir worker_context);
  forward_to_builderd t (CommandConfig.long_lived cfg) (CommandConfig.bidi cfg) inbound.

Definition exec_script (req : HostExecRequest.t) (worker_context : option WorkerCtx.t)
    (inbound : list (result HostExecMessage.t Status.t)) : run (list Frame.t) :=
  let script := HostExecRequest.script_path req in
  let slot_path := WorkerCtx.slot_path <$> worker_context in
  match WorkerCtx.project_key <$> worker_context with
  | None | Some "" => failing (HostExecError.ScriptNotAllowed script "")
  | Some project_key =>
      rel_path ← map_err Status.invalid_argument (of_result (validate_script_path script));
      if negb (allows (script_registry self) project_key rel_path)
      then failing (HostExecError.ScriptNotAllowed script project_key)
      else
        script_template ← or_fail (map_script_path_impl script slot_path (host_workspace self));
        host_working_dir ← or_fail (map_working_dir (HostExecRequest.working_dir req) slot_path);
        forward_to_builderd (TransformResult.mk script_template (HostExecRequest.args req) host_working_dir ∅)
          false false inbound
  end.

Definition exec (worker : header) (inbound : list (result HostExecMessage.t Status.t)) : run (list Frame.t) :=
  x ← resolve_request_context worker;
  let '(process_id, worker_context, config) := x in
  match inbound with
  | [] => failing HostExecError.MissingStartFrame
  | Err e :: _ =>
      failing (HostExecError.BuilderdExecFailed ("stream error reading start frame: " +:+ status_display e))
  | Ok (HostExecMessage.Start req) :: inbound =>
      match bool_decide (HostExecRequest.command req = ""), bool_decide (HostExecRequest.script_path req = "") with
      | false, false | true, true =>
          throw (Status.invalid_argument "exactly one of command or script_path must be set")
      | false, true => exec_command req worker_context config inbound
      | true, false => exec_script req worker_context inbound
      end
  | Ok _ :: _ => failing HostExecError.MissingStartFrame
  end.
Definition list_commands (worker : header) : run (list string * list (string * bool)) :=
  x ← resolve_request_context worker;
  mret (HostExecConfigManager.command_names x.2, HostExecConfigManager.command_entries x.2).
End Service.

(** ** The builder daemon's side *)

Definition resolve_workspace_content (content workspace : string) : string :=
  join workspace (split WORKSPACE_TEMPLATE content).
(** [BuilderDaemonHandler::resolve_working_dir] *)
Definition resolve_working_dir (workspace : option string) (working_dir : string) : string :=
  match workspace with
  | Some w => if contains WORKSPACE_TEMPLATE working_dir then resolve_workspace_content working_dir w else working_dir
  | None => working_dir
  end.

(** * What workers may run on the host

    The commands a project's worker has; what the server forwards for a worker; the
    directories a forwarded request runs in, on both sides; and the directory
    mapping that leaves the workspace. *)

From S2P Require Import TextLemmas.
From S2P Require Import TestWorld PoolProps WorkerManagerProps.
From Stdlib Require Import Ascii Lia.

(** ** Which commands *)

Section Commands.
Implicit Types (c : HostExecConfigManager.t) (m : gmap string CommandConfig.t).
Import HostExecConfigManager.

(** Every command has its configured settings, or none are configured. *)
Definition configured c m : Prop :=
  ∀ name cfg, m !! name = Some cfg → cfg = default CommandConfig.passthrough (commands c !! name).

Lemma lookup_effective_defaults c name :
  effective_defaults c !! name = if decide (name ∈ DEFAULT_COMMAND_NAMES) then commands c !! name else None.
Proof.
  unfold effective_defaults. case_decide as Hin.
  - destruct (commands c !! name) as [cfg|] eqn:E.
    + apply elem_of_list_to_map_1'; [|apply list_elem_of_omap; exists name; by rewrite E].
      intros y (x & Hx & Hy)%list_elem_of_omap. destruct (commands c !! x) eqn:Ex; [|done]. cbn in Hy. congruence.
    + apply not_elem_of_list_to_map_1. intros (x & -> & (n & _ & Hn)%list_elem_of_omap)%list_elem_of_fmap.
      destruct (commands c !! n) eqn:En; [|done]. cbn in *. injection Hn as <-. cbn in E. congruence.
  - apply not_elem_of_list_to_map_1. intros (x & -> & (n & Hn & Hx)%list_elem_of_omap)%list_elem_of_fmap.
    destruct (commands c !! n) eqn:En; [|done]. cbn in Hx. by injection Hx as <-.
Qed.
Lemma configured_defaults c : configured c (effective_defaults c).
Proof.
  intros name cfg. rewrite lookup_effective_defaults. case_decide; [|done]. by intros ->.
Qed.
Lemma configured_forge c forge m : configured c m → configured c (with_forge c forge m).
Proof.
  intros Hm name cfg. unfold with_forge. case_bool_decide; [|apply Hm].
  rewrite lookup_delete_Some, lookup_insert_Some. intros [_ [[<- <-]|[_ Hn]]]; [done|by apply Hm].
Qed.
Lemma grant_spec c m name : configured c m →
  configured c (grant c m name)
  ∧ ∀ n, is_Some (grant c m name !! n) ↔ n = name ∨ is_Some (m !! n).
Proof.
  intros Hm. unfold grant. destruct (commands c !! name) as [cfg|] eqn:E; [|destruct (m !! name) as [cfg|] eqn:Em].
  - split.
    + intros n cfg'. rewrite lookup_insert_Some. intros [[<- <-]|[_ Hn]]; [by rewrite E|by apply Hm].
    + intros n. rewrite lookup_insert_is_Some'. naive_solver.
  - split; [done|]. intros n. split; [by right|]. intros [->|?]; [by eexists|done].
  - split.
    + intros n cfg'. rewrite lookup_insert_Some. intros [[<- <-]|[_ Hn]]; [by rewrite E|by apply Hm].
    + intros n. rewrite lookup_insert_is_Some'. naive_solver.
Qed.
Lemma grants_spec c granted m : configured c m →
  configured c (foldl (grant c) m granted)
  ∧ ∀ n, is_Some (foldl (grant c) m granted !! n) ↔ n ∈ granted ∨ is_Some (m !! n).
Proof.
  revert m. induction granted as [|name granted IH]; intros m Hm; cbn; [set_solver|].
  destruct (grant_spec c m name Hm) as [H1 H2]. destruct (IH _ H1) as [H3 H4]. split; [done|].
  intros n. rewrite H4, H2. set_solver.
Qed.
Lemma denials_spec denied m n :
  foldl (λ m name, delete name m) m denied !! n = if decide (n ∈ denied) then None else m !! n.
Proof.
  revert m. induction denied as [|name denied IH]; intros m; cbn; [by case_decide; [set_solver|]|].
  rewrite IH. destruct (decide (n = name)) as [->|Hne].
  - rewrite lookup_delete_eq. case_decide; [|by rewrite decide_True by set_solver]. by rewrite decide_True by set_solver.
  - rewrite lookup_delete_ne by done. case_decide; [by rewrite decide_True by set_solver|].
    by rewrite decide_False by set_solver.
Qed.

(** The commands of a project's worker.  It has the configured defaults (with
    [tea] for [gh] when the project's forge is Gitea) and what its project grants,
    without what its project denies: a denied command is never there, whoever else
    names it.  A command that is configured keeps its settings, so no grant can shed
    the script that checks its arguments; only an unknown one is passed through. *)
Theorem project_commands_spec c granted denied forge name :
  let p := with_project_commands c granted denied forge in
  (is_allowed p name = true ↔ (name ∉ denied)
    ∧ (name ∈ granted ∨ (forge = Some ForgeType.Gitea ∧ name = "tea")
       ∨ (name ∈ DEFAULT_COMMAND_NAMES ∧ is_allowed c name = true ∧ ¬ (forge = Some ForgeType.Gitea ∧ name = "gh"))))
  ∧ (∀ cfg, get p name = Some cfg → cfg = default CommandConfig.passthrough (get c name)).
Proof.
  intros p. unfold p, is_allowed, get, with_project_commands. cbn [commands].
  pose proof (configured_forge c forge _ (configured_defaults c)) as Hf.
  destruct (grants_spec c granted _ Hf) as [Hc Hg]. rewrite denials_spec. split.
  - rewrite !bool_decide_eq_true. case_decide as Hd; [split; [by intros []|naive_solver]|].
    rewrite Hg. assert (is_Some (with_forge c forge (effective_defaults c) !! name)
      ↔ (forge = Some ForgeType.Gitea ∧ name = "tea")
        ∨ (name ∈ DEFAULT_COMMAND_NAMES ∧ is_Some (commands c !! name) ∧ ¬ (forge = Some ForgeType.Gitea ∧ name = "gh"))) as ->;
      [|naive_solver].
    unfold with_forge. case_bool_decide as Hg'.
    + rewrite lookup_delete_is_Some, lookup_insert_is_Some', lookup_effective_defaults.
      destruct (decide (name = "tea")) as [->|Ht]; [naive_solver|].
      case_decide; [naive_solver|]. split; [intros (? & [?|[]%is_Some_None]); naive_solver|naive_solver].
    + rewrite lookup_effective_defaults. case_decide; [naive_solver|]. split; [by intros []|naive_solver].
  - intros cfg. case_decide; [done|]. apply Hc.
Qed.
End Commands.

(** ** What is forwarded *)

Section Forwarding.
Context {HE : Env} {HO : Host} {HV : LuaVm} {HX : ExecHost} (self : HostExecServiceHandler.t).
Import HostExecServiceHandler.
Abbreviation run A := (SE (ctx host) Status.t A).
Implicit Types (s : wtables) (x y : ctx host).

(** The commands of the worker of a row. *)
Definition worker_commands (project_key : string) : HostExecConfigManager.t :=
  if bool_decide (project_key = "") then HostExecConfigManager.defaults_only (hostexec_config self)
  else
    let p := projects self !! project_key in
    HostExecConfigManager.with_project_commands (hostexec_config self)
      (from_option ProjectConfig.hostexec [] p) (from_option ProjectConfig.hostexec_deny [] p)
      (p ≫= ProjectConfig.resolve_forge).
(** What the header of a request stands for. *)
Inductive scope s : header → option WorkerCtx.t → HostExecConfigManager.t → Prop :=
| scope_host : scope s None None (hostexec_config self)
| scope_bare worker_id row :
    WorkflowTables.worker s !! worker_id = Some row →
    scope s (Some (Ok worker_id)) None (HostExecConfigManager.defaults_only (hostexec_config self))
| scope_worker worker_id row c :
    WorkflowTables.worker s !! worker_id = Some row →
    WorkerCtx.worker_id c = worker_id →
    WorkerCtx.project_key c = WorkerRow.project_key row →
    WorkerRow.workspace_path row = Some (WorkerCtx.slot_path c) →
    scope s (Some (Ok worker_id)) (Some c) (worker_commands (WorkerRow.project_key row)).

(** The directory a command runs in. *)
Inductive runs_in s (w : option WorkerCtx.t) (command : string) (dir : string) : string → Prop :=
| runs_in_brain c row brain host_dir :
    is_brain_dir dir = true → command = BRAIN_HOSTEXEC_COMMAND → w = Some c →
    WorkflowTables.worker s !! WorkerCtx.worker_id c = Some row → WorkerRow.brain_path row = Some brain →
    map_brain_working_dir_impl dir brain = Ok host_dir → runs_in s w command dir host_dir
| runs_in_workspace host_dir :
    is_brain_dir dir = false → map_working_dir self dir (WorkerCtx.slot_path <$> w) = Ok host_dir →
    runs_in s w command dir host_dir.

(** What may be forwarded for a request, and whether the input goes along. *)
Inductive permitted s (w : option WorkerCtx.t) (config : HostExecConfigManager.t) (req : HostExecRequest.t) : ExecRequest.t → bool → Prop :=
| permitted_command cfg host_dir t :
    HostExecRequest.script_path req = "" →
    HostExecConfigManager.get config (HostExecRequest.command req) = Some cfg →
    runs_in s w (HostExecRequest.command req) (HostExecRequest.working_dir req) host_dir →
    transformed cfg req host_dir w = Ok t →
    permitted s w config req
      (ExecRequest.mk (TransformResult.command t) (TransformResult.args t) (TransformResult.working_dir t)
         (TransformResult.env t) (CommandConfig.long_lived cfg)) (CommandConfig.bidi cfg)
| permitted_script c rel script host_dir :
    HostExecRequest.command req = "" → w = Some c →
    HostExecRequest.script_path req = "/workspace/" +:+ rel →
    (".." ∉ split "/" rel) → allows (script_registry self) (WorkerCtx.project_key c) rel = true →
    map_working_dir self (HostExecRequest.script_path req) (Some (WorkerCtx.slot_path c)) = Ok script →
    map_working_dir self (HostExecRequest.working_dir req) (Some (WorkerCtx.slot_path c)) = Ok host_dir →
    permitted s w config req (ExecRequest.mk script (HostExecRequest.args req) host_dir ∅ false) false.

(** What the worker is told. *)
Definition answer (r : result (list (result Frame.t Status.t)) Status.t) : result (list Frame.t) Status.t :=
  match r with
  | Ok frames => Ok (until_error frames)
  | Err st => Err (HostExecError.to_status (HostExecError.BuilderdExecFailed (status_display st)))
  end.

(** *** Computations that only read, and then forward *)

Definition unaffected x y : Prop :=
  outside y = outside x ∧ tables (workflow_db y) = tables (workflow_db x).
Definition reads {E A} x (m : SE (ctx host) E A) (Q : A → Prop) : Prop :=
  ∀ y, unaffected x y → match m y with (Ok a, z) => Q a ∧ unaffected x z | (Err _, z) => unaffected x z end.
Definition forwards x (P : ExecRequest.t → list string → Prop) (m : run (list Frame.t)) : Prop :=
  ∀ y, unaffected x y →
    ((∃ e, (m y).1 = Err e) ∧ unaffected x (m y).2)
    ∨ ∃ er stdin, P er stdin ∧ (m y).1 = answer (builderd_exec er stdin (outside x)).1
        ∧ outside (m y).2 = (builderd_exec er stdin (outside x)).2.

Lemma reads_bind {E A B} x (m : SE (ctx host) E A) (k : A → SE (ctx host) E B) Q R :
  reads x m Q → (∀ a, Q a → reads x (k a) R) → reads x (m ≫= k) R.
Proof.
  intros Hm Hk y Hy. rewrite run_bind. specialize (Hm y Hy). destruct (m y) as [[a|e] z]; [|done].
  destruct Hm as [Ha Hz]. by apply (Hk a Ha).
Qed.
Lemma reads_ret {E A} x (a : A) (Q : A → Prop) : Q a → reads (E := E) x (mret a) Q.
Proof. intros Ha y Hy. by rewrite run_ret. Qed.
Lemma reads_throw {E A} x (e : E) (Q : A → Prop) : reads x (throw e) Q.
Proof. intros y Hy. by rewrite run_throw. Qed.
Lemma reads_of_result {E A} x (r : result A E) (Q : A → Prop) : (∀ a, r = Ok a → Q a) → reads x (of_result r) Q.
Proof. intros Hr y Hy. rewrite run_of_result. destruct r; [|done]. split; [by apply Hr|done]. Qed.
Lemma reads_map_err {E E' A} x (f : E → E') (m : SE (ctx host) E A) Q : reads x m Q → reads x (map_err f m) Q.
Proof. intros Hm y Hy. rewrite run_map_err. specialize (Hm y Hy). by destruct (m y) as [[a|e] z]. Qed.
Lemma reads_or_fail {A} x (r : result A HostExecError.t) (Q : A → Prop) : (∀ a, r = Ok a → Q a) → reads x (or_fail r) Q.
Proof. intros Hr. by apply reads_map_err, reads_of_result. Qed.
Lemma forwards_bind {A} x P (m : run A) (k : A → run (list Frame.t)) Q :
  reads x m Q → (∀ a, Q a → forwards x P (k a)) → forwards x P (m ≫= k).
Proof.
  intros Hm Hk y Hy. rewrite run_bind. specialize (Hm y Hy). destruct (m y) as [[a|e] z].
  - destruct Hm as [Ha Hz]. by apply (Hk a Ha).
  - left. split; [by eexists|done].
Qed.
Lemma forwards_throw x P e : forwards x P (throw e).
Proof. intros y Hy. left. rewrite run_throw. split; [by eexists|done]. Qed.

(** The worker's row, when the database answers. *)
Lemma reads_worker x worker_id :
  reads x (workflows (get_worker worker_id))
    (λ o, from_option (λ w, ∃ row, WorkflowTables.worker (tables (workflow_db x)) !! worker_id = Some row
            ∧ WorkerRow.project_key w = WorkerRow.project_key row
            ∧ WorkerRow.workspace_path w = WorkerRow.workspace_path row
            ∧ WorkerRow.brain_path w = WorkerRow.brain_path row) True o).
Proof.
  intros [t [s fs n] h q b] [Ho Ht]. cbn in Ho, Ht. rewrite run_workflows. unfold get_worker. rewrite run_bind.
  unfold select, statement. cbn [faults tables]. subst s h.
  destruct fs as [|[] fs]; cbn [fst snd]; [|done|]; rewrite run_of_result; cbn [fst snd].
  all: destruct (_ !! worker_id) as [row|] eqn:Hr; cbn [worker_from_optional]; [|done].
  all: unfold worker_from_row; destruct (WorkerRuntime.from_str _); [|done]; split; [|done].
  all: exists row; by destruct row.
Qed.
Lemma reads_context x worker_id :
  reads x (never (get_worker_context worker_id))
    (λ o, from_option (λ c, ∃ row, WorkflowTables.worker (tables (workflow_db x)) !! worker_id = Some row
            ∧ default "" (WorkerContext.project_key c) = WorkerRow.project_key row
            ∧ WorkerContext.project_key c ≠ Some ""
            ∧ WorkerRow.workspace_path row = Some (WorkerContext.slot_path c)
            ∧ WorkerContext.brain_path c = WorkerRow.brain_path row) True o).
Proof.
  apply reads_map_err. unfold get_worker_context.
  apply (reads_bind _ _ _ (λ r, match r with Ok o => from_option (λ w, ∃ row,
      WorkflowTables.worker (tables (workflow_db x)) !! worker_id = Some row
            ∧ WorkerRow.project_key w = WorkerRow.project_key row
            ∧ WorkerRow.workspace_path w = WorkerRow.workspace_path row
            ∧ WorkerRow.brain_path w = WorkerRow.brain_path row) True o | Err _ => True end)).
  { intros y Hy. rewrite run_attempt. pose proof (reads_worker x worker_id y Hy) as Hr.
    destruct (workflows _ y) as [[o|e] z]; [|done]. by destruct Hr. }
  intros [[w|]|e] Hw; apply reads_ret; [|done..]. destruct Hw as (row & Hr & Hp & Hs & Hb).
  cbn. destruct (WorkerRow.workspace_path w) as [path|] eqn:E; cbn; [|done].
  exists row. split_and!; [done| |case_bool_decide; congruence|congruence|done].
  rewrite <-Hp. by case_bool_decide.
Qed.
Lemma worker_id_parse_id worker_id w : WorkerId.parse worker_id = Ok w → w = worker_id.
Proof.
  unfold WorkerId.parse. destruct (rfind_char _ _); [|done]. destruct (check_that _ _); [|done]. cbn.
  destruct (check_that _ _); [|done]. cbn. by intros [= <-].
Qed.
Lemma reads_scope x worker :
  reads x (resolve_request_context self worker) (λ r, scope (tables (workflow_db x)) worker r.1.2 r.2).
Proof.
  unfold resolve_request_context. destruct worker as [[worker_id|[]]|]; [|apply reads_throw|apply reads_ret; constructor].
  eapply (reads_bind _ _ _ (λ w, w = worker_id)).
  { apply reads_or_fail. intros a. destruct (WorkerId.parse worker_id) as [w|e] eqn:E; [|done]. intros [= <-].
    by apply worker_id_parse_id in E. }
  intros w ->. eapply (reads_bind _ _ _ (λ _, ∃ row, WorkflowTables.worker (tables (workflow_db x)) !! worker_id = Some row)).
  { apply reads_map_err. unfold resolve_process_id, db_call. eapply reads_bind; [apply reads_map_err, reads_worker|].
    intros [w|] Hw; [|apply reads_throw]. destruct Hw as (row & Hr & _). apply reads_ret. by exists row. }
  intros process_id [row Hrow]. eapply reads_bind; [apply reads_context|].
  intros [c|] Hc; apply reads_ret; [|by eapply scope_bare]. destruct Hc as (row' & Hr & Hp & Hne & Hs & Hb).
  cbn [fst snd]. destruct (WorkerContext.project_key c) as [p|] eqn:E; cbn in Hp.
  - pose proof (scope_worker (tables (workflow_db x)) worker_id row'
      (WorkerCtx.mk worker_id process_id p (WorkerContext.slot_path c)
        (match WorkerStrategy.from_name (WorkerContext.strategy c) with
         | Ok WorkerStrategy.Manual => ""
         | _ => git_branch_prefix self +:+ worker_id end)
        (from_option ProjectConfig.allow_no_verify false (projects self !! p))) Hr eq_refl Hp Hs) as Hsc.
    unfold worker_commands in Hsc. rewrite bool_decide_false in Hsc by congruence. rewrite <-Hp in Hsc. exact Hsc.
  - pose proof (scope_worker (tables (workflow_db x)) worker_id row'
      (WorkerCtx.mk worker_id process_id "" (WorkerContext.slot_path c) "" false) Hr eq_refl Hp Hs) as Hsc.
    unfold worker_commands in Hsc. rewrite bool_decide_true in Hsc by congruence. exact Hsc.
Qed.

Lemma forwards_forward x (P : ExecRequest.t → list string → Prop) t long (is_bidi : bool) inbound :
  P (ExecRequest.mk (TransformResult.command t) (TransformResult.args t) (TransformResult.working_dir t)
       (TransformResult.env t) long) (if is_bidi then stdin_frames inbound else []) →
  forwards x P (forward_to_builderd t long is_bidi inbound).
Proof.
  intros HP [tt [s fs n] h q b] [Ho _]. cbn in Ho. subst h. right. do 2 eexists. split; [exact HP|].
  unfold forward_to_builderd. rewrite run_bind, run_map_err, run_external.
  by destruct (builderd_exec _ _ (outside x)) as [[frames|e] h'].
Qed.
Lemma reads_command_dir x (req : HostExecRequest.t) (w : option WorkerCtx.t) :
  reads x (command_dir self req w)
    (runs_in (tables (workflow_db x)) w (HostExecRequest.command req) (HostExecRequest.working_dir req)).
Proof.
  unfold command_dir. destruct (is_brain_dir _) eqn:Hb.
  - case_bool_decide as Hgit; [|apply reads_throw]. cbn [negb].
    eapply (reads_bind _ _ _ (λ o, from_option (λ brain, ∃ c row, w = Some c
      ∧ WorkflowTables.worker (tables (workflow_db x)) !! WorkerCtx.worker_id c = Some row
      ∧ WorkerRow.brain_path row = Some brain) True o)).
    + unfold brain_host_path. destruct w as [c|]; [|by apply reads_ret].
      destruct (WorkerId.parse _) as [i|e] eqn:Hi; [|by apply reads_ret]. apply worker_id_parse_id in Hi as ->.
      eapply reads_bind; [apply reads_context|]. intros [wc|] Hc; apply reads_ret; [|done].
      destruct Hc as (row & Hr & _ & _ & _ & Hbr). cbn. destruct (WorkerContext.brain_path wc) eqn:E; [|done].
      exists c, row. by rewrite <-Hbr.
    + intros [brain|] Hbr; [|apply reads_throw]. destruct Hbr as (c & row & -> & Hr & Hbr).
      apply reads_or_fail. intros d Hd. by eapply runs_in_brain.
  - apply reads_or_fail. intros d Hd. by apply runs_in_workspace.
Qed.

Lemma validate_script_path_Ok script rel : validate_script_path script = Ok rel →
  script = "/workspace/" +:+ rel ∧ (".." ∉ split "/" rel).
Proof.
  unfold validate_script_path, strip_prefix. destruct (String.prefix _ script) eqn:E; [|done].
  apply starts_with_spec in E as [r ->]. rewrite str_drop_app. case_bool_decide; [done|].
  destruct (existsb _ _) eqn:Hex; [done|]. intros [= <-]. split; [done|]. intros Hin. apply not_true_iff_false in Hex.
  destruct Hex. apply existsb_exists. exists "..". split; [by apply list_elem_of_In|].
  apply bool_decide_eq_true. by left.
Qed.

(** C7: What a worker gets run on the host.  Either the request is refused and the host is not
    asked, or the builder daemon is asked exactly once, the frames of its answer up to
    its first error go back, and what it is asked to run is permitted: a command that
    the project of the worker's row has, as the command's script transforms it in the
    mapped directory (in the brain only git); or a script that the project registers,
    without parent segments.  The input goes along for bidirectional commands only. *)
Theorem exec_forwards worker inbound x :
  let '(r, y) := exec self worker inbound x in
  ((∃ e, r = Err e) ∧ unaffected x y)
  ∨ ∃ w config req rest er bidi,
      scope (tables (workflow_db x)) worker w config ∧ inbound = Ok (HostExecMessage.Start req) :: rest
      ∧ permitted (tables (workflow_db x)) w config req er bidi
      ∧ let b := builderd_exec er (if bidi then stdin_frames rest else []) (outside x) in
        r = answer b.1 ∧ outside y = b.2.
Proof.
  cut (forwards x (λ er stdin, ∃ w config req rest (bidi : bool),
      scope (tables (workflow_db x)) worker w config ∧ inbound = Ok (HostExecMessage.Start req) :: rest
      ∧ permitted (tables (workflow_db x)) w config req er bidi ∧ stdin = if bidi then stdin_frames rest else [])
    (exec self worker inbound)).
  { intros Hf. specialize (Hf x (conj eq_refl eq_refl)). destruct (exec self worker inbound x) as [r y].
    destruct Hf as [?|(er & stdin & (w & config & req & rest & bidi & ? & ? & ? & ->) & ?)]; [by left|].
    right. by exists w, config, req, rest, er, bidi. }
  unfold exec. eapply forwards_bind; [apply reads_scope|]. intros [[process_id w] config] Hs. cbn [fst snd] in Hs.
  destruct inbound as [|[[req| |]|e] rest]; try apply forwards_throw.
  do 2 case_bool_decide; try apply forwards_throw.
  - unfold exec_script. destruct w as [c|]; cbn [fmap option_fmap option_map]; [|apply forwards_throw].
    destruct (WorkerCtx.project_key c) as [|a p] eqn:Hp; [apply forwards_throw|].
    eapply forwards_bind; [apply reads_map_err, reads_of_result, validate_script_path_Ok|]. intros rel [Hrel Hup].
    destruct (allows _ _ rel) eqn:Ha; [|apply forwards_throw]. cbn [negb].
    eapply forwards_bind; [apply reads_or_fail; intros ? HH; exact HH|]. intros script Hscript.
    eapply forwards_bind; [apply reads_or_fail; intros ? HH; exact HH|]. intros dir Hdir.
    apply forwards_forward. exists (Some c), config, req, rest, false. split_and!; [done..| |done].
    eapply permitted_script; try done. by rewrite Hp.
  - unfold exec_command. destruct (HostExecConfigManager.get _ _) as [cfg|] eqn:Hg;
      [|eapply (forwards_bind _ _ _ _ (λ _, False)); [by apply reads_or_fail|done]].
    eapply (forwards_bind _ _ _ _ (eq cfg)); [apply reads_or_fail; by intros ? [= <-]|]. intros ? <-.
    eapply forwards_bind; [apply reads_command_dir|]. intros dir Hdir.
    eapply forwards_bind; [apply reads_or_fail; intros ? HH; exact HH|]. intros t Ht.
    apply forwards_forward. exists w, config, req, rest, (CommandConfig.bidi cfg). split_and!; [done..| |done].
    by eapply permitted_command.
Qed.
End Forwarding.

(** ** Directories *)

(** A template at the beginning only is replaced there. *)
Lemma resolve_template workspace rest : contains WORKSPACE_TEMPLATE rest = false →
  resolve_working_dir (Some workspace) (WORKSPACE_TEMPLATE +:+ rest) = workspace +:+ rest.
Proof.
  intros Hr. unfold resolve_working_dir, resolve_workspace_content. rewrite contains_self.
  unfold WORKSPACE_TEMPLATE at 1. rewrite split_head. fold WORKSPACE_TEMPLATE. by rewrite (split_absent _ _ Hr).
Qed.

Section Directories.
Context (self : HostExecServiceHandler.t).
Import HostExecServiceHandler.

Lemma trim_start_other c a v : a ≠ c → trim_start_char c (String a v) = String a v.
Proof. intros Ha. cbn. by rewrite decide_False. Qed.
Lemma map_slot_dir suffix a rel : suffix = "" ∨ starts_with "/" suffix = true → a ≠ "/"%char →
  map_working_dir self ("/workspace" +:+ suffix) (Some (host_workspace self +:+ "/" +:+ String a rel))
  = Ok (WORKSPACE_TEMPLATE +:+ "/" +:+ String a rel +:+ suffix).
Proof.
  intros Hs Ha. unfold map_working_dir, map_working_dir_impl, strip_prefix. rewrite !prefix_app, !str_drop_app.
  assert (negb (bool_decide (suffix = "")) && negb (starts_with "/" suffix) = false) as ->.
  { destruct Hs as [->| ->]; [done|]. by rewrite andb_false_r. }
  rewrite app_cons, app_nil_str. cbn [trim_start_char]. rewrite decide_True, decide_False by done.
  rewrite bool_decide_false by done. by rewrite !app_assoc_str.
Qed.

(** A command runs in the directory the worker named.  For a worker in a slot below the
    server's view of the workspace, the directory [/workspace/..] that the container
    sees becomes a template, which the builder daemon resolves below its own view of
    the workspace: the same slot, the same path inside. *)
Theorem mapped_dir_resolves suffix slot rel workspace :
  suffix = "" ∨ starts_with "/" suffix = true →
  slot = host_workspace self +:+ "/" +:+ rel → rel ≠ "" → starts_with "/" rel = false →
  contains WORKSPACE_TEMPLATE ("/" +:+ rel +:+ suffix) = false →
  ∃ d, map_working_dir self ("/workspace" +:+ suffix) (Some slot) = Ok d
    ∧ resolve_working_dir (Some workspace) d = workspace +:+ "/" +:+ rel +:+ suffix.
Proof.
  intros Hs -> Hne Hr Ht. destruct rel as [|a rel]; [done|]. eexists. split.
  - apply map_slot_dir; [done|]. intros ->. unfold starts_with in Hr. rewrite prefix_char in Hr. by rewrite bool_decide_true in Hr.
  - by apply resolve_template.
Qed.

(** A directory of the workspace is not held inside the slot.  Parent segments are refused
    in the brain and in the path of a script, but not in a working directory: a
    worker in slot [a] of a pool that names [/workspace/../b] has its command run in
    slot [b]. *)
Theorem worker_dir_escapes pool a b workspace :
  starts_with "/" pool = false → pool ≠ "" →
  contains WORKSPACE_TEMPLATE ("/" +:+ (pool +:+ "/" +:+ a) +:+ "/../" +:+ b) = false →
  let slot := host_workspace self +:+ "/" +:+ pool +:+ "/" +:+ a in
  (∃ d, map_working_dir self ("/workspace/../" +:+ b) (Some slot) = Ok d
     ∧ resolve_working_dir (Some workspace) d = workspace +:+ "/" +:+ (pool +:+ "/" +:+ a) +:+ "/../" +:+ b)
  ∧ (∀ brain, ∃ e, map_brain_working_dir_impl ("/brain/../" +:+ b) brain = Err e)
  ∧ ∃ e, validate_script_path ("/workspace/../" +:+ b) = Err e.
Proof.
  intros Hp Hne Ht slot. destruct pool as [|c pool]; [done|]. assert (c ≠ "/"%char) as Hc.
  { intros ->. unfold starts_with in Hp. rewrite prefix_char in Hp. by rewrite bool_decide_true in Hp. }
  split_and!.
  - eexists. split; [|by apply resolve_template].
    replace ("/workspace/../" +:+ b) with ("/workspace" +:+ ("/../" +:+ b)) by done. unfold slot.
    change (String c pool +:+ "/" +:+ a) with (String c (pool +:+ "/" +:+ a)). apply map_slot_dir; [by right|done].
  - intros brain. eexists. unfold map_brain_working_dir_impl.
    change (below BRAIN_CONTAINER_PATH ("/brain/../" +:+ b)) with (Some ("/../" +:+ b)).
    cbv iota beta zeta. change (trim_start_char "/"%char ("/../" +:+ b)) with (".." +:+ String "/"%char b).
    rewrite bool_decide_true; [done|]. rewrite (split_segment "/"%char) by done. by left.
  - eexists. unfold validate_script_path.
    change (strip_prefix "/workspace/" ("/workspace/../" +:+ b)) with (Some (".." +:+ String "/"%char b)).
    cbv iota beta. rewrite bool_decide_false by done. rewrite (split_segment "/"%char) by done.
    cbn [existsb]. by rewrite (bool_decide_true (".." = ".." ∨ _)) by (by left).
Qed.
End Directories.

(** ** Witnesses *)

Definition test_handler : HostExecServiceHandler.t :=
  HostExecServiceHandler.mk ∅ (HostExecConfigManager.mk {["git" := CommandConfig.passthrough; "jq" := CommandConfig.passthrough]} true)
    ∅ "/srv/ws" "ur/".
Lemma mapped_dir_resolves_witness :
  ∃ d, map_working_dir test_handler "/workspace/src" (Some "/srv/ws/pool/p/0") = Ok d
    ∧ resolve_working_dir (Some "/home/u/ws") d = "/home/u/ws/pool/p/0/src".
Proof.
  exact (mapped_dir_resolves test_handler "/src" "/srv/ws/pool/p/0" "pool/p/0" "/home/u/ws"
    (or_intror eq_refl) eq_refl ltac:(done) eq_refl eq_refl).
Defined.
Lemma worker_dir_escapes_witness :
  ∃ d, map_working_dir test_handler "/workspace/../1" (Some "/srv/ws/pool/0") = Ok d
    ∧ resolve_working_dir (Some "/home/u/ws") d = "/home/u/ws/pool/0/../1".
Proof.
  exact (proj1 (worker_dir_escapes test_handler "pool" "0" "1" "/home/u/ws" eq_refl ltac:(done) eq_refl)).
Defined.

(** A worker in a slot may run git, and not a command outside the defaults. *)
Definition no_lua : LuaVm := {|
  lua_vm := unit; lua_table := unit; lua_function := unit;
  lua_new := Err "none"; lua_exec _ _ := Err "none"; lua_global _ _ := Err "none"; lua_global_function _ _ := Err "none";
  lua_call _ _ _ _ _ _ := Err "none"; table_string _ _ := Err "none"; table_value _ _ := Err "none";
  table_len _ := Err "none"; table_item _ _ := Err "none"; table_pairs _ := []
|}.
Definition test_exec : @ExecHost test_host := {|
  builderd_exec er stdin :=
    (λ h, (Ok [Ok (Frame.ExitCode 0); Err (Status.internal "late"); Ok (Frame.ExitCode 1)],
           World (commands h) (script h) (messages h)
             (files h ++ [ExecRequest.command er +:+ " in " +:+ ExecRequest.working_dir er]) (TestWorld.stopped h) (issues h)))
    : SE (@host test_host) Status.t (list (result Frame.t Status.t))
|}.
Definition in_slot : wtables :=
  WorkflowTables.set_worker
    {[ "p-ab12" := WorkerRow.mk "p-ab12" "p" "" "c1" "secret" "code" "claude" "running" "idle"
                     (Some "/srv/ws/pool/p/0") "" "" 0 None "container" ]} WorkflowTables.empty.
Definition run_in_slot (command : string) :=
  @exec test_env test_host no_lua test_exec test_handler (Some (Ok "p-ab12"))
    [Ok (HostExecMessage.Start (HostExecRequest.mk command ["status"] "/workspace/src" "")); Ok (HostExecMessage.Stdin "x")]
    (launch_ctx in_slot).
Example git_runs_in_slot :
  (run_in_slot "git").1 = Ok [Frame.ExitCode 0]
  ∧ files (outside (run_in_slot "git").2) = ["git in %WORKSPACE%/pool/p/0/src"]
  ∧ (run_in_slot "jq").1 = Err (HostExecError.to_status (HostExecError.CommandNotAllowed "jq")).
Proof. split_and!; reflexivity. Qed.
