(* ===== verification/Overlay.v ===== *)
(** * Local overlay files in pool slots

    [builderd/src/overlay.rs]: the files that a project keeps beside its repository
    and that the builder daemon lays over every slot.  Around a git command of a
    worker they are taken out of the working tree (concealed) and laid back
    (revealed), so that git never sees them.

    A slot is its files by their path in the slot, the state git keeps, and the copy
    of the overlays with the list of pinned paths; directories come with the files
    below them.  A call of the file system fails when the slot's oracle says so, with
    the text it gives.  Git is a parameter ([GitTool]); what the daemon relies on is
    stated in [LawfulGit], for calls that succeed. *)

From S2P Require Import Prelude RustStd Host RunOpts.
From Stdlib Require Import Ascii.
Local Open Scope stdpp_scope.

(** ** A slot on disk *)

Definition NUL : string := String (ascii_of_nat 0) EmptyString.

Inductive node : Type := Regular (content : string) | Link (target : string).
#[export] Instance node_eq_dec : EqDecision node.
Proof. solve_decision. Defined.
Abbreviation files := (gmap string node).

Module GitOutput.
Record t : Type := mk { success : bool; code : string; stdout : string; stderr : string }.
End GitOutput.

(** Git: what a repository tracks, which paths have the skip-worktree flag, the tip of
    the upstream branch, and a command run in the slot; an error means that it could
    not be started.  [clone] makes a slot in a directory.  [nested] holds the paths of
    repositories inside the slot. *)
Class GitTool : Type := {
  repository : Type;
  index : repository → files;
  skipped : repository → gset string;
  upstream : repository → files;
  is_repository : repository → bool;
  nested : files * repository → string → Prop;
  run_git : list string → files * repository → result GitOutput.t string * (files * repository);
  run_clone : list string → bool → result GitOutput.t string * option (files * repository)
}.

Module Slot.
Section Slot.
Context {GT : GitTool}.
Record t : Type := mk {
  worktree : files;
  repo : repository;
  (** [.git/ur-overlay/files] and [.git/ur-overlay/pinned] *)
  copies : option (gmap string string);
  pinned : option (list string)
}.
End Slot.
Arguments t {GT}.
End Slot.

(** A slot, and the failures of the calls to come. *)
Section Site.
Context {GT : GitTool}.
Record site : Type := Site { slot : Slot.t; failures : list (option string) }.
Abbreviation run A := (SE site string A).
Import Slot.

Definition set_worktree (w : files) (s : Slot.t) : Slot.t := mk w (repo s) (copies s) (pinned s).
Definition set_copies (c : option (gmap string string)) (s : Slot.t) : Slot.t := mk (worktree s) (repo s) c (pinned s).
Definition set_pinned (p : option (list string)) (s : Slot.t) : Slot.t := mk (worktree s) (repo s) (copies s) p.
Definition set_git (wr : files * repository) (s : Slot.t) : Slot.t := mk wr.1 wr.2 (copies s) (pinned s).

(** A call of the file system: it may fail and then does nothing. *)
Definition io {A} (what : string) (f : Slot.t → result A string * Slot.t) : run A := λ x,
  match failures x with
  | Some e :: l => (Err (what +:+ ": " +:+ e), Site (slot x) l)
  | l => let '(r, s) := f (slot x) in
         (match r with Ok a => Ok a | Err e => Err (what +:+ ": " +:+ e) end, Site s (tail l))
  end.
Definition io_do (what : string) (f : Slot.t → Slot.t) : run unit := io what (λ s, (Ok tt, f s)).
Definition look {A} (f : Slot.t → A) : run A := gets (λ x, f (slot x)).

(** [tokio::process::Command::new("git")] in the slot. *)
Definition spawn_git (args : list string) : run GitOutput.t := λ x,
  let '(r, wr) := run_git args (worktree (slot x), repo (slot x)) in
  (match r with Ok o => Ok o | Err e => Err ("failed to spawn git: " +:+ e) end, Site (set_git wr (slot x)) (failures x)).

End Site.

(** What the daemon relies on when a command succeeds: git's documentation of
    [update-index], [ls-files] and [checkout] with paths. *)
Class LawfulGit `{GitTool} : Prop := {
  skipped_tracked r : skipped r ⊆ dom (index r);
  no_repository r : is_repository r = false → index r = ∅;
  git_skip ps w r o w' r' :
    run_git (["update-index"; "--skip-worktree"; "--"] ++ ps) (w, r) = (Ok o, (w', r')) → GitOutput.success o = true →
    w' = w ∧ index r' = index r ∧ upstream r' = upstream r ∧ skipped r' = skipped r ∪ list_to_set ps;
  git_no_skip ps w r o w' r' :
    run_git (["update-index"; "--no-skip-worktree"; "--"] ++ ps) (w, r) = (Ok o, (w', r')) → GitOutput.success o = true →
    list_to_set ps ⊆ dom (index r)
    ∧ w' = w ∧ index r' = index r ∧ upstream r' = upstream r ∧ skipped r' = skipped r ∖ list_to_set ps;
  git_ls_files ps w r o w' r' :
    run_git (["--literal-pathspecs"; "ls-files"; "-z"; "--"] ++ ps) (w, r) = (Ok o, (w', r')) →
    GitOutput.success o = true →
    (w', r') = (w, r) ∧ ∀ p, p ∈ ps → p ≠ "" → (p ∈ split NUL (GitOutput.stdout o) ↔ p ∈ dom (index r));
  git_checkout_paths ps w r o w' r' :
    run_git (["checkout"; "--"] ++ ps) (w, r) = (Ok o, (w', r')) → GitOutput.success o = true →
    index r' = index r ∧ upstream r' = upstream r ∧ skipped r' = skipped r
    ∧ (∀ p, p ∈ ps → (p ∉ skipped r) → w' !! p = index r !! p)
    ∧ ∀ p, (p ∉ ps) → w' !! p = w !! p ∨ w' !! p = None
}.

(** ** The overlay manager *)

Definition OVERLAY_BRACKETED_COMMANDS : list string := ["git"; "gh"].
Definition NO_SUCH : string := "No such file or directory (os error 2)".

(** The order in which a directory is read. *)
Class DirOrder : Type := {
  listed : gset string → list string;
  listed_elements : ∀ X, listed X ≡ₚ elements X
}.

(** [Vec::dedup] *)
Fixpoint dedup_runs (l : list string) : list string :=
  match l with
  | [] => []
  | x :: l' =>
      match l' with
      | y :: _ => if decide (x = y) then dedup_runs l' else x :: dedup_runs l'
      | [] => [x]
      end
  end.

Section Overlay.
Context {GT : GitTool} {DO : DirOrder}.
Abbreviation run A := (SE site string A).
Context (path : string).
Import Slot.

Definition git (args : list string) : run string :=
  out ← spawn_git args;
  if GitOutput.success out then mret (GitOutput.stdout out)
  else throw ("git " +:+ join " " args +:+ " failed in " +:+ path +:+ ": " +:+ trim (GitOutput.stderr out)).

Definition state_dir : string := path_join (path_join path ".git") "ur-overlay".
Definition files_dir : string := path_join state_dir "files".

Definition read_pinned : run (list string) :=
  p ← look pinned;
  match p with
  | None => mret []
  | Some l => io ("failed to read " +:+ path_join state_dir "pinned") (λ s, (Ok l, s))
  end.
Definition write_pinned (l : list string) : run unit :=
  io ("failed to write " +:+ path_join state_dir "pinned")
    (λ s, match copies s, pinned s with
          | None, None => (Err NO_SUCH, s)
          | _, _ => (Ok tt, set_pinned (Some l) s)
          end).

(** [list_files] of the copies. *)
Definition list_files : run (list string) :=
  io ("failed to read directory " +:+ files_dir)
    (λ s, match copies s with Some c => (Ok (listed (dom c)), s) | None => (Err NO_SUCH, s) end).

(** [replace_symlink_collecting] at a path of the slot: the paths it records. *)
Definition link_target (rel target : string) : option string :=
  path_strip_prefix path (path_join (default path (path_parent (path_join path rel))) target).
Definition replace_symlink_collecting (rel : string) : run (list string) :=
  n ← look (λ s, worktree s !! rel);
  match n with
  | Some (Link target) =>
      io_do ("failed to remove symlink " +:+ path_join path rel) (λ s, set_worktree (delete rel (worktree s)) s) ;;
      mret (option_list (link_target rel target))
  | _ => mret []
  end.
(** [copy_dir_recursive_collecting] from the copies to the slot. *)
Fixpoint copy_to_slot (rels : list string) : run (list string) :=
  match rels with
  | [] => mret []
  | rel :: rels =>
      links ← replace_symlink_collecting rel;
      io ("failed to copy " +:+ path_join files_dir rel +:+ " to " +:+ path_join path rel)
        (λ s, match copies s ≫= lookup rel with
              | Some c => (Ok tt, set_worktree (<[rel := Regular c]> (worktree s)) s)
              | None => (Err NO_SUCH, s)
              end) ;;
      rest ← copy_to_slot rels;
      mret (links ++ rel :: rest)
  end.
(** ... and from the project's directory to the copies. *)
Fixpoint copy_to_state (source : string) (rels : list (string * string)) : run unit :=
  match rels with
  | [] => mret tt
  | (rel, content) :: rels =>
      io_do ("failed to copy " +:+ path_join source rel +:+ " to " +:+ path_join files_dir rel)
        (λ s, set_copies (<[rel := content]> <$> copies s) s) ;;
      copy_to_state source rels
  end.

Definition tracked_subset (rel_paths : list string) : run (gset string) :=
  there ← look (λ s, is_repository (repo s));
  if bool_decide (rel_paths = []) || negb there then mret ∅
  else
    output ← git (["--literal-pathspecs"; "ls-files"; "-z"; "--"] ++ rel_paths);
    mret (list_to_set (filter (λ p, p ≠ "") (split NUL output))).

Definition capture (rel : string) : run unit :=
  n ← look (λ s, worktree s !! rel);
  match n with
  | Some (Regular c) =>
      io_do ("failed to copy " +:+ path_join path rel +:+ " to " +:+ path_join files_dir rel)
        (λ s, set_copies (<[rel := c]> <$> copies s) s)
  | _ => mret tt
  end.
Definition remove_overlay (rel : string) : run unit :=
  n ← look (λ s, worktree s !! rel);
  match n with
  | Some _ => io_do ("failed to remove overlay " +:+ path_join path rel)
                (λ s, set_worktree (delete rel (worktree s)) s)
  | None => mret tt
  end.
Definition conceal : run unit :=
  rel_paths ← list_files;
  for_each capture rel_paths ;;
  pinned ← read_pinned;
  (if bool_decide (pinned = []) then mret tt
   else git (["update-index"; "--no-skip-worktree"; "--"] ++ pinned) ;; mret tt) ;;
  tracked ← tracked_subset rel_paths;
  for_each remove_overlay (filter (λ rel, rel ∉ tracked) rel_paths) ;;
  if bool_decide (tracked = ∅) then mret tt
  else git (["checkout"; "--"] ++ listed tracked) ;; mret tt.

Definition reveal : run unit :=
  rels ← list_files;
  placed ← copy_to_slot rels;
  tracked ← tracked_subset placed;
  let pinned := dedup_runs (merge_sort String.le (filter (λ rel, rel ∈ tracked) placed)) in
  (if bool_decide (pinned = []) then mret tt
   else git (["update-index"; "--skip-worktree"; "--"] ++ pinned) ;; mret tt) ;;
  write_pinned pinned.

Definition discard : run unit :=
  s ← look (λ s, (copies s, pinned s));
  match s with
  | (None, None) => mret tt
  | _ => io_do ("failed to remove overlay state " +:+ state_dir) (λ s, set_copies None (set_pinned None s))
  end.
(** [apply], with the project's files if its directory is there. *)
Definition apply (source : string) (local_files : option (gmap string string)) : run unit :=
  discard ;;
  match local_files with
  | None => mret tt
  | Some l =>
      io_do ("failed to create overlay state " +:+ files_dir) (λ s, set_copies (Some (default ∅ (copies s))) s) ;;
      copy_to_state source ((λ rel, (rel, default "" (l !! rel))) <$> listed (dom l)) ;;
      reveal
  end.
End Overlay.

(** ** All slots, and the commands that run in them *)

(** The slots by their path, the files of the projects, the number of commands running
    in a slot, and the failures to come. *)
Section Leases.
Context {GT : GitTool} {DO : DirOrder}.
Record disk : Type := Disk {
  slots : gmap string Slot.t;
  local_dirs : gmap string (gmap string string);
  active : gmap string nat;
  io_failures : list (option string)
}.
Abbreviation run A := (SE disk string A).
(** [LocalOverlayManager::workspace] and [config_dir] *)
Context (workspace config_dir : string).

(** Work in a slot; nothing can be started in a directory that is not there. *)
Definition in_slot {A} (path : string) (m : SE site string A) : run A := λ d,
  match slots d !! path with
  | Some s =>
      let '(r, x) := m (Site s (io_failures d)) in
      (r, Disk (<[path := slot x]> (slots d)) (local_dirs d) (active d) (failures x))
  | None => (Err ("failed to spawn git: " +:+ NO_SUCH), d)
  end.
Definition set_active (path : string) (n : nat) (d : disk) : disk :=
  Disk (slots d) (local_dirs d) (<[path := n]> (active d)) (io_failures d).
Definition counter (path : string) (d : disk) : nat := default 0 (active d !! path).

Definition overlaid (path : string) (d : disk) : bool :=
  match slots d !! path with Some s => bool_decide (is_Some (Slot.copies s)) | None => false end.
Definition overlaid_slot_for (working_dir : string) (d : disk) : option string :=
  let pool := path_join workspace "pool" in
  rel ← path_strip_prefix pool working_dir;
  match path_components rel with
  | project :: slot_name :: _ =>
      let slot := path_join (path_join pool project) slot_name in
      if overlaid slot d then Some slot else None
  | _ => None
  end.

(** The first command conceals, the last one reveals; both under the slot's mutex. *)
Definition enter (path : string) : run unit :=
  n ← gets (counter path);
  (if bool_decide (n = 0) then
     r ← attempt (in_slot path (conceal path));
     match r with
     | Ok _ => mret tt
     | Err conceal_err =>
         r ← attempt (in_slot path (reveal path));
         throw (match r with
                | Ok _ => conceal_err
                | Err reveal_err => conceal_err +:+ "; restoring overlays also failed: " +:+ reveal_err
                end)
     end
   else mret tt) ;;
  modify (set_active path (S n)).
Definition conceal_for (working_dir : string) : run (option string) :=
  o ← gets (overlaid_slot_for working_dir);
  match o with
  | None => mret None
  | Some slot => enter slot ;; mret (Some slot)
  end.
Definition reveal_after (slot : string) : run unit :=
  n ← gets (counter slot);
  modify (set_active slot (n - 1)) ;;
  if bool_decide (n - 1 = 0) then in_slot slot (reveal slot) else mret tt.

Definition apply_overlays (project_key path : string) : run unit :=
  let source := path_join (path_join (path_join config_dir "projects") project_key) "local" in
  l ← gets (λ d, local_dirs d !! project_key);
  in_slot path (apply path source l).
End Leases.
