(* ===== verification/BuilderPool.v ===== *)
(** * The slots of the builder daemon

    [builderd/src/pool_handler.rs] and [ur_utils/src/retry.rs]: cloning, resetting,
    recycling and cleaning the slots of the pool on the host, with the git commands the
    daemon runs, and the service that the server's pool calls.

    Operations on one slot run one after the other, under the slot's mutex; preparing a
    new slot or the shared one takes none.  Git's laws for these commands are in
    [LawfulReset]. *)

From S2P Require Import Prelude RustStd Host RunOpts Pool Overlay.
From Stdlib Require Import Ascii.
Local Open Scope stdpp_scope.

(** [ur_utils::retry], at least one attempt: the first success or the last error. *)
Fixpoint retry_go {S E A} (more : nat) (f : SE S E A) : SE S E A :=
  match more with
  | O => f
  | Datatypes.S more => r ← attempt f; match r with Ok a => mret a | Err _ => retry_go more f end
  end.
Definition retry {S E A} (max_attempts : nat) (f : SE S E A) : SE S E A := retry_go (max_attempts - 1) f.

(** What a failed removal leaves of a slot, what [mise trust] does to it, and what the
    remote of a repository has on its master. *)
Class PoolTools `{GitTool} : Type := {
  tip : repository → files;
  remains : Slot.t → Slot.t;
  mise_trust : files * repository → files * repository
}.

(** What the daemon relies on: git's documentation of the commands that reset a
    repository, and of a clone.  The lines of [ls-files -v] carry the tag and the path,
    which is quoted when it has unusual characters.  The remote does not move while the
    commands of one request run. *)
Class LawfulReset `{PoolTools} : Prop := {
  git_ls_files_v w r o w' r' :
    run_git ["ls-files"; "-v"] (w, r) = (Ok o, (w', r')) → GitOutput.success o = true →
    (w', r') = (w, r)
    ∧ ∀ p, p ∈ skipped r → ∃ q, ("S " +:+ q) ∈ lines (GitOutput.stdout o)
        ∧ (q = p ∨ (trim_end q = q ∧ q ∉ dom (index r)));
  git_fetch w r o w' r' :
    run_git ["fetch"; "--no-tags"; "origin"] (w, r) = (Ok o, (w', r')) → GitOutput.success o = true →
    w' = w ∧ index r' = index r ∧ skipped r' = skipped r ∧ upstream r' = tip r ∧ tip r' = tip r;
  git_checkout_master w r o w' r' :
    run_git ["checkout"; "-f"; "master"] (w, r) = (Ok o, (w', r')) → GitOutput.success o = true →
    skipped r' ⊆ skipped r ∧ upstream r' = upstream r ∧ tip r' = tip r;
  git_reset w r o w' r' :
    run_git ["reset"; "--hard"; "origin/master"] (w, r) = (Ok o, (w', r')) → GitOutput.success o = true →
    index r' = upstream r ∧ upstream r' = upstream r ∧ tip r' = tip r ∧ skipped r' ⊆ skipped r
    ∧ ∀ p, p ∈ dom (index r') → (p ∉ skipped r') → w' !! p = index r' !! p;
  git_clean w r o w' r' :
    run_git ["clean"; "-fdx"] (w, r) = (Ok o, (w', r')) → GitOutput.success o = true →
    index r' = index r ∧ upstream r' = upstream r ∧ tip r' = tip r ∧ skipped r' = skipped r
    ∧ (∀ p, p ∈ dom (index r) → w' !! p = w !! p)
    ∧ ∀ p, (p ∉ dom (index r)) → w' !! p = None ∨ nested (w', r') p;
  git_submodules w r o w' r' :
    run_git ["submodule"; "update"; "--init"; "--recursive"; "--depth"; "1"] (w, r) = (Ok o, (w', r')) →
    GitOutput.success o = true →
    index r' = index r ∧ upstream r' = upstream r ∧ tip r' = tip r ∧ skipped r' = skipped r
    ∧ (∀ p, p ∈ dom (index r) → w' !! p = w !! p)
    ∧ ∀ p, (p ∉ dom (index r)) → w !! p = None ∨ nested (w, r) p → w' !! p = None ∨ nested (w', r') p;
  git_clone args there o w r :
    run_clone args there = (Ok o, Some (w, r)) → GitOutput.success o = true →
    skipped r = ∅ ∧ (∀ p, p ∈ dom (index r) → w !! p = index r !! p)
    ∧ ∀ p, (p ∉ dom (index r)) → w !! p = None ∨ nested (w, r) p;
  git_clone_makes args there o : run_clone args there = (Ok o, None) → GitOutput.success o = false;
  mise_trust_keeps wr : mise_trust wr = wr
}.

Module BuilderPoolHandler.
Section Handler.
Context {GT : GitTool} {PT : PoolTools} {DO : DirOrder}.
Context (workspace config_dir : string).
Abbreviation run A := (SE disk string A).

Definition project_pool_dir (project_key : string) : string := path_join (path_join workspace "pool") project_key.
Definition slot_path (project_key slot_name : string) : string := path_join (project_pool_dir project_key) slot_name.

Definition u32_index (dir path : string) : option Z :=
  name ← path_strip_prefix dir path;
  match parse_u32 name with Ok i => Some i | Err _ => None end.
Definition scan_slot_indices (project_key : string) : run (list Z) :=
  gets (λ d, merge_sort Z.le (omap (u32_index (project_pool_dir project_key)) (map_to_list (slots d)).*1)).

(** A call of the file system outside the slots. *)
Definition disk_io (what : string) (ok failed : disk → disk) : run unit := λ d,
  let left l d := Disk (slots d) (local_dirs d) (active d) l in
  match io_failures d with
  | Some e :: l => (Err (what +:+ ": " +:+ e), left l (failed d))
  | l => (Ok tt, left (tail l) (ok d))
  end.
Definition set_slot (path : string) (s : option Slot.t) (d : disk) : disk :=
  Disk (partial_alter (λ _, s) path (slots d)) (local_dirs d) (active d) (io_failures d).

(** [git] and [git_output] *)
Definition git_result (args : list string) (out : GitOutput.t) : result string string :=
  if GitOutput.success out then Ok (GitOutput.stdout out)
  else Err ("git " +:+ join " " args +:+ " failed (exit " +:+ GitOutput.code out +:+ "): "
            +:+ GitOutput.stderr out +:+ GitOutput.stdout out).
Definition git_output (args : list string) (path : string) : run string :=
  out ← in_slot path (spawn_git args); of_result (git_result args out).
(** [.await.map_err(|e| format!("{what}: {e}"))] *)
Definition because {A} (what : string) (m : run A) : run A := map_err (λ e, what +:+ ": " +:+ e) m.
Definition git_in (args : list string) (path : string) : run unit :=
  because ("git " +:+ hd "" args +:+ " failed in " +:+ path) (git_output args path ;; mret tt).

Definition file_exists (rel path : string) : run bool :=
  gets (λ d, match slots d !! path with
             | Some s => bool_decide (is_Some (Slot.worktree s !! rel))
             | None => false
             end).
Definition SUBMODULE_UPDATE : list string := ["submodule"; "update"; "--init"; "--recursive"; "--depth"; "1"].
Definition init_submodules (path : string) : run unit :=
  there ← file_exists ".gitmodules" path;
  when there (because ("git submodule update --init --recursive failed in " +:+ path)
                (git_output SUBMODULE_UPDATE path ;; mret tt)).
Definition trust_mise (path : string) : run unit :=
  there ← file_exists "mise.toml" path;
  when there (modify (λ d, set_slot path
    ((λ s, set_git (mise_trust (Slot.worktree s, Slot.repo s)) s) <$> slots d !! path) d)).

(** [git clone], in the project's directory. *)
Definition clone_git (args : list string) (path : string) : run unit := λ d,
  let '(r, made) := run_clone args (bool_decide (is_Some (slots d !! path))) in
  let d := match made with
           | Some wr => set_slot path (Some (Slot.mk wr.1 wr.2 None None)) d
           | None => d
           end in
  (match r with
   | Ok out => match git_result args out with Ok _ => Ok tt | Err e => Err e end
   | Err e => Err ("failed to spawn git: " +:+ e)
   end, d).
Definition clone_slot (project_key slot_name repo_url : string) : run unit :=
  let parent := project_pool_dir project_key in
  let slot := slot_path project_key slot_name in
  disk_io ("failed to create pool dir " +:+ parent) id id ;;
  because ("git clone failed for " +:+ repo_url)
    (clone_git ["clone"; "--filter=blob:none"; "--no-tags"; "--single-branch"; repo_url; slot_name] slot) ;;
  init_submodules slot ;;
  trust_mise slot.

Definition remove_slot (path : string) : run unit :=
  there ← gets (λ d, bool_decide (is_Some (slots d !! path)));
  when there (disk_io ("rm -rf " +:+ path +:+ " failed") (set_slot path None)
                (λ d, set_slot path (remains <$> slots d !! path) d)).
Definition reclone_slot (project_key slot_name repo_url : string) : run unit :=
  let slot := slot_path project_key slot_name in
  because ("failed to remove corrupted slot " +:+ slot) (retry 3 (remove_slot slot)) ;;
  because ("reclone failed for slot " +:+ slot) (clone_slot project_key slot_name repo_url).

Definition skipped_lines (ls_output : string) : list string :=
  omap (λ line, trim_end <$> strip_prefix "S " line) (lines ls_output).
Definition reset_slot (project_key slot_name : string) : run unit :=
  let slot := slot_path project_key slot_name in
  ls_output ← because ("git ls-files -v failed in " +:+ slot) (git_output ["ls-files"; "-v"] slot);
  let skipped := skipped_lines ls_output in
  (if bool_decide (skipped = []) then mret tt
   else because ("git update-index --no-skip-worktree failed in " +:+ slot)
          (git_output (["update-index"; "--no-skip-worktree"; "--"] ++ skipped) slot ;; mret tt)) ;;
  in_slot slot (discard slot) ;;
  git_in ["fetch"; "--no-tags"; "origin"] slot ;;
  because ("git checkout master failed in " +:+ slot) (git_output ["checkout"; "-f"; "master"] slot ;; mret tt) ;;
  because ("git reset --hard origin/master failed in " +:+ slot)
    (git_output ["reset"; "--hard"; "origin/master"] slot ;; mret tt) ;;
  because ("git clean -fdx failed in " +:+ slot) (git_output ["clean"; "-fdx"] slot ;; mret tt) ;;
  init_submodules slot.

(** Under the slot's mutex. *)
Definition recycle (project_key slot_name repo_url : string) : run string :=
  let slot := slot_path project_key slot_name in
  there ← gets (λ d, bool_decide (is_Some (slots d !! slot)));
  (if negb there then reclone_slot project_key slot_name repo_url
   else
     r ← attempt (reset_slot project_key slot_name);
     match r with
     | Ok _ => mret tt
     | Err _ => reclone_slot project_key slot_name repo_url
     end) ;;
  apply_overlays config_dir project_key slot ;;
  mret slot.

Definition refresh_shared_slot (slot : string) : run unit :=
  git_in ["fetch"; "--no-tags"; "origin"] slot ;;
  because ("git reset --hard origin/HEAD failed in " +:+ slot)
    (git_output ["reset"; "--hard"; "origin/HEAD"] slot ;; mret tt) ;;
  init_submodules slot.

(** ** The service *)

Abbreviation rpc A := (SE disk Status.t A).
Definition internal {A} (m : run A) : rpc A := map_err Status.internal m.

Definition scan_slots (project_key : string) : rpc (list Z) := internal (scan_slot_indices project_key).
Definition prepare_new_slot (project_key slot_name repo_url : string) : rpc string :=
  internal (clone_slot project_key slot_name repo_url) ;;
  internal (apply_overlays config_dir project_key (slot_path project_key slot_name)) ;;
  mret (slot_path project_key slot_name).
Definition recycle_slot (project_key slot_name repo_url : string) : rpc string :=
  internal (recycle project_key slot_name repo_url).
Definition prepare_shared_slot (project_key repo_url : string) : rpc string :=
  let slot := slot_path project_key "shared" in
  there ← gets (λ d, bool_decide (is_Some (slots d !! slot)));
  (if there : bool then internal (refresh_shared_slot slot)
   else internal (clone_slot project_key "shared" repo_url)) ;;
  mret slot.
Definition found (project_key slot_name : string) : rpc unit :=
  there ← gets (λ d, bool_decide (is_Some (slots d !! slot_path project_key slot_name)));
  if there : bool then mret tt else throw (Status.mk Status.NotFound ("slot not found: " +:+ project_key +:+ "/" +:+ slot_name) None).
Definition checkout_branch (project_key slot_name branch_prefix branch_name : string) : rpc unit :=
  let full_branch := branch_prefix +:+ branch_name in
  let slot := slot_path project_key slot_name in
  found project_key slot_name ;;
  internal (because ("git checkout -B " +:+ full_branch +:+ " failed in " +:+ slot)
    (git_output ["checkout"; "-B"; full_branch] slot ;; mret tt)).
Definition clean_slot (project_key slot_name : string) : rpc unit :=
  found project_key slot_name ;;
  internal (reset_slot project_key slot_name).

(** The daemon behind the server's pool. *)
Definition daemon_pool {HO : Host} (display : Status.code → string) `{!Lens host disk} : PoolHost := {|
  scan_slots_rpc project_key := zoom (scan_slots project_key);
  prepare_new_slot_rpc project_key slot_name repo_url := zoom (prepare_new_slot project_key slot_name repo_url);
  recycle_slot_rpc project_key slot_name repo_url := zoom (recycle_slot project_key slot_name repo_url);
  prepare_shared_slot_rpc project_key repo_url := zoom (prepare_shared_slot project_key repo_url);
  checkout_branch_rpc project_key slot_name branch_prefix branch_name :=
    zoom (checkout_branch project_key slot_name branch_prefix branch_name);
  clean_slot_rpc project_key slot_name := zoom (clean_slot project_key slot_name);
  code_display := display
|}.
End Handler.
End BuilderPoolHandler.
