(* ===== verification/TestGit.v ===== *)
(** * A concrete git

    A git that keeps an index, the skip-worktree flags and an upstream tree, as an
    instance of [GitTool] that has the laws of [LawfulGit] and [LawfulReset]; the
    witnesses about slots run on it. *)

From S2P Require Import Prelude RustStd Host RunOpts Overlay BuilderPool.
Local Open Scope stdpp_scope.

Record test_repo : Type := TestRepo {
  tr_index : files;
  tr_skipped : gset string;
  tr_upstream : files;
  tr_head : bool
}.
Definition tr_tracked (r : test_repo) : files := if tr_head r then tr_index r else ∅.
Definition tr_flags (r : test_repo) : gset string := tr_skipped r ∩ dom (tr_tracked r).
Definition said (success : bool) (out : string) : result GitOutput.t string :=
  Ok (GitOutput.mk success (if success then "0" else "1") out "").

Definition with_flags (f : gset string) (r : test_repo) : test_repo :=
  TestRepo (tr_index r) f (tr_upstream r) (tr_head r).
(** A command applies to tracked paths only, and fails on others. *)
Definition all_tracked (ps : list string) (r : test_repo) : bool :=
  bool_decide (list_to_set ps ⊆ dom (tr_tracked r)).
Definition test_ls_files (ps : list string) (r : test_repo) : result GitOutput.t string :=
  let out := join NUL (filter (λ p, p ∈ dom (tr_tracked r)) ps) in
  said (bool_decide (Forall (λ p, p ≠ "" → (p ∈ split NUL out ↔ p ∈ dom (tr_tracked r))) ps)) out.
Definition test_ls_files_v (r : test_repo) : result GitOutput.t string :=
  let out := join NEWLINE ((λ p, (if decide (p ∈ tr_flags r) then "S " else "H ") +:+ p) <$> elements (dom (tr_tracked r))) in
  said (bool_decide (Forall (λ p, ("S " +:+ p) ∈ lines out) (elements (tr_flags r)))) out.

Definition test_run_git (args : list string) (wr : files * test_repo)
    : result GitOutput.t string * (files * test_repo) :=
  let '(w, r) := wr in
  match list_strip ["update-index"; "--skip-worktree"; "--"] args, list_strip ["update-index"; "--no-skip-worktree"; "--"] args,
        list_strip ["--literal-pathspecs"; "ls-files"; "-z"; "--"] args, list_strip ["checkout"; "--"] args with
  | Some ps, _, _, _ => (said (all_tracked ps r) "", (w, with_flags (tr_flags r ∪ list_to_set ps) r))
  | None, Some ps, _, _ => (said (all_tracked ps r) "", (w, with_flags (tr_flags r ∖ list_to_set ps) r))
  | None, None, Some ps, _ => (test_ls_files ps r, (w, r))
  | None, None, None, Some ps =>
      (said (all_tracked ps r) "",
       (filter (λ kv, kv.1 ∈ ps ∧ kv.1 ∉ tr_flags r) (tr_tracked r) ∪ w, r))
  | _, _, _, _ =>
      if decide (args = ["ls-files"; "-v"]) then (test_ls_files_v r, (w, r))
      else if decide (args = ["reset"; "--hard"; "origin/master"]) then
        let r' := TestRepo (tr_upstream r) (tr_flags r) (tr_upstream r) true in
        (said true "", (filter (λ kv, kv.1 ∉ tr_flags r') (tr_tracked r') ∪ w, r'))
      else if decide (args = ["clean"; "-fdx"]) then
        (said true "", (filter (λ kv, kv.1 ∈ dom (tr_tracked r)) w, r))
      else (said true "", (w, r))
  end.

Definition remote_tree : files := {[ "README.md" := Regular "read me"; "config.toml" := Regular "default" ]}.
Definition test_clone (args : list string) (there : bool) : result GitOutput.t string * option (files * test_repo) :=
  if there then (said false "", None)
  else (said true "", Some (remote_tree, TestRepo remote_tree ∅ remote_tree true)).

#[export] Instance test_git : GitTool := {|
  repository := test_repo;
  index := tr_tracked;
  skipped := tr_flags;
  upstream := tr_upstream;
  is_repository := tr_head;
  nested _ _ := False;
  run_git := test_run_git;
  run_clone := test_clone
|}.
#[export] Program Instance test_order : DirOrder := {| listed X := elements X |}.
Next Obligation. done. Qed.
#[export] Instance test_tools : PoolTools := {| tip r := tr_upstream r; remains s := s; mise_trust wr := wr |}.

Lemma said_success b o out : said b out = Ok o → GitOutput.success o = b.
Proof. by intros [= <-]. Qed.
Lemma all_tracked_true ps r : all_tracked ps r = true ↔ list_to_set ps ⊆ dom (tr_tracked r).
Proof. apply bool_decide_eq_true. Qed.
Lemma flags_with f r : tr_flags (with_flags f r) = f ∩ dom (tr_tracked r).
Proof. done. Qed.
Lemma flags_tracked r : tr_flags r ⊆ dom (tr_tracked r).
Proof. unfold tr_flags. set_solver. Qed.

#[export] Instance test_git_lawful : LawfulGit.
Proof.
  split.
  - intros r. apply flags_tracked.
  - intros r Hr. cbn in *. unfold tr_tracked. by rewrite Hr.
  - intros ps w r o w' r' [= <- <- <-] Hs. cbn in *. apply all_tracked_true in Hs. split_and!; [done..|].
    rewrite flags_with. pose proof (flags_tracked r). set_solver.
  - intros ps w r o w' r' [= <- <- <-] Hs. cbn in *. apply all_tracked_true in Hs. split_and!; [done..|].
    rewrite flags_with. pose proof (flags_tracked r). set_solver.
  - intros ps w r o w' r' [= <- <- <-] Hs. split; [done|]. cbn in *. apply bool_decide_eq_true in Hs.
    rewrite Forall_forall in Hs. intros p Hp Hne. by apply Hs.
  - intros ps w r o w' r' [= <- <- <-] Hs. cbn in *. apply all_tracked_true in Hs. split_and!; [done..| |].
    + intros p Hp Hk. assert (p ∈ dom (tr_tracked r)) as [n Hn]%elem_of_dom by set_solver. rewrite Hn.
      apply lookup_union_Some_l. by apply map_lookup_filter_Some.
    + intros p Hp. left. rewrite lookup_union_r; [done|]. apply map_lookup_filter_None. right. intros n _ []. done.
Qed.
#[export] Instance test_reset_lawful : LawfulReset.
Proof.
  split.
  - intros w r o w' r' [= <- <- <-] Hs. split; [done|]. cbn in *. apply bool_decide_eq_true in Hs.
    rewrite Forall_forall in Hs. intros p Hp. exists p. split; [apply Hs; by apply elem_of_elements|by left].
  - by intros w r o w' r' [= <- <- <-] Hs.
  - by intros w r o w' r' [= <- <- <-] Hs.
  - intros w r o w' r' [= <- <- <-] Hs. cbn. split_and!; [done..| |].
    + unfold tr_flags at 1. cbn. set_solver.
    + intros p [n Hn]%elem_of_dom Hk. rewrite Hn. apply lookup_union_Some_l. by apply map_lookup_filter_Some.
  - intros w r o w' r' [= <- <- <-] Hs. cbn. split_and!; [done..| |].
    + intros p Hp. destruct (w !! p) as [n|] eqn:E; [by apply map_lookup_filter_Some|]. apply map_lookup_filter_None. by left.
    + intros p Hp. left. apply map_lookup_filter_None. by right.
  - by intros w r o w' r' [= <- <- <-] Hs.
  - intros args [] o w r; [done|]. intros [= <- <- <-] _. cbn. split_and!; [set_solver|done|].
    intros p Hp. left. by apply not_elem_of_dom.
  - intros args [] o; [|done]. by intros [= <-].
  - done.
Qed.
