(* ===== verification/OverlayProps.v ===== *)
(** * Git never sees the local overlays

    Concealing takes every overlay out of the working tree and captures what the
    worker wrote into it, revealing lays all of them back, and while a bracketed
    command runs in a slot they stay hidden; and the interrupted command after which
    the overlays are lost. *)

From S2P Require Import Prelude RustStd TextLemmas Host RunOpts Overlay BuilderPool TestGit.
From Stdlib Require Import Ascii Lia.
Local Open Scope stdpp_scope.

Section Overlays.
Context {GT : GitTool} {DO : DirOrder} {LG : LawfulGit} (path : string).
Import Slot.
Implicit Types (s : Slot.t) (x y z : site).

(** ** What the states look like *)

(** The copies of the overlays. *)
Definition overlays s : gmap string string := default ∅ (copies s).
(** Git sees what it tracks, and nothing else, where an overlay belongs. *)
Definition hidden s : Prop := ∀ rel, rel ∈ dom (overlays s) → worktree s !! rel = index (repo s) !! rel.
(** Every overlay is in place. *)
Definition shown s : Prop := ∀ rel c, overlays s !! rel = Some c → worktree s !! rel = Some (Regular c).
(** The flags on overlays are those on record; a path is not empty. *)
Definition recorded s : Prop :=
  "" ∉ dom (overlays s) ∧ ∀ rel, rel ∈ dom (overlays s) → rel ∈ skipped (repo s) → rel ∈ default [] (pinned s).
(** The copies after the worker's edits are captured. *)
Definition captured (w : files) (c : gmap string string) : gmap string string :=
  map_imap (λ rel old, match w !! rel with Some (Regular new) => Some new | _ => Some old end) c.

Lemma dom_captured w c : dom (captured w c) = dom c.
Proof.
  apply set_eq. intros rel. unfold captured. rewrite !elem_of_dom, map_lookup_imap.
  destruct (c !! rel); cbn; [|done]. by destruct (w !! rel) as [[]|].
Qed.

(** ** Single calls *)

Lemma io_Ok {A} what (f : Slot.t → result A string * Slot.t) x a y :
  io what f x = (Ok a, y) → f (slot x) = (Ok a, slot y).
Proof.
  unfold io. destruct (failures x) as [|[e|] l]; [|done|].
  all: destruct (f (slot x)) as [[b|e] s]; [|done]; by intros [= -> <-].
Qed.
Lemma io_do_Ok what f x a y : io_do what f x = (Ok a, y) → slot y = f (slot x).
Proof. unfold io_do. intros H%io_Ok. cbn in H. congruence. Qed.
Lemma look_Ok {A} (f : Slot.t → A) x a y : look f x = (Ok a, y) → a = f (slot x) ∧ y = x.
Proof. unfold look. rewrite run_gets. by intros [= -> ->]. Qed.
Lemma git_Ok args x out y : git path args x = (Ok out, y) →
  ∃ o wr, run_git args (worktree (slot x), repo (slot x)) = (Ok o, wr) ∧ GitOutput.success o = true
    ∧ out = GitOutput.stdout o ∧ slot y = set_git wr (slot x).
Proof.
  unfold git. intros (o & z & Hs & H)%bind_Ok. unfold spawn_git in Hs.
  destruct (run_git args _) as [[o'|e] wr] eqn:Hg; [|done]. injection Hs as -> <-.
  destruct (GitOutput.success o) eqn:E; [|done]. apply ret_Ok in H as [-> ->]. by exists o, wr.
Qed.

Lemma capture_Ok rel x u y : capture path rel x = (Ok u, y) →
  slot y = set_copies ((λ c, match worktree (slot x) !! rel with Some (Regular new) => <[rel := new]> c | _ => c end)
             <$> copies (slot x)) (slot x).
Proof.
  unfold capture. intros (n & z & [-> ->]%look_Ok & H)%bind_Ok. destruct (worktree (slot x) !! rel) as [[c|t]|].
  - by apply io_do_Ok in H.
  - apply ret_Ok in H as [_ ->]. destruct (slot x) as [w r [c|] p]; done.
  - apply ret_Ok in H as [_ ->]. destruct (slot x) as [w r [c|] p]; done.
Qed.
Lemma captures_Ok rels x u y cs : for_each (capture path) rels x = (Ok u, y) → copies (slot x) = Some cs →
  ∃ cs', slot y = set_copies (Some cs') (slot x)
    ∧ ∀ rel, cs' !! rel = match worktree (slot x) !! rel with
                          | Some (Regular new) => if decide (rel ∈ rels) then Some new else cs !! rel
                          | _ => cs !! rel
                          end.
Proof.
  revert x cs. induction rels as [|r rels IH]; intros x cs; cbn [for_each].
  - intros [_ ->]%ret_Ok Hc. exists cs. split; [by destruct (slot x); cbn in Hc; subst|]. intros rel.
    by destruct (worktree (slot x) !! rel) as [[]|].
  - intros (? & z & Hz%capture_Ok & H)%bind_Ok Hc. rewrite Hc in Hz. cbn in Hz.
    edestruct (IH z) as (cs' & Hy & Hcs'); [exact H|by rewrite Hz|]. exists cs'.
    split; [by rewrite Hy, Hz|]. intros rel. rewrite Hcs', Hz. cbn.
    destruct (decide (rel = r)) as [->|Hne].
    + destruct (worktree (slot x) !! r) as [[new|t]|]; [|done..]. rewrite lookup_insert_eq.
      case_decide; by rewrite decide_True by set_solver.
    + destruct (worktree (slot x) !! rel) as [[new|t]|] eqn:E.
      1: destruct (decide (rel ∈ rels)) as [|Hn];
           [by rewrite decide_True by set_solver|rewrite (decide_False (P := rel ∈ r :: rels)) by set_solver].
      all: destruct (worktree (slot x) !! r) as [[]|]; rewrite ?lookup_insert_ne; done.
Qed.

Lemma removes_Ok rels x u y : for_each (remove_overlay path) rels x = (Ok u, y) →
  ∃ w, slot y = set_worktree w (slot x) ∧ ∀ rel, w !! rel = if decide (rel ∈ rels) then None else worktree (slot x) !! rel.
Proof.
  revert x. induction rels as [|r rels IH]; intros x; cbn [for_each].
  - intros [_ ->]%ret_Ok. exists (worktree (slot x)). by split; [destruct (slot x)|].
  - intros (? & z & Hz & H)%bind_Ok.
    assert (slot z = set_worktree (delete r (worktree (slot x))) (slot x)) as Hz'.
    { unfold remove_overlay in Hz. apply bind_Ok in Hz as (n & z' & [-> ->]%look_Ok & Hz).
      destruct (worktree (slot x) !! r) eqn:E; [by apply io_do_Ok in Hz|].
      apply ret_Ok in Hz as [_ ->]. rewrite delete_id by done. by destruct (slot x). }
    destruct (IH z H) as (w & Hy & Hw). exists w. split; [by rewrite Hy, Hz'|]. intros rel. rewrite Hw, Hz'. cbn.
    destruct (decide (rel = r)) as [->|Hne].
    + rewrite lookup_delete_eq. rewrite (decide_True (P := r ∈ r :: rels)) by set_solver. by case_decide.
    + rewrite lookup_delete_ne by done. case_decide; [by rewrite decide_True by set_solver|].
      by rewrite decide_False by set_solver.
Qed.

(** The tracked ones among some paths. *)
Lemma tracked_Ok rels x tr y : tracked_subset path rels x = (Ok tr, y) →
  slot y = slot x ∧ ∀ rel, rel ∈ rels → rel ≠ "" → (rel ∈ tr ↔ rel ∈ dom (index (repo (slot x)))).
Proof.
  unfold tracked_subset. intros (b & z & [-> ->]%look_Ok & H)%bind_Ok.
  destruct (bool_decide (rels = []) || negb (is_repository (repo (slot x)))) eqn:E.
  - apply ret_Ok in H as [-> ->]. split; [done|]. intros rel Hrel _. apply orb_true_iff in E as [E|E].
    + apply bool_decide_eq_true in E as ->. set_solver.
    + apply negb_true_iff in E. rewrite (no_repository _ E). set_solver.
  - apply bind_Ok in H as (out & z & (o & [w r] & Hg & Hs & -> & Hz)%git_Ok & [-> ->]%ret_Ok).
    destruct (git_ls_files _ _ _ _ _ _ Hg Hs) as [[= -> ->] Hl]. split.
    + rewrite Hz. by destruct (slot x).
    + intros rel Hrel Hne. rewrite elem_of_list_to_set, list_elem_of_filter, Hl by done. naive_solver.
Qed.

(** ** Concealing and revealing *)

Lemma read_pinned_Ok x l y : read_pinned path x = (Ok l, y) → l = default [] (pinned (slot x)) ∧ slot y = slot x.
Proof.
  unfold read_pinned. intros (o & z & [-> ->]%look_Ok & H)%bind_Ok. destruct (pinned (slot x)) as [p|].
  - apply io_Ok in H. injection H as -> ->. done.
  - by apply ret_Ok in H as [-> ->].
Qed.
(** Clearing the flags on record. *)
Lemma unpin_Ok (l : list string) x (u : unit) y :
  (if bool_decide (l = []) then mret tt
   else git path (["update-index"; "--no-skip-worktree"; "--"] ++ l) ;; mret tt) x = (Ok u, y) →
  ∃ r, slot y = set_git (worktree (slot x), r) (slot x) ∧ index r = index (repo (slot x))
    ∧ upstream r = upstream (repo (slot x)) ∧ skipped r = skipped (repo (slot x)) ∖ list_to_set l.
Proof.
  case_bool_decide as Hl.
  - intros [_ ->]%ret_Ok. exists (repo (slot x)). split_and!; [by destruct (slot x)|done|done|]. rewrite Hl. set_solver.
  - intros (out & z & (o & [w r] & Hg & Hs & _ & Hz)%git_Ok & [_ ->]%ret_Ok)%bind_Ok.
    destruct (git_no_skip _ _ _ _ _ _ Hg Hs) as (_ & -> & ? & ? & ?). by exists r.
Qed.
(** Restoring the tracked ones. *)
Lemma checkout_Ok (tr : gset string) x (u : unit) y :
  (if bool_decide (tr = ∅) then mret tt else git path (["checkout"; "--"] ++ listed tr) ;; mret tt) x = (Ok u, y) →
  ∃ w r, slot y = set_git (w, r) (slot x) ∧ index r = index (repo (slot x)) ∧ upstream r = upstream (repo (slot x))
    ∧ skipped r = skipped (repo (slot x))
    ∧ (∀ p, p ∈ tr → (p ∉ skipped r) → w !! p = index r !! p)
    ∧ ∀ p, (p ∉ tr) → w !! p = worktree (slot x) !! p ∨ w !! p = None.
Proof.
  case_bool_decide as Htr.
  - intros [_ ->]%ret_Ok. exists (worktree (slot x)), (repo (slot x)).
    split_and!; [by destruct (slot x)|done..| |by left]. rewrite Htr. set_solver.
  - intros (out & z & (o & [w r] & Hg & Hs & _ & Hz)%git_Ok & [_ ->]%ret_Ok)%bind_Ok.
    destruct (git_checkout_paths _ _ _ _ _ _ Hg Hs) as (Hi & Hu & Hk & Hin & Hout). exists w, r.
    split_and!; [done..| | ]; intros p Hp.
    + rewrite Hk, Hi. apply Hin. by rewrite listed_elements, elem_of_elements.
    + apply Hout. by rewrite listed_elements, elem_of_elements.
Qed.

Lemma conceal_Ok x u y : recorded (slot x) → conceal path x = (Ok u, y) →
  overlays (slot y) = captured (worktree (slot x)) (overlays (slot x))
  ∧ pinned (slot y) = pinned (slot x) ∧ is_Some (copies (slot x)) ∧ is_Some (copies (slot y))
  ∧ index (repo (slot y)) = index (repo (slot x)) ∧ hidden (slot y)
  ∧ ∀ rel, rel ∈ dom (overlays (slot y)) → rel ∉ skipped (repo (slot y)).
Proof.
  intros [Hne Hrec]. unfold conceal. intros (rels & x0 & Hl%io_Ok & H)%bind_Ok.
  destruct (copies (slot x)) as [cs|] eqn:Hc; [|done]. injection Hl as <- Hx0.
  assert (overlays (slot x) = cs) as Ho by (unfold overlays; by rewrite Hc). rewrite Ho in *.
  assert (∀ rel, rel ∈ listed (dom cs) ↔ rel ∈ dom cs) as Hlisted.
  { intros rel. by rewrite listed_elements, elem_of_elements. }
  apply bind_Ok in H as (v1 & x1 & Hcap & H). eapply captures_Ok in Hcap as (cs' & Hx1 & Hcs'); [|by rewrite <-Hx0].
  apply bind_Ok in H as (v2 & x2 & [-> Hx2]%read_pinned_Ok & H).
  apply bind_Ok in H as (v3 & x3 & (r & Hx3 & Hi3 & Hu3 & Hs3)%unpin_Ok & H).
  apply bind_Ok in H as (tr & x4 & Htr & H). rewrite Hx2, Hx1, <-Hx0 in *. cbn in Hx3, Hi3, Hu3, Hs3.
  apply tracked_Ok in Htr as (Hx4 & Htr).
  apply bind_Ok in H as (v4 & x5 & (w & Hx5 & Hw)%removes_Ok & (w' & r' & Hy & Hi & Hu & Hs & Hin & Hout)%checkout_Ok).
  rewrite Hx5, Hx4, Hx3 in *. cbn in Htr, Hw, Hi, Hu, Hs, Hin, Hout, Hy. rewrite Hy. unfold overlays, hidden. cbn.
  assert (cs' = captured (worktree (slot x)) cs) as ->.
  { apply map_eq. intros rel. rewrite Hcs'. unfold captured. rewrite map_lookup_imap.
    destruct (worktree (slot x) !! rel) as [[new|t]|]; [|by destruct (cs !! rel)..].
    case_decide as Hd; rewrite Hlisted in Hd.
    - by apply elem_of_dom in Hd as [old ->].
    - by apply not_elem_of_dom in Hd as ->. }
  rewrite dom_captured.
  assert (∀ rel, rel ∈ dom cs → rel ∉ skipped r') as Hflags.
  { intros rel Hrel. rewrite Hs, Hs3, elem_of_difference, elem_of_list_to_set. intros [Hsk Hp]. by apply Hp, Hrec. }
  split_and!; try done; [congruence|]. intros rel Hrel. destruct (decide (rel ∈ tr)) as [Hd|Hd].
  - apply Hin; [done|by apply Hflags].
  - assert (index r' !! rel = None) as ->.
    { apply not_elem_of_dom. rewrite Hi, <-Htr; [done|by apply Hlisted|by intros ->]. }
    destruct (Hout rel Hd) as [-> | ->]; [|done]. rewrite Hw, decide_True; [done|].
    apply list_elem_of_filter. by rewrite Hlisted.
Qed.

Lemma dedup_runs_elem a l : a ∈ dedup_runs l ↔ a ∈ l.
Proof.
  induction l as [|b l IH]; [done|]. cbn [dedup_runs]. destruct l as [|c l]; [done|].
  case_decide as E; [subst; rewrite IH; set_solver|]. rewrite elem_of_cons, IH. by rewrite <-elem_of_cons.
Qed.
(** What is laid back, and what is recorded of it. *)
Lemma replace_symlink_Ok rel x l y : replace_symlink_collecting path rel x = (Ok l, y) →
  ∃ w, slot y = set_worktree w (slot x) ∧ ∀ p, p ≠ rel → w !! p = worktree (slot x) !! p.
Proof.
  unfold replace_symlink_collecting. intros (n & z & [-> ->]%look_Ok & H)%bind_Ok.
  destruct (worktree (slot x) !! rel) as [[]|].
  2: { apply bind_Ok in H as (? & z & Hz%io_do_Ok & [-> ->]%ret_Ok). rewrite Hz. eexists. split; [done|].
       intros p Hp. by rewrite lookup_delete_ne. }
  all: apply ret_Ok in H as [_ ->]; exists (worktree (slot x)); split; [by destruct (slot x)|done].
Qed.
Lemma copies_Ok rels x l y : copy_to_slot path rels x = (Ok l, y) →
  ∃ w, slot y = set_worktree w (slot x) ∧ (∀ rel, rel ∈ rels → rel ∈ l)
    ∧ (∀ rel, (rel ∉ rels) → w !! rel = worktree (slot x) !! rel)
    ∧ ∀ rel, rel ∈ rels → ∃ c, overlays (slot x) !! rel = Some c ∧ w !! rel = Some (Regular c).
Proof.
  revert x l. induction rels as [|r rels IH]; intros x l; cbn [copy_to_slot].
  - intros [-> ->]%ret_Ok. exists (worktree (slot x)). split_and!; [by destruct (slot x)|set_solver..].
  - intros (links & x1 & (w1 & Hx1 & Hw1)%replace_symlink_Ok & H)%bind_Ok.
    apply bind_Ok in H as (u & x2 & Hcopy%io_Ok & H). apply bind_Ok in H as (rest & x3 & Hrest & [-> ->]%ret_Ok).
    rewrite Hx1 in Hcopy. cbn in Hcopy. destruct (copies (slot x)) as [cs|] eqn:Hc; [|done]. cbn in Hcopy.
    destruct (cs !! r) as [c|] eqn:Hr; [|done]. injection Hcopy as _ Hx2.
    destruct (IH x2 rest Hrest) as (w & Hy & Hl & Hout & Hw). exists w. rewrite <-Hx2 in Hy, Hw, Hout. cbn in Hy, Hw, Hout.
    unfold overlays in *. cbn in Hw. rewrite Hc in *. cbn in *. split_and!.
    + by rewrite Hy.
    + set_solver.
    + intros rel [Hne Hn]%not_elem_of_cons. by rewrite Hout, lookup_insert_ne, Hw1.
    + intros rel [->|Hrel]%elem_of_cons; [|by apply Hw]. destruct (decide (r ∈ rels)) as [Hd|Hd]; [by apply Hw|].
      exists c. split; [done|]. by rewrite Hout, lookup_insert_eq.
Qed.
Lemma pin_Ok (l : list string) x (u : unit) y :
  (if bool_decide (l = []) then mret tt
   else git path (["update-index"; "--skip-worktree"; "--"] ++ l) ;; mret tt) x = (Ok u, y) →
  ∃ r, slot y = set_git (worktree (slot x), r) (slot x) ∧ index r = index (repo (slot x))
    ∧ skipped r = skipped (repo (slot x)) ∪ list_to_set l.
Proof.
  case_bool_decide as Hl.
  - intros [_ ->]%ret_Ok. exists (repo (slot x)). split_and!; [by destruct (slot x)|done|]. rewrite Hl. set_solver.
  - intros (out & z & (o & [w r] & Hg & Hs & _ & Hz)%git_Ok & [_ ->]%ret_Ok)%bind_Ok.
    destruct (git_skip _ _ _ _ _ _ Hg Hs) as (-> & ? & _ & ?). by exists r.
Qed.
Lemma reveal_any x u y : reveal path x = (Ok u, y) →
  is_Some (copies (slot x)) ∧ copies (slot y) = copies (slot x) ∧ index (repo (slot y)) = index (repo (slot x))
  ∧ shown (slot y) ∧ (("" ∉ dom (overlays (slot x))) → recorded (slot y)).
Proof.
  unfold reveal. intros (rels & x0 & Hl%io_Ok & H)%bind_Ok.
  destruct (copies (slot x)) as [cs|] eqn:Hc; [|done]. injection Hl as <- Hx0.
  assert (overlays (slot x) = cs) as Ho by (unfold overlays; by rewrite Hc). rewrite Ho in *.
  assert (∀ rel, rel ∈ listed (dom cs) ↔ rel ∈ dom cs) as Hlisted.
  { intros rel. by rewrite listed_elements, elem_of_elements. }
  apply bind_Ok in H as (placed & x1 & (w & Hx1 & Hpl & _ & Hw)%copies_Ok & H). rewrite <-Hx0, Ho in *.
  apply bind_Ok in H as (tr & x2 & Htr & H).
  apply tracked_Ok in Htr as (Hx2 & Htr). rewrite Hx1 in *. cbn in Htr.
  apply bind_Ok in H as (v1 & x3 & (r & Hx3 & Hi & Hs)%pin_Ok & Hy%io_Ok). rewrite Hx3, Hx2 in *. cbn in Hy, Hi, Hs.
  rewrite Hc in Hy. cbn in Hy. injection Hy as _ <-. unfold shown, recorded, overlays. cbn. rewrite Hc. cbn.
  split; [by eexists|]. split; [done|]. split; [done|]. split; [|intros Hne; split; [done|]].
  - intros rel c Hrel. destruct (Hw rel) as (c' & Hc' & ->); [apply Hlisted; by eapply elem_of_dom_2|congruence].
  - intros rel Hrel Hsk. rewrite dedup_runs_elem, merge_sort_Permutation, list_elem_of_filter.
    assert (rel ∈ placed) as Hp by (by apply Hpl, Hlisted). split; [|done].
    apply Htr; [done|by intros ->|]. rewrite <-Hi. by apply skipped_tracked.
Qed.
Lemma reveal_Ok x u y : ("" ∉ dom (overlays (slot x))) → reveal path x = (Ok u, y) →
  is_Some (copies (slot x)) ∧ copies (slot y) = copies (slot x) ∧ index (repo (slot y)) = index (repo (slot x))
  ∧ shown (slot y) ∧ recorded (slot y).
Proof. intros Hne (? & ? & ? & ? & ?)%reveal_any. by auto 6. Qed.
(** Nothing else moves. *)
Lemma reveal_frame x u y rel : reveal path x = (Ok u, y) → (rel ∉ dom (overlays (slot x))) →
  worktree (slot y) !! rel = worktree (slot x) !! rel.
Proof.
  unfold reveal. intros (rels & x0 & Hl%io_Ok & H)%bind_Ok Hn.
  destruct (copies (slot x)) as [cs|] eqn:Hc; [|done]. injection Hl as <- Hx0.
  unfold overlays in Hn. rewrite Hc in Hn. cbn in Hn.
  apply bind_Ok in H as (placed & x1 & (w & Hx1 & _ & Hw & _)%copies_Ok & H).
  apply bind_Ok in H as (tr & x2 & [Hx2 _]%tracked_Ok & H).
  apply bind_Ok in H as (v1 & x3 & (r & Hx3 & _)%pin_Ok & Hy%io_Ok). rewrite Hx3, Hx2, Hx1 in Hy. cbn in Hy.
  assert (worktree (slot y) = w) as ->.
  { destruct (copies (slot x0)), (pinned (slot x0)); try done; by injection Hy as _ <-. }
  rewrite Hw, <-Hx0; [done|]. by rewrite listed_elements, elem_of_elements.
Qed.

(** What the worker sees where an overlay belongs. *)
Definition latest s (rel : string) : option string :=
  match worktree s !! rel with Some (Regular new) => Some new | _ => overlays s !! rel end.

(** Bracketing a command loses nothing of the overlays.  When a slot is concealed before a
    command and revealed after it, git sees none of them in between, whatever the
    command does to the working tree and the repository, and afterwards every overlay
    is back with what the worker last had in it. *)
Theorem bracket_roundtrip x y z z' u u' :
  recorded (slot x) → conceal path x = (Ok u, y) →
  copies (slot z) = copies (slot y) → reveal path z = (Ok u', z') →
  hidden (slot y)
  ∧ ∀ rel c, rel ∈ dom (overlays (slot x)) → latest (slot x) rel = Some c → worktree (slot z') !! rel = Some (Regular c).
Proof.
  intros Hr Hc Hz Hv. pose proof (conceal_Ok _ _ _ Hr Hc) as (Ho & _ & _ & _ & _ & Hh & _).
  assert (overlays (slot z) = overlays (slot y)) as Hoz by (unfold overlays; by rewrite Hz).
  assert ("" ∉ dom (overlays (slot z))) as Hne by (rewrite Hoz, Ho, dom_captured; apply Hr).
  destruct (reveal_Ok _ _ _ Hne Hv) as (_ & Hcz & _ & Hs & _). split; [done|]. intros rel c Hrel Hl. apply Hs.
  assert (overlays (slot z') = captured (worktree (slot x)) (overlays (slot x))) as ->.
  { rewrite <-Ho, <-Hoz. unfold overlays. by rewrite Hcz. }
  unfold captured, latest in *. rewrite map_lookup_imap. apply elem_of_dom in Hrel as [old Hold]. rewrite Hold in *. cbn.
  by destruct (worktree (slot x) !! rel) as [[new|t]|].
Qed.

(** An interrupted conceal loses the overlays.  When a slot is concealed and concealed
    again without a reveal in between, the second pass captures the files of the index
    as if the worker had written them: an overlay of a tracked path is overwritten by
    what git tracks.  That is what the next command does after a request that was
    dropped while its conceal waited for git. *)
Theorem interrupted_conceal_loses x y z u u' rel i :
  recorded (slot x) → conceal path x = (Ok u, y) → conceal path y = (Ok u', z) →
  rel ∈ dom (overlays (slot x)) → index (repo (slot x)) !! rel = Some (Regular i) →
  overlays (slot z) !! rel = Some i.
Proof.
  intros Hr Hx Hy Hrel Hi. destruct (conceal_Ok _ _ _ Hr Hx) as (Ho & Hp & _ & _ & Hix & Hh & Hf).
  assert (recorded (slot y)) as Hry.
  { split; [rewrite Ho, dom_captured; apply Hr|]. intros r Hr' Hs. by destruct (Hf r Hr'). }
  destruct (conceal_Ok _ _ _ Hry Hy) as (Ho' & _).
  assert (rel ∈ dom (overlays (slot y))) as Hrel' by (by rewrite Ho, dom_captured).
  rewrite Ho'. unfold captured. rewrite map_lookup_imap. rewrite (Hh rel Hrel'), Hix, Hi.
  by apply elem_of_dom in Hrel' as [old ->].
Qed.
End Overlays.

(** ** Commands side by side *)

Section Leases.
Context {GT : GitTool} {DO : DirOrder} {LG : LawfulGit} (workspace path : string).
Implicit Types (d : disk) (s : Slot.t).

(** What holds of the slot, if it is there. *)
Definition of_slot (P : Slot.t → Prop) d : Prop := from_option P True (slots d !! path).

(** What the commands of workers do to a working tree and a repository: anything. *)
Context (effect : files * repository → files * repository → Prop).
Definition worked s s' : Prop := ∃ wr, effect (Slot.worktree s, Slot.repo s) wr ∧ s' = set_git wr s.
(** A slot before and after a conceal that succeeds. *)
Definition concealed_from s s' : Prop := ∃ fs u x, conceal path (Site s fs) = (Ok u, x) ∧ slot x = s'.

(** The commands in the slot [path], how many hold a lease on it, and whether every
    call of the manager succeeded so far.  A command is admitted, or refused; it works
    while it holds its lease; it ends, and laying the overlays back may fail.  Without
    commands the worker edits its files. *)
Inductive bracket_step : disk * nat * bool → disk * nat * bool → Prop :=
| step_enter d d' n ok dir : conceal_for workspace dir d = (Ok (Some path), d') → bracket_step (d, n, ok) (d', S n, ok)
| step_refused d d' n ok dir e :
    conceal_for workspace dir d = (Err e, d') → overlaid_slot_for workspace dir d = Some path →
    bracket_step (d, n, ok) (d', n, false)
| step_command d n ok s s' :
    slots d !! path = Some s → worked s s' →
    bracket_step (d, S n, ok) (Disk (<[path := s']> (slots d)) (local_dirs d) (active d) (io_failures d), S n, ok)
| step_edit d ok s w :
    slots d !! path = Some s →
    bracket_step (d, 0, ok)
      (Disk (<[path := set_worktree w s]> (slots d)) (local_dirs d) (active d) (io_failures d), 0, ok)
| step_leave d d' n ok u : reveal_after path d = (Ok u, d') → bracket_step (d, S n, ok) (d', n, ok)
| step_leave_failed d d' n ok e : reveal_after path d = (Err e, d') → bracket_step (d, S n, ok) (d', n, false).

(** What the commands in a slot have worked on: the slot as the first of them found
    it concealed, changed by them only. *)
Definition under_lease (ok : bool) s : Prop := ∃ s0 s1, concealed_from s0 s1 ∧ (ok = true → recorded s0) ∧ rtc worked s1 s.

Record bracketed (st : disk * nat * bool) : Prop := Bracketed {
  bracketed_count : counter path st.1.1 = st.1.2;
  bracketed_named : st.2 = true → of_slot (λ s, "" ∉ dom (overlays s)) st.1.1;
  bracketed_recorded : st.2 = true → st.1.2 = 0 → of_slot recorded st.1.1;
  bracketed_lease : st.1.2 ≠ 0 → of_slot (under_lease st.2) st.1.1
}.

Lemma counter_set p n d : counter p (set_active p n d) = n.
Proof. unfold counter, set_active. cbn. by rewrite lookup_insert_eq. Qed.
Lemma in_slot_Ok {A} (m : SE site string A) d a d' : in_slot path m d = (Ok a, d') →
  ∃ s x, slots d !! path = Some s ∧ m (Site s (io_failures d)) = (Ok a, x) ∧ slots d' !! path = Some (slot x)
    ∧ active d' = active d.
Proof.
  unfold in_slot. destruct (slots d !! path) as [s|] eqn:Hs; [|done].
  destruct (m _) as [r x] eqn:Hm. intros [= -> <-]. exists s, x. cbn. by rewrite lookup_insert_eq.
Qed.
Lemma in_slot_active {A} (m : SE site string A) d r d' : in_slot path m d = (r, d') → active d' = active d.
Proof. unfold in_slot. destruct (slots d !! path); [|by intros [= _ <-]]. destruct (m _). by intros [= _ <-]. Qed.

(** Admission: the first command conceals the slot, a later one leaves it as it is. *)
Lemma enter_Ok d u d' : enter path d = (Ok u, d') →
  counter path d' = S (counter path d)
  ∧ if bool_decide (counter path d = 0)
    then ∃ s s', slots d !! path = Some s ∧ slots d' !! path = Some s' ∧ concealed_from s s'
    else slots d' = slots d.
Proof.
  unfold enter. intros (n & d0 & Hn & H)%bind_Ok. rewrite run_gets in Hn. injection Hn as <- <-.
  apply bind_Ok in H as (u1 & d1 & H & Hset). rewrite run_modify in Hset. injection Hset as _ <-.
  rewrite counter_set. split; [done|]. cbn. case_bool_decide as H0.
  - apply bind_Ok in H as (r & d2 & Ha%attempt_Ok & H). destruct r as [u2|e].
    + apply ret_Ok in H as [_ ->]. apply in_slot_Ok in Ha as (s & x & Hs & Hc & Hs' & _).
      exists s, (slot x). split_and!; [done..|]. by exists (io_failures d), u2, x.
    + apply bind_Ok in H as (r & d3 & _ & H). by destruct r.
  - by apply ret_Ok in H as [_ ->].
Qed.
Lemma enter_Err d e d' : enter path d = (Err e, d') → counter path d = 0 ∧ counter path d' = 0.
Proof.
  unfold enter. rewrite run_bind, run_gets. case_bool_decide as H0; [|done]. intros H. split; [done|].
  rewrite !run_bind, run_attempt in H. destruct (in_slot path (conceal path) d) as [[u|ce] d1] eqn:E1; cbn [fst snd] in H; [done|].
  rewrite run_bind, run_attempt in H. destruct (in_slot path (reveal path) d1) as [r d2] eqn:E2. injection H as _ <-.
  apply in_slot_active in E1, E2. unfold counter in *. cbn. by rewrite E2, E1.
Qed.
Lemma conceal_for_Ok dir d d' : conceal_for workspace dir d = (Ok (Some path), d') → ∃ u, enter path d = (Ok u, d').
Proof.
  unfold conceal_for. intros (o & d0 & Ho & H)%bind_Ok. rewrite run_gets in Ho. injection Ho as <- <-.
  destruct (overlaid_slot_for workspace dir d) as [p|]; [|by apply ret_Ok in H as []].
  apply bind_Ok in H as (u & d1 & H & [[= <-] ->]%ret_Ok). by exists u.
Qed.

(** Leaving: the last command reveals, an earlier one leaves the slot as it is. *)
Lemma leave_spec d r d' : reveal_after path d = (r, d') →
  counter path d' = counter path d - 1
  ∧ (counter path d - 1 ≠ 0 → r = Ok tt ∧ slots d' = slots d)
  ∧ (counter path d - 1 = 0 → is_ok r = true → ∃ s fs u x, slots d !! path = Some s
      ∧ reveal path (Site s fs) = (Ok u, x) ∧ slots d' !! path = Some (slot x)).
Proof.
  unfold reveal_after. rewrite run_bind, run_gets, run_bind, run_modify. case_bool_decide as H0.
  - intros H. pose proof (in_slot_active _ _ _ _ H) as Ha. split_and!; [|done|].
    + unfold counter in *. rewrite Ha. cbn. by rewrite lookup_insert_eq.
    + intros _. destruct r as [u|]; [|done]. intros _. apply in_slot_Ok in H as (s & x & Hs & Hv & Hs' & _).
      exists s, (io_failures d), u, x. by split_and!.
  - rewrite run_ret. intros [= <- <-]. by rewrite counter_set.
Qed.
(** What a conceal keeps of the names. *)
Lemma concealed_named s s' : recorded s → concealed_from s s' → "" ∉ dom (overlays s').
Proof.
  intros Hr (fs & u & x & Hc & <-). apply conceal_Ok in Hc as (Ho & _); [|done]. rewrite Ho, dom_captured. apply Hr.
Qed.
Lemma under_lease_weaken ok s : under_lease ok s → under_lease false s.
Proof. intros (s0 & s1 & ? & _ & ?). by exists s0, s1. Qed.

Lemma bracketed_enter d d' n ok dir : bracketed (d, n, ok) → conceal_for workspace dir d = (Ok (Some path), d') →
  bracketed (d', S n, ok).
Proof.
  intros [Hc Hn Hr Hl] H. cbn in *. destruct (conceal_for_Ok _ _ _ H) as [u [H1 H2]%enter_Ok]. rewrite Hc in *.
  unfold of_slot in *. case_bool_decide as H0.
  - destruct H2 as (s & s' & Hs & Hs' & Hcon). subst n. rewrite Hs in *. cbn in *.
    split; cbn; unfold of_slot; rewrite ?Hs'; cbn; [done| |done|].
    + intros Hok. apply (concealed_named s); [by apply Hr|done].
    + intros _. exists s, s'. split_and!; [done|by intros Hok; apply Hr|done].
  - split; cbn; unfold of_slot; rewrite ?H2; [done|done|done|]. intros _. by apply Hl.
Qed.
Lemma bracketed_leave d d' n ok r : bracketed (d, S n, ok) → reveal_after path d = (r, d') →
  bracketed (d', n, ok && is_ok r).
Proof.
  intros [Hc Hn Hr Hl] H. cbn in *. destruct (leave_spec _ _ _ H) as (H1 & H2 & H3). rewrite Hc in *. cbn in *.
  rewrite Nat.sub_0_r in *. unfold of_slot in *.
  destruct (decide (n = 0)) as [->|H0].
  - assert (ok && is_ok r = true → of_slot recorded d') as Hrec.
    { intros [Hok Hr']%andb_true_iff. destruct (H3 eq_refl Hr') as (s & fs & u & x & Hs & Hv & Hs').
      rewrite Hs in *. unfold of_slot. rewrite Hs'. cbn in *. apply reveal_Ok in Hv; [apply Hv|by apply Hn]. }
    split; cbn; [done| |by auto|done]. intros Hok. unfold of_slot in *. specialize (Hrec Hok).
    destruct (slots d' !! path); [apply Hrec|done].
  - destruct (H2 H0) as [-> Hs]. cbn. rewrite andb_true_r. split; cbn; unfold of_slot; rewrite ?Hs; [done|done|done|].
    intros _. by apply Hl.
Qed.
Lemma bracketed_step st st' : bracketed st → bracket_step st st' → bracketed st'.
Proof.
  intros Hb Hstep. destruct Hstep as [d d' n ok dir H|d d' n ok dir e H H0|d n ok s s' H (wr & He & ->)|d ok s w H|
    d d' n ok u H|d d' n ok e H].
  - by eapply bracketed_enter.
  - destruct Hb as [Hc Hn Hr Hl]. cbn in *. unfold conceal_for in H. rewrite run_bind, run_gets, H0, run_bind in H.
    destruct (enter path d) as [[u|e'] d1] eqn:E; [done|]. injection H as _ <-. apply enter_Err in E as [E1 E2].
    rewrite E1 in Hc. subst n. by split.
  - destruct Hb as [Hc Hn Hr Hl]. unfold of_slot in *. cbn in *. rewrite H in *. cbn in *.
    split; cbn; unfold of_slot; cbn; rewrite ?lookup_insert_eq; [done..|]. intros _.
    destruct Hl as (s0 & s1 & H1 & H2 & H3); [done|]. exists s0, s1. split_and!; [done..|].
    eapply rtc_r; [done|]. by exists wr.
  - destruct Hb as [Hc Hn Hr Hl]. unfold of_slot in *. cbn in *. rewrite H in *.
    split; cbn; unfold of_slot; cbn; rewrite ?lookup_insert_eq; done.
  - pose proof (bracketed_leave _ _ _ _ _ Hb H) as Hl. cbn in Hl. by rewrite andb_true_r in Hl.
  - pose proof (bracketed_leave _ _ _ _ _ Hb H) as Hl. cbn in Hl. by rewrite andb_false_r in Hl.
Qed.

(** C8: The manager never shows an overlay to git.  Commands that drive git enter and leave a
    slot in any order, overlapping or not, are refused, do anything to the working tree
    and the repository while they hold their lease, calls of the manager fail, and the
    worker edits its files in between.  The manager counts exactly the commands that
    hold a lease; and as long as one does, the slot is what the first of them found
    after a successful conceal, changed by nothing but what the commands themselves
    did.  There every overlay path was as git's index has it, provided that the
    skip-worktree flags were on record before the conceal; they were when every call of
    the manager had succeeded until then. *)
Theorem overlays_stay_hidden d d' n ok :
  counter path d = 0 → of_slot recorded d → rtc bracket_step (d, 0, true) (d', n, ok) →
  counter path d' = n
  ∧ (n ≠ 0 → of_slot (λ s, ∃ s0 s1, concealed_from s0 s1 ∧ (ok = true → recorded s0)
       ∧ (recorded s0 → hidden s1) ∧ rtc worked s1 s) d').
Proof.
  intros Hc Hr Hs. assert (bracketed (d', n, ok)) as [H1 _ _ H2].
  { assert (bracketed (d, 0, true)) as Hb.
    { split; cbn; [done| |done|done]. intros _. unfold of_slot in *. destruct (slots d !! path); [apply Hr|done]. }
    remember (d, 0, true) as a eqn:Ea. remember (d', n, ok) as b eqn:Eb. clear Ea Eb Hc Hr.
    induction Hs as [|? ? ? Hstep _ IH]; [done|]. apply IH. by eapply bracketed_step. }
  split; [done|]. intros Hn. specialize (H2 Hn). unfold of_slot in *. cbn in H2. destruct (slots d' !! path) as [s|]; [|done].
  destruct H2 as (s0 & s1 & Hcon & Hrec & Hw). exists s0, s1. split_and!; [done..| |done].
  intros H0. destruct Hcon as (fs & u & x & Hx & <-). apply conceal_Ok in Hx; [apply Hx|done].
Qed.
End Leases.

(** ** Witnesses *)

(** A slot with an overlay of a tracked file. *)
Definition test_path : string := "/ws/pool/p/0".
Definition overlaid_slot : Slot.t :=
  Slot.mk {[ "README.md" := Regular "read me"; "config.toml" := Regular "mine" ]}
    (TestRepo remote_tree {[ "config.toml" ]} remote_tree true)
    (Some {[ "config.toml" := "old" ]}) (Some ["config.toml"]).
Definition before : site := Site overlaid_slot [].
Definition concealed : site := (conceal test_path before).2.
Definition test_disk : disk := Disk {[ test_path := overlaid_slot ]} ∅ ∅ [].

Definition worktree_of (x : site) : files := Slot.worktree (slot x).
Lemma overlaid_recorded : recorded overlaid_slot.
Proof.
  unfold recorded, overlays. cbn. rewrite dom_singleton_L. split; [set_solver|].
  intros rel ->%elem_of_singleton _. by left.
Qed.
Lemma bracket_roundtrip_witness :
  worktree_of concealed !! "config.toml" = Some (Regular "default")
  ∧ worktree_of (reveal test_path concealed).2 !! "config.toml" = Some (Regular "mine").
Proof.
  assert (conceal test_path before = (Ok tt, concealed)) as Hc by reflexivity.
  assert (reveal test_path concealed = (Ok tt, (reveal test_path concealed).2)) as Hr by reflexivity.
  destruct (bracket_roundtrip test_path before concealed concealed _ _ _ overlaid_recorded Hc eq_refl Hr) as [Hh Hs].
  split; [reflexivity|]. by apply Hs; [apply elem_of_dom; eexists|].
Defined.
Lemma interrupted_conceal_loses_witness : overlays (slot (conceal test_path concealed).2) !! "config.toml" = Some "default".
Proof.
  assert (conceal test_path before = (Ok tt, concealed)) as Hc by reflexivity.
  assert (conceal test_path concealed = (Ok tt, (conceal test_path concealed).2)) as Hr by reflexivity.
  by apply (interrupted_conceal_loses test_path before concealed _ _ _ "config.toml" "default" overlaid_recorded Hc Hr);
    [apply elem_of_dom; eexists|].
Defined.
(** Two git commands at once, of which the first has ended. *)
Definition one_inside : disk := (conceal_for "/ws" "/ws/pool/p/0/src" test_disk).2.
Definition two_inside : disk := (conceal_for "/ws" "/ws/pool/p/0" one_inside).2.
Definition one_left : disk := (reveal_after test_path two_inside).2.
(** Commands that only touch a file of their own. *)
Definition touches (wr wr' : files * repository) : Prop := wr' = (<["notes" := Regular "n"]> wr.1, wr.2).
Definition touched : Slot.t :=
  set_git (<["notes" := Regular "n"]> (Slot.worktree (slot concealed)), Slot.repo (slot concealed)) (slot concealed).
Definition one_worked : disk :=
  Disk (<[test_path := touched]> (slots one_left)) (local_dirs one_left) (active one_left) (io_failures one_left).
Lemma one_left_concealed : slots one_left !! test_path = Some (slot concealed).
Proof.
  assert (slots one_left = slots one_inside) as -> by reflexivity. reflexivity.
Qed.
Lemma touched_worked : worked touches (slot concealed) touched.
Proof. eexists. split; [unfold touches; exact eq_refl|exact eq_refl]. Qed.
Lemma one_worked_slot : slots one_worked !! test_path = Some touched.
Proof. apply lookup_insert_eq. Qed.
Lemma overlays_stay_hidden_witness : counter test_path one_worked = 1
  ∧ ∃ s0 s1, concealed_from test_path s0 s1 ∧ hidden s1 ∧ rtc (worked touches) s1 touched.
Proof.
  destruct (overlays_stay_hidden "/ws" test_path touches test_disk one_worked 1 true) as [H1 H2];
    [reflexivity|exact overlaid_recorded| |].
  { apply (rtc_l _ _ (one_inside, 1, true)).
    { apply (step_enter _ _ _ _ _ _ _ "/ws/pool/p/0/src"). reflexivity. }
    apply (rtc_l _ _ (two_inside, 2, true)).
    { apply (step_enter _ _ _ _ _ _ _ "/ws/pool/p/0"). reflexivity. }
    apply (rtc_l _ _ (one_left, 1, true)).
    { apply (step_leave _ _ _ _ _ _ _ tt). reflexivity. }
    apply rtc_once. exact (step_command "/ws" test_path touches one_left 0 true _ _ one_left_concealed touched_worked). }
  split; [exact H1|]. unfold of_slot in H2. rewrite one_worked_slot in H2.
  destruct (H2 ltac:(done)) as (s0 & s1 & Hc & Hr & Hh & Hw). exists s0, s1.
  exact (conj Hc (conj (Hh (Hr eq_refl)) Hw)).
Defined.
