(* ===== verification/BuilderPoolProps.v ===== *)
(** * A recycled slot is clean

    From any state of a slot on disk, recycling ends in an error or in a slot that is
    the upstream branch with the project's overlays; a slot that is cleaned carries
    none; and neither touches another slot. *)

From S2P Require Import Prelude RustStd TextLemmas Host RunOpts Pool Overlay BuilderPool TestGit OverlayProps.
From Stdlib Require Import Ascii Lia.
Local Open Scope stdpp_scope.
Import BuilderPoolHandler.

Section Pool.
Context {GT : GitTool} {PT : PoolTools} {DO : DirOrder} {LG : LawfulGit} {LR : LawfulReset}.
Context (workspace config_dir : string).
Implicit Types (d : disk) (s : Slot.t).
Import Slot.

(** The working tree is what git tracks; anything else is in a repository inside. *)
Definition clean s : Prop :=
  skipped (repo s) = ∅
  ∧ (∀ p, p ∈ dom (index (repo s)) → worktree s !! p = index (repo s) !! p)
  ∧ ∀ p, (p ∉ dom (index (repo s))) → worktree s !! p = None ∨ nested (worktree s, repo s) p.
(** Without overlays. *)
Definition bare s : Prop := copies s = None ∧ pinned s = None.

(** ** Other slots *)

(** [d'] differs from [d] at the slot [path] only. *)
Definition only (path : string) d d' : Prop :=
  local_dirs d' = local_dirs d ∧ active d' = active d ∧ ∀ p, p ≠ path → slots d' !! p = slots d !! p.
Lemma only_refl path d : only path d d.
Proof. done. Qed.
Lemma preserves_in_slot {A} path d (m : SE site string A) : preserves (only path d) (in_slot path m).
Proof.
  intros d1 (Hl & Ha & Ho). unfold in_slot. destruct (slots d1 !! path) as [s|]; [|by split].
  destruct (m _) as [r x]. split_and!; [done..|]. intros p Hp. cbn. rewrite lookup_insert_ne by done. by apply Ho.
Qed.
Lemma preserves_modify_slot {E} path d f : preserves (E := E) (only path d) (modify (λ d1, set_slot path (f d1) d1)).
Proof.
  intros d1 (Hl & Ha & Ho). split_and!; [done..|]. intros p Hp. cbn. rewrite lookup_partial_alter_ne by done. by apply Ho.
Qed.
Lemma preserves_disk_io path d what ok failed :
  (∀ d1, only path d d1 → only path d (ok d1)) → (∀ d1, only path d d1 → only path d (failed d1)) →
  preserves (only path d) (disk_io what ok failed).
Proof.
  intros Hok Hf d1 Hd. unfold disk_io. destruct (io_failures d1) as [|[e|] l]; [by apply Hok|by apply Hf|by apply Hok].
Qed.
Lemma only_set path (o : option Slot.t) d d1 : only path d d1 → only path d (set_slot path o d1).
Proof.
  intros (Hl & Ha & Ho). split_and!; [done..|]. intros p Hp. cbn. rewrite lookup_partial_alter_ne by done. by apply Ho.
Qed.
Lemma preserves_clone_git path d args : preserves (only path d) (clone_git args path).
Proof.
  intros d1 Hd. unfold clone_git. destruct (run_clone _ _) as [r [wr|]]; [by apply only_set|done].
Qed.
Lemma preserves_retry {E A} (I : disk → Prop) n (m : SE disk E A) : preserves I m → preserves I (retry n m).
Proof.
  intros Hm. unfold retry. induction (n - 1) as [|k IH]; cbn [retry_go]; solve_preserves.
Qed.
#[local] Hint Resolve preserves_in_slot preserves_modify_slot preserves_disk_io preserves_clone_git preserves_retry only_set : preserves.

Section Frame.
Context (project slot : string) (d : disk).
Abbreviation path := (slot_path workspace project slot).

Lemma frame_git_output args : preserves (only path d) (git_output args path).
Proof. unfold git_output. solve_preserves. Qed.
#[local] Hint Resolve frame_git_output : preserves.
Lemma frame_submodules : preserves (only path d) (init_submodules path).
Proof. unfold init_submodules, because, file_exists. solve_preserves. Qed.
#[local] Hint Resolve frame_submodules : preserves.
Lemma frame_clone url : preserves (only path d) (clone_slot workspace project slot url).
Proof.
  unfold clone_slot, because, trust_mise, file_exists. solve_preserves.
Qed.
#[local] Hint Resolve frame_clone : preserves.
Lemma frame_reclone url : preserves (only path d) (reclone_slot workspace project slot url).
Proof.
  unfold reclone_slot, because, remove_slot. solve_preserves.
  all: apply preserves_disk_io; eauto with preserves.
Qed.
Lemma frame_reset : preserves (only path d) (reset_slot workspace project slot).
Proof. unfold reset_slot, because, git_in. solve_preserves. Qed.
#[local] Hint Resolve frame_reclone frame_reset : preserves.
Lemma frame_recycle url : preserves (only path d) (recycle workspace config_dir project slot url).
Proof. unfold recycle, apply_overlays. solve_preserves. Qed.
End Frame.

(** ** Single commands *)

Section Slot.
Context (path : string).

(** The slot is there and [P] holds of it. *)
Definition there (P : Slot.t → Prop) d : Prop := ∃ s, slots d !! path = Some s ∧ P s.

Lemma in_slot_run {A} (m : SE site string A) d a d' : in_slot path m d = (Ok a, d') →
  ∃ s x, slots d !! path = Some s ∧ m (Site s (io_failures d)) = (Ok a, x) ∧ slots d' !! path = Some (slot x).
Proof. intros (s & x & ? & ? & ? & _)%in_slot_Ok. by exists s, x. Qed.
Lemma git_output_Ok args d out d' : git_output args path d = (Ok out, d') →
  ∃ s o wr, slots d !! path = Some s ∧ run_git args (worktree s, repo s) = (Ok o, wr) ∧ GitOutput.success o = true
    ∧ out = GitOutput.stdout o ∧ slots d' !! path = Some (set_git wr s).
Proof.
  unfold git_output. intros (o & d1 & (s & x & Hs & Hg & Hs')%in_slot_run & H)%bind_Ok. rewrite run_of_result in H.
  unfold spawn_git in Hg. destruct (run_git args _) as [[o'|e] wr] eqn:E; [|done]. injection Hg as -> <-.
  unfold git_result in H. destruct (GitOutput.success o) eqn:Ho; [|done]. injection H as <- <-. by exists s, o, wr.
Qed.
(** A command whose result is dropped. *)
Lemma git_unit_Ok what args d u d' : because what (git_output args path ;; mret tt) d = (Ok u, d') →
  ∃ s o wr, slots d !! path = Some s ∧ run_git args (worktree s, repo s) = (Ok o, wr) ∧ GitOutput.success o = true
    ∧ slots d' !! path = Some (set_git wr s).
Proof.
  intros (out & d1 & (s & o & wr & ? & ? & ? & _ & ?)%git_output_Ok & [_ ->]%ret_Ok)%map_err_Ok%bind_Ok. by exists s, o, wr.
Qed.

Lemma submodules_Ok d u d' s : init_submodules path d = (Ok u, d') → slots d !! path = Some s → clean s →
  ∃ s', slots d' !! path = Some s' ∧ clean s' ∧ copies s' = copies s ∧ pinned s' = pinned s
    ∧ index (repo s') = index (repo s) ∧ upstream (repo s') = upstream (repo s) ∧ tip (repo s') = tip (repo s).
Proof.
  unfold init_submodules, file_exists. intros (b & d1 & Hb & H)%bind_Ok Hs (Hk & Ht & Hu). rewrite run_gets in Hb. injection Hb as _ <-.
  unfold when in H. destruct b; [|apply ret_Ok in H as [_ ->]; by exists s].
  apply git_unit_Ok in H as (s1 & o & [w r] & Hs1 & Hg & Hok & Hs'). rewrite Hs in Hs1. injection Hs1 as <-.
  destruct (git_submodules _ _ _ _ _ Hg Hok) as (Hi & Hup & Htip & Hsk & Hin & Hout). eexists. split; [exact Hs'|]. cbn.
  split_and!; [|done..]. split_and!; cbn.
  - by rewrite Hsk.
  - intros p Hp. rewrite Hi in *. rewrite Hin by done. by apply Ht.
  - intros p Hp. rewrite Hi in Hp. apply Hout; [done|by apply Hu].
Qed.
End Slot.

(** ** Resetting *)

(** No tracked path ends in white space. *)
Definition plain s : Prop := ∀ p, p ∈ dom (index (repo s)) → trim_end p = p.

(** The flags cleared before a reset. *)
Lemma unskip_Ok path d d1 d2 out u s : plain s → slots d !! path = Some s →
  git_output ["ls-files"; "-v"] path d = (Ok out, d1) →
  (if bool_decide (skipped_lines out = []) then mret tt
   else because ("git update-index --no-skip-worktree failed in " +:+ path)
          (git_output (["update-index"; "--no-skip-worktree"; "--"] ++ skipped_lines out) path ;; mret tt)) d1 = (Ok u, d2) →
  ∃ wr, slots d2 !! path = Some (set_git wr s) ∧ skipped wr.2 = ∅.
Proof.
  intros Hplain Hs (s0 & o & [w r] & Hs0 & Hg & Hok & -> & Hs1)%git_output_Ok H. rewrite Hs in Hs0. injection Hs0 as <-.
  destruct (git_ls_files_v _ _ _ _ _ Hg Hok) as [[= -> ->] Hl].
  assert (∀ p, p ∈ skipped (repo s) → ∃ q, trim_end q ∈ skipped_lines (GitOutput.stdout o)
            ∧ (trim_end q = p ∨ trim_end q ∉ dom (index (repo s)))) as Hlines.
  { intros p Hp. destruct (Hl p Hp) as (q & Hq & Hcase). exists q. split.
    - apply list_elem_of_omap. exists ("S " +:+ q). split; [done|]. unfold strip_prefix.
      by rewrite prefix_app, str_drop_app.
    - destruct Hcase as [->|[Ht Hn]]; [left|right; by rewrite Ht]. apply Hplain. by apply skipped_tracked. }
  case_bool_decide as Hnil.
  - apply ret_Ok in H as [_ ->]. eexists. split; [exact Hs1|]. cbn. apply set_eq. intros p. split; [|set_solver].
    intros Hp. destruct (Hlines p Hp) as (q & Hq & _). rewrite Hnil in Hq. by apply not_elem_of_nil in Hq.
  - apply git_unit_Ok in H as (s2 & o2 & [w2 r2] & Hs2 & Hg2 & Hok2 & Hs3). rewrite Hs1 in Hs2. injection Hs2 as <-.
    destruct (git_no_skip _ _ _ _ _ _ Hg2 Hok2) as (Hsub & -> & _ & _ & Hsk). exists (worktree s, r2). split; [exact Hs3|]. cbn.
    apply set_eq. intros p. split; [|set_solver]. rewrite Hsk. cbn. rewrite elem_of_difference, elem_of_list_to_set.
    intros [Hp Hnot]. destruct (Hlines p Hp) as (q & Hq & [Heq|Hn]); [by rewrite Heq in Hq|].
    destruct Hn. apply Hsub. by apply elem_of_list_to_set.
Qed.
Lemma discard_Ok path x u y : discard path x = (Ok u, y) → bare (slot y) ∧ worktree (slot y) = worktree (slot x)
  ∧ repo (slot y) = repo (slot x).
Proof.
  unfold discard. intros ([c p] & z & [[= -> ->] ->]%look_Ok & H)%bind_Ok.
  destruct (copies (slot x)) eqn:Ec, (pinned (slot x)) eqn:Ep; [apply io_do_Ok in H; rewrite H; by split..|].
  apply ret_Ok in H as [_ ->]. by split_and!.
Qed.
Lemma reset_Ok project name d u d' s :
  let path := slot_path workspace project name in
  reset_slot workspace project name d = (Ok u, d') → slots d !! path = Some s → plain s →
  ∃ s', slots d' !! path = Some s' ∧ clean s' ∧ bare s' ∧ index (repo s') = upstream (repo s')
    ∧ upstream (repo s') = tip (repo s').
Proof.
  intros path H Hs Hp. unfold reset_slot in H. fold path in H.
  apply bind_Ok in H as (out & d1 & Hls%map_err_Ok & H). cbv zeta in H. apply bind_Ok in H as (u2 & d2 & Hun & H).
  destruct (unskip_Ok _ _ _ _ _ _ _ Hp Hs Hls Hun) as ([w2 r2] & Hs2 & Hsk).
  apply bind_Ok in H as (u3 & d3 & (s3 & x & Hs3 & Hd%discard_Ok & Hs3')%in_slot_run & H).
  rewrite Hs2 in Hs3. injection Hs3 as <-. destruct Hd as (Hbare & Hw3 & Hr3). cbn in Hw3, Hr3.
  apply bind_Ok in H as (u4 & d4 & (s4 & o4 & [w4 r4] & Hs4 & Hg4 & Hok4 & Hs4')%git_unit_Ok & H).
  rewrite Hs3' in Hs4. injection Hs4 as <-. rewrite Hw3, Hr3 in Hg4.
  destruct (git_fetch _ _ _ _ _ Hg4 Hok4) as (-> & Hi4 & Hk4 & Hu4 & Ht4).
  apply bind_Ok in H as (u5 & d5 & (s5 & o5 & [w5 r5] & Hs5 & Hg5 & Hok5 & Hs5')%git_unit_Ok & H).
  rewrite Hs4' in Hs5. injection Hs5 as <-. cbn in Hg5. destruct (git_checkout_master _ _ _ _ _ Hg5 Hok5) as (Hk5 & Hu5 & Ht5).
  apply bind_Ok in H as (u6 & d6 & (s6 & o6 & [w6 r6] & Hs6 & Hg6 & Hok6 & Hs6')%git_unit_Ok & H).
  rewrite Hs5' in Hs6. injection Hs6 as <-. cbn in Hg6. destruct (git_reset _ _ _ _ _ Hg6 Hok6) as (Hi6 & Hu6 & Ht6 & Hk6 & Hw6).
  apply bind_Ok in H as (u7 & d7 & (s7 & o7 & [w7 r7] & Hs7 & Hg7 & Hok7 & Hs7')%git_unit_Ok & H).
  rewrite Hs6' in Hs7. injection Hs7 as <-. cbn in Hg7. destruct (git_clean _ _ _ _ _ Hg7 Hok7) as (Hi7 & Hu7 & Ht7 & Hk7 & Hin7 & Hout7).
  cbn in Hsk. assert (skipped r7 = ∅) as Hk by set_solver.
  eapply submodules_Ok in H as (s' & Hs' & Hclean & Hc & Hpin & Hi & Hu & Ht); [|exact Hs7'|].
  - exists s'. split; [done|]. split; [done|]. unfold bare. rewrite Hc, Hpin, Hi, Hu, Ht. split; [exact Hbare|]. cbn.
    rewrite Hi7, Hu7, Hi6, Hu6, Ht7, Ht6. split; [done|]. congruence.
  - split_and!; cbn; [done| |].
    + intros p Hpi. rewrite Hi7 in *. rewrite Hin7 by done. apply Hw6; [done|set_solver].
    + intros p Hpi. rewrite Hi7 in Hpi. by apply Hout7.
Qed.

(** ** Cloning and recycling *)

Lemma disk_io_Ok what ok failed d u d' : disk_io what ok failed d = (Ok u, d') → slots d' = slots (ok d).
Proof. unfold disk_io. destruct (io_failures d) as [|[e|] l]; [|done|]; by intros [= _ <-]. Qed.
(** The tracked tree of a slot is what a clone of [url] made. *)
Definition cloned_tree (url name : string) s : Prop := ∃ there o w r,
  run_clone ["clone"; "--filter=blob:none"; "--no-tags"; "--single-branch"; url; name] there = (Ok o, Some (w, r))
  ∧ GitOutput.success o = true ∧ index (repo s) = index r.
Lemma clone_Ok project name url d u d' :
  let path := slot_path workspace project name in
  clone_slot workspace project name url d = (Ok u, d') →
  ∃ s', slots d' !! path = Some s' ∧ clean s' ∧ bare s' ∧ cloned_tree url name s'.
Proof.
  intros path H. unfold clone_slot in H. fold path in H. cbv zeta in H.
  apply bind_Ok in H as (u1 & d1 & _ & H). apply bind_Ok in H as (u2 & d2 & Hc%map_err_Ok & H).
  assert (∃ w r, slots d2 !! path = Some (Slot.mk w r None None) ∧ clean (Slot.mk w r None None)
            ∧ cloned_tree url name (Slot.mk w r None None)) as (w & r & Hs & Hcl & Htree).
  { unfold clone_git in Hc. destruct (run_clone _ _) as [[o|e] made] eqn:E; [|done]. unfold git_result in Hc.
    destruct (GitOutput.success o) eqn:Ho; [|done]. injection Hc as _ <-. destruct made as [[w r]|].
    - exists w, r. cbn. rewrite lookup_partial_alter_eq. destruct (git_clone _ _ _ _ _ E Ho) as (? & ? & ?).
      split_and!; [done|by split|]. by eexists _, o, w, r.
    - apply git_clone_makes in E. congruence. }
  apply bind_Ok in H as (u3 & d3 & Hsub & H).
  destruct (submodules_Ok _ _ _ _ _ Hsub Hs Hcl) as (s' & Hs' & Hcl' & Hco & Hpi & Hi & _).
  exists s'. split; [|split; [done|]; unfold bare, cloned_tree in *; by rewrite Hco, Hpi, Hi].
  unfold trust_mise, file_exists in H. apply bind_Ok in H as (b & d4 & Hb & H). rewrite run_gets in Hb. injection Hb as _ <-.
  unfold when in H. destruct b; [|by apply ret_Ok in H as [_ ->]]. rewrite run_modify in H. injection H as _ <-. cbn.
  rewrite lookup_partial_alter_eq, Hs'. cbn. rewrite mise_trust_keeps. by destruct s'.
Qed.

Lemma copy_to_state_Ok path source l x u y c : copy_to_state path source l x = (Ok u, y) → copies (slot x) = Some c →
  slot y = set_copies (Some (foldl (λ c kv, <[kv.1 := kv.2]> c) c l)) (slot x).
Proof.
  revert x c. induction l as [|[rel v] l IH]; intros x c; cbn [copy_to_state].
  - intros [_ ->]%ret_Ok Hc. cbn. rewrite <-Hc. by destruct (slot x).
  - intros (u1 & x1 & Hx1%io_do_Ok & H)%bind_Ok Hc. rewrite Hc in Hx1. cbn in Hx1.
    rewrite (IH x1 (<[rel:=v]> c) H) by (by rewrite Hx1). by rewrite Hx1.
Qed.
Lemma foldl_inserts (m : gmap string string) l (c : gmap string string) : (∀ k, k ∈ l → k ∈ dom m) → NoDup l →
  ∀ k, foldl (λ (c : gmap string string) (kv : string * string), <[kv.1 := kv.2]> c) c ((λ rel, (rel, default "" (m !! rel))) <$> l) !! k
       = if decide (k ∈ l) then m !! k else c !! k.
Proof.
  revert c. induction l as [|r l IH]; intros c Hin Hnd k; cbn [fmap list_fmap foldl]; [done|].
  apply NoDup_cons in Hnd as [Hr Hnd]. change (list_fmap _ _ ?f l) with (f <$> l). rewrite IH by (done || set_solver).
  cbn. destruct (decide (k ∈ l)) as [Hk|Hk]; [by rewrite decide_True by set_solver|]. destruct (decide (k = r)) as [->|Hne].
  - rewrite lookup_insert_eq, decide_True by set_solver. assert (r ∈ dom m) as [v ->]%elem_of_dom by set_solver. done.
  - rewrite lookup_insert_ne by done. by rewrite decide_False by set_solver.
Qed.
Lemma apply_Ok path source l x u y : ("" ∉ dom (default ∅ l)) → apply path source l x = (Ok u, y) →
  copies (slot y) = l ∧ index (repo (slot y)) = index (repo (slot x))
  ∧ match l with
    | Some _ => shown (slot y) ∧ recorded (slot y)
    | None => pinned (slot y) = None ∧ repo (slot y) = repo (slot x)
    end
  ∧ ∀ p, (p ∉ dom (default ∅ l)) → worktree (slot y) !! p = worktree (slot x) !! p.
Proof.
  intros Hne. unfold apply. intros (u1 & x1 & ([Hc Hp] & Hw & Hr)%discard_Ok & H)%bind_Ok. destruct l as [l|].
  - apply bind_Ok in H as (u2 & x2 & Hx2%io_do_Ok & H). rewrite Hc in Hx2. cbn in Hx2.
    apply bind_Ok in H as (u3 & x3 & Hcp & H). eapply copy_to_state_Ok in Hcp; [|by rewrite Hx2].
    match type of Hcp with _ = set_copies (Some ?c) _ => assert (c = l) as Hl end.
    { apply map_eq. intros k. rewrite foldl_inserts.
      - case_decide as Hk; [done|]. rewrite listed_elements, elem_of_elements in Hk. by apply not_elem_of_dom in Hk as ->.
      - intros k' Hk'. by rewrite listed_elements, elem_of_elements in Hk'.
      - rewrite listed_elements. apply NoDup_elements. }
    rewrite Hl, Hx2 in Hcp. cbn in Hcp, Hne.
    assert (overlays (slot x3) = l) as Ho by (unfold overlays; by rewrite Hcp).
    pose proof (λ rel, reveal_frame path _ _ _ rel H) as Hframe. apply reveal_Ok in H as (_ & Hcy & Hi & Hsh & Hrec); [|by rewrite Ho].
    rewrite Hcp in Hcy, Hi. cbn in Hcy, Hi. split_and!; [done|by rewrite Hi, Hr|done|done|].
    intros p Hpn. rewrite Hframe by (by rewrite Ho). rewrite Hcp. cbn. by rewrite Hw.
  - apply ret_Ok in H as [_ ->]. by rewrite Hc, Hp, Hr, Hw.
Qed.

(** C9: A recycled slot is clean and up to date.  Whatever state the slot is in, missing or
    broken included, a recycling that succeeds returns its path and leaves a slot that
    tracks what master of the remote has, when it could be reset, or else what a fresh
    clone of the repository checked out.  Its working tree was exactly that, without
    flags, but for repositories inside it, before the project's overlays were laid over
    it, exactly those and on record; without any, there is no overlay state either.
    It does not touch any other slot, whether it succeeds or fails.  No tracked path of
    the slot ends in white space (the lines of [ls-files -v] are trimmed), and an
    overlay has a name. *)
Theorem recycle_spec project name url d r d' :
  let path := slot_path workspace project name in
  let local_files := local_dirs d !! project in
  recycle workspace config_dir project name url d = (r, d') →
  (∀ s, slots d !! path = Some s → plain s) → ("" ∉ dom (default ∅ local_files)) →
  only path d d'
  ∧ (∀ a, r = Ok a → a = path ∧ ∃ s s0, slots d' !! path = Some s ∧ clean s0
       ∧ (index (repo s0) = tip (repo s0) ∨ cloned_tree url name s0) ∧ copies s = local_files
       ∧ index (repo s) = index (repo s0)
       ∧ (∀ p, (p ∉ dom (default ∅ local_files)) → worktree s !! p = worktree s0 !! p)
       ∧ match local_files with
         | Some _ => shown s ∧ recorded s
         | None => pinned s = None ∧ skipped (repo s) = ∅
         end).
Proof.
  intros path local_files H Hplain Hne. assert (only path d d') as Honly.
  { pose proof (frame_recycle project name d url d (only_refl _ d)) as Hf. by rewrite H in Hf. }
  split; [done|]. intros a ->. unfold recycle in H. fold path in H. cbv zeta in H.
  apply bind_Ok in H as (b & d1 & Hb & H). rewrite run_gets in Hb. injection Hb as <- <-.
  apply bind_Ok in H as (u & d1 & Hm & H).
  assert (only path d d1 ∧ ∃ s0, slots d1 !! path = Some s0 ∧ clean s0
            ∧ (index (repo s0) = tip (repo s0) ∨ cloned_tree url name s0)) as [(Hl & _) (s0 & Hs0 & Hcl & Hup)].
  { case_bool_decide as Hthere; cbn [negb] in Hm.
    - apply bind_Ok in Hm as (r & d2 & Hr%attempt_Ok & Hm). pose proof (frame_reset project name d d (only_refl _ d)) as Hf2.
      rewrite Hr in Hf2. destruct r as [u2|e].
      + apply ret_Ok in Hm as [_ ->]. split; [done|]. destruct Hthere as [s Hs].
        destruct (reset_Ok _ _ _ _ _ _ Hr Hs (Hplain s Hs)) as (s' & ? & ? & _ & Hiu & Hut). exists s'. split_and!; [done..|]. left. congruence.
      + pose proof (frame_reclone project name d url d2 Hf2) as Hf3. rewrite Hm in Hf3. split; [done|].
        apply bind_Ok in Hm as (u3 & d3 & _ & Hc%map_err_Ok). destruct (clone_Ok _ _ _ _ _ _ Hc) as (s' & ? & ? & _ & ?).
        exists s'. split_and!; [done..|by right].
    - pose proof (frame_reclone project name d url d (only_refl _ d)) as Hf3. rewrite Hm in Hf3. split; [done|].
      apply bind_Ok in Hm as (u3 & d3 & _ & Hc%map_err_Ok). destruct (clone_Ok _ _ _ _ _ _ Hc) as (s' & ? & ? & _ & ?).
      exists s'. split_and!; [done..|by right]. }
  apply bind_Ok in H as (u4 & d4 & Ha & [-> ->]%ret_Ok). split; [done|].
  unfold apply_overlays in Ha. apply bind_Ok in Ha as (l & d5 & Hg & Ha). rewrite run_gets in Hg. injection Hg as <- <-.
  apply in_slot_run in Ha as (s1 & x & Hs1 & Ha & Hs). rewrite Hs0 in Hs1. injection Hs1 as <-.
  rewrite Hl in Ha. fold local_files in Ha. destruct (apply_Ok _ _ _ _ _ _ Hne Ha) as (Hco & Hi & Hcase & Hw). cbn in Hi, Hcase, Hw.
  exists (slot x), s0. split_and!; try done. destruct local_files; [done|]. destruct Hcase as [Hp ->]. split; [done|apply Hcl].
Qed.

(** A slot that is cleaned is the upstream branch.  Cleaning a slot succeeds only with no
    flag and no overlay state left, the tracked files as upstream has them and nothing
    else but repositories inside; a slot that is not there is reported and nothing is
    made, and no other slot is touched. *)
Theorem clean_slot_spec project name d r d' :
  let path := slot_path workspace project name in
  clean_slot workspace project name d = (r, d') → (∀ s, slots d !! path = Some s → plain s) →
  only path d d'
  ∧ (slots d !! path = None → d' = d ∧ ∃ msg, r = Err (Status.mk Status.NotFound msg None))
  ∧ (∀ u, r = Ok u → ∃ s, slots d' !! path = Some s ∧ clean s ∧ bare s
       ∧ index (repo s) = upstream (repo s) ∧ upstream (repo s) = tip (repo s)).
Proof.
  intros path H Hplain. unfold clean_slot, found in H. rewrite !run_bind, run_gets in H. fold path in H. case_bool_decide as Hthere.
  - rewrite run_ret in H. unfold internal in H. rewrite run_map_err in H.
    pose proof (frame_reset project name d d (only_refl _ d)) as Hf.
    destruct (reset_slot workspace project name d) as [[u|e] d1] eqn:E; injection H as <- <-; (split; [done|]).
    + split; [intros Hn; rewrite Hn in Hthere; by destruct Hthere|]. intros _ _. destruct Hthere as [s Hs].
      by apply (reset_Ok _ _ _ _ _ _ E Hs (Hplain s Hs)).
    + split; [intros Hn; rewrite Hn in Hthere; by destruct Hthere|done].
  - rewrite run_throw in H. injection H as <- <-. split; [done|]. split; [|done]. intros _. split; [done|]. by eexists.
Qed.
End Pool.

(** ** Witnesses *)

(** A slot with a stray file and a pinned overlay, in a project with an overlay. *)
Definition dirty_disk : disk :=
  Disk {[ "/ws/pool/p/0" := Slot.mk {[ "stray" := Regular "x"; "config.toml" := Regular "edited" ]}
                              (TestRepo remote_tree {[ "config.toml" ]} remote_tree true)
                              (Some {[ "config.toml" := "edited" ]}) (Some ["config.toml"]) ]}
    {[ "p" := {[ "config.toml" := "mine" ]} ]} ∅ [].
Lemma dirty_plain s : slots dirty_disk !! "/ws/pool/p/0" = Some s → plain s.
Proof.
  intros [= <-] p. change (p ∈ dom remote_tree → trim_end p = p). unfold remote_tree. rewrite dom_insert_L, dom_singleton_L.
  by intros [->%elem_of_singleton| ->%elem_of_singleton]%elem_of_union.
Qed.
Lemma recycle_spec_witness :
  ∃ s, slots (recycle "/ws" "/cfg" "p" "0" "url" dirty_disk).2 !! "/ws/pool/p/0" = Some s
    ∧ Slot.copies s = Some {[ "config.toml" := "mine" ]} ∧ shown s.
Proof.
  assert ((recycle "/ws" "/cfg" "p" "0" "url" dirty_disk).1 = Ok "/ws/pool/p/0") as Hr by (vm_compute; reflexivity).
  destruct (recycle_spec "/ws" "/cfg" "p" "0" "url" dirty_disk (Ok "/ws/pool/p/0")
    (recycle "/ws" "/cfg" "p" "0" "url" dirty_disk).2) as [_ Hok];
    [rewrite <-Hr; apply surjective_pairing|exact dirty_plain| |].
  - change (("" : string) ∉ dom ({[ "config.toml" := "mine" ]} : gmap string string)). rewrite dom_singleton_L. by intros ?%elem_of_singleton.
  - destruct (Hok _ eq_refl) as (_ & s & s0 & Hs & _ & _ & Hc & _ & _ & [Hsh _]). exists s. exact (conj Hs (conj Hc Hsh)).
Defined.
Lemma clean_slot_spec_witness :
  ∃ s, slots (clean_slot "/ws" "p" "0" dirty_disk).2 !! "/ws/pool/p/0" = Some s ∧ clean s ∧ bare s.
Proof.
  assert ((clean_slot "/ws" "p" "0" dirty_disk).1 = Ok tt) as Hr by (vm_compute; reflexivity).
  destruct (clean_slot_spec "/ws" "p" "0" dirty_disk (Ok tt) (clean_slot "/ws" "p" "0" dirty_disk).2)
    as (_ & _ & Hok); [rewrite <-Hr; apply surjective_pairing|exact dirty_plain|].
  destruct (Hok tt eq_refl) as (s & Hs & Hc & Hb & _). exists s. exact (conj Hs (conj Hc Hb)).
Defined.
