(* ===== verification/BuilderExec.v ===== *)
(** * Commands of the builder daemon

    [builderd/src/registry.rs] and [handler.rs]: the registry of long-lived processes,
    the output that follows the latest caller, and the execution of a command with its
    overlays concealed.

    A process is what the daemon keeps of it: the key it was started under, whether its
    output has ended, the caller its output goes to, and a frame that is on its way.
    What a process does is a parameter or a step of its own. *)

From S2P Require Import Prelude RustStd Host RunOpts HostExec Overlay.
Local Open Scope stdpp_scope.

(** ** The registry of long-lived processes *)

(** [ProcessKey]: the command and the resolved directory. *)
Abbreviation process_key := (string * string)%type.

Module Process.
Record t : Type := mk {
  key : process_key;
  alive : bool;
  sink : option nat;
  (** A frame taken by the forwarder, with the sender it found. *)
  held : option (option nat * Frame.t)
}.
Definition set_alive (b : bool) (p : t) : t := mk (key p) b (sink p) (held p).
Definition set_sink (c : option nat) (p : t) : t := mk (key p) (alive p) c (held p).
Definition set_held (h : option (option nat * Frame.t)) (p : t) : t := mk (key p) (alive p) (sink p) h.
End Process.

(** The registry, all processes by number, what each caller received, and the callers
    that hung up. *)
Record daemon : Type := Daemon {
  registry : gmap process_key nat;
  processes : gmap nat Process.t;
  received : gmap nat (list Frame.t);
  hung_up : gset nat
}.
Definition set_registry (r : gmap process_key nat) (d : daemon) : daemon :=
  Daemon r (processes d) (received d) (hung_up d).
Definition set_processes (ps : gmap nat Process.t) (d : daemon) : daemon :=
  Daemon (registry d) ps (received d) (hung_up d).
Definition with_process (f : Process.t → Process.t) (pid : nat) (d : daemon) : daemon :=
  set_processes (alter f pid (processes d)) d.
Definition deliver (caller : nat) (f : Frame.t) (d : daemon) : daemon :=
  Daemon (registry d) (processes d) (<[caller := default [] (received d !! caller) ++ [f]]> (received d)) (hung_up d).

Module ProcessRegistry.
Definition is_alive (d : daemon) (pid : nat) : bool := from_option Process.alive false (processes d !! pid).
Definition is_running {E} (key : process_key) : SE daemon E bool := λ d,
  match registry d !! key with
  | Some pid => if is_alive d pid then (Ok true, d) else (Ok false, set_registry (delete key (registry d)) d)
  | None => (Ok false, d)
  end.
Definition register {E} (key : process_key) (pid : nat) : SE daemon E unit :=
  modify (λ d, set_registry (<[key := pid]> (registry d)) d).
(** The process whose input is written to. *)
Definition get_stdin_tx {E} (key : process_key) : SE daemon E (option nat) := λ d,
  match registry d !! key with
  | Some pid => if is_alive d pid then (Ok (Some pid), d) else (Ok None, set_registry (delete key (registry d)) d)
  | None => (Ok None, d)
  end.
Definition replace_output_sink {E} (key : process_key) (caller : nat) : SE daemon E (option nat) := λ d,
  match registry d !! key with
  | Some pid =>
      if is_alive d pid then (Ok (Some pid), with_process (Process.set_sink (Some caller)) pid d) else (Ok None, d)
  | None => (Ok None, d)
  end.
Definition reap {E} : SE daemon E nat := λ d,
  let kept := filter (λ kp, is_alive d kp.2 = true) (registry d) in
  (Ok (size (registry d) - size kept), set_registry kept d).
End ProcessRegistry.

(** Starting a process: it may fail, with the text of the error. *)
Class Spawner : Type := { spawn_error : string → list string → string → gmap string string → option string }.

Section Long.
Context {SP : Spawner} (workspace : option string).
Abbreviation run A := (SE daemon Status.t A).
Import ProcessRegistry.

Definition process_key_of (req : ExecRequest.t) : process_key :=
  (ExecRequest.command req, resolve_working_dir workspace (ExecRequest.working_dir req)).
Definition fresh_pid (d : daemon) : nat := fresh (dom (processes d) : gset nat).

(** The two halves of [spawn_long_lived]. *)
Definition reconnect (key : process_key) (caller : nat) : run nat :=
  stdin ← get_stdin_tx key;
  pid ← ok_or stdin (Status.internal "process was running but stdin_tx disappeared");
  modify (deliver caller Frame.AlreadyRunning) ;;
  sink ← replace_output_sink key caller;
  _ ← ok_or sink (Status.internal "process was running but output sink disappeared");
  mret pid.
Definition start (req : ExecRequest.t) (caller : nat) : run nat :=
  match spawn_error (ExecRequest.command req) (ExecRequest.args req)
          (resolve_working_dir workspace (ExecRequest.working_dir req)) (ExecRequest.env req) with
  | Some e => throw (Status.internal ("failed to spawn " +:+ ExecRequest.command req +:+ ": " +:+ e))
  | None =>
      pid ← gets fresh_pid;
      modify (λ d, set_processes (<[pid := Process.mk (process_key_of req) true (Some caller) None]> (processes d)) d) ;;
      register (process_key_of req) pid ;;
      mret pid
  end.
Definition spawn_long_lived (req : ExecRequest.t) (caller : nat) : run nat :=
  there ← is_running (process_key_of req);
  if there : bool then reconnect (process_key_of req) caller else start req caller.

(** [forward_output_via_sink]: the forwarder takes a frame and the sender of the
    moment; it sends, or clears the sink when that caller is gone; it ends. *)
Definition take_frame (pid : nat) (f : Frame.t) (d : daemon) : option daemon :=
  p ← processes d !! pid;
  match Process.alive p, Process.held p with
  | true, None => Some (with_process (Process.set_held (Some (Process.sink p, f))) pid d)
  | _, _ => None
  end.
Definition forward_frame (pid : nat) (d : daemon) : option daemon :=
  p ← processes d !! pid;
  h ← Process.held p;
  let d := with_process (Process.set_held None) pid d in
  Some (match h.1 with
        | Some caller =>
            if decide (caller ∈ hung_up d) then with_process (Process.set_sink None) pid d
            else deliver caller h.2 d
        | None => d
        end).
Definition end_output (pid : nat) (d : daemon) : option daemon :=
  p ← processes d !! pid;
  match Process.alive p, Process.held p with
  | true, None => Some (with_process (Process.set_alive false) pid d)
  | _, _ => None
  end.
Definition hang_up (caller : nat) (d : daemon) : daemon :=
  Daemon (registry d) (processes d) (received d) ({[ caller ]} ∪ hung_up d).
End Long.

(** ** A command and its output *)

(** A command run to its end in the slots: not started, or its frames. *)
Class ChildProcess `{GitTool} : Type := {
  run_child : string → list string → string → gmap string string → list string → disk →
    result (list (result Frame.t Status.t)) string * disk
}.

(** [forward_then_reveal]: the frames before the exit code, and after the overlays are
    back the exit code. *)
Fixpoint before_exit (frames : list (result Frame.t Status.t))
    : list (result Frame.t Status.t) * option (result Frame.t Status.t) :=
  match frames with
  | [] => ([], None)
  | Ok (Frame.ExitCode code) :: _ => ([], Some (Ok (Frame.ExitCode code)))
  | f :: frames => let '(l, e) := before_exit frames in (f :: l, e)
  end.
Definition forward_then_reveal (frames : list (result Frame.t Status.t)) (revealed : result unit string)
    : list (result Frame.t Status.t) :=
  let '(l, exit_frame) := before_exit frames in
  l ++ option_list (match revealed with
                    | Ok _ => exit_frame
                    | Err e => Some (Err (Status.internal
                        ("command finished but restoring local overlay files failed: " +:+ e)))
                    end).

Section Short.
Context {GT : GitTool} {DO : DirOrder} {CP : ChildProcess} (workspace : option string) (pool_workspace : string).
Abbreviation run A := (SE disk Status.t A).

Definition conceal_overlays (req : ExecRequest.t) (resolved_dir : string) : run (option string) :=
  if negb (bool_decide (ExecRequest.command req ∈ OVERLAY_BRACKETED_COMMANDS)) then mret None
  else map_err (λ e, Status.mk Status.FailedPrecondition ("failed to hide local overlay files from git: " +:+ e) None)
         (conceal_for pool_workspace resolved_dir).
Definition child (command : string) (req : ExecRequest.t) (dir : string) (stdin : list string)
    : SE disk string (list (result Frame.t Status.t)) :=
  run_child command (ExecRequest.args req) dir (ExecRequest.env req) stdin.
Definition spawn_command (req : ExecRequest.t) (stdin : list string) : run (list (result Frame.t Status.t)) :=
  let resolved_dir := resolve_working_dir workspace (ExecRequest.working_dir req) in
  let resolved_command := resolve_working_dir workspace (ExecRequest.command req) in
  lease ← conceal_overlays req resolved_dir;
  r ← attempt (child resolved_command req resolved_dir stdin);
  match r, lease with
  | Ok frames, None => mret frames
  | Ok frames, Some slot => revealed ← attempt (reveal_after slot); mret (forward_then_reveal frames revealed)
  | Err e, None => throw (Status.internal ("failed to spawn " +:+ resolved_command +:+ ": " +:+ e))
  | Err e, Some slot =>
      revealed ← attempt (reveal_after slot);
      throw (Status.internal ("failed to spawn " +:+ resolved_command +:+ ": " +:+ e
        +:+ match revealed with Ok _ => "" | Err e => "; restoring local overlays failed: " +:+ e end))
  end.
End Short.

(** ** The service *)

Module BuilderExecMessage.
Inductive t : Type := Start (r : ExecRequest.t) | Stdin (data : string) | NoPayload.
End BuilderExecMessage.

(** What a caller gets: the frames of a command, or a process it is connected to. *)
Inductive exec_answer : Type :=
| Finished (frames : list (result Frame.t Status.t))
| Connected (pid : nat) (stdin : list string).

(** The daemon's state: its processes and the slots. *)
Record builder `{GitTool} : Type := Builder { long_lived : daemon; on_disk : disk }.
#[export] Program Instance daemon_lens `{GitTool} : Lens builder daemon := {
  view := long_lived;
  put d b := Builder _ d (on_disk b)
}.
Solve All Obligations with by intros; try destruct s.
#[export] Program Instance disk_lens `{GitTool} : Lens builder disk := {
  view := on_disk;
  put d b := Builder _ (long_lived b) d
}.
Solve All Obligations with by intros; try destruct s.

(** [pump_stdin]: the input frames up to the first error. *)
Definition pump_stdin (l : list (result BuilderExecMessage.t Status.t)) : list string :=
  omap (λ m, match m with BuilderExecMessage.Stdin data => Some data | _ => None end) (until_error l).

Section Exec.
Context {HO : Host} {GT : GitTool} {DO : DirOrder} {CP : ChildProcess} {SP : Spawner}.
Context (workspace : option string) (pool_workspace : string).
Definition exec (caller : nat) (in_stream : list (result BuilderExecMessage.t Status.t)) : SE builder Status.t exec_answer :=
  match in_stream with
  | [] => throw (Status.invalid_argument "empty request stream")
  | Err e :: _ => throw (Status.internal ("failed to read start frame: " +:+ status_display e))
  | Ok (BuilderExecMessage.Start req) :: rest =>
      if ExecRequest.long_lived req
      then pid ← zoom (spawn_long_lived workspace req caller); mret (Connected pid (pump_stdin rest))
      else frames ← zoom (spawn_command workspace pool_workspace req (pump_stdin rest)); mret (Finished frames)
  | Ok _ :: _ => throw (Status.invalid_argument "first message must be a start frame")
  end.
End Exec.

(** * The builder daemon's processes

    A long-lived process runs once per command and directory, and a caller that comes
    back is connected to it; the schedules in which two of them run, and in which the
    caller that came back is cut off; and what the caller of a git command may rely on
    when it sees the exit code. *)

From S2P Require Import TextLemmas BuilderPool TestGit OverlayProps.
From Stdlib Require Import Ascii Lia.

(** ** One process per key *)

Section Processes.
Context {SP : Spawner} (workspace : option string).
Implicit Types (d : daemon) (p : Process.t) (pid caller : nat).
Import ProcessRegistry.

Definition alive_under (key : process_key) pid d : Prop :=
  ∃ p, processes d !! pid = Some p ∧ Process.alive p = true ∧ Process.key p = key.
(** Who runs is in the registry, and what is in it is there under its key. *)
Record registered d : Prop := Registered {
  registered_alive : ∀ key pid, alive_under key pid d → registry d !! key = Some pid;
  registered_key : ∀ key pid, registry d !! key = Some pid → ∃ p, processes d !! pid = Some p ∧ Process.key p = key
}.

(** Requests that run one after the other, and what happens in between. *)
Inductive daemon_step : daemon → daemon → Prop :=
| step_request req caller d : daemon_step d (spawn_long_lived workspace req caller d).2
| step_reap d : daemon_step d (reap (E := Empty_set) d).2
| step_take pid f d d' : take_frame pid f d = Some d' → daemon_step d d'
| step_forward pid d d' : forward_frame pid d = Some d' → daemon_step d d'
| step_end pid d d' : end_output pid d = Some d' → daemon_step d d'
| step_hang_up caller d : daemon_step d (hang_up caller d).

Lemma is_alive_true d pid : is_alive d pid = true ↔ ∃ p, processes d !! pid = Some p ∧ Process.alive p = true.
Proof. unfold is_alive. destruct (processes d !! pid) as [p|]; cbn; naive_solver. Qed.

(** A process changes without coming to life or changing its key. *)
Lemma registered_change d d' pid f : registered d → registry d' = registry d →
  processes d' = alter f pid (processes d) →
  (∀ p, Process.key (f p) = Process.key p ∧ (Process.alive (f p) = true → Process.alive p = true)) → registered d'.
Proof.
  intros [H1 H2] Hr Hp Hf. split; rewrite Hr.
  - intros key i (p & Hi & Ha & Hk). apply H1. rewrite Hp in Hi. apply lookup_alter_Some in Hi as [(-> & q & Hq & ->)|[Hne Hi]].
    + exists q. destruct (Hf q) as [Hk' Ha']. rewrite <-Hk, Hk'. auto.
    + by exists p.
  - intros key i Hi. destruct (H2 key i Hi) as (p & Hpi & Hk). rewrite Hp. destruct (decide (i = pid)) as [->|Hne].
    + rewrite lookup_alter_eq, Hpi. exists (f p). by rewrite (proj1 (Hf p)).
    + rewrite lookup_alter_ne by done. by exists p.
Qed.
(** The registry loses entries of processes that have ended. *)
Lemma registered_forget d r : registered d → r ⊆ registry d →
  (∀ key pid, registry d !! key = Some pid → is_alive d pid = true → r !! key = Some pid) → registered (set_registry r d).
Proof.
  intros [H1 H2] Hsub Hkeep. split; cbn.
  - intros key pid Ha. apply Hkeep; [by apply H1|]. apply is_alive_true. destruct Ha as (p & ? & ? & _). by exists p.
  - intros key pid Hr. apply H2. by eapply lookup_weaken.
Qed.
Lemma registered_same d d' : registered d → registry d' = registry d → processes d' = processes d → registered d'.
Proof. intros [H1 H2] Hr Hp. split; unfold alive_under in *; rewrite Hr, ?Hp; done. Qed.

Lemma is_running_spec {E} key d : registered d →
  let '(r, d') := is_running (E := E) key d in
  registered d' ∧ processes d' = processes d
  ∧ ((∃ pid, alive_under key pid d ∧ registry d !! key = Some pid ∧ r = Ok true ∧ d' = d)
     ∨ (r = Ok false ∧ registry d' !! key = None ∧ ∀ pid, ¬ alive_under key pid d)).
Proof.
  intros Hr. unfold is_running. destruct (registry d !! key) as [pid|] eqn:Hk.
  - destruct (is_alive d pid) eqn:Ha.
    + split_and!; [done..|]. left. exists pid. split_and!; [|done..]. apply is_alive_true in Ha as (p & Hp & Ha).
      exists p. destruct (registered_key _ Hr _ _ Hk) as (q & Hq & ?). split_and!; congruence.
    + assert (∀ i, ¬ alive_under key i d) as Hno.
      { intros i Hi. pose proof (registered_alive _ Hr _ _ Hi) as Hi'. rewrite Hk in Hi'. injection Hi' as ->.
        apply not_true_iff_false in Ha. apply Ha, is_alive_true. destruct Hi as (p & ? & ? & _). by exists p. }
      split_and!; [|done|right; cbn; by rewrite lookup_delete_eq].
      apply registered_forget; [done|apply delete_subseteq|]. intros key' i Hi Hia.
      rewrite lookup_delete_ne; [done|]. intros <-. rewrite Hk in Hi. injection Hi as ->. congruence.
  - split_and!; [done..|]. right. split_and!; [done..|]. intros i Hi. apply (registered_alive _ Hr) in Hi. congruence.
Qed.

Lemma reconnect_spec key caller pid d : registry d !! key = Some pid → alive_under key pid d →
  reconnect key caller d
  = (Ok pid, with_process (Process.set_sink (Some caller)) pid (deliver caller Frame.AlreadyRunning d)).
Proof.
  intros Hr (p & Hp & Ha & _). assert (is_alive d pid = true) as Hal by (apply is_alive_true; by exists p).
  unfold reconnect. rewrite run_bind. unfold get_stdin_tx. rewrite Hr, Hal. cbn [ok_or].
  rewrite run_bind, run_ret, run_bind, run_modify, run_bind. unfold replace_output_sink. cbn [registry deliver]. rewrite Hr.
  assert (is_alive (deliver caller Frame.AlreadyRunning d) pid = true) as -> by exact Hal. cbn [ok_or].
  by rewrite run_bind, run_ret, run_ret.
Qed.
(** A process that is started. *)
Definition started (req : ExecRequest.t) caller d : daemon :=
  let pid := fresh_pid d in
  set_registry (<[process_key_of workspace req := pid]> (registry d))
    (set_processes (<[pid := Process.mk (process_key_of workspace req) true (Some caller) None]> (processes d)) d).
Lemma start_spec req caller d :
  (∃ e, start workspace req caller d = (Err e, d)) ∨ start workspace req caller d = (Ok (fresh_pid d), started req caller d).
Proof. unfold start. destruct (spawn_error _ _ _ _); [left; by eexists|by right]. Qed.
Lemma fresh_pid_new d : processes d !! fresh_pid d = None.
Proof. apply not_elem_of_dom. apply (is_fresh (dom (processes d) : gset nat)). Qed.
Lemma registered_started req caller d : registered d → (∀ pid, ¬ alive_under (process_key_of workspace req) pid d) →
  registered (started req caller d).
Proof.
  intros [H1 H2] Hno. pose proof (fresh_pid_new d) as Hf. split; cbn.
  - intros key pid (p & Hp & Ha & Hk). cbn in Hp. destruct (decide (pid = fresh_pid d)) as [->|Hne].
    + rewrite lookup_insert_eq in Hp. injection Hp as <-. cbn in Hk. subst key. by rewrite lookup_insert_eq.
    + rewrite lookup_insert_ne in Hp by done. rewrite lookup_insert_ne; [apply H1; by exists p|].
      intros <-. by apply (Hno pid); exists p.
  - intros key pid Hr. destruct (decide (key = process_key_of workspace req)) as [->|Hne].
    + rewrite lookup_insert_eq in Hr. injection Hr as <-. rewrite lookup_insert_eq. by eexists.
    + rewrite lookup_insert_ne in Hr by done. destruct (H2 key pid Hr) as (p & Hp & Hk). exists p.
      rewrite lookup_insert_ne; [done|]. congruence.
Qed.
Lemma registered_spawn req caller d : registered d → registered (spawn_long_lived workspace req caller d).2.
Proof.
  intros Hr. unfold spawn_long_lived. rewrite run_bind. pose proof (is_running_spec (E := Status.t) (process_key_of workspace req) d Hr) as Hi.
  destruct (is_running _ d) as [r d']. destruct Hi as (Hr' & Hp & [(pid & Ha & Hk & -> & ->)|(-> & Hk & Hno)]).
  - rewrite (reconnect_spec _ _ pid) by done. cbn [snd].
    eapply (registered_change d _ pid (Process.set_sink (Some caller))); [done|done|done|]. by intros [].
  - assert (∀ pid, ¬ alive_under (process_key_of workspace req) pid d') as Hno'.
    { intros pid Ha. apply (Hno pid). destruct Ha as (p & Hpp & ?). exists p. by rewrite <-Hp. }
    destruct (start_spec req caller d') as [[e ->]| ->]; cbn [snd]; [done|by apply registered_started].
Qed.
Lemma registered_step d d' : registered d → daemon_step d d' → registered d'.
Proof.
  intros Hr Hs. destruct Hs as [req caller d0|d0|pid f d0 d1 H|pid d0 d1 H|pid d0 d1 H|caller d0].
  - by apply registered_spawn.
  - apply registered_forget; [done|apply map_filter_subseteq|]. intros key pid Hk Ha. by apply map_lookup_filter_Some.
  - unfold take_frame in H. destruct (processes d0 !! pid) as [p|] eqn:Hp; [|done]. cbn in H.
    destruct (Process.alive p), (Process.held p); try done. injection H as <-.
    eapply (registered_change d0 _ pid); [done|done|reflexivity|]. by intros [].
  - unfold forward_frame in H. destruct (processes d0 !! pid) as [p|] eqn:Hp; [|done]. cbn in H.
    destruct (Process.held p) as [[[caller|] f]|]; cbn in H; [|injection H as <-|done].
    + case_decide; injection H as <-.
      * eapply (registered_change d0 _ pid (Process.set_sink None ∘ Process.set_held None)); [done|done| |by intros []].
        cbn. by rewrite alter_alter_eq.
      * eapply (registered_change d0 _ pid); [done|done|reflexivity|]. by intros [].
    + eapply (registered_change d0 _ pid); [done|done|reflexivity|]. by intros [].
  - unfold end_output in H. destruct (processes d0 !! pid) as [p|] eqn:Hp; [|done]. cbn in H.
    destruct (Process.alive p), (Process.held p); try done. injection H as <-.
    eapply (registered_change d0 _ pid); [done|done|reflexivity|]. by intros [].
  - by apply (registered_same d0).
Qed.

Definition no_processes : daemon := Daemon ∅ ∅ ∅ ∅.
Lemma registered_reachable d : rtc daemon_step no_processes d → registered d.
Proof.
  assert (registered no_processes) as H0.
  { split; [by intros key pid (p & Hp & _)|by intros key pid Hk]. }
  intros Hs. remember no_processes as d0 eqn:E. clear E.
  induction Hs as [|? ? ? Hstep _ IH]; [done|]. apply IH. by eapply registered_step.
Qed.

(** C10: One long-lived process per command and directory.  However requests that run one after
    the other, output, ends of processes, callers that hang up and the reaper mix: two
    running processes are never under one key, a request for a running one starts
    none but is connected to it, gets its acknowledgement first and the output from
    then on; and only a request for a key without one starts a process. *)
Theorem one_process_per_key d : rtc daemon_step no_processes d →
  (∀ key pid pid', alive_under key pid d → alive_under key pid' d → pid = pid')
  ∧ ∀ req caller,
      let key := process_key_of workspace req in
      let '(r, d') := spawn_long_lived workspace req caller d in
      (∀ pid, alive_under key pid d → r = Ok pid ∧ dom (processes d') = dom (processes d)
         ∧ (Process.sink <$> processes d' !! pid) = Some (Some caller)
         ∧ received d' = received (deliver caller Frame.AlreadyRunning d))
      ∧ ((∀ pid, ¬ alive_under key pid d) →
         (∃ e, r = Err e) ∨ ∃ pid, r = Ok pid ∧ pid ∉ dom (processes d) ∧ alive_under key pid d').
Proof.
  intros Hr%registered_reachable. split.
  { intros key pid pid' H%(registered_alive _ Hr) H'%(registered_alive _ Hr). congruence. }
  intros req caller key. unfold spawn_long_lived. rewrite run_bind. fold key.
  pose proof (is_running_spec (E := Status.t) key d Hr) as Hi. destruct (is_running key d) as [r d'].
  destruct Hi as (Hr' & Hp & [(pid & Ha & Hk & -> & ->)|(-> & Hk & Hno)]).
  - rewrite (reconnect_spec _ _ pid) by done. split; [|intros Hno; by destruct (Hno pid)]. intros pid' Ha'.
    assert (pid' = pid) as -> by (apply (registered_alive _ Hr) in Ha'; congruence). split; [done|]. cbn.
    split; [apply dom_alter_L|]. split; [|done]. destruct Ha as (p & Hpp & _). by rewrite lookup_alter_eq, Hpp.
  - destruct (start_spec req caller d') as [[e ->]| ->].
    + split; [intros pid Ha; by destruct (Hno pid)|]. intros _. left. by eexists.
    + split; [intros pid Ha; by destruct (Hno pid)|]. intros _. right. exists (fresh_pid d'). split; [done|]. split.
      * rewrite <-Hp. apply not_elem_of_dom, fresh_pid_new.
      * eexists. cbn. by rewrite lookup_insert_eq.
Qed.

(** ** Schedules that go wrong *)

(** Two requests at once start two processes.  Looking for a running process and starting
    one are two steps: when a second request looks before the first one has
    registered its process, both start one under the same key, and the first is in no
    registry any more. *)
Theorem racing_requests req c1 c2 d d1 pid1 pid2 d2 d3 :
  is_running (E := Status.t) (process_key_of workspace req) d = (Ok false, d1) →
  (is_running (E := Status.t) (process_key_of workspace req) d1).1 = Ok false
  ∧ (start workspace req c1 d1 = (Ok pid1, d2) → start workspace req c2 d2 = (Ok pid2, d3) →
     pid1 ≠ pid2 ∧ alive_under (process_key_of workspace req) pid1 d3 ∧ alive_under (process_key_of workspace req) pid2 d3
     ∧ registry d3 !! process_key_of workspace req = Some pid2).
Proof.
  set (key := process_key_of workspace req). intros Hrun. split.
  - unfold is_running in Hrun |- *. destruct (registry d !! key) as [pid|] eqn:Hk.
    + destruct (is_alive d pid); [done|]. injection Hrun as <-. cbn. by rewrite lookup_delete_eq.
    + injection Hrun as <-. by rewrite Hk.
  - intros H1 H2. destruct (start_spec req c1 d1) as [[e E]|E]; rewrite E in H1; [done|]. injection H1 as <- <-.
    destruct (start_spec req c2 (started req c1 d1)) as [[e E2]|E2]; rewrite E2 in H2; [done|]. injection H2 as <- <-.
    pose proof (fresh_pid_new (started req c1 d1)) as Hf. cbn in Hf.
    assert (fresh_pid d1 ≠ fresh_pid (started req c1 d1)) as Hne.
    { intros Heq. rewrite <-Heq in Hf. by rewrite lookup_insert_eq in Hf. }
    split_and!; [done| | |].
    + eexists. cbn. rewrite lookup_insert_ne by done. by rewrite lookup_insert_eq.
    + eexists. cbn. by rewrite lookup_insert_eq.
    + cbn. by rewrite lookup_insert_eq.
Qed.

(** A caller that comes back may be cut off.  The forwarder takes a frame with the sender
    of the moment and sends it later: when that caller is gone and another one has
    been connected in between, clearing the sink disconnects the new one, which gets
    its acknowledgement and nothing more while the process runs on. *)
Theorem reconnected_caller_cut_off req c1 c2 d d1 d2 pid p f :
  let key := process_key_of workspace req in
  registry d !! key = Some pid → processes d !! pid = Some p → Process.key p = key →
  Process.alive p = true → Process.held p = None → Process.sink p = Some c1 → c1 ∈ hung_up d → c1 ≠ c2 →
  take_frame pid f d = Some d1 → spawn_long_lived workspace req c2 d1 = (Ok pid, d2) →
  ∃ d3, forward_frame pid d2 = Some d3 ∧ alive_under key pid d3 ∧ (Process.sink <$> processes d3 !! pid) = Some None
    ∧ received d3 !! c2 = Some (default [] (received d !! c2) ++ [Frame.AlreadyRunning]).
Proof.
  intros key Hk Hp Hkey Ha Hh Hs Hc Hne Ht Hr. unfold take_frame in Ht. rewrite Hp in Ht. cbn in Ht. rewrite Ha, Hh in Ht.
  injection Ht as <-. rewrite Hs in Hr. set (d1 := with_process _ pid d) in *.
  assert (processes d1 !! pid = Some (Process.set_held (Some (Some c1, f)) p)) as Hp1 by (unfold d1; cbn; by rewrite lookup_alter_eq, Hp).
  assert (alive_under key pid d1) as Ha1 by (eexists; split; [exact Hp1|by destruct p]).
  unfold spawn_long_lived in Hr. rewrite run_bind in Hr. unfold is_running at 1 in Hr. fold key in Hr.
  assert (registry d1 !! key = Some pid) as Hk1 by done. rewrite Hk1 in Hr.
  assert (is_alive d1 pid = true) as Hal by (apply is_alive_true; destruct Ha1 as (q & ? & ? & _); by exists q).
  rewrite Hal in Hr. rewrite (reconnect_spec _ _ pid) in Hr by done. injection Hr as <-.
  unfold forward_frame. cbn. rewrite !lookup_alter_eq, Hp. cbn. eexists. split; [reflexivity|].
  rewrite decide_True by done. cbn. split; [|split].
  - eexists. cbn. rewrite !lookup_alter_eq, Hp. cbn. split; [done|by destruct p].
  - by rewrite !lookup_alter_eq, Hp.
  - by rewrite lookup_insert_eq.
Qed.
End Processes.

(** ** A command with its overlays concealed *)

Section Short.
Context {GT : GitTool} {DO : DirOrder} {LG : LawfulGit} {CP : ChildProcess}.
Context (workspace : option string) (pool_workspace : string).
(** A command does not reach into the daemon's memory. *)
Context (child_keeps : ∀ c a dir env stdin d, active (run_child c a dir env stdin d).2 = active d).
Implicit Types (d : disk).

Definition is_exit (f : result Frame.t Status.t) : bool :=
  match f with Ok (Frame.ExitCode _) => true | _ => false end.
Lemma before_exit_spec frames l e : before_exit frames = (l, e) →
  Forall (λ f, is_exit f = false) l ∧ ∀ f, e = Some f → is_exit f = true.
Proof.
  revert l e. induction frames as [|f frames IH]; intros l e; cbn [before_exit]; [by intros [= <- <-]; split; [|by intros ?]|].
  destruct (is_exit f) eqn:Hf.
  - destruct f as [[]|]; try done. intros [= <- <-]. split; [done|by intros f [= <-]].
  - assert ((let '(l, e) := before_exit frames in (f :: l, e)) = (l, e) → ∃ l', l = f :: l' ∧ before_exit frames = (l', e)) as Hs.
    { destruct (before_exit frames) as [l' e']. intros [= <- <-]. by exists l'. }
    intros H. assert (∃ l', l = f :: l' ∧ before_exit frames = (l', e)) as (l' & -> & H').
    { apply Hs. destruct f as [[]|]; try done. }
    destruct (IH _ _ H') as (Hall & He). split; [by constructor|done].
Qed.
Lemma counter_in_slot {A} p path (m : SE site string A) d : counter p (in_slot path m d).2 = counter p d.
Proof.
  unfold counter. destruct (in_slot path m d) as [r d'] eqn:E. cbn [snd]. by rewrite (in_slot_active _ _ _ _ _ E).
Qed.
Lemma counter_set_any p path n d : counter p (set_active path n d) = if decide (p = path) then n else counter p d.
Proof.
  unfold counter, set_active. cbn. case_decide as E; [subst; by rewrite lookup_insert_eq|by rewrite lookup_insert_ne].
Qed.
(** A lease counts one. *)
Lemma conceal_for_counter dir d r d' : conceal_for pool_workspace dir d = (r, d') →
  ∀ p, counter p d' = match r with Ok (Some slot) => if decide (p = slot) then S (counter p d) else counter p d | _ => counter p d end.
Proof.
  unfold conceal_for. rewrite run_bind, run_gets. destruct (overlaid_slot_for _ _ _) as [slot|]; [|by rewrite run_ret; intros [= <- <-]].
  rewrite run_bind. unfold enter. rewrite run_bind, run_gets, run_bind. case_bool_decide as H0.
  - rewrite run_bind, run_attempt. pose proof (λ p, counter_in_slot p slot (conceal slot) d) as Hc.
    destruct (in_slot slot (conceal slot) d) as [[u|e] d1]; cbn [fst snd] in Hc |- *.
    + rewrite run_ret, run_modify, run_ret. intros [= <- <-] p. rewrite counter_set_any, Hc.
      case_decide as E; [by subst|done].
    + rewrite run_bind, run_attempt. pose proof (λ p, counter_in_slot p slot (reveal slot) d1) as Hc'.
      destruct (in_slot slot (reveal slot) d1) as [r1 d2]; cbn [fst snd] in Hc' |- *. intros [= <- <-] p. by rewrite Hc', Hc.
  - rewrite run_ret, run_modify, run_ret. intros [= <- <-] p. rewrite counter_set_any. case_decide as E; [by subst|done].
Qed.
Lemma reveal_after_counter slot d p :
  counter p (reveal_after slot d).2 = if decide (p = slot) then counter p d - 1 else counter p d.
Proof.
  unfold reveal_after. rewrite run_bind, run_gets, run_bind, run_modify. case_bool_decide as H0.
  - rewrite counter_in_slot, counter_set_any. case_decide as E; [by subst|done].
  - rewrite run_ret. cbn [snd]. rewrite counter_set_any. case_decide as E; [by subst|done].
Qed.

(** What a command leaves behind.  Whatever happens to a command that is run for a caller,
    the count of commands in every slot is as before: no lease is kept.  The exit code
    is the last frame the caller gets, and when a bracketed command in an overlaid slot
    shows one and no other command is running there, the overlays are back. *)
Theorem spawn_command_spec req stdin d r d' :
  spawn_command workspace pool_workspace req stdin d = (r, d') →
  (∀ p, counter p d' = counter p d)
  ∧ (∀ frames slot, r = Ok frames → ExecRequest.command req ∈ OVERLAY_BRACKETED_COMMANDS →
       overlaid_slot_for pool_workspace (resolve_working_dir workspace (ExecRequest.working_dir req)) d = Some slot →
       ∃ l last, frames = l ++ option_list last ∧ Forall (λ f, is_exit f = false) l
         ∧ (∀ f, last = Some f → is_exit f = true → counter slot d' = 0 → of_slot slot shown d')).
Proof.
  unfold spawn_command. set (dir := resolve_working_dir workspace (ExecRequest.working_dir req)).
  rewrite run_bind. destruct (conceal_overlays pool_workspace req dir d) as [lease d1] eqn:Hl.
  assert ((∀ p, counter p d1 = match lease with Ok (Some s) => if decide (p = s) then S (counter p d) else counter p d | _ => counter p d end)
    ∧ (ExecRequest.command req ∈ OVERLAY_BRACKETED_COMMANDS → ∀ slot, overlaid_slot_for pool_workspace dir d = Some slot →
       (∃ e, lease = Err e) ∨ lease = Ok (Some slot))) as [Hc1 Hslot].
  { unfold conceal_overlays in Hl. case_bool_decide as Hb; cbn [negb] in Hl; [|by rewrite run_ret in Hl; injection Hl as <- <-].
    rewrite run_map_err in Hl. destruct (conceal_for pool_workspace dir d) as [r0 d0] eqn:Hcf.
    pose proof (conceal_for_counter _ _ _ _ Hcf) as Hcc. split.
    - intros p. rewrite Hcc || idtac. destruct r0; injection Hl as <- <-; apply Hcc.
    - intros _ slot Hs. unfold conceal_for in Hcf. rewrite run_bind, run_gets, Hs, run_bind in Hcf.
      destruct (enter slot d) as [[u|e] d2]; [rewrite run_ret in Hcf|]; injection Hcf as <- <-; injection Hl as <- <-; [by right|].
      left. by eexists. }
  destruct lease as [lease|e]; [|intros [= <- <-]; by split].
  rewrite run_bind, run_attempt. unfold child. set (ch := run_child _ _ _ _ _ d1).
  assert (∀ p, counter p ch.2 = counter p d1) as Hch by (intros p; unfold counter, ch; by rewrite child_keeps).
  destruct ch as [rc d2]; cbn [fst snd] in Hch |- *. destruct rc as [frames|e], lease as [slot|].
  - rewrite run_bind, run_attempt. destruct (reveal_after slot d2) as [rv d3] eqn:Hv. cbn [fst snd]. rewrite run_ret. intros [= <- <-].
    pose proof (reveal_after_counter slot d2) as Hrc. rewrite Hv in Hrc. cbn in Hrc. split.
    + intros p. rewrite Hrc, Hch, Hc1. case_decide; lia.
    + intros fs slot' [= <-] Hb Hs. destruct (Hslot Hb slot' Hs) as [[e He]|[= <-]]; [done|].
      unfold forward_then_reveal. destruct (before_exit frames) as [l e] eqn:Hbe. destruct (before_exit_spec _ _ _ Hbe) as (Hall & He).
      eexists l, _. split; [reflexivity|]. split; [done|]. intros f Hf Hx Hz. destruct rv as [u|er]; [|by injection Hf as <-].
      unfold reveal_after in Hv. rewrite run_bind, run_gets, run_bind, run_modify in Hv.
      assert (counter slot d2 - 1 = 0) as H0 by (specialize (Hrc slot); rewrite decide_True in Hrc by done; congruence).
      rewrite bool_decide_true in Hv by done. apply in_slot_Ok in Hv as (s & x & _ & Hrv & Hs' & _).
      unfold of_slot. rewrite Hs'. cbn. by apply reveal_any in Hrv as (_ & _ & _ & ? & _).
  - rewrite run_ret. intros [= <- <-]. split; [intros p; by rewrite Hch, Hc1|].
    intros fs slot [= <-] Hb Hs. by destruct (Hslot Hb slot Hs) as [[e He]|[=]].
  - rewrite run_bind, run_attempt. destruct (reveal_after slot d2) as [rv d3] eqn:Hv. cbn [fst snd]. rewrite run_throw. intros [= <- <-].
    pose proof (reveal_after_counter slot d2) as Hrc. rewrite Hv in Hrc. cbn in Hrc. split; [|done].
    intros p. rewrite Hrc, Hch, Hc1. case_decide; lia.
  - rewrite run_throw. intros [= <- <-]. split; [intros p; by rewrite Hch, Hc1|done].
Qed.
End Short.

(** ** Witnesses *)

Definition always_starts : Spawner := {| spawn_error _ _ _ _ := None |}.
Definition dev_server : ExecRequest.t := ExecRequest.mk "npm" ["run"; "dev"] "/ws/p" ∅ true.
Abbreviation request := (@spawn_long_lived always_starts None dev_server).
(** A process of caller 1, who hangs up. *)
Definition one_running : daemon := (request 1 no_processes).2.
Definition left_alone : daemon := hang_up 1 one_running.

Lemma one_process_per_key_witness : (request 2 left_alone).1 = Ok 0 ∧ received (request 2 left_alone).2 !! 2 = Some [Frame.AlreadyRunning].
Proof.
  assert (rtc (@daemon_step always_starts None) no_processes left_alone) as Hr.
  { apply (rtc_l _ _ one_running); [exact (step_request None dev_server 1 no_processes)|]. apply rtc_once. exact (step_hang_up None 1 _). }
  destruct (@one_process_per_key always_starts None left_alone Hr) as [_ Hreq]. specialize (Hreq dev_server 2).
  revert Hreq. cbv zeta. destruct (request 2 left_alone) as [r d'] eqn:E. intros [Hreq _].
  cbn [fst snd]. destruct (Hreq 0) as (-> & _ & _ & ->); [by eexists|]. by split.
Defined.
Lemma racing_requests_witness :
  let d2 := (@start always_starts None dev_server 1 no_processes).2 in
  let d3 := (@start always_starts None dev_server 2 d2).2 in
  alive_under ("npm", "/ws/p") 0 d3 ∧ alive_under ("npm", "/ws/p") 1 d3.
Proof.
  destruct (@racing_requests always_starts None dev_server 1 2 no_processes no_processes 0 1
    (@start always_starts None dev_server 1 no_processes).2
    (@start always_starts None dev_server 2 (@start always_starts None dev_server 1 no_processes).2).2 eq_refl) as [_ Hs].
  destruct (Hs eq_refl eq_refl) as (_ & H1 & H2 & _). exact (conj H1 H2).
Defined.
Lemma reconnected_caller_cut_off_witness :
  ∃ d1 d3, take_frame 0 (Frame.Stdout "x") left_alone = Some d1 ∧ forward_frame 0 (request 2 d1).2 = Some d3
    ∧ (Process.sink <$> processes d3 !! 0) = Some None ∧ received d3 !! 2 = Some [Frame.AlreadyRunning].
Proof.
  set (d1 := with_process (Process.set_held (Some (Some 1, Frame.Stdout "x"))) 0 left_alone).
  destruct (@reconnected_caller_cut_off always_starts None dev_server 1 2 left_alone d1 (request 2 d1).2 0
    (Process.mk ("npm", "/ws/p") true (Some 1) None) (Frame.Stdout "x")) as (d3 & Hf & _ & Hs & Hr);
    [reflexivity..|by apply elem_of_union_l, elem_of_singleton|done|reflexivity|reflexivity|].
  exists d1, d3. split; [reflexivity|]. split; [exact Hf|]. split; [exact Hs|exact Hr].
Defined.

(** A git that prints and exits. *)
Definition prints : ChildProcess :=
  {| run_child _ _ _ _ _ d := (Ok [Ok (Frame.Stdout "on branch"); Ok (Frame.ExitCode 0)], d) |}.
Definition git_status : ExecRequest.t := ExecRequest.mk "git" ["status"] "/ws/pool/p/0" ∅ false.
Lemma spawn_command_spec_witness :
  let '(r, d') := @spawn_command _ _ prints None "/ws" git_status [] test_disk in
  r = Ok [Ok (Frame.Stdout "on branch"); Ok (Frame.ExitCode 0)] ∧ counter test_path d' = 0.
Proof.
  destruct (@spawn_command _ _ prints None "/ws" git_status [] test_disk) as [r d'] eqn:E.
  assert (r = Ok [Ok (Frame.Stdout "on branch"); Ok (Frame.ExitCode 0)]) as -> by exact (eq_sym (f_equal fst E)).
  split; [reflexivity|].
  destruct (@spawn_command_spec _ _ _ prints None "/ws" (λ _ _ _ _ _ _, eq_refl) git_status [] test_disk _ d' E) as [Hc _].
  by rewrite Hc.
Defined.
