(* ===== verification/Containers.v ===== *)
(** * Worker containers

    [container/src/lib.rs] and [docker.rs], and [builderd/src/container_handler.rs]: the
    command lines of the container runtime, what its answers mean, and launching,
    stopping and inspecting the container of a worker.

    The runtime is what it answers, which may depend on everything it was asked before
    ([ContainerCli]); the state of a computation is what was asked.  A polling loop
    ends by the clock, which has moved on by the time slept. *)

From S2P Require Import Prelude RustStd Host RunOpts.
From Stdlib Require Import Ascii.
Local Open Scope stdpp_scope.

(** ** The runtime *)

Module Output.
Record t : Type := mk { success : bool; code : option Z; stdout : string; stderr : string }.
End Output.

(** Everything asked so far. *)
Abbreviation asked := (list (list string)).

(** The answer to the last of the calls made so far, or why it could not be started; the
    time in milliseconds since the start of a loop after so many sleeps; whether a path
    is there, and why not. *)
Class ContainerCli : Type := {
  answer : asked → result Output.t string;
  elapsed_ms : asked → nat → Z;
  metadata : string → result unit string
}.
Class LawfulClock `{ContainerCli} : Prop := { slept n a : (100 * Z.of_nat n ≤ elapsed_ms a n)%Z }.

Module RunOpts.
Record t : Type := mk {
  image : string;
  name : string;
  cpus : Z;
  memory : string;
  volumes : list (string * string);
  port_maps : list (Z * Z);
  env_vars : list (string * string);
  workdir : option string;
  command : list string;
  network : option string;
  add_hosts : list (string * string)
}.
End RunOpts.
Module ExecOpts.
Record t : Type := mk { command : list string; workdir : option string }.
End ExecOpts.
Module ExecOutput.
Record t : Type := mk { exit_code : Z; stdout : string; stderr : string }.
End ExecOutput.
Module ContainerState.
Record t : Type := mk { id : string; running : bool }.
End ContainerState.

Definition flags (flag : string) (values : list string) : list string := values ≫= λ v, [flag; v].

Module DockerRuntime.
Section Runtime.
Context {CC : ContainerCli} (command : string).
Abbreviation run A := (SE asked string A).

(** [Command::new(&self.command).args(args).output()] *)
Definition output (args : list string) : run Output.t := λ a, (answer (a ++ [args]), a ++ [args]).
(** [.with_context(|| what)]: the error shows the context. *)
Definition with_context {A} (what : string) (m : run A) : run A := map_err (λ _, what) m.
Definition exec_checked (args : list string) : run string :=
  out ← with_context ("failed to execute " +:+ command) (output args);
  if Output.success out then mret (trim (Output.stdout out))
  else throw (command +:+ " " +:+ hd "" args +:+ " failed: " +:+ trim (Output.stderr out)).

Definition run_args (o : RunOpts.t) : list string :=
  ["run"; "-d"; "--name"; RunOpts.name o; "--cpus"; pretty (RunOpts.cpus o); "--memory"; RunOpts.memory o]
  ++ flags "-v" ((λ v, v.1 +:+ ":" +:+ v.2) <$> RunOpts.volumes o)
  ++ flags "-p" ((λ p, pretty p.1 +:+ ":" +:+ pretty p.2) <$> RunOpts.port_maps o)
  ++ flags "-e" ((λ e, e.1 +:+ "=" +:+ e.2) <$> RunOpts.env_vars o)
  ++ flags "-w" (option_list (RunOpts.workdir o))
  ++ flags "--network" (option_list (RunOpts.network o))
  ++ flags "--add-host" ((λ h, h.1 +:+ ":" +:+ h.2) <$> RunOpts.add_hosts o)
  ++ [RunOpts.image o] ++ RunOpts.command o.
Definition stop_args (id : string) : list string := ["stop"; "-t"; "3"; id].
Definition rm_args (id : string) : list string := ["rm"; id].
Definition logs_args (id : string) : list string := ["logs"; "--tail"; "100"; id].
Definition health_status_args (id : string) : list string :=
  ["inspect"; "--format"; "{{if .State.Health}}{{.State.Health.Status}}{{end}}"; id].
Definition inspect_args (id : string) : list string := ["inspect"; "--format"; "{{.State.Running}} {{.Id}}"; id].
Definition exec_args (id : string) (o : ExecOpts.t) : list string :=
  ["exec"] ++ flags "-w" (option_list (ExecOpts.workdir o)) ++ [id] ++ ExecOpts.command o.

Definition run_container (o : RunOpts.t) : run string := exec_checked (run_args o).
Definition stop (id : string) : run unit := exec_checked (stop_args id) ;; mret tt.
Definition rm (id : string) : run unit := exec_checked (rm_args id) ;; mret tt.
Definition exec (id : string) (o : ExecOpts.t) : run ExecOutput.t :=
  out ← with_context ("failed to execute " +:+ command +:+ " exec") (output (exec_args id o));
  mret (ExecOutput.mk (default (-1)%Z (Output.code out)) (Output.stdout out) (Output.stderr out)).
Definition health_status (id : string) : run string :=
  with_context ("failed to inspect health for container " +:+ id) (exec_checked (health_status_args id)).
Definition logs (id : string) : run string :=
  out ← with_context ("failed to read logs for container " +:+ id) (output (logs_args id));
  if Output.success out then mret (Output.stdout out +:+ Output.stderr out)
  else throw (command +:+ " logs failed for container " +:+ id +:+ ": " +:+ trim (Output.stderr out)).

(** The text before the first white space, and after it. *)
Fixpoint split_whitespace (s : string) : option (string * string) :=
  match s with
  | EmptyString => None
  | String c s => if is_whitespace c then Some (EmptyString, s)
                  else (λ '(a, b), (String c a, b)) <$> split_whitespace s
  end.
(** [None] for an error. *)
Definition parse_inspect_state (stdout : string) : option ContainerState.t :=
  x ← split_whitespace (trim stdout);
  running ← (if decide (trim x.1 = "true") then Some true else if decide (trim x.1 = "false") then Some false else None);
  if decide (trim x.2 = "") then None else Some (ContainerState.mk (trim x.2) running).
Definition inspect_state (id : string) : run (option ContainerState.t) :=
  out ← with_context ("failed to inspect container " +:+ id) (output (inspect_args id));
  if Output.success out then
    match parse_inspect_state (Output.stdout out) with
    | Some s => mret (Some s)
    | None => throw ("unexpected " +:+ command +:+ " inspect output for container " +:+ id +:+ ": "
                     +:+ trim (Output.stdout out))
    end
  else if contains "No such container" (Output.stderr out) || contains "no such object" (Output.stderr out)
  then mret None
  else throw (command +:+ " inspect failed for container " +:+ id +:+ ": " +:+ trim (Output.stderr out)).
End Runtime.
End DockerRuntime.

(** ** The service *)

Definition as_u16 (z : Z) : Z := (z mod 65536)%Z.
Definition non_empty (s : string) : option string := if decide (s = "") then None else Some s.
Definition request_to_run_opts (req : LaunchWorkerRequest.t) : RunOpts.t :=
  RunOpts.mk (LaunchWorkerRequest.image req) (LaunchWorkerRequest.name req) (LaunchWorkerRequest.cpus req)
    (LaunchWorkerRequest.memory req) (LaunchWorkerRequest.volumes req)
    ((λ p, (as_u16 p.1, as_u16 p.2)) <$> LaunchWorkerRequest.port_maps req) (LaunchWorkerRequest.env_vars req)
    (non_empty (LaunchWorkerRequest.workdir req)) [] (non_empty (LaunchWorkerRequest.network req))
    (LaunchWorkerRequest.add_hosts req).

Inductive startup_state : Type := Starting | Ready | Exited (logs : string).

Section Service.
Context {CC : ContainerCli} (command : string).
Abbreviation run A := (SE asked string A).
Abbreviation rpc A := (SE asked Status.t A).
Import DockerRuntime.

Fixpoint check_volume_sources (volumes : list (string * string)) : result unit string :=
  match volumes with
  | [] => Ok tt
  | v :: volumes =>
      match metadata v.1 with
      | Err e => Err (v.1 +:+ ": " +:+ e)
      | Ok _ => check_volume_sources volumes
      end
  end.

Definition probe_worker_startup (id : string) : run startup_state :=
  state ← map_err (λ e, "failed to inspect worker during startup: " +:+ e) (inspect_state command id);
  if negb (from_option ContainerState.running false state) then
    logs ← attempt (DockerRuntime.logs command id);
    mret (Exited (match logs with Ok l => l | Err e => "failed to read container logs: " +:+ e end))
  else
    health ← map_err (λ e, "failed to inspect worker health during startup: " +:+ e) (health_status command id);
    mret (if decide (health = "healthy" ∨ health = "") then Ready else Starting).

Definition STARTUP_TIMEOUT_MS : Z := 60000.
(** After so many sleeps; the fuel bounds the polls to come. *)
Fixpoint wait_for_worker_startup (fuel : nat) (sleeps : nat) (probe : run startup_state) : run unit :=
  match fuel with
  | O => throw "out of fuel"
  | S fuel =>
      s ← probe;
      match s with
      | Ready => mret tt
      | Exited logs => throw ("worker container exited during startup: " +:+ logs)
      | Starting =>
          now ← gets (λ a, elapsed_ms a sleeps);
          if (STARTUP_TIMEOUT_MS <=? now)%Z then throw "timed out after 60s waiting for worker startup"
          else wait_for_worker_startup fuel (S sleeps) probe
      end
  end.
(** A poll every 100 milliseconds. *)
Definition STARTUP_POLLS : nat := Z.to_nat (STARTUP_TIMEOUT_MS / 100) + 1.

Definition cleanup_failed_launch (id : string) : run unit :=
  state ← attempt (inspect_state command id);
  stopped ← match state with
            | Ok (Some s) =>
                if ContainerState.running s then
                  r ← attempt (stop command id);
                  mret (match r with Ok _ => [] | Err e => ["failed to stop container: " +:+ e] end)
                else mret []
            | Ok None => mret []
            | Err e => mret ["failed to inspect container for cleanup: " +:+ e]
            end;
  r ← attempt (rm command id);
  let errors := stopped ++ match r with Ok _ => [] | Err e => ["failed to remove container: " +:+ e] end in
  if bool_decide (errors = []) then mret tt else throw (join "; " errors).

Definition failed_precondition (msg : string) : Status.t := Status.mk Status.FailedPrecondition msg None.
Definition launch_worker (req : LaunchWorkerRequest.t) : rpc string :=
  match check_volume_sources (LaunchWorkerRequest.volumes req) with
  | Err missing => throw (failed_precondition ("volume source path does not exist: " +:+ missing))
  | Ok _ =>
      id ← map_err (λ e, Status.internal ("docker run failed: " +:+ e)) (run_container command (request_to_run_opts req));
      started ← attempt (wait_for_worker_startup STARTUP_POLLS 0 (probe_worker_startup id));
      match started with
      | Ok _ => mret id
      | Err error =>
          cleanup ← attempt (cleanup_failed_launch id);
          throw (failed_precondition (error +:+ match cleanup with
                                               | Ok _ => ""
                                               | Err e => "; cleanup also failed: " +:+ e
                                               end))
      end
  end.

Definition is_no_such_container (text : string) : bool := contains "No such container" text.
(** A step of stopping: a container that is gone is not found. *)
Definition stopping (step id : string) (m : run unit) : rpc unit :=
  map_err (λ msg, if is_no_such_container msg then Status.mk Status.NotFound ("container not found: " +:+ id) None
                  else Status.internal ("docker " +:+ step +:+ " failed: " +:+ msg)) m.
Definition stop_worker (id : string) : rpc unit :=
  stopping "stop" id (stop command id) ;; stopping "rm" id (rm command id).
Definition exec_container (id cmd : string) (args : list string) (workdir : string) : rpc ExecOutput.t :=
  map_err (λ e, Status.internal ("docker exec failed: " +:+ e))
    (exec command id (ExecOpts.mk (cmd :: args) (non_empty workdir))).
Definition inspect_network (name : string) : rpc bool :=
  out ← map_err (λ e, Status.internal ("failed to run docker network inspect: " +:+ e)) (output ["network"; "inspect"; name]);
  mret (Output.success out).
(** Whether it runs, and the identifier of the container. *)
Definition inspect_worker (id : string) : rpc (bool * string) :=
  state ← map_err (λ e, Status.internal ("container liveness probe failed: " +:+ e)) (inspect_state command id);
  mret (match state with Some s => (ContainerState.running s, ContainerState.id s) | None => (false, "") end).
End Service.

(** * Launching and inspecting containers

    A launch hands out a container that was seen ready, or takes back what it started;
    and an inspection never takes a runtime that cannot answer for an absent
    container. *)

From S2P Require Import TextLemmas Overlay BuilderPool TestGit OverlayProps.
From Stdlib Require Import Ascii Lia.
Import DockerRuntime.

Section Containers.
Context {CC : ContainerCli} (command : string).
Implicit Types (a : asked).

(** The runtime says that the container runs, or does not, or that there is none. *)
Definition says_state (id : string) a (s : option ContainerState.t) : Prop :=
  ∃ o, answer (a ++ [inspect_args id]) = Ok o ∧
    match s with
    | Some s => Output.success o = true ∧ parse_inspect_state (Output.stdout o) = Some s
    | None => Output.success o = false
        ∧ (contains "No such container" (Output.stderr o) || contains "no such object" (Output.stderr o)) = true
    end.
Lemma inspect_state_spec id a :
  (inspect_state command id a).2 = a ++ [inspect_args id]
  ∧ ∀ s, (inspect_state command id a).1 = Ok s ↔ says_state id a s.
Proof.
  unfold inspect_state, says_state. rewrite run_bind. unfold with_context. rewrite run_map_err. unfold output.
  destruct (answer (a ++ [inspect_args id])) as [o|e]; [|split; [done|]; intros s; split; [done|by intros (o & ? & _)]].
  destruct (Output.success o) eqn:Ho; [destruct (parse_inspect_state (Output.stdout o)) as [st|] eqn:Hp|].
  - split; [done|]. intros s. cbn. split; [intros [= <-]; by exists o|]. intros (o' & [= <-] & Hs). destruct s as [s|]; [|destruct Hs; congruence].
    destruct Hs. congruence.
  - split; [done|]. intros s. split; [done|]. intros (o' & [= <-] & Hs). destruct s as [s|]; destruct Hs; congruence.
  - destruct (_ || _) eqn:Hc; (split; [done|]); intros s; cbn.
    + split; [intros [= <-]; by exists o|]. intros (o' & [= <-] & Hs). destruct s as [s|]; [destruct Hs; congruence|done].
    + split; [done|]. intros (o' & [= <-] & Hs). destruct s as [s|]; destruct Hs; congruence.
Qed.

Lemma parsed_id out s : parse_inspect_state out = Some s → ContainerState.id s ≠ "".
Proof.
  unfold parse_inspect_state. destruct (split_whitespace _) as [x|]; [|done]. cbn.
  destruct (if decide _ then _ else _) as [r|]; [|done]. cbn. case_decide; [done|]. by intros [= <-].
Qed.

(** An inspection never guesses.  The service answers that a container runs, or does not,
    only when the runtime said so in the expected form, and with the identifier it
    said; "not running" without an identifier only when the runtime said that there is
    no such container; anything else is an error. *)
Theorem inspect_never_guesses id a :
  let '(r, a') := inspect_worker command id a in
  a' = a ++ [inspect_args id]
  ∧ (∀ s, r = Ok (ContainerState.running s, ContainerState.id s) ∧ ContainerState.id s ≠ "" ↔
       says_state id a (Some s))
  ∧ (r = Ok (false, "") ↔ says_state id a None)
  ∧ (∀ e, r = Err e → Status.code_of e = Status.Internal).
Proof.
  unfold inspect_worker. rewrite run_bind, run_map_err. destruct (inspect_state_spec id a) as [Ha Hs].
  destruct (inspect_state command id a) as [[st|e] a1]; cbn [fst snd] in *; subst a1.
  - rewrite run_ret. assert (says_state id a st) as Hst by (by apply Hs).
    assert (∀ s, st = Some s → ContainerState.id s ≠ "") as Hne.
    { intros s ->. destruct Hst as (o & _ & _ & Hp). by eapply parsed_id. }
    split; [done|]. split_and!; [|split|done].
    + intros s. split; [|intros Hsay%Hs; injection Hsay as ->; split; [done|by apply Hne]].
      intros [Heq Hid]. destruct st as [st|]; [|injection Heq as _ Heq; congruence].
      injection Heq as H1 H2. destruct st, s. cbn in *. by subst.
    + intros Heq. destruct st as [s|]; [injection Heq as _ Heq; by destruct (Hne s eq_refl)|done].
    + intros [= ->]%Hs. done.
  - split; [done|]. assert (∀ s, ¬ says_state id a s) as Hno by (intros s Hsay; by apply Hs in Hsay).
    split_and!; [intros s; split; [by intros [? _]|by intros ?%Hno]|split; [done|by intros ?%Hno]|].
    by intros e' [= <-].
Qed.

(** ** Launching *)

(** The last thing asked was whether the container is ready, and it was. *)
Definition seen_ready (id : string) a : Prop :=
  ∃ a0 s o, a = a0 ++ [inspect_args id; health_status_args id]
    ∧ says_state id a0 (Some s) ∧ ContainerState.running s = true
    ∧ answer a = Ok o ∧ Output.success o = true ∧ (trim (Output.stdout o) = "healthy" ∨ trim (Output.stdout o) = "").

Lemma exec_checked_asks args a : (exec_checked command args a).2 = a ++ [args].
Proof.
  unfold exec_checked. rewrite run_bind. unfold with_context. rewrite run_map_err. unfold output.
  destruct (answer _) as [o|e]; [|done]. by destruct (Output.success o).
Qed.
Lemma exec_checked_Ok args a out : (exec_checked command args a).1 = Ok out →
  ∃ o, answer (a ++ [args]) = Ok o ∧ Output.success o = true ∧ out = trim (Output.stdout o).
Proof.
  unfold exec_checked. rewrite run_bind. unfold with_context. rewrite run_map_err. unfold output.
  destruct (answer _) as [o|e]; [|done]. destruct (Output.success o) eqn:Ho; [|done]. intros [= <-]. by exists o.
Qed.
Lemma probe_ready id a a' : probe_worker_startup command id a = (Ok Ready, a') → seen_ready id a'.
Proof.
  unfold probe_worker_startup. intros (st & a1 & H1%map_err_Ok & H)%bind_Ok.
  destruct (inspect_state_spec id a) as [Ha Hs]. rewrite H1 in Ha, Hs. cbn in Ha. subst a1.
  destruct (from_option ContainerState.running false st) eqn:Hr; cbn [negb] in H.
  - destruct st as [st|]; [|done]. apply bind_Ok in H as (hl & a2 & H2%map_err_Ok%map_err_Ok & [Hret ->]%ret_Ok).
    pose proof (exec_checked_asks (health_status_args id) (a ++ [inspect_args id])) as Ha2.
    destruct (exec_checked_Ok (health_status_args id) (a ++ [inspect_args id]) hl) as (o & Ho & Hok & ->); [by rewrite H2|].
    rewrite H2 in Ha2. cbn in Ha2. subst a2. exists a, st, o. rewrite <-app_assoc in Ho. cbn in Ho. rewrite <-app_assoc. cbn.
    split_and!; [done|by apply Hs|done..|]. by case_decide.
  - by apply bind_Ok in H as (l & a2 & _ & [[=] _]%ret_Ok).
Qed.
Lemma wait_ready id fuel n a u a' :
  wait_for_worker_startup fuel n (probe_worker_startup command id) a = (Ok u, a') → seen_ready id a'.
Proof.
  revert n a. induction fuel as [|fuel IH]; intros n a; cbn [wait_for_worker_startup]; [done|].
  intros (s & a1 & Hp & H)%bind_Ok. destruct s; [|apply ret_Ok in H as [_ ->]; by eapply probe_ready|done].
  apply bind_Ok in H as (now & a2 & Hn & H). rewrite run_gets in Hn. injection Hn as <- <-. case_match; [done|by eapply IH].
Qed.
(** The fuel is enough, whatever is polled. *)
Lemma wait_enough `{!LawfulClock} probe more k n a : (STARTUP_TIMEOUT_MS ≤ 100 * Z.of_nat (k + n))%Z →
  wait_for_worker_startup (S k + more) n probe a = wait_for_worker_startup (S k) n probe a.
Proof.
  revert n a. induction k as [|k IH]; intros n a Hk.
  - cbn [Nat.add wait_for_worker_startup]. rewrite !run_bind. destruct (probe a) as [[[]|e] a1]; [|done..].
    rewrite !run_bind, run_gets. pose proof (slept n a1). destruct (Z.leb_spec STARTUP_TIMEOUT_MS (elapsed_ms a1 n)); [done|].
    cbn [Nat.add] in Hk. lia.
  - change (S (S k) + more) with (S (S k + more)). cbn [wait_for_worker_startup]. rewrite !run_bind.
    destruct (probe a) as [[[]|e] a1]; [|done..]. rewrite !run_bind, run_gets. case_match; [done|]. apply IH. lia.
Qed.

Lemma cleanup_asks id a : ∃ mid, (cleanup_failed_launch command id a).2 = a ++ mid ++ [rm_args id]
  ∧ ∀ s, says_state id a (Some s) → ContainerState.running s = true → mid = [inspect_args id; stop_args id].
Proof.
  unfold cleanup_failed_launch. rewrite run_bind, run_attempt. destruct (inspect_state_spec id a) as [Ha Hs].
  destruct (inspect_state command id a) as [st a1]; cbn [fst snd] in *; subst a1. rewrite run_bind.
  set (stopping := match st with Ok _ => _ | Err _ => _ end).
  assert (∃ l mid, stopping (a ++ [inspect_args id]) = (Ok l, a ++ mid)
    ∧ ∀ s, says_state id a (Some s) → ContainerState.running s = true → mid = [inspect_args id; stop_args id]) as (l & mid & -> & Hmid).
  { unfold stopping. destruct st as [[s|]|e]; [destruct (ContainerState.running s) eqn:Hr|..].
    2-4: rewrite run_ret; eexists _, [inspect_args id]; split; [done|]; intros s' [=]%Hs Hr'; subst; congruence.
    rewrite run_bind, run_attempt. unfold stop. rewrite run_bind.
    pose proof (exec_checked_asks (stop_args id) (a ++ [inspect_args id])) as Hx.
    destruct (exec_checked command (stop_args id) _) as [[u|e] a2]; cbn [fst snd] in *; subst a2; rewrite !run_ret;
      eexists _, [inspect_args id; stop_args id]; (split; [by rewrite <-app_assoc|done]). }
  exists mid. split; [|done]. rewrite run_bind, run_attempt. unfold rm. rewrite run_bind.
  pose proof (exec_checked_asks (rm_args id) (a ++ mid)) as Hx.
  destruct (exec_checked command (rm_args id) _) as [[u|e] a2]; cbn [fst snd] in *; subst a2; cbn [fst snd].
  all: rewrite app_assoc; by case_bool_decide.
Qed.

(** C11: A launch leaves a ready container or takes back what it started.  With a volume's
    source missing, nothing is asked.  When it succeeds, the container is the one
    [run] printed and the last two questions were whether it runs and whether it is
    healthy, to which the runtime said yes.  When it fails after [run] succeeded, the
    last thing asked is to remove that container, which is stopped first if it is found
    running.  Waiting ends within 601 polls. *)
Theorem launch_worker_spec `{!LawfulClock} req a :
  let '(r, a') := launch_worker command req a in
  let run := run_args (request_to_run_opts req) in
  (∀ e, check_volume_sources (LaunchWorkerRequest.volumes req) = Err e → a' = a ∧ is_ok r = false)
  ∧ (check_volume_sources (LaunchWorkerRequest.volumes req) = Ok tt →
      match (exec_checked command run a).1 with
      | Err e => r = Err (Status.internal ("docker run failed: " +:+ e)) ∧ a' = a ++ [run]
      | Ok id =>
          (r = Ok id ∧ seen_ready id a')
          ∨ (∃ msg, r = Err (failed_precondition msg)) ∧ ∃ a0 mid, a' = a0 ++ mid ++ [rm_args id]
              ∧ ∀ s, says_state id a0 (Some s) → ContainerState.running s = true → mid = [inspect_args id; stop_args id]
      end)
  ∧ ∀ probe more, wait_for_worker_startup (STARTUP_POLLS + more) 0 probe a = wait_for_worker_startup STARTUP_POLLS 0 probe a.
Proof.
  assert (∀ probe more, wait_for_worker_startup (STARTUP_POLLS + more) 0 probe a = wait_for_worker_startup STARTUP_POLLS 0 probe a) as Hwait.
  { intros probe more. change STARTUP_POLLS with (S (Z.to_nat (STARTUP_TIMEOUT_MS / 100))). apply wait_enough. done. }
  unfold launch_worker. destruct (check_volume_sources _) as [u|e]; [|rewrite run_throw; split_and!; [by intros ? [= ->]|done|done]].
  rewrite run_bind, run_map_err. unfold run_container. pose proof (exec_checked_asks (run_args (request_to_run_opts req)) a) as Hx.
  destruct (exec_checked command (run_args (request_to_run_opts req)) a) as [[id|e] a1]; cbn [fst snd] in *; subst a1;
    [|split_and!; [done|done|done]].
  rewrite run_bind, run_attempt. destruct (wait_for_worker_startup STARTUP_POLLS 0 (probe_worker_startup command id) _) as [[u'|e] a2] eqn:Hw; cbn [fst snd].
  - rewrite run_ret. split_and!; [done| |done]. intros _. left. split; [done|]. by eapply wait_ready.
  - rewrite run_bind, run_attempt. destruct (cleanup_asks id a2) as (mid & Hc & Hmid).
    destruct (cleanup_failed_launch command id a2) as [rc a3]; cbn [fst snd] in *; subst a3. rewrite run_throw.
    split_and!; [done| |done]. intros _. right. split; [by eexists|]. by exists a2, mid.
Qed.
End Containers.

(** ** Witness *)

(** A runtime whose container is starting for two polls. *)
Definition slow_start : ContainerCli := {|
  answer a := match last a with
              | Some args =>
                  let said s := Ok (Output.mk true (Some 0%Z) s "") in
                  if decide (args = inspect_args "c1") then said "true c1"
                  else if decide (args = health_status_args "c1") then said (if length a <? 6 then "starting" else "healthy")
                  else said "c1"
              | None => Err "nothing asked"
              end;
  elapsed_ms _ n := (100 * Z.of_nat n)%Z;
  metadata _ := Ok tt
|}.
#[local] Instance slow_clock : @LawfulClock slow_start.
Proof. split. intros n a. cbn. lia. Qed.
Definition small_request : LaunchWorkerRequest.t := LaunchWorkerRequest.mk "img" "ur-1" 2 "8G" [] [(70000, 80)%Z] [] "" "" [].
Lemma launch_worker_spec_witness :
  (@launch_worker slow_start "docker" small_request []).1 = Ok "c1"
  ∧ @seen_ready slow_start "c1" (@launch_worker slow_start "docker" small_request []).2.
Proof.
  pose proof (@launch_worker_spec slow_start "docker" slow_clock small_request []) as Hl.
  assert ((@launch_worker slow_start "docker" small_request []).1 = Ok "c1") as Hr by (vm_compute; reflexivity).
  destruct (launch_worker "docker" small_request []) as [r a']. cbn [fst snd] in *. subst r.
  destruct Hl as (_ & Hl & _). specialize (Hl eq_refl). cbn in Hl.
  destruct Hl as [[_ Hs]|[[msg Hm] _]]; [by split|done].
Defined.
