(* ===== verification/UiModel.v ===== *)
(** * The terminal interface: its model, messages and commands

    [urui/src/model.rs], [msg.rs], [cmd.rs] and the data of [navigation.rs],
    [input.rs] and [notifications.rs].

    The interface is one function from a model and a message to a model and
    commands.  Times are milliseconds on a clock that does not go back.  A [char] is
    its UTF-8 encoding, one to four bytes of a text. *)

From S2P Require Import Prelude RustStd Model TicketService.
From Stdlib Require Import Ascii.
Local Open Scope stdpp_scope.

(** ** Rows the server sends *)

(** [ur_rpc::proto::core::WorkerSummary] *)
Module PWorker.
Record t : Type := mk {
  worker_id : string;
  container_id : string;
  project_key : string;
  mode : string;
  container_status : string;
  agent_status : string;
  runtime : string
}.
End PWorker.

Module ActivityEntry.
Record t : Type := mk { id : string; timestamp : string; author : string; message : string }.
End ActivityEntry.

(** [ur_rpc::proto::ticket::GetTicketResponse] as a client sees it: the ticket may be
    missing. *)
Module DetailResponse.
Record t : Type := mk { ticket : option PTicket.t; metadata : list (string * string) }.
End DetailResponse.

(** [msg::PendingTicket] *)
Module PendingTicket.
Record t : Type := mk {
  project : string;
  title : string;
  ticket_type : string;
  priority : Z;
  body : string;
  parent_id : option string;
  branch : option string;
  meta : gmap string string
}.
End PendingTicket.

(** ** Loading *)

Inductive LoadState (T : Type) : Type :=
| NotLoaded
| Loading
| Loaded (data : T)
| LoadError (e : string).
Arguments NotLoaded {T}.
Arguments Loading {T}.
Arguments Loaded {T} data.
Arguments LoadError {T} e.

Definition is_loaded {T} (s : LoadState T) : bool := match s with Loaded _ => true | _ => false end.
Definition is_loading {T} (s : LoadState T) : bool := match s with Loading => true | _ => false end.
(** [LoadState::data] *)
Definition load_data {T} (s : LoadState T) : option T := match s with Loaded d => Some d | _ => None end.

(** ** Tabs and pages *)

Module TabId.
Inductive t : Type := Tickets | Flows | Workers | Help.
#[global] Instance t_eq_dec : EqDecision t.
Proof. solve_decision. Defined.
#[global] Instance t_countable : Countable t.
Proof.
  apply (inj_countable' (λ x, match x with Tickets => 0 | Flows => 1 | Workers => 2 | Help => 3 end)
    (λ n, match n with 0 => Tickets | 1 => Flows | 2 => Workers | _ => Help end)).
  by intros [].
Defined.
Definition all : list t := [Tickets; Flows; Workers; Help].
Definition next (x : t) : t :=
  match x with Tickets => Flows | Flows => Workers | Workers => Help | Help => Tickets end.
Definition label (x : t) : string :=
  match x with Tickets => "Tickets" | Flows => "Flows" | Workers => "Workers" | Help => "Help" end.
End TabId.

Module PageId.
Inductive t : Type :=
| TicketList
| TicketDetail (ticket_id : string)
| TicketActivities (ticket_id ticket_title : string)
| TicketBody (ticket_id title body : string)
| FlowList
| FlowDetail (ticket_id : string)
| WorkerList
| HelpPage.
#[global] Instance t_eq_dec : EqDecision t.
Proof. solve_decision. Defined.
End PageId.

(** A stack lists its root first; its last page is the one shown. *)
Module NavigationModel.
Record t : Type := mk {
  active_tab : TabId.t;
  tab_stacks : gmap TabId.t (list PageId.t)
}.
Definition initial : t :=
  mk TabId.Tickets (<[TabId.Help := [PageId.HelpPage]]> (<[TabId.Workers := [PageId.WorkerList]]>
    (<[TabId.Flows := [PageId.FlowList]]> (<[TabId.Tickets := [PageId.TicketList]]> ∅)))).
(** [current_page]; [None] is the panic of [expect]. *)
Definition current_page (n : t) : option PageId.t := stack ← tab_stacks n !! active_tab n; last stack.
Definition active_stack_depth (n : t) : nat :=
  match tab_stacks n !! active_tab n with Some s => length s | None => 1 end.
End NavigationModel.

(** ** Keys *)

Module KeyCode.
Inductive t : Type :=
| Char (c : string)
| Enter | Esc | Tab | Backspace | Up | Down | Left | Right | Other.
#[global] Instance t_eq_dec : EqDecision t.
Proof. solve_decision. Defined.
End KeyCode.

(** The modifiers the code looks at; [other] says that any other one is held. *)
Module KeyModifiers.
Record t : Type := mk { shift : bool; control : bool; other : bool }.
Definition NONE : t := mk false false false.
Definition SHIFT : t := mk true false false.
Definition CONTROL : t := mk false true false.
#[global] Instance t_eq_dec : EqDecision t.
Proof. solve_decision. Defined.
End KeyModifiers.

Module KeyEvent.
Record t : Type := mk { code : KeyCode.t; modifiers : KeyModifiers.t }.
End KeyEvent.

(** The components that are pushed onto the input stack. *)
Inductive InputHandler : Type :=
| GlobalHandler
| TicketActivitiesHandler
| MarkdownScrollHandler (handler_name : string).
(** Bottom first, as in the code's vector. *)
Abbreviation InputStack := (list InputHandler).

(** ** Messages *)

Inductive BannerVariant : Type := Success | Error.

Module GotoTarget.
Record t : Type := mk { label : string; screen : string; id : string }.
End GotoTarget.

Inductive CreateAction : Type := Create | Dispatch | Edit | Abandon.
Inductive SettingsDirection : Type := DirUp | DirDown | DirLeft | DirRight.

Module OverlayMsg.
Inductive t : Type :=
| Consumed
| OpenPriorityPicker (ticket_id : string) (current_priority : Z)
| PrioritySelected (ticket_id : string) (priority : Z)
| PriorityPickerNavigate (delta : Z)
| PriorityPickerConfirm
| PriorityPickerQuickSelect (digit : Z)
| PriorityCancelled
| OpenTypeMenu (ticket_id current_type : string)
| TypeSelected (ticket_id ticket_type : string)
| TypeMenuNavigate (delta : Z)
| TypeMenuConfirm
| TypeMenuQuickSelect (index : nat)
| TypeMenuCancelled
| OpenFilterMenu
| FilterMenuNavigate (delta : Z)
| FilterMenuActivate
| FilterMenuQuickToggle (digit : string)
| FilterMenuClosed
| OpenGotoMenu (targets : list GotoTarget.t)
| GotoMenuNavigate (delta : Z)
| GotoMenuConfirm
| GotoMenuQuickSelect (digit : nat)
| GotoSelected (target : GotoTarget.t)
| GotoCancelled
| OpenForceCloseConfirm (ticket_id : string) (open_children : Z)
| ForceCloseConfirmYes
| ForceCloseConfirmed (ticket_id : string)
| ForceCloseCancelled
| OpenCreateActionMenu (pending : PendingTicket.t)
| CreateActionNavigate (delta : Z)
| CreateActionConfirm
| CreateActionQuickSelect (index : nat)
| CreateActionSelected (action : CreateAction)
| OpenProjectInput
| ProjectInputChar (c : string)
| ProjectInputBackspace
| ProjectInputSubmitRequest
| ProjectInputSubmitted (text : string)
| ProjectInputCancelled
| OpenBranchInput (ticket_id current_branch : string)
| BranchInputChar (c : string)
| BranchInputBackspace
| BranchInputSubmitRequest
| BranchInputSubmitted (ticket_id branch : string)
| BranchInputCancelled
| OpenTitleInput
| TitleInputChar (c : string)
| TitleInputBackspace
| TitleInputSubmitRequest
| TitleInputSubmitted (text : string)
| TitleInputCancelled
| OpenHelp
| HelpClosed
| OpenSettings (custom_theme_names : list string)
| SettingsEsc
| SettingsNavigate (direction : SettingsDirection)
| SettingsActivate
| ThemeSelected (name : string)
| SettingsClosed.
End OverlayMsg.

Module NavMsg.
Inductive t : Type :=
| TabSwitch (tab : TabId.t)
| TabNext
| Push (page : PageId.t)
| Pop
| Goto (page : PageId.t)
| TicketTableNavigate (delta : Z)
| TicketTablePageRight
| TicketTablePageLeft
| TicketTableSelect
| TicketListRefresh
| TicketListPriority
| TicketListType
| TicketListClose
| TicketListOpen
| TicketListDispatch
| TicketListGoto
| TicketListCreate
| TicketListEdit
| TicketDetailNavigate (delta : Z)
| TicketDetailPageRight
| TicketDetailPageLeft
| TicketDetailSelect
| TicketDetailRefresh
| TicketDetailPriority
| TicketDetailType
| TicketDetailClose
| TicketDetailOpen
| TicketDetailDispatch
| TicketDetailDispatchAll
| TicketDetailRedrive
| TicketDetailGoto
| TicketDetailToggleClosed
| TicketDetailOpenDescription
| TicketDetailOpenActivities
| TicketDetailCreateChild
| TicketDetailEdit
| TicketDetailBranch
| ActivitiesNavigate (delta : Z)
| ActivitiesPageRight
| ActivitiesPageLeft
| ActivitiesCycleFilter
| ActivitiesRefresh
| FlowsNavigate (delta : Z)
| FlowsPageRight
| FlowsPageLeft
| FlowsSelect
| FlowsRefresh
| FlowsCancel
| FlowsApprove
| FlowsStall
| FlowsRedrive
| FlowsGoto
| FlowDetailCancel
| FlowDetailApprove
| FlowDetailStall
| FlowDetailRedrive
| FlowDetailGoto
| WorkersNavigate (delta : Z)
| WorkersPageRight
| WorkersPageLeft
| WorkersRefresh
| WorkersKill
| WorkersGoto
| BodyScrollDown
| BodyScrollUp
| BodyPageDown
| BodyPageUp.
End NavMsg.

Module UiEventItem.
Record t : Type := mk { entity_type : string; entity_id : string }.
End UiEventItem.

Module DataMsg.
Inductive t : Type :=
| TicketsLoaded (result : result (list PTicket.t * Z) string)
| DetailLoaded (result : result (DetailResponse.t * list PTicket.t * Z) string)
| FlowsLoaded (result : result (list WorkflowInfo.t * Z) string)
| WorkersLoaded (result : result (list PWorker.t) string)
| ActivitiesLoaded (ticket_id : string) (result : result (list ActivityEntry.t) string)
| WorkerStopped (worker_id : string) (result : result unit string)
| NotificationFlowLoaded (result : result WorkflowInfo.t string)
| FlowDetailLoaded (result : result WorkflowInfo.t string).
End DataMsg.

Module TicketOpMsg.
Inductive t : Type :=
| Dispatch (ticket_id project_key image_id : string)
| DispatchAll (ticket_id project_key image_id : string)
| Close (ticket_id : string)
| ForceClose (ticket_id : string)
| SetPriority (ticket_id : string) (priority : Z)
| SetType (ticket_id ticket_type : string)
| Create (pending : PendingTicket.t)
| CreateAndDispatch (pending : PendingTicket.t) (project_key image_id : string)
| LaunchDesign (ticket_id project_key image_id : string)
| Redrive (ticket_id : string)
| Open (ticket_id : string)
| SetBranch (ticket_id branch : string)
| UpdateFields (ticket_id project title ticket_type : string) (priority : Z) (body : string)
    (branch : option string) (meta_set : list (string * string)) (meta_delete : list string).
End TicketOpMsg.

Module TicketOpResultMsg.
Inductive t : Type :=
| Dispatched (result : result string string)
| Closed (result : result string string)
| ForceClosed (result : result string string)
| PrioritySet (result : result string string)
| TypeSet (result : result string string)
| Created (result : result string string) (pending : option PendingTicket.t)
| DesignLaunched (result : result string string)
| Redriven (result : result string string)
| Opened (result : result string string)
| BranchSet (result : result string string)
| Updated (result : result string string).
End TicketOpResultMsg.

Module FlowOpMsg.
Inductive t : Type :=
| Cancel (ticket_id : string)
| Approve (ticket_id : string)
| Stall (ticket_id : string).
End FlowOpMsg.

Module FlowOpResultMsg.
Inductive t : Type :=
| Cancelled (result : result string string)
| Approved (result : result string string)
| Stalled (result : result string string).
End FlowOpResultMsg.

Module WorkerOpMsg.
Inductive t : Type := Kill (worker_id : string).
End WorkerOpMsg.

Module WorkerOpResultMsg.
Inductive t : Type := Killed (result : result string string).
End WorkerOpResultMsg.

Module Msg.
Inductive t : Type :=
| KeyPressed (key : KeyEvent.t)
| Tick
| Quit
| Data (data_msg : DataMsg.t)
| Nav (nav_msg : NavMsg.t)
| UiEvent (items : list UiEventItem.t)
| BannerShow (message : string) (variant : BannerVariant)
| BannerDismiss
| StatusShow (text : string)
| StatusClear
| Overlay (overlay_msg : OverlayMsg.t)
| TicketOp (op_msg : TicketOpMsg.t)
| TicketOpResult (result_msg : TicketOpResultMsg.t)
| FlowOp (op_msg : FlowOpMsg.t)
| FlowOpResult (result_msg : FlowOpResultMsg.t)
| WorkerOp (op_msg : WorkerOpMsg.t)
| WorkerOpResult (result_msg : WorkerOpResultMsg.t).
End Msg.

(** ** Commands *)

Module FetchCmd.
Inductive t : Type :=
| Tickets (page_size offset : option Z) (include_children : option bool) (statuses : list string)
| TicketDetail (ticket_id : string) (child_page_size child_offset : option Z)
    (child_status_filter : option string)
| Flows (page_size offset : option Z)
| Workers
| Activities (ticket_id : string) (author_filter : option string)
| WorkflowForNotification (ticket_id : string)
| FlowDetail (ticket_id : string).
End FetchCmd.

Module DesktopNotification.
Record t : Type := mk {
  ticket_id : string;
  title : string;
  message : string;
  open_url : option string
}.
End DesktopNotification.

Module Cmd.
Inductive t : Type :=
| None_
| Batch (cmds : list t)
| Quit
| Fetch (fetch : FetchCmd.t)
| SubscribeUiEvents
| StopWorker (worker_id : string)
| TicketOp (op : TicketOpMsg.t)
| FlowOp (op : FlowOpMsg.t)
| WorkerOp (op : WorkerOpMsg.t)
| FireDesktopNotification (notification : DesktopNotification.t)
| PersistTheme (theme_name : string)
| SpawnEditor (parent_id project content : option string)
| EditTicket (ticket_id : string).

Definition is_none (c : t) : bool := match c with None_ => true | _ => false end.
(** [Cmd::batch] *)
Definition batch (cmds : list t) : t :=
  match filter (λ c, is_none c = false) cmds with
  | [] => None_
  | [c] => c
  | filtered => Batch filtered
  end.
End Cmd.
