(* ===== verification/UiState.v ===== *)
(** * The terminal interface: its state

    The sub-models of [urui/src/model.rs] and their operations, the tracking of
    [notifications.rs], and the application model. *)

From S2P Require Import Prelude RustStd TextLemmas Model TicketService UiModel.
Local Open Scope stdpp_scope.

(** Iteration over a hash set is in no particular order, and the names of the themes
    are generated when the program is built. *)
Class UiEnv : Type := {
  iter_tabs : gset TabId.t → list TabId.t;
  iter_ids : gset string → list string;
  builtin_theme_names : list string
}.
Class LawfulUiEnv `{UiEnv} : Prop := {
  iter_tabs_perm s : iter_tabs s ≡ₚ elements s;
  iter_ids_perm s : iter_ids s ≡ₚ elements s
}.

(** ** Tables *)

Definition TICKET_TABLE_DEFAULT_PAGE_SIZE : nat := 20.
Definition FLOW_PAGE_SIZE : nat := 20.
Definition WORKER_PAGE_SIZE : nat := 20.

(** [n.div_ceil(d)] *)
Definition div_ceil (n d : nat) : nat := if n mod d =? 0 then n / d else S (n / d).
(** [z as usize] of an [i32]: a negative number becomes a huge one. *)
Definition as_usize (z : Z) : nat := Z.to_nat (z mod 18446744073709551616)%Z.

Module TicketTableModel.
Record t : Type := mk {
  tickets : list PTicket.t;
  total_count : Z;
  selected_row : nat;
  current_page : nat;
  page_size : nat
}.
Definition empty : t := mk [] 0 0 0 TICKET_TABLE_DEFAULT_PAGE_SIZE.
Definition with_row (r : nat) (m : t) : t :=
  mk (tickets m) (total_count m) r (current_page m) (page_size m).
Definition with_page (p r : nat) (m : t) : t := mk (tickets m) (total_count m) r p (page_size m).

Definition total_pages (m : t) : nat :=
  let count := as_usize (total_count m) in
  if (count =? 0) || (page_size m =? 0) then 1 else div_ceil count (page_size m).
Definition navigate_up (m : t) : t :=
  if 0 <? selected_row m then with_row (selected_row m - 1) m else m.
Definition navigate_down (m : t) : t :=
  let count := length (tickets m) in
  if (0 <? count) && (selected_row m <? count - 1) then with_row (S (selected_row m)) m else m.
(** Whether the page changed, with the table. *)
Definition page_left (m : t) : bool * t :=
  if 0 <? current_page m then (true, with_page (current_page m - 1) 0 m) else (false, m).
Definition page_right (m : t) : bool * t :=
  if current_page m + 1 <? total_pages m then (true, with_page (current_page m + 1) 0 m) else (false, m).
(** Three lines of a table are its frame and its header. *)
Definition update_page_size (area_height : nat) (m : t) : bool * t :=
  let available := area_height - 3 in
  if (0 <? available) && negb (available =? page_size m)
  then (true, mk (tickets m) (total_count m) 0 0 available) else (false, m).
Definition selected_ticket (m : t) : option PTicket.t := tickets m !! selected_row m.
Definition page_info (m : t) : string :=
  "Page " +:+ pretty (current_page m + 1) +:+ "/" +:+ pretty (total_pages m)
  +:+ " (" +:+ pretty (total_count m) +:+ " total)".
End TicketTableModel.

(** ** Scrolling *)

(** The two cells hold what the last rendering found. *)
Module ScrollableMarkdownModel.
Record t : Type := mk {
  scroll_offset : nat;
  last_body_height : nat;
  last_total_lines : nat
}.
Definition default : t := mk 0 0 0.
Definition with_offset (o : nat) (m : t) : t := mk o (last_body_height m) (last_total_lines m).
Definition scroll_down (delta : nat) (m : t) : t :=
  let height := Nat.max (last_body_height m) 1 in
  let max_offset := last_total_lines m - height in
  with_offset (Nat.min (scroll_offset m + delta) max_offset) m.
Definition scroll_up (delta : nat) (m : t) : t := with_offset (scroll_offset m - delta) m.
Definition page_down (m : t) : t :=
  let page := Nat.max (last_body_height m) 1 in
  let max_offset := last_total_lines m - page in
  with_offset (Nat.min (scroll_offset m + page) max_offset) m.
Definition page_up (m : t) : t :=
  let page := Nat.max (last_body_height m) 1 in
  with_offset (scroll_offset m - page) m.
(** [render_scrollable_markdown]: what a rendering of [total] lines into [height] rows
    leaves in the cells, and the first line it shows. *)
Definition rendered (total height : nat) (m : t) : t := mk (scroll_offset m) (Nat.max height 1) total.
Definition shown_from (total height : nat) (m : t) : nat := Nat.min (scroll_offset m) (total - height).
End ScrollableMarkdownModel.

(** ** The pages' models *)

Module TicketListData.
Record t : Type := mk { tickets : list PTicket.t; total_count : Z }.
End TicketListData.
Module TicketDetailData.
Record t : Type := mk { detail : DetailResponse.t; children : list PTicket.t; total_children : Z }.
End TicketDetailData.
Module FlowListData.
Record t : Type := mk { workflows : list WorkflowInfo.t; total_count : Z }.
End FlowListData.

Module TicketListModel.
Record t : Type := mk { data : LoadState TicketListData.t; table : TicketTableModel.t }.
End TicketListModel.

Module TicketDetailModel.
Record t : Type := mk {
  ticket_id : string;
  data : LoadState TicketDetailData.t;
  activities : LoadState (list ActivityEntry.t);
  children_table : TicketTableModel.t;
  show_closed : bool
}.
Definition with_data (x : LoadState TicketDetailData.t) (m : t) : t :=
  mk (ticket_id m) x (activities m) (children_table m) (show_closed m).
Definition with_activities (x : LoadState (list ActivityEntry.t)) (m : t) : t :=
  mk (ticket_id m) (data m) x (children_table m) (show_closed m).
Definition with_table (x : TicketTableModel.t) (m : t) : t :=
  mk (ticket_id m) (data m) (activities m) x (show_closed m).
(** The parent ticket, once it is loaded. *)
Definition parent (m : t) : option PTicket.t :=
  d ← load_data (data m); DetailResponse.ticket (TicketDetailData.detail d).
End TicketDetailModel.

Module TicketActivitiesModel.
Record t : Type := mk {
  ticket_id : string;
  ticket_title : string;
  data : LoadState (list ActivityEntry.t);
  selected_row : nat;
  current_page : nat;
  page_size : nat;
  authors : list string;
  author_index : nat
}.
Definition with_row (r : nat) (m : t) : t :=
  mk (ticket_id m) (ticket_title m) (data m) r (current_page m) (page_size m) (authors m) (author_index m).
Definition with_page (p : nat) (m : t) : t :=
  mk (ticket_id m) (ticket_title m) (data m) 0 p (page_size m) (authors m) (author_index m).
Definition with_data (x : LoadState (list ActivityEntry.t)) (m : t) : t :=
  mk (ticket_id m) (ticket_title m) x (selected_row m) (current_page m) (page_size m) (authors m) (author_index m).
Definition with_authors (x : list string) (m : t) : t :=
  mk (ticket_id m) (ticket_title m) (data m) (selected_row m) (current_page m) (page_size m) x (author_index m).
Definition with_author (i : nat) (m : t) : t :=
  mk (ticket_id m) (ticket_title m) (data m) (selected_row m) (current_page m) (page_size m) (authors m) i.
(** How many activities are loaded. *)
Definition count (m : t) : nat := match load_data (data m) with Some l => length l | None => 0 end.
End TicketActivitiesModel.

Module TicketBodyModel.
Record t : Type := mk {
  ticket_id : string;
  title : string;
  body : string;
  scroll : ScrollableMarkdownModel.t
}.
End TicketBodyModel.

Module FlowListModel.
Record t : Type := mk { data : LoadState FlowListData.t; selected_row : nat; current_page : nat }.
End FlowListModel.
Module FlowDetailModel.
Record t : Type := mk { ticket_id : string; workflow : WorkflowInfo.t }.
End FlowDetailModel.
Module WorkerListModel.
Record t : Type := mk { data : LoadState (list PWorker.t); selected_row : nat; current_page : nat }.
End WorkerListModel.

(** ** The throttle of the server's events *)

Definition THROTTLE_COOLDOWN : Z := 200.

Module UiEventThrottle.
Record t : Type := mk {
  dirty : gset TabId.t;
  pending_workflow_ids : gset string;
  cooldown_start : option Z
}.
Definition new : t := mk ∅ ∅ None.
Definition mark_dirty (tabs : list TabId.t) (th : t) : t :=
  mk (dirty th ∪ list_to_set tabs) (pending_workflow_ids th) (cooldown_start th).
Definition mark_workflow_ids (ids : list string) (th : t) : t :=
  mk (dirty th) (pending_workflow_ids th ∪ list_to_set ids) (cooldown_start th).
Definition should_flush (now : Z) (th : t) : bool :=
  if bool_decide (dirty th = ∅) then false
  else match cooldown_start th with
       | None => true
       | Some start => (THROTTLE_COOLDOWN <=? Z.max 0 (now - start))%Z
       end.
(** The dirty tabs, the workflow identifiers, and the throttle that is left. *)
Definition flush (now : Z) (th : t) : gset TabId.t * gset string * t :=
  (dirty th, pending_workflow_ids th,
   mk ∅ ∅ (if bool_decide (dirty th = ∅) then cooldown_start th else Some now)).
End UiEventThrottle.

(** ** Banner *)

Definition BANNER_AUTO_DISMISS_SECS : Z := 5.

Module BannerModel.
Record t : Type := mk { message : string; variant : BannerVariant; created_at : Z }.
Definition is_expired (now : Z) (b : t) : bool :=
  match variant b with
  | Success => (BANNER_AUTO_DISMISS_SECS <=? Z.max 0 (now - created_at b) / 1000)%Z
  | Error => false
  end.
End BannerModel.

(** ** Overlays *)

Inductive FilterCategory : Type := FilterStatus | FilterPriority | FilterProject | ShowChildren.
#[export] Instance FilterCategory_eq_dec : EqDecision FilterCategory.
Proof. solve_decision. Defined.
Inductive SettingsLevel : Type := TopLevel | ThemePicker.

Module ActiveOverlay.
Inductive t : Type :=
| PriorityPicker (ticket_id : string) (cursor : nat)
| TypeMenu (ticket_id : string) (cursor : nat)
| FilterMenu (cursor : nat) (expanded : option FilterCategory) (sub_cursor : nat)
| GotoMenu (targets : list GotoTarget.t) (cursor : nat)
| ForceCloseConfirm (ticket_id : string) (open_children : Z)
| CreateActionMenu (pending : PendingTicket.t) (cursor : nat)
| ProjectInput (buffer : string)
| TitleInput (buffer : string)
| BranchInput (buffer ticket_id : string)
| Settings (level : SettingsLevel) (top_cursor active_column : nat) (column_cursors : list nat)
    (light_themes dark_themes custom_themes : list string)
| Help.
End ActiveOverlay.

Module TicketFilters.
Record t : Type := mk {
  statuses : list string;
  priorities : list Z;
  projects : list string;
  show_children : bool
}.
Definition default : t := mk ["open"; "in_progress"] [] [] false.
End TicketFilters.

(** ** Notifications *)

Module NotificationConfig.
Record t : Type := mk { flow_stalled : bool; flow_in_review : bool }.
Definition default : t := mk true true.
End NotificationConfig.

Module TrackedFlowState.
Record t : Type := mk { stalled : bool; status : string; pr_url : string; stall_reason : string }.
Definition from_workflow (flow : WorkflowInfo.t) : t :=
  mk (WorkflowInfo.stalled flow) (WorkflowInfo.status flow) (WorkflowInfo.pr_url flow)
    (WorkflowInfo.stall_reason flow).
End TrackedFlowState.

Module NotificationModel.
Record t : Type := mk {
  config : NotificationConfig.t;
  desktop_available : bool;
  previous_states : gmap string TrackedFlowState.t
}.
(** [new], with the answer of [check_terminal_notifier_available]. *)
Definition new (config : NotificationConfig.t) (available : bool) : t := mk config available ∅.
Definition track (ticket_id : string) (st : TrackedFlowState.t) (n : t) : t :=
  mk (config n) (desktop_available n) (<[ticket_id := st]> (previous_states n)).
Definition seed_flows (flows : list WorkflowInfo.t) (n : t) : t :=
  foldl (λ n flow, track (WorkflowInfo.ticket_id flow) (TrackedFlowState.from_workflow flow) n) n flows.

Definition stalled_now (n : t) (prev new : TrackedFlowState.t) : bool :=
  NotificationConfig.flow_stalled (config n) && negb (TrackedFlowState.stalled prev) && TrackedFlowState.stalled new.
Definition in_review_now (n : t) (prev new : TrackedFlowState.t) : bool :=
  NotificationConfig.flow_in_review (config n)
  && negb (String.eqb (TrackedFlowState.status prev) "in_review") && String.eqb (TrackedFlowState.status new) "in_review".
(** [detect_transitions] *)
Definition detect_transitions (ticket_id : string) (prev new : TrackedFlowState.t) (n : t)
    : list Msg.t * list Cmd.t :=
  let desktop title message open_url :=
    if desktop_available n
    then [Cmd.FireDesktopNotification (DesktopNotification.mk ticket_id title message open_url)] else [] in
  let stall :=
    if stalled_now n prev new then
      let message :=
        if String.eqb (TrackedFlowState.stall_reason new) "" then ticket_id +:+ ": Workflow stalled"
        else ticket_id +:+ ": " +:+ TrackedFlowState.stall_reason new in
      ([Msg.BannerShow message Error], desktop "Flow Stalled" message None)
    else ([], []) in
  let review :=
    if in_review_now n prev new then
      let banner_msg := ticket_id +:+ " is ready for review" in
      let open_url := if String.eqb (TrackedFlowState.pr_url new) "" then None
                      else Some (TrackedFlowState.pr_url new) in
      ([Msg.BannerShow banner_msg Success], desktop "PR Ready for Review" banner_msg open_url)
    else ([], []) in
  (stall.1 ++ review.1, stall.2 ++ review.2).

(** [process_flow_updates], one workflow and a batch. *)
Definition process_flow (flow : WorkflowInfo.t) (n : t) : list Msg.t * list Cmd.t * t :=
  let new_state := TrackedFlowState.from_workflow flow in
  let ticket_id := WorkflowInfo.ticket_id flow in
  let out := match previous_states n !! ticket_id with
             | Some prev => detect_transitions ticket_id prev new_state n
             | None => ([], [])
             end in
  (out.1, out.2, track ticket_id new_state n).
Fixpoint process_flow_updates (flows : list WorkflowInfo.t) (n : t) : list Msg.t * list Cmd.t * t :=
  match flows with
  | [] => ([], [], n)
  | flow :: flows =>
      let '(msgs, cmds, n) := process_flow flow n in
      let '(msgs', cmds', n) := process_flow_updates flows n in
      (msgs ++ msgs', cmds ++ cmds', n)
  end.
End NotificationModel.

(** ** The application model *)

Record Model : Type := mkModel {
  should_quit : bool;
  navigation_model : NavigationModel.t;
  input_stack : InputStack;
  ticket_list : TicketListModel.t;
  ticket_detail : option TicketDetailModel.t;
  flow_list : FlowListModel.t;
  flow_detail : option FlowDetailModel.t;
  worker_list : WorkerListModel.t;
  ui_event_throttle : UiEventThrottle.t;
  banner : option BannerModel.t;
  status : option string;
  active_overlay : option ActiveOverlay.t;
  ticket_filters : TicketFilters.t;
  ticket_activities : option TicketActivitiesModel.t;
  ticket_body : option TicketBodyModel.t;
  help_page : ScrollableMarkdownModel.t;
  notifications : NotificationModel.t;
  pending_theme_swap : option string;
  custom_theme_names : list string;
  project_filter : option string;
  local_projects : gset string
}.

(** Assignments to a field. *)
Definition set_should_quit (x : bool) (m : Model) : Model :=
  mkModel x (navigation_model m) (input_stack m) (ticket_list m) (ticket_detail m) (flow_list m)
    (flow_detail m) (worker_list m) (ui_event_throttle m) (banner m) (status m) (active_overlay m)
    (ticket_filters m) (ticket_activities m) (ticket_body m) (help_page m) (notifications m)
    (pending_theme_swap m) (custom_theme_names m) (project_filter m) (local_projects m).
Definition set_navigation_model (x : NavigationModel.t) (m : Model) : Model :=
  mkModel (should_quit m) x (input_stack m) (ticket_list m) (ticket_detail m) (flow_list m) (flow_detail m)
    (worker_list m) (ui_event_throttle m) (banner m) (status m) (active_overlay m) (ticket_filters m)
    (ticket_activities m) (ticket_body m) (help_page m) (notifications m) (pending_theme_swap m)
    (custom_theme_names m) (project_filter m) (local_projects m).
Definition set_input_stack (x : InputStack) (m : Model) : Model :=
  mkModel (should_quit m) (navigation_model m) x (ticket_list m) (ticket_detail m) (flow_list m)
    (flow_detail m) (worker_list m) (ui_event_throttle m) (banner m) (status m) (active_overlay m)
    (ticket_filters m) (ticket_activities m) (ticket_body m) (help_page m) (notifications m)
    (pending_theme_swap m) (custom_theme_names m) (project_filter m) (local_projects m).
Definition set_ticket_list (x : TicketListModel.t) (m : Model) : Model :=
  mkModel (should_quit m) (navigation_model m) (input_stack m) x (ticket_detail m) (flow_list m)
    (flow_detail m) (worker_list m) (ui_event_throttle m) (banner m) (status m) (active_overlay m)
    (ticket_filters m) (ticket_activities m) (ticket_body m) (help_page m) (notifications m)
    (pending_theme_swap m) (custom_theme_names m) (project_filter m) (local_projects m).
Definition set_ticket_detail (x : option TicketDetailModel.t) (m : Model) : Model :=
  mkModel (should_quit m) (navigation_model m) (input_stack m) (ticket_list m) x (flow_list m) (flow_detail
    m) (worker_list m) (ui_event_throttle m) (banner m) (status m) (active_overlay m) (ticket_filters m)
    (ticket_activities m) (ticket_body m) (help_page m) (notifications m) (pending_theme_swap m)
    (custom_theme_names m) (project_filter m) (local_projects m).
Definition set_flow_list (x : FlowListModel.t) (m : Model) : Model :=
  mkModel (should_quit m) (navigation_model m) (input_stack m) (ticket_list m) (ticket_detail m) x
    (flow_detail m) (worker_list m) (ui_event_throttle m) (banner m) (status m) (active_overlay m)
    (ticket_filters m) (ticket_activities m) (ticket_body m) (help_page m) (notifications m)
    (pending_theme_swap m) (custom_theme_names m) (project_filter m) (local_projects m).
Definition set_flow_detail (x : option FlowDetailModel.t) (m : Model) : Model :=
  mkModel (should_quit m) (navigation_model m) (input_stack m) (ticket_list m) (ticket_detail m) (flow_list
    m) x (worker_list m) (ui_event_throttle m) (banner m) (status m) (active_overlay m) (ticket_filters m)
    (ticket_activities m) (ticket_body m) (help_page m) (notifications m) (pending_theme_swap m)
    (custom_theme_names m) (project_filter m) (local_projects m).
Definition set_worker_list (x : WorkerListModel.t) (m : Model) : Model :=
  mkModel (should_quit m) (navigation_model m) (input_stack m) (ticket_list m) (ticket_detail m) (flow_list
    m) (flow_detail m) x (ui_event_throttle m) (banner m) (status m) (active_overlay m) (ticket_filters m)
    (ticket_activities m) (ticket_body m) (help_page m) (notifications m) (pending_theme_swap m)
    (custom_theme_names m) (project_filter m) (local_projects m).
Definition set_ui_event_throttle (x : UiEventThrottle.t) (m : Model) : Model :=
  mkModel (should_quit m) (navigation_model m) (input_stack m) (ticket_list m) (ticket_detail m) (flow_list
    m) (flow_detail m) (worker_list m) x (banner m) (status m) (active_overlay m) (ticket_filters m)
    (ticket_activities m) (ticket_body m) (help_page m) (notifications m) (pending_theme_swap m)
    (custom_theme_names m) (project_filter m) (local_projects m).
Definition set_banner (x : option BannerModel.t) (m : Model) : Model :=
  mkModel (should_quit m) (navigation_model m) (input_stack m) (ticket_list m) (ticket_detail m) (flow_list
    m) (flow_detail m) (worker_list m) (ui_event_throttle m) x (status m) (active_overlay m) (ticket_filters
    m) (ticket_activities m) (ticket_body m) (help_page m) (notifications m) (pending_theme_swap m)
    (custom_theme_names m) (project_filter m) (local_projects m).
Definition set_status (x : option string) (m : Model) : Model :=
  mkModel (should_quit m) (navigation_model m) (input_stack m) (ticket_list m) (ticket_detail m) (flow_list
    m) (flow_detail m) (worker_list m) (ui_event_throttle m) (banner m) x (active_overlay m) (ticket_filters
    m) (ticket_activities m) (ticket_body m) (help_page m) (notifications m) (pending_theme_swap m)
    (custom_theme_names m) (project_filter m) (local_projects m).
Definition set_active_overlay (x : option ActiveOverlay.t) (m : Model) : Model :=
  mkModel (should_quit m) (navigation_model m) (input_stack m) (ticket_list m) (ticket_detail m) (flow_list
    m) (flow_detail m) (worker_list m) (ui_event_throttle m) (banner m) (status m) x (ticket_filters m)
    (ticket_activities m) (ticket_body m) (help_page m) (notifications m) (pending_theme_swap m)
    (custom_theme_names m) (project_filter m) (local_projects m).
Definition set_ticket_filters (x : TicketFilters.t) (m : Model) : Model :=
  mkModel (should_quit m) (navigation_model m) (input_stack m) (ticket_list m) (ticket_detail m) (flow_list
    m) (flow_detail m) (worker_list m) (ui_event_throttle m) (banner m) (status m) (active_overlay m) x
    (ticket_activities m) (ticket_body m) (help_page m) (notifications m) (pending_theme_swap m)
    (custom_theme_names m) (project_filter m) (local_projects m).
Definition set_ticket_activities (x : option TicketActivitiesModel.t) (m : Model) : Model :=
  mkModel (should_quit m) (navigation_model m) (input_stack m) (ticket_list m) (ticket_detail m) (flow_list
    m) (flow_detail m) (worker_list m) (ui_event_throttle m) (banner m) (status m) (active_overlay m)
    (ticket_filters m) x (ticket_body m) (help_page m) (notifications m) (pending_theme_swap m)
    (custom_theme_names m) (project_filter m) (local_projects m).
Definition set_ticket_body (x : option TicketBodyModel.t) (m : Model) : Model :=
  mkModel (should_quit m) (navigation_model m) (input_stack m) (ticket_list m) (ticket_detail m) (flow_list
    m) (flow_detail m) (worker_list m) (ui_event_throttle m) (banner m) (status m) (active_overlay m)
    (ticket_filters m) (ticket_activities m) x (help_page m) (notifications m) (pending_theme_swap m)
    (custom_theme_names m) (project_filter m) (local_projects m).
Definition set_help_page (x : ScrollableMarkdownModel.t) (m : Model) : Model :=
  mkModel (should_quit m) (navigation_model m) (input_stack m) (ticket_list m) (ticket_detail m) (flow_list
    m) (flow_detail m) (worker_list m) (ui_event_throttle m) (banner m) (status m) (active_overlay m)
    (ticket_filters m) (ticket_activities m) (ticket_body m) x (notifications m) (pending_theme_swap m)
    (custom_theme_names m) (project_filter m) (local_projects m).
Definition set_notifications (x : NotificationModel.t) (m : Model) : Model :=
  mkModel (should_quit m) (navigation_model m) (input_stack m) (ticket_list m) (ticket_detail m) (flow_list
    m) (flow_detail m) (worker_list m) (ui_event_throttle m) (banner m) (status m) (active_overlay m)
    (ticket_filters m) (ticket_activities m) (ticket_body m) (help_page m) x (pending_theme_swap m)
    (custom_theme_names m) (project_filter m) (local_projects m).
Definition set_pending_theme_swap (x : option string) (m : Model) : Model :=
  mkModel (should_quit m) (navigation_model m) (input_stack m) (ticket_list m) (ticket_detail m) (flow_list
    m) (flow_detail m) (worker_list m) (ui_event_throttle m) (banner m) (status m) (active_overlay m)
    (ticket_filters m) (ticket_activities m) (ticket_body m) (help_page m) (notifications m) x
    (custom_theme_names m) (project_filter m) (local_projects m).

(** [Model::initial]: whether a notifier is installed is asked of the machine. *)
Definition initial (notifier_available : bool) : Model :=
  mkModel false NavigationModel.initial [GlobalHandler]
    (TicketListModel.mk NotLoaded TicketTableModel.empty) None
    (FlowListModel.mk NotLoaded 0 0) None (WorkerListModel.mk NotLoaded 0 0)
    UiEventThrottle.new None None None TicketFilters.default None None
    ScrollableMarkdownModel.default
    (NotificationModel.new NotificationConfig.default notifier_available) None [] None ∅.

(** [project_is_local], [dispatch_is_blocked_by_locality] *)
Definition project_is_local (project_key : string) (m : Model) : bool :=
  bool_decide (project_key ∈ local_projects m).
Definition dispatch_is_blocked_by_locality (project_key : string) (m : Model) : bool :=
  negb (String.eqb project_key "") && project_is_local project_key m.
Definition open_overlay (state : ActiveOverlay.t) (m : Model) : Model := set_active_overlay (Some state) m.
Definition close_overlay (m : Model) : Model := set_active_overlay None m.
