(* ===== verification/UiKeys.v ===== *)
(** * The terminal interface: keys

    What each component makes of a key: the handlers of [urui/src/input.rs], of
    [urui/src/pages] and of [urui/src/components], and the dispatch of a key to an
    overlay, a banner and the input stack. *)

From S2P Require Import Prelude RustStd UiModel UiState.
From Stdlib Require Import Ascii.
Local Open Scope stdpp_scope.

Import KeyCode.

(** ** Keys and characters *)

Definition plain (key : KeyEvent.t) : bool := bool_decide (KeyEvent.modifiers key = KeyModifiers.NONE).
Definition shifted (key : KeyEvent.t) : bool := KeyModifiers.shift (KeyEvent.modifiers key).
Definition controlled (key : KeyEvent.t) : bool := KeyModifiers.control (KeyEvent.modifiers key).

(** [c as u8]: the low byte of the code point, from the last two bytes of the
    encoding. *)
Fixpoint char_as_u8_go (prev : Z) (c : string) : Z :=
  match c with
  | EmptyString => prev
  | String a c =>
      let b := Z.of_nat (nat_of_ascii a) in
      char_as_u8_go (if (b <? 128)%Z then b
                     else Z.lor (Z.shiftl (Z.land prev 3) 6) (Z.land b 63)) c
  end.
Definition char_as_u8 (c : string) : Z := char_as_u8_go 0 c.
(** [(c as u8 - b'0') as usize], which wraps. *)
Definition minus_zero (c : string) : nat := Z.to_nat ((char_as_u8 c - 48) mod 256)%Z.
(** [('a'..='b').contains(&c)] on ASCII bounds, [c.is_ascii_digit()] *)
Definition char_between (a b : ascii) (c : string) : bool :=
  match c with
  | String x EmptyString => (nat_of_ascii a <=? nat_of_ascii x) && (nat_of_ascii x <=? nat_of_ascii b)
  | _ => false
  end.
Definition char_is_ascii_digit (c : string) : bool := char_between "0" "9" c.

(** ** The handlers of the input stack *)

(** [MarkdownScrollHandler::handle_key]; [None] bubbles. *)
Definition markdown_scroll_key (key : KeyEvent.t) : option Msg.t :=
  if bool_decide (KeyEvent.modifiers key = KeyModifiers.CONTROL) then
    match KeyEvent.code key with
    | Char "f" => Some (Msg.Nav NavMsg.BodyPageDown)
    | Char "b" => Some (Msg.Nav NavMsg.BodyPageUp)
    | _ => None
    end
  else if plain key then
    match KeyEvent.code key with
    | Char "j" | Down => Some (Msg.Nav NavMsg.BodyScrollDown)
    | Char "k" | Up => Some (Msg.Nav NavMsg.BodyScrollUp)
    | Char "l" | Right => Some (Msg.Nav NavMsg.BodyPageDown)
    | Char "h" | Left => Some (Msg.Nav NavMsg.BodyPageUp)
    | _ => None
    end
  else None.

(** [TicketActivitiesHandler::handle_key] *)
Definition activities_key (key : KeyEvent.t) : option Msg.t :=
  if plain key then
    match KeyEvent.code key with
    | Char "j" | Down => Some (Msg.Nav (NavMsg.ActivitiesNavigate 1))
    | Char "k" | Up => Some (Msg.Nav (NavMsg.ActivitiesNavigate (-1)))
    | Char "l" | Right => Some (Msg.Nav NavMsg.ActivitiesPageRight)
    | Char "h" | Left => Some (Msg.Nav NavMsg.ActivitiesPageLeft)
    | Char "f" => Some (Msg.Nav NavMsg.ActivitiesCycleFilter)
    | Char "r" => Some (Msg.Nav NavMsg.ActivitiesRefresh)
    | _ => None
    end
  else None.

(** [GlobalHandler::handle_key] *)
Definition global_key (key : KeyEvent.t) : option Msg.t :=
  let code := KeyEvent.code key in
  if controlled key && bool_decide (code = Char "c") then Some Msg.Quit
  else if shifted key && bool_decide (code = Char "Q") then Some Msg.Quit
  else if plain key then
    match code with
    | Tab => Some (Msg.Nav NavMsg.TabNext)
    | Esc | Char "q" => Some (Msg.Nav NavMsg.Pop)
    | Char "t" => Some (Msg.Nav (NavMsg.TabSwitch TabId.Tickets))
    | Char "f" => Some (Msg.Nav (NavMsg.TabSwitch TabId.Flows))
    | Char "w" => Some (Msg.Nav (NavMsg.TabSwitch TabId.Workers))
    | Char "~" => Some (Msg.Nav (NavMsg.TabSwitch TabId.Help))
    | Char "," => Some (Msg.Overlay (OverlayMsg.OpenSettings []))
    | Char "?" => Some (Msg.Overlay OverlayMsg.OpenHelp)
    | _ => None
    end
  else None.

Definition handler_key (h : InputHandler) (key : KeyEvent.t) : option Msg.t :=
  match h with
  | GlobalHandler => global_key key
  | TicketActivitiesHandler => activities_key key
  | MarkdownScrollHandler _ => markdown_scroll_key key
  end.

(** [InputStack::dispatch]: from the top. *)
Fixpoint first_capture (hs : list InputHandler) (key : KeyEvent.t) : option Msg.t :=
  match hs with
  | [] => None
  | h :: hs => match handler_key h key with Some msg => Some msg | None => first_capture hs key end
  end.
Definition stack_dispatch (stack : InputStack) (key : KeyEvent.t) : option Msg.t :=
  first_capture (rev stack) key.
(** [InputStack::push] and [pop] *)
Definition stack_push (h : InputHandler) (stack : InputStack) : InputStack := stack ++ [h].
Definition stack_pop (stack : InputStack) : InputStack := removelast stack.

(** ** The handlers of the root pages *)

Module TicketListHandler.
Definition handle_table_key (code : KeyCode.t) : option Msg.t :=
  match code with
  | Char "k" | Up => Some (Msg.Nav (NavMsg.TicketTableNavigate (-1)))
  | Char "j" | Down => Some (Msg.Nav (NavMsg.TicketTableNavigate 1))
  | Char "h" | Left => Some (Msg.Nav NavMsg.TicketTablePageLeft)
  | Char "l" | Right => Some (Msg.Nav NavMsg.TicketTablePageRight)
  | Char " " | Enter => Some (Msg.Nav NavMsg.TicketTableSelect)
  | _ => None
  end.
Definition handle_operation_key (code : KeyCode.t) : option Msg.t :=
  match code with
  | Char "P" => Some (Msg.Nav NavMsg.TicketListPriority)
  | Char "T" => Some (Msg.Nav NavMsg.TicketListType)
  | Char "X" => Some (Msg.Nav NavMsg.TicketListClose)
  | Char "O" => Some (Msg.Nav NavMsg.TicketListOpen)
  | Char "D" => Some (Msg.Nav NavMsg.TicketListDispatch)
  | Char "E" => Some (Msg.Nav NavMsg.TicketListEdit)
  | Char "C" => Some (Msg.Nav NavMsg.TicketListCreate)
  | _ => None
  end.
Definition handle_action_key (code : KeyCode.t) : option Msg.t :=
  match code with
  | Char "r" => Some (Msg.Nav NavMsg.TicketListRefresh)
  | Char "g" => Some (Msg.Nav NavMsg.TicketListGoto)
  | Char "*" => Some (Msg.Overlay OverlayMsg.OpenFilterMenu)
  | _ => None
  end.
Definition handle_key (key : KeyEvent.t) : option Msg.t :=
  let code := KeyEvent.code key in
  match (if plain key then handle_table_key code else None) with
  | Some msg => Some msg
  | None => match handle_operation_key code with
            | Some msg => Some msg
            | None => if plain key then handle_action_key code else None
            end
  end.
End TicketListHandler.

Module TicketDetailHandler.
Definition handle_detail_table_key (code : KeyCode.t) : option Msg.t :=
  match code with
  | Char "k" | Up => Some (Msg.Nav (NavMsg.TicketDetailNavigate (-1)))
  | Char "j" | Down => Some (Msg.Nav (NavMsg.TicketDetailNavigate 1))
  | Char "h" | Left => Some (Msg.Nav NavMsg.TicketDetailPageLeft)
  | Char "l" | Right => Some (Msg.Nav NavMsg.TicketDetailPageRight)
  | Char " " | Enter => Some (Msg.Nav NavMsg.TicketDetailSelect)
  | _ => None
  end.
Definition handle_detail_operation_key (code : KeyCode.t) : option Msg.t :=
  match code with
  | Char "A" => Some (Msg.Nav NavMsg.TicketDetailDispatchAll)
  | Char "B" => Some (Msg.Nav NavMsg.TicketDetailBranch)
  | Char "C" => Some (Msg.Nav NavMsg.TicketDetailCreateChild)
  | Char "D" => Some (Msg.Nav NavMsg.TicketDetailDispatch)
  | Char "E" => Some (Msg.Nav NavMsg.TicketDetailEdit)
  | Char "O" => Some (Msg.Nav NavMsg.TicketDetailOpen)
  | Char "P" => Some (Msg.Nav NavMsg.TicketDetailPriority)
  | Char "T" => Some (Msg.Nav NavMsg.TicketDetailType)
  | Char "V" => Some (Msg.Nav NavMsg.TicketDetailRedrive)
  | Char "X" => Some (Msg.Nav NavMsg.TicketDetailClose)
  | _ => None
  end.
Definition handle_detail_action_key (code : KeyCode.t) : option Msg.t :=
  match code with
  | Char "a" => Some (Msg.Nav NavMsg.TicketDetailOpenActivities)
  | Char "d" => Some (Msg.Nav NavMsg.TicketDetailOpenDescription)
  | Char "c" => Some (Msg.Nav NavMsg.TicketDetailToggleClosed)
  | Char "g" => Some (Msg.Nav NavMsg.TicketDetailGoto)
  | Char "r" => Some (Msg.Nav NavMsg.TicketDetailRefresh)
  | _ => None
  end.
Definition handle_key (key : KeyEvent.t) : option Msg.t :=
  let code := KeyEvent.code key in
  match (if plain key then handle_detail_table_key code else None) with
  | Some msg => Some msg
  | None => match handle_detail_operation_key code with
            | Some msg => Some msg
            | None => if plain key then handle_detail_action_key code else None
            end
  end.
End TicketDetailHandler.

Module FlowListHandler.
Definition handle_table_key (code : KeyCode.t) : option Msg.t :=
  match code with
  | Char "k" | Up => Some (Msg.Nav (NavMsg.FlowsNavigate (-1)))
  | Char "j" | Down => Some (Msg.Nav (NavMsg.FlowsNavigate 1))
  | Char "h" | Left => Some (Msg.Nav NavMsg.FlowsPageLeft)
  | Char "l" | Right => Some (Msg.Nav NavMsg.FlowsPageRight)
  | Char " " | Enter => Some (Msg.Nav NavMsg.FlowsSelect)
  | Char "r" => Some (Msg.Nav NavMsg.FlowsRefresh)
  | Char "g" => Some (Msg.Nav NavMsg.FlowsGoto)
  | _ => None
  end.
Definition handle_operation_key (key : KeyEvent.t) : option Msg.t :=
  if negb (shifted key) then None
  else match KeyEvent.code key with
       | Char "A" => Some (Msg.Nav NavMsg.FlowsApprove)
       | Char "S" => Some (Msg.Nav NavMsg.FlowsStall)
       | Char "V" => Some (Msg.Nav NavMsg.FlowsRedrive)
       | Char "X" => Some (Msg.Nav NavMsg.FlowsCancel)
       | _ => None
       end.
Definition handle_key (key : KeyEvent.t) : option Msg.t :=
  match (if plain key then handle_table_key (KeyEvent.code key) else None) with
  | Some msg => Some msg
  | None => handle_operation_key key
  end.
End FlowListHandler.

Module FlowDetailHandler.
Definition handle_shift_key (code : KeyCode.t) : option Msg.t :=
  match code with
  | Char "A" => Some (Msg.Nav NavMsg.FlowDetailApprove)
  | Char "S" => Some (Msg.Nav NavMsg.FlowDetailStall)
  | Char "V" => Some (Msg.Nav NavMsg.FlowDetailRedrive)
  | Char "X" => Some (Msg.Nav NavMsg.FlowDetailCancel)
  | _ => None
  end.
Definition handle_plain_key (code : KeyCode.t) : option Msg.t :=
  match code with
  | Char "g" => Some (Msg.Nav NavMsg.FlowDetailGoto)
  | _ => None
  end.
Definition handle_key (key : KeyEvent.t) : option Msg.t :=
  match (if shifted key then handle_shift_key (KeyEvent.code key) else None) with
  | Some msg => Some msg
  | None => if plain key then handle_plain_key (KeyEvent.code key) else None
  end.
End FlowDetailHandler.

Module WorkerListHandler.
Definition handle_key (key : KeyEvent.t) : option Msg.t :=
  if plain key then
    match KeyEvent.code key with
    | Char "j" | Down => Some (Msg.Nav (NavMsg.WorkersNavigate 1))
    | Char "k" | Up => Some (Msg.Nav (NavMsg.WorkersNavigate (-1)))
    | Char "l" | Right => Some (Msg.Nav NavMsg.WorkersPageRight)
    | Char "h" | Left => Some (Msg.Nav NavMsg.WorkersPageLeft)
    | Char "r" => Some (Msg.Nav NavMsg.WorkersRefresh)
    | Char "x" => Some (Msg.Nav NavMsg.WorkersKill)
    | Char "g" => Some (Msg.Nav NavMsg.WorkersGoto)
    | _ => None
    end
  else if bool_decide (KeyEvent.modifiers key = KeyModifiers.SHIFT) then
    match KeyEvent.code key with
    | Char "X" => Some (Msg.Nav NavMsg.WorkersKill)
    | _ => None
    end
  else None.
End WorkerListHandler.

(** ** Overlays: every key is captured *)

Module OverlayKeys.
Import OverlayMsg.
Definition priority_picker (code : KeyCode.t) : OverlayMsg.t :=
  match code with
  | Esc => PriorityCancelled
  | Char "j" | Down => PriorityPickerNavigate 1
  | Char "k" | Up => PriorityPickerNavigate (-1)
  | Char " " | Enter => PriorityPickerConfirm
  | Char c => if char_between "0" "4" c then PriorityPickerQuickSelect (Z.of_nat (minus_zero c)) else Consumed
  | _ => Consumed
  end.
Definition type_menu (code : KeyCode.t) : OverlayMsg.t :=
  match code with
  | Esc => TypeMenuCancelled
  | Char "j" | Down => TypeMenuNavigate 1
  | Char "k" | Up => TypeMenuNavigate (-1)
  | Char " " | Enter => TypeMenuConfirm
  | Char "1" => TypeMenuQuickSelect 0
  | Char "2" => TypeMenuQuickSelect 1
  | Char "3" => TypeMenuQuickSelect 2
  | _ => Consumed
  end.
Definition filter_menu (code : KeyCode.t) : OverlayMsg.t :=
  match code with
  | Esc => FilterMenuClosed
  | Char "j" | Down => FilterMenuNavigate 1
  | Char "k" | Up => FilterMenuNavigate (-1)
  | Enter | Char " " => FilterMenuActivate
  | Char c => if char_is_ascii_digit c then FilterMenuQuickToggle c else Consumed
  | _ => Consumed
  end.
Definition goto_menu (code : KeyCode.t) : OverlayMsg.t :=
  match code with
  | Esc => GotoCancelled
  | Char "j" | Down => GotoMenuNavigate 1
  | Char "k" | Up => GotoMenuNavigate (-1)
  | Char " " | Enter => GotoMenuConfirm
  | Char c =>
      if char_is_ascii_digit c then
        let digit := minus_zero c in
        if 1 <=? digit then GotoMenuQuickSelect digit else Consumed
      else Consumed
  | _ => Consumed
  end.
Definition force_close_confirm (code : KeyCode.t) : OverlayMsg.t :=
  match code with
  | Char "1" | Char "y" => ForceCloseConfirmYes
  | Char "2" | Char "n" | Esc => ForceCloseCancelled
  | _ => Consumed
  end.
Definition create_action_menu (code : KeyCode.t) : OverlayMsg.t :=
  match code with
  | Esc => CreateActionSelected Abandon
  | Char "j" | Down => CreateActionNavigate 1
  | Char "k" | Up => CreateActionNavigate (-1)
  | Enter => CreateActionConfirm
  | Char c => if char_between "1" "4" c then CreateActionQuickSelect (minus_zero c - 1) else Consumed
  | _ => Consumed
  end.
Definition text_input (code : KeyCode.t) : OverlayMsg.t :=
  match code with
  | Esc => ProjectInputCancelled
  | Enter => ProjectInputSubmitRequest
  | Backspace => ProjectInputBackspace
  | Char c => ProjectInputChar c
  | _ => Consumed
  end.
Definition branch_input (code : KeyCode.t) : OverlayMsg.t :=
  match code with
  | Esc => BranchInputCancelled
  | Enter => BranchInputSubmitRequest
  | Backspace => BranchInputBackspace
  | Char c => BranchInputChar c
  | _ => Consumed
  end.
Definition title_input (code : KeyCode.t) : OverlayMsg.t :=
  match code with
  | Esc => TitleInputCancelled
  | Enter => TitleInputSubmitRequest
  | Backspace => TitleInputBackspace
  | Char c => TitleInputChar c
  | _ => Consumed
  end.
Definition settings_overlay (code : KeyCode.t) : OverlayMsg.t :=
  match code with
  | Esc => SettingsEsc
  | Char "1" | Enter | Char " " => SettingsActivate
  | Char "j" | Down => SettingsNavigate DirDown
  | Char "k" | Up => SettingsNavigate DirUp
  | Char "h" | Left => SettingsNavigate DirLeft
  | Char "l" | Right => SettingsNavigate DirRight
  | _ => Consumed
  end.
Definition help_overlay (code : KeyCode.t) : OverlayMsg.t :=
  match code with
  | Char "?" | Esc => HelpClosed
  | _ => Consumed
  end.
End OverlayKeys.

(** [dispatch_overlay_key] *)
Definition dispatch_overlay_key (overlay : ActiveOverlay.t) (key : KeyEvent.t) : Msg.t :=
  let code := KeyEvent.code key in
  Msg.Overlay
    match overlay with
    | ActiveOverlay.PriorityPicker _ _ => OverlayKeys.priority_picker code
    | ActiveOverlay.TypeMenu _ _ => OverlayKeys.type_menu code
    | ActiveOverlay.FilterMenu _ _ _ => OverlayKeys.filter_menu code
    | ActiveOverlay.GotoMenu _ _ => OverlayKeys.goto_menu code
    | ActiveOverlay.ForceCloseConfirm _ _ => OverlayKeys.force_close_confirm code
    | ActiveOverlay.CreateActionMenu _ _ => OverlayKeys.create_action_menu code
    | ActiveOverlay.ProjectInput _ => OverlayKeys.text_input code
    | ActiveOverlay.BranchInput _ _ => OverlayKeys.branch_input code
    | ActiveOverlay.TitleInput _ => OverlayKeys.title_input code
    | ActiveOverlay.Settings _ _ _ _ _ _ _ => OverlayKeys.settings_overlay code
    | ActiveOverlay.Help => OverlayKeys.help_overlay code
    end.

(** [dispatch_banner_key] *)
Definition dispatch_banner_key (key : KeyEvent.t) : option Msg.t :=
  match KeyEvent.code key with Enter | Esc => Some Msg.BannerDismiss | _ => None end.

(** The handler of the page shown, where [dispatch_root_page_key] has one. *)
Definition root_page_key (page : PageId.t) (key : KeyEvent.t) : option Msg.t :=
  match page with
  | PageId.TicketList => TicketListHandler.handle_key key
  | PageId.TicketDetail _ => TicketDetailHandler.handle_key key
  | PageId.FlowList => FlowListHandler.handle_key key
  | PageId.FlowDetail _ => FlowDetailHandler.handle_key key
  | PageId.WorkerList => WorkerListHandler.handle_key key
  | _ => None
  end.
