(* ===== verification/CreateTicket.v ===== *)
(** * The editor's template

    [urui/src/create_ticket.rs]: a ticket as front matter and body for an external
    editor, the parse of what the editor leaves, and the change of metadata it stands
    for; with the two editor flows of [urui/src/main.rs]. *)

From S2P Require Import Prelude RustStd TextLemmas Model TicketService UiModel UiState.
From Stdlib Require Import Ascii.
Local Open Scope stdpp_scope.

(** ** A ticket in the editor *)

(** [create_ticket::PendingTicket] *)
Module EditedTicket.
Record t : Type := mk {
  project : string;
  title : string;
  ticket_type : string;
  priority : Z;
  branch : option string;
  body : string;
  meta : gmap string string
}.
End EditedTicket.

Definition TITLE_PLACEHOLDER : string := "<summarize>".
Definition BRANCH_PLACEHOLDER : string := "<ticket-id>".
Definition DEFAULT_TICKET_TYPE : string := "design".
Definition EDITABLE_META_KEYS : list string := [ticket_meta.REF].

(** [compute_meta_diff]: the keys to set, with their values, and the keys to delete. *)
Fixpoint meta_diff (keys : list string) (server editor : gmap string string)
    : list (string * string) * list string :=
  match keys with
  | [] => ([], [])
  | key :: keys =>
      let server_val := default "" (server !! key) in
      let editor_val := default "" (editor !! key) in
      let rest := meta_diff keys server editor in
      match String.eqb server_val "", String.eqb editor_val "" with
      | true, true => rest
      | true, false => ((key, editor_val) :: rest.1, rest.2)
      | false, true => (rest.1, key :: rest.2)
      | false, false => if String.eqb editor_val server_val then rest else ((key, editor_val) :: rest.1, rest.2)
      end
  end.
Definition compute_meta_diff : gmap string string → gmap string string → list (string * string) * list string :=
  meta_diff EDITABLE_META_KEYS.

Definition normalize_ticket_type (s : string) : string :=
  match trim s with
  | "task" | "epic" | "c" => "code"
  | "d" => "design"
  | "r" => "reminder"
  | other => other
  end.

(** ** Writing *)

Definition META_INDENT : string := "    ".
Definition meta_line (kv : string * string) : string :=
  META_INDENT +:+ kv.1 +:+ ": " +:+ kv.2 +:+ NEWLINE.
(** The entries of a [BTreeMap], in the order of their keys. *)
Definition key_le (a b : string * string) : Prop := String.le a.1 b.1.
#[export] Instance key_le_dec : RelDecision key_le.
Proof. intros a b. unfold key_le. apply _. Defined.
Definition entries (m : gmap string string) : list (string * string) := order_by key_le (map_to_list m).
Definition concat_str (l : list string) : string := foldr String.append EmptyString l.

Definition serialize_meta_block (meta : gmap string string) : string :=
  "meta:" +:+ NEWLINE
  +:+ (if bool_decide (meta = ∅) then META_INDENT +:+ ticket_meta.REF +:+ ":" +:+ NEWLINE
       else concat_str (meta_line <$> entries meta)).

Definition front_matter (title ticket_type : string) (priority : Z) (branch_value meta_block : string) : string :=
  "title: " +:+ title +:+ NEWLINE +:+ "type: " +:+ ticket_type +:+ NEWLINE
  +:+ "priority: " +:+ pretty priority +:+ NEWLINE +:+ "branch: " +:+ branch_value +:+ NEWLINE +:+ meta_block.

Definition generate_template : string :=
  front_matter TITLE_PLACEHOLDER DEFAULT_TICKET_TYPE 0 BRANCH_PLACEHOLDER
    ("meta:" +:+ NEWLINE +:+ META_INDENT +:+ "ref:" +:+ NEWLINE)
  +:+ "---" +:+ NEWLINE +:+ NEWLINE.

Definition serialize_to_template (project title ticket_type : string) (priority : Z) (branch : option string)
    (meta : gmap string string) (body : string) : string :=
  let branch_value := default BRANCH_PLACEHOLDER branch in
  let trimmed_body := trim body in
  front_matter title ticket_type priority branch_value (serialize_meta_block meta)
  +:+ (if String.eqb trimmed_body "" then "---" +:+ NEWLINE +:+ NEWLINE
       else "---" +:+ NEWLINE +:+ trimmed_body +:+ NEWLINE).

(** ** Titles *)

Definition is_title_placeholder (title : string) : bool :=
  let trimmed := trim title in String.eqb trimmed "" || String.eqb trimmed TITLE_PLACEHOLDER.

(** [fallback_title]; the outer [None] is the panic of a slice that cuts a
    character. *)
Definition fallback_title (body : string) : option (result string string) :=
  let trimmed := trim body in
  if String.eqb trimmed ""
  then Some (Err "Cannot resolve title: body is empty and claude command failed")
  else
    let first_line := default trimmed (head (lines trimmed)) in
    if String.length first_line <=? 80 then Some (Ok first_line)
    else cut ← slice_to first_line 77; Some (Ok (cut +:+ "...")).

(** [resolve_title]; [generated] is what the model printed, if it succeeded. *)
Definition resolve_title (generated : option string) (body : string) : option (result string string) :=
  match generated with
  | Some out => let title := trim out in
                if String.eqb title "" then fallback_title body else Some (Ok title)
  | None => fallback_title body
  end.

(** ** Reading *)

Definition COLON : string := ":".
Definition parse_meta_entry (line : string) : option (string * string) :=
  kv ← split_once COLON (trim line);
  let key := trim kv.1 in
  let value := trim kv.2 in
  if String.eqb key "" || String.eqb value "" then None else Some (key, value).

(** The variables of the loop over the lines. *)
Module Front.
Record t : Type := mk {
  title : string;
  ticket_type : string;
  priority : Z;
  branch : option string;
  meta : gmap string string;
  in_meta : bool
}.
Definition start : t := mk "" DEFAULT_TICKET_TYPE 0 None ∅ false.
Definition with_title (x : string) (f : t) : t := mk x (ticket_type f) (priority f) (branch f) (meta f) (in_meta f).
Definition with_type (x : string) (f : t) : t := mk (title f) x (priority f) (branch f) (meta f) (in_meta f).
Definition with_priority (x : Z) (f : t) : t := mk (title f) (ticket_type f) x (branch f) (meta f) (in_meta f).
Definition with_branch (x : option string) (f : t) : t := mk (title f) (ticket_type f) (priority f) x (meta f) (in_meta f).
Definition with_meta (x : gmap string string) (f : t) : t := mk (title f) (ticket_type f) (priority f) (branch f) x (in_meta f).
Definition with_in_meta (x : bool) (f : t) : t := mk (title f) (ticket_type f) (priority f) (branch f) (meta f) x.
End Front.

Definition TABULATION : string := String (ascii_of_nat 9) EmptyString.
Definition is_indented (line : string) : bool := starts_with META_INDENT line || starts_with TABULATION line.

Definition read_field (line : string) (f : Front.t) : Front.t :=
  match strip_prefix "title:" line with
  | Some val => Front.with_title (trim val) f
  | None =>
  match strip_prefix "type:" line with
  | Some val => Front.with_type (normalize_ticket_type val) f
  | None =>
  match strip_prefix "priority:" line with
  | Some val => match parse_i64 (trim val) with Ok p => Front.with_priority p f | Err _ => f end
  | None =>
  match strip_prefix "branch:" line with
  | Some val =>
      let trimmed := trim val in
      Front.with_branch
        (if String.eqb trimmed "" || String.eqb trimmed BRANCH_PLACEHOLDER then None else Some trimmed) f
  | None =>
  match strip_prefix "meta:" line with
  | Some _ => Front.with_in_meta true f
  | None => f
  end end end end end.

(** The body of the loop. *)
Definition read_line (f : Front.t) (line : string) : Front.t :=
  if Front.in_meta f && is_indented line then
    match parse_meta_entry line with
    | Some (k, v) => Front.with_meta (<[k := v]> (Front.meta f)) f
    | None => f
    end
  else read_field line (Front.with_in_meta false f).

Definition DELIMITER : string := NEWLINE +:+ "---".

(** [parse_ticket_file] *)
Definition parse_ticket_file (content : string) : option EditedTicket.t :=
  if String.eqb (trim content) "" then None
  else if String.eqb content generate_template then None
  else
    let '(front_text, body) :=
      match split_once DELIMITER content with
      | Some (fm, b) => (fm, trim (default b (strip_prefix NEWLINE b)))
      | None => (content, EmptyString)
      end in
    let f := foldl read_line Front.start (lines front_text) in
    Some (EditedTicket.mk "" (Front.title f) (Front.ticket_type f) (Front.priority f) (Front.branch f)
            body (Front.meta f)).

(** ** The editor flows of the main loop *)

(** The end of [run_editor_flow]: what the file that the editor left becomes. *)
Definition new_pending (project : string) (parent_id : option string) (content : string)
    : option PendingTicket.t :=
  parsed ← parse_ticket_file content;
  Some (PendingTicket.mk
    (if String.eqb (EditedTicket.project parsed) "" then project else EditedTicket.project parsed)
    (EditedTicket.title parsed) (EditedTicket.ticket_type parsed) (EditedTicket.priority parsed)
    (EditedTicket.body parsed) parent_id (EditedTicket.branch parsed) (EditedTicket.meta parsed)).

(** [fetch_ticket_for_edit], from the server's answer. *)
Definition fetch_ticket_for_edit (ticket_id : string) (resp : DetailResponse.t) : result EditedTicket.t string :=
  match DetailResponse.ticket resp with
  | None => Err ("ticket " +:+ ticket_id +:+ " not found")
  | Some t =>
      Ok (EditedTicket.mk (PTicket.project t) (PTicket.title t)
            (PTicket.ticket_type t) (PTicket.priority t)
            (if String.eqb (PTicket.branch t) "" then None else Some (PTicket.branch t))
            (PTicket.body t)
            (foldl (λ m e, <[e.1 := e.2]> m) ∅
               (filter (λ e, e.1 ≠ "" ∧ e.2 ≠ "") (DetailResponse.metadata resp))))
  end.

Definition edited_template (t : EditedTicket.t) : string :=
  serialize_to_template (EditedTicket.project t) (EditedTicket.title t) (EditedTicket.ticket_type t)
    (EditedTicket.priority t) (EditedTicket.branch t) (EditedTicket.meta t) (EditedTicket.body t).

(** [run_edit_ticket_flow]: [editor] is what the editor makes of a text, [None] when it
    fails. *)
Definition run_edit_ticket_flow (editor : string → option string) (ticket_id : string)
    (resp : DetailResponse.t) : result (option TicketOpMsg.t) string :=
  match fetch_ticket_for_edit ticket_id resp with
  | Err e => Err e
  | Ok ticket =>
      let content := edited_template ticket in
      let parsed :=
        new_content ← editor content;
        if String.eqb new_content content then None else parse_ticket_file new_content in
      Ok (p ← parsed;
          let diff := compute_meta_diff (EditedTicket.meta ticket) (EditedTicket.meta p) in
          Some (TicketOpMsg.UpdateFields ticket_id
            (if String.eqb (EditedTicket.project p) "" then EditedTicket.project ticket else EditedTicket.project p)
            (EditedTicket.title p) (EditedTicket.ticket_type p) (EditedTicket.priority p) (EditedTicket.body p)
            (Some (default "NONE" (EditedTicket.branch p))) diff.1 diff.2))
  end.

(** * The editor's template: properties

    What is written for the editor reads back: lines, the delimiter, the fields and the
    metadata. *)

From Stdlib Require Import Ascii.

(** ** Trimming *)

Definition tidy (s : string) : Prop := trim_start s = s ∧ trim_end s = s.

Lemma trim_tidy s : tidy s → trim s = s.
Proof. unfold trim. by intros [-> ->]. Qed.
Lemma trim_start_idem s : trim_start (trim_start s) = trim_start s.
Proof.
  induction s as [|c s IH]; [done|]. simpl. destruct (is_whitespace c) eqn:E; [done|]. simpl. by rewrite E.
Qed.
Lemma trim_end_cons c s : trim_end (String c s) =
  if is_whitespace c && bool_decide (trim_end s = EmptyString) then EmptyString else String c (trim_end s).
Proof. simpl. destruct (trim_end s); [by destruct (is_whitespace c)|]. by rewrite andb_false_r. Qed.
Lemma trim_end_idem s : trim_end (trim_end s) = trim_end s.
Proof.
  induction s as [|c s IH]; [done|]. rewrite trim_end_cons. destruct (_ && _) eqn:E; [done|].
  by rewrite trim_end_cons, IH, E.
Qed.
Lemma trim_start_end s : trim_start s = s → trim_start (trim_end s) = trim_end s.
Proof.
  destruct s as [|c s]; [done|]. intros Hs. rewrite trim_end_cons.
  destruct (is_whitespace c) eqn:E; simpl in *; rewrite E in *; [|done].
  exfalso. assert (∀ t, String.length (trim_start t) ≤ String.length t) as Hl.
  { intros t. induction t as [|x t IH]; simpl; [lia|]. destruct (is_whitespace x); simpl; lia. }
  specialize (Hl s). rewrite Hs in Hl. simpl in Hl. lia.
Qed.
Lemma tidy_trim s : tidy (trim s).
Proof. split; [apply trim_start_end, trim_start_idem|apply trim_end_idem]. Qed.
Lemma trim_end_app a b : b ≠ EmptyString → trim_end b = b → trim_end (a +:+ b) = a +:+ b.
Proof.
  intros Hb He. induction a as [|c a IH]; [done|]. rewrite app_cons, trim_end_cons, IH.
  rewrite bool_decide_eq_false_2; [by rewrite andb_false_r|]. by destruct a.
Qed.
Lemma trim_end_space a c : is_whitespace c = true → trim_end (a +:+ String c EmptyString) = trim_end a.
Proof.
  intros Hc. induction a as [|x a IH]; [rewrite app_nil_str, trim_end_cons; by rewrite Hc|].
  by rewrite app_cons, !trim_end_cons, IH.
Qed.
Lemma trim_start_app a b : a ≠ EmptyString → trim_start a = a → trim_start (a +:+ b) = a +:+ b.
Proof.
  destruct a as [|c a]; [done|]. intros _. rewrite app_cons. simpl. destruct (is_whitespace c) eqn:E; [|done].
  intros Ha. exfalso. pose proof (trim_start_idem a) as Hi. rewrite Ha in Hi. simpl in Hi. rewrite E in Hi.
  assert (∀ t, String.length (trim_start t) ≤ String.length t) as Hl.
  { intros t. induction t as [|x t IH]; simpl; [lia|]. destruct (is_whitespace x); simpl; lia. }
  specialize (Hl a). rewrite Ha in Hl. simpl in Hl. lia.
Qed.
Lemma trim_line s c : tidy s → s ≠ EmptyString → is_whitespace c = true → trim (s +:+ String c EmptyString) = s.
Proof. intros [Hs He] Hne Hc. unfold trim. by rewrite trim_start_app, trim_end_space. Qed.
Lemma trim_headed s : trim (String "t" s) ≠ EmptyString.
Proof. change (trim (String "t" s)) with (trim_end (String "t" s)). by rewrite trim_end_cons. Qed.
Lemma trim_space s : trim (String " " s) = trim s.
Proof. reflexivity. Qed.

(** ** Lines *)

Definition CR : ascii := ascii_of_nat 13.
Definition NL : ascii := ascii_of_nat 10.
(** No line break inside. *)
Definition single (s : string) : Prop := lacks NL s ∧ lacks CR s.

Lemma single_app a b : single (a +:+ b) ↔ single a ∧ single b.
Proof. unfold single. rewrite !lacks_app. naive_solver. Qed.
Lemma lacks_drop c n s : lacks c s → lacks c (str_drop n s).
Proof.
  revert s. induction n as [|n IH]; intros [|x s] Hs; try done. apply lacks_cons in Hs as [_ Hs]. by apply IH.
Qed.
Lemma strip_single s : lacks CR s → strip_carriage_return s = s.
Proof.
  intros Hs. unfold strip_carriage_return, ends_with. cbv zeta.
  rewrite (bool_decide_eq_false_2 (str_drop _ s = _)); [by rewrite andb_false_r|].
  intros E. apply (lacks_drop CR (String.length s - 1)) in Hs. unfold String.length at 2 in E. cbv iota in E.
  change (String.length (String (ascii_of_nat 13) "")) with 1 in E. rewrite E in Hs. by apply lacks_cons in Hs as [? _].
Qed.
Lemma split_join ls : ls ≠ [] → Forall single ls → split NEWLINE (join NEWLINE ls) = ls.
Proof.
  intros Hne Hs. induction Hs as [|l ls [Hl _] Hs IH]; [done|].
  destruct ls as [|l' ls]; [by apply split_absent|].
  change (join NEWLINE (l :: l' :: ls)) with (l +:+ String NL (join NEWLINE (l' :: ls))).
  unfold NEWLINE at 1. rewrite split_segment by done. f_equal. by apply IH.
Qed.
Lemma drop_last_id ls : (∀ l, last ls = Some l → l ≠ EmptyString) → drop_last_empty ls = ls.
Proof.
  induction ls as [|l ls IH]; intros Hl; [done|]. destruct ls as [|l' ls].
  - simpl. by rewrite bool_decide_eq_false_2 by (by apply Hl).
  - change (drop_last_empty (l :: l' :: ls)) with (l :: drop_last_empty (l' :: ls)). f_equal. by apply IH.
Qed.
Lemma lines_join ls : ls ≠ [] → Forall single ls → Forall (λ l, l ≠ EmptyString) ls →
  lines (join NEWLINE ls) = ls.
Proof.
  intros Hne Hs He. unfold lines. rewrite split_join, drop_last_id by
    (done || (intros l Hl; rewrite Forall_forall in He; by apply He, last_Some_elem_of)).
  induction Hs as [|l ls [_ Hl] Hs IH]; [done|]. rewrite fmap_cons, strip_single by done. f_equal.
  inversion He. destruct ls; [done|by apply IH].
Qed.

(** ** The delimiter *)

(** Lines, each with its end, before a rest. *)
Definition unlines (ls : list string) (rest : string) : string :=
  foldr (λ l r, l +:+ NEWLINE +:+ r) rest ls.
Definition headed (l : string) : Prop := ∃ c r, l = String c r ∧ c ≠ "-"%char.

Lemma unlines_join ls rest : ls ≠ [] → unlines ls rest = join NEWLINE ls +:+ NEWLINE +:+ rest.
Proof.
  induction ls as [|l ls IH]; [done|]. intros _. destruct ls as [|l' ls]; [done|].
  change (unlines (l :: l' :: ls) rest) with (l +:+ NEWLINE +:+ unlines (l' :: ls) rest). rewrite IH by done.
  change (join NEWLINE (l :: l' :: ls)) with (l +:+ NEWLINE +:+ join NEWLINE (l' :: ls)).
  by rewrite !app_assoc_str.
Qed.
Lemma find_skip a s : lacks NL a → find DELIMITER (a +:+ s) = (λ i, String.length a + i) <$> find DELIMITER s.
Proof.
  induction a as [|c a IH]; intros Ha.
  { rewrite app_nil_str. by destruct (find _ s). }
  apply lacks_cons in Ha as [Hc Ha]. rewrite app_cons. cbn [find].
  assert (String.prefix DELIMITER (String c (a +:+ s)) = false) as ->.
  { unfold DELIMITER, NEWLINE. rewrite app_cons. cbn [String.prefix]. destruct (ascii_dec _ c) as [E|]; [by destruct Hc|done]. }
  rewrite (IH Ha). by destruct (find _ s).
Qed.
Lemma find_newline s : String.prefix "---" s = false → find DELIMITER (NEWLINE +:+ s) = S <$> find DELIMITER s.
Proof.
  intros Hs. unfold NEWLINE at 1. rewrite app_cons, app_nil_str. cbn [find].
  assert (String.prefix DELIMITER (String (ascii_of_nat 10) s) = false) as ->; [|done].
  unfold DELIMITER, NEWLINE. rewrite app_cons, app_nil_str. cbn [String.prefix].
  destruct (ascii_dec _ _); [exact Hs|done].
Qed.
Lemma find_delimiter ls rest : ls ≠ [] → Forall single ls → Forall headed ls →
  find DELIMITER (unlines ls ("---" +:+ rest)) = Some (String.length (join NEWLINE ls)).
Proof.
  intros Hne Hs Hh. induction Hs as [|l ls [Hl _] Hs IH]; [done|]. inversion_clear Hh as [|? ? _ Hh'].
  destruct ls as [|l' ls].
  { change (unlines [l] ("---" +:+ rest)) with (l +:+ (DELIMITER +:+ rest)). rewrite find_skip by done.
    rewrite (proj2 (find_0 DELIMITER _)) by apply prefix_app. simpl. by rewrite Nat.add_0_r. }
  change (unlines (l :: l' :: ls) ("---" +:+ rest)) with (l +:+ NEWLINE +:+ unlines (l' :: ls) ("---" +:+ rest)).
  assert (String.prefix "---" (unlines (l' :: ls) ("---" +:+ rest)) = false) as Hp.
  { inversion Hh' as [|? ? (c & r & -> & Hc) _]. cbn [unlines foldr]. rewrite app_cons. cbn [String.prefix].
    destruct (ascii_dec "-" c) as [E|]; [by destruct Hc|done]. }
  rewrite find_skip, find_newline, IH by done.
  change (join NEWLINE (l :: l' :: ls)) with (l +:+ NEWLINE +:+ join NEWLINE (l' :: ls)).
  simpl. by rewrite !length_app_str.
Qed.
Lemma split_front ls rest : ls ≠ [] → Forall single ls → Forall headed ls →
  split_once DELIMITER (unlines ls ("---" +:+ rest)) = Some (join NEWLINE ls, rest).
Proof.
  intros Hne Hs Hh. unfold split_once. rewrite find_delimiter by done. cbn [mbind option_bind]. f_equal.
  rewrite unlines_join by done. f_equal; [apply str_take_app|].
  replace (join NEWLINE ls +:+ NEWLINE +:+ "---" +:+ rest) with ((join NEWLINE ls +:+ DELIMITER) +:+ rest)
    by (unfold DELIMITER; by rewrite !app_assoc_str).
  rewrite <- length_app_str. apply str_drop_app.
Qed.

(** ** What is written *)

Definition meta_text (kv : string * string) : string := META_INDENT +:+ kv.1 +:+ ": " +:+ kv.2.
Definition meta_texts (meta : gmap string string) : list string :=
  if bool_decide (meta = ∅) then [META_INDENT +:+ ticket_meta.REF +:+ ":"] else meta_text <$> entries meta.
(** The lines before the delimiter. *)
Definition front_lines (t : EditedTicket.t) : list string :=
  ["title: " +:+ EditedTicket.title t; "type: " +:+ EditedTicket.ticket_type t;
   "priority: " +:+ pretty (EditedTicket.priority t);
   "branch: " +:+ default BRANCH_PLACEHOLDER (EditedTicket.branch t); "meta:"]
  ++ meta_texts (EditedTicket.meta t).
Definition body_text (body : string) : string :=
  NEWLINE +:+ (if String.eqb (trim body) "" then NEWLINE else trim body +:+ NEWLINE).

Lemma unlines_meta meta rest : serialize_meta_block meta +:+ rest = unlines ("meta:" :: meta_texts meta) rest.
Proof.
  unfold serialize_meta_block, meta_texts. case_bool_decide; [by rewrite !app_assoc_str|].
  change (unlines ("meta:" :: (meta_text <$> entries meta)) rest)
    with ("meta:" +:+ NEWLINE +:+ unlines (meta_text <$> entries meta) rest).
  rewrite !app_assoc_str. do 2 f_equal. induction (entries meta) as [|kv es IH]; [done|].
  change (concat_str (meta_line <$> (kv :: es))) with (meta_line kv +:+ concat_str (meta_line <$> es)).
  rewrite app_assoc_str, IH. unfold meta_line. cbn [fmap list_fmap unlines foldr]. unfold meta_text.
  by rewrite !app_assoc_str.
Qed.
Lemma written t : edited_template t = unlines (front_lines t) ("---" +:+ body_text (EditedTicket.body t)).
Proof.
  unfold edited_template, serialize_to_template, front_matter, front_lines, body_text.
  cbn [app unlines foldr]. rewrite !app_assoc_str.
  repeat match goal with |- ?a +:+ _ = ?a +:+ _ => f_equal end.
  change (foldr _ ?r ("meta:" :: ?l)) with (unlines ("meta:" :: l) r).
  rewrite unlines_meta. f_equal. by destruct (String.eqb _ _).
Qed.

(** ** Texts without white space *)

Lemma nonspace s : all_chars (negb ∘ is_whitespace) s = true → single s ∧ tidy s.
Proof.
  induction s as [|c s IH]; [done|]. intros [Hc Hs]%andb_true_iff. destruct (IH Hs) as [[Hn Hr] [Ht He]].
  simpl in Hc. apply negb_true_iff in Hc. split.
  - split; apply lacks_cons; (split; [by intros <-|done]).
  - split; [simpl; by rewrite Hc|]. by rewrite trim_end_cons, Hc, He.
Qed.
Lemma nonspace_pretty_N n s : all_chars (negb ∘ is_whitespace) s = true →
  all_chars (negb ∘ is_whitespace) (pretty_N_go n s) = true.
Proof.
  revert s. induction (N.lt_wf_0 n) as [n _ IH]. intros s Hs.
  destruct (decide (n = 0)%N) as [->|Hn]; [by rewrite pretty_N_go_0|].
  rewrite pretty_N_go_step by lia. apply IH; [apply N.div_lt; lia|]. simpl. rewrite Hs, andb_true_r.
  assert (n mod 10 < 10)%N as Hm by (by apply N.mod_lt). destruct (n mod 10)%N as [|p]; [done|].
  destruct p as [[[[]|[]|]|[[]|[]|]|]|[[[]|[]|]|[[]|[]|]|]|]; done || lia.
Qed.
Lemma nonspace_pretty (z : Z) : single (pretty z) ∧ tidy (pretty z).
Proof.
  apply nonspace. destruct z as [|p|p]; [done|by apply nonspace_pretty_N|].
  change (pretty (Z.neg p)) with (String "-" (pretty_N_go (Npos p) "")). simpl. by apply nonspace_pretty_N.
Qed.

(** ** Reading it back *)

Definition key_ok (k : string) : Prop := single k ∧ tidy k ∧ k ≠ EmptyString ∧ lacks ":"%char k.
Definition value_ok (v : string) : Prop := single v ∧ tidy v ∧ v ≠ EmptyString.
(** A ticket whose fields are written without loss: texts of one line without outer white
    space, a type that is not an abbreviation, and metadata without colons in its keys. *)
Record editable (t : EditedTicket.t) : Prop := {
  ed_title : single (EditedTicket.title t) ∧ tidy (EditedTicket.title t);
  ed_type : single (EditedTicket.ticket_type t) ∧
    normalize_ticket_type (EditedTicket.ticket_type t) = EditedTicket.ticket_type t;
  ed_priority : (I64_MIN <= EditedTicket.priority t <= I64_MAX)%Z;
  ed_branch b : EditedTicket.branch t = Some b → value_ok b ∧ b ≠ BRANCH_PLACEHOLDER;
  ed_meta k v : EditedTicket.meta t !! k = Some v → key_ok k ∧ value_ok v
}.

Lemma entries_elem m k v : (k, v) ∈ entries m ↔ m !! k = Some v.
Proof. unfold entries. rewrite elem_of_order_by. apply elem_of_map_to_list. Qed.
Definition insert_entry (m : gmap string string) (kv : string * string) : gmap string string := <[kv.1 := kv.2]> m.
Lemma foldl_entries es : NoDup es.*1 → foldl insert_entry ∅ es = list_to_map es.
Proof.
  induction es as [|[k v] es IH] using rev_ind; [done|]. intros Hd. rewrite fmap_app, NoDup_app in Hd.
  destruct Hd as (Hd & Hk & _). rewrite foldl_snoc, IH by done. symmetry. apply list_to_map_snoc.
  intros Hin. apply (Hk k Hin). by left.
Qed.
Lemma entries_meta m : foldl insert_entry ∅ (entries m) = m.
Proof.
  assert (entries m ≡ₚ map_to_list m) as Hp by apply order_by_perm.
  assert (NoDup (entries m).*1) as Hd by (rewrite Hp; apply NoDup_fst_map_to_list).
  rewrite foldl_entries by done. rewrite (list_to_map_proper _ _ Hd Hp). apply list_to_map_to_list.
Qed.

Lemma read_title x f : read_field ("title: " +:+ x) f = Front.with_title (trim x) f.
Proof. reflexivity. Qed.
Lemma read_type x f : read_field ("type: " +:+ x) f = Front.with_type (normalize_ticket_type x) f.
Proof. reflexivity. Qed.
Lemma read_priority z f : (I64_MIN <= z <= I64_MAX)%Z →
  read_field ("priority: " +:+ pretty z) f = Front.with_priority z f.
Proof.
  intros Hz.
  change (read_field ("priority: " +:+ pretty z) f)
    with (match parse_i64 (trim (pretty z)) with Ok p => Front.with_priority p f | Err _ => f end).
  rewrite trim_tidy by apply nonspace_pretty. by rewrite parse_i64_pretty.
Qed.
Lemma read_branch b f : (∀ x, b = Some x → value_ok x ∧ x ≠ BRANCH_PLACEHOLDER) →
  read_field ("branch: " +:+ default BRANCH_PLACEHOLDER b) f = Front.with_branch b f.
Proof.
  intros Hb. destruct b as [x|]; [|reflexivity]. destruct (Hb x eq_refl) as [(_ & Ht & He) Hp].
  change (read_field ("branch: " +:+ default BRANCH_PLACEHOLDER (Some x)) f)
    with (Front.with_branch (if String.eqb (trim x) "" || String.eqb (trim x) BRANCH_PLACEHOLDER
                             then None else Some (trim x)) f).
  rewrite trim_tidy by done. apply String.eqb_neq in He, Hp. by rewrite He, Hp.
Qed.
Lemma read_meta_entry kv f : Front.in_meta f = true → key_ok kv.1 → value_ok kv.2 →
  read_line f (meta_text kv) = Front.with_meta (insert_entry (Front.meta f) kv) f.
Proof.
  destruct kv as [k v]. cbn [fst snd]. intros Hf (_ & [Hks Hke] & Hk & Hc) (_ & [Hvs Hve] & Hv).
  unfold read_line, meta_text. cbn [fst snd]. rewrite Hf. unfold is_indented, starts_with.
  rewrite prefix_app. cbn [andb orb].
  unfold parse_meta_entry.
  assert (trim (META_INDENT +:+ k +:+ ": " +:+ v) = k +:+ ": " +:+ v) as ->.
  { change (trim (META_INDENT +:+ k +:+ ": " +:+ v)) with (trim (k +:+ ": " +:+ v)). unfold trim.
    rewrite trim_start_app by done. rewrite <- app_assoc_str. by apply trim_end_app. }
  unfold split_once. change (k +:+ ": " +:+ v) with (k +:+ String ":" (String " " v)). unfold COLON.
  rewrite find_char_app by done. cbn [mbind option_bind fst snd]. rewrite str_take_app.
  change (String.length ":") with 1. rewrite Nat.add_1_r, str_drop_cut, trim_space.
  rewrite !trim_tidy by done. apply String.eqb_neq in Hk, Hv. by rewrite Hk, Hv.
Qed.
Lemma read_meta_entries es f : Front.in_meta f = true → Forall (λ kv, key_ok kv.1 ∧ value_ok kv.2) es →
  foldl read_line f (meta_text <$> es) = Front.with_meta (foldl insert_entry (Front.meta f) es) f.
Proof.
  intros Hf He. revert f Hf. induction He as [|kv es [Hk Hv] He IH]; intros f Hf; [by destruct f|].
  cbn [fmap list_fmap foldl]. rewrite read_meta_entry, IH by done. done.
Qed.
Lemma read_front t : editable t → foldl read_line Front.start (front_lines t) =
  Front.mk (EditedTicket.title t) (EditedTicket.ticket_type t) (EditedTicket.priority t) (EditedTicket.branch t)
    (EditedTicket.meta t) true.
Proof.
  intros [[_ Ht] [_ Hty] Hp Hb Hm]. unfold front_lines. rewrite foldl_app. cbn [foldl].
  assert (∀ f l, Front.in_meta f = false → read_line f l = read_field l (Front.with_in_meta false f)) as Hrl.
  { intros f l Hf. unfold read_line. by rewrite Hf. }
  rewrite (Hrl Front.start), read_title by done. rewrite (Hrl (Front.with_title _ _)), read_type by done.
  rewrite (Hrl (Front.with_type _ _)), read_priority by done.
  rewrite (Hrl (Front.with_priority _ _)), read_branch by done. rewrite (Hrl (Front.with_branch _ _)) by done.
  change (read_field "meta:" ?f) with (Front.with_in_meta true f). rewrite trim_tidy, Hty by done.
  unfold meta_texts. case_bool_decide as E.
  - rewrite E. reflexivity.
  - rewrite read_meta_entries; [|done|].
    + cbn [Front.meta Front.with_in_meta Front.with_branch Front.with_priority Front.with_type Front.with_title Front.start].
      by rewrite entries_meta.
    + apply Forall_forall. intros [k v] Hkv. by apply Hm, entries_elem.
Qed.

(** ** The round trip *)

Lemma front_single t : editable t → Forall single (front_lines t).
Proof.
  intros [[Ht _] [Hty _] _ Hb Hm]. unfold front_lines.
  apply Forall_app. split.
  - repeat (apply Forall_cons; split); try apply single_app; try (split; [by split|]); try done.
    + apply nonspace_pretty.
    + destruct (EditedTicket.branch t) as [b|]; [|by split]. by destruct (Hb b eq_refl) as [[? _] _].
  - unfold meta_texts. case_bool_decide; [by repeat constructor|].
    apply Forall_forall. intros l (kv & -> & Hkv)%list_elem_of_fmap. destruct kv as [k v].
    apply entries_elem in Hkv. destruct (Hm k v Hkv) as [[? _] [? _]]. unfold meta_text. cbn [fst snd].
    rewrite !single_app. split_and!; [by split|done|by split|done].
Qed.
Lemma front_headed t : Forall headed (front_lines t).
Proof.
  assert (∀ c s, c ≠ "-"%char → headed (String c s)) as Hh by (intros c s Hc; by exists c, s).
  unfold front_lines. apply Forall_app. split.
  - repeat (apply Forall_cons; split); try (by apply Hh). constructor.
  - unfold meta_texts. case_bool_decide; [repeat constructor; by apply Hh|].
    apply Forall_forall. intros l (kv & -> & _)%list_elem_of_fmap. by apply Hh.
Qed.
Lemma trimmed_body body : trim (default (body_text body) (strip_prefix NEWLINE (body_text body))) = trim body.
Proof.
  unfold body_text, strip_prefix. rewrite prefix_app, str_drop_app. cbn [default].
  destruct (String.eqb_spec (trim body) "") as [E|E]; [by rewrite E|].
  by apply trim_line; [apply tidy_trim| |].
Qed.

(** C13: What the editor gets for an editable ticket reads back as the same ticket: if the text
    is saved as it was written, all fields come back, with the body trimmed and the project
    left to the caller; only the text of an untouched new ticket counts as nothing.
    Editable: title, branch and the keys and values of the metadata are of one line and
    without outer white space, the type is not an abbreviation, the priority has 64 bits,
    no key has a colon and no key or value is empty.  Others may come back changed. *)
Theorem template_roundtrip t : editable t →
  parse_ticket_file (edited_template t) =
    if String.eqb (edited_template t) generate_template then None
    else Some (EditedTicket.mk "" (EditedTicket.title t) (EditedTicket.ticket_type t) (EditedTicket.priority t)
                 (EditedTicket.branch t) (trim (EditedTicket.body t)) (EditedTicket.meta t)).
Proof.
  intros Ht. unfold parse_ticket_file.
  assert (String.eqb (trim (edited_template t)) "" = false) as ->.
  { apply String.eqb_neq. exact (trim_headed _). }
  destruct (String.eqb (edited_template t) generate_template) eqn:E; [done|].
  rewrite written, split_front by (done || by apply front_single || apply front_headed).
  rewrite trimmed_body, lines_join; [by rewrite read_front|done|by apply front_single|].
  eapply Forall_impl; [apply front_headed|]. by intros ? (c & r & -> & _).
Qed.
(** A ticket with metadata of two keys, a branch and a negative priority. *)
Definition sample_ticket : EditedTicket.t :=
  EditedTicket.mk "ur" "fix: a title" "code" (-3) (Some "feature/x") ("body" +:+ NEWLINE +:+ "---" +:+ NEWLINE)
    (<["ref" := "GH-1: see"]> (<["gate" := "ci"]> ∅)).
Lemma template_roundtrip_witness :
  editable sample_ticket ∧
  parse_ticket_file (edited_template sample_ticket) =
    Some (EditedTicket.mk "" "fix: a title" "code" (-3) (Some "feature/x") ("body" +:+ NEWLINE +:+ "---")
            (<["ref" := "GH-1: see"]> (<["gate" := "ci"]> ∅))).
Proof.
  assert (editable sample_ticket) as Hed.
  { split; try (by vm_compute); [intros b [= <-]; by vm_compute|].
    intros k v Hkv. unfold sample_ticket in Hkv. cbn [EditedTicket.meta] in Hkv.
    apply lookup_insert_Some in Hkv as [[<- <-]|[_ Hkv]]; [by vm_compute|].
    apply lookup_insert_Some in Hkv as [[<- <-]|[_ Hkv]]; [by vm_compute|done]. }
  split; [exact Hed|]. rewrite (template_roundtrip sample_ticket Hed). vm_compute. reflexivity.
Defined.
