(* ===== verification/UiPages.v ===== *)
(** * The terminal interface: navigation and pages

    [urui/src/navigation.rs], the start of the fetches, and the message handlers of
    [urui/src/pages].  A handler returns the new model with commands; [None] is a
    panic.  The handlers call [update], which is tied to them in [UiUpdate]. *)

From S2P Require Import Prelude RustStd TextLemmas Model TicketService UiModel UiState UiKeys CreateTicket.
Local Open Scope stdpp_scope.

Abbreviation outcome := (option (Model * list Cmd.t)).

(** ** Fetches *)

Definition page_request (page_size current_page : nat) : option Z * option Z :=
  (Some (as_i32 (Z.of_nat page_size)), Some (as_i32 (Z.of_nat (current_page * page_size)))).

Definition build_ticket_list_fetch_cmd (m : Model) : Cmd.t :=
  let table := TicketListModel.table (ticket_list m) in
  let req := page_request (TicketTableModel.page_size table) (TicketTableModel.current_page table) in
  Cmd.Fetch (FetchCmd.Tickets req.1 req.2 (Some (TicketFilters.show_children (ticket_filters m)))
    (TicketFilters.statuses (ticket_filters m))).

Definition OPEN_CHILDREN : string := "open,in_progress".
Definition child_filter (show_closed : bool) : option string := if show_closed then None else Some OPEN_CHILDREN.

Definition build_detail_fetch_cmd (m : Model) : Cmd.t :=
  match ticket_detail m with
  | None => Cmd.None_
  | Some detail =>
      let table := TicketDetailModel.children_table detail in
      let req := page_request (TicketTableModel.page_size table) (TicketTableModel.current_page table) in
      Cmd.batch
        [Cmd.Fetch (FetchCmd.TicketDetail (TicketDetailModel.ticket_id detail) req.1 req.2
           (child_filter (TicketDetailModel.show_closed detail)));
         Cmd.Fetch (FetchCmd.Activities (TicketDetailModel.ticket_id detail) None)]
  end.

Definition build_flow_list_fetch_cmd (m : Model) : Cmd.t :=
  let req := page_request FLOW_PAGE_SIZE (FlowListModel.current_page (flow_list m)) in
  Cmd.Fetch (FetchCmd.Flows req.1 req.2).

Definition set_ticket_data (x : LoadState TicketListData.t) (m : Model) : Model :=
  set_ticket_list (TicketListModel.mk x (TicketListModel.table (ticket_list m))) m.
Definition set_ticket_table (x : TicketTableModel.t) (m : Model) : Model :=
  set_ticket_list (TicketListModel.mk (TicketListModel.data (ticket_list m)) x) m.
Definition set_flow_data (x : LoadState FlowListData.t) (m : Model) : Model :=
  set_flow_list (FlowListModel.mk x (FlowListModel.selected_row (flow_list m)) (FlowListModel.current_page (flow_list m))) m.
Definition set_flow_row (r : nat) (m : Model) : Model :=
  set_flow_list (FlowListModel.mk (FlowListModel.data (flow_list m)) r (FlowListModel.current_page (flow_list m))) m.
Definition set_flow_page (p : nat) (m : Model) : Model :=
  set_flow_list (FlowListModel.mk (FlowListModel.data (flow_list m)) 0 p) m.
Definition set_worker_data (x : LoadState (list PWorker.t)) (m : Model) : Model :=
  set_worker_list (WorkerListModel.mk x (WorkerListModel.selected_row (worker_list m)) (WorkerListModel.current_page (worker_list m))) m.
Definition set_worker_row (r : nat) (m : Model) : Model :=
  set_worker_list (WorkerListModel.mk (WorkerListModel.data (worker_list m)) r (WorkerListModel.current_page (worker_list m))) m.
Definition set_worker_page (p : nat) (m : Model) : Model :=
  set_worker_list (WorkerListModel.mk (WorkerListModel.data (worker_list m)) 0 p) m.

Definition start_ticket_list_fetch (m : Model) : Model * Cmd.t :=
  let m := set_ticket_data Loading m in (m, build_ticket_list_fetch_cmd m).

Definition start_ticket_detail_fetch (ticket_id : string) (m : Model) : Model * Cmd.t :=
  let show_closed :=
    match ticket_detail m with
    | Some d => String.eqb (TicketDetailModel.ticket_id d) ticket_id && TicketDetailModel.show_closed d
    | None => false
    end in
  (set_ticket_detail
     (Some (TicketDetailModel.mk ticket_id Loading Loading TicketTableModel.empty show_closed)) m,
   Cmd.batch
     [Cmd.Fetch (FetchCmd.TicketDetail ticket_id None None (child_filter show_closed));
      Cmd.Fetch (FetchCmd.Activities ticket_id None)]).

Definition start_flow_list_fetch (m : Model) : Model * Cmd.t :=
  (set_flow_data Loading m, Cmd.Fetch (FetchCmd.Flows None None)).
Definition start_worker_list_fetch (m : Model) : Model * Cmd.t :=
  (set_worker_data Loading m, Cmd.Fetch FetchCmd.Workers).

(** ** Starting and leaving a page *)

Definition start_activities_fetch (ticket_id ticket_title : string) (m : Model) : Model * Cmd.t :=
  (set_ticket_activities
     (Some (TicketActivitiesModel.mk ticket_id ticket_title Loading 0 0 20 ["all"] 0)) m,
   Cmd.Fetch (FetchCmd.Activities ticket_id None)).

Definition init_body_model (ticket_id title body : string) (m : Model) : Model :=
  set_ticket_body (Some (TicketBodyModel.mk ticket_id title body ScrollableMarkdownModel.default)) m.

Definition init_flow_detail (ticket_id : string) (m : Model) : Model * list Cmd.t :=
  let loaded :=
    data ← load_data (FlowListModel.data (flow_list m));
    head (filter (λ w, WorkflowInfo.ticket_id w = ticket_id) (FlowListData.workflows data)) in
  match loaded with
  | Some wf => (set_flow_detail (Some (FlowDetailModel.mk ticket_id wf)) m, [])
  | None => (set_flow_detail None m, [Cmd.Fetch (FetchCmd.FlowDetail ticket_id)])
  end.

Definition push_handler (h : InputHandler) (m : Model) : Model :=
  set_input_stack (stack_push h (input_stack m)) m.
Fixpoint pop_handlers (count : nat) (m : Model) : Model :=
  match count with
  | 0 => m
  | S n => pop_handlers n (set_input_stack (stack_pop (input_stack m)) m)
  end.

Definition init_help_page (m : Model) : Model :=
  push_handler (MarkdownScrollHandler "help_page") (set_help_page ScrollableMarkdownModel.default m).

Definition init_page (page : PageId.t) (m : Model) : Model * list Cmd.t :=
  match page with
  | PageId.TicketList => let r := start_ticket_list_fetch m in (r.1, [r.2])
  | PageId.TicketDetail ticket_id => let r := start_ticket_detail_fetch ticket_id m in (r.1, [r.2])
  | PageId.TicketActivities ticket_id ticket_title =>
      let r := start_activities_fetch ticket_id ticket_title (push_handler TicketActivitiesHandler m) in
      (r.1, [r.2])
  | PageId.TicketBody ticket_id title body =>
      (init_body_model ticket_id title body (push_handler (MarkdownScrollHandler "ticket_body") m), [])
  | PageId.FlowList => let r := start_flow_list_fetch m in (r.1, [r.2])
  | PageId.FlowDetail ticket_id => init_flow_detail ticket_id m
  | PageId.WorkerList => let r := start_worker_list_fetch m in (r.1, [r.2])
  | PageId.HelpPage => (init_help_page m, [])
  end.

(** The model, and how many input handlers to pop. *)
Definition teardown_page (page : PageId.t) (m : Model) : Model * nat :=
  match page with
  | PageId.TicketActivities _ _ => (set_ticket_activities None m, 1)
  | PageId.TicketBody _ _ _ => (set_ticket_body None m, 1)
  | PageId.FlowDetail _ => (set_flow_detail None m, 0)
  | PageId.HelpPage =>
      (set_help_page (ScrollableMarkdownModel.mk 0 (ScrollableMarkdownModel.last_body_height (help_page m)) 0) m, 1)
  | _ => (m, 0)
  end.
(** A teardown and the pops it asks for. *)
Definition leave_page (page : PageId.t) (m : Model) : Model :=
  let r := teardown_page page m in pop_handlers r.2 r.1.

(** ** Navigation *)

Module Nav.
Import NavigationModel.
Abbreviation moved := (option (t * Model * list Cmd.t)).

Definition set_stack (stack : list PageId.t) (n : t) : t :=
  mk (active_tab n) (<[active_tab n := stack]> (tab_stacks n)).
Definition init_current (n : t) (m : Model) : moved :=
  page ← current_page n; let r := init_page page m in Some (n, r.1, r.2).

Definition push (page : PageId.t) (n : t) (m : Model) : moved :=
  stack ← tab_stacks n !! active_tab n; init_current (set_stack (stack ++ [page]) n) m.

Definition pop (n : t) (m : Model) : moved :=
  stack ← tab_stacks n !! active_tab n;
  if length stack <=? 1 then Some (n, m, [])
  else popped ← last stack; init_current (set_stack (removelast stack) n) (leave_page popped m).

(** The pages above the root, from the top. *)
Definition leave_all (pages : list PageId.t) (m : Model) : Model := foldl (λ m page, leave_page page m) m pages.
Definition pop_to_root (n : t) (m : Model) : moved :=
  stack ← tab_stacks n !! active_tab n;
  let m := leave_all (rev (tail stack)) m in
  root ← head stack;
  init_current (set_stack (take 1 stack) n) (leave_page root m).

Definition switch_tab (target : TabId.t) (n : t) (m : Model) : moved :=
  if bool_decide (active_tab n = target) then pop_to_root n m
  else
    stack ← tab_stacks n !! active_tab n;
    old_root ← head stack;
    init_current (mk target (tab_stacks n)) (leave_page old_root m).

Definition goto (page : PageId.t) (n : t) (m : Model) : moved :=
  current ← current_page n;
  if bool_decide (current = page) then Some (n, m, []) else push page n m.
End Nav.

(** [std::mem::replace(&mut model.navigation_model, initial())] around an operation. *)
Definition navigating (f : NavigationModel.t → Model → Nav.moved) (m : Model) : outcome :=
  r ← f (navigation_model m) (set_navigation_model NavigationModel.initial m);
  Some (set_navigation_model r.1.1 r.1.2, r.2).

(** [handle_global_nav] *)
Definition handle_global_nav (msg : NavMsg.t) (m : Model) : outcome :=
  navigating (λ nav m,
    match msg with
    | NavMsg.TabSwitch tab => Nav.switch_tab tab nav m
    | NavMsg.TabNext => Nav.switch_tab (TabId.next (NavigationModel.active_tab nav)) nav m
    | NavMsg.Push page => Nav.push page nav m
    | NavMsg.Pop => Nav.pop nav m
    | NavMsg.Goto page => Nav.goto page nav m
    | _ => Some (nav, m, [])
    end) m.

(** ** Parts without calls of [update] *)

(** The activities page. *)
Module Activities.
Import TicketActivitiesModel.
Definition page_activity_count (am : t) : nat :=
  let total := count am in
  let start := current_page am * page_size am in
  if total <=? start then 0 else Nat.min (start + page_size am) total - start.
Definition activities_total_pages (am : t) : nat :=
  let total := count am in
  if (total =? 0) || (page_size am =? 0) then 1 else div_ceil total (page_size am).
Definition activities_fetch_cmd (am : t) : Cmd.t :=
  Cmd.Fetch (FetchCmd.Activities (ticket_id am)
    (if author_index am =? 0 then None else authors am !! author_index am)).
Definition activities_navigate (delta : Z) (am : t) : t :=
  if (0 <? delta)%Z then
    let page_count := page_activity_count am in
    if (0 <? page_count) && (selected_row am <? page_count - 1) then with_row (S (selected_row am)) am else am
  else if 0 <? selected_row am then with_row (selected_row am - 1) am else am.
Definition activities_page_right (am : t) : t :=
  if current_page am + 1 <? activities_total_pages am then with_page (current_page am + 1) am else am.
Definition activities_page_left (am : t) : t :=
  if 0 <? current_page am then with_page (current_page am - 1) am else am.
Definition activities_cycle_filter (am : t) : option (t * Cmd.t) :=
  if length (authors am) <=? 1 then None
  else
    let am := with_data Loading (with_page 0 (with_author ((author_index am + 1) mod length (authors am)) am)) in
    Some (am, activities_fetch_cmd am).
Definition activities_refresh (am : t) : t * Cmd.t :=
  let am := with_data Loading am in (am, activities_fetch_cmd am).

(** [ticket_activities.rs]: the authors and the selection after a load. *)
Fixpoint add_authors (seen : list string) (l : list ActivityEntry.t) : list string :=
  match l with
  | [] => seen
  | e :: l =>
      let a := ActivityEntry.author e in
      add_authors (if negb (String.eqb a "") && negb (bool_decide (a ∈ seen)) then seen ++ [a] else seen) l
  end.
Definition rebuild_authors (l : list ActivityEntry.t) : list string := add_authors ["all"] l.
Definition clamp_selection (am : t) : t :=
  let page_count := page_activity_count am in
  if page_count =? 0 then with_row 0 am
  else if page_count <=? selected_row am then with_row (page_count - 1) am else am.
End Activities.

Definition handle_activities_nav (msg : NavMsg.t) (m : Model) : outcome :=
  match ticket_activities m with
  | None => Some (m, [])
  | Some am =>
      let keep am := set_ticket_activities (Some am) m in
      match msg with
      | NavMsg.ActivitiesNavigate delta => Some (keep (Activities.activities_navigate delta am), [])
      | NavMsg.ActivitiesPageRight => Some (keep (Activities.activities_page_right am), [])
      | NavMsg.ActivitiesPageLeft => Some (keep (Activities.activities_page_left am), [])
      | NavMsg.ActivitiesCycleFilter =>
          match Activities.activities_cycle_filter am with
          | Some (am, cmd) => Some (keep am, [cmd])
          | None => Some (m, [])
          end
      | NavMsg.ActivitiesRefresh => let r := Activities.activities_refresh am in Some (keep r.1, [r.2])
      | _ => Some (m, [])
      end
  end.

Definition handle_activities_data (ticket_id : string) (result : result (list ActivityEntry.t) string)
    (m : Model) : Model :=
  match ticket_activities m with
  | None => m
  | Some am =>
      if negb (String.eqb (TicketActivitiesModel.ticket_id am) ticket_id) then m
      else
        set_ticket_activities (Some
          match result with
          | Ok activities =>
              let am := if TicketActivitiesModel.author_index am =? 0
                        then TicketActivitiesModel.with_authors (Activities.rebuild_authors activities) am else am in
              Activities.clamp_selection (TicketActivitiesModel.with_data (Loaded activities) am)
          | Err e => TicketActivitiesModel.with_data (LoadError e) am
          end) m
  end.

(** The pages that scroll. *)
Definition scroll_by (msg : NavMsg.t) (s : ScrollableMarkdownModel.t) : ScrollableMarkdownModel.t :=
  match msg with
  | NavMsg.BodyScrollDown => ScrollableMarkdownModel.scroll_down 1 s
  | NavMsg.BodyScrollUp => ScrollableMarkdownModel.scroll_up 1 s
  | NavMsg.BodyPageDown => ScrollableMarkdownModel.page_down s
  | NavMsg.BodyPageUp => ScrollableMarkdownModel.page_up s
  | _ => s
  end.
Definition handle_body_nav (msg : NavMsg.t) (m : Model) : outcome :=
  page ← NavigationModel.current_page (navigation_model m);
  if bool_decide (page = PageId.HelpPage) then Some (set_help_page (scroll_by msg (help_page m)) m, [])
  else
    match ticket_body m with
    | Some bm =>
        Some (set_ticket_body (Some (TicketBodyModel.mk (TicketBodyModel.ticket_id bm) (TicketBodyModel.title bm)
                (TicketBodyModel.body bm) (scroll_by msg (TicketBodyModel.scroll bm)))) m, [])
    | None => Some (m, [])
    end.

(** A page of a list cut on this side. *)
Definition page_slice {A} (page_size : nat) (l : list A) (page : nat) : list A :=
  take page_size (drop (page * page_size) l).
Definition page_count_for {A} (page_size : nat) (l : list A) (page : nat) : nat :=
  let total := length l in
  let start := page * page_size in
  if total <=? start then 0 else Nat.min (start + page_size) total - start.
(** [(row as i32 + delta).max(0).min(count as i32 - 1) as usize] *)
Definition moved_row (row : nat) (delta : Z) (count : nat) : nat :=
  as_usize (Z.min (Z.max (as_i32 (as_i32 (Z.of_nat row) + delta)) 0) (as_i32 (Z.of_nat count) - 1)).

Module Flows.
Definition loaded (m : Model) : list WorkflowInfo.t :=
  match load_data (FlowListModel.data (flow_list m)) with Some d => FlowListData.workflows d | None => [] end.
Definition flow_total_pages (total_count : Z) : nat :=
  if (total_count <=? 0)%Z then 1 else div_ceil (as_usize total_count) FLOW_PAGE_SIZE.
Definition selected_workflow (m : Model) : option WorkflowInfo.t :=
  page_slice FLOW_PAGE_SIZE (loaded m) (FlowListModel.current_page (flow_list m))
    !! FlowListModel.selected_row (flow_list m).
Definition current_page_count (m : Model) : nat :=
  page_count_for FLOW_PAGE_SIZE (loaded m) (FlowListModel.current_page (flow_list m)).
Definition apply_flows_data (data : FlowListData.t) (m : Model) : Model :=
  let count := page_count_for FLOW_PAGE_SIZE (FlowListData.workflows data) (FlowListModel.current_page (flow_list m)) in
  if (0 <? count) && (count <=? FlowListModel.selected_row (flow_list m)) then set_flow_row (count - 1) m else m.
Definition clamp_selection (m : Model) : Model :=
  let count := current_page_count m in
  if count =? 0 then set_flow_row 0 m
  else if count <=? FlowListModel.selected_row (flow_list m) then set_flow_row (count - 1) m else m.
Definition flows_navigate (delta : Z) (m : Model) : Model :=
  let count := current_page_count m in
  if count =? 0 then m else set_flow_row (moved_row (FlowListModel.selected_row (flow_list m)) delta count) m.
Definition flows_page_right (m : Model) : Model :=
  let total_count := match load_data (FlowListModel.data (flow_list m)) with
                     | Some d => FlowListData.total_count d | None => 0%Z end in
  let page := FlowListModel.current_page (flow_list m) in
  if page + 1 <? flow_total_pages total_count then set_flow_page (page + 1) m else m.
Definition flows_page_left (m : Model) : Model :=
  let page := FlowListModel.current_page (flow_list m) in
  if 0 <? page then set_flow_page (page - 1) m else m.
End Flows.

Module Workers.
Definition worker_le (a b : PWorker.t) : Prop := String.le (PWorker.worker_id a) (PWorker.worker_id b).
#[global] Instance worker_le_dec : RelDecision worker_le.
Proof. intros a b. unfold worker_le. apply _. Defined.
Definition sorted_workers (l : list PWorker.t) : list PWorker.t := order_by worker_le l.
Definition loaded (m : Model) : list PWorker.t := default [] (load_data (WorkerListModel.data (worker_list m))).
Definition worker_count (m : Model) : nat := length (loaded m).
Definition total_pages (total : nat) : nat := if total =? 0 then 1 else div_ceil total WORKER_PAGE_SIZE.
Definition selected_worker_id (m : Model) : option string :=
  PWorker.worker_id <$>
    page_slice WORKER_PAGE_SIZE (sorted_workers (loaded m)) (WorkerListModel.current_page (worker_list m))
      !! WorkerListModel.selected_row (worker_list m).
Definition current_page_count (m : Model) : nat :=
  page_count_for WORKER_PAGE_SIZE (loaded m) (WorkerListModel.current_page (worker_list m)).
Definition clamp_selection (m : Model) : Model :=
  let count := current_page_count m in
  if count =? 0 then set_worker_row 0 m
  else if count <=? WorkerListModel.selected_row (worker_list m) then set_worker_row (count - 1) m else m.
Definition workers_navigate (delta : Z) (m : Model) : Model :=
  let count := current_page_count m in
  if count =? 0 then m else set_worker_row (moved_row (WorkerListModel.selected_row (worker_list m)) delta count) m.
Definition workers_page_right (m : Model) : Model :=
  let page := WorkerListModel.current_page (worker_list m) in
  if page + 1 <? total_pages (worker_count m) then set_worker_page (page + 1) m else m.
Definition workers_page_left (m : Model) : Model :=
  let page := WorkerListModel.current_page (worker_list m) in
  if 0 <? page then set_worker_page (page - 1) m else m.
(** The worker is taken off the list before the server has stopped it. *)
Definition handle_kill (m : Model) : Model * Cmd.t :=
  match selected_worker_id m with
  | None => (m, Cmd.None_)
  | Some worker_id =>
      let m := match WorkerListModel.data (worker_list m) with
               | Loaded l => set_worker_data (Loaded (filter (λ w, PWorker.worker_id w ≠ worker_id) l)) m
               | _ => m
               end in
      (clamp_selection m, Cmd.StopWorker worker_id)
  end.
Definition handle_goto (m : Model) : Model :=
  match selected_worker_id m with
  | None => m
  | Some worker_id =>
      open_overlay (ActiveOverlay.GotoMenu
        [GotoTarget.mk "Ticket Details" "ticket" worker_id; GotoTarget.mk "Flow Details" "flow" worker_id] 0) m
  end.
End Workers.

Definition handle_workers_nav (msg : NavMsg.t) (m : Model) : outcome :=
  match msg with
  | NavMsg.WorkersNavigate delta => Some (Workers.workers_navigate delta m, [])
  | NavMsg.WorkersPageRight => Some (Workers.workers_page_right m, [])
  | NavMsg.WorkersPageLeft => Some (Workers.workers_page_left m, [])
  | NavMsg.WorkersRefresh =>
      Some (set_worker_list (WorkerListModel.mk Loading 0 0) m, [Cmd.Fetch FetchCmd.Workers])
  | NavMsg.WorkersKill => let r := Workers.handle_kill m in Some (r.1, [r.2])
  | NavMsg.WorkersGoto => Some (Workers.handle_goto m, [])
  | _ => Some (m, [])
  end.

(** [start_create_flow], [start_create_child_flow] *)
Definition start_create_flow (m : Model) : outcome := Some (m, [Cmd.SpawnEditor None None None]).
Definition start_create_child_flow (m : Model) : outcome :=
  match ticket_detail m with
  | None => Some (m, [])
  | Some detail =>
      let project := match TicketDetailModel.parent detail with Some t => PTicket.project t | None => "" end in
      Some (m, [Cmd.SpawnEditor (Some (TicketDetailModel.ticket_id detail))
                  (if String.eqb project "" then None else Some project) None])
  end.
