(* ===== verification/UiHandlers.v ===== *)
(** * The terminal interface: the handlers that send messages

    The handlers of [urui/src/update.rs] and of [urui/src/pages] that call [update],
    with the flush of the throttle.  In the code [update] and the handlers call one
    another; here a handler takes the function it calls, and [UiUpdate] ties the knot.
    One update happens at one time, [now]. *)

From S2P Require Import Prelude RustStd TextLemmas Model TicketService UiModel UiState UiKeys CreateTicket UiPages.
Local Open Scope stdpp_scope.

Section Update.
Context `{UiEnv} (now : Z).

(** ** Without calls *)

Definition handle_banner_show (message : string) (variant : BannerVariant) (m : Model) : outcome :=
  Some (set_banner (Some (BannerModel.mk message variant now)) m, []).
Definition handle_banner_dismiss (m : Model) : outcome := Some (set_banner None m, []).
Definition handle_status_show (text : string) (m : Model) : outcome := Some (set_status (Some text) m, []).
Definition handle_status_clear (m : Model) : outcome := Some (set_status None m, []).

(** [fetch_cmd_for_tab], [invalidate_tab] *)
Definition fetch_cmd_for_tab (tab : TabId.t) (m : Model) : Cmd.t :=
  match tab with
  | TabId.Tickets =>
      Cmd.batch
        (build_ticket_list_fetch_cmd m ::
         match ticket_detail m with
         | Some detail =>
             [Cmd.Fetch (FetchCmd.TicketDetail (TicketDetailModel.ticket_id detail) None None None);
              Cmd.Fetch (FetchCmd.Activities (TicketDetailModel.ticket_id detail) None)]
         | None => []
         end)
  | TabId.Flows => build_flow_list_fetch_cmd m
  | TabId.Workers => Cmd.Fetch FetchCmd.Workers
  | TabId.Help => Cmd.None_
  end.
Definition invalidate_tab (tab : TabId.t) (m : Model) : Model :=
  match tab with
  | TabId.Tickets => set_ticket_data NotLoaded m
  | TabId.Flows => set_flow_data NotLoaded m
  | TabId.Workers => set_worker_data NotLoaded m
  | TabId.Help => m
  end.
(** The loop over the dirty tabs. *)
Fixpoint refresh_tabs (active_tab : TabId.t) (tabs : list TabId.t) (m : Model) : Model * list Cmd.t :=
  match tabs with
  | [] => (m, [])
  | tab :: tabs =>
      if bool_decide (tab = active_tab) then
        let cmd := fetch_cmd_for_tab tab m in
        let r := refresh_tabs active_tab tabs m in (r.1, cmd :: r.2)
      else refresh_tabs active_tab tabs (invalidate_tab tab m)
  end.
Definition flush_throttle (m : Model) : Model * list Cmd.t :=
  let '(dirty_tabs, workflow_ids, throttle) := UiEventThrottle.flush now (ui_event_throttle m) in
  let m := set_ui_event_throttle throttle m in
  if bool_decide (dirty_tabs = ∅) then (m, [])
  else
    let active_tab := NavigationModel.active_tab (navigation_model m) in
    let r := refresh_tabs active_tab (iter_tabs dirty_tabs) m in
    (r.1, r.2 ++
      (if bool_decide (TabId.Flows ∈ dirty_tabs) && negb (bool_decide (active_tab = TabId.Flows))
       then (λ id, Cmd.Fetch (FetchCmd.WorkflowForNotification id)) <$> iter_ids workflow_ids else [])).
Definition flush_if_due (m : Model) : Model * list Cmd.t :=
  if UiEventThrottle.should_flush now (ui_event_throttle m) then flush_throttle m else (m, []).

Definition handle_tick (m : Model) : outcome :=
  let expired := match banner m with Some b => BannerModel.is_expired now b | None => false end in
  Some (flush_if_due (if expired then set_banner None m else m)).

Definition dirty_tabs_of (item : UiEventItem.t) : list TabId.t :=
  match UiEventItem.entity_type item with
  | "ticket" => [TabId.Tickets; TabId.Flows]
  | "workflow" => [TabId.Flows]
  | "worker" => [TabId.Workers]
  | _ => []
  end.
(** The events that concern the project the interface is scoped to. *)
Definition events_in_scope (project_filter : option string) (items : list UiEventItem.t) : list UiEventItem.t :=
  match project_filter with
  | Some project => filter (λ i, starts_with (project +:+ "-") (UiEventItem.entity_id i) = true) items
  | None => items
  end.
Definition handle_ui_event (items : list UiEventItem.t) (m : Model) : outcome :=
  let items := events_in_scope (project_filter m) items in
  let th := UiEventThrottle.mark_dirty (items ≫= dirty_tabs_of) (ui_event_throttle m) in
  let th := UiEventThrottle.mark_workflow_ids
              (UiEventItem.entity_id <$> filter (λ i, UiEventItem.entity_type i = "workflow") items) th in
  Some (flush_if_due (set_ui_event_throttle th m)).

(** ** With calls of [update] *)

Section Calls.
Variable update : Model → Msg.t → outcome.

(** [let (model, mut cmds) = update(..); cmds.push(cmd)] *)
Definition then_cmds (o : outcome) (cmds : list Cmd.t) : outcome :=
  r ← o; Some (r.1, r.2 ++ cmds).

Definition local_project_dispatch_banner (project_key : string) (m : Model) : outcome :=
  update m (Msg.BannerShow
    ("Project '" +:+ project_key +:+ "' is local (no repo) — tickets cannot be dispatched. "
     +:+ "Use: ur worker launch -m manual -w . -p " +:+ project_key) Error).
Definition reminder_dispatch_banner (ticket_id : string) (m : Model) : outcome :=
  update m (Msg.BannerShow
    ("Ticket '" +:+ ticket_id +:+ "' is a reminder — a manual task and cannot be dispatched.") Error).

(** *** Operations and their results *)

Definition ticket_op_status (op : TicketOpMsg.t) : string :=
  match op with
  | TicketOpMsg.Dispatch ticket_id _ _ => "Dispatching " +:+ ticket_id +:+ "..."
  | TicketOpMsg.DispatchAll ticket_id _ _ => "Dispatching " +:+ ticket_id +:+ "..."
  | TicketOpMsg.Close ticket_id => "Closing " +:+ ticket_id +:+ "..."
  | TicketOpMsg.ForceClose ticket_id => "Force-closing " +:+ ticket_id +:+ "..."
  | TicketOpMsg.SetPriority ticket_id priority => "Setting P" +:+ pretty priority +:+ " on " +:+ ticket_id +:+ "..."
  | TicketOpMsg.SetType ticket_id ticket_type => "Setting type to " +:+ ticket_type +:+ " on " +:+ ticket_id +:+ "..."
  | TicketOpMsg.Create pending => "Creating ticket in " +:+ PendingTicket.project pending +:+ "..."
  | TicketOpMsg.CreateAndDispatch pending _ _ =>
      "Creating and dispatching in " +:+ PendingTicket.project pending +:+ "..."
  | TicketOpMsg.LaunchDesign ticket_id _ _ => "Launching design worker for " +:+ ticket_id +:+ "..."
  | TicketOpMsg.Redrive ticket_id => "Moving " +:+ ticket_id +:+ " to Verify..."
  | TicketOpMsg.Open ticket_id => "Reopening " +:+ ticket_id +:+ "..."
  | TicketOpMsg.SetBranch ticket_id branch =>
      if String.eqb branch "" then "Clearing branch on " +:+ ticket_id +:+ "..."
      else "Setting branch to " +:+ branch +:+ " on " +:+ ticket_id +:+ "..."
  | TicketOpMsg.UpdateFields ticket_id _ _ _ _ _ _ _ _ => "Updating " +:+ ticket_id +:+ "..."
  end.
Definition handle_ticket_op (op : TicketOpMsg.t) (m : Model) : outcome :=
  then_cmds (update m (Msg.StatusShow (ticket_op_status op))) [Cmd.TicketOp op].

(** The result, whether success is silent, and the ticket to retry with. *)
Definition ticket_op_result_parts (msg : TicketOpResultMsg.t)
    : result string string * bool * option PendingTicket.t :=
  match msg with
  | TicketOpResultMsg.Dispatched r => (r, false, None)
  | TicketOpResultMsg.Closed r => (r, false, None)
  | TicketOpResultMsg.ForceClosed r => (r, true, None)
  | TicketOpResultMsg.PrioritySet r => (r, true, None)
  | TicketOpResultMsg.TypeSet r => (r, true, None)
  | TicketOpResultMsg.BranchSet r => (r, false, None)
  | TicketOpResultMsg.Created r pending => (r, false, pending)
  | TicketOpResultMsg.DesignLaunched r => (r, false, None)
  | TicketOpResultMsg.Redriven r => (r, false, None)
  | TicketOpResultMsg.Opened r => (r, false, None)
  | TicketOpResultMsg.Updated r => (r, false, None)
  end.
Definition handle_ticket_op_result (msg : TicketOpResultMsg.t) (m : Model) : outcome :=
  cleared ← update m Msg.StatusClear;
  let m := cleared.1 in
  let '(res, silent_on_success, pending) := ticket_op_result_parts msg in
  match res with
  | Ok message => if silent_on_success : bool then Some (m, []) else update m (Msg.BannerShow message Success)
  | Err message =>
      r ← update m (Msg.BannerShow message Error);
      match pending with
      | Some pending =>
          r' ← update r.1 (Msg.Overlay (OverlayMsg.OpenCreateActionMenu pending));
          Some (r'.1, r.2 ++ r'.2)
      | None => Some r
      end
  end.

Definition show_result (res : result string string) (m : Model) : outcome :=
  cleared ← update m Msg.StatusClear;
  match res with
  | Ok message => update cleared.1 (Msg.BannerShow message Success)
  | Err message => update cleared.1 (Msg.BannerShow message Error)
  end.
Definition flow_op_status (op : FlowOpMsg.t) : string :=
  match op with
  | FlowOpMsg.Cancel ticket_id => "Cancelling workflow for " +:+ ticket_id +:+ "..."
  | FlowOpMsg.Approve ticket_id => "Approving workflow for " +:+ ticket_id +:+ "..."
  | FlowOpMsg.Stall ticket_id => "Stalling workflow for " +:+ ticket_id +:+ "..."
  end.
Definition handle_flow_op (op : FlowOpMsg.t) (m : Model) : outcome :=
  then_cmds (update m (Msg.StatusShow (flow_op_status op))) [Cmd.FlowOp op].
Definition handle_flow_op_result (msg : FlowOpResultMsg.t) (m : Model) : outcome :=
  show_result match msg with
    | FlowOpResultMsg.Cancelled r => r | FlowOpResultMsg.Approved r => r | FlowOpResultMsg.Stalled r => r
    end m.
Definition worker_op_status (op : WorkerOpMsg.t) : string :=
  match op with WorkerOpMsg.Kill worker_id => "Killing worker " +:+ worker_id +:+ "..." end.
Definition handle_worker_op (op : WorkerOpMsg.t) (m : Model) : outcome :=
  then_cmds (update m (Msg.StatusShow (worker_op_status op))) [Cmd.WorkerOp op].
Definition handle_worker_op_result (msg : WorkerOpResultMsg.t) (m : Model) : outcome :=
  show_result match msg with WorkerOpResultMsg.Killed r => r end m.

(** *** The page handlers *)

Definition goto_targets (ticket_label : string) (ticket_id : string) : list GotoTarget.t :=
  [GotoTarget.mk ticket_label "ticket" ticket_id; GotoTarget.mk "Worker" "worker" ticket_id].
(** [build_ticket_goto_targets], [build_child_goto_targets] *)
Definition build_ticket_goto_targets (ticket_id : string) : list GotoTarget.t :=
  [GotoTarget.mk "Ticket Detail" "ticket" ticket_id; GotoTarget.mk "Flow Details" "flow" ticket_id;
   GotoTarget.mk "Worker" "worker" ticket_id].
(** [build_flow_goto_targets], [build_flow_detail_goto_targets] *)
Definition build_flow_goto_targets (ticket_id : string) : list GotoTarget.t := goto_targets "Ticket Details" ticket_id.

(** [if let Some(x) = .. { .. } else { (model, vec![]) }] *)
Definition if_some {A} (o : option A) (m : Model) (f : A → outcome) : outcome :=
  match o with Some a => f a | None => Some (m, []) end.

Definition ask_priority (t : PTicket.t) (m : Model) : outcome :=
  update m (Msg.Overlay (OverlayMsg.OpenPriorityPicker (PTicket.id t) (PTicket.priority t))).
Definition ask_type (t : PTicket.t) (m : Model) : outcome :=
  update m (Msg.Overlay (OverlayMsg.OpenTypeMenu (PTicket.id t) (PTicket.ticket_type t))).
(** The subtraction wraps, as in a release build; with overflow checks it would panic. *)
Definition close_or_ask (t : PTicket.t) (m : Model) : outcome :=
  let open_children := as_i32 (PTicket.children_total t - PTicket.children_completed t) in
  if (0 <? open_children)%Z
  then update m (Msg.Overlay (OverlayMsg.OpenForceCloseConfirm (PTicket.id t) open_children))
  else update m (Msg.TicketOp (TicketOpMsg.Close (PTicket.id t))).
Definition dispatch_by_type (t : PTicket.t) (m : Model) : outcome :=
  update m (Msg.TicketOp
    (if String.eqb (PTicket.ticket_type t) "design"
     then TicketOpMsg.LaunchDesign (PTicket.id t) (PTicket.project t) ""
     else TicketOpMsg.Dispatch (PTicket.id t) (PTicket.project t) "")).
Definition open_goto (targets : list GotoTarget.t) (m : Model) : outcome :=
  update m (Msg.Overlay (OverlayMsg.OpenGotoMenu targets)).

Definition selected_listed (m : Model) : option PTicket.t :=
  TicketTableModel.selected_ticket (TicketListModel.table (ticket_list m)).

(** [tickets_list.rs] *)
Definition tickets_dispatch (m : Model) : outcome :=
  if_some (selected_listed m) m (λ t,
    if dispatch_is_blocked_by_locality (PTicket.project t) m
    then local_project_dispatch_banner (PTicket.project t) m
    else if String.eqb (PTicket.ticket_type t) "reminder" then reminder_dispatch_banner (PTicket.id t) m
    else dispatch_by_type t m).
Definition tickets_select (m : Model) : outcome :=
  if_some (selected_listed m) m (λ t, navigating (Nav.push (PageId.TicketDetail (PTicket.id t))) m).
Definition handle_ticket_table_nav (msg : NavMsg.t) (m : Model) : outcome :=
  let table := TicketListModel.table (ticket_list m) in
  let paged (r : bool * TicketTableModel.t) :=
    if r.1 then let m := set_ticket_table r.2 m in Some (m, [build_ticket_list_fetch_cmd m]) else Some (m, []) in
  match msg with
  | NavMsg.TicketTableNavigate delta =>
      Some (set_ticket_table (if (0 <? delta)%Z then TicketTableModel.navigate_down table
                              else TicketTableModel.navigate_up table) m, [])
  | NavMsg.TicketTablePageRight => paged (TicketTableModel.page_right table)
  | NavMsg.TicketTablePageLeft => paged (TicketTableModel.page_left table)
  | NavMsg.TicketListRefresh => let m := set_ticket_data Loading m in Some (m, [build_ticket_list_fetch_cmd m])
  | NavMsg.TicketTableSelect => tickets_select m
  | NavMsg.TicketListPriority => if_some (selected_listed m) m (λ t, ask_priority t m)
  | NavMsg.TicketListType => if_some (selected_listed m) m (λ t, ask_type t m)
  | NavMsg.TicketListClose => if_some (selected_listed m) m (λ t, close_or_ask t m)
  | NavMsg.TicketListOpen =>
      if_some (selected_listed m) m (λ t, update m (Msg.TicketOp (TicketOpMsg.Open (PTicket.id t))))
  | NavMsg.TicketListDispatch => tickets_dispatch m
  | NavMsg.TicketListGoto =>
      if_some (selected_listed m) m (λ t, open_goto (build_ticket_goto_targets (PTicket.id t)) m)
  | NavMsg.TicketListCreate => start_create_flow m
  | NavMsg.TicketListEdit => if_some (selected_listed m) m (λ t, Some (m, [Cmd.EditTicket (PTicket.id t)]))
  | _ => Some (m, [])
  end.

(** [ticket_detail.rs] *)
Definition selected_child (m : Model) : option PTicket.t :=
  d ← ticket_detail m; TicketTableModel.selected_ticket (TicketDetailModel.children_table d).
Definition set_detail (d : TicketDetailModel.t) (m : Model) : Model := set_ticket_detail (Some d) m.

Definition handle_detail_select (m : Model) : outcome :=
  if_some (selected_child m) m (λ t, navigating (Nav.push (PageId.TicketDetail (PTicket.id t))) m).
(** The status says reopening; the command is the one that closes. *)
Definition handle_detail_open (m : Model) : outcome :=
  if_some (selected_child m) m (λ t,
    r ← update m (Msg.StatusShow ("Reopening " +:+ PTicket.id t +:+ "..."));
    Some (r.1, [Cmd.TicketOp (TicketOpMsg.Close (PTicket.id t))])).
Definition handle_detail_dispatch (m : Model) : outcome :=
  if_some (selected_child m) m (λ t,
    if dispatch_is_blocked_by_locality (PTicket.project t) m
    then local_project_dispatch_banner (PTicket.project t) m
    else dispatch_by_type t m).
Definition handle_detail_dispatch_all (m : Model) : outcome :=
  if_some (ticket_detail m) m (λ d,
    let project_key := match TicketDetailModel.parent d with Some t => PTicket.project t | None => "" end in
    if dispatch_is_blocked_by_locality project_key m then local_project_dispatch_banner project_key m
    else update m (Msg.TicketOp (TicketOpMsg.DispatchAll (TicketDetailModel.ticket_id d) project_key ""))).
Definition handle_toggle_closed (m : Model) : outcome :=
  let m :=
    match ticket_detail m with
    | Some d =>
        set_detail (TicketDetailModel.mk (TicketDetailModel.ticket_id d) Loading (TicketDetailModel.activities d)
          (TicketTableModel.with_page 0 0 (TicketDetailModel.children_table d))
          (negb (TicketDetailModel.show_closed d))) m
    | None => m
    end in
  Some (m, [build_detail_fetch_cmd m]).
(** The parent ticket of the page, once it is loaded. *)
Definition loaded_parent (m : Model) : option PTicket.t := d ← ticket_detail m; TicketDetailModel.parent d.
Definition handle_open_description (m : Model) : outcome :=
  if_some (loaded_parent m) m (λ t,
    navigating (Nav.push (PageId.TicketBody (PTicket.id t) (PTicket.title t) (PTicket.body t))) m).
Definition handle_open_activities (m : Model) : outcome :=
  if_some (loaded_parent m) m (λ t,
    navigating (Nav.push (PageId.TicketActivities (PTicket.id t) (PTicket.title t))) m).
Definition handle_edit_parent (m : Model) : outcome :=
  if_some (ticket_detail m) m (λ d, Some (m, [Cmd.EditTicket (TicketDetailModel.ticket_id d)])).
Definition handle_detail_branch (m : Model) : outcome :=
  if_some (selected_child m) m (λ t,
    update m (Msg.Overlay (OverlayMsg.OpenBranchInput (PTicket.id t) (PTicket.branch t)))).

Definition handle_ticket_detail_nav (msg : NavMsg.t) (m : Model) : outcome :=
  let on_table (f : TicketTableModel.t → TicketTableModel.t) :=
    match ticket_detail m with
    | Some d => set_detail (TicketDetailModel.with_table (f (TicketDetailModel.children_table d)) d) m
    | None => m
    end in
  let paged (f : TicketTableModel.t → bool * TicketTableModel.t) :=
    match ticket_detail m with
    | Some d =>
        let r := f (TicketDetailModel.children_table d) in
        if r.1 then let m := set_detail (TicketDetailModel.with_table r.2 d) m in
                    Some (m, [build_detail_fetch_cmd m])
        else Some (m, [])
    | None => Some (m, [])
    end in
  match msg with
  | NavMsg.TicketDetailNavigate delta =>
      Some (on_table (if (0 <? delta)%Z then TicketTableModel.navigate_down else TicketTableModel.navigate_up), [])
  | NavMsg.TicketDetailPageRight => paged TicketTableModel.page_right
  | NavMsg.TicketDetailPageLeft => paged TicketTableModel.page_left
  | NavMsg.TicketDetailRefresh =>
      let m := match ticket_detail m with
               | Some d => set_detail (TicketDetailModel.with_data Loading d) m
               | None => m
               end in
      Some (m, [build_detail_fetch_cmd m])
  | NavMsg.TicketDetailSelect => handle_detail_select m
  | NavMsg.TicketDetailPriority => if_some (selected_child m) m (λ t, ask_priority t m)
  | NavMsg.TicketDetailType => if_some (selected_child m) m (λ t, ask_type t m)
  | NavMsg.TicketDetailClose => if_some (selected_child m) m (λ t, close_or_ask t m)
  | NavMsg.TicketDetailOpen => handle_detail_open m
  | NavMsg.TicketDetailDispatch => handle_detail_dispatch m
  | NavMsg.TicketDetailDispatchAll => handle_detail_dispatch_all m
  | NavMsg.TicketDetailRedrive =>
      if_some (selected_child m) m (λ t, update m (Msg.TicketOp (TicketOpMsg.Redrive (PTicket.id t))))
  | NavMsg.TicketDetailGoto =>
      if_some (selected_child m) m (λ t, open_goto (build_ticket_goto_targets (PTicket.id t)) m)
  | NavMsg.TicketDetailToggleClosed => handle_toggle_closed m
  | NavMsg.TicketDetailOpenDescription => handle_open_description m
  | NavMsg.TicketDetailOpenActivities => handle_open_activities m
  | NavMsg.TicketDetailCreateChild => start_create_child_flow m
  | NavMsg.TicketDetailEdit => handle_edit_parent m
  | NavMsg.TicketDetailBranch => handle_detail_branch m
  | _ => Some (m, [])
  end.

(** [flows_list.rs] *)
Definition flows_select (m : Model) : outcome :=
  if_some (Flows.selected_workflow m) m (λ wf,
    navigating (Nav.push (PageId.FlowDetail (WorkflowInfo.ticket_id wf))) m).
Definition on_flow (op : string → Msg.t) (m : Model) : outcome :=
  if_some (Flows.selected_workflow m) m (λ wf, update m (op (WorkflowInfo.ticket_id wf))).
Definition cancel_msg (id : string) : Msg.t := Msg.FlowOp (FlowOpMsg.Cancel id).
Definition approve_msg (id : string) : Msg.t := Msg.FlowOp (FlowOpMsg.Approve id).
Definition stall_msg (id : string) : Msg.t := Msg.FlowOp (FlowOpMsg.Stall id).
Definition redrive_msg (id : string) : Msg.t := Msg.TicketOp (TicketOpMsg.Redrive id).
Definition flow_goto_msg (id : string) : Msg.t := Msg.Overlay (OverlayMsg.OpenGotoMenu (build_flow_goto_targets id)).
Definition handle_flows_nav (msg : NavMsg.t) (m : Model) : outcome :=
  match msg with
  | NavMsg.FlowsNavigate delta => Some (Flows.flows_navigate delta m, [])
  | NavMsg.FlowsPageRight => Some (Flows.flows_page_right m, [])
  | NavMsg.FlowsPageLeft => Some (Flows.flows_page_left m, [])
  | NavMsg.FlowsRefresh => let m := set_flow_data Loading m in Some (m, [build_flow_list_fetch_cmd m])
  | NavMsg.FlowsSelect => flows_select m
  | NavMsg.FlowsCancel => on_flow cancel_msg m
  | NavMsg.FlowsApprove => on_flow approve_msg m
  | NavMsg.FlowsStall => on_flow stall_msg m
  | NavMsg.FlowsRedrive => on_flow redrive_msg m
  | NavMsg.FlowsGoto => on_flow flow_goto_msg m
  | _ => Some (m, [])
  end.

(** [flow_detail.rs] *)
Definition on_flow_detail (op : string → Msg.t) (m : Model) : outcome :=
  if_some (flow_detail m) m (λ d, update m (op (FlowDetailModel.ticket_id d))).
Definition handle_flow_detail_nav (msg : NavMsg.t) (m : Model) : outcome :=
  match msg with
  | NavMsg.FlowDetailCancel => on_flow_detail cancel_msg m
  | NavMsg.FlowDetailApprove => on_flow_detail approve_msg m
  | NavMsg.FlowDetailStall => on_flow_detail stall_msg m
  | NavMsg.FlowDetailRedrive => on_flow_detail redrive_msg m
  | NavMsg.FlowDetailGoto => on_flow_detail flow_goto_msg m
  | _ => Some (m, [])
  end.

(** [dispatch_page_nav]: the messages it names for each page; the rest are global. *)
Definition dispatch_page_nav (msg : NavMsg.t) (m : Model) : outcome :=
  match msg with
  | NavMsg.ActivitiesNavigate _ | NavMsg.ActivitiesPageRight | NavMsg.ActivitiesPageLeft
  | NavMsg.ActivitiesCycleFilter | NavMsg.ActivitiesRefresh => handle_activities_nav msg m
  | NavMsg.BodyScrollDown | NavMsg.BodyScrollUp | NavMsg.BodyPageDown | NavMsg.BodyPageUp =>
      handle_body_nav msg m
  | NavMsg.TicketTableNavigate _ | NavMsg.TicketTablePageRight | NavMsg.TicketTablePageLeft
  | NavMsg.TicketTableSelect | NavMsg.TicketListRefresh | NavMsg.TicketListPriority
  | NavMsg.TicketListClose | NavMsg.TicketListOpen | NavMsg.TicketListDispatch | NavMsg.TicketListGoto
  | NavMsg.TicketListCreate | NavMsg.TicketListEdit | NavMsg.TicketListType => handle_ticket_table_nav msg m
  | NavMsg.TicketDetailNavigate _ | NavMsg.TicketDetailPageRight | NavMsg.TicketDetailPageLeft
  | NavMsg.TicketDetailSelect | NavMsg.TicketDetailRefresh | NavMsg.TicketDetailPriority
  | NavMsg.TicketDetailClose | NavMsg.TicketDetailOpen | NavMsg.TicketDetailDispatch
  | NavMsg.TicketDetailDispatchAll | NavMsg.TicketDetailRedrive | NavMsg.TicketDetailGoto
  | NavMsg.TicketDetailToggleClosed | NavMsg.TicketDetailOpenDescription
  | NavMsg.TicketDetailOpenActivities | NavMsg.TicketDetailCreateChild | NavMsg.TicketDetailEdit
  | NavMsg.TicketDetailType => handle_ticket_detail_nav msg m
  | NavMsg.FlowsNavigate _ | NavMsg.FlowsPageRight | NavMsg.FlowsPageLeft | NavMsg.FlowsSelect
  | NavMsg.FlowsRefresh | NavMsg.FlowsCancel | NavMsg.FlowsApprove | NavMsg.FlowsStall
  | NavMsg.FlowsRedrive | NavMsg.FlowsGoto => handle_flows_nav msg m
  | NavMsg.FlowDetailCancel | NavMsg.FlowDetailApprove | NavMsg.FlowDetailStall
  | NavMsg.FlowDetailRedrive | NavMsg.FlowDetailGoto => handle_flow_detail_nav msg m
  | NavMsg.WorkersNavigate _ | NavMsg.WorkersPageRight | NavMsg.WorkersPageLeft | NavMsg.WorkersRefresh
  | NavMsg.WorkersKill | NavMsg.WorkersGoto => handle_workers_nav msg m
  | _ => handle_global_nav msg m
  end.
End Calls.
End Update.
