(* ===== verification/UiOverlay.v ===== *)
(** * The terminal interface: overlays

    [urui/src/overlay_update.rs] with the helpers of [urui/src/components]: the modal
    menus and inputs.  As in [UiHandlers] a handler takes the [update] it calls; a call
    of [handle_overlay] goes through it. *)

From S2P Require Import Prelude RustStd TextLemmas Model TicketService UiModel UiState UiKeys CreateTicket UiPages UiHandlers.
Local Open Scope stdpp_scope.

(** ** What the menus offer *)

Definition PRIORITIES : list (Z * string) :=
  [(0, "Critical"); (1, "High"); (2, "Medium"); (3, "Normal"); (4, "Backlog")]%Z.
Definition TICKET_TYPES : list (string * string) :=
  [("code", "Code"); ("design", "Design"); ("reminder", "Reminder")].
Definition CATEGORIES : list FilterCategory := [FilterStatus; FilterPriority; FilterProject; ShowChildren].
Definition STATUS_OPTIONS : list string := ["open"; "in_progress"; "closed"].
Definition PRIORITY_OPTIONS : list Z := [0; 1; 2; 3; 4]%Z.
Definition ACTIONS : list (CreateAction * string) :=
  [(Create, "Create"); (Dispatch, "Create & Dispatch"); (Edit, "Edit"); (Abandon, "Abandon")].
Definition LIGHT_THEMES : list string :=
  ["autumn"; "bumblebee"; "caramellatte"; "cmyk"; "corporate"; "cupcake"; "cyberpunk"; "emerald"; "fantasy";
   "garden"; "lemonade"; "light"; "lofi"; "pastel"; "retro"; "silk"; "valentine"; "winter"; "wireframe"; "acid"].

(** [iter().position(p)] *)
Fixpoint position {A} (p : A → bool) (l : list A) : option nat :=
  match l with
  | [] => None
  | x :: l => if p x then Some 0 else S <$> position p l
  end.
Definition priority_to_cursor (priority : Z) : nat := default 0 (position (λ p, Z.eqb p.1 priority) PRIORITIES).
Definition cursor_to_priority (cursor : nat) : Z := default 0%Z (fst <$> PRIORITIES !! cursor).
Definition type_to_cursor (ticket_type : string) : nat :=
  default 0 (position (λ t, String.eqb t.1 ticket_type) TICKET_TYPES).
Definition cursor_to_type (cursor : nat) : string := default "code" (fst <$> TICKET_TYPES !! cursor).
Definition action_at (index : nat) : option CreateAction := fst <$> ACTIONS !! index.
Definition resolve_goto_target (targets : list GotoTarget.t) (cursor : nat) : option GotoTarget.t :=
  targets !! cursor.
(** [toggle_vec] *)
Definition toggle_vec {A} `{EqDecision A} (l : list A) (value : A) : list A :=
  match position (λ v, bool_decide (v = value)) l with
  | Some pos => delete pos l
  | None => l ++ [value]
  end.
Definition filter_submenu_count (cat : FilterCategory) : nat :=
  match cat with
  | FilterStatus => length STATUS_OPTIONS
  | FilterPriority => length PRIORITY_OPTIONS
  | FilterProject | ShowChildren => 0
  end.

(** A cursor that stops at both ends. *)
Definition step_cursor (delta : Z) (count cursor : nat) : nat :=
  if (0 <? delta)%Z && (0 <? count) && (cursor <? count - 1) then S cursor
  else if (delta <? 0)%Z && (0 <? cursor) then cursor - 1 else cursor.

(** [String::pop]: without the last character. *)
Fixpoint char_start (s : string) (i : nat) : nat :=
  match i with
  | 0 => 0
  | S j => if is_char_boundary s j then j else char_start s j
  end.
Definition pop_char (s : string) : string := str_take (char_start s (String.length s)) s.

(** ** Filters *)

Definition set_filters (statuses : list string) (priorities : list Z) (show_children : bool) (m : Model) : Model :=
  set_ticket_filters (TicketFilters.mk statuses priorities (TicketFilters.projects (ticket_filters m)) show_children) m.
(** [None] is the panic of an index out of range. *)
Definition toggle_filter_item (cat : FilterCategory) (index : nat) (m : Model) : option Model :=
  let f := ticket_filters m in
  match cat with
  | FilterStatus =>
      value ← STATUS_OPTIONS !! index;
      Some (set_filters (toggle_vec (TicketFilters.statuses f) value) (TicketFilters.priorities f)
              (TicketFilters.show_children f) m)
  | FilterPriority =>
      value ← PRIORITY_OPTIONS !! index;
      Some (set_filters (TicketFilters.statuses f) (toggle_vec (TicketFilters.priorities f) value)
              (TicketFilters.show_children f) m)
  | FilterProject | ShowChildren => Some m
  end.
Definition handle_filter_navigate (delta : Z) (m : Model) : Model :=
  match active_overlay m with
  | Some (ActiveOverlay.FilterMenu cursor expanded sub_cursor) =>
      open_overlay
        match expanded with
        | Some cat => ActiveOverlay.FilterMenu cursor expanded (step_cursor delta (filter_submenu_count cat) sub_cursor)
        | None => ActiveOverlay.FilterMenu (step_cursor delta (length CATEGORIES) cursor) expanded sub_cursor
        end m
  | _ => m
  end.
Definition handle_filter_activate (m : Model) : option Model :=
  match active_overlay m with
  | Some (ActiveOverlay.FilterMenu cursor expanded sub_cursor) =>
      match expanded with
      | Some cat => toggle_filter_item cat sub_cursor m
      | None =>
          cat ← CATEGORIES !! cursor;
          if bool_decide (cat = ShowChildren) then
            let f := ticket_filters m in
            Some (set_filters (TicketFilters.statuses f) (TicketFilters.priorities f)
                    (negb (TicketFilters.show_children f)) m)
          else Some (open_overlay (ActiveOverlay.FilterMenu cursor (Some cat) 0) m)
      end
  | _ => Some m
  end.
Definition handle_filter_quick_toggle (c : string) (m : Model) : option Model :=
  match active_overlay m with
  | Some (ActiveOverlay.FilterMenu cursor expanded sub_cursor) =>
      let digit := minus_zero c in
      match expanded with
      | None =>
          if (1 <=? digit) && (digit <=? length CATEGORIES)
          then handle_filter_activate (open_overlay (ActiveOverlay.FilterMenu (digit - 1) None sub_cursor) m)
          else Some m
      | Some cat =>
          let index := match cat with
                       | FilterPriority => if digit <=? 4 then Some digit else None
                       | _ => if digit =? 0 then None else Some (digit - 1)
                       end in
          match index with
          | Some index => if index <? filter_submenu_count cat then toggle_filter_item cat index m else Some m
          | None => Some m
          end
      end
  | _ => Some m
  end.

(** ** Settings *)

Definition build_settings_state `{UiEnv} (custom_theme_names : list string) : ActiveOverlay.t :=
  ActiveOverlay.Settings TopLevel 0 0 [0; 0; 0]
    (filter (λ n, n ∈ LIGHT_THEMES) builtin_theme_names)
    (filter (λ n, n ∉ LIGHT_THEMES) builtin_theme_names)
    (merge_sort String.le custom_theme_names).
Definition column_items (col : nat) (light dark custom : list string) : option (list string) :=
  match col with 0 => Some light | 1 => Some dark | 2 => Some custom | _ => None end.
Definition column_item_count (col : nat) (light dark custom : list string) : nat :=
  length (default [] (column_items col light dark custom)).
Definition selected_theme_name (col : nat) (cursors : list nat) (light dark custom : list string)
    : option (option string) :=
  match column_items col light dark custom with
  | None => Some None
  | Some items => cursor ← cursors !! col; Some (items !! cursor)
  end.
Definition snap_cursor (cursor item_count : nat) : nat :=
  if item_count =? 0 then 0 else Nat.min cursor (item_count - 1).
(** [column_cursors[col] = f(column_cursors[col])] *)
Definition move_cursor (f : nat → nat) (col : nat) (cursors : list nat) : option (list nat) :=
  c ← cursors !! col; Some (<[col := f c]> cursors).
(** The active column and the cursors after a move. *)
Definition settings_move (direction : SettingsDirection) (col : nat) (cursors : list nat)
    (light dark custom : list string) : option (nat * list nat) :=
  let count c := column_item_count c light dark custom in
  match direction with
  | DirLeft =>
      if 0 <? col then cs ← move_cursor (λ c, snap_cursor c (count (col - 1))) (col - 1) cursors; Some (col - 1, cs)
      else Some (col, cursors)
  | DirRight =>
      if col <? 2 then cs ← move_cursor (λ c, snap_cursor c (count (S col))) (S col) cursors; Some (S col, cs)
      else Some (col, cursors)
  | DirDown =>
      let n := count col in
      if 0 <? n then
        c ← cursors !! col;
        Some (col, if c <? n - 1 then <[col := S c]> cursors else cursors)
      else Some (col, cursors)
  | DirUp =>
      c ← cursors !! col;
      Some (col, if 0 <? c then <[col := c - 1]> cursors else cursors)
  end.
Definition handle_settings_navigate (direction : SettingsDirection) (m : Model) : option Model :=
  match active_overlay m with
  | Some (ActiveOverlay.Settings ThemePicker top col cursors light dark custom) =>
      r ← settings_move direction col cursors light dark custom;
      Some (open_overlay (ActiveOverlay.Settings ThemePicker top r.1 r.2 light dark custom) m)
  | _ => Some m
  end.
Definition handle_settings_esc (m : Model) : Model :=
  match active_overlay m with
  | Some (ActiveOverlay.Settings ThemePicker top col cursors light dark custom) =>
      open_overlay (ActiveOverlay.Settings TopLevel top col cursors light dark custom) m
  | _ => close_overlay m
  end.

(** ** Messages *)

Section Overlay.
Context `{UiEnv}.
Variable update : Model → Msg.t → outcome.
Abbreviation again msg m := (update m (Msg.Overlay msg)).
Abbreviation stay m := (Some (m, [])).
Abbreviation kept r := (m' ← r; Some (m', [])).

Definition handle_priority_overlay (msg : OverlayMsg.t) (m : Model) : outcome :=
  match msg with
  | OverlayMsg.OpenPriorityPicker ticket_id current_priority =>
      stay (open_overlay (ActiveOverlay.PriorityPicker ticket_id (priority_to_cursor current_priority)) m)
  | OverlayMsg.PriorityPickerNavigate delta =>
      stay match active_overlay m with
           | Some (ActiveOverlay.PriorityPicker ticket_id cursor) =>
               open_overlay (ActiveOverlay.PriorityPicker ticket_id (step_cursor delta (length PRIORITIES) cursor)) m
           | _ => m
           end
  | OverlayMsg.PriorityPickerConfirm =>
      match active_overlay m with
      | Some (ActiveOverlay.PriorityPicker ticket_id cursor) =>
          again (OverlayMsg.PrioritySelected ticket_id (cursor_to_priority cursor)) (close_overlay m)
      | _ => stay m
      end
  | OverlayMsg.PriorityPickerQuickSelect digit =>
      match active_overlay m with
      | Some (ActiveOverlay.PriorityPicker ticket_id _) =>
          again (OverlayMsg.PrioritySelected ticket_id digit) (close_overlay m)
      | _ => stay m
      end
  | OverlayMsg.PrioritySelected ticket_id priority =>
      update m (Msg.TicketOp (TicketOpMsg.SetPriority ticket_id priority))
  | OverlayMsg.PriorityCancelled => stay (close_overlay m)
  | _ => stay m
  end.

Definition handle_type_overlay (msg : OverlayMsg.t) (m : Model) : outcome :=
  match msg with
  | OverlayMsg.OpenTypeMenu ticket_id current_type =>
      stay (open_overlay (ActiveOverlay.TypeMenu ticket_id (type_to_cursor current_type)) m)
  | OverlayMsg.TypeMenuNavigate delta =>
      stay match active_overlay m with
           | Some (ActiveOverlay.TypeMenu ticket_id cursor) =>
               open_overlay (ActiveOverlay.TypeMenu ticket_id (step_cursor delta (length TICKET_TYPES) cursor)) m
           | _ => m
           end
  | OverlayMsg.TypeMenuConfirm =>
      match active_overlay m with
      | Some (ActiveOverlay.TypeMenu ticket_id cursor) =>
          again (OverlayMsg.TypeSelected ticket_id (cursor_to_type cursor)) (close_overlay m)
      | _ => stay m
      end
  | OverlayMsg.TypeMenuQuickSelect index =>
      match active_overlay m with
      | Some (ActiveOverlay.TypeMenu ticket_id _) =>
          if index <? length TICKET_TYPES
          then again (OverlayMsg.TypeSelected ticket_id (cursor_to_type index)) (close_overlay m) else stay m
      | _ => stay m
      end
  | OverlayMsg.TypeSelected ticket_id ticket_type =>
      update m (Msg.TicketOp (TicketOpMsg.SetType ticket_id ticket_type))
  | OverlayMsg.TypeMenuCancelled => stay (close_overlay m)
  | _ => stay m
  end.

Definition handle_filter_overlay (msg : OverlayMsg.t) (m : Model) : outcome :=
  match msg with
  | OverlayMsg.OpenFilterMenu => stay (open_overlay (ActiveOverlay.FilterMenu 0 None 0) m)
  | OverlayMsg.FilterMenuNavigate delta => stay (handle_filter_navigate delta m)
  | OverlayMsg.FilterMenuActivate => kept (handle_filter_activate m)
  | OverlayMsg.FilterMenuQuickToggle digit => kept (handle_filter_quick_toggle digit m)
  | OverlayMsg.FilterMenuClosed =>
      stay match active_overlay m with
           | Some (ActiveOverlay.FilterMenu cursor (Some _) sub_cursor) =>
               open_overlay (ActiveOverlay.FilterMenu cursor None sub_cursor) m
           | _ => close_overlay m
           end
  | _ => stay m
  end.

Definition handle_goto_selected (target : GotoTarget.t) (m : Model) : outcome :=
  match GotoTarget.screen target with
  | "ticket" => navigating (Nav.push (PageId.TicketDetail (GotoTarget.id target))) m
  | "flow" =>
      r ← update m (Msg.Nav (NavMsg.TabSwitch TabId.Flows));
      r' ← navigating (Nav.push (PageId.FlowDetail (GotoTarget.id target))) r.1;
      Some (r'.1, r.2 ++ r'.2)
  | "worker" => update m (Msg.Nav (NavMsg.TabSwitch TabId.Workers))
  | _ => stay m
  end.
Definition select_target (targets : list GotoTarget.t) (cursor : nat) (m : Model) : outcome :=
  match resolve_goto_target targets cursor with
  | Some target => again (OverlayMsg.GotoSelected target) (close_overlay m)
  | None => stay m
  end.
Definition handle_goto_overlay (msg : OverlayMsg.t) (m : Model) : outcome :=
  match msg with
  | OverlayMsg.OpenGotoMenu targets => stay (open_overlay (ActiveOverlay.GotoMenu targets 0) m)
  | OverlayMsg.GotoMenuNavigate delta =>
      stay match active_overlay m with
           | Some (ActiveOverlay.GotoMenu targets cursor) =>
               open_overlay (ActiveOverlay.GotoMenu targets (step_cursor delta (length targets) cursor)) m
           | _ => m
           end
  | OverlayMsg.GotoMenuConfirm =>
      match active_overlay m with
      | Some (ActiveOverlay.GotoMenu targets cursor) => select_target targets cursor m
      | _ => stay m
      end
  | OverlayMsg.GotoMenuQuickSelect digit =>
      match active_overlay m with
      | Some (ActiveOverlay.GotoMenu targets _) =>
          if (1 <=? digit) && (digit <=? length targets) then select_target targets (digit - 1) m else stay m
      | _ => stay m
      end
  | OverlayMsg.GotoSelected target => handle_goto_selected target m
  | OverlayMsg.GotoCancelled => stay (close_overlay m)
  | _ => stay m
  end.

Definition handle_force_close_overlay (msg : OverlayMsg.t) (m : Model) : outcome :=
  match msg with
  | OverlayMsg.OpenForceCloseConfirm ticket_id open_children =>
      stay (open_overlay (ActiveOverlay.ForceCloseConfirm ticket_id open_children) m)
  | OverlayMsg.ForceCloseConfirmYes =>
      match active_overlay m with
      | Some (ActiveOverlay.ForceCloseConfirm ticket_id _) =>
          again (OverlayMsg.ForceCloseConfirmed ticket_id) (close_overlay m)
      | _ => stay m
      end
  | OverlayMsg.ForceCloseConfirmed ticket_id => update m (Msg.TicketOp (TicketOpMsg.ForceClose ticket_id))
  | OverlayMsg.ForceCloseCancelled => stay (close_overlay m)
  | _ => stay m
  end.

Definition handle_create_action (action : CreateAction) (pending : PendingTicket.t) (m : Model) : outcome :=
  match action with
  | Create => update m (Msg.TicketOp (TicketOpMsg.Create pending))
  | Dispatch =>
      let project_key := PendingTicket.project pending in
      if dispatch_is_blocked_by_locality project_key m then local_project_dispatch_banner update project_key m
      else update m (Msg.TicketOp (TicketOpMsg.CreateAndDispatch pending project_key ""))
  | Edit =>
      let content := serialize_to_template (PendingTicket.project pending) (PendingTicket.title pending)
                       (PendingTicket.ticket_type pending) (PendingTicket.priority pending)
                       (PendingTicket.branch pending) (PendingTicket.meta pending) (PendingTicket.body pending) in
      Some (m, [Cmd.SpawnEditor (PendingTicket.parent_id pending) (Some (PendingTicket.project pending)) (Some content)])
  | Abandon => stay m
  end.
Definition choose_action (pending : PendingTicket.t) (index : nat) (m : Model) : outcome :=
  match action_at index with
  | Some action => handle_create_action action pending (close_overlay m)
  | None => stay m
  end.
Definition handle_create_action_overlay (msg : OverlayMsg.t) (m : Model) : outcome :=
  match msg with
  | OverlayMsg.OpenCreateActionMenu pending => stay (open_overlay (ActiveOverlay.CreateActionMenu pending 0) m)
  | OverlayMsg.CreateActionNavigate delta =>
      stay match active_overlay m with
           | Some (ActiveOverlay.CreateActionMenu pending cursor) =>
               let count := length ACTIONS in
               open_overlay (ActiveOverlay.CreateActionMenu pending
                 (if (0 <? delta)%Z then (cursor + 1) mod count
                  else if (delta <? 0)%Z then (cursor + count - 1) mod count else cursor)) m
           | _ => m
           end
  | OverlayMsg.CreateActionConfirm =>
      match active_overlay m with
      | Some (ActiveOverlay.CreateActionMenu pending cursor) => choose_action pending cursor m
      | _ => stay m
      end
  | OverlayMsg.CreateActionQuickSelect index =>
      match active_overlay m with
      | Some (ActiveOverlay.CreateActionMenu pending _) => choose_action pending index m
      | _ => stay m
      end
  | OverlayMsg.CreateActionSelected action =>
      stay match action with Abandon => close_overlay m | _ => m end
  | _ => stay m
  end.

Definition handle_project_input_overlay (msg : OverlayMsg.t) (m : Model) : outcome :=
  let on_buffer (f : string → string) :=
    match active_overlay m with
    | Some (ActiveOverlay.ProjectInput buffer) => open_overlay (ActiveOverlay.ProjectInput (f buffer)) m
    | _ => m
    end in
  match msg with
  | OverlayMsg.OpenProjectInput => stay (open_overlay (ActiveOverlay.ProjectInput "") m)
  | OverlayMsg.ProjectInputChar c => stay (on_buffer (λ b, b +:+ c))
  | OverlayMsg.ProjectInputBackspace => stay (on_buffer pop_char)
  | OverlayMsg.ProjectInputSubmitRequest =>
      stay match active_overlay m with Some (ActiveOverlay.ProjectInput _) => close_overlay m | _ => m end
  | OverlayMsg.ProjectInputCancelled => stay (close_overlay m)
  | _ => stay m
  end.

Definition handle_title_input_overlay (msg : OverlayMsg.t) (m : Model) : outcome :=
  let on_buffer (f : string → string) :=
    match active_overlay m with
    | Some (ActiveOverlay.TitleInput buffer) => open_overlay (ActiveOverlay.TitleInput (f buffer)) m
    | _ => m
    end in
  match msg with
  | OverlayMsg.OpenTitleInput => stay (open_overlay (ActiveOverlay.TitleInput "") m)
  | OverlayMsg.TitleInputChar c => stay (on_buffer (λ b, b +:+ c))
  | OverlayMsg.TitleInputBackspace => stay (on_buffer pop_char)
  | OverlayMsg.TitleInputSubmitRequest =>
      stay match active_overlay m with Some (ActiveOverlay.TitleInput _) => close_overlay m | _ => m end
  | OverlayMsg.TitleInputCancelled => stay (close_overlay m)
  | _ => stay m
  end.

Definition handle_branch_input_overlay (msg : OverlayMsg.t) (m : Model) : outcome :=
  let on_buffer (f : string → string) :=
    match active_overlay m with
    | Some (ActiveOverlay.BranchInput buffer ticket_id) =>
        open_overlay (ActiveOverlay.BranchInput (f buffer) ticket_id) m
    | _ => m
    end in
  match msg with
  | OverlayMsg.OpenBranchInput ticket_id current_branch =>
      stay (open_overlay (ActiveOverlay.BranchInput current_branch ticket_id) m)
  | OverlayMsg.BranchInputChar c => stay (on_buffer (λ b, b +:+ c))
  | OverlayMsg.BranchInputBackspace => stay (on_buffer pop_char)
  | OverlayMsg.BranchInputSubmitRequest =>
      match active_overlay m with
      | Some (ActiveOverlay.BranchInput buffer ticket_id) =>
          update (close_overlay m) (Msg.TicketOp (TicketOpMsg.SetBranch ticket_id buffer))
      | _ => stay m
      end
  | OverlayMsg.BranchInputCancelled => stay (close_overlay m)
  | _ => stay m
  end.

Definition handle_settings_activate (m : Model) : outcome :=
  match active_overlay m with
  | Some (ActiveOverlay.Settings TopLevel top col cursors light dark custom) =>
      stay (open_overlay (ActiveOverlay.Settings ThemePicker top col cursors light dark custom) m)
  | Some (ActiveOverlay.Settings ThemePicker top col cursors light dark custom) =>
      selected ← selected_theme_name col cursors light dark custom;
      match selected with
      | Some name => again (OverlayMsg.ThemeSelected name) m
      | None => stay m
      end
  | _ => stay m
  end.
Definition handle_settings_overlay (msg : OverlayMsg.t) (m : Model) : outcome :=
  match msg with
  | OverlayMsg.OpenSettings custom_names =>
      let names := match custom_names with [] => custom_theme_names m | _ => custom_names end in
      stay (open_overlay (build_settings_state names) m)
  | OverlayMsg.SettingsEsc => stay (handle_settings_esc m)
  | OverlayMsg.SettingsNavigate direction => kept (handle_settings_navigate direction m)
  | OverlayMsg.SettingsActivate => handle_settings_activate m
  | OverlayMsg.ThemeSelected name => Some (set_pending_theme_swap (Some name) m, [Cmd.PersistTheme name])
  | OverlayMsg.SettingsClosed => stay (close_overlay m)
  | _ => stay m
  end.

Definition handle_help_overlay (msg : OverlayMsg.t) (m : Model) : outcome :=
  match msg with
  | OverlayMsg.OpenHelp => stay (open_overlay ActiveOverlay.Help m)
  | OverlayMsg.HelpClosed => stay (close_overlay m)
  | _ => stay m
  end.

Definition handle_overlay (msg : OverlayMsg.t) (m : Model) : outcome :=
  match msg with
  | OverlayMsg.Consumed => stay m
  | OverlayMsg.OpenPriorityPicker _ _ | OverlayMsg.PriorityPickerNavigate _ | OverlayMsg.PriorityPickerConfirm
  | OverlayMsg.PriorityPickerQuickSelect _ | OverlayMsg.PrioritySelected _ _ | OverlayMsg.PriorityCancelled =>
      handle_priority_overlay msg m
  | OverlayMsg.OpenTypeMenu _ _ | OverlayMsg.TypeMenuNavigate _ | OverlayMsg.TypeMenuConfirm
  | OverlayMsg.TypeMenuQuickSelect _ | OverlayMsg.TypeSelected _ _ | OverlayMsg.TypeMenuCancelled =>
      handle_type_overlay msg m
  | OverlayMsg.OpenFilterMenu | OverlayMsg.FilterMenuNavigate _ | OverlayMsg.FilterMenuActivate
  | OverlayMsg.FilterMenuQuickToggle _ | OverlayMsg.FilterMenuClosed => handle_filter_overlay msg m
  | OverlayMsg.OpenGotoMenu _ | OverlayMsg.GotoMenuNavigate _ | OverlayMsg.GotoMenuConfirm
  | OverlayMsg.GotoMenuQuickSelect _ | OverlayMsg.GotoSelected _ | OverlayMsg.GotoCancelled =>
      handle_goto_overlay msg m
  | OverlayMsg.OpenForceCloseConfirm _ _ | OverlayMsg.ForceCloseConfirmYes | OverlayMsg.ForceCloseConfirmed _
  | OverlayMsg.ForceCloseCancelled => handle_force_close_overlay msg m
  | OverlayMsg.OpenCreateActionMenu _ | OverlayMsg.CreateActionNavigate _ | OverlayMsg.CreateActionConfirm
  | OverlayMsg.CreateActionQuickSelect _ | OverlayMsg.CreateActionSelected _ => handle_create_action_overlay msg m
  | OverlayMsg.OpenProjectInput | OverlayMsg.ProjectInputChar _ | OverlayMsg.ProjectInputBackspace
  | OverlayMsg.ProjectInputSubmitRequest | OverlayMsg.ProjectInputSubmitted _ | OverlayMsg.ProjectInputCancelled =>
      handle_project_input_overlay msg m
  | OverlayMsg.OpenTitleInput | OverlayMsg.TitleInputChar _ | OverlayMsg.TitleInputBackspace
  | OverlayMsg.TitleInputSubmitRequest | OverlayMsg.TitleInputSubmitted _ | OverlayMsg.TitleInputCancelled =>
      handle_title_input_overlay msg m
  | OverlayMsg.OpenBranchInput _ _ | OverlayMsg.BranchInputChar _ | OverlayMsg.BranchInputBackspace
  | OverlayMsg.BranchInputSubmitRequest | OverlayMsg.BranchInputSubmitted _ _ | OverlayMsg.BranchInputCancelled =>
      handle_branch_input_overlay msg m
  | OverlayMsg.OpenSettings _ | OverlayMsg.SettingsEsc | OverlayMsg.SettingsNavigate _
  | OverlayMsg.SettingsActivate | OverlayMsg.ThemeSelected _ | OverlayMsg.SettingsClosed =>
      handle_settings_overlay msg m
  | OverlayMsg.OpenHelp | OverlayMsg.HelpClosed => handle_help_overlay msg m
  end.
End Overlay.
