(* ===== verification/UiUpdate.v ===== *)
(** * The terminal interface: the update function

    The data and key handlers of [urui/src/update.rs] and [update] itself, with what
    [urui/src/main.rs] does with the commands.

    The calls of [update] by its handlers are at most five deep: a key picks an entry of
    a menu, which is the selection of a target, which is a switch of tabs, and so on.
    [update_n] counts them; [update] allows for six, and out of fuel would be a panic
    ([UiProps.update_terminates] says that it never is). *)

From S2P Require Import Prelude RustStd TextLemmas Model TicketService UiModel UiState UiKeys CreateTicket UiPages UiHandlers UiOverlay.
Local Open Scope stdpp_scope.

Section Update.
Context `{UiEnv} (now : Z).

Section Calls.
Variable update : Model → Msg.t → outcome.

(** ** Data *)

(** [tickets_list::apply_tickets_data] *)
Definition clamp_table (t : TicketTableModel.t) : TicketTableModel.t :=
  let count := length (TicketTableModel.tickets t) in
  if (0 <? count) && (count <=? TicketTableModel.selected_row t) then TicketTableModel.with_row (count - 1) t else t.
Definition apply_tickets_data (data : TicketListData.t) (m : Model) : Model :=
  let t := TicketListModel.table (ticket_list m) in
  set_ticket_table (clamp_table (TicketTableModel.mk (TicketListData.tickets data) (TicketListData.total_count data)
    (TicketTableModel.selected_row t) (TicketTableModel.current_page t) (TicketTableModel.page_size t))) m.

(** The detail model after a load, its [data] included. *)
Definition apply_detail_result (res : result (DetailResponse.t * list PTicket.t * Z) string)
    (d : TicketDetailModel.t) : TicketDetailModel.t :=
  match res with
  | Ok (detail, children, total_children) =>
      let t := TicketDetailModel.children_table d in
      TicketDetailModel.with_data (Loaded (TicketDetailData.mk detail children total_children))
        (TicketDetailModel.with_table
           (clamp_table (TicketTableModel.mk children total_children (TicketTableModel.selected_row t)
              (TicketTableModel.current_page t) (TicketTableModel.page_size t))) d)
  | Err e => TicketDetailModel.with_data (LoadError e) d
  end.

(** Of several banners only the last is shown. *)
Definition show_last (msgs : list Msg.t) (cmds : list Cmd.t) (m : Model) : outcome :=
  match last msgs with
  | Some msg => r ← update m msg; Some (r.1, cmds ++ r.2)
  | None => Some (m, cmds)
  end.

Definition handle_flows_loaded (workflows : list WorkflowInfo.t) (total_count : Z) (m : Model) : outcome :=
  let '(msgs, cmds, notifs) := NotificationModel.process_flow_updates workflows (notifications m) in
  let m := set_notifications notifs m in
  let data := FlowListData.mk workflows total_count in
  let m := Flows.clamp_selection (set_flow_data (Loaded data) (Flows.apply_flows_data data m)) in
  let m := match flow_detail m with
           | Some detail => (init_flow_detail (FlowDetailModel.ticket_id detail) m).1
           | None => m
           end in
  show_last msgs cmds m.

Definition handle_activities_loaded (ticket_id : string) (res : result (list ActivityEntry.t) string)
    (m : Model) : Model :=
  let m :=
    match ticket_detail m with
    | Some d =>
        if String.eqb (TicketDetailModel.ticket_id d) ticket_id
        then set_detail (TicketDetailModel.with_activities
               match res with Ok l => Loaded l | Err e => LoadError e end d) m
        else m
    | None => m
    end in
  handle_activities_data ticket_id res m.

Definition handle_worker_stopped (worker_id : string) (res : result unit string) (m : Model) : outcome :=
  then_cmds
    (update m match res with
              | Ok _ => Msg.BannerShow ("Killed " +:+ worker_id) Success
              | Err e => Msg.BannerShow ("Kill failed: " +:+ e) Error
              end)
    [Cmd.Fetch FetchCmd.Workers].

Definition handle_data (msg : DataMsg.t) (m : Model) : outcome :=
  match msg with
  | DataMsg.TicketsLoaded res =>
      Some (match res with
            | Ok (tickets, total_count) =>
                let data := TicketListData.mk tickets total_count in
                set_ticket_data (Loaded data) (apply_tickets_data data m)
            | Err e => set_ticket_data (LoadError e) m
            end, [])
  | DataMsg.DetailLoaded res =>
      Some (match ticket_detail m with
            | Some d => set_detail (apply_detail_result res d) m
            | None => m
            end, [])
  | DataMsg.FlowsLoaded res =>
      match res with
      | Ok (workflows, total_count) => handle_flows_loaded workflows total_count m
      | Err e => Some (set_flow_data (LoadError e) m, [])
      end
  | DataMsg.WorkersLoaded res =>
      Some (Workers.clamp_selection
              (set_worker_data match res with Ok workers => Loaded workers | Err e => LoadError e end m), [])
  | DataMsg.WorkerStopped worker_id res => handle_worker_stopped worker_id res m
  | DataMsg.ActivitiesLoaded ticket_id res => Some (handle_activities_loaded ticket_id res m, [])
  | DataMsg.NotificationFlowLoaded res =>
      match res with
      | Ok workflow =>
          let '(msgs, cmds, notifs) := NotificationModel.process_flow_updates [workflow] (notifications m) in
          show_last msgs cmds (set_notifications notifs m)
      | Err _ => Some (m, [])
      end
  | DataMsg.FlowDetailLoaded res =>
      Some (match res with
            | Ok workflow => set_flow_detail (Some (FlowDetailModel.mk (WorkflowInfo.ticket_id workflow) workflow)) m
            | Err _ => m
            end, [])
  end.

(** ** Keys *)

Definition dispatch_root_page_key (key : KeyEvent.t) (m : Model) : outcome :=
  page ← NavigationModel.current_page (navigation_model m);
  match root_page_key page key with
  | Some msg => update m msg
  | None => Some (m, [])
  end.

(** First the overlay, then the banner, then the input stack, then the page. *)
Definition handle_key (key : KeyEvent.t) (m : Model) : outcome :=
  match active_overlay m with
  | Some overlay => update m (dispatch_overlay_key overlay key)
  | None =>
      match (if bool_decide (is_Some (banner m)) then dispatch_banner_key key else None) with
      | Some msg => update m msg
      | None =>
          match stack_dispatch (input_stack m) key with
          | Some msg => update m msg
          | None => dispatch_root_page_key key m
          end
      end
  end.

(** ** Messages *)

Definition update_body (m : Model) (msg : Msg.t) : outcome :=
  match msg with
  | Msg.Quit => Some (set_should_quit true m, [Cmd.Quit])
  | Msg.KeyPressed key => handle_key key m
  | Msg.Tick => handle_tick now m
  | Msg.Data data_msg => handle_data data_msg m
  | Msg.Nav nav_msg => dispatch_page_nav update nav_msg m
  | Msg.UiEvent items => handle_ui_event now items m
  | Msg.BannerShow message variant => handle_banner_show now message variant m
  | Msg.BannerDismiss => handle_banner_dismiss m
  | Msg.StatusShow text => handle_status_show text m
  | Msg.StatusClear => handle_status_clear m
  | Msg.Overlay overlay_msg => handle_overlay update overlay_msg m
  | Msg.TicketOp op_msg => handle_ticket_op update op_msg m
  | Msg.TicketOpResult result_msg => handle_ticket_op_result update result_msg m
  | Msg.FlowOp op_msg => handle_flow_op update op_msg m
  | Msg.FlowOpResult result_msg => handle_flow_op_result update result_msg m
  | Msg.WorkerOp op_msg => handle_worker_op update op_msg m
  | Msg.WorkerOpResult result_msg => handle_worker_op_result update result_msg m
  end.
End Calls.

Fixpoint update_n (fuel : nat) (m : Model) (msg : Msg.t) : outcome :=
  match fuel with
  | 0 => None
  | S fuel => update_body (update_n fuel) m msg
  end.
Definition update : Model → Msg.t → outcome := update_n 6.
End Update.

(** ** The main loop *)

(** [tea_loop]'s start: the notifier and what the configuration says, then the first
    page. *)
Definition start_model (notifier_available : bool) (notif : NotificationConfig.t)
    (themes : list string) (project : option string) (locals : gset string) : option (Model * list Cmd.t) :=
  let m := initial notifier_available in
  let m := mkModel (should_quit m) (navigation_model m) (input_stack m) (ticket_list m) (ticket_detail m)
             (flow_list m) (flow_detail m) (worker_list m) (ui_event_throttle m) (banner m) (status m)
             (active_overlay m) (ticket_filters m) (ticket_activities m) (ticket_body m) (help_page m)
             (NotificationModel.new notif notifier_available) (pending_theme_swap m)
             (merge_sort String.le themes) project locals in
  navigating Nav.init_current m.

(** The messages of a session with their times, and the commands that are executed: none of
    the message that quits. *)
Fixpoint session `{UiEnv} (msgs : list (Z * Msg.t)) (m : Model) : outcome :=
  match msgs with
  | [] => Some (m, [])
  | (now, msg) :: msgs =>
      r ← update now m msg;
      if should_quit r.1 then Some (r.1, [])
      else r' ← session msgs (set_pending_theme_swap None r.1); Some (r'.1, r.2 ++ r'.2)
  end.

(** [extract_editor_request], [extract_edit_ticket_request]: the first in the order of
    the commands; [filter_non_editor_cmds]: the others, which the runner executes. *)
Fixpoint editor_request_of (c : Cmd.t) : option (option string * option string * option string) :=
  match c with
  | Cmd.SpawnEditor parent_id project content => Some (parent_id, project, content)
  | Cmd.Batch cmds =>
      (fix go (cmds : list Cmd.t) :=
         match cmds with
         | [] => None
         | c :: cmds => match editor_request_of c with Some r => Some r | None => go cmds end
         end) cmds
  | _ => None
  end.
Definition extract_editor_request (cmds : list Cmd.t) : option (option string * option string * option string) :=
  editor_request_of (Cmd.Batch cmds).
Fixpoint edit_request_of (c : Cmd.t) : option string :=
  match c with
  | Cmd.EditTicket ticket_id => Some ticket_id
  | Cmd.Batch cmds =>
      (fix go (cmds : list Cmd.t) :=
         match cmds with
         | [] => None
         | c :: cmds => match edit_request_of c with Some r => Some r | None => go cmds end
         end) cmds
  | _ => None
  end.
Definition extract_edit_ticket_request (cmds : list Cmd.t) : option string := edit_request_of (Cmd.Batch cmds).
Definition is_editor_cmd (c : Cmd.t) : bool :=
  match c with Cmd.SpawnEditor _ _ _ | Cmd.EditTicket _ => true | _ => false end.
Fixpoint without_editor (c : Cmd.t) : Cmd.t :=
  match c with
  | Cmd.Batch cmds =>
      Cmd.Batch ((fix go (cmds : list Cmd.t) :=
        match cmds with
        | [] => []
        | c :: cmds => if is_editor_cmd c then go cmds else without_editor c :: go cmds
        end) cmds)
  | c => c
  end.
Definition filter_non_editor_cmds (cmds : list Cmd.t) : list Cmd.t :=
  match without_editor (Cmd.Batch cmds) with Cmd.Batch l => l | _ => [] end.

(** * The terminal interface: rules

    [UiUpdate.unfolds], that [update] is its body with itself, and the equations of the
    messages whose handlers call no other. *)

(** ** How deep the calls go *)

Definition overlay_rank (msg : OverlayMsg.t) : nat :=
  match msg with
  | OverlayMsg.PriorityPickerConfirm | OverlayMsg.PriorityPickerQuickSelect _
  | OverlayMsg.TypeMenuConfirm | OverlayMsg.TypeMenuQuickSelect _
  | OverlayMsg.GotoMenuConfirm | OverlayMsg.GotoMenuQuickSelect _
  | OverlayMsg.ForceCloseConfirmYes | OverlayMsg.CreateActionConfirm | OverlayMsg.CreateActionQuickSelect _
  | OverlayMsg.BranchInputSubmitRequest | OverlayMsg.SettingsActivate => 4
  | OverlayMsg.PrioritySelected _ _ | OverlayMsg.TypeSelected _ _ | OverlayMsg.GotoSelected _
  | OverlayMsg.ForceCloseConfirmed _ => 3
  | _ => 0
  end.
(** How many calls of [update] a message may lead to, one inside the other. *)
Definition rank (msg : Msg.t) : nat :=
  match msg with
  | Msg.KeyPressed _ => 5
  | Msg.Data _ | Msg.TicketOp _ | Msg.TicketOpResult _ | Msg.FlowOp _ | Msg.FlowOpResult _
  | Msg.WorkerOp _ | Msg.WorkerOpResult _ => 1
  | Msg.Nav _ => 2
  | Msg.Overlay msg => overlay_rank msg
  | _ => 0
  end.

Lemma overlay_rank_le msg : overlay_rank msg ≤ 4.
Proof. destruct msg; simpl; lia. Qed.

(** The messages a key may stand for. *)
Definition from_key (msg : Msg.t) : Prop :=
  match msg with Msg.Quit | Msg.Nav _ | Msg.Overlay _ | Msg.BannerDismiss => True | _ => False end.
Lemma from_key_rank msg : from_key msg → rank msg < 5.
Proof. destruct msg; try done; simpl; try lia. pose proof (overlay_rank_le overlay_msg). lia. Qed.

Ltac key_cases := repeat case_match; intros; simplify_eq; try done.

Lemma handler_from_key h key msg : handler_key h key = Some msg → from_key msg.
Proof.
  destruct h; simpl; unfold global_key, activities_key, markdown_scroll_key; key_cases.
Qed.
Lemma first_capture_from_key hs key msg : first_capture hs key = Some msg → from_key msg.
Proof.
  induction hs as [|h hs IH]; simpl; [done|].
  destruct (handler_key h key) as [msg'|] eqn:E; [|done]. intros [= ->]. by eapply handler_from_key.
Qed.
Lemma root_page_from_key page key msg : root_page_key page key = Some msg → from_key msg.
Proof.
  destruct page; simpl; try done;
    unfold TicketListHandler.handle_key, TicketListHandler.handle_table_key, TicketListHandler.handle_operation_key,
      TicketListHandler.handle_action_key, TicketDetailHandler.handle_key, TicketDetailHandler.handle_detail_table_key,
      TicketDetailHandler.handle_detail_operation_key, TicketDetailHandler.handle_detail_action_key,
      FlowListHandler.handle_key, FlowListHandler.handle_table_key, FlowListHandler.handle_operation_key,
      FlowDetailHandler.handle_key, FlowDetailHandler.handle_shift_key, FlowDetailHandler.handle_plain_key,
      WorkerListHandler.handle_key; key_cases.
Qed.

(** Notifications are banners. *)
Definition is_banner (msg : Msg.t) : Prop := match msg with Msg.BannerShow _ _ => True | _ => False end.
Lemma transitions_banners id prev new n : Forall is_banner (NotificationModel.detect_transitions id prev new n).1.
Proof.
  unfold NotificationModel.detect_transitions. simpl.
  repeat case_match; simpl; by repeat constructor.
Qed.
Lemma process_banners flows n : Forall is_banner (NotificationModel.process_flow_updates flows n).1.1.
Proof.
  revert n. induction flows as [|flow flows IH]; intros n; simpl; [constructor|].
  specialize (IH (NotificationModel.process_flow flow n).2).
  unfold NotificationModel.process_flow in *. simpl in *.
  destruct (NotificationModel.process_flow_updates _ _) as [[msgs cmds] n']. simpl in *.
  apply Forall_app; split; [|done].
  destruct (_ !! _); [apply transitions_banners|constructor].
Qed.

(** ** [update] is its body *)

Section Unfold.
Context `{UiEnv} (now : Z).

(** Two functions that agree on the messages below a rank. *)
Definition agree (k : nat) (f g : Model → Msg.t → outcome) : Prop := ∀ m msg, rank msg < k → f m msg = g m msg.

Section Ext.
Context (f g : Model → Msg.t → outcome).

Ltac same A := rewrite ?A by (simpl; lia); try done.
Lemma page_nav_ext msg m : agree 2 f g → dispatch_page_nav f msg m = dispatch_page_nav g msg m.
Proof.
  intros A. destruct msg; try done; simpl; unfold tickets_dispatch, handle_detail_open, handle_detail_dispatch,
    handle_detail_dispatch_all, handle_detail_branch, on_flow, on_flow_detail, if_some;
    case_match; try done; unfold ask_priority, ask_type, close_or_ask, dispatch_by_type, open_goto,
    local_project_dispatch_banner, reminder_dispatch_banner; repeat case_match; same A.
Qed.
Lemma overlay_ext msg m : agree (overlay_rank msg) f g → handle_overlay f msg m = handle_overlay g msg m.
Proof.
  intros A. destruct msg; try done; simpl in *; unfold handle_goto_selected, select_target, choose_action,
    handle_settings_activate; repeat case_match; simplify_eq; try done; unfold handle_create_action,
    local_project_dispatch_banner; repeat case_match; same A.
  destruct (selected_theme_name _ _ _ _ _) as [[?|]|]; simpl; same A.
Qed.
Lemma results_ext (r : TicketOpResultMsg.t) (fr : FlowOpResultMsg.t) (wr : WorkerOpResultMsg.t) m : agree 1 f g →
  handle_ticket_op_result f r m = handle_ticket_op_result g r m ∧
  handle_flow_op_result f fr m = handle_flow_op_result g fr m ∧
  handle_worker_op_result f wr m = handle_worker_op_result g wr m.
Proof.
  intros A. unfold handle_ticket_op_result, handle_flow_op_result, handle_worker_op_result, show_result.
  rewrite !(A m Msg.StatusClear) by (simpl; lia).
  destruct (g m Msg.StatusClear) as [[m' cmds]|]; [simpl|done].
  split_and!; [|destruct fr as [[]|[]|[]]; simpl; same A|destruct wr as [[]]; simpl; same A].
  destruct (ticket_op_result_parts r) as [[[msg|e] []] pending]; try done; same A.
  all: destruct (g m' _) as [[m'' cmds']|]; [simpl|done]; destruct pending; same A.
Qed.
Lemma show_last_ext msgs cmds m : agree 1 f g → Forall is_banner msgs →
  show_last f msgs cmds m = show_last g msgs cmds m.
Proof.
  intros A Hb. unfold show_last. destruct (last msgs) as [msg|] eqn:E; [|done].
  apply last_Some_elem_of in E. rewrite Forall_forall in Hb. specialize (Hb _ E).
  destruct msg; try done. same A.
Qed.
Lemma data_ext msg m : agree 1 f g → handle_data f msg m = handle_data g msg m.
Proof.
  intros A. destruct msg as [r|r|r|r|id r|id r|r|r]; try done; cbn [handle_data].
  - destruct r as [[l n]|e]; [|done]. unfold handle_flows_loaded.
    pose proof (process_banners l (notifications m)) as Hb.
    destruct (NotificationModel.process_flow_updates _ _) as [[msgs cmds] notifs].
    by apply show_last_ext.
  - unfold handle_worker_stopped. destruct r; same A.
  - destruct r as [wf|e]; [|done].
    pose proof (process_banners [wf] (notifications m)) as Hb.
    destruct (NotificationModel.process_flow_updates _ _) as [[msgs cmds] notifs].
    by apply show_last_ext.
Qed.
Lemma key_ext key m : agree 5 f g → handle_key f key m = handle_key g key m.
Proof.
  intros A. unfold handle_key, dispatch_root_page_key.
  destruct (active_overlay m) as [o|]; [by apply A, from_key_rank|].
  destruct (if bool_decide _ then _ else _) as [msg|] eqn:Eb.
  { apply A. case_match; [|done]. unfold dispatch_banner_key in Eb. case_match; simplify_eq; simpl; lia. }
  destruct (stack_dispatch _ _) as [msg|] eqn:Es.
  { apply A, from_key_rank. by eapply first_capture_from_key. }
  destruct (NavigationModel.current_page _) as [page|]; [simpl|done].
  destruct (root_page_key page key) as [msg|] eqn:Ep; [|done].
  apply A, from_key_rank. by eapply root_page_from_key.
Qed.
Lemma body_ext msg m : agree (rank msg) f g → update_body now f m msg = update_body now g m msg.
Proof.
  intros A. destruct msg; try done; cbn [update_body rank] in *.
  - by apply key_ext.
  - by apply data_ext.
  - by apply page_nav_ext.
  - by apply overlay_ext.
  - unfold handle_ticket_op. same A.
  - by apply (results_ext _ (FlowOpResultMsg.Stalled (Ok "")) (WorkerOpResultMsg.Killed (Ok ""))).
  - unfold handle_flow_op. same A.
  - by apply (results_ext (TicketOpResultMsg.Closed (Ok "")) _ (WorkerOpResultMsg.Killed (Ok ""))).
  - unfold handle_worker_op. same A.
  - by apply (results_ext (TicketOpResultMsg.Closed (Ok "")) (FlowOpResultMsg.Stalled (Ok "")) _).
Qed.
End Ext.

(** More fuel than the rank makes no difference. *)
Lemma update_n_stable n k m msg : rank msg < n → n ≤ k → update_n now n m msg = update_n now k m msg.
Proof.
  revert k m msg. induction n as [|n IH]; intros k m msg Hr Hk; [lia|].
  destruct k as [|k]; [lia|]. simpl. apply body_ext. intros m' msg' Hr'. apply IH; lia.
Qed.
Lemma unfolds m msg : update now m msg = update_body now (update now) m msg.
Proof.
  change (update now m msg) with (update_body now (update_n now 5) m msg).
  apply body_ext. intros m' msg' Hr. apply update_n_stable; [|lia].
  destruct msg; simpl in Hr; try lia. pose proof (overlay_rank_le overlay_msg). lia.
Qed.
End Unfold.

(** ** Messages whose handlers call at most a leaf *)

Section Equations.
Context `{UiEnv} (now : Z) (m : Model).

Ltac compute_update := rewrite unfolds; reflexivity.
Lemma update_status text : update now m (Msg.StatusShow text) = Some (set_status (Some text) m, []).
Proof. compute_update. Qed.
Lemma update_clear : update now m Msg.StatusClear = Some (set_status None m, []).
Proof. compute_update. Qed.
Lemma update_banner text v :
  update now m (Msg.BannerShow text v) = Some (set_banner (Some (BannerModel.mk text v now)) m, []).
Proof. compute_update. Qed.
Lemma update_nav msg : update now m (Msg.Nav msg) = dispatch_page_nav (update now) msg m.
Proof. compute_update. Qed.
Lemma update_overlay msg : update now m (Msg.Overlay msg) = handle_overlay (update now) msg m.
Proof. compute_update. Qed.
Lemma update_key key : update now m (Msg.KeyPressed key) = handle_key (update now) key m.
Proof. compute_update. Qed.
Lemma update_ticket_op op :
  update now m (Msg.TicketOp op) = Some (set_status (Some (ticket_op_status op)) m, [Cmd.TicketOp op]).
Proof. rewrite unfolds. simpl. unfold handle_ticket_op. by rewrite unfolds. Qed.
Lemma update_flow_op op :
  update now m (Msg.FlowOp op) = Some (set_status (Some (flow_op_status op)) m, [Cmd.FlowOp op]).
Proof. rewrite unfolds. simpl. unfold handle_flow_op. by rewrite unfolds. Qed.
Lemma update_worker_op op :
  update now m (Msg.WorkerOp op) = Some (set_status (Some (worker_op_status op)) m, [Cmd.WorkerOp op]).
Proof. rewrite unfolds. simpl. unfold handle_worker_op. by rewrite unfolds. Qed.
Lemma open_priority id p :
  update now m (Msg.Overlay (OverlayMsg.OpenPriorityPicker id p))
  = Some (open_overlay (ActiveOverlay.PriorityPicker id (priority_to_cursor p)) m, []).
Proof. compute_update. Qed.
Lemma open_type id t :
  update now m (Msg.Overlay (OverlayMsg.OpenTypeMenu id t))
  = Some (open_overlay (ActiveOverlay.TypeMenu id (type_to_cursor t)) m, []).
Proof. compute_update. Qed.
Lemma open_force_close id n :
  update now m (Msg.Overlay (OverlayMsg.OpenForceCloseConfirm id n))
  = Some (open_overlay (ActiveOverlay.ForceCloseConfirm id n) m, []).
Proof. compute_update. Qed.
Lemma open_goto_menu targets :
  update now m (Msg.Overlay (OverlayMsg.OpenGotoMenu targets))
  = Some (open_overlay (ActiveOverlay.GotoMenu targets 0) m, []).
Proof. compute_update. Qed.
Lemma open_branch id b :
  update now m (Msg.Overlay (OverlayMsg.OpenBranchInput id b))
  = Some (open_overlay (ActiveOverlay.BranchInput b id) m, []).
Proof. compute_update. Qed.
Lemma open_create pending :
  update now m (Msg.Overlay (OverlayMsg.OpenCreateActionMenu pending))
  = Some (open_overlay (ActiveOverlay.CreateActionMenu pending 0) m, []).
Proof. compute_update. Qed.
Lemma select_theme name :
  update now m (Msg.Overlay (OverlayMsg.ThemeSelected name))
  = Some (set_pending_theme_swap (Some name) m, [Cmd.PersistTheme name]).
Proof. compute_update. Qed.
Lemma select_priority id p :
  update now m (Msg.Overlay (OverlayMsg.PrioritySelected id p))
  = update now m (Msg.TicketOp (TicketOpMsg.SetPriority id p)).
Proof. rewrite unfolds. reflexivity. Qed.
Lemma select_type id t :
  update now m (Msg.Overlay (OverlayMsg.TypeSelected id t))
  = update now m (Msg.TicketOp (TicketOpMsg.SetType id t)).
Proof. rewrite unfolds. reflexivity. Qed.
Lemma force_close_confirmed id :
  update now m (Msg.Overlay (OverlayMsg.ForceCloseConfirmed id))
  = update now m (Msg.TicketOp (TicketOpMsg.ForceClose id)).
Proof. rewrite unfolds. reflexivity. Qed.
Lemma goto_selected target :
  update now m (Msg.Overlay (OverlayMsg.GotoSelected target)) = handle_goto_selected (update now) target m.
Proof. compute_update. Qed.
Lemma switch_tab_msg tab :
  update now m (Msg.Nav (NavMsg.TabSwitch tab)) = navigating (Nav.switch_tab tab) m.
Proof. compute_update. Qed.
End Equations.

Create Rewrite HintDb ui.
#[export] Hint Rewrite @update_status @update_clear @update_banner @update_ticket_op @update_flow_op @update_worker_op @open_priority @open_type
  @open_force_close @open_goto_menu @open_branch @open_create @select_theme @select_priority @select_type
  @force_close_confirmed @goto_selected @switch_tab_msg : ui.

(** ** Operations among the commands *)

Fixpoint issued (c : Cmd.t) : list TicketOpMsg.t :=
  match c with
  | Cmd.TicketOp op => [op]
  | Cmd.Batch cmds => concat (issued <$> cmds)
  | _ => []
  end.
Definition issues (cmds : list Cmd.t) : list TicketOpMsg.t := cmds ≫= issued.

Lemma issues_app a b : issues (a ++ b) = issues a ++ issues b.
Proof. apply bind_app. Qed.
Lemma issues_cons c cmds : issues (c :: cmds) = issued c ++ issues cmds.
Proof. reflexivity. Qed.
Lemma issued_Batch cmds : issued (Cmd.Batch cmds) = issues cmds.
Proof. simpl. induction cmds as [|c cmds IH]; [done|]. rewrite issues_cons, <- IH. reflexivity. Qed.
Lemma issued_batch cmds : issued (Cmd.batch cmds) = issues cmds.
Proof.
  assert (issues cmds = issues (filter (λ c, Cmd.is_none c = false) cmds)) as ->.
  { induction cmds as [|c cmds IH]; [done|]. rewrite filter_cons, issues_cons, IH.
    case_decide as Hc; [by rewrite issues_cons|]. by destruct c. }
  unfold Cmd.batch. destruct (filter _ _) as [|c [|d l]]; [done| |apply issued_Batch].
  rewrite issues_cons. symmetry. apply app_nil_r.
Qed.

(** ** An environment for examples *)

Definition sample_env : UiEnv := Build_UiEnv elements elements ["dark"; "light"].
Lemma sample_env_lawful : @LawfulUiEnv sample_env.
Proof. by split. Qed.
