(* ===== verification/UiProps.v ===== *)
(** * The terminal interface: properties of single updates *)

From S2P Require Import Prelude RustStd TextLemmas Model TicketService UiModel UiState UiKeys CreateTicket UiPages UiHandlers UiOverlay UiUpdate.
Local Open Scope stdpp_scope.

Section Props.
Context `{UiEnv} (now : Z).

(** ** What may be dispatched *)

(** The project whose repository an operation needs. *)
Definition dispatch_project (op : TicketOpMsg.t) : option string :=
  match op with
  | TicketOpMsg.Dispatch _ p _ | TicketOpMsg.DispatchAll _ p _ | TicketOpMsg.LaunchDesign _ p _
  | TicketOpMsg.CreateAndDispatch _ p _ => Some p
  | _ => None
  end.
(** No dispatch of a local project among the operations. *)
Definition respects (m : Model) (ops : list TicketOpMsg.t) : Prop :=
  Forall (λ op, ∀ p, dispatch_project op = Some p → dispatch_is_blocked_by_locality p m = false) ops.
Definition respectful (m : Model) (o : outcome) : Prop :=
  match o with Some (_, cmds) => respects m (issues cmds) | None => True end.

Lemma respectful_none m m' cmds : issues cmds = [] → respectful m (Some (m', cmds)).
Proof. simpl. intros ->. constructor. Qed.

Lemma init_page_issues page m : issues (init_page page m).2 = [].
Proof.
  destruct page; try done. simpl. unfold init_flow_detail. by case_match.
Qed.
Lemma init_current_issues n m r : Nav.init_current n m = Some r → issues r.2 = [].
Proof.
  unfold Nav.init_current. destruct (NavigationModel.current_page n); simpl; [|done].
  intros [= <-]. apply init_page_issues.
Qed.
Lemma push_issues page n m r : Nav.push page n m = Some r → issues r.2 = [].
Proof. unfold Nav.push. destruct (_ !! _); simpl; [|done]. apply init_current_issues. Qed.
Lemma switch_issues tab n m r : Nav.switch_tab tab n m = Some r → issues r.2 = [].
Proof.
  unfold Nav.switch_tab, Nav.pop_to_root. case_bool_decide; destruct (_ !! _); simpl; try done;
    destruct (head _); simpl; try done; apply init_current_issues.
Qed.
Lemma navigating_issues f m o : (∀ n m r, f n m = Some r → issues r.2 = []) →
  respectful m (navigating f o).
Proof.
  intros Hf. unfold navigating. destruct (f _ _) as [r|] eqn:E; [|done].
  apply respectful_none. by eapply Hf.
Qed.
Lemma global_nav_respectful msg m : respectful m (handle_global_nav msg m).
Proof.
  apply navigating_issues. intros n m' r. destruct msg; try (intros [= <-]; done);
    eauto using switch_issues, push_issues.
  - unfold Nav.pop. destruct (_ !! _) as [stack|]; simpl; [|done].
    case_match; [intros [= <-]; done|]. destruct (last stack); simpl; [apply init_current_issues|done].
  - unfold Nav.goto. destruct (NavigationModel.current_page n); simpl; [|done].
    case_bool_decide; [intros [= <-]; done|]. apply push_issues.
Qed.
Lemma detail_fetch_issues m : issued (build_detail_fetch_cmd m) = [].
Proof. unfold build_detail_fetch_cmd. destruct (ticket_detail m); [by rewrite issued_batch|done]. Qed.

Lemma respects_other m op : dispatch_project op = None → respects m [op].
Proof. intros E. constructor; [|constructor]. by rewrite E. Qed.
Lemma respects_project m op p : dispatch_project op = Some p → dispatch_is_blocked_by_locality p m = false →
  respects m [op].
Proof. intros E Hp. constructor; [|constructor]. rewrite E. by intros ? [= <-]. Qed.


(** What the handlers do with a ticket. *)
Ltac plainly := simpl; solve [by constructor | by apply respects_other].
Lemma ask_respectful t m :
  respectful m (ask_priority (update now) t m) ∧ respectful m (ask_type (update now) t m) ∧
  respectful m (close_or_ask (update now) t m).
Proof.
  unfold ask_priority, ask_type, close_or_ask.
  split_and!; [| |case_match]; autorewrite with ui; plainly.
Qed.
Lemma dispatch_respectful t m : dispatch_is_blocked_by_locality (PTicket.project t) m = false →
  respectful m (dispatch_by_type (update now) t m).
Proof.
  intros Hp. unfold dispatch_by_type. autorewrite with ui. simpl. case_match; by eapply respects_project.
Qed.
Lemma local_respectful p m : respectful m (local_project_dispatch_banner (update now) p m).
Proof. unfold local_project_dispatch_banner. autorewrite with ui. plainly. Qed.
Lemma reminder_respectful t m : respectful m (reminder_dispatch_banner (update now) t m).
Proof. unfold reminder_dispatch_banner. autorewrite with ui. plainly. Qed.
Lemma push_respectful page m : respectful m (navigating (Nav.push page) m).
Proof. apply navigating_issues. intros n m' r. apply push_issues. Qed.
Lemma some_respectful {A} (o : option A) m f : (∀ a, respectful m (f a)) → respectful m (if_some o m f).
Proof. intros Hf. destruct o; [apply Hf|plainly]. Qed.
Lemma detail_respectful m m' : respectful m (Some (m', [build_detail_fetch_cmd m'])).
Proof. apply respectful_none. by rewrite issues_cons, detail_fetch_issues. Qed.

Lemma list_nav_respectful msg m : respectful m (handle_ticket_table_nav (update now) msg m).
Proof.
  destruct msg; try plainly; simpl.
  1-2: case_match; plainly.
  all: apply some_respectful; intros t; try apply push_respectful; try apply (ask_respectful t);
    try (unfold open_goto; autorewrite with ui; plainly); try plainly.
  destruct (dispatch_is_blocked_by_locality _ _) eqn:E; [apply local_respectful|].
  case_match; [apply reminder_respectful|by apply dispatch_respectful].
Qed.
Lemma detail_nav_respectful msg m : respectful m (handle_ticket_detail_nav (update now) msg m).
Proof.
  destruct msg; try plainly; try apply detail_respectful; simpl.
  1-2: case_match; [case_match; [apply detail_respectful|]|]; plainly.
  all: try (unfold start_create_child_flow; case_match; plainly).
  all: apply some_respectful; intros t; try apply push_respectful; try apply (ask_respectful t);
    try (unfold open_goto; autorewrite with ui; plainly); try plainly.
  - destruct (dispatch_is_blocked_by_locality _ _) eqn:E; [apply local_respectful|].
    by apply dispatch_respectful.
  - cbv zeta. destruct (dispatch_is_blocked_by_locality _ _) eqn:E; [apply local_respectful|].
    autorewrite with ui. by eapply respects_project.
Qed.
Lemma page_nav_respectful msg m : respectful m (dispatch_page_nav (update now) msg m).
Proof.
  destruct msg; try apply global_nav_respectful; try apply list_nav_respectful; try apply detail_nav_respectful;
    simpl; try plainly;
    try (unfold handle_body_nav; destruct (NavigationModel.current_page _); simpl; repeat case_match; plainly);
    try (unfold handle_activities_nav, Activities.activities_cycle_filter; simpl; repeat case_match;
         simplify_eq; plainly);
    try (unfold Workers.handle_kill; case_match; plainly).
  all: apply some_respectful; intros t; try apply push_respectful;
    unfold cancel_msg, approve_msg, stall_msg, redrive_msg, flow_goto_msg; autorewrite with ui; plainly.
Qed.

Lemma kept_respectful m (o : option Model) : respectful m (m' ← o; Some (m', [])).
Proof. destruct o; plainly. Qed.
Lemma goto_respectful target m : respectful m (handle_goto_selected (update now) target m).
Proof.
  unfold handle_goto_selected. rewrite !switch_tab_msg.
  assert (Hsw : ∀ tab, respectful m (navigating (Nav.switch_tab tab) m)).
  { intros tab. apply navigating_issues. intros n m' r. apply switch_issues. }
  repeat case_match; try plainly; try apply push_respectful; try apply Hsw.
  all: unfold navigating; destruct (Nav.switch_tab _ _ _) as [r|] eqn:E; simpl; [|done];
    destruct (Nav.push _ _ _) as [r'|] eqn:E'; simpl; [|done];
    apply switch_issues in E; apply push_issues in E'; unfold respects; rewrite issues_app, E, E'; constructor.
Qed.
Lemma create_respectful action pending m : respectful m (handle_create_action (update now) action pending m).
Proof.
  destruct action; simpl; [| |plainly..]; autorewrite with ui; [plainly|].
  destruct (dispatch_is_blocked_by_locality _ _) eqn:E; [apply local_respectful|].
  autorewrite with ui. by eapply respects_project.
Qed.
Lemma choose_respectful pending index m : respectful m (choose_action (update now) pending index m).
Proof. unfold choose_action. case_match; [|plainly]. apply (create_respectful _ _ (close_overlay m)). Qed.
Lemma target_respectful targets cursor m : respectful m (select_target (update now) targets cursor m).
Proof.
  unfold select_target. case_match; [|plainly]. rewrite goto_selected. apply (goto_respectful _ (close_overlay m)).
Qed.
Lemma overlay_respectful msg m : respectful m (handle_overlay (update now) msg m).
Proof.
  destruct msg; try plainly; simpl; try apply kept_respectful; try apply goto_respectful;
    unfold handle_settings_activate; repeat case_match; autorewrite with ui; try plainly;
    try apply target_respectful; try apply choose_respectful.
  destruct (selected_theme_name _ _ _ _ _) as [[?|]|]; simpl; autorewrite with ui; plainly.
Qed.

Lemma process_issues flows n : issues (NotificationModel.process_flow_updates flows n).1.2 = [].
Proof.
  revert n. induction flows as [|flow flows IH]; intros n; simpl; [done|].
  specialize (IH (NotificationModel.process_flow flow n).2).
  unfold NotificationModel.process_flow in *. simpl in *.
  destruct (NotificationModel.process_flow_updates _ _) as [[msgs cmds] n']. simpl in *.
  rewrite issues_app, IH, app_nil_r. destruct (_ !! _); [|done].
  unfold NotificationModel.detect_transitions. simpl. by repeat case_match.
Qed.
Lemma show_last_respectful msgs cmds m m' : Forall is_banner msgs → issues cmds = [] →
  respectful m' (show_last (update now) msgs cmds m).
Proof.
  intros Hb Hc. unfold show_last. destruct (last msgs) as [msg|] eqn:E; [|by apply respectful_none].
  apply last_Some_elem_of in E. rewrite Forall_forall in Hb. specialize (Hb _ E).
  destruct msg; try done. autorewrite with ui. simpl. unfold respects. rewrite issues_app, Hc. constructor.
Qed.
Lemma data_respectful msg m : respectful m (handle_data (update now) msg m).
Proof.
  destruct msg as [r|r|r|r|id r|id r|r|r]; try plainly; cbn [handle_data].
  - destruct r as [[l n]|e]; [|plainly]. unfold handle_flows_loaded.
    pose proof (process_banners l (notifications m)) as Hb.
    pose proof (process_issues l (notifications m)) as Hi.
    destruct (NotificationModel.process_flow_updates _ _) as [[msgs cmds] notifs]. by apply show_last_respectful.
  - unfold handle_worker_stopped. destruct r; autorewrite with ui; plainly.
  - destruct r as [wf|e]; [|plainly].
    pose proof (process_banners [wf] (notifications m)) as Hb.
    pose proof (process_issues [wf] (notifications m)) as Hi.
    destruct (NotificationModel.process_flow_updates _ _) as [[msgs cmds] notifs]. by apply show_last_respectful.
Qed.
Lemma flush_issues m : issues (flush_if_due now m).2 = [].
Proof.
  unfold flush_if_due, flush_throttle. case_match; [|done]. destruct (UiEventThrottle.flush _ _) as [[d w] th].
  case_bool_decide; [done|]. simpl. rewrite issues_app.
  assert (∀ a l m', issues (refresh_tabs a l m').2 = []) as ->.
  { intros a l. induction l as [|tab l IH]; intros m'; simpl; [done|].
    case_bool_decide; [|apply IH]. cbn [snd]. rewrite issues_cons, IH, app_nil_r.
    destruct tab; try done. unfold fetch_cmd_for_tab. rewrite issued_batch. by destruct (ticket_detail m'). }
  case_match; [|done]. simpl. generalize (iter_ids w). intros l. induction l as [|x l IH]; [done|]. apply IH.
Qed.

Lemma flush_respectful m m' : respectful m (Some (flush_if_due now m')).
Proof. pose proof (flush_issues m') as Hi. destruct (flush_if_due now m') as [m'' cmds]. by apply respectful_none. Qed.

Lemma results_respectful m m' (r : result string string) :
  respectful m (show_result (update now) r m').
Proof. unfold show_result. autorewrite with ui. simpl. case_match; autorewrite with ui; plainly. Qed.

(** A message other than an operation itself. *)
Definition not_op (msg : Msg.t) : Prop := match msg with Msg.TicketOp _ => False | _ => True end.
Lemma plain_respectful msg m : not_op msg → (∀ key, msg ≠ Msg.KeyPressed key) → respectful m (update now m msg).
Proof.
  intros Hop Hkey. destruct msg; rewrite unfolds; cbn [update_body]; try done; try plainly; try (by destruct (Hkey key)).
  - apply flush_respectful.
  - apply data_respectful.
  - apply page_nav_respectful.
  - apply flush_respectful.
  - apply overlay_respectful.
  - unfold handle_ticket_op_result. autorewrite with ui. simpl.
    destruct (ticket_op_result_parts result_msg) as [[[?|?] []] []]; autorewrite with ui; try plainly;
      simpl; autorewrite with ui; plainly.
  - apply results_respectful.
  - apply results_respectful.
Qed.

(** A key stands for a message, or for nothing. *)
Lemma key_message key m o : handle_key (update now) key m = o →
  (∃ msg, from_key msg ∧ o = update now m msg) ∨ o = Some (m, []) ∨ o = None.
Proof.
  intros <-. unfold handle_key, dispatch_root_page_key.
  destruct (active_overlay m) as [ov|]; [left; by exists (dispatch_overlay_key ov key)|].
  destruct (if bool_decide _ then _ else _) as [msg|] eqn:Eb.
  { left. exists msg. split; [|done]. case_match; [|done]. unfold dispatch_banner_key in Eb. by case_match; simplify_eq. }
  destruct (stack_dispatch _ _) as [msg|] eqn:Es.
  { left. exists msg. split; [|done]. by eapply first_capture_from_key. }
  destruct (NavigationModel.current_page _) as [page|]; simpl; [|by right; right].
  destruct (root_page_key page key) as [msg|] eqn:Ep; [|by right; left].
  left. exists msg. split; [|done]. by eapply root_page_from_key.
Qed.

(** Whatever key is pressed and whatever the server sends, the interface never
    asks for a dispatch, or the launch of a design worker, in a project that is
    configured as local, except by a message that is such a request already. *)
Theorem local_dispatch_refused m msg m' cmds op p : not_op msg →
  update now m msg = Some (m', cmds) → op ∈ issues cmds → dispatch_project op = Some p →
  dispatch_is_blocked_by_locality p m = false.
Proof.
  intros Hop Hu Hin Hp.
  assert (respectful m (update now m msg)) as Hr.
  { destruct msg; try (by apply plain_respectful). rewrite update_key.
    destruct (key_message key m _ eq_refl) as [(msg & Hk & ->)|[->| ->]]; [|plainly..].
    apply plain_respectful; by destruct msg. }
  rewrite Hu in Hr. unfold respectful, respects in Hr. rewrite Forall_forall in Hr. by eapply Hr.
Qed.
End Props.

(** ** Termination *)

(** C14: Handling a message ends.  Every call of [update] in the handling of a message is for
    a message of smaller rank, and ranks are at most five: what the handlers do with a
    message depends on [update] at smaller ranks only.  So the equation of the code,
    [update] is its body with itself for the calls, has a solution and only one, which
    is the function the model runs; a handler that came back to its own message would
    leave the result open and have many. *)
Theorem update_terminates `{UiEnv} now :
  (∀ msg, rank msg ≤ 5)
  ∧ (∀ f g m msg, (∀ m' msg', rank msg' < rank msg → f m' msg' = g m' msg') →
       update_body now f m msg = update_body now g m msg)
  ∧ (∀ m msg, update now m msg = update_body now (update now) m msg)
  ∧ ∀ f, (∀ m msg, f m msg = update_body now f m msg) → ∀ m msg, f m msg = update now m msg.
Proof.
  assert (∀ msg, rank msg ≤ 5) as Hrank.
  { intros msg. destruct msg; simpl; try lia. pose proof (overlay_rank_le overlay_msg). lia. }
  split_and!; [done|intros f g m msg; apply body_ext|apply unfolds|]. intros f Hf.
  assert (∀ n m msg, rank msg < n → f m msg = update_n now n m msg) as Hn.
  { induction n as [|n IH]; intros m msg Hr; [lia|]. rewrite Hf. cbn [update_n]. apply body_ext.
    intros m' msg' Hr'. apply IH. lia. }
  intros m msg. apply Hn. specialize (Hrank msg). lia.
Qed.

(** ** The server's events *)

Section Events.
Context `{LawfulUiEnv} (now : Z).

(** Data that will be fetched again when the tab is shown. *)
Definition stale (tab : TabId.t) (m : Model) : Prop :=
  match tab with
  | TabId.Tickets => TicketListModel.data (ticket_list m) = NotLoaded
  | TabId.Flows => FlowListModel.data (flow_list m) = NotLoaded
  | TabId.Workers => WorkerListModel.data (worker_list m) = NotLoaded
  | TabId.Help => True
  end.
Definition settled (tab : TabId.t) (m m' : Model) (cmds : list Cmd.t) : Prop :=
  let active := NavigationModel.active_tab (navigation_model m) in
  if bool_decide (tab = active) then fetch_cmd_for_tab tab m ∈ cmds else stale tab m'.
(** The tabs that wait for a refresh when a message is handled. *)
Definition waiting (m : Model) (msg : Msg.t) : gset TabId.t :=
  UiEventThrottle.dirty (ui_event_throttle m) ∪
  match msg with
  | Msg.UiEvent items => list_to_set (events_in_scope (project_filter m) items ≫= dirty_tabs_of)
  | _ => ∅
  end.
Definition due (th : UiEventThrottle.t) : bool :=
  match UiEventThrottle.cooldown_start th with
  | None => true
  | Some start => (200 <=? Z.max 0 (now - start))%Z
  end.

Lemma stale_invalidate tab tab' m : tab' = tab ∨ stale tab m → stale tab (invalidate_tab tab' m).
Proof. intros [->|Hs]; [by destruct tab|]. by destruct tab, tab'. Qed.
Lemma fetch_invalidate tab tab' m : fetch_cmd_for_tab tab (invalidate_tab tab' m) = fetch_cmd_for_tab tab m.
Proof. by destruct tab, tab'. Qed.
Lemma refresh_stale active l tab m : tab ≠ active → tab ∈ l ∨ stale tab m → stale tab (refresh_tabs active l m).1.
Proof.
  intros Hne. revert m. induction l as [|x l IH]; intros m Hin; simpl; [by destruct Hin as [Hin%elem_of_nil|]|].
  case_bool_decide as E; cbn [fst]; apply IH.
  - destruct Hin as [[->|]%elem_of_cons|]; [done|by left|by right].
  - destruct Hin as [[->|]%elem_of_cons|]; [right|by left|right]; apply stale_invalidate; auto.
Qed.
Lemma refresh_fetch active l m : active ∈ l → fetch_cmd_for_tab active m ∈ (refresh_tabs active l m).2.
Proof.
  revert m. induction l as [|x l IH]; intros m Hin; [by apply elem_of_nil in Hin|]. simpl.
  case_bool_decide as E; cbn [snd]; [subst; by left|].
  rewrite <- (fetch_invalidate active x). apply IH. by apply elem_of_cons in Hin as [<-|].
Qed.
Lemma refresh_throttle active l m : ui_event_throttle (refresh_tabs active l m).1 = ui_event_throttle m.
Proof.
  revert m. induction l as [|x l IH]; intros m; simpl; [done|]. case_bool_decide; cbn [fst]; [apply IH|].
  rewrite IH. by destruct x.
Qed.
Lemma fetch_throttle tab th m : fetch_cmd_for_tab tab (set_ui_event_throttle th m) = fetch_cmd_for_tab tab m.
Proof. by destruct tab. Qed.
Lemma iter_tabs_elem s tab : tab ∈ iter_tabs s ↔ tab ∈ s.
Proof. rewrite iter_tabs_perm. apply elem_of_elements. Qed.

Lemma flush_settles m tab m' cmds : tab ∈ UiEventThrottle.dirty (ui_event_throttle m) →
  flush_if_due now m = (m', cmds) →
  if due (ui_event_throttle m) then settled tab m m' cmds ∧ UiEventThrottle.dirty (ui_event_throttle m') = ∅
  else m' = m ∧ cmds = [].
Proof.
  intros Hin. unfold flush_if_due, UiEventThrottle.should_flush.
  assert (UiEventThrottle.dirty (ui_event_throttle m) ≠ ∅) as Hne by set_solver.
  rewrite bool_decide_eq_false_2 by done. fold (due (ui_event_throttle m)).
  change (match UiEventThrottle.cooldown_start (ui_event_throttle m) with
          | Some start => (THROTTLE_COOLDOWN <=? Z.max 0 (now - start))%Z | None => true end)
    with (due (ui_event_throttle m)).
  destruct (due _); [|by intros [= <- <-]]. unfold flush_throttle, UiEventThrottle.flush.
  rewrite bool_decide_eq_false_2 by done. cbv zeta. intros [= <- <-]. split.
  - unfold settled. case_bool_decide as E; [|apply refresh_stale; [done|]; left; by apply iter_tabs_elem].
    apply elem_of_app. left. subst tab. rewrite <- (fetch_throttle _ (UiEventThrottle.mk ∅ ∅ (Some now))).
    apply refresh_fetch. by apply iter_tabs_elem.
  - by rewrite refresh_throttle.
Qed.

(** An event of the server is not lost: when an event or a tick is handled at least 200
    milliseconds after the last refresh (or before any), every tab that waits for one gets it,
    by a fetch when it is shown, by dropping its data otherwise; sooner, nothing is fetched and
    the tab goes on waiting. *)
Theorem events_settled m msg m' cmds tab :
  (msg = Msg.Tick ∨ ∃ items, msg = Msg.UiEvent items) → tab ∈ waiting m msg →
  update now m msg = Some (m', cmds) →
  if due (ui_event_throttle m) then settled tab m m' cmds ∧ UiEventThrottle.dirty (ui_event_throttle m') = ∅
  else tab ∈ UiEventThrottle.dirty (ui_event_throttle m') ∧ cmds = [].
Proof.
  intros Hmsg Hw Hu. rewrite unfolds in Hu.
  assert (∃ m0, update_body now (update now) m msg = Some (flush_if_due now m0) ∧
    tab ∈ UiEventThrottle.dirty (ui_event_throttle m0) ∧
    UiEventThrottle.cooldown_start (ui_event_throttle m0) = UiEventThrottle.cooldown_start (ui_event_throttle m) ∧
    NavigationModel.active_tab (navigation_model m0) = NavigationModel.active_tab (navigation_model m) ∧
    ∀ t, fetch_cmd_for_tab t m0 = fetch_cmd_for_tab t m) as (m0 & E & Hin & Hc & Ha & Hf).
  { destruct Hmsg as [->|[items ->]]; cbn [update_body]; (eexists; split; [reflexivity|]); unfold waiting in Hw.
    - case_match; (split; [set_solver|split_and!; [done..|by intros []]]).
    - split; [exact Hw|split_and!; [done..|by intros []]]. }
  rewrite E in Hu. destruct (flush_if_due now m0) as [m1 c1] eqn:Ef. simplify_eq.
  pose proof (flush_settles m0 tab m' cmds Hin Ef) as Hs. unfold due in *. rewrite Hc in Hs.
  destruct (match UiEventThrottle.cooldown_start _ with Some _ => _ | None => _ end).
  - unfold settled in *. rewrite Ha, Hf in Hs. done.
  - destruct Hs as [-> ->]. done.
Qed.
End Events.

(** ** Notifications *)

Section Notify.
Import NotificationModel.

(** What a change of a tracked workflow says on the desktop. *)
Definition announces (conf : NotificationConfig.t) (prev : TrackedFlowState.t) (flow : WorkflowInfo.t)
    (d : DesktopNotification.t) : Prop :=
  let id := WorkflowInfo.ticket_id flow in
  let url := WorkflowInfo.pr_url flow in
  let reason := WorkflowInfo.stall_reason flow in
  (NotificationConfig.flow_stalled conf = true ∧
   TrackedFlowState.stalled prev = false ∧ WorkflowInfo.stalled flow = true ∧
   d = DesktopNotification.mk id "Flow Stalled"
         (id +:+ ": " +:+ (if String.eqb reason "" then "Workflow stalled" else reason)) None) ∨
  (NotificationConfig.flow_in_review conf = true ∧
   TrackedFlowState.status prev ≠ "in_review" ∧ WorkflowInfo.status flow = "in_review" ∧
   d = DesktopNotification.mk id "PR Ready for Review" (id +:+ " is ready for review")
         (if String.eqb url "" then None else Some url)).

Lemma transitions_spec prev flow n c :
  c ∈ (detect_transitions (WorkflowInfo.ticket_id flow) prev (TrackedFlowState.from_workflow flow) n).2 ↔
  ∃ d, c = Cmd.FireDesktopNotification d ∧ desktop_available n = true ∧ announces (config n) prev flow d.
Proof.
  unfold detect_transitions, announces, stalled_now, in_review_now. cbv zeta. cbn [snd].
  destruct (String.eqb_spec (TrackedFlowState.status prev) "in_review") as [Ep|Ep];
    cbn [TrackedFlowState.from_workflow TrackedFlowState.status TrackedFlowState.stalled TrackedFlowState.stall_reason
         TrackedFlowState.pr_url];
    destruct (String.eqb_spec (WorkflowInfo.status flow) "in_review") as [Ef|Ef];
    destruct (NotificationConfig.flow_stalled (config n)), (NotificationConfig.flow_in_review (config n)),
      (TrackedFlowState.stalled prev), (WorkflowInfo.stalled flow), (desktop_available n);
    cbn [andb negb app snd]; destruct (String.eqb (WorkflowInfo.stall_reason flow) "");
    rewrite ?elem_of_cons, ?elem_of_nil; (split; [|naive_solver]); intros Hc;
    try naive_solver; try (by destruct Hc).
Qed.

Lemma process_cons flow flows n :
  process_flow_updates (flow :: flows) n =
  let r := process_flow flow n in let r' := process_flow_updates flows r.2 in
  (r.1.1 ++ r'.1.1, r.1.2 ++ r'.1.2, r'.2).
Proof.
  cbn [process_flow_updates]. destruct (process_flow flow n) as [[msgs cmds] n1]. cbn [fst snd].
  by destruct (process_flow_updates flows n1) as [[msgs' cmds'] n2].
Qed.
Lemma track_process flow n id : id ≠ WorkflowInfo.ticket_id flow →
  previous_states (process_flow flow n).2 !! id = previous_states n !! id.
Proof. intros Hne. by apply lookup_insert_ne. Qed.
Lemma process_spec flows n c : NoDup (WorkflowInfo.ticket_id <$> flows) →
  c ∈ (process_flow_updates flows n).1.2 ↔
  ∃ d flow prev, c = Cmd.FireDesktopNotification d ∧ desktop_available n = true ∧ flow ∈ flows ∧
    previous_states n !! WorkflowInfo.ticket_id flow = Some prev ∧ announces (config n) prev flow d.
Proof.
  revert n. induction flows as [|flow flows IH]; intros n Hd.
  { simpl. rewrite elem_of_nil. split; [done|]. intros (d & f & p & _ & _ & []%elem_of_nil & _). }
  apply NoDup_cons in Hd as [Hnin Hd]. rewrite process_cons. cbv zeta. cbn [fst snd].
  rewrite elem_of_app, IH by done.
  assert (∀ f, f ∈ flows → previous_states (process_flow flow n).2 !! WorkflowInfo.ticket_id f
                          = previous_states n !! WorkflowInfo.ticket_id f) as Hps.
  { intros f Hf. apply track_process. intros E. apply Hnin. rewrite <- E. by apply list_elem_of_fmap_2. }
  assert ((process_flow flow n).1.2
          = match previous_states n !! WorkflowInfo.ticket_id flow with
            | Some prev => (detect_transitions (WorkflowInfo.ticket_id flow) prev (TrackedFlowState.from_workflow flow) n).2
            | None => [] end) as ->.
  { unfold process_flow. cbn [fst snd]. by destruct (previous_states n !! WorkflowInfo.ticket_id flow). }
  change (config (process_flow flow n).2) with (config n).
  change (desktop_available (process_flow flow n).2) with (desktop_available n). split.
  - intros [Hc|(d & f & prev & ? & ? & Hf & Ep & ?)].
    + destruct (previous_states n !! WorkflowInfo.ticket_id flow) as [prev|] eqn:Ep; [|by apply elem_of_nil in Hc].
      apply transitions_spec in Hc as (d & ? & ? & ?). exists d, flow, prev. split_and!; try done. by left.
    + rewrite Hps in Ep by done. exists d, f, prev. split_and!; try done. by right.
  - intros (d & f & prev & ? & ? & [->|Hf]%elem_of_cons & Ep & ?).
    + left. rewrite Ep. apply transitions_spec. by exists d.
    + right. exists d, f, prev. by rewrite Hps.
Qed.
(** Workflows whose state is tracked as it is. *)
Definition known (flows : list WorkflowInfo.t) (n : t) : Prop :=
  Forall (λ f, previous_states n !! WorkflowInfo.ticket_id f = Some (TrackedFlowState.from_workflow f)) flows.
Lemma process_tracks flows n id : id ∉ (WorkflowInfo.ticket_id <$> flows) →
  previous_states (process_flow_updates flows n).2 !! id = previous_states n !! id.
Proof.
  revert n. induction flows as [|flow flows IH]; intros n Hn; [done|]. rewrite fmap_cons, not_elem_of_cons in Hn.
  rewrite process_cons. cbn [snd]. rewrite IH by apply Hn. by apply track_process, Hn.
Qed.
Lemma process_known flows n : NoDup (WorkflowInfo.ticket_id <$> flows) → known flows (process_flow_updates flows n).2.
Proof.
  unfold known. revert n. induction flows as [|flow flows IH]; intros n Hd; [constructor|].
  apply NoDup_cons in Hd as [Hnin Hd]. rewrite process_cons. cbn [snd].
  constructor; [|by apply IH]. rewrite process_tracks by done. by apply lookup_insert_eq.
Qed.
Lemma detect_same id st n : detect_transitions id st st n = ([], []).
Proof.
  unfold detect_transitions, stalled_now, in_review_now.
  by destruct (NotificationConfig.flow_stalled _), (NotificationConfig.flow_in_review _), (TrackedFlowState.stalled st),
    (String.eqb _ "in_review").
Qed.
Lemma process_again flows n : known flows n → process_flow_updates flows n = ([], [], n).
Proof.
  unfold known. induction 1 as [|flow flows Hf Hk IH]; [done|]. rewrite process_cons. unfold process_flow.
  rewrite Hf, detect_same. cbn [fst snd].
  assert (track (WorkflowInfo.ticket_id flow) (TrackedFlowState.from_workflow flow) n = n) as ->.
  { unfold track. rewrite insert_id by done. by destruct n. }
  by rewrite IH.
Qed.
End Notify.

(** What a load of the workflows does to the notifications, and its commands. *)
Lemma flows_loaded_parts `{UiEnv} now m flows n m' cmds :
  update now m (Msg.Data (DataMsg.FlowsLoaded (Ok (flows, n)))) = Some (m', cmds) →
  let r := NotificationModel.process_flow_updates flows (notifications m) in
  cmds = r.1.2 ∧ notifications m' = r.2 ∧ (r.1.1 = [] → banner m' = banner m).
Proof.
  rewrite unfolds. cbn [update_body handle_data]. unfold handle_flows_loaded.
  pose proof (process_banners flows (notifications m)) as Hb.
  destruct (NotificationModel.process_flow_updates _ _) as [[msgs c] notifs]. cbv zeta. cbn [fst snd] in *.
  set (m1 := match flow_detail _ with Some _ => _ | None => _ end).
  assert (notifications m1 = notifs ∧ banner m1 = banner m) as [Hn Hba].
  { unfold m1, init_flow_detail, Flows.clamp_selection, Flows.apply_flows_data. cbv zeta. by repeat case_match. }
  unfold show_last. destruct (last msgs) as [msg|] eqn:E.
  - assert (is_banner msg) as Hm by (rewrite Forall_forall in Hb; by apply Hb, last_Some_elem_of).
    destruct msg; try done. autorewrite with ui. intros [= <- <-]. rewrite app_nil_r.
    split_and!; [done..|]. by intros ->.
  - intros [= <- <-]. done.
Qed.


(** ** What the pages do not do as they say *)

Section Slips.
Context `{UiEnv} (now : Z).

(** Reopening a child closes it. *)
Lemma detail_open_closes m t : selected_child m = Some t →
  update now m (Msg.Nav NavMsg.TicketDetailOpen)
  = Some (set_status (Some ("Reopening " +:+ PTicket.id t +:+ "...")) m,
          [Cmd.TicketOp (TicketOpMsg.Close (PTicket.id t))]).
Proof.
  intros Ht. rewrite update_nav. cbn [dispatch_page_nav handle_ticket_detail_nav].
  unfold handle_detail_open, if_some. rewrite Ht. by autorewrite with ui.
Qed.
(** The branch of a child is never asked for. *)
Lemma detail_branch_ignored m : update now m (Msg.Nav NavMsg.TicketDetailBranch) = Some (m, []).
Proof. rewrite update_nav. by destruct m. Qed.
(** Switching to another tab leaves the handlers of the pages above the root. *)
Lemma leaked_handlers m rest : NavigationModel.active_tab (navigation_model m) = TabId.Tickets →
  NavigationModel.tab_stacks (navigation_model m) !! TabId.Tickets = Some (PageId.TicketList :: rest) →
  NavigationModel.tab_stacks (navigation_model m) !! TabId.Flows = Some [PageId.FlowList] →
  ∃ m' cmds, update now m (Msg.Nav (NavMsg.TabSwitch TabId.Flows)) = Some (m', cmds) ∧
    NavigationModel.current_page (navigation_model m') = Some PageId.FlowList ∧ input_stack m' = input_stack m.
Proof.
  intros Ha Ht Hf. rewrite switch_tab_msg. unfold navigating, Nav.switch_tab. rewrite Ha, Ht.
  rewrite bool_decide_eq_false_2 by done. cbn [mbind option_bind head].
  unfold Nav.init_current, NavigationModel.current_page.
  cbn [NavigationModel.active_tab NavigationModel.tab_stacks]. rewrite Hf. cbn [mbind option_bind last].
  eexists _, _. split; [reflexivity|]. cbn [fst snd]. split; [|done].
  change (navigation_model (set_navigation_model ?n _)) with n. cbn [NavigationModel.active_tab NavigationModel.tab_stacks].
  by rewrite Hf.
Qed.
(** Neither the data nor the page of the workflows is changed by clamping the selection. *)
Lemma clamp_list m : ∃ r, flow_list (Flows.clamp_selection m)
  = FlowListModel.mk (FlowListModel.data (flow_list m)) r (FlowListModel.current_page (flow_list m)).
Proof.
  unfold Flows.clamp_selection. cbv zeta. repeat case_match; try (by eexists).
  exists (FlowListModel.selected_row (flow_list m)). by destruct (flow_list m).
Qed.
Lemma applied_page d m : FlowListModel.current_page (flow_list (Flows.apply_flows_data d m))
  = FlowListModel.current_page (flow_list m).
Proof. unfold Flows.apply_flows_data. cbv zeta. by case_match. Qed.
Lemma shown_list id m : flow_list (init_flow_detail id m).1 = flow_list m.
Proof. unfold init_flow_detail. by case_match. Qed.
(** On a later page of the workflows, what the server answers for it is cut away. *)
Lemma later_page_empty m flows n m' cmds : 1 ≤ FlowListModel.current_page (flow_list m) → length flows ≤ FLOW_PAGE_SIZE →
  update now m (Msg.Data (DataMsg.FlowsLoaded (Ok (flows, n)))) = Some (m', cmds) →
  Flows.selected_workflow m' = None.
Proof.
  intros Hp Hl Hu.
  assert (∃ r, flow_list m' = FlowListModel.mk (Loaded (FlowListData.mk flows n)) r (FlowListModel.current_page (flow_list m)))
    as [r E].
  { rewrite unfolds in Hu. cbn [update_body handle_data] in Hu. unfold handle_flows_loaded in Hu.
    pose proof (process_banners flows (notifications m)) as Hb.
    destruct (NotificationModel.process_flow_updates _ _) as [[msgs c] notifs]. cbv zeta in Hu. cbn [fst snd] in *.
    set (m1 := Flows.clamp_selection _) in Hu.
    set (m2 := match flow_detail m1 with Some _ => _ | None => _ end) in Hu.
    assert (flow_list m' = flow_list m1) as ->.
    { transitivity (flow_list m2).
      - unfold show_last in Hu. destruct (last msgs) as [msg|] eqn:E; [|by injection Hu as <- _].
        assert (is_banner msg) as Hm by (rewrite Forall_forall in Hb; by apply Hb, last_Some_elem_of).
        destruct msg; try done. rewrite update_banner in Hu. by injection Hu as <- _.
      - unfold m2. case_match; [apply shown_list|done]. }
    unfold m1. destruct (clamp_list (set_flow_data (Loaded (FlowListData.mk flows n))
      (Flows.apply_flows_data (FlowListData.mk flows n) (set_notifications notifs m)))) as [r ->].
    exists r. simpl. by rewrite applied_page. }
  unfold Flows.selected_workflow, Flows.loaded. rewrite E.
  cbn [FlowListModel.data FlowListModel.current_page load_data FlowListData.workflows].
  unfold page_slice. rewrite drop_ge; [by rewrite take_nil|]. unfold FLOW_PAGE_SIZE in *. lia.
Qed.
End Slips.

(** ** Examples *)

Definition sample_row (id project : string) : PTicket.t :=
  PTicket.mk id "code" "open" 1 "" "a title" "" "" "" project "" 0 0 0 "" false.
Definition sample_list (project : string) : Model :=
  mkModel false NavigationModel.initial [GlobalHandler]
    (TicketListModel.mk Loading (TicketTableModel.mk [sample_row "ur-1" project] 1 0 0 20)) None
    (FlowListModel.mk NotLoaded 0 0) None (WorkerListModel.mk NotLoaded 0 0)
    UiEventThrottle.new None None None TicketFilters.default None None
    ScrollableMarkdownModel.default
    (NotificationModel.new NotificationConfig.default true) None [] None {["notes"]}.
Definition key_D : Msg.t := Msg.KeyPressed (KeyEvent.mk (KeyCode.Char "D") KeyModifiers.SHIFT).
(** The command of a dispatch of [ur-1], and none for a ticket of a local project. *)
Lemma local_dispatch_refused_witness :
  (∃ m' cmds, @update sample_env 0 (sample_list "ur") key_D = Some (m', cmds) ∧
     TicketOpMsg.Dispatch "ur-1" "ur" "" ∈ issues cmds) ∧
  dispatch_is_blocked_by_locality "ur" (sample_list "ur") = false ∧
  (∃ m', @update sample_env 0 (sample_list "notes") key_D = Some (m', []) ∧ is_Some (banner m')).
Proof.
  split_and!.
  - eexists _, _. split; [vm_compute; reflexivity|]. by left.
  - eapply (@local_dispatch_refused sample_env 0 (sample_list "ur") key_D);
      [done|vm_compute; reflexivity|by left|reflexivity].
  - eexists. split; [vm_compute; reflexivity|by eexists].
Defined.

Definition sample_waiting : Model :=
  set_ui_event_throttle (UiEventThrottle.mk {[TabId.Flows]} ∅ (Some 1000%Z)) (sample_list "ur").
(** 300 milliseconds after the last refresh the events of a worker and a workflow are handled. *)
Lemma events_settled_witness :
  ∃ m' cmds, @update sample_env 1300 sample_waiting (Msg.UiEvent [UiEventItem.mk "worker" "w"]) = Some (m', cmds) ∧
    @settled TabId.Workers sample_waiting m' cmds ∧ UiEventThrottle.dirty (ui_event_throttle m') = ∅.
Proof.
  destruct (@update sample_env 1300 sample_waiting (Msg.UiEvent [UiEventItem.mk "worker" "w"])) as [[m' cmds]|] eqn:E;
    [|by vm_compute in E].
  exists m', cmds. split; [done|].
  exact (@events_settled sample_env sample_env_lawful 1300 sample_waiting (Msg.UiEvent [UiEventItem.mk "worker" "w"])
    m' cmds TabId.Workers (or_intror (ex_intro _ _ eq_refl)) ltac:(by vm_compute) E).
Defined.

Definition sample_flow (status : string) (stalled : bool) : WorkflowInfo.t :=
  WorkflowInfo.mk "1" "ur-1" status stalled "no disk" 0 "" "" "" "http://pr" [] 0 0 "a title".
Definition sample_notified : Model :=
  set_notifications (NotificationModel.track "ur-1" (TrackedFlowState.from_workflow (sample_flow "pushing" false))
    (NotificationModel.new NotificationConfig.default true)) (sample_list "ur").
