(* ===== verification/UiSession.v ===== *)
(** * The terminal interface: whole sessions

    What holds after any messages from outside: the stacks of pages keep their roots,
    the global handler stays at the bottom of the input stack, no index is out of
    range, and so [update] never panics. *)

From S2P Require Import Prelude RustStd TextLemmas Model TicketService UiModel UiState UiKeys CreateTicket UiPages UiHandlers UiOverlay UiUpdate.
Local Open Scope stdpp_scope.

(** ** The invariant *)

Definition root_page (tab : TabId.t) : PageId.t :=
  match tab with
  | TabId.Tickets => PageId.TicketList
  | TabId.Flows => PageId.FlowList
  | TabId.Workers => PageId.WorkerList
  | TabId.Help => PageId.HelpPage
  end.
(** The handlers that a page pushes when it starts and pops when it is left. *)
Definition handlers (page : PageId.t) : nat :=
  match page with
  | PageId.TicketActivities _ _ | PageId.TicketBody _ _ _ | PageId.HelpPage => 1
  | _ => 0
  end.
Definition extra (pages : list PageId.t) : nat := sum_list (handlers <$> pages).
Definition above (stacks : gmap TabId.t (list PageId.t)) (tab : TabId.t) : nat :=
  extra (tail (default [] (stacks !! tab))).
(** The handlers that will still be popped: those of the pages above the roots, and the
    help page's while it is shown. *)
Definition needed (n : NavigationModel.t) : nat :=
  let s := NavigationModel.tab_stacks n in
  above s TabId.Tickets + above s TabId.Flows + above s TabId.Workers
  + handlers (root_page (NavigationModel.active_tab n)).

Record nav_ok (n : NavigationModel.t) (st : InputStack) : Prop := {
  ok_roots tab : ∃ rest, NavigationModel.tab_stacks n !! tab = Some (root_page tab :: rest);
  ok_help : NavigationModel.tab_stacks n !! TabId.Help = Some [PageId.HelpPage];
  ok_handlers : ∃ hs, st = GlobalHandler :: hs ∧ needed n ≤ length hs
}.
Definition overlay_ok (tab : TabId.t) (o : option ActiveOverlay.t) : Prop :=
  match o with
  | Some (ActiveOverlay.FilterMenu cursor expanded sub_cursor) =>
      cursor < length CATEGORIES ∧
      match expanded with
      | Some cat => filter_submenu_count cat = 0 ∨ sub_cursor < filter_submenu_count cat
      | None => True
      end
  | Some (ActiveOverlay.Settings _ _ col cursors _ _ _) => col < 3 ∧ length cursors = 3
  | Some (ActiveOverlay.GotoMenu _ _) => tab ≠ TabId.Help
  | _ => True
  end.
Definition tab_of (m : Model) : TabId.t := NavigationModel.active_tab (navigation_model m).
Definition ui_ok (m : Model) : Prop :=
  nav_ok (navigation_model m) (input_stack m) ∧ overlay_ok (tab_of m) (active_overlay m).

(** ** Handlers of the input stack *)

Lemma extra_cons page pages : extra (page :: pages) = handlers page + extra pages.
Proof. reflexivity. Qed.
Lemma extra_app a b : extra (a ++ b) = extra a + extra b.
Proof. induction a as [|x a IH]; [done|]. rewrite <- app_comm_cons, !extra_cons, IH. lia. Qed.
Lemma extra_rev a : extra (rev a) = extra a.
Proof. induction a as [|x a IH]; [done|]. simpl. rewrite extra_app, IH, !extra_cons. unfold extra at 2. simpl. lia. Qed.

Lemma removelast_length {A} (l : list A) : length (removelast l) = length l - 1.
Proof. induction l as [|x [|y l] IH]; [done..|]. simpl in *. lia. Qed.
Lemma pop_keeps hs k : k < length hs →
  ∃ hs', stack_pop (GlobalHandler :: hs) = GlobalHandler :: hs' ∧ k ≤ length hs'.
Proof.
  intros Hk. exists (removelast hs). rewrite removelast_length. split; [|lia].
  unfold stack_pop. destruct hs; [simpl in *; lia|done].
Qed.

Lemma pop_handlers_frame k m :
  navigation_model (pop_handlers k m) = navigation_model m ∧ active_overlay (pop_handlers k m) = active_overlay m.
Proof. revert m. induction k as [|k IH]; intros m; [done|]. apply (IH (set_input_stack _ m)). Qed.
Lemma pop_handlers_keeps k r hs m : input_stack m = GlobalHandler :: hs → k + r ≤ length hs →
  ∃ hs', input_stack (pop_handlers k m) = GlobalHandler :: hs' ∧ r ≤ length hs'.
Proof.
  revert m hs. induction k as [|k IH]; intros m hs Hm Hl; [by exists hs|]. simpl.
  destruct (pop_keeps hs (k + r)) as (hs' & Hs & Hl'); [lia|].
  apply (IH _ hs'); [|done]. simpl. by rewrite Hm.
Qed.

Lemma leave_frame page m :
  navigation_model (leave_page page m) = navigation_model m ∧ active_overlay (leave_page page m) = active_overlay m.
Proof.
  unfold leave_page. destruct (pop_handlers_frame (teardown_page page m).2 (teardown_page page m).1) as [-> ->].
  by destruct page.
Qed.
Lemma leave_keeps page r hs m : input_stack m = GlobalHandler :: hs → handlers page + r ≤ length hs →
  ∃ hs', input_stack (leave_page page m) = GlobalHandler :: hs' ∧ r ≤ length hs'.
Proof.
  intros Hm Hl. unfold leave_page. apply (pop_handlers_keeps _ _ hs); [by destruct page|].
  by destruct page.
Qed.
Lemma leave_all_frame pages m :
  navigation_model (Nav.leave_all pages m) = navigation_model m ∧
  active_overlay (Nav.leave_all pages m) = active_overlay m.
Proof.
  revert m. induction pages as [|page pages IH]; intros m; [done|]. simpl.
  destruct (IH (leave_page page m)) as [-> ->]. apply leave_frame.
Qed.
Lemma leave_all_keeps pages r hs m : input_stack m = GlobalHandler :: hs →
  extra pages + r ≤ length hs →
  ∃ hs', input_stack (Nav.leave_all pages m) = GlobalHandler :: hs' ∧ r ≤ length hs'.
Proof.
  revert m hs. induction pages as [|page pages IH]; intros m hs Hm Hl; [by exists hs|].
  rewrite extra_cons in Hl.
  destruct (leave_keeps page (extra pages + r) hs m Hm) as (hs' & Hm' & Hl'); [lia|].
  by apply (IH _ hs').
Qed.

Lemma init_frame page m :
  navigation_model (init_page page m).1 = navigation_model m ∧ active_overlay (init_page page m).1 = active_overlay m.
Proof. destruct page; try done. simpl. unfold init_flow_detail. by case_match. Qed.
Lemma init_keeps page r hs m : input_stack m = GlobalHandler :: hs → r ≤ handlers page + length hs →
  ∃ hs', input_stack (init_page page m).1 = GlobalHandler :: hs' ∧ r ≤ length hs'.
Proof.
  intros Hm Hl.
  assert (Hpush : ∀ h, ∃ hs', stack_push h (GlobalHandler :: hs) = GlobalHandler :: hs' ∧ length hs' = S (length hs)).
  { intros h. exists (hs ++ [h]). split; [done|]. rewrite length_app. simpl. lia. }
  destruct page as [|id|id title|id title body| |id| |];
    try (exists hs; split; [done|exact Hl]); simpl in *; rewrite ?Hm.
  all: try (match goal with |- context [stack_push ?h _] => destruct (Hpush h) as (hs' & -> & Hl') end;
            exists hs'; split; [done|lia]).
  exists hs. split; [|done]. unfold init_flow_detail. by case_match.
Qed.

(** ** Navigation *)

Lemma above_insert tab t stack s :
  above (<[tab := stack]> s) t = if bool_decide (t = tab) then extra (tail stack) else above s t.
Proof.
  unfold above. case_bool_decide as E; [subst; by rewrite lookup_insert_eq|by rewrite lookup_insert_ne].
Qed.
(** The stack of the active tab: its root, and what is above it. *)
Lemma active_stack n st : nav_ok n st →
  ∃ rest, NavigationModel.tab_stacks n !! NavigationModel.active_tab n
            = Some (root_page (NavigationModel.active_tab n) :: rest) ∧
          (NavigationModel.active_tab n = TabId.Help → rest = []).
Proof.
  intros [Hr Hh _]. destruct (Hr (NavigationModel.active_tab n)) as [rest E]. exists rest. split; [done|].
  intros Ha. rewrite Ha, Hh in E. by simplify_eq.
Qed.
Lemma needed_set n root rest rest' :
  NavigationModel.tab_stacks n !! NavigationModel.active_tab n = Some (root :: rest) →
  (NavigationModel.active_tab n = TabId.Help → rest' = rest) →
  needed (Nav.set_stack (root :: rest') n) + extra rest = needed n + extra rest'.
Proof.
  intros E Hh. unfold needed, Nav.set_stack. simpl. rewrite !above_insert.
  assert (above (NavigationModel.tab_stacks n) (NavigationModel.active_tab n) = extra rest) as Ha.
  { unfold above. by rewrite E. }
  destruct (NavigationModel.active_tab n); simpl in *; rewrite ?Hh by done; unfold extra in *; lia.
Qed.
(** A changed stack of the active tab. *)
Lemma set_stack_ok n st rest hs : nav_ok n st → (NavigationModel.active_tab n = TabId.Help → rest = []) →
  needed (Nav.set_stack (root_page (NavigationModel.active_tab n) :: rest) n) ≤ length hs →
  nav_ok (Nav.set_stack (root_page (NavigationModel.active_tab n) :: rest) n) (GlobalHandler :: hs).
Proof.
  intros [Hr Hh _] Hrest Hn. split; simpl.
  - intros tab. destruct (decide (NavigationModel.active_tab n = tab)) as [<-|Hne].
    + exists rest. by rewrite lookup_insert_eq.
    + rewrite lookup_insert_ne by done. apply Hr.
  - destruct (decide (NavigationModel.active_tab n = TabId.Help)) as [E|Hne].
    + rewrite Hrest by done. by rewrite E, lookup_insert_eq.
    + by rewrite lookup_insert_ne.
  - by exists hs.
Qed.

(** A move that succeeds, keeps the invariant and leaves the overlay alone. *)
Definition moved_ok (r : Nav.moved) (m : Model) (tab : TabId.t) : Prop :=
  ∃ n' m' cmds, r = Some (n', m', cmds) ∧ nav_ok n' (input_stack m') ∧
    active_overlay m' = active_overlay m ∧ NavigationModel.active_tab n' = tab.

Lemma moved_ok_from r m m' tab : active_overlay m' = active_overlay m → moved_ok r m' tab → moved_ok r m tab.
Proof. intros E (n & m'' & cmds & ? & ? & Ho & ?). exists n, m'', cmds. split_and!; [done..|congruence|done]. Qed.
Lemma init_current_ok n m hs page tab : NavigationModel.active_tab n = tab → NavigationModel.current_page n = Some page →
  input_stack m = GlobalHandler :: hs →
  (∀ hs', needed n ≤ length hs' → nav_ok n (GlobalHandler :: hs')) →
  needed n ≤ handlers page + length hs →
  moved_ok (Nav.init_current n m) m tab.
Proof.
  intros Ht Hp Hm Hok Hn. unfold Nav.init_current. rewrite Hp. simpl.
  destruct (init_keeps page (needed n) hs m Hm Hn) as (hs' & Hi & Hl).
  exists n, (init_page page m).1, (init_page page m).2. split_and!; [done| |apply init_frame|done].
  rewrite Hi. by apply Hok.
Qed.
Lemma current_set n stack page : last stack = Some page →
  NavigationModel.current_page (Nav.set_stack stack n) = Some page.
Proof. intros E. unfold NavigationModel.current_page. simpl. by rewrite lookup_insert_eq. Qed.

Lemma push_ok page n m : nav_ok n (input_stack m) → NavigationModel.active_tab n ≠ TabId.Help →
  moved_ok (Nav.push page n m) m (NavigationModel.active_tab n).
Proof.
  intros Hok Hh. destruct (active_stack _ _ Hok) as (rest & E & _). unfold Nav.push. rewrite E. simpl.
  pose proof (needed_set n _ rest (rest ++ [page]) E) as Hn. rewrite extra_app in Hn.
  destruct (ok_handlers _ _ Hok) as (hs & Hs & Hl).
  apply (init_current_ok _ _ hs page); [done|by apply current_set, (last_snoc _ (_ :: rest))|done| |].
  - intros hs'. by apply (set_stack_ok n (input_stack m)).
  - specialize (Hn ltac:(done)). rewrite extra_cons in Hn. change (extra []) with 0 in Hn. lia.
Qed.
Lemma pop_ok n m : nav_ok n (input_stack m) → moved_ok (Nav.pop n m) m (NavigationModel.active_tab n).
Proof.
  intros Hok. destruct (active_stack _ _ Hok) as (rest & E & Hh). unfold Nav.pop. rewrite E. cbn [mbind option_bind].
  destruct rest as [|top rest _] using rev_ind; [by exists n, m, []|].
  rewrite (app_comm_cons rest [top]), last_snoc, removelast_last, length_app.
  destruct (_ <=? _) eqn:El; [apply Nat.leb_le in El; simpl in El; lia|]. simpl.
  pose proof (needed_set n _ (rest ++ [top]) rest E) as Hn. rewrite extra_app in Hn.
  destruct (ok_handlers _ _ Hok) as (hs & Hs & Hl).
  assert (Hnh : NavigationModel.active_tab n ≠ TabId.Help) by (intros Ha; specialize (Hh Ha); by destruct rest).
  specialize (Hn ltac:(done)). rewrite extra_cons in Hn. change (extra []) with 0 in Hn.
  destruct (leave_keeps top (length hs - handlers top) hs m Hs) as (hs' & Hs' & Hl'); [lia|].
  destruct (last (root_page (NavigationModel.active_tab n) :: rest)) as [page|] eqn:El';
    [|by apply last_None in El'].
  apply (moved_ok_from _ _ (leave_page top m)); [apply leave_frame|].
  apply (init_current_ok _ _ hs' page); [done|by apply current_set|done| |lia].
  intros hs''. by apply (set_stack_ok n (input_stack m)).
Qed.

Lemma pop_to_root_ok n m : nav_ok n (input_stack m) → moved_ok (Nav.pop_to_root n m) m (NavigationModel.active_tab n).
Proof.
  intros Hok. destruct (active_stack _ _ Hok) as (rest & E & Hh). unfold Nav.pop_to_root. rewrite E. simpl.
  set (root := root_page (NavigationModel.active_tab n)) in *.
  pose proof (needed_set n root rest [] E) as Hn. change (extra []) with 0 in Hn.
  assert (NavigationModel.active_tab n = TabId.Help → [] = rest) as Hh' by (intros; symmetry; by apply Hh).
  specialize (Hn Hh').
  destruct (ok_handlers _ _ Hok) as (hs & Hs & Hl).
  assert (handlers root ≤ needed (Nav.set_stack [root] n)) as Hroot.
  { unfold needed. simpl. fold root. lia. }
  destruct (leave_all_keeps (rev rest) (needed (Nav.set_stack [root] n)) hs m Hs) as (hs1 & Hs1 & Hl1).
  { rewrite extra_rev. lia. }
  destruct (leave_keeps root (length hs1 - handlers root) hs1 _ Hs1) as (hs2 & Hs2 & Hl2); [lia|].
  apply (moved_ok_from _ _ (leave_page root (Nav.leave_all (rev rest) m))).
  { by rewrite (proj2 (leave_frame _ _)), (proj2 (leave_all_frame _ _)). }
  rewrite take_0. apply (init_current_ok _ _ hs2 root); [done|by apply current_set|done| |lia].
  intros hs'. by apply (set_stack_ok n (input_stack m)).
Qed.
Lemma switch_ok target n m : nav_ok n (input_stack m) → moved_ok (Nav.switch_tab target n m) m target.
Proof.
  intros Hok. unfold Nav.switch_tab. case_bool_decide as Ht; [subst; by apply pop_to_root_ok|].
  destruct (active_stack _ _ Hok) as (rest & E & _). rewrite E. simpl.
  set (root := root_page (NavigationModel.active_tab n)) in *.
  destruct (ok_handlers _ _ Hok) as (hs & Hs & Hl).
  assert (handlers root ≤ needed n) as Hroot by (unfold needed; fold root; lia).
  destruct (leave_keeps root (length hs - handlers root) hs m Hs) as (hs' & Hs' & Hl'); [lia|].
  set (n' := NavigationModel.mk target (NavigationModel.tab_stacks n)).
  assert (needed n' + handlers root = needed n + handlers (root_page target)) as Hn.
  { unfold needed, n'. simpl. fold root. lia. }
  destruct (ok_roots _ _ Hok target) as [rest' Et].
  destruct (last (root_page target :: rest')) as [page|] eqn:El; [|by apply last_None in El].
  assert (handlers (root_page target) ≤ handlers page) as Hp.
  { destruct (decide (target = TabId.Help)) as [->|]; [|destruct target; try done; simpl; lia].
    rewrite (ok_help _ _ Hok) in Et. simplify_eq. simpl in El. by simplify_eq. }
  apply (moved_ok_from _ _ (leave_page root m)); [apply leave_frame|].
  apply (init_current_ok n' _ hs' page target); [done| |done| |lia].
  - unfold NavigationModel.current_page. simpl. rewrite Et. exact El.
  - intros hs2 Hl2. destruct Hok as [Hr Hh _]. split; [done..|by exists hs2].
Qed.

(** ** Messages *)

Section Sessions.
Context `{UiEnv} (now : Z).

(** The outcome is no panic, and keeps the invariant. *)
Definition fine (o : outcome) : Prop := ∃ m cmds, o = Some (m, cmds) ∧ ui_ok m.

(** A change elsewhere. *)
Definition same (m m' : Model) : Prop :=
  navigation_model m' = navigation_model m ∧ input_stack m' = input_stack m ∧ active_overlay m' = active_overlay m.
Lemma same_ok m m' : same m m' → ui_ok m → ui_ok m'.
Proof. unfold ui_ok, tab_of. intros (-> & -> & ->). done. Qed.
Lemma fine_same m m' cmds : same m m' → ui_ok m → fine (Some (m', cmds)).
Proof. intros Hs Hm. exists m', cmds. split; [done|by apply (same_ok m)]. Qed.
Lemma fine_overlay m o cmds : ui_ok m → overlay_ok (tab_of m) (Some o) → fine (Some (open_overlay o m, cmds)).
Proof. intros [Hn _] Ho. by exists (open_overlay o m), cmds. Qed.
Lemma fine_close m cmds : ui_ok m → fine (Some (close_overlay m, cmds)).
Proof. intros [Hn _]. by exists (close_overlay m), cmds. Qed.
Lemma close_ok m : ui_ok m → ui_ok (close_overlay m).
Proof. by intros [Hn _]. Qed.
Lemma fine_some {A} (o : option A) m f : ui_ok m → (∀ a, o = Some a → fine (f a)) → fine (if_some o m f).
Proof. intros Hm Hf. destruct o; [by apply Hf|]. by apply (fine_same m). Qed.

(** Moves, where no overlay is shown. *)
Lemma navigating_fine f m tab : ui_ok m → active_overlay m = None →
  moved_ok (f (navigation_model m) (set_navigation_model NavigationModel.initial m))
    (set_navigation_model NavigationModel.initial m) tab →
  ∃ m' cmds, navigating f m = Some (m', cmds) ∧ ui_ok m' ∧ active_overlay m' = None ∧ tab_of m' = tab.
Proof.
  intros Hm Ho (n' & m' & cmds & E & Hn & Ha & Ht). unfold navigating. rewrite E.
  exists (set_navigation_model n' m'), cmds. simpl in *. rewrite Ho in Ha.
  split_and!; [done| |done|done]. split; [done|]. simpl. by rewrite Ha.
Qed.
Lemma push_fine page m : ui_ok m → active_overlay m = None → tab_of m ≠ TabId.Help →
  fine (navigating (Nav.push page) m).
Proof.
  intros Hm Ho Ht. destruct (navigating_fine (Nav.push page) m (tab_of m)) as (m' & cmds & -> & ? & _); [done..| |].
  - apply push_ok; [apply Hm|done].
  - by exists m', cmds.
Qed.
Lemma switch_fine tab m : ui_ok m → active_overlay m = None →
  ∃ m' cmds, navigating (Nav.switch_tab tab) m = Some (m', cmds) ∧ ui_ok m' ∧ active_overlay m' = None ∧ tab_of m' = tab.
Proof. intros Hm Ho. apply navigating_fine; [done..|]. apply switch_ok, Hm. Qed.

(** *** Navigation *)

(** Navigation that no page has to be shown for. *)
Definition anywhere (msg : NavMsg.t) : Prop :=
  match msg with
  | NavMsg.TabSwitch _ | NavMsg.TabNext | NavMsg.Pop
  | NavMsg.ActivitiesNavigate _ | NavMsg.ActivitiesPageRight | NavMsg.ActivitiesPageLeft
  | NavMsg.ActivitiesCycleFilter | NavMsg.ActivitiesRefresh
  | NavMsg.BodyScrollDown | NavMsg.BodyScrollUp | NavMsg.BodyPageDown | NavMsg.BodyPageUp => True
  | _ => False
  end.

Lemma current_page_some m : ui_ok m → ∃ page, NavigationModel.current_page (navigation_model m) = Some page ∧
  (tab_of m = TabId.Help → page = PageId.HelpPage).
Proof.
  intros [Hn _]. destruct (active_stack _ _ Hn) as (rest & E & Hh). unfold NavigationModel.current_page. rewrite E.
  cbn [mbind option_bind]. destruct (last _) as [page|] eqn:El; [|by apply last_None in El].
  exists page. split; [done|]. unfold tab_of. intros Ht. rewrite Hh, Ht in El by done. simpl in El. by simplify_eq.
Qed.

Ltac plain_fine m :=
  autorewrite with ui; cbn [mbind option_bind];
  match goal with |- fine (Some _) => apply (fine_same m); [done|assumption] end.
Lemma anywhere_fine msg m : ui_ok m → active_overlay m = None → anywhere msg →
  fine (update now m (Msg.Nav msg)).
Proof.
  intros Hm Ho Ha. rewrite update_nav. destruct msg; try done; simpl.
  - destruct (switch_fine tab m) as (m' & cmds & E & ? & _); [done..|].
    exists m', cmds. split; [exact E|done].
  - destruct (switch_fine (TabId.next (tab_of m)) m) as (m' & cmds & E & ? & _); [done..|].
    exists m', cmds. split; [exact E|done].
  - destruct (navigating_fine Nav.pop m (tab_of m)) as (m' & cmds & E & ? & _); [done..| |].
    { apply pop_ok, Hm. }
    exists m', cmds. split; [exact E|done].
  - unfold handle_activities_nav. case_match; plain_fine m.
  - unfold handle_activities_nav. case_match; plain_fine m.
  - unfold handle_activities_nav. case_match; plain_fine m.
  - unfold handle_activities_nav. repeat case_match; plain_fine m.
  - unfold handle_activities_nav. case_match; plain_fine m.
  - destruct (current_page_some m Hm) as (page & E & _). unfold handle_body_nav. rewrite E. simpl.
    repeat case_match; plain_fine m.
  - destruct (current_page_some m Hm) as (page & E & _). unfold handle_body_nav. rewrite E. simpl.
    repeat case_match; plain_fine m.
  - destruct (current_page_some m Hm) as (page & E & _). unfold handle_body_nav. rewrite E. simpl.
    repeat case_match; plain_fine m.
  - destruct (current_page_some m Hm) as (page & E & _). unfold handle_body_nav. rewrite E. simpl.
    repeat case_match; plain_fine m.
Qed.

(** What the pages' handlers do with a ticket. *)
Lemma ticket_fine t m : ui_ok m → tab_of m ≠ TabId.Help →
  fine (ask_priority (update now) t m) ∧ fine (ask_type (update now) t m) ∧ fine (close_or_ask (update now) t m) ∧
  fine (dispatch_by_type (update now) t m) ∧
  fine (local_project_dispatch_banner (update now) (PTicket.project t) m) ∧
  fine (reminder_dispatch_banner (update now) (PTicket.id t) m).
Proof.
  intros Hm Ht. unfold ask_priority, ask_type, close_or_ask, dispatch_by_type, local_project_dispatch_banner,
    reminder_dispatch_banner.
  split_and!; try case_match; autorewrite with ui; first [by apply fine_overlay | by apply (fine_same m)].
Qed.
Lemma goto_fine targets m : ui_ok m → tab_of m ≠ TabId.Help → fine (open_goto (update now) targets m).
Proof. intros Hm Ht. unfold open_goto. autorewrite with ui. by apply fine_overlay. Qed.

Ltac on_page m t := cbv zeta;
  match goal with
  | |- fine (navigating _ _) => apply push_fine; assumption
  | |- fine (open_goto _ _ _) => apply goto_fine; assumption
  | |- fine (ask_priority _ _ _) => apply (ticket_fine t); assumption
  | |- fine (ask_type _ _ _) => apply (ticket_fine t); assumption
  | |- fine (close_or_ask _ _ _) => apply (ticket_fine t); assumption
  | |- fine (dispatch_by_type _ _ _) => apply (ticket_fine t); assumption
  | |- fine (local_project_dispatch_banner _ _ _) => apply (ticket_fine t); assumption
  | |- fine (reminder_dispatch_banner _ _ _) => apply (ticket_fine t); assumption
  | |- fine (match _ with _ => _ end) => case_match; on_page m t
  | _ => plain_fine m
  end.
Lemma list_nav_fine msg m : ui_ok m → active_overlay m = None → tab_of m ≠ TabId.Help →
  fine (handle_ticket_table_nav (update now) msg m).
Proof.
  intros Hm Ho Ht. destruct msg; try (by apply (fine_same m)); simpl; try (case_match; plain_fine m).
  all: apply fine_some; [done|]; intros t _; try on_page m t.
Qed.
Lemma detail_nav_fine msg m : ui_ok m → active_overlay m = None → tab_of m ≠ TabId.Help →
  fine (handle_ticket_detail_nav (update now) msg m).
Proof.
  intros Hm Ho Ht.
  assert (Hset : ∀ f cmds, fine (Some (match ticket_detail m with Some d => set_detail (f d) m | None => m end, cmds))).
  { intros f cmds. apply (fine_same m); [by case_match|done]. }
  destruct msg; try (by apply (fine_same m)); simpl; try apply Hset.
  all: try (unfold start_create_child_flow; repeat case_match; plain_fine m).
  all: try (apply fine_some; [done|]; intros t _).
  all: try on_page m t.
  - cbv zeta. destruct (dispatch_is_blocked_by_locality _ m); [|plain_fine m]. unfold local_project_dispatch_banner. plain_fine m.
  - autorewrite with ui. by apply fine_overlay.
Qed.
Lemma on_flow_fine {A} (o : option A) (id : A → string) op m : ui_ok m → tab_of m ≠ TabId.Help →
  op ∈ [cancel_msg; approve_msg; stall_msg; redrive_msg; flow_goto_msg] →
  fine (if_some o m (λ a, update now m (op (id a)))).
Proof.
  intros Hm Ht Hop. apply fine_some; [done|]. intros a _.
  unfold cancel_msg, approve_msg, stall_msg, redrive_msg, flow_goto_msg in Hop.
  repeat (apply elem_of_cons in Hop as [->|Hop]; [autorewrite with ui; first [by apply (fine_same m)|by apply fine_overlay]|]).
  by apply elem_of_nil in Hop.
Qed.
Lemma nav_fine msg m : ui_ok m → active_overlay m = None → tab_of m ≠ TabId.Help →
  fine (update now m (Msg.Nav msg)).
Proof.
  intros Hm Ho Ht. destruct msg; try (by apply anywhere_fine); rewrite update_nav;
    try (by apply list_nav_fine); try (by apply detail_nav_fine); cbn [dispatch_page_nav].
  all: try (apply on_flow_fine; [done..|set_solver]).
  all: try (plain_fine m).
  all: cbn [handle_flows_nav handle_workers_nav].
  all: try (plain_fine m).
  all: try (apply (fine_same m); [|done]; unfold Flows.flows_navigate, Flows.flows_page_right, Flows.flows_page_left,
    Workers.workers_navigate, Workers.workers_page_right, Workers.workers_page_left; cbv zeta; by case_match).
  - by apply push_fine.
  - destruct (navigating_fine (Nav.goto page) m (tab_of m)) as (m' & cmds & E & ? & _); [done..| |by exists m', cmds].
    unfold Nav.goto. destruct (current_page_some m Hm) as (page' & -> & _). cbn [mbind option_bind].
    case_bool_decide; [|by apply push_ok; [apply Hm|]].
    exists (navigation_model m), (set_navigation_model NavigationModel.initial m), []. split_and!; try done. apply Hm.
  - destruct (navigating_fine (λ nav m, Some (nav, m, [])) m (tab_of m)) as (m' & cmds & E & ? & _);
      [done..| |by exists m', cmds].
    exists (navigation_model m), (set_navigation_model NavigationModel.initial m), []. split_and!; try done. apply Hm.
  - apply fine_some; [done|]. intros wf _. by apply push_fine.
  - apply (fine_same m); [|done]. unfold Workers.handle_kill, Workers.clamp_selection. cbv zeta.
    by repeat case_match.
  - unfold Workers.handle_goto. case_match; [by apply fine_overlay|by apply (fine_same m)].
Qed.

(** *** Overlays *)

(** Every overlay message but those that depend on the tab. *)
Definition safe_overlay (msg : OverlayMsg.t) : Prop :=
  match msg with OverlayMsg.OpenGotoMenu _ | OverlayMsg.GotoSelected _ => False | _ => True end.

Lemma goto_selected_fine target m : ui_ok m → active_overlay m = None → tab_of m ≠ TabId.Help →
  fine (handle_goto_selected (update now) target m).
Proof.
  intros Hm Ho Ht. unfold handle_goto_selected. rewrite !switch_tab_msg.
  assert (Hsw : ∀ tab, fine (navigating (Nav.switch_tab tab) m)).
  { intros tab. destruct (switch_fine tab m) as (m' & cmds & E & ? & _); [done..|]. by exists m', cmds. }
  assert (Hfl : fine (r ← navigating (Nav.switch_tab TabId.Flows) m;
      r' ← navigating (Nav.push (PageId.FlowDetail (GotoTarget.id target))) r.1; Some (r'.1, r.2 ++ r'.2))).
  { destruct (switch_fine TabId.Flows m) as (m' & cmds & -> & Hm' & Ho' & Ht'); [done..|]. cbn [mbind option_bind fst snd].
    destruct (push_fine (PageId.FlowDetail (GotoTarget.id target)) m') as (m2 & cmds2 & -> & ?); [done..|by rewrite Ht'|].
    by exists m2, (cmds ++ cmds2). }
  repeat case_match; first [done | apply Hsw | by apply push_fine | by apply (fine_same m)].
Qed.
Lemma select_target_fine targets cursor m : ui_ok m → tab_of m ≠ TabId.Help →
  fine (select_target (update now) targets cursor m).
Proof.
  intros Hm Ht. unfold select_target. case_match; [|by apply (fine_same m)].
  rewrite goto_selected. apply goto_selected_fine; [by apply close_ok|done..].
Qed.

Lemma step_cursor_lt delta count cursor : cursor < count → step_cursor delta count cursor < count.
Proof.
  intros Hc. unfold step_cursor.
  repeat match goal with |- context [if ?b then _ else _] => destruct b eqn:? end; try lia.
  apply andb_prop in Heqb as [[_ _]%andb_prop Hl]. apply Nat.ltb_lt in Hl. lia.
Qed.

(** A cursor of the filter menu. *)
Lemma toggle_fine cat index m : ui_ok m → filter_submenu_count cat = 0 ∨ index < filter_submenu_count cat →
  fine (m' ← toggle_filter_item cat index m; Some (m', [])).
Proof.
  intros Hm Hi. destruct cat; cbn [toggle_filter_item]; try (by apply (fine_same m)).
  - destruct (lookup_lt_is_Some_2 STATUS_OPTIONS index) as [v ->]; [simpl in *; lia|]. by apply (fine_same m).
  - destruct (lookup_lt_is_Some_2 PRIORITY_OPTIONS index) as [v ->]; [simpl in *; lia|]. by apply (fine_same m).
Qed.
Lemma activate_fine m : ui_ok m → fine (m' ← handle_filter_activate m; Some (m', [])).
Proof.
  intros Hm. unfold handle_filter_activate.
  destruct (active_overlay m) as [o|] eqn:Eo; [|by apply (fine_same m)].
  destruct o; try (by apply (fine_same m)).
  pose proof (proj2 Hm) as Ho. rewrite Eo in Ho. destruct Ho as [Hc He].
  destruct expanded as [cat|]; [by apply toggle_fine|].
  destruct (lookup_lt_is_Some_2 CATEGORIES cursor Hc) as [cat Ec]. rewrite Ec. cbn [mbind option_bind].
  case_bool_decide; [by apply (fine_same m)|]. apply fine_overlay; [done|]. split; [done|].
  destruct cat; simpl; lia.
Qed.
Lemma quick_toggle_fine c m : ui_ok m → fine (m' ← handle_filter_quick_toggle c m; Some (m', [])).
Proof.
  intros Hm. unfold handle_filter_quick_toggle.
  destruct (active_overlay m) as [o|] eqn:Eo; [|by apply (fine_same m)].
  destruct o; try (by apply (fine_same m)).
  destruct expanded as [cat|]; cbv zeta.
  - destruct (match cat with FilterPriority => _ | _ => _ end) as [index|]; [|by apply (fine_same m)].
    destruct (_ <? _) eqn:Ei; [|by apply (fine_same m)]. apply Nat.ltb_lt in Ei. apply toggle_fine; [done|by right].
  - destruct (_ && _) eqn:Ed; [|by apply (fine_same m)].
    apply andb_prop in Ed as [Hd1%Nat.leb_le Hd2%Nat.leb_le].
    apply activate_fine. split; [apply Hm|]. split; [|done]. lia.
Qed.
Lemma navigate_fine delta m : ui_ok m → fine (Some (handle_filter_navigate delta m, [])).
Proof.
  intros Hm. unfold handle_filter_navigate.
  destruct (active_overlay m) as [o|] eqn:Eo; [|by apply (fine_same m)].
  destruct o; try (by apply (fine_same m)).
  pose proof (proj2 Hm) as Ho. rewrite Eo in Ho. destruct Ho as [Hc He].
  apply fine_overlay; [done|]. destruct expanded as [cat|].
  - split; [done|]. destruct He as [|Hs]; [by left|right; by apply step_cursor_lt].
  - split; [by apply step_cursor_lt|done].
Qed.

(** The settings have three columns. *)
Lemma cursor_some {A} (l : list A) i : i < 3 → length l = 3 → ∃ x, l !! i = Some x.
Proof. intros Hi Hl. apply lookup_lt_is_Some_2. lia. Qed.
Lemma settings_move_ok direction col cursors light dark custom : col < 3 → length cursors = 3 →
  ∃ col' cursors', settings_move direction col cursors light dark custom = Some (col', cursors') ∧
    col' < 3 ∧ length cursors' = 3.
Proof.
  intros Hc Hl. unfold settings_move, move_cursor.
  assert (Hlk : ∀ i, i < 3 → ∃ c, cursors !! i = Some c) by (intros i Hi; by apply cursor_some).
  destruct direction.
  - destruct (Hlk col Hc) as [c ->]. simpl. eexists _, _. split_and!; [done..|]. by case_match; rewrite ?length_insert.
  - destruct (_ <? _); [|by exists col, cursors]. destruct (Hlk col Hc) as [c ->]. simpl.
    eexists _, _. split_and!; [done..|]. by case_match; rewrite ?length_insert.
  - destruct (0 <? col) eqn:E; [|by exists col, cursors].
    destruct (Hlk (col - 1)) as [c ->]; [lia|]. simpl. eexists _, _. split_and!; [done|lia|by rewrite length_insert].
  - destruct (col <? 2) eqn:E; [|by exists col, cursors]. apply Nat.ltb_lt in E.
    destruct (Hlk (S col)) as [c ->]; [lia|]. simpl. eexists _, _. split_and!; [done|lia|by rewrite length_insert].
Qed.
Lemma settings_navigate_fine direction m : ui_ok m → fine (m' ← handle_settings_navigate direction m; Some (m', [])).
Proof.
  intros Hm. unfold handle_settings_navigate.
  destruct (active_overlay m) as [o|] eqn:Eo; [|by apply (fine_same m)].
  destruct o; try (by apply (fine_same m)). destruct level; [by apply (fine_same m)|].
  pose proof (proj2 Hm) as Ho. rewrite Eo in Ho. destruct Ho as [Hc Hl].
  destruct (settings_move_ok direction active_column column_cursors light_themes dark_themes custom_themes Hc Hl)
    as (col' & cs' & -> & ? & ?). by apply fine_overlay.
Qed.
Lemma settings_activate_fine m : ui_ok m → fine (handle_settings_activate (update now) m).
Proof.
  intros Hm. unfold handle_settings_activate.
  destruct (active_overlay m) as [o|] eqn:Eo; [|by apply (fine_same m)].
  destruct o; try (by apply (fine_same m)).
  pose proof (proj2 Hm) as Ho. rewrite Eo in Ho. destruct Ho as [Hc Hl].
  destruct level; [by apply fine_overlay|]. unfold selected_theme_name.
  destruct (column_items _ _ _ _); [|by apply (fine_same m)].
  destruct (cursor_some column_cursors active_column Hc Hl) as [c ->]. cbn [mbind option_bind].
  destruct (_ !! c); autorewrite with ui; by apply (fine_same m).
Qed.
Lemma settings_esc_fine m : ui_ok m → fine (Some (handle_settings_esc m, [])).
Proof.
  intros Hm. unfold handle_settings_esc.
  destruct (active_overlay m) as [o|] eqn:Eo; [|by apply fine_close].
  destruct o; try (by apply fine_close). pose proof (proj2 Hm) as Ho. rewrite Eo in Ho.
  destruct level; [by apply fine_close|by apply fine_overlay].
Qed.
Lemma create_fine action pending m : ui_ok m → fine (handle_create_action (update now) action pending m).
Proof.
  intros Hm. destruct action; simpl; try (case_match; unfold local_project_dispatch_banner); plain_fine m.
Qed.
Lemma choose_fine pending index m : ui_ok m → fine (choose_action (update now) pending index m).
Proof.
  intros Hm. unfold choose_action. destruct (action_at index); [|by apply (fine_same m)]. by apply create_fine, close_ok.
Qed.

(** The overlay shown, or none that concerns the message. *)
Ltac by_overlay m Hm :=
  let o := fresh "o" in let Eo := fresh "Eo" in let Ho := fresh "Ho" in
  destruct (active_overlay m) as [o|] eqn:Eo; [|by apply (fine_same m)];
  pose proof (proj2 Hm) as Ho; rewrite Eo in Ho;
  destruct o; try (by apply (fine_same m)).
Lemma some_overlay_fine m f : ui_ok m → (∀ o, active_overlay m = Some o → fine (Some (f o m, []))) →
  fine (Some (match active_overlay m with Some o => f o m | None => m end, [])).
Proof. intros Hm Hf. destruct (active_overlay m) as [o|] eqn:Eo; [by apply Hf|by apply (fine_same m)]. Qed.

Lemma overlay_fine msg m : ui_ok m → safe_overlay msg → fine (update now m (Msg.Overlay msg)).
Proof.
  intros Hm Hs. rewrite update_overlay.
  destruct msg; try done; cbn [handle_overlay handle_priority_overlay handle_type_overlay handle_filter_overlay
    handle_goto_overlay handle_force_close_overlay handle_create_action_overlay handle_project_input_overlay
    handle_title_input_overlay handle_branch_input_overlay handle_settings_overlay handle_help_overlay].
  all: try (by apply fine_close).
  all: try (by apply fine_overlay).
  all: try (by apply (fine_same m)).
  all: try (autorewrite with ui; by apply (fine_same m)).
  all: try (by apply navigate_fine); try (by apply activate_fine); try (by apply quick_toggle_fine);
    try (by apply settings_navigate_fine); try (by apply settings_activate_fine); try (by apply settings_esc_fine).
  all: try (by_overlay m Hm; first [ by apply fine_close | by apply fine_overlay | by apply choose_fine ]).
  all: try (by_overlay m Hm; try case_match; first [ by apply (fine_same m)
    | by apply select_target_fine
    | autorewrite with ui; apply (fine_same (close_overlay m)); [done|by apply close_ok] ]).
  - apply fine_overlay; [done|]. split; [simpl; lia|done].
  - destruct (active_overlay m) as [o|] eqn:Eo; [|by apply fine_close].
    destruct o; try (by apply fine_close). pose proof (proj2 Hm) as Ho. rewrite Eo in Ho. destruct Ho as [Hc _].
    destruct expanded; [by apply fine_overlay|by apply fine_close].
  - destruct action; first [by apply fine_close|by apply (fine_same m)].
  - apply fine_overlay; [done|]. split; [lia|done].
Qed.

(** *** Keys *)

Lemma overlay_key_safe o key : ∃ msg, dispatch_overlay_key o key = Msg.Overlay msg ∧ safe_overlay msg.
Proof.
  unfold dispatch_overlay_key. eexists. split; [reflexivity|].
  destruct o; unfold OverlayKeys.priority_picker, OverlayKeys.type_menu, OverlayKeys.filter_menu, OverlayKeys.goto_menu,
    OverlayKeys.force_close_confirm, OverlayKeys.create_action_menu, OverlayKeys.text_input, OverlayKeys.branch_input,
    OverlayKeys.title_input, OverlayKeys.settings_overlay, OverlayKeys.help_overlay; by repeat case_match.
Qed.
(** The messages of the input stack, and of the pages. *)
Definition from_stack (msg : Msg.t) : Prop :=
  match msg with Msg.Quit => True | Msg.Nav msg => anywhere msg | Msg.Overlay msg => safe_overlay msg | _ => False end.
Definition from_page (msg : Msg.t) : Prop :=
  match msg with Msg.Nav _ => True | Msg.Overlay msg => safe_overlay msg | _ => False end.
Lemma first_capture_stack hs key msg : first_capture hs key = Some msg → from_stack msg.
Proof.
  induction hs as [|h hs IH]; simpl; [done|].
  destruct (handler_key h key) as [msg'|] eqn:E; [|done]. intros [= ->].
  destruct h; simpl in E; unfold global_key, activities_key, markdown_scroll_key in E; key_cases.
Qed.
Lemma root_page_stack page key msg : root_page_key page key = Some msg → from_page msg ∧ page ≠ PageId.HelpPage.
Proof.
  intros E. split; [|by intros ->].
  destruct page; simpl in E; try done;
    unfold TicketListHandler.handle_key, TicketListHandler.handle_table_key, TicketListHandler.handle_operation_key,
      TicketListHandler.handle_action_key, TicketDetailHandler.handle_key, TicketDetailHandler.handle_detail_table_key,
      TicketDetailHandler.handle_detail_operation_key, TicketDetailHandler.handle_detail_action_key,
      FlowListHandler.handle_key, FlowListHandler.handle_table_key, FlowListHandler.handle_operation_key,
      FlowDetailHandler.handle_key, FlowDetailHandler.handle_shift_key, FlowDetailHandler.handle_plain_key,
      WorkerListHandler.handle_key in E; key_cases.
Qed.
Lemma quit_fine m : ui_ok m → fine (update now m Msg.Quit).
Proof. intros Hm. rewrite unfolds. by apply (fine_same m). Qed.
Lemma key_fine key m : ui_ok m → fine (update now m (Msg.KeyPressed key)).
Proof.
  intros Hm. rewrite update_key. unfold handle_key, dispatch_root_page_key.
  destruct (active_overlay m) as [o|] eqn:Eo.
  { destruct (overlay_key_safe o key) as (msg & -> & Hs). by apply overlay_fine. }
  destruct (if bool_decide _ then _ else _) as [msg|] eqn:Eb.
  { assert (msg = Msg.BannerDismiss) as ->.
    { case_match; [|done]. unfold dispatch_banner_key in Eb. by case_match; simplify_eq. }
    rewrite unfolds. by apply (fine_same m). }
  destruct (stack_dispatch _ _) as [msg|] eqn:Es.
  { apply first_capture_stack in Es.
    destruct msg; try done; [by apply quit_fine|by apply anywhere_fine|by apply overlay_fine]. }
  destruct (current_page_some m Hm) as (page & -> & Hp). cbn [mbind option_bind].
  destruct (root_page_key page key) as [msg|] eqn:Ep; [|by apply (fine_same m)].
  destruct (root_page_stack _ _ _ Ep) as [Hfrom Hne].
  destruct msg; try done; [apply nav_fine; [done..|by intros Ht; destruct Hne; apply Hp]|by apply overlay_fine].
Qed.

(** *** Data *)

Lemma show_last_fine msgs cmds m : ui_ok m → Forall is_banner msgs → fine (show_last (update now) msgs cmds m).
Proof.
  intros Hm Hb. unfold show_last. destruct (last msgs) as [msg|] eqn:E; [|by apply (fine_same m)].
  apply last_Some_elem_of in E. rewrite Forall_forall in Hb. specialize (Hb _ E).
  destruct msg; try done. autorewrite with ui. by apply (fine_same m).
Qed.
Lemma clamped_same m : same m (Flows.clamp_selection m).
Proof. unfold Flows.clamp_selection. cbv zeta. by repeat case_match. Qed.
Lemma applied_same data m : same m (Flows.apply_flows_data data m).
Proof. unfold Flows.apply_flows_data. cbv zeta. by case_match. Qed.
Lemma shown_same id m : same m (init_flow_detail id m).1.
Proof. unfold init_flow_detail. by case_match. Qed.
Lemma same_trans a b c : same a b → same b c → same a c.
Proof. unfold same. intros (-> & -> & ->) (-> & -> & ->). done. Qed.
Lemma flows_loaded_fine flows n m : ui_ok m → fine (handle_flows_loaded (update now) flows n m).
Proof.
  intros Hm. unfold handle_flows_loaded.
  pose proof (process_banners flows (notifications m)) as Hb.
  destruct (NotificationModel.process_flow_updates _ _) as [[msgs cmds] notifs]. cbv zeta.
  apply show_last_fine; [|done].
  set (m1 := Flows.apply_flows_data _ _). set (m2 := set_flow_data _ m1).
  assert (same m (Flows.clamp_selection m2)) as Hs.
  { apply (same_trans _ m2); [|apply clamped_same]. apply (same_trans _ m1); [|done].
    apply (same_trans _ (set_notifications notifs m)); [done|apply applied_same]. }
  case_match; [|by apply (same_ok m)]. apply (same_ok m); [|done].
  eapply same_trans; [exact Hs|apply shown_same].
Qed.
Lemma data_fine msg m : ui_ok m → fine (update now m (Msg.Data msg)).
Proof.
  intros Hm. rewrite unfolds. cbn [update_body].
  destruct msg as [r|r|r|r|id r|id r|r|r]; cbn [handle_data].
  - apply (fine_same m); [|done]. by destruct r as [[? ?]|?].
  - apply (fine_same m); [|done]. by case_match.
  - destruct r as [[l n]|e]; [by apply flows_loaded_fine|by apply (fine_same m)].
  - apply (fine_same m); [|done]. unfold Workers.clamp_selection. cbv zeta. by repeat case_match.
  - apply (fine_same m); [|done]. unfold handle_activities_loaded, handle_activities_data. by repeat case_match.
  - unfold handle_worker_stopped. destruct r; autorewrite with ui; by apply (fine_same m).
  - destruct r as [wf|e]; [|by apply (fine_same m)].
    pose proof (process_banners [wf] (notifications m)) as Hb.
    destruct (NotificationModel.process_flow_updates _ _) as [[msgs cmds] notifs]. by apply show_last_fine.
  - apply (fine_same m); [|done]. by case_match.
Qed.
Lemma flush_same m : same m (flush_if_due now m).1.
Proof.
  unfold flush_if_due, flush_throttle. case_match; [|done]. destruct (UiEventThrottle.flush _ _) as [[d w] th].
  case_bool_decide; [done|]. cbn [fst].
  assert (∀ a l m', same m' (refresh_tabs a l m').1) as Hr.
  { intros a l. induction l as [|tab l IH]; intros m'; simpl; [done|].
    case_bool_decide; [apply IH|]. apply (same_trans _ (invalidate_tab tab m')); [by destruct tab|apply IH]. }
  by apply (same_trans _ (set_ui_event_throttle th m)).
Qed.
Lemma flush_fine m : ui_ok m → fine (Some (flush_if_due now m)).
Proof.
  intros Hm. pose proof (flush_same m) as Hs. destruct (flush_if_due now m) as [m' cmds]. by apply (fine_same m).
Qed.

(** ** Any message from outside *)

(** Keys, ticks, the server's events and answers, and what the main loop sends itself:
    all but what a key stands for. *)
Definition external (msg : Msg.t) : Prop :=
  match msg with Msg.Nav _ => False | Msg.Overlay msg => safe_overlay msg | _ => True end.

Lemma shown_fine (r : result string string) m : ui_ok m → fine (show_result (update now) r m).
Proof. intros Hm. unfold show_result. autorewrite with ui. simpl. case_match; plain_fine m. Qed.
Lemma update_fine msg m : ui_ok m → external msg → fine (update now m msg).
Proof.
  intros Hm Hx. destruct msg; try done.
  - by apply key_fine.
  - rewrite unfolds. apply flush_fine. case_match; [by apply (same_ok m)|done].
  - by apply quit_fine.
  - by apply data_fine.
  - rewrite unfolds. apply flush_fine. by apply (same_ok m).
  - plain_fine m.
  - rewrite unfolds. by apply (fine_same m).
  - plain_fine m.
  - plain_fine m.
  - by apply overlay_fine.
  - plain_fine m.
  - rewrite unfolds. cbn [update_body]. unfold handle_ticket_op_result. autorewrite with ui. cbn [mbind option_bind fst].
    destruct (ticket_op_result_parts result_msg) as [[[?|?] []] []]; try plain_fine m.
    all: autorewrite with ui; cbn [mbind option_bind fst snd]; autorewrite with ui; cbn [mbind option_bind fst snd].
    all: by eapply fine_overlay.
  - plain_fine m.
  - rewrite unfolds. by apply shown_fine.
  - plain_fine m.
  - rewrite unfolds. by apply shown_fine.
Qed.
End Sessions.

Lemma initial_ok available : nav_ok NavigationModel.initial (input_stack (initial available)).
Proof.
  split; [|done|by exists []].
  intros tab. exists []. by destruct tab.
Qed.
Lemma start_ok available notif themes project locals :
  ∃ m cmds, start_model available notif themes project locals = Some (m, cmds) ∧ ui_ok m ∧ active_overlay m = None.
Proof.
  unfold start_model.
  set (m := mkModel _ _ _ _ _ _ _ _ _ _ _ _ _ _ _ _ _ _ _ _ _).
  assert (ui_ok m) as Hm by (split; [apply (initial_ok available)|done]).
  destruct (navigating_fine Nav.init_current m TabId.Tickets) as (m' & cmds & -> & ? & ? & _); [done..| |by exists m', cmds].
  apply (init_current_ok _ _ [] PageId.TicketList); [done..| |by vm_compute; repeat constructor].
  intros hs Hl. split; [|done|by exists hs]. intros tab. exists []. by destruct tab.
Qed.
Lemma session_ok `{UiEnv} msgs m : ui_ok m → Forall (λ x, external x.2) msgs → fine (session msgs m).
Proof.
  intros Hm Hx. revert m Hm. induction Hx as [|[now msg] msgs Hmsg Hx IH]; intros m Hm; [by apply (fine_same m)|].
  cbn [session]. destruct (update_fine now msg m Hm Hmsg) as (m' & cmds & -> & Hm'). cbn [mbind option_bind fst snd].
  destruct (should_quit m'); [by apply (fine_same m')|].
  destruct (IH (set_pending_theme_swap None m')) as (m2 & cmds2 & -> & Hm2); [by apply (same_ok m')|].
  by exists m2, (cmds ++ cmds2).
Qed.

(** C12: The interface never panics: whatever keys are pressed, and whatever the server sends
    in whatever order, every message of a session has a next model, in which each tab still has
    its root page at the bottom of its stack, the handler of the global keys is at the bottom
    of the input stack, and the cursors of the menus are in range. *)
Theorem session_never_panics `{UiEnv} available notif themes project locals msgs :
  Forall (λ x, external x.2) msgs →
  ∃ m cmds m' cmds', start_model available notif themes project locals = Some (m, cmds) ∧
    session msgs m = Some (m', cmds') ∧ ui_ok m'.
Proof.
  intros Hx. destruct (start_ok available notif themes project locals) as (m & cmds & E & Hm & _).
  destruct (session_ok msgs m Hm Hx) as (m' & cmds' & E' & Hm'). by exists m, cmds, m', cmds'.
Qed.

(** Two tabs further, into the settings and out again, and two ticks. *)
Definition sample_session : list (Z * Msg.t) :=
  [(0, Msg.KeyPressed (KeyEvent.mk KeyCode.Tab KeyModifiers.NONE));
   (10, Msg.Tick);
   (20, Msg.KeyPressed (KeyEvent.mk (KeyCode.Char "~") KeyModifiers.NONE));
   (30, Msg.UiEvent [UiEventItem.mk "workflow" "ur-1"]);
   (40, Msg.KeyPressed (KeyEvent.mk (KeyCode.Char ",") KeyModifiers.NONE));
   (50, Msg.KeyPressed (KeyEvent.mk KeyCode.Esc KeyModifiers.NONE));
   (300, Msg.Data (DataMsg.WorkerStopped "w" (Err "gone")))]%Z.
Lemma sample_external : Forall (λ x, external x.2) sample_session.
Proof. by repeat constructor. Qed.
Lemma session_never_panics_witness :
  Forall (λ x, external x.2) sample_session ∧
  ∃ m cmds m' cmds', start_model true NotificationConfig.default [] None ∅ = Some (m, cmds) ∧
    @session sample_env sample_session m = Some (m', cmds') ∧ ui_ok m'.
Proof.
  split; [exact sample_external|].
  apply (@session_never_panics sample_env true NotificationConfig.default [] None ∅ sample_session sample_external).
Defined.

Definition ctrl_c : KeyEvent.t := KeyEvent.mk (KeyCode.Char "c") KeyModifiers.CONTROL.
Lemma ctrl_c_captured hs : first_capture (rev hs ++ [GlobalHandler]) ctrl_c = Some Msg.Quit.
Proof.
  induction (rev hs) as [|h l IH]; [done|]. rewrite <- app_comm_cons. simpl.
  by destruct h.
Qed.
(** Ctrl+C quits after any session, whatever page, banner or status is shown, unless a
    modal overlay captures it: then nothing happens, except that a text field takes the letter. *)
Theorem ctrl_c_quits `{UiEnv} available notif themes project locals msgs m cmds m' cmds' now :
  Forall (λ x, external x.2) msgs →
  start_model available notif themes project locals = Some (m, cmds) → session msgs m = Some (m', cmds') →
  match active_overlay m' with
  | None => update now m' (Msg.KeyPressed ctrl_c) = Some (set_should_quit true m', [Cmd.Quit])
  | Some _ => ∃ m2, update now m' (Msg.KeyPressed ctrl_c) = Some (m2, []) ∧ should_quit m2 = should_quit m'
  end.
Proof.
  intros Hx E E'. destruct (start_ok available notif themes project locals) as (m1 & cmds1 & E1 & Hm & _).
  rewrite E in E1. simplify_eq.
  destruct (session_ok msgs m1 Hm Hx) as (m2 & cmds2 & E2 & [Hn _]). rewrite E' in E2. simplify_eq.
  rewrite update_key. unfold handle_key.
  destruct (active_overlay m2) as [o|] eqn:Eo.
  - unfold dispatch_overlay_key. cbv zeta. rewrite update_overlay. destruct o; simpl; rewrite ?Eo;
      eexists; (split; [reflexivity|done]).
  - destruct (ok_handlers _ _ Hn) as (hs & Hs & _). rewrite Hs. unfold stack_dispatch. cbn [rev].
    rewrite ctrl_c_captured. case_bool_decide; cbn [dispatch_banner_key KeyEvent.code ctrl_c]; by rewrite unfolds.
Qed.
Definition sample_start : Model * list Cmd.t :=
  default (initial false, []) (start_model true NotificationConfig.default [] None ∅).
Definition sample_end : Model * list Cmd.t :=
  default (initial false, []) (@session sample_env sample_session sample_start.1).
Lemma sample_started : start_model true NotificationConfig.default [] None ∅ = Some (sample_start.1, sample_start.2).
Proof. vm_compute. reflexivity. Qed.
Lemma sample_ended : @session sample_env sample_session sample_start.1 = Some (sample_end.1, sample_end.2).
Proof. vm_compute. reflexivity. Qed.
Lemma ctrl_c_quits_witness :
  is_Some (banner sample_end.1) ∧
  @update sample_env 400 sample_end.1 (Msg.KeyPressed ctrl_c) = Some (set_should_quit true sample_end.1, [Cmd.Quit]).
Proof.
  split; [vm_compute; by eexists|].
  pose proof (@ctrl_c_quits sample_env _ _ _ _ _ _ _ _ _ _ 400 sample_external sample_started sample_ended) as Hq.
  assert (active_overlay sample_end.1 = None) as Ho by (vm_compute; reflexivity).
  rewrite Ho in Hq. exact Hq.
Defined.
