(* ===== verification/CmdRunner.v ===== *)
(** * The terminal interface: the command runner

    [urui/src/cmd_runner.rs]: what a command asks of the server and which messages come
    of it.  The server is the ticket service and the core service of this development
    on one context, so an operation of the interface runs here to the database and back.

    Each command is a task of its own; a task is one computation, whose calls are those
    of the code in their order. *)

From S2P Require Import Prelude RustStd TextLemmas Model Env TicketDb TicketRepo TicketGraph WorkflowDb WorkflowRepo WorkerRepo Context Host HandlerLib Agent UrConfig Pool RunOpts WorkerManager LaunchService TicketService UiModel UiState CreateTicket.
Local Open Scope stdpp_scope.

(** ** The server and the way to it *)

(** What a call meets: an answer, no connection, or a connection that breaks before the
    answer arrives, with the call carried out. *)
Inductive fate : Type :=
| Answered
| NotConnected (e : string)
| AnswerLost (e : string).

(** The n-th call, and how the client library shows a status and a task that died. *)
Class Network : Type := {
  call_fate : nat → fate;
  status_display : Status.t → string;
  died_display : string
}.

(** Both services on one context, with the calls made so far. *)
Record site (H : Type) : Type := Site {
  the_core : core H;
  the_cancelled : list string;
  the_cancel_receiving : bool;
  the_spawned : list string;
  calls : nat
}.
Arguments Site {H}.
Arguments the_core {H}.
Arguments the_cancelled {H}.
Arguments the_cancel_receiving {H}.
Arguments the_spawned {H}.
Arguments calls {H}.

Definition put_core_ctx {H} (c : ctx H) (s : core H) : core H :=
  Core (PoolState c (claiming (slots s))) (registered s) (tasks s).
Definition site_server {H} (s : site H) : server H :=
  Server (core_ctx (the_core s)) (the_cancelled s) (the_cancel_receiving s) (the_spawned s).
#[export] Program Instance core_lens {H} : Lens (site H) (core H) := {
  view := the_core;
  put c s := Site c (the_cancelled s) (the_cancel_receiving s) (the_spawned s) (calls s)
}.
Solve All Obligations with by intros; try destruct s.
#[export] Program Instance server_lens {H} : Lens (site H) (server H) := {
  view := site_server;
  put v s := Site (put_core_ctx (context v) (the_core s)) (cancelled v) (cancel_receiving v) (spawned v) (calls s)
}.
Next Obligation. by intros H [] []. Qed.
Next Obligation. by intros H [[[] ? ?] ? ? ? ?]. Qed.
Next Obligation. by intros H [] [] []. Qed.

Section Runner.
Context {HE : Env} {HG : PetGraph} {HO : Host} {HH : HashOrder}.
Context {HP : PoolHost} {HW : WorkerHost} {HL : LaunchHost} {HJ : JoinOrder} {HN : Network}.
Context (tickets_self : TicketServiceHandler.t) (core_self : LaunchManager.t).
Context (stop_by_worker_id : string → SE (ctx host) string unit).
Context (project_filter : option string).
(** Whether the list of the children is answered before the ticket. *)
Context (list_first : bool).

Abbreviation task A := (SE (site host) string A).

(** [connect(port)] and a call; every error becomes its text. *)
Definition next_call {E} : SE (site host) E nat :=
  n ← gets calls;
  modify (λ s, Site (the_core s) (the_cancelled s) (the_cancel_receiving s) (the_spawned s) (S n)) ;;
  mret n.
Definition calling {A} (m : task A) : task A :=
  n ← next_call;
  match call_fate n with
  | Answered => m
  | NotConnected e => throw e
  | AnswerLost e => attempt m ;; throw e
  end.
Definition ticket_call {A} (m : SE (server host) Status.t A) : task A :=
  calling (map_err status_display (zoom m)).
Definition core_call {A} (m : SE (core host) rpc_error A) : task A :=
  calling (map_err (λ e, match e with Refused st => status_display st | Panicked => died_display end) (zoom m)).

(** ** Fetches *)

Definition fetch_tickets (page_size offset : option Z) (include_children : option bool) (statuses : list string)
    : task (list PTicket.t * Z) :=
  let status := match statuses with [] => None | _ => Some (join "," statuses) end in
  ticket_call (TicketService.list_
    (ListTicketsRequest.mk project_filter None status None None None page_size offset include_children None)).

(** The texts of the client: the entries of the protocol. *)
Definition activity_entry (a : Activity.t) : ActivityEntry.t :=
  ActivityEntry.mk (Activity.id a) (Activity.timestamp a) (Activity.author a) (Activity.message a).
Definition detail_of (r : GetTicketResponse.t) : DetailResponse.t :=
  DetailResponse.mk (Some (GetTicketResponse.ticket r)) (GetTicketResponse.metadata r).
Definition get_detail (ticket_id : string) : task DetailResponse.t :=
  r ← ticket_call (TicketService.get ticket_id None); mret (detail_of r).
Definition list_children (ticket_id : string) (page_size offset : option Z) (status : option string)
    : task (list PTicket.t * Z) :=
  ticket_call (TicketService.list_
    (ListTicketsRequest.mk None None status None None None page_size offset None (Some ticket_id))).
(** [try_join!]: the first failure ends the other. *)
Definition fetch_ticket_detail (ticket_id : string) (child_page_size child_offset : option Z)
    (child_status_filter : option string) : task (DetailResponse.t * list PTicket.t * Z) :=
  let children := list_children ticket_id child_page_size child_offset child_status_filter in
  if list_first then
    page ← children; detail ← get_detail ticket_id; mret (detail, page.1, page.2)
  else
    detail ← get_detail ticket_id; page ← children; mret (detail, page.1, page.2).

Definition fetch_flows (page_size offset : option Z) : task (list WorkflowInfo.t * Z) :=
  ticket_call (TicketService.list_workflow_infos None page_size offset project_filter).
Definition fetch_workflow_for_notification (ticket_id : string) : task WorkflowInfo.t :=
  ticket_call (TicketService.get_workflow ticket_id).

(** The client's name for a worker is the process's. *)
Definition worker_row (e : WorkerEntry.t) : PWorker.t :=
  let w := WorkerEntry.worker e in
  PWorker.mk (WorkerSummary.process_id w) (WorkerSummary.container_id w) (WorkerSummary.project_key w)
    (WorkerSummary.mode w) (WorkerSummary.container_status w) (WorkerSummary.agent_status w)
    (WorkerRuntime.as_str (WorkerSummary.runtime w)).
Definition fetch_workers : task (list PWorker.t) :=
  entries ← core_call (map_err (λ e : Empty_set, match e with end) LaunchService.worker_list);
  let workers := worker_row <$> entries in
  mret match project_filter with
       | Some p => filter (λ w, PWorker.project_key w = p) workers
       | None => workers
       end.
Definition stop_worker (worker_id : string) : task unit :=
  core_call (LaunchService.stop_worker_request core_self worker_id).
Definition fetch_activities (ticket_id : string) (author_filter : option string) : task (list ActivityEntry.t) :=
  r ← ticket_call (TicketService.get ticket_id author_filter);
  mret (activity_entry <$> GetTicketResponse.activities r).

(** ** Operations *)

Definition launch_request (ticket_id project_key image_id mode : string) (dispatch : bool) : WorkerLaunchRequest :=
  WorkerLaunchRequest.mk ticket_id image_id 2 "8G" "" mode [] project_key [] dispatch "" "".
Definition launch_worker (req : WorkerLaunchRequest) : task unit :=
  core_call (LaunchService.launch core_self req) ;; mret tt.
Definition launch_design_worker (ticket_id project_key image_id : string) : task unit :=
  launch_worker (launch_request ticket_id project_key image_id "design" true).
Definition dispatch_ticket (ticket_id project_key image_id : string) : task unit :=
  r ← ticket_call (TicketService.get ticket_id None);
  if String.eqb (PTicket.ticket_type (GetTicketResponse.ticket r)) "design"
  then launch_design_worker ticket_id project_key image_id
  else
    ticket_call (TicketService.dispatch_workflow tickets_self ticket_id "awaiting_dispatch") ;;
    launch_worker (launch_request ticket_id project_key image_id "" false).

Definition update_call (req : UpdateTicketRequest.t) : task string :=
  ticket_call (TicketService.update tickets_self req).
Definition update_ticket_status (ticket_id status : string) (force : bool) : task unit :=
  update_call (UpdateTicketRequest.mk ticket_id (Some status) None None None force None None None None) ;; mret tt.
Definition update_ticket_priority (ticket_id : string) (priority : Z) : task unit :=
  update_call (UpdateTicketRequest.mk ticket_id None (Some priority) None None false None None None None) ;; mret tt.
Definition update_ticket_type (ticket_id ticket_type : string) : task unit :=
  update_call (UpdateTicketRequest.mk ticket_id None None None None false (Some ticket_type) None None None) ;; mret tt.
Definition update_ticket_branch (ticket_id branch : string) : task unit :=
  let branch_value := if String.eqb branch "" then "NONE" else branch in
  update_call (UpdateTicketRequest.mk ticket_id None None None None false None None (Some branch_value) None) ;; mret tt.
Definition update_ticket_fields (ticket_id project title ticket_type : string) (priority : Z) (body : string)
    (branch : option string) : task string :=
  new_id ← update_call (UpdateTicketRequest.mk ticket_id None (Some priority) (Some title) (Some body) false
                          (Some ticket_type) None branch (Some project));
  mret (if String.eqb new_id "" then ticket_id else new_id).

Definition create_ticket (pending : PendingTicket.t) : task string :=
  ticket_call (TicketService.create tickets_self
    (CreateTicketRequest.mk (PendingTicket.project pending) (PendingTicket.ticket_type pending) ""
       (PendingTicket.priority pending) (PendingTicket.parent_id pending) (PendingTicket.title pending)
       (PendingTicket.body pending) None None false (PendingTicket.branch pending))).

Definition set_ticket_meta (ticket_id key value : string) : task unit :=
  ticket_call (TicketService.put_meta tickets_self ticket_id key value).
Definition delete_ticket_meta (ticket_id key : string) : task unit :=
  ticket_call (TicketService.remove_meta tickets_self ticket_id key).
Fixpoint set_all_meta (ticket_id : string) (kvs : list (string * string)) : task unit :=
  match kvs with
  | [] => mret tt
  | (k, v) :: kvs => set_ticket_meta ticket_id k v ;; set_all_meta ticket_id kvs
  end.
Fixpoint delete_all_meta (ticket_id : string) (keys : list string) : task unit :=
  match keys with
  | [] => mret tt
  | k :: keys => delete_ticket_meta ticket_id k ;; delete_all_meta ticket_id keys
  end.
Definition set_pending_meta (ticket_id : string) (meta : gmap string string) : task unit :=
  set_all_meta ticket_id (filter (λ kv, trim kv.2 ≠ "") (entries meta)).
Definition apply_meta_diff (ticket_id : string) (meta_set : list (string * string)) (meta_delete : list string)
    : task unit :=
  set_all_meta ticket_id meta_set ;; delete_all_meta ticket_id meta_delete.
Definition approve_workflow (ticket_id : string) : task unit :=
  set_ticket_meta ticket_id ticket_meta.AUTOAPPROVE "true" ;;
  set_ticket_meta ticket_id ticket_meta.FEEDBACK_MODE feedback_mode.NOW.
Definition redrive_ticket (ticket_id : string) : task unit :=
  ticket_call (TicketService.redrive tickets_self ticket_id "verifying") ;; mret tt.
Definition cancel_workflow (ticket_id : string) : task unit :=
  ticket_call (TicketService.cancel_workflow tickets_self stop_by_worker_id ticket_id).
Definition stall_workflow (ticket_id : string) : task unit :=
  ticket_call (TicketService.stall_workflow ticket_id).

(** ** The tasks of the operations *)

(** A task never fails: its result is a message.  [sent_before] are messages of the task
    while it runs. *)
Definition result_of {A} (m : task A) : SE (site host) Empty_set (result A string) := attempt m.
Definition said {A} (text : A → string) (r : result A string) : result string string :=
  match r with Ok a => Ok (text a) | Err e => Err e end.

(** The ticket is made first; then its metadata, whose failure keeps nothing to retry. *)
Definition finish_create (done_text : string → string) (pending : PendingTicket.t) (created : result string string)
    : SE (site host) Empty_set TicketOpResultMsg.t :=
  match created with
  | Err e => mret (TicketOpResultMsg.Created (Err e) (Some pending))
  | Ok ticket_id =>
      meta ← result_of (set_pending_meta ticket_id (PendingTicket.meta pending));
      mret (TicketOpResultMsg.Created
              match meta with
              | Ok _ => Ok (done_text ticket_id)
              | Err e => Err (ticket_id +:+ ": " +:+ e)
              end None)
  end.
(** With the message that says what is launched, once the ticket exists. *)
Definition create_and_dispatch (pending : PendingTicket.t) (project_key image_id : string)
    : SE (site host) Empty_set (list Msg.t * result string string) :=
  created ← result_of (create_ticket pending);
  match created with
  | Err e => mret ([], Err e)
  | Ok ticket_id =>
      let design := String.eqb (PendingTicket.ticket_type pending) "design" in
      r ← result_of (if design then launch_design_worker ticket_id project_key image_id
                     else dispatch_ticket ticket_id project_key image_id);
      mret ([Msg.StatusShow ("Launching " +:+ (if design then "design worker" else "worker") +:+ " for "
                              +:+ ticket_id +:+ "...")],
            match r with Ok _ => Ok ticket_id | Err e => Err e end)
  end.

Definition answering {A} (m : task A) (text : A → string) (wrap : result string string → TicketOpResultMsg.t)
    : SE (site host) Empty_set (list Msg.t) :=
  r ← result_of m; mret [Msg.TicketOpResult (wrap (said text r))].
Definition exec_dispatch (ticket_id project_key image_id : string) :=
  answering (dispatch_ticket ticket_id project_key image_id) (λ _, "Dispatched " +:+ ticket_id) TicketOpResultMsg.Dispatched.
Definition exec_close (ticket_id : string) :=
  answering (update_ticket_status ticket_id "closed" false) (λ _, ticket_id +:+ " → closed") TicketOpResultMsg.Closed.
Definition exec_open (ticket_id : string) :=
  answering (update_ticket_status ticket_id "open" false) (λ _, ticket_id +:+ " → open") TicketOpResultMsg.Opened.
Definition exec_force_close (ticket_id : string) :=
  answering (update_ticket_status ticket_id "closed" true) (λ _, ticket_id +:+ " → closed (force)") TicketOpResultMsg.ForceClosed.
Definition exec_set_priority (ticket_id : string) (priority : Z) :=
  answering (update_ticket_priority ticket_id priority)
    (λ _, "Priority set to P" +:+ pretty priority +:+ " for " +:+ ticket_id) TicketOpResultMsg.PrioritySet.
Definition exec_set_type (ticket_id ticket_type : string) :=
  answering (update_ticket_type ticket_id ticket_type)
    (λ _, "Type set to " +:+ ticket_type +:+ " for " +:+ ticket_id) TicketOpResultMsg.TypeSet.
Definition exec_set_branch (ticket_id branch : string) :=
  answering (update_ticket_branch ticket_id branch)
    (λ _, if String.eqb branch "" then "Branch cleared for " +:+ ticket_id
          else "Branch set to " +:+ branch +:+ " for " +:+ ticket_id) TicketOpResultMsg.BranchSet.
Definition exec_create (pending : PendingTicket.t) : SE (site host) Empty_set (list Msg.t) :=
  created ← result_of (create_ticket pending);
  msg ← finish_create (λ id, "Created " +:+ id) pending created;
  mret [Msg.TicketOpResult msg].
Definition exec_create_and_dispatch (pending : PendingTicket.t) (project_key image_id : string)
    : SE (site host) Empty_set (list Msg.t) :=
  r ← create_and_dispatch pending project_key image_id;
  msg ← finish_create (λ id, "Created and dispatched " +:+ id) pending r.2;
  mret (r.1 ++ [Msg.TicketOpResult msg]).
Definition exec_launch_design (ticket_id project_key image_id : string) :=
  answering (launch_design_worker ticket_id project_key image_id)
    (λ _, "Launched design worker for " +:+ ticket_id) TicketOpResultMsg.DesignLaunched.
Definition exec_redrive (ticket_id : string) :=
  answering (redrive_ticket ticket_id) (λ _, "Moved " +:+ ticket_id +:+ " to Verify") TicketOpResultMsg.Redriven.
Definition exec_update_fields (ticket_id project title ticket_type : string) (priority : Z) (body : string)
    (branch : option string) (meta_set : list (string * string)) (meta_delete : list string) :=
  answering (final_id ← update_ticket_fields ticket_id project title ticket_type priority body branch;
             apply_meta_diff final_id meta_set meta_delete ;; mret final_id)
    (λ final_id, "Updated " +:+ final_id) TicketOpResultMsg.Updated.
(** [execute_ticket_op] *)
Definition run_ticket_op (op : TicketOpMsg.t) : SE (site host) Empty_set (list Msg.t) :=
  match op with
  | TicketOpMsg.Dispatch ticket_id project_key image_id | TicketOpMsg.DispatchAll ticket_id project_key image_id =>
      exec_dispatch ticket_id project_key image_id
  | TicketOpMsg.Close ticket_id => exec_close ticket_id
  | TicketOpMsg.ForceClose ticket_id => exec_force_close ticket_id
  | TicketOpMsg.SetPriority ticket_id priority => exec_set_priority ticket_id priority
  | TicketOpMsg.SetType ticket_id ticket_type => exec_set_type ticket_id ticket_type
  | TicketOpMsg.SetBranch ticket_id branch => exec_set_branch ticket_id branch
  | TicketOpMsg.Create pending => exec_create pending
  | TicketOpMsg.CreateAndDispatch pending project_key image_id => exec_create_and_dispatch pending project_key image_id
  | TicketOpMsg.LaunchDesign ticket_id project_key image_id => exec_launch_design ticket_id project_key image_id
  | TicketOpMsg.Redrive ticket_id => exec_redrive ticket_id
  | TicketOpMsg.Open ticket_id => exec_open ticket_id
  | TicketOpMsg.UpdateFields ticket_id project title ticket_type priority body branch meta_set meta_delete =>
      exec_update_fields ticket_id project title ticket_type priority body branch meta_set meta_delete
  end.
Definition answering_flow (m : task unit) (text : string) (wrap : result string string → FlowOpResultMsg.t)
    : SE (site host) Empty_set (list Msg.t) :=
  r ← result_of m; mret [Msg.FlowOpResult (wrap (said (λ _, text) r))].
Definition exec_flow_approve (ticket_id : string) :=
  answering_flow (approve_workflow ticket_id) ("Approved workflow for " +:+ ticket_id) FlowOpResultMsg.Approved.
Definition exec_flow_cancel (ticket_id : string) :=
  answering_flow (cancel_workflow ticket_id) ("Cancelled workflow for " +:+ ticket_id) FlowOpResultMsg.Cancelled.
Definition exec_flow_stall (ticket_id : string) :=
  answering_flow (stall_workflow ticket_id) ("Stalled workflow for " +:+ ticket_id) FlowOpResultMsg.Stalled.
Definition run_flow_op (op : FlowOpMsg.t) : SE (site host) Empty_set (list Msg.t) :=
  match op with
  | FlowOpMsg.Cancel ticket_id => exec_flow_cancel ticket_id
  | FlowOpMsg.Approve ticket_id => exec_flow_approve ticket_id
  | FlowOpMsg.Stall ticket_id => exec_flow_stall ticket_id
  end.
Definition exec_worker_kill (worker_id : string) : SE (site host) Empty_set (list Msg.t) :=
  r ← result_of (stop_worker worker_id);
  mret [Msg.WorkerOpResult (WorkerOpResultMsg.Killed (said (λ _, "Killed worker " +:+ worker_id) r))].
Definition run_worker_op (op : WorkerOpMsg.t) : SE (site host) Empty_set (list Msg.t) :=
  match op with WorkerOpMsg.Kill worker_id => exec_worker_kill worker_id end.
Definition run_fetch (f : FetchCmd.t) : SE (site host) Empty_set (list Msg.t) :=
  let answer {A} (m : task A) (wrap : result A string → DataMsg.t) :=
    r ← result_of m; mret [Msg.Data (wrap r)] in
  match f with
  | FetchCmd.Tickets page_size offset include_children statuses =>
      answer (fetch_tickets page_size offset include_children statuses) DataMsg.TicketsLoaded
  | FetchCmd.TicketDetail ticket_id child_page_size child_offset child_status_filter =>
      answer (fetch_ticket_detail ticket_id child_page_size child_offset child_status_filter) DataMsg.DetailLoaded
  | FetchCmd.Flows page_size offset => answer (fetch_flows page_size offset) DataMsg.FlowsLoaded
  | FetchCmd.Workers => answer fetch_workers DataMsg.WorkersLoaded
  | FetchCmd.Activities ticket_id author_filter =>
      answer (fetch_activities ticket_id author_filter) (DataMsg.ActivitiesLoaded ticket_id)
  | FetchCmd.WorkflowForNotification ticket_id =>
      answer (fetch_workflow_for_notification ticket_id) DataMsg.NotificationFlowLoaded
  | FetchCmd.FlowDetail ticket_id =>
      answer (fetch_workflow_for_notification ticket_id) DataMsg.FlowDetailLoaded
  end.

(** ** Commands *)

(** [execute]: what is sent at once, and the tasks that are spawned.  The subscription is
    a task of its own below; the themes and the notifier are outside. *)
Inductive spawned_task : Type :=
| TaskFetch (f : FetchCmd.t)
| TaskStop (worker_id : string)
| TaskTicket (op : TicketOpMsg.t)
| TaskFlow (op : FlowOpMsg.t)
| TaskWorker (op : WorkerOpMsg.t)
| TaskSubscribe
| TaskNotify (n : DesktopNotification.t)
| TaskPersist (theme_name : string).
Fixpoint execute (c : Cmd.t) : list Msg.t * list spawned_task :=
  match c with
  | Cmd.None_ | Cmd.SpawnEditor _ _ _ | Cmd.EditTicket _ => ([], [])
  | Cmd.Quit => ([Msg.Quit], [])
  | Cmd.Batch cmds =>
      (fix go (cmds : list Cmd.t) :=
         match cmds with
         | [] => ([], [])
         | c :: cmds => let r := execute c in let r' := go cmds in (r.1 ++ r'.1, r.2 ++ r'.2)
         end) cmds
  | Cmd.Fetch f => ([], [TaskFetch f])
  | Cmd.SubscribeUiEvents => ([], [TaskSubscribe])
  | Cmd.StopWorker worker_id => ([], [TaskStop worker_id])
  | Cmd.TicketOp op => ([], [TaskTicket op])
  | Cmd.FlowOp op => ([], [TaskFlow op])
  | Cmd.WorkerOp op => ([], [TaskWorker op])
  | Cmd.FireDesktopNotification n => ([], [TaskNotify n])
  | Cmd.PersistTheme theme_name => ([], [TaskPersist theme_name])
  end.
Definition execute_all (cmds : list Cmd.t) : list Msg.t * list spawned_task := execute (Cmd.Batch cmds).
(** The messages of a task. *)
Definition run_spawned_task (t : spawned_task) : SE (site host) Empty_set (list Msg.t) :=
  match t with
  | TaskFetch f => run_fetch f
  | TaskStop worker_id =>
      r ← result_of (stop_worker worker_id); mret [Msg.Data (DataMsg.WorkerStopped worker_id r)]
  | TaskTicket op => run_ticket_op op
  | TaskFlow op => run_flow_op op
  | TaskWorker op => run_worker_op op
  | TaskSubscribe | TaskNotify _ | TaskPersist _ => mret []
  end.
End Runner.

(** ** The subscription to the server's events *)

Inductive UiEventType : Type := EventTicket | EventWorkflow | EventWorker | EventUnknown.
Definition ui_event_type_to_str (t : UiEventType) : string :=
  match t with
  | EventTicket => "ticket" | EventWorkflow => "workflow" | EventWorker => "worker" | EventUnknown => "unknown"
  end.
(** A stream: its batches, and whether the server closed it or it broke off. *)
Definition stream : Type := list (list (UiEventType * string)) * result unit string.
(** [consume_ui_event_stream]: the messages of a stream. *)
Definition batch_items (batch : list (UiEventType * string)) : list UiEventItem.t :=
  (λ ev, UiEventItem.mk (ui_event_type_to_str ev.1) ev.2) <$> batch.
Definition consume_ui_event_stream (s : stream) : list Msg.t :=
  Msg.UiEvent <$> filter (λ items, items ≠ []) (batch_items <$> s.1).
Definition INITIAL_BACKOFF : Z := 500.
Definition MAX_BACKOFF : Z := 10000.
(** [ui_event_subscription_loop] over the streams of its connections: the messages, and
    the milliseconds slept after each. *)
Fixpoint ui_event_subscription_loop (backoff : Z) (streams : list stream) : list Msg.t * list Z :=
  match streams with
  | [] => ([], [])
  | s :: streams =>
      let backoff := match s.2 with Ok _ => INITIAL_BACKOFF | Err _ => backoff end in
      let r := ui_event_subscription_loop (Z.min (backoff * 2) MAX_BACKOFF) streams in
      (consume_ui_event_stream s ++ r.1, backoff :: r.2)
  end.

(** [fire_desktop_notification]: the arguments of the notifier. *)
Definition notifier_args (n : DesktopNotification.t) (icon : option string) : list string :=
  ["-title"; DesktopNotification.title n; "-message"; DesktopNotification.message n;
   "-group"; "ur-" +:+ DesktopNotification.ticket_id n]
  ++ match DesktopNotification.open_url n with Some url => ["-open"; url] | None => [] end
  ++ match icon with Some icon => ["-appIcon"; icon] | None => [] end.
