(* ===== verification/CmdRunnerProps.v ===== *)
(** * The terminal interface and the server together

    An operation of the interface goes through the command runner to the services and
    its answer comes back. *)

From S2P Require Import Prelude RustStd TextLemmas Model Env TicketDb TicketRepo TicketGraph TicketUpdates WorkflowDb WorkflowRepo WorkerRepo Context Host HandlerLib Agent UrConfig Pool RunOpts WorkerManager LaunchService TicketService TestWorld PoolProps WorkerManagerProps LaunchProps ServiceProps UiModel UiState UiKeys CreateTicket UiPages UiHandlers UiOverlay UiUpdate UiProps CmdRunner.
Local Open Scope stdpp_scope.

Section Answers.
Context {HE : Env} {HG : PetGraph} {HO : Host} {HH : HashOrder}.
Context {HP : PoolHost} {HW : WorkerHost} {HL : LaunchHost} {HJ : JoinOrder} {HN : Network}.
Context (tickets_self : TicketServiceHandler.t) (core_self : LaunchManager.t).
Context (stop_by_worker_id : string → SE (ctx host) string unit).
Context (project_filter : option string) (list_first : bool).
Context `{UiEnv}.
Abbreviation run_task := (run_spawned_task tickets_self core_self stop_by_worker_id project_filter list_first).

(** ** Every operation is answered *)

Lemma run_result_of {A} (m : SE (site host) string A) s : ∃ r s', result_of m s = (Ok r, s').
Proof. unfold result_of. rewrite run_attempt. by eexists _, _. Qed.
(** The messages of the task of an operation: its last one is the answer. *)
Definition is_operation (t : spawned_task) : Prop :=
  match t with TaskTicket _ | TaskFlow _ | TaskWorker _ => True | _ => False end.
Definition is_answer (msg : Msg.t) : Prop :=
  match msg with Msg.TicketOpResult _ | Msg.FlowOpResult _ | Msg.WorkerOpResult _ => True | _ => False end.
Definition is_status (msg : Msg.t) : Prop := match msg with Msg.StatusShow _ => True | _ => False end.

Lemma task_answers t s : is_operation t →
  ∃ front answer s', run_task t s = (Ok (front ++ [answer]), s') ∧ Forall is_status front ∧ is_answer answer.
Proof.
  assert (Ha : ∀ {A} (m : SE (site host) string A) (f : result A string → Msg.t) s, (∀ r, is_answer (f r)) →
    ∃ front answer s', (r ← result_of m; mret [f r] : SE (site host) Empty_set (list Msg.t)) s
                       = (Ok (front ++ [answer]), s') ∧ Forall is_status front ∧ is_answer answer).
  { intros A m f s0 Hf. destruct (run_result_of m s0) as (r & s' & E). rewrite run_bind, E.
    exists [], (f r), s'. by split_and!. }
  assert (Hf : ∀ text pending created s, ∃ r s',
    finish_create tickets_self text pending created s = (Ok r, s')).
  { intros text pending [id|e] s0; cbn [finish_create]; [|by eexists _, _].
    destruct (run_result_of (set_pending_meta tickets_self id (PendingTicket.meta pending)) s0) as (r & s' & E).
    rewrite run_bind, E. by eexists _, _. }
  destruct t as [| |op|op|op| | |]; intros Ht; try done; cbn [run_spawned_task].
  - destruct op; cbn [run_ticket_op]; try (by apply Ha); [unfold exec_create|unfold exec_create_and_dispatch].
    + destruct (run_result_of (create_ticket tickets_self pending) s) as (r & s1 & E). rewrite run_bind, E.
      destruct (Hf (λ id, "Created " +:+ id) pending r s1) as (msg & s2 & E2). rewrite run_bind, E2.
      exists [], (Msg.TicketOpResult msg), s2. by split_and!.
    + assert (∃ front r s', create_and_dispatch tickets_self core_self pending project_key image_id s
                          = (Ok (front, r), s') ∧ Forall is_status front) as (front & r & s1 & E & Hfr).
      { unfold create_and_dispatch.
        destruct (run_result_of (create_ticket tickets_self pending) s) as (r & s1 & E). rewrite run_bind, E.
        destruct r as [id|e]; [|by eexists [], _, _].
        match goal with |- context [result_of ?m] => destruct (run_result_of m s1) as (r2 & s2 & E2) end.
        cbv zeta. rewrite run_bind, E2. eexists _, _, _. split; [reflexivity|by repeat constructor]. }
      rewrite run_bind, E.
      destruct (Hf (λ id, "Created and dispatched " +:+ id) pending r s1) as (msg & s2 & E2). cbn [snd].
      rewrite run_bind, E2. by exists front, (Msg.TicketOpResult msg), s2.
  - destruct op; cbn [run_flow_op]; by apply Ha.
  - destruct op; cbn [run_worker_op]; by apply Ha.
Qed.

(** *** What the interface makes of the answer *)

(** The operation a message asks for, as a task of the runner, and its status line. *)
Definition operation_of (msg : Msg.t) : option (spawned_task * string) :=
  match msg with
  | Msg.TicketOp op => Some (TaskTicket op, ticket_op_status op)
  | Msg.FlowOp op => Some (TaskFlow op, flow_op_status op)
  | Msg.WorkerOp op => Some (TaskWorker op, worker_op_status op)
  | _ => None
  end.
(** An answer's outcome, and whether success is shown without a banner. *)
Definition outcome_of (msg : Msg.t) : option (result string string * bool) :=
  match msg with
  | Msg.TicketOpResult r => Some (ticket_op_result_parts r).1
  | Msg.FlowOpResult (FlowOpResultMsg.Cancelled r | FlowOpResultMsg.Approved r | FlowOpResultMsg.Stalled r) =>
      Some (r, false)
  | Msg.WorkerOpResult (WorkerOpResultMsg.Killed r) => Some (r, false)
  | _ => None
  end.
Definition banner_after (now : Z) (o : result string string * bool) (before : option BannerModel.t)
    : option BannerModel.t :=
  match o with
  | (Ok _, true) => before
  | (Ok text, false) => Some (BannerModel.mk text Success now)
  | (Err text, _) => Some (BannerModel.mk text Error now)
  end.

Lemma update_ticket_result now m r :
  update now m (Msg.TicketOpResult r) = handle_ticket_op_result (update now) r m.
Proof. by rewrite unfolds. Qed.
Lemma update_flow_result now m r : update now m (Msg.FlowOpResult r) = handle_flow_op_result (update now) r m.
Proof. by rewrite unfolds. Qed.
Lemma update_worker_result now m r :
  update now m (Msg.WorkerOpResult r) = handle_worker_op_result (update now) r m.
Proof. by rewrite unfolds. Qed.

Lemma answer_shown now m msg : is_answer msg →
  ∃ o m' cmds, outcome_of msg = Some o ∧ update now m msg = Some (m', cmds) ∧ status m' = None
    ∧ banner m' = banner_after now o (banner m) ∧ should_quit m' = should_quit m.
Proof.
  destruct msg as [| | | | | | | | | | | |r| |r| |r]; intros Hm; try done.
  - rewrite update_ticket_result. unfold handle_ticket_op_result. rewrite update_clear. cbn [mbind option_bind fst].
    cbn [outcome_of]. destruct (ticket_op_result_parts r) as [[[text|text] silent] pending].
    + destruct silent; rewrite ?update_banner; by eexists _, _, _.
    + rewrite update_banner. cbn [mbind option_bind fst snd].
      destruct pending as [p|]; [rewrite open_create|]; by eexists _, _, _.
  - rewrite update_flow_result. unfold handle_flow_op_result, show_result. rewrite update_clear.
    destruct r as [[]|[]|[]]; cbn [mbind option_bind fst]; rewrite update_banner; by eexists _, _, _.
  - rewrite update_worker_result. unfold handle_worker_op_result, show_result. rewrite update_clear.
    destruct r as [[]]; cbn [mbind option_bind fst]; rewrite update_banner; by eexists _, _, _.
Qed.

Lemma statuses_shown later front rest m : Forall is_status front → should_quit m = false →
  ∃ m', session ((later,.) <$> (front ++ rest)) m = session ((later,.) <$> rest) m'
    ∧ banner m' = banner m ∧ should_quit m' = false.
Proof.
  intros Hf. revert m. induction Hf as [|msg front Hmsg Hf IH]; intros m Hq; [by exists m|].
  destruct msg; try done. rewrite <- app_comm_cons, fmap_cons. cbn [session].
  rewrite update_status. cbn [mbind option_bind fst snd].
  replace (should_quit (set_status (Some text) m)) with (should_quit m) by done. rewrite Hq.
  destruct (IH (set_pending_theme_swap None (set_status (Some text) m))) as (m' & E & Hb & Hs); [done|].
  exists m'. rewrite E. split_and!; try done.
  destruct (session _ m') as [[]|]; done.
Qed.

End Answers.

(** ** Closing a ticket, from the key to the database *)

Section Close.
Context {HE : Env} {HG : PetGraph} {HO : Host} {HH : HashOrder}.
Context {HP : PoolHost} {HW : WorkerHost} {HL : LaunchHost} {HJ : JoinOrder} {HN : Network}.
Context (tickets_self : TicketServiceHandler.t) (core_self : LaunchManager.t).
Context (stop_by_worker_id : string → SE (ctx host) string unit).
Context (project_filter : option string) (list_first : bool).
Context `{UiEnv}.
Local Abbreviation run_task := (run_spawned_task tickets_self core_self stop_by_worker_id project_filter list_first).

(** Whether a ticket has a child that is not closed, and the tables after the children. *)
Definition has_open_child (s : tables_t) (i : string) : Prop :=
  ∃ c r, TicketTables.ticket s !! c = Some r ∧ R.parent_id r = Some i ∧ R.status r ≠ "closed".
Definition children_done (s : tables_t) (i : string) (force : bool) : tables_t :=
  if force then closed_tables s i else s.
Definition closing : TicketUpdate.t :=
  TicketUpdate.mk (Some "closed") None None None None None None None None None.
(** What closing makes of the tables: the ticket's row, with the children's before. *)
Definition after_closing (s : tables_t) (i : string) (force : bool) (now : string) : tables_t :=
  let s := children_done s i force in
  match TicketTables.ticket s !! i with
  | Some r => TicketTables.set_ticket (<[i := updated_row closing now r]> (TicketTables.ticket s)) s
  | None => s
  end.
Definition may_close (s : tables_t) (i : string) (force : bool) : Prop :=
  is_Some (TicketTables.ticket s !! i) ∧ (force = true ∨ ¬ has_open_child s i).

Lemma run_all_closed s i n : ∃ b, epic_all_children_closed i (Pool s [] n) = (Ok b, Pool s [] n) ∧
  (b = true ↔ ¬ has_open_child s i).
Proof.
  unfold epic_all_children_closed. rewrite run_bind, run_select, run_ret. eexists. split; [reflexivity|].
  rewrite bool_decide_eq_true. unfold count_rows.
  assert (∀ r, r ∈ filter (λ r, R.status r ≠ "closed") (children s i) ↔
    R.status r ≠ "closed" ∧ R.parent_id r = Some i ∧ ∃ c, TicketTables.ticket s !! c = Some r) as Hin.
  { intros r. unfold children. by rewrite !list_elem_of_filter, elem_of_rows. }
  destruct (filter _ (children s i)) as [|r l].
  - split; [|done]. intros _ (c & r & Hc & Hp & Hs). apply (not_elem_of_nil r), Hin. eauto.
  - split; [done|]. intros Hn. exfalso. apply Hn. destruct (proj1 (Hin r)) as (? & ? & c & ?); [by left|].
    by exists c, r.
Qed.
Lemma children_done_wf s i force : wf s → wf (children_done s i force).
Proof.
  intros Hs. destruct force; [|done]. destruct (close_open_children_spec s Hs i 0) as [(k & E & _) _].
  pose proof (wf_close_open_children i (Pool s [] 0) Hs) as Hw. by rewrite E in Hw.
Qed.
Lemma children_done_row s i j force : wf s →
  is_Some (TicketTables.ticket (children_done s i force) !! j) ↔ is_Some (TicketTables.ticket s !! j).
Proof. intros Hs. destruct force; [|done]. simpl. by rewrite lookup_fmap, fmap_is_Some. Qed.

(** A child's parent exists, so a ticket that is not there has no children to close. *)
Lemma no_children s i force : wf s → TicketTables.ticket s !! i = None → children_done s i force = s.
Proof.
  intros (_ & (F1 & _) & _) Hi. destruct force; [|done]. unfold children_done, closed_tables.
  transitivity (TicketTables.set_ticket (TicketTables.ticket s) s); [|by destruct s].
  f_equal. apply map_eq. intros j. rewrite lookup_fmap.
  destruct (TicketTables.ticket s !! j) as [r|] eqn:Hj; [|done]. simpl. f_equal.
  unfold open_child. case_bool_decide as Hp; [|done]. exfalso.
  pose proof (F1 _ _ Hj) as Hk. unfold parent_ok in Hk. rewrite Hp in Hk.
  unfold ids in Hk. by apply elem_of_dom in Hk as [? Hk]; rewrite Hi in Hk.
Qed.

(** The request, on a server whose ticket database works. *)
Definition close_request (i : string) (force : bool) : UpdateTicketRequest.t :=
  UpdateTicketRequest.mk i (Some "closed") None None None force None None None None.
Definition server_of (s : tables_t) (n : nat) (y : server host) : server host :=
  let '(Server (Ctx _ w h q b) c k sp) := y in Server (Ctx (Pool s [] n) w h q b) c k sp.

Lemma run_close_children s n y i force : wf s →
  ∃ b, (b = true ↔ force = true ∨ ¬ has_open_child s i) ∧
    close_children (close_request i force) (server_of s n y)
    = (if b then Ok tt else Err (TicketError.to_status (TicketError.HasOpenChildren i [])),
       server_of (children_done s i force) n y).
Proof.
  intros Hs. destruct y as [[t w h q b] c k sp]. cbn [server_of]. unfold close_children.
  cbn [close_request UpdateTicketRequest.id UpdateTicketRequest.force]. destruct force.
  - exists true. split; [naive_solver|]. rewrite run_bind, run_into, run_on_tickets.
    destruct (close_open_children_spec s Hs i n) as [(z & -> & _) _]. by rewrite run_ret.
  - destruct (run_all_closed s i n) as (d & E & Hd). exists d. split; [naive_solver|].
    rewrite run_bind, run_into, run_on_tickets, E. cbn [fst snd]. by destruct d.
Qed.
Lemma run_close s n y i force : wf s →
  let r := TicketService.update tickets_self (close_request i force) (server_of s n y) in
  ∃ n', (may_close s i force → r = (Ok "", server_of (after_closing s i force (now_rfc3339 n)) n' y))
    ∧ (¬ may_close s i force → ∃ e, r = (Err e, server_of s n' y)).
Proof.
  intros Hs r.
  assert (r = (close_children (close_request i force) ;;
               updated ← into (on_tickets (update_ticket i closing));
               mret (if bool_decide (Ticket.id updated = i) then "" else Ticket.id updated)) (server_of s n y)) as ->
    by reflexivity.
  destruct (run_close_children s n y i force Hs) as (b & Hb & E). rewrite run_bind, E.
  destruct (TicketTables.ticket s !! i) as [row|] eqn:Hi.
  - assert (is_Some (TicketTables.ticket (children_done s i force) !! i)) as [row' Hi']
      by by apply children_done_row.
    destruct b.
    + exists (S n). split; [|intros Hn; exfalso; apply Hn; split; [done|by apply Hb]].
      intros _. destruct y as [[t w h q b] c k sp]. cbn [server_of].
      rewrite run_bind, run_into, run_on_tickets.
      rewrite (run_update_ticket _ (children_done_wf s i force Hs) i closing n row' Hi'); [|done..].
      unfold after_closing. rewrite Hi'. cbn [fst snd]. rewrite run_ret. unfold ticket_of. cbn [Ticket.id].
      rewrite bool_decide_eq_true_2; [done|]. unfold updated_row. cbn.
      by apply (row_id _ (children_done_wf s i force Hs)).
    + exists n. split; [intros [_ Hc]; by apply Hb in Hc|]. intros _. eexists.
      assert (force = false) as -> by (destruct force; [naive_solver|done]). reflexivity.
  - exists n. split; [by intros [[? ?] _]; simplify_eq|]. intros _. rewrite no_children by done.
    destruct b; [|by eexists]. destruct y as [[t w h q b] c k sp]. cbn [server_of].
    rewrite run_bind, run_into, run_on_tickets.
    pose proof (update_ticket_spec s Hs i closing n) as Hu. rewrite Hi in Hu. rewrite Hu. by eexists.
Qed.

(** The task, on a site whose ticket database works. *)
Definition site_db (s : site host) : pool tables_t := ticket_db (core_ctx (the_core s)).
Definition close_op (i : string) (force : bool) : TicketOpMsg.t :=
  if force then TicketOpMsg.ForceClose i else TicketOpMsg.Close i.
(** The next call reaches the server; its answer reaches the interface. *)
Definition carried_out (s : site host) : Prop := ∀ e, call_fate (calls s) ≠ NotConnected e.
Definition answered (s : site host) : Prop := call_fate (calls s) = Answered.

Lemma run_ticket_call {A} (m : SE (server host) Status.t A) s :
  (ticket_call m : SE (site host) string A) s
  = (match call_fate (calls s) with
     | Answered => match (m (site_server s)).1 with Ok a => Ok a | Err e => Err (status_display e) end
     | NotConnected e | AnswerLost e => Err e
     end,
     let s1 := Site (the_core s) (the_cancelled s) (the_cancel_receiving s) (the_spawned s) (S (calls s)) in
     match call_fate (calls s) with
     | NotConnected _ => s1
     | _ => put (m (site_server s)).2 s1
     end).
Proof.
  unfold ticket_call, calling, next_call. rewrite run_bind, run_bind, run_gets, run_bind, run_modify, run_ret.
  destruct (call_fate (calls s)) as [|e|e].
  - rewrite run_map_err, run_zoom. cbn [view server_lens].
    change (site_server (Site _ _ _ _ _)) with (site_server s). by destruct (m (site_server s)) as [[a|e] x].
  - by rewrite run_throw.
  - rewrite run_bind, run_attempt, run_map_err, run_zoom. cbn [view server_lens].
    change (site_server (Site _ _ _ _ _)) with (site_server s). by destruct (m (site_server s)) as [[a|e'] x].
Qed.
(** Closing reaches the tables when the call is carried out; its success reaches the
    interface when it is answered. *)
Definition close_effect (s : site host) (tb : tables_t) (n : nat) (i : string) (force : bool)
    (s' : site host) : Prop := ∃ n',
  (may_close tb i force ∧ carried_out s → site_db s' = Pool (after_closing tb i force (now_rfc3339 n)) [] n')
  ∧ (¬ (may_close tb i force ∧ carried_out s) → site_db s' = Pool tb [] n').
Lemma run_close_call s tb n i force : wf tb → site_db s = Pool tb [] n →
  ∃ r s', result_of (update_ticket_status tickets_self i "closed" force) s = (Ok r, s') ∧ close_effect s tb n i force s'
  ∧ (may_close tb i force ∧ answered s → r = Ok tt) ∧ (¬ (may_close tb i force ∧ answered s) → ∃ e, r = Err e).
Proof.
  intros Hs Hdb. destruct (run_close tb n (site_server s) i force Hs) as (n' & Hyes & Hno).
  assert (server_of tb n (site_server s) = site_server s) as Hself.
  { destruct s as [[[[t w h q b] cl] reg ts] ca re sp k]. unfold site_db in Hdb. simpl in *. by subst. }
  rewrite Hself in Hyes, Hno.
  unfold result_of, update_ticket_status, update_call, close_effect, carried_out, answered.
  rewrite run_attempt, run_bind, run_ticket_call by done.
  change (UpdateTicketRequest.mk i (Some "closed") None None None force None None None None) with (close_request i force).
  assert (∀ t' k' r, site_db (put (server_of t' k' (site_server s)) r) = Pool t' [] k') as Hput.
  { intros t' k' r. by destruct s as [[[[t w h q b] cl] reg ts] ca re sp k]. }
  destruct (call_fate (calls s)) as [|e|e] eqn:Hf.
  - assert (∀ P : Prop, (P ∧ ∀ e, Answered ≠ NotConnected e) ↔ P) as Hcar by naive_solver.
    assert (∀ P : Prop, (P ∧ Answered = Answered) ↔ P) as Hans by naive_solver.
    eexists _, _. split; [reflexivity|]. setoid_rewrite Hcar. setoid_rewrite Hans. split; [exists n'|]; split; intros Hm.
    + rewrite (Hyes Hm). cbn [fst snd]. rewrite run_ret. cbn [fst snd]. by rewrite Hput.
    + destruct (Hno Hm) as (e & ->). cbn [fst snd]. by rewrite Hput.
    + by rewrite (Hyes Hm).
    + destruct (Hno Hm) as (e & ->). by eexists.
  - eexists _, _. split; [reflexivity|]. split; [exists n|]; split; cbn [fst snd]; try (intros [_ H']; naive_solver); [|by eexists].
    intros _. by destruct s as [[[[t w h q b] cl] reg ts] ca re sp k].
  - assert (∀ P : Prop, (P ∧ ∀ e', AnswerLost e ≠ NotConnected e') ↔ P) as Hcar by naive_solver.
    eexists _, _. split; [reflexivity|]. setoid_rewrite Hcar.
    split; [exists n'; split; intros Hm; cbn [fst snd]|split; [intros [_ H']; naive_solver|by eexists]].
    + rewrite (Hyes Hm). cbn [fst snd]. by rewrite Hput.
    + destruct (Hno Hm) as (e' & ->). cbn [fst snd]. by rewrite Hput.
Qed.
Lemma close_task s tb n i force : wf tb → site_db s = Pool tb [] n →
  ∃ msg res s', run_task (TaskTicket (close_op i force)) s = (Ok [Msg.TicketOpResult msg], s')
  ∧ ticket_op_result_parts msg = (res, force, None) ∧ close_effect s tb n i force s'
  ∧ (may_close tb i force ∧ answered s → ∃ text, res = Ok text)
  ∧ (¬ (may_close tb i force ∧ answered s) → ∃ e, res = Err e).
Proof.
  intros Hs Hdb. destruct (run_close_call s tb n i force Hs Hdb) as (r & s' & E & Heff & Hyes & Hno).
  assert (∃ text, run_task (TaskTicket (close_op i force)) s
    = (Ok [Msg.TicketOpResult ((if force then TicketOpResultMsg.ForceClosed else TicketOpResultMsg.Closed)
              (said (λ _ : unit, text) r))], s')) as (text & ->).
  { destruct force; cbn [close_op run_spawned_task run_ticket_op];
      unfold exec_force_close, exec_close, answering; rewrite run_bind, E; by eexists. }
  eexists _, (said (λ _ : unit, text) r), s'. split; [reflexivity|]. split; [by destruct force|]. split; [done|].
  split; intros Hm.
  - rewrite (Hyes Hm). by eexists.
  - destruct (Hno Hm) as (e & ->). by eexists.
Qed.

(** The list of tickets is shown, with nothing over it, and [t] is selected. *)
Record at_list (m : Model) (t : PTicket.t) : Prop := {
  list_quiet : active_overlay m = None;
  list_input : input_stack m = [GlobalHandler];
  list_page : NavigationModel.current_page (navigation_model m) = Some PageId.TicketList;
  list_selected : selected_listed m = Some t;
  list_running : should_quit m = false
}.
(** The children that the list knows to be open; with some, closing asks first. *)
Definition asks (t : PTicket.t) : bool :=
  (0 <? as_i32 (PTicket.children_total t - PTicket.children_completed t))%Z.
Definition key_X : Msg.t := Msg.KeyPressed (KeyEvent.mk (KeyCode.Char "X") KeyModifiers.SHIFT).
Definition key_y : Msg.t := Msg.KeyPressed (KeyEvent.mk (KeyCode.Char "y") KeyModifiers.NONE).
Definition close_keys (t : PTicket.t) : list Msg.t := if asks t then [key_X; key_y] else [key_X].

Lemma update_key_X now m t : at_list m t →
  update now m key_X = close_or_ask (update now) t m.
Proof.
  intros [Ho Hi Hp Hs _]. unfold key_X. rewrite update_key. unfold handle_key. rewrite Ho.
  replace (if bool_decide (is_Some (banner m)) then _ else None) with (@None Msg.t) by (by case_bool_decide).
  rewrite Hi. cbn [stack_dispatch]. unfold dispatch_root_page_key. rewrite Hp. cbn [mbind option_bind].
  change (update now m (Msg.Nav NavMsg.TicketListClose) = close_or_ask (update now) t m).
  rewrite update_nav. cbn [dispatch_page_nav handle_ticket_table_nav]. by rewrite Hs.
Qed.
Lemma close_keys_ask now m t : at_list m t →
  ∃ m1, session ((now,.) <$> close_keys t) m = Some (m1, [Cmd.TicketOp (close_op (PTicket.id t) (asks t))])
    ∧ should_quit m1 = false ∧ status m1 = Some (ticket_op_status (close_op (PTicket.id t) (asks t))).
Proof.
  intros Hl. pose proof (update_key_X now m t Hl) as Hx. pose proof (list_running m t Hl) as Hq.
  unfold close_keys, close_or_ask in *. fold (asks t) in Hx. destruct (asks t); cbn [fmap list_fmap session].
  - rewrite Hx, open_force_close. cbn [mbind option_bind fst snd]. 
    replace (should_quit (open_overlay _ m)) with (should_quit m) by done. rewrite Hq.
    unfold key_y. rewrite update_key. unfold handle_key. cbn [active_overlay set_pending_theme_swap open_overlay set_active_overlay].
    change (dispatch_overlay_key _ _) with (Msg.Overlay OverlayMsg.ForceCloseConfirmYes).
    rewrite update_overlay. cbn [handle_overlay handle_force_close_overlay active_overlay set_pending_theme_swap open_overlay set_active_overlay].
    rewrite force_close_confirmed, update_ticket_op. cbn [mbind option_bind fst snd].
    match goal with |- context [should_quit (set_status ?a ?x)] => replace (should_quit (set_status a x)) with (should_quit m) by done end.
    rewrite Hq. by eexists.
  - rewrite Hx, update_ticket_op. cbn [mbind option_bind fst snd].
    replace (should_quit (set_status _ m)) with (should_quit m) by done. rewrite Hq. by eexists.
Qed.

End Close.

(** ** A dispatch that fails after its ticket was created *)

Section Retry.
Context {HE : Env} {HG : PetGraph} {HO : Host} {HH : HashOrder}.
Context {HP : PoolHost} {HW : WorkerHost} {HL : LaunchHost} {HJ : JoinOrder} {HN : Network}.
Context (tickets_self : TicketServiceHandler.t) (core_self : LaunchManager.t).
Context (stop_by_worker_id : string → SE (ctx host) string unit).
Context (project_filter : option string) (list_first : bool).
Context `{UiEnv}.
Local Abbreviation run_task := (run_spawned_task tickets_self core_self stop_by_worker_id project_filter list_first).

Definition key_enter : Msg.t := Msg.KeyPressed (KeyEvent.mk KeyCode.Enter KeyModifiers.NONE).
(** What follows the creation. *)
Definition dispatch_created (pending : PendingTicket.t) (ticket_id project_key image_id : string) : SE (site host) string unit :=
  if String.eqb (PendingTicket.ticket_type pending) "design"
  then launch_design_worker core_self ticket_id project_key image_id
  else dispatch_ticket tickets_self core_self ticket_id project_key image_id.

Lemma enter_creates now pending m : active_overlay m = Some (ActiveOverlay.CreateActionMenu pending 0) →
  ∃ m', update now m key_enter = Some (m', [Cmd.TicketOp (TicketOpMsg.Create pending)]).
Proof.
  intros Ho. unfold key_enter. rewrite update_key. unfold handle_key. rewrite Ho.
  change (dispatch_overlay_key _ _) with (Msg.Overlay OverlayMsg.CreateActionConfirm).
  rewrite update_overlay. cbn [handle_overlay handle_create_action_overlay]. rewrite Ho.
  change (choose_action (update now) pending 0 m)
    with (update now (close_overlay m) (Msg.TicketOp (TicketOpMsg.Create pending))).
  rewrite update_ticket_op. by eexists.
Qed.
(** C28: When a ticket is created and its dispatch then fails, the answer is that of a failed
    creation: the interface reopens the menu with the whole ticket, and confirming its first
    entry creates the ticket a second time. *)
Theorem failed_dispatch_recreates now later pending project_key image_id s ticket_id s1 e s2 m :
  create_ticket tickets_self pending s = (Ok ticket_id, s1) →
  dispatch_created pending ticket_id project_key image_id s1 = (Err e, s2) →
  should_quit m = false →
  ∃ msgs m2 cmds, run_task (TaskTicket (TicketOpMsg.CreateAndDispatch pending project_key image_id)) s = (Ok msgs, s2)
  ∧ session ((now,.) <$> msgs) m = Some (m2, cmds)
  ∧ banner m2 = Some (BannerModel.mk e Error now)
  ∧ active_overlay m2 = Some (ActiveOverlay.CreateActionMenu pending 0)
  ∧ ∃ m3, update later m2 key_enter = Some (m3, [Cmd.TicketOp (TicketOpMsg.Create pending)]).
Proof.
  intros Hc Hd Hq. unfold dispatch_created in Hd.
  assert (∃ text, run_task (TaskTicket (TicketOpMsg.CreateAndDispatch pending project_key image_id)) s
    = (Ok [Msg.StatusShow text; Msg.TicketOpResult (TicketOpResultMsg.Created (Err e) (Some pending))], s2))
    as (text & ->).
  { cbn [run_spawned_task run_ticket_op]. unfold exec_create_and_dispatch, create_and_dispatch, result_of.
    rewrite run_bind, run_bind, run_attempt, Hc. cbn [fst snd]. cbv zeta. rewrite run_bind, run_attempt, Hd.
    cbn [fst snd]. rewrite run_ret. cbn [fst snd finish_create]. rewrite run_bind, run_ret. by eexists. }
  eexists _, _, _. split; [reflexivity|]. cbn [fmap list_fmap session]. rewrite update_status.
  cbn [mbind option_bind fst snd]. replace (should_quit (set_status _ m)) with (should_quit m) by done. rewrite Hq.
  rewrite update_ticket_result. unfold handle_ticket_op_result. rewrite update_clear.
  cbn [mbind option_bind fst snd ticket_op_result_parts]. rewrite update_banner. cbn [mbind option_bind fst snd].
  rewrite open_create. cbn [mbind option_bind fst snd].
  match goal with |- context [should_quit ?x] => replace (should_quit x) with false by (by rewrite <- Hq) end.
  split; [reflexivity|]. split; [done|]. split; [done|].
  by apply enter_creates.
Qed.
End Retry.

(** ** Witnesses *)

(** The server of the launches, on a network whose second call does not connect. *)
Definition flaky : Network := {|
  call_fate n := if Nat.eqb n 1 then NotConnected "connection refused" else Answered;
  status_display s := "status";
  died_display := "died"
|}.
Definition sample_site (tb : tables_t) : site world :=
  Site (launch_core (Ctx (Pool tb [] 0) (Pool free_slot [] 0) (World [] [] [] [] [] []) [] true)) [] true [] 0.
Definition sample_task : spawned_task → SE (site world) Empty_set (list Msg.t) :=
  @run_spawned_task test_env naive_petgraph test_host map_order test_pool test_workers test_files LaunchProps.in_order flaky
    full_handler test_launcher test_stop None false.
Definition sample_epic (child : string) : tables_t :=
  TicketTables.set_ticket {[ "ur-1" := test_ticket "feature";
    "ur-2" := R.mk "ur-2" "ur" "code" child "open" false 1 (Some "ur-1") "child" "" None "2024" "2024" ]} TicketTables.empty.
Lemma sample_at_list : at_list (sample_list "ur") (sample_row "ur-1" "ur").
Proof. by constructor. Qed.
Lemma sample_epic_wf child : child = "open" ∨ child = "closed" → wf (sample_epic child).
Proof. intros [-> | ->]; apply (bool_decide_unpack _); vm_compute; exact I. Qed.
Lemma open_sample_child : has_open_child (sample_epic "open") "ur-1".
Proof. eexists "ur-2", _. split; [vm_compute; reflexivity|]. by split. Qed.
Lemma closed_sample_child : ¬ has_open_child (sample_epic "closed") "ur-1".
Proof.
  intros (c & r & Hc & Hp & Hs).
  change (({[ "ur-1" := test_ticket "feature";
    "ur-2" := R.mk "ur-2" "ur" "code" "closed" "open" false 1 (Some "ur-1") "child" "" None "2024" "2024" ]}
    : gmap string R.t) !! c = Some r) in Hc.
  apply lookup_insert_Some in Hc as [[_ <-]|[_ Hc]]; [discriminate Hp|].
  apply lookup_singleton_Some in Hc as [_ <-]. exact (Hs eq_refl).
Qed.



Definition sample_pending : PendingTicket.t := PendingTicket.mk "ur" "again" "code" 1 "a body" None None ∅.

(** The tickets titled so, after the failed dispatch and after its retry. *)
Definition titled (title : string) (s : site world) : nat :=
  length (filter (λ kv, R.title kv.2 = title) (map_to_list (TicketTables.ticket (tables (@site_db test_host s))))).
Definition run_sample (op : TicketOpMsg.t) (s : site world) : site world := (sample_task (TaskTicket op) s).2.
Definition sample_create : result string string * site world :=
  @create_ticket test_env test_host map_order flaky full_handler sample_pending (sample_site (sample_epic "open")).
Definition sample_created_id : string := match sample_create.1 with Ok id => id | Err _ => "" end.
Definition sample_dispatch : result unit string * site world :=
  @dispatch_created test_env test_host map_order test_pool test_workers test_files LaunchProps.in_order flaky
    full_handler test_launcher sample_pending sample_created_id "ur" "" sample_create.2.
Lemma sample_create_runs : sample_create = (Ok sample_created_id, sample_create.2).
Proof.
  rewrite (surjective_pairing sample_create) at 1. f_equal.
Qed.
Lemma sample_dispatch_fails : sample_dispatch = (Err "connection refused", sample_dispatch.2).
Proof. rewrite (surjective_pairing sample_dispatch) at 1. by f_equal. Qed.
Lemma failed_dispatch_recreates_witness :
  let op := TicketOpMsg.CreateAndDispatch sample_pending "ur" "" in
  let s := sample_site (sample_epic "open") in
  (∃ msgs m2 cmds, sample_task (TaskTicket op) s = (Ok msgs, run_sample op s)
     ∧ @session sample_env ((0%Z,.) <$> msgs) (sample_list "ur") = Some (m2, cmds)
     ∧ ∃ m3, @update sample_env 1 m2 key_enter = Some (m3, [Cmd.TicketOp (TicketOpMsg.Create sample_pending)]))
  ∧ titled "again" (run_sample op s) = 1
  ∧ titled "again" (run_sample (TicketOpMsg.Create sample_pending) (run_sample op s)) = 2.
Proof.
  split; [|vm_compute; by split].
  destruct (@failed_dispatch_recreates test_env naive_petgraph test_host map_order test_pool test_workers test_files
    LaunchProps.in_order flaky full_handler test_launcher test_stop None false sample_env 0 1 sample_pending "ur" ""
    (sample_site (sample_epic "open")) sample_created_id sample_create.2 "connection refused" sample_dispatch.2
    (sample_list "ur") sample_create_runs sample_dispatch_fails eq_refl) as (msgs & m2 & cmds & Hr & Hs & _ & _ & Hk).
  exists msgs, m2, cmds. split; [|exact (conj Hs Hk)].
  unfold run_sample, sample_task. rewrite Hr. reflexivity.
Defined.
