(* ===== verification/UiEvents.v ===== *)
(** * The events of the databases, on their way to the terminals

    Triggers write a row of [ui_events] for what a transaction changed; a poller per
    database reads the rows, deletes them and hands them on as a batch
    ([db_events/src/lib.rs], [workflow_db/src/ui_event_repo.rs]); a merge loop sends the
    batches of both to every subscribed terminal ([server/src/ui_event_poller.rs]).

    Requests, pollers, merge loop and terminals run concurrently: a step is what one of
    them does between two awaits. *)

From S2P Require Import Prelude RustStd Model Env TicketDb UiModel UiState UiHandlers CmdRunner.
Local Open Scope stdpp_scope.

(** ** The table and its writers *)

Module UiEvent.
Record t : Type := mk { id : Z; entity_type : string; entity_id : string; created_at : string }.
End UiEvent.

(** What a trigger fires on. *)
Inductive change : Type :=
| TicketChanged (id : string)
| EdgeChanged (source_id : string)
| MetaChanged (entity_id : string)
| ActivityAdded (ticket_id : string)
| CommentsChanged (ticket_id : string)
| WorkflowChanged (ticket_id : string)
| WorkerChanged (worker_id : string).
(** The rows of a ticket are written for it and all its ancestors. *)
Definition ticket_rows (m : gmap string ExportTicket.t) (i : string) : list (string * string) :=
  pair "ticket" <$> default [] (ancestors (S (size m)) m i).
Definition trigger_rows (m : gmap string ExportTicket.t) (c : change) : list (string * string) :=
  match c with
  | TicketChanged i | EdgeChanged i | MetaChanged i | ActivityAdded i | CommentsChanged i => ticket_rows m i
  | WorkflowChanged i => [("workflow", i)]
  | WorkerChanged i => [("worker", i)]
  end.

(** The committed rows in the order of their commits, what transactions in progress have
    written, and the sequence the identifiers are drawn from. *)
Record events_table : Type := EventsTable {
  committed : list UiEvent.t;
  in_progress : gmap nat (list UiEvent.t);
  next_id : Z
}.
Fixpoint number_rows (id : Z) (now : string) (es : list (string * string)) : list UiEvent.t :=
  match es with
  | [] => []
  | (ty, i) :: es => UiEvent.mk id ty i now :: number_rows (id + 1) now es
  end.
Definition write_rows (tx : nat) (now : string) (es : list (string * string)) (t : events_table) : events_table :=
  EventsTable (committed t)
    (<[tx := default [] (in_progress t !! tx) ++ number_rows (next_id t) now es]> (in_progress t))
    (next_id t + Z.of_nat (length es)).
Definition commit_rows (tx : nat) (t : events_table) : events_table :=
  EventsTable (committed t ++ default [] (in_progress t !! tx)) (delete tx (in_progress t)) (next_id t).
Definition rollback_rows (tx : nat) (t : events_table) : events_table :=
  EventsTable (committed t) (delete tx (in_progress t)) (next_id t).

Definition fetch_events (t : events_table) : list UiEvent.t := order_by (le_by UiEvent.id Z.le) (committed t).
Definition delete_events (max_id : Z) (t : events_table) : events_table :=
  EventsTable (filter (λ e, (max_id < UiEvent.id e)%Z) (committed t)) (in_progress t) (next_id t).
Definition max_id (es : list UiEvent.t) : Z :=
  match es with
  | [] => 0
  | e :: es => foldr (λ e m, Z.max (UiEvent.id e) m) (UiEvent.id e) es
  end.

(** ** Channels and the list of listeners *)

(** Everything sent into a channel, how much of it was received, and whether the receiver
    is gone. *)
Record channel (B : Type) : Type := Channel { sent : list B; taken : nat; dropped : bool }.
Arguments Channel {B}. Arguments sent {B}. Arguments taken {B}. Arguments dropped {B}.
Definition CAPACITY : nat := 64.

Section Broadcast.
Context {B : Type}.

Definition mpsc_channel : channel B := Channel [] 0 false.
Definition buffered (c : channel B) : list B := drop (taken c) (sent c).
Inductive send_result : Type := Sent (c : channel B) | Closed | Full.
Definition send (b : B) (c : channel B) : send_result :=
  if dropped c then Closed
  else if length (buffered c) <? CAPACITY then Sent (Channel (sent c ++ [b]) (taken c) false)
  else Full.
Definition recv (c : channel B) : option (B * channel B) :=
  if dropped c then None
  else b ← head (buffered c); Some (b, Channel (sent c) (S (taken c)) false).
Definition drop_receiver (c : channel B) : channel B := Channel (sent c) (taken c) true.

(** The channels ever made, the listeners, and the batch being sent with the listeners
    still to serve and those found alive.  While a batch is sent the lock of the list is
    held. *)
Record broadcast : Type := Broadcast {
  channels : list (channel B);
  listeners : list nat;
  sending : option (B * list nat * list nat)
}.
Definition add_listener (x : broadcast) : option broadcast :=
  match sending x with
  | Some _ => None
  | None => Some (Broadcast (channels x ++ [mpsc_channel]) (listeners x ++ [length (channels x)]) None)
  end.
Definition dispatch_batch (b : B) (x : broadcast) : broadcast :=
  match listeners x with
  | [] => x
  | l => Broadcast (channels x) [] (Some (b, l, []))
  end.
(** The next listener of the loop; [None] while its channel is full. *)
Definition send_next (x : broadcast) : option broadcast :=
  match sending x with
  | None => None
  | Some (_, [], alive) => Some (Broadcast (channels x) alive None)
  | Some (b, tx :: todo, alive) =>
      c ← channels x !! tx;
      match send b c with
      | Sent c => Some (Broadcast (<[tx := c]> (channels x)) [] (Some (b, todo, alive ++ [tx])))
      | Closed => Some (Broadcast (channels x) [] (Some (b, todo, alive)))
      | Full => None
      end
  end.
Definition on_channel (k : nat) (f : channel B → channel B) (x : broadcast) : broadcast :=
  Broadcast (alter f k (channels x)) (listeners x) (sending x).
Definition receive (k : nat) (x : broadcast) : option (B * broadcast) :=
  c ← channels x !! k;
  r ← recv c;
  Some (r.1, on_channel k (λ _, r.2) x).
End Broadcast.
Arguments broadcast B : clear implicits.

(** ** A poller *)

Inductive WakeReason : Type := Notification | Timeout | Shutdown | ListenError (reconnected : bool).
(** Where the loop of [run] is: about to poll, with rows it has read, waiting (or sending
    its batch), or at its end. *)
Inductive phase : Type := Polling | Fetched (events : list UiEvent.t) | Waiting | Stopped.
Record feed : Type := Feed {
  table : events_table;
  at_phase : phase;
  listening : bool;
  out : broadcast (list UiEvent.t)
}.
Definition with_table (f : events_table → events_table) (x : feed) : feed :=
  Feed (f (table x)) (at_phase x) (listening x) (out x).

(** [poll_once], up to its [DELETE]. *)
Definition fetch_step (ok : bool) (x : feed) : option feed :=
  match at_phase x with
  | Polling =>
      Some (Feed (table x)
              (if ok then match fetch_events (table x) with [] => Waiting | es => Fetched es end else Waiting)
              (listening x) (out x))
  | _ => None
  end.
Definition delete_step (ok : bool) (x : feed) : option feed :=
  match at_phase x with
  | Fetched es =>
      Some (Feed (if ok then delete_events (max_id es) (table x) else table x) Waiting (listening x)
              (dispatch_batch es (out x)))
  | _ => None
  end.
Definition send_step (x : feed) : option feed :=
  o ← send_next (out x); Some (Feed (table x) (at_phase x) (listening x) o).
Definition wake_step (r : WakeReason) (x : feed) : option feed :=
  match at_phase x, sending (out x) with
  | Waiting, None =>
      match r with
      | Shutdown => Some (Feed (table x) Stopped (listening x) (out x))
      | Timeout => Some (Feed (table x) Polling (listening x) (out x))
      | Notification => if listening x then Some (Feed (table x) Polling true (out x)) else None
      | ListenError b => if listening x then Some (Feed (table x) Polling b (out x)) else None
      end
  | _, _ => None
  end.

(** ** The server *)

Definition map_entity_type (entity_type : string) : UiEventType :=
  match entity_type with
  | "ticket" => EventTicket | "workflow" => EventWorkflow | "worker" => EventWorker | _ => EventUnknown
  end.
Definition to_proto (e : UiEvent.t) : UiEventType * string := (map_entity_type (UiEvent.entity_type e), UiEvent.entity_id e).

Inductive source : Type := Tickets | Workflows.
#[export] Instance source_eq_dec : EqDecision source.
Proof. solve_decision. Defined.
(** Both feeds, the listeners of the merge loop (a channel per terminal), and whether the
    loop runs. *)
Record world : Type := World {
  tickets : feed;
  workflows : feed;
  terminals : broadcast (list (UiEventType * string));
  merging : bool
}.
Definition feed_of (s : source) (w : world) : feed := match s with Tickets => tickets w | Workflows => workflows w end.
Definition with_feed (s : source) (f : feed) (w : world) : world :=
  match s with
  | Tickets => World f (workflows w) (terminals w) (merging w)
  | Workflows => World (tickets w) f (terminals w) (merging w)
  end.
Definition with_terminals (b : broadcast (list (UiEventType * string))) (w : world) : world :=
  World (tickets w) (workflows w) b (merging w).
Definition on_feed (s : source) (f : feed → option feed) (w : world) : option world :=
  x ← f (feed_of s w); Some (with_feed s x w).

Inductive label : Type :=
| Write (s : source) (tx : nat) (now : string) (es : list (string * string))
| Commit (s : source) (tx : nat)
| Rollback (s : source) (tx : nat)
| Fetch (s : source) (ok : bool)
| Delete (s : source) (ok : bool)
| PollerSend (s : source)
| Wake (s : source) (r : WakeReason)
| MergeRecv (s : source)
| MergeSend
| MergeShutdown
| Subscribe
| Receive (k : nat)
| Disconnect (k : nat).

(** The merge loop takes a batch from the channel the poller [s] sends into, the first it
    subscribed. *)
Definition merge_recv (s : source) (w : world) : option world :=
  if negb (merging w) then None
  else match sending (terminals w) with
  | Some _ => None
  | None =>
      r ← receive 0 (out (feed_of s w));
      let f := feed_of s w in
      let w := with_feed s (Feed (table f) (at_phase f) (listening f) r.2) w in
      Some (match r.1 with
            | [] => w
            | events => with_terminals (dispatch_batch (to_proto <$> events) (terminals w)) w
            end)
  end.
(** At its end [run] drops both of its receivers. *)
Definition unsubscribe (f : feed) : feed :=
  Feed (table f) (at_phase f) (listening f) (on_channel 0 drop_receiver (out f)).
Definition step (l : label) (w : world) : option world :=
  match l with
  | Write s tx now es => on_feed s (λ f, Some (with_table (write_rows tx now es) f)) w
  | Commit s tx => on_feed s (λ f, Some (with_table (commit_rows tx) f)) w
  | Rollback s tx => on_feed s (λ f, Some (with_table (rollback_rows tx) f)) w
  | Fetch s ok => on_feed s (fetch_step ok) w
  | Delete s ok => on_feed s (delete_step ok) w
  | PollerSend s => on_feed s send_step w
  | Wake s r => on_feed s (wake_step r) w
  | MergeRecv s => merge_recv s w
  | MergeSend => b ← send_next (terminals w); Some (with_terminals b w)
  | MergeShutdown =>
      match sending (terminals w) with
      | None =>
          if merging w then Some (World (unsubscribe (tickets w)) (unsubscribe (workflows w)) (terminals w) false)
          else None
      | Some _ => None
      end
  | Subscribe => b ← add_listener (terminals w); Some (with_terminals b w)
  | Receive k => r ← receive k (terminals w); Some (with_terminals r.2 w)
  | Disconnect k => Some (with_terminals (on_channel k drop_receiver (terminals w)) w)
  end.
Fixpoint steps (ls : list label) (w : world) : option world :=
  match ls with
  | [] => Some w
  | l :: ls => w ← step l w; steps ls w
  end.

(** [UiEventPoller::run] subscribes to both pollers before it spawns them. *)
Definition new_feed (t : events_table) (listening : bool) : feed :=
  Feed t Polling listening (Broadcast [mpsc_channel] [0] None).
Definition start (t1 t2 : events_table) (l1 l2 : bool) : world :=
  World (new_feed t1 l1) (new_feed t2 l2) (Broadcast [] [] None) true.

(** ** No event disappears on the way

    An event is on its way to a terminal as a committed row, in the channel between a
    poller and the merge loop, in a batch being sent, or in the terminal's own channel.
    What is in a channel when its receiver is dropped is gone, and so is what a poller
    sends there afterwards. *)

Section Channels.
Context {B : Type}.
Implicit Types (x : broadcast B) (b : B) (k : nat).

Definition members x : list nat :=
  listeners x ++ match sending x with Some (_, todo, alive) => todo ++ alive | None => [] end.
Definition live k x : Prop := ∃ c, channels x !! k = Some c ∧ dropped c = false.
(** What was sent to a listener, and what the batch in progress still owes it. *)
Definition got k x : list B := from_option sent [] (channels x !! k).
Definition due k x : list B :=
  match sending x with Some (b, todo, _) => if bool_decide (k ∈ todo) then [b] else [] | None => [] end.
Definition broadcast_ok x : Prop :=
  NoDup (members x) ∧ (∀ k, live k x → k ∈ members x) ∧ Forall (λ k, k < length (channels x)) (members x)
  ∧ (sending x ≠ None → listeners x = []).

Lemma live_lt k x : live k x → k < length (channels x).
Proof. intros (c & Hc & _). by eapply lookup_lt_Some. Qed.

Lemma add_listener_ok x x' : broadcast_ok x → add_listener x = Some x' →
  broadcast_ok x' ∧ (∀ k, live k x → live k x' ∧ got k x' = got k x ∧ due k x' = due k x)
  ∧ live (length (channels x)) x' ∧ got (length (channels x)) x' = [] ∧ due (length (channels x)) x' = [].
Proof.
  intros (Hnd & Hlive & Hlt & _). unfold add_listener. destruct (sending x) as [p|] eqn:Es; [done|].
  intros [= <-]. unfold broadcast_ok, live, got, due, members in *. rewrite Es, app_nil_r in *. simpl.
  rewrite ?app_nil_r. split_and!; [| | |done| | |by rewrite list_lookup_middle|done].
  - apply NoDup_app. split_and!; [done| |apply NoDup_singleton].
    intros k Hk ->%list_elem_of_singleton. rewrite Forall_forall in Hlt. by apply Hlt, Nat.lt_irrefl in Hk.
  - intros k (c & Hc & Hd). rewrite lookup_app in Hc. apply elem_of_app.
    destruct (channels x !! k) as [c'|] eqn:E; [left; simplify_eq; eauto|right].
    apply list_elem_of_singleton. apply lookup_ge_None_1 in E.
    destruct (k - length (channels x)) as [|j] eqn:Ek; [lia|by destruct j].
  - rewrite length_app. simpl. apply Forall_app. split; [|by apply Forall_singleton; lia].
    eapply Forall_impl; [exact Hlt|]. simpl. intros; lia.
  - intros k (c & Hc & Hd). rewrite lookup_app, Hc. by split; [exists c|].
  - exists mpsc_channel. by rewrite list_lookup_middle.
Qed.

Lemma dispatch_batch_ok b x : broadcast_ok x → sending x = None →
  broadcast_ok (dispatch_batch b x)
  ∧ ∀ k, (live k (dispatch_batch b x) ↔ live k x) ∧ got k (dispatch_batch b x) = got k x
         ∧ (live k x → due k (dispatch_batch b x) = [b]).
Proof.
  intros (Hnd & Hlive & Hlt & Hl) Es. unfold dispatch_batch.
  unfold broadcast_ok, members, due in *. rewrite Es, app_nil_r in *.
  destruct (listeners x) as [|j l] eqn:El.
  - rewrite Es, El. split; [done|]. intros k. split_and!; [done|done|].
    intros Hk%Hlive. by apply elem_of_nil in Hk.
  - simpl. rewrite app_nil_r. split; [by split_and!|]. intros k. split_and!; [done|done|].
    intros Hk%Hlive. by rewrite bool_decide_eq_true_2.
Qed.

Lemma due_tail k tx (todo : list nat) (b : B) : k ≠ tx →
  (if bool_decide (k ∈ tx :: todo) then [b] else []) = (if bool_decide (k ∈ todo) then [b] else []).
Proof. intros Hne. repeat case_bool_decide; set_solver. Qed.
Lemma send_next_ok x x' : broadcast_ok x → send_next x = Some x' →
  broadcast_ok x' ∧ length (channels x') = length (channels x)
  ∧ ∀ k, (live k x' ↔ live k x) ∧ (live k x → got k x' ++ due k x' = got k x ++ due k x).
Proof.
  intros (Hnd & Hlive & Hlt & Hl). unfold send_next. destruct (sending x) as [[[b todo] alive]|] eqn:Es; [|done].
  unfold members in *. rewrite Es, Hl in * by done. simpl in *.
  unfold broadcast_ok, members, live, got, due. rewrite Es. destruct todo as [|tx todo]; simpl in *.
  { intros [= <-]. simpl. rewrite app_nil_r. split_and!; try done. }
  destruct (channels x !! tx) as [c|] eqn:Hc; [simpl|done]. unfold send.
  apply NoDup_cons in Hnd as [Hni Hnd]. apply Forall_cons in Hlt as [Hlt Hlts].
  destruct (dropped c) eqn:Hd.
  - intros [= <-]. simpl. split_and!; try done.
    + intros k Hk. pose proof (Hlive k Hk) as [->|]%elem_of_cons; [|done].
      destruct Hk as (c' & Hc' & ?). congruence.
    + intros k. split; [done|]. intros (c' & Hc' & Hd'). assert (k ≠ tx) by congruence.
      by rewrite (due_tail k tx todo).
  - destruct (length (buffered c) <? CAPACITY); [|done]. intros [= <-]. simpl.
    assert (∀ k, (∃ c', <[tx:=Channel (sent c ++ [b]) (taken c) false]> (channels x) !! k = Some c' ∧ dropped c' = false)
       ↔ live k x) as Hiff.
    { intros k. destruct (decide (k = tx)) as [->|Hne].
      - rewrite list_lookup_insert_eq by done. split; intros _; [by exists c|eauto].
      - by rewrite list_lookup_insert_ne. }
    rewrite length_insert. split_and!; try done.
    + rewrite app_assoc. apply NoDup_app. split_and!; [done| |apply NoDup_singleton].
      intros k Hk ->%list_elem_of_singleton. done.
    + intros k Hk%Hiff%Hlive. set_solver.
    + rewrite app_assoc. apply Forall_app. split; [done|]. by apply Forall_singleton.
    + intros k. split; [apply Hiff|]. intros Hk. destruct (decide (k = tx)) as [->|Hne].
      * rewrite list_lookup_insert_eq by done. rewrite Hc. simpl.
        rewrite bool_decide_eq_false_2, bool_decide_eq_true_2, app_nil_r; [done|by left|set_solver].
      * rewrite list_lookup_insert_ne by done. by rewrite (due_tail k tx todo).
Qed.

Lemma send_next_channel x x' k c : send_next x = Some x' → channels x !! k = Some c →
  ∃ c', channels x' !! k = Some c' ∧ dropped c' = dropped c ∧ taken c' = taken c ∧ sent c `prefix_of` sent c'.
Proof.
  unfold send_next. destruct (sending x) as [[[b [|tx todo]] alive]|]; [|simpl|done].
  { intros [= <-] Hc. by exists c. }
  destruct (channels x !! tx) as [ct|] eqn:Ect; [simpl|done]. unfold send.
  destruct (dropped ct) eqn:Edt; [intros [= <-] Hc; by exists c|].
  destruct (length (buffered ct) <? CAPACITY); [|done]. intros [= <-] Hc. simpl.
  destruct (decide (tx = k)) as [->|Hne]; [|rewrite list_lookup_insert_ne by done; by exists c].
  rewrite list_lookup_insert_eq by (by eapply lookup_lt_Some). simplify_eq.
  eexists. split_and!; [done|done|done|by eexists].
Qed.

Lemma on_channel_ok k f x : broadcast_ok x →
  (∀ c, channels x !! k = Some c → sent (f c) = sent c ∧ (dropped (f c) = false → dropped c = false)) →
  broadcast_ok (on_channel k f x)
  ∧ ∀ j, (live j (on_channel k f x) → live j x) ∧ got j (on_channel k f x) = got j x
         ∧ due j (on_channel k f x) = due j x.
Proof.
  intros (Hnd & Hlive & Hlt & Hl) Hf.
  assert (∀ j, live j (on_channel k f x) → live j x) as Hlv.
  { intros j (c & Hc & Hd). unfold on_channel in Hc. simpl in Hc. destruct (decide (j = k)) as [->|Hne].
    - rewrite list_lookup_alter_eq in Hc. apply fmap_Some in Hc as (c0 & Hc0 & ->). exists c0.
      split; [done|]. by apply (Hf c0).
    - rewrite list_lookup_alter_ne in Hc by done. by exists c. }
  split.
  - split_and!; try done.
    + intros j Hj%Hlv. by apply Hlive.
    + simpl. by rewrite length_alter.
  - intros j. split_and!; [by apply Hlv| |done]. unfold got, on_channel. simpl.
    destruct (decide (j = k)) as [->|Hne]; [|by rewrite list_lookup_alter_ne].
    rewrite list_lookup_alter_eq. destruct (channels x !! k) as [c|] eqn:Hc; [|done]. simpl. by apply (Hf c).
Qed.
End Channels.

(** *** A feed *)

Definition unread (x : broadcast (list UiEvent.t)) : list UiEvent.t :=
  match channels x !! 0 with
  | Some c => if dropped c then [] else concat (buffered c ++ due 0 x)
  | None => []
  end.
(** The events of a feed the merge loop has not taken. *)
Definition upstream (f : feed) : list UiEvent.t := unread (out f) ++ committed (table f).
(** [m]: the merge loop runs. *)
Definition feed_ok (m : bool) (f : feed) : Prop :=
  broadcast_ok (out f)
  ∧ (∃ c, channels (out f) !! 0 = Some c ∧ dropped c = negb m ∧ taken c ≤ length (sent c))
  ∧ match at_phase f with
    | Waiting => True
    | Fetched es => sending (out f) = None ∧ es ≠ [] ∧ take (length es) (committed (table f)) ≡ₚ es
    | Polling | Stopped => sending (out f) = None
    end.

(** The rows a [DELETE] removes although the poller has not read them. *)
Definition overtaken (es : list UiEvent.t) (t : events_table) : list UiEvent.t :=
  filter (λ e, ¬ (max_id es < UiEvent.id e)%Z) (drop (length es) (committed t)).

Lemma max_id_le es e : e ∈ es → (UiEvent.id e ≤ max_id es)%Z.
Proof.
  destruct es as [|e0 es]; [by intros ?%elem_of_nil|]. simpl. intros Hin.
  assert (∀ z l, (∀ e, e ∈ l → (UiEvent.id e ≤ foldr (λ e m, Z.max (UiEvent.id e) m) z l)%Z)
    ∧ (z ≤ foldr (λ e m, Z.max (UiEvent.id e) m) z l)%Z) as H.
  { intros z l. induction l as [|x l [IH1 IH2]]; simpl.
    - split; [by intros ? ?%elem_of_nil|lia].
    - split; [|lia]. intros e' [->|He']%elem_of_cons; [lia|]. apply IH1 in He'. lia. }
  destruct (H (UiEvent.id e0) es) as [H1 H2]. apply elem_of_cons in Hin as [->|Hin]; [lia|by apply H1].
Qed.
Lemma delete_splits es t : take (length es) (committed t) ≡ₚ es →
  committed t ≡ₚ es ++ overtaken es t ++ committed (delete_events (max_id es) t).
Proof.
  intros Hes. unfold overtaken, delete_events. simpl.
  rewrite <- (take_drop (length es) (committed t)) at 1. rewrite Hes. apply Permutation_app_head.
  rewrite <- (take_drop (length es) (committed t)) at 3. rewrite filter_app.
  replace (filter (λ e, (max_id es < UiEvent.id e)%Z) (take (length es) (committed t))) with (@nil UiEvent.t).
  - simpl. generalize (drop (length es) (committed t)) as l. induction l as [|x l IH]; [done|].
    rewrite !filter_cons. case_decide as H1; case_decide as H2; try tauto.
    + simpl. by rewrite IH at 1.
    + rewrite IH at 1. by rewrite Permutation_middle.
  - symmetry. apply elem_of_nil_inv. intros e [Hm He]%list_elem_of_filter. rewrite Hes in He.
    apply max_id_le in He. lia.
Qed.

Lemma fetch_events_perm t : fetch_events t ≡ₚ committed t.
Proof. apply order_by_perm. Qed.

Lemma fetch_step_ok m ok f f' : feed_ok m f → fetch_step ok f = Some f' → feed_ok m f' ∧ upstream f' = upstream f.
Proof.
  intros (Hb & Hc & Hp). unfold fetch_step. destruct (at_phase f) eqn:Ep; [|done|done|done].
  intros [= <-]. split; [|done]. split_and!; [done|done|]. simpl.
  destruct ok; [|done]. pose proof (fetch_events_perm (table f)) as HP.
  destruct (fetch_events (table f)) as [|e es]; [done|]. split_and!; [done|done|].
  rewrite take_ge; [done|]. by rewrite HP.
Qed.
Lemma delete_step_ok m ok f f' es : feed_ok m f → at_phase f = Fetched es → delete_step ok f = Some f' →
  feed_ok m f' ∧ upstream f ++ (if ok then [] else es)
    ≡ₚ upstream f' ++ (if ok then overtaken es (table f) else []) ++ (if m then [] else es).
Proof.
  intros (Hb & (c & Hc & Hd & Hle) & Hp) Ep. unfold delete_step. rewrite Ep in *. intros [= <-].
  destruct Hp as (Hs & _ & Hes). destruct (dispatch_batch_ok es (out f) Hb Hs) as [Hb' Hk].
  destruct (Hk 0) as (_ & _ & Hdue).
  assert (channels (dispatch_batch es (out f)) = channels (out f)) as Hch.
  { unfold dispatch_batch. by destruct (listeners (out f)). }
  assert (unread (dispatch_batch es (out f)) = unread (out f) ++ if m then es else []) as Hun.
  { unfold unread. rewrite Hch, Hc, Hd. destruct m; [|done]. simpl in *. rewrite Hdue by (by exists c).
    unfold due. rewrite Hs, app_nil_r, concat_app. simpl. by rewrite app_nil_r. }
  split.
  - split_and!; [done|exists c; simpl; by rewrite Hch|done].
  - unfold upstream. simpl. rewrite Hun.
    destruct ok; [rewrite (delete_splits es (table f) Hes) at 1|]; destruct m; solve_Permutation.
Qed.
Lemma send_step_ok m f f' : feed_ok m f → send_step f = Some f' → feed_ok m f' ∧ upstream f' = upstream f.
Proof.
  intros (Hb & (c & Hc & Hd & Hle) & Hp). unfold send_step.
  destruct (send_next (out f)) as [o|] eqn:Es; [simpl|done]. intros [= <-].
  destruct (send_next_ok _ _ Hb Es) as (Hb' & _ & Hk). destruct (Hk 0) as [Hl Hg].
  destruct (send_next_channel _ _ _ _ Es Hc) as (c' & Hc' & Hd' & Ht & Hpre).
  unfold got in Hg. rewrite Hc, Hc' in Hg. simpl in Hg. pose proof (prefix_length _ _ Hpre) as Hle'.
  split.
  - split_and!; [done|exists c'; split_and!; [done|congruence|lia]|]. simpl. destruct (at_phase f); [| |done|].
    + by unfold send_next in Es; rewrite Hp in Es.
    + destruct Hp as [Hp _]. by unfold send_next in Es; rewrite Hp in Es.
    + by unfold send_next in Es; rewrite Hp in Es.
  - unfold upstream, unread. simpl. rewrite Hc, Hc', Hd'. destruct (dropped c) eqn:Hdc; [done|].
    specialize (Hg ltac:(by exists c)). f_equal. f_equal. unfold buffered. rewrite Ht.
    rewrite <- (drop_app_le (sent c')) by lia. rewrite <- (drop_app_le (sent c)) by lia. by rewrite Hg.
Qed.
Lemma wake_step_ok m r f f' : feed_ok m f → wake_step r f = Some f' → feed_ok m f' ∧ upstream f' = upstream f.
Proof.
  intros (Hb & Hc & Hp). unfold wake_step. destruct (at_phase f), (sending (out f)) eqn:Es; try done.
  intros H. assert (out f' = out f ∧ table f' = table f ∧ (at_phase f' = Polling ∨ at_phase f' = Stopped)) as (Ho & Ht & Hph).
  { destruct r; [destruct (listening f)| | |destruct (listening f)]; by simplify_eq; eauto. }
  unfold feed_ok, upstream. rewrite Ho, Ht. split; [|done]. split_and!; [done|done|]. by destruct Hph as [->| ->].
Qed.
Lemma with_table_ok m h f : feed_ok m f → (∃ l, committed (h (table f)) = committed (table f) ++ l) →
  feed_ok m (with_table h f).
Proof.
  intros (Hb & Hc & Hp) [l Hl]. split_and!; [done|done|]. simpl. destruct (at_phase f); try done.
  destruct Hp as (Hs & Hne & Hes). split_and!; [done|done|]. rewrite Hl, take_app_le; [done|].
  apply Permutation_length in Hes. rewrite length_take in Hes. lia.
Qed.
Lemma recv_spec {B} (c : channel B) b c' : recv c = Some (b, c') →
  dropped c = false ∧ buffered c = b :: buffered c' ∧ c' = Channel (sent c) (S (taken c)) false.
Proof.
  unfold recv. destruct (dropped c); [done|]. unfold buffered at 1.
  destruct (drop (taken c) (sent c)) as [|b' l] eqn:Eb; [done|]. simpl. intros [= <- <-].
  split_and!; [done| |done]. unfold buffered. simpl. rewrite Eb. f_equal.
  replace (S (taken c)) with (taken c + 1) by lia. by rewrite <- drop_drop, Eb.
Qed.
(** The merge loop takes the next batch of a feed. *)
Lemma take_batch m f b x : feed_ok m f → receive 0 (out f) = Some (b, x) →
  let f' := Feed (table f) (at_phase f) (listening f) x in feed_ok m f' ∧ upstream f = b ++ upstream f'.
Proof.
  intros (Hb & (c & Hc & Hd & Hle) & Hp). unfold receive. rewrite Hc. simpl.
  destruct (recv c) as [[b' c']|] eqn:Er; [|done]. simpl. intros [= -> <-].
  apply recv_spec in Er as (Hd0 & Hbuf & Hc').
  destruct (on_channel_ok 0 (λ _, c') (out f) Hb) as [Hb' _].
  { intros c0 Hc0. assert (c0 = c) as -> by congruence. by rewrite Hc'. }
  assert (channels (on_channel 0 (λ _, c') (out f)) !! 0 = Some c') as Hlook.
  { unfold on_channel. simpl. by rewrite list_lookup_alter_eq, Hc. }
  split.
  - split_and!; [done| |done]. exists c'. split_and!; [done|rewrite Hc'; simpl; congruence|].
    rewrite Hc'. simpl. unfold buffered in Hbuf. apply (f_equal length) in Hbuf.
    rewrite Hc' in Hbuf. simpl in Hbuf. rewrite !length_drop in Hbuf. lia.
  - unfold upstream, unread. cbn [out table]. rewrite Hlook, Hc, Hd0, Hbuf, Hc'. simpl. by rewrite <- !app_assoc.
Qed.
(** The merge loop drops its receivers. *)
Lemma unsubscribe_ok f : feed_ok true f →
  feed_ok false (unsubscribe f) ∧ upstream f = unread (out f) ++ upstream (unsubscribe f).
Proof.
  intros (Hb & (c & Hc & Hd & Hle) & Hp).
  destruct (on_channel_ok 0 drop_receiver (out f) Hb) as [Hb' _]; [by intros c0 _|].
  assert (channels (on_channel 0 drop_receiver (out f)) !! 0 = Some (drop_receiver c)) as Hlook.
  { unfold on_channel. simpl. by rewrite list_lookup_alter_eq, Hc. }
  split; [split_and!; [done|by exists (drop_receiver c)|done]|].
  unfold upstream, unsubscribe. cbn [out table]. unfold unread at 3. by rewrite Hlook.
Qed.

(** *** The server *)

Definition world_ok (w : world) : Prop :=
  feed_ok (merging w) (tickets w) ∧ feed_ok (merging w) (workflows w) ∧ broadcast_ok (terminals w).
Definition connected (k : nat) (w : world) : Prop := live k (terminals w).
(** What the terminal [k] was sent, and everything there is for it. *)
Definition shown (k : nat) (w : world) : list (UiEventType * string) := concat (got k (terminals w)).
Definition account (k : nat) (w : world) : list (UiEventType * string) :=
  concat (got k (terminals w) ++ due k (terminals w))
  ++ (to_proto <$> upstream (tickets w)) ++ (to_proto <$> upstream (workflows w)).
(** What a step adds, a commit or the rows of a [DELETE] that failed, and what it loses:
    the rows a [DELETE] removes unread, what is in the merge loop's channels when it ends,
    and what a poller hands on after that. *)
Definition added (l : label) (w : world) : list (UiEventType * string) :=
  match l with
  | Commit s tx => to_proto <$> default [] (in_progress (table (feed_of s w)) !! tx)
  | Delete s false => match at_phase (feed_of s w) with Fetched es => to_proto <$> es | _ => [] end
  | _ => []
  end.
Definition lost (l : label) (w : world) : list (UiEventType * string) :=
  match l with
  | Delete s ok =>
      match at_phase (feed_of s w) with
      | Fetched es =>
          to_proto <$> (if ok then overtaken es (table (feed_of s w)) else []) ++ (if merging w then [] else es)
      | _ => []
      end
  | MergeShutdown => to_proto <$> unread (out (tickets w)) ++ unread (out (workflows w))
  | _ => []
  end.

Lemma feed_of_ok s w : world_ok w → feed_ok (merging w) (feed_of s w).
Proof. intros (H1 & H2 & _). by destruct s. Qed.
Lemma with_feed_ok s f w : world_ok w → feed_ok (merging w) f → world_ok (with_feed s f w).
Proof. intros (H1 & H2 & H3) Hf. by destruct s; split_and!. Qed.
Lemma account_with_feed k s f w (more less : list UiEvent.t) :
  upstream (feed_of s w) ++ more ≡ₚ upstream f ++ less →
  account k w ++ (to_proto <$> more) ≡ₚ account k (with_feed s f w) ++ (to_proto <$> less).
Proof.
  intros H. apply (fmap_Permutation to_proto) in H. rewrite !fmap_app in H.
  unfold account. destruct s; simpl in *.
  - trans (concat (got k (terminals w) ++ due k (terminals w))
           ++ ((to_proto <$> upstream (tickets w)) ++ (to_proto <$> more)) ++ (to_proto <$> upstream (workflows w)));
      [solve_Permutation|]. rewrite H. solve_Permutation.
  - rewrite <- !app_assoc. by rewrite H.
Qed.
Lemma on_feed_account s h w w' k more less :
  world_ok w → on_feed s h w = Some w' →
  (∀ f, h (feed_of s w) = Some f → feed_ok (merging w) f ∧ upstream (feed_of s w) ++ more ≡ₚ upstream f ++ less) →
  world_ok w' ∧ terminals w' = terminals w
  ∧ account k w ++ (to_proto <$> more) ≡ₚ account k w' ++ (to_proto <$> less).
Proof.
  intros Hw. unfold on_feed. destruct (h (feed_of s w)) as [f|]; [simpl|done]. intros [= <-] H.
  destruct (H f) as [Hf HP]; [done|]. split_and!; [by apply with_feed_ok|by destruct s|by apply account_with_feed].
Qed.
(** A step keeps what a terminal is sent or still owed, up to [added] and [lost]. *)
Definition accounted (l : label) (w w' : world) : Prop :=
  ∀ k, k < length (channels (terminals w)) → connected k w' →
    connected k w ∧ account k w ++ added l w ≡ₚ account k w' ++ lost l w.

Lemma accounted_terminals l w b : world_ok w →
  (∀ k, k < length (channels (terminals w)) → live k b →
     live k (terminals w) ∧ got k b ++ due k b = got k (terminals w) ++ due k (terminals w)) →
  added l w = [] → lost l w = [] → accounted l w (with_terminals b w).
Proof.
  intros Hw H Ha Hl k Hlt Hk. destruct (H k Hlt Hk) as [H1 H2]. split; [done|].
  rewrite Ha, Hl, !app_nil_r. unfold account. simpl. by rewrite H2.
Qed.

Lemma write_rows_committed tx now es t : ∃ l, committed (write_rows tx now es t) = committed t ++ l.
Proof. exists []. by rewrite app_nil_r. Qed.
Lemma rollback_rows_committed tx t : ∃ l, committed (rollback_rows tx t) = committed t ++ l.
Proof. exists []. by rewrite app_nil_r. Qed.

(** The steps of the feeds. *)
Lemma feed_step_account l w w' : world_ok w → step l w = Some w' →
  match l with Write _ _ _ _ | Commit _ _ | Rollback _ _ | Fetch _ _ | Delete _ _ | PollerSend _ | Wake _ _ => True | _ => False end →
  world_ok w' ∧ length (channels (terminals w)) ≤ length (channels (terminals w')) ∧ accounted l w w'.
Proof.
  intros Hw Hs Hl.
  assert (∃ s h more less, on_feed s h w = Some w' ∧ added l w = to_proto <$> more ∧ lost l w = to_proto <$> less
    ∧ ∀ f, h (feed_of s w) = Some f → feed_ok (merging w) f ∧ upstream (feed_of s w) ++ more ≡ₚ upstream f ++ less)
    as (s & h & more & less & Ho & Ha & Hlo & Hh).
  2: { destruct (on_feed_account _ _ _ _ 0 _ _ Hw Ho Hh) as (Hw' & Ht & _). split_and!; [done|by rewrite Ht|].
       intros k Hlt Hk. destruct (on_feed_account _ _ _ _ k _ _ Hw Ho Hh) as (_ & _ & HP).
       unfold connected in *. rewrite Ha, Hlo. rewrite Ht in Hk. done. }
  pose proof (λ s, feed_of_ok s w Hw) as Hf. destruct l as [s tx now es|s tx|s tx|s ok|s ok|s|s r|?| | | |?|?]; try done; simpl in Hs.
  - exists s, (λ f, Some (with_table (write_rows tx now es) f)), [], []. split_and!; [done|done|done|].
    intros f [= <-]. split; [by apply with_table_ok, write_rows_committed|done].
  - exists s, (λ f, Some (with_table (commit_rows tx) f)), (default [] (in_progress (table (feed_of s w)) !! tx)), [].
    split_and!; [done|done|done|]. intros f [= <-]. split; [apply with_table_ok; [done|by eexists]|].
    unfold upstream. simpl. by rewrite app_nil_r, <- app_assoc.
  - exists s, (λ f, Some (with_table (rollback_rows tx) f)), [], []. split_and!; [done|done|done|].
    intros f [= <-]. split; [by apply with_table_ok, rollback_rows_committed|done].
  - exists s, (fetch_step ok), [], []. split_and!; [done|done|done|]. intros f H.
    destruct (fetch_step_ok (merging w) ok (feed_of s w) f) as [? ->]; done.
  - exists s, (delete_step ok). simpl. destruct (at_phase (feed_of s w)) as [|es| |] eqn:Ep;
      try (exfalso; unfold on_feed, delete_step in Hs; by rewrite Ep in Hs).
    exists (if ok then [] else es),
      ((if ok then overtaken es (table (feed_of s w)) else []) ++ (if merging w then [] else es)).
    split_and!; [done|by destruct ok|done|]. intros f H.
    by apply (delete_step_ok (merging w) ok (feed_of s w) f es).
  - exists s, send_step, [], []. split_and!; [done|done|done|]. intros f H.
    destruct (send_step_ok (merging w) (feed_of s w) f) as [? ->]; done.
  - exists s, (wake_step r), [], []. split_and!; [done|done|done|]. intros f H.
    destruct (wake_step_ok (merging w) r (feed_of s w) f) as [? ->]; done.
Qed.

Lemma merge_recv_account s w w' : world_ok w → merge_recv s w = Some w' →
  world_ok w' ∧ length (channels (terminals w)) ≤ length (channels (terminals w')) ∧ accounted (MergeRecv s) w w'.
Proof.
  intros Hw. unfold merge_recv. destruct (merging w) eqn:Em; [simpl|done].
  destruct (sending (terminals w)) eqn:Es; [done|].
  destruct (receive 0 (out (feed_of s w))) as [[b x]|] eqn:Er; [simpl|done]. intros [= <-].
  destruct (take_batch _ _ _ _ (feed_of_ok s w Hw) Er) as [Hf Hup].
  set (f := Feed _ _ _ _) in *. pose proof (with_feed_ok s f w Hw Hf) as Hw1.
  assert (terminals (with_feed s f w) = terminals w) as Ht by by destruct s.
  assert (∀ k, account k w ≡ₚ (to_proto <$> b) ++ account k (with_feed s f w)) as Hacc.
  { intros k. pose proof (account_with_feed k s f w [] b) as H. simpl in H. rewrite !app_nil_r in H.
    rewrite H; [solve_Permutation|]. rewrite Hup. solve_Permutation. }
  destruct b as [|e b].
  { split_and!; [done|by rewrite Ht|]. intros k _ Hk. split; [by unfold connected in *; rewrite <- Ht|].
    simpl. rewrite !app_nil_r. apply Hacc. }
  destruct Hw as (H1 & H2 & H3).
  destruct (dispatch_batch_ok (to_proto <$> e :: b) (terminals w) H3 Es) as [Hb Hk].
  assert (∀ b, channels (dispatch_batch b (terminals w)) = channels (terminals w)) as Hch.
  { intros b0. unfold dispatch_batch. by destruct (listeners (terminals w)). }
  rewrite Ht. set (d := dispatch_batch _ _) in *.
  split_and!; [|simpl; unfold d; by rewrite Hch|].
  - destruct Hw1 as (? & ? & _). by split_and!.
  - intros k _ Hlk. destruct (Hk k) as (Hlive & Hg & Hd). unfold connected in Hlk. simpl in Hlk.
    apply Hlive in Hlk. split; [done|]. simpl added. simpl lost. rewrite !app_nil_r, Hacc.
    unfold account. simpl terminals. simpl tickets. simpl workflows.
    rewrite Ht, Hg, (Hd Hlk). unfold due. rewrite Es, app_nil_r, concat_app. simpl concat. rewrite app_nil_r.
    solve_Permutation.
Qed.

Lemma step_account l w w' : world_ok w → step l w = Some w' →
  world_ok w' ∧ length (channels (terminals w)) ≤ length (channels (terminals w')) ∧ accounted l w w'.
Proof.
  intros Hw Hs. destruct l as [| | | | | | |s| | | |k|k];
    try (by apply feed_step_account); simpl in Hs; pose proof Hw as (H1 & H2 & H3).
  - by apply merge_recv_account.
  - destruct (send_next (terminals w)) as [b|] eqn:E; [|done]. simplify_eq/=.
    destruct (send_next_ok _ _ H3 E) as (Hb & Hlen & Hk). split_and!; [by split_and!|simpl; lia|].
    apply accounted_terminals; try done. intros k _ Hl. destruct (Hk k) as [Hi Hg].
    apply Hi in Hl. by split; [|apply Hg].
  - destruct (sending (terminals w)); [done|]. destruct (merging w) eqn:Em; [|done]. simplify_eq/=.
    apply unsubscribe_ok in H1 as [H1 E1], H2 as [H2 E2].
    split_and!; [by split_and!|done|]. intros k _ Hk. split; [done|].
    unfold account. simpl. rewrite E1, E2, !fmap_app. solve_Permutation.
  - destruct (add_listener (terminals w)) as [b|] eqn:E; [|done]. simplify_eq/=.
    destruct (add_listener_ok _ _ H3 E) as (Hb & Hk & _). split_and!; [by split_and!| |].
    + simpl. unfold add_listener in E. destruct (sending (terminals w)); simplify_eq. simpl. rewrite length_app. lia.
    + apply accounted_terminals; try done. intros k Hlt (c & Hc & Hd).
      assert (live k (terminals w)) as Hl.
      { unfold add_listener in E. destruct (sending (terminals w)); simplify_eq. simpl in Hc.
        rewrite lookup_app_l in Hc by done. by exists c. }
      destruct (Hk k Hl) as (_ & -> & ->). done.
  - unfold receive in Hs. destruct (channels (terminals w) !! k) as [c|] eqn:Hc; [simpl in Hs|done].
    destruct (recv c) as [[b c']|] eqn:Er; [simpl in Hs|done]. simplify_eq.
    apply recv_spec in Er as (Hd & _ & Hc').
    destruct (on_channel_ok k (λ _, c') (terminals w) H3) as [Hb Hk].
    { intros c0 Hc0. assert (c0 = c) as -> by congruence. by rewrite Hc'. }
    split_and!; [by split_and!|simpl; by rewrite length_alter|].
    apply accounted_terminals; try done. intros j _ Hl. destruct (Hk j) as (Hi & -> & ->). split; [by apply Hi|done].
  - simplify_eq. destruct (on_channel_ok k drop_receiver (terminals w) H3) as [Hb Hk]; [by intros c Hc|].
    split_and!; [by split_and!|simpl; by rewrite length_alter|].
    apply accounted_terminals; try done. intros j _ Hl. destruct (Hk j) as (Hi & -> & ->). split; [by apply Hi|done].
Qed.

Fixpoint added_all (ls : list label) (w : world) : list (UiEventType * string) :=
  match ls with
  | [] => []
  | l :: ls => added l w ++ from_option (added_all ls) [] (step l w)
  end.
Fixpoint lost_all (ls : list label) (w : world) : list (UiEventType * string) :=
  match ls with
  | [] => []
  | l :: ls => lost l w ++ from_option (lost_all ls) [] (step l w)
  end.

Lemma steps_account ls w w' : world_ok w → steps ls w = Some w' →
  world_ok w' ∧ ∀ k, k < length (channels (terminals w)) → connected k w' →
    connected k w ∧ account k w ++ added_all ls w ≡ₚ account k w' ++ lost_all ls w.
Proof.
  revert w. induction ls as [|l ls IH]; intros w Hw; simpl.
  { intros [= <-]. split; [done|]. intros k _ Hk. by rewrite !app_nil_r. }
  destruct (step l w) as [w1|] eqn:Es; [simpl|done]. intros Hs.
  destruct (step_account _ _ _ Hw Es) as (Hw1 & Hlen & Hacc). destruct (IH w1 Hw1 Hs) as [Hw' HI].
  split; [done|]. intros k Hlt Hk. destruct (HI k) as [Hk1 HP]; [lia|done|].
  destruct (Hacc k Hlt Hk1) as [Hk0 HP0]. split; [done|]. rewrite app_assoc, HP0.
  trans ((account k w1 ++ added_all ls w1) ++ lost l w); [solve_Permutation|]. rewrite HP. solve_Permutation.
Qed.
Lemma initial_feed_ok t1 t2 l1 l2 : world_ok (start t1 t2 l1 l2).
Proof.
  assert (∀ t l, feed_ok true (new_feed t l)) as Hf.
  { intros t l. split_and!; [|by exists mpsc_channel|done]. split_and!; simpl.
    - apply NoDup_singleton.
    - intros k Hk. apply live_lt in Hk. simpl in Hk. assert (k = 0) as -> by lia. by left.
    - by apply Forall_singleton; lia.
    - done. }
  split_and!; [apply Hf|apply Hf|]. split_and!; simpl; [apply NoDup_nil_2| |by apply Forall_nil|done].
  intros k Hk. apply live_lt in Hk. simpl in Hk. lia.
Qed.
Lemma steps_app ls ls' w : steps (ls ++ ls') w = steps ls w ≫= steps ls'.
Proof. revert w. induction ls as [|l ls IH]; intros w; simpl; [done|]. destruct (step l w); [apply IH|done]. Qed.
Lemma reachable_ok ls t1 t2 l1 l2 w : steps ls (start t1 t2 l1 l2) = Some w → world_ok w.
Proof. intros H. by destruct (steps_account _ _ _ (initial_feed_ok t1 t2 l1 l2) H). Qed.

(** C36: events are accounted for: whatever the order of writers, pollers, merge loop and
    terminals, and whichever statements fail, what a connected terminal was sent and what
    is still on its way are exactly what was there, plus the rows committed, plus the rows
    of failed deletions, which come twice, less the rows a deletion removed unread and, once
    the merge loop shuts down, what was in the channels it drops and what a poller hands on
    to them afterwards. *)
Theorem events_accounted t1 t2 l1 l2 ls0 w ls w' k :
  steps ls0 (start t1 t2 l1 l2) = Some w → steps ls w = Some w' →
  k < length (channels (terminals w)) → connected k w' →
  account k w ++ added_all ls w ≡ₚ account k w' ++ lost_all ls w.
Proof. intros H0 H Hk Hc. apply reachable_ok in H0. by apply (steps_account ls w w' H0 H). Qed.

(** ** Writers that do not overlap *)

Definition ids (es : list UiEvent.t) : list Z := UiEvent.id <$> es.
(** Rows are committed in the order of their identifiers. *)
Definition in_order (t : events_table) : Prop :=
  StronglySorted Z.lt (ids (committed t) ++ [next_id t])
  ∧ ∀ tx rows, in_progress t !! tx = Some rows →
      (∀ tx', tx' ≠ tx → in_progress t !! tx' = None)
      ∧ StronglySorted Z.lt (ids (committed t) ++ ids rows ++ [next_id t]).
(** No transaction writes while another one of the same database has written and not
    ended. *)
Definition alone (l : label) (w : world) : Prop :=
  match l with
  | Write s tx _ _ => ∀ tx', tx' ≠ tx → in_progress (table (feed_of s w)) !! tx' = None
  | _ => True
  end.
Fixpoint serial (ls : list label) (w : world) : Prop :=
  match ls with
  | [] => True
  | l :: ls => alone l w ∧ from_option (serial ls) True (step l w)
  end.

Lemma sorted_snoc l z z' : StronglySorted Z.lt (l ++ [z]) → (z < z')%Z → StronglySorted Z.lt (l ++ [z; z']).
Proof.
  intros (H1 & H2 & H3)%StronglySorted_app Hz. apply StronglySorted_app. split_and!; [|done|].
  - intros x y Hx [->|[->|[]%elem_of_nil]%elem_of_cons]%elem_of_cons; specialize (H1 x z Hx ltac:(by left)); lia.
  - repeat constructor; done.
Qed.
Lemma sorted_number l z now es : StronglySorted Z.lt (l ++ [z]) →
  StronglySorted Z.lt (l ++ ids (number_rows z now es) ++ [(z + Z.of_nat (length es))%Z]).
Proof.
  revert l z. induction es as [|[ty i] es IH]; intros l z Hs; simpl.
  { by rewrite Z.add_0_r. }
  specialize (IH (l ++ [z]) (z + 1)%Z). rewrite <- !app_assoc in IH. simpl in IH.
  replace (z + Z.of_nat (S (length es)))%Z with (z + 1 + Z.of_nat (length es))%Z by lia. apply IH. apply sorted_snoc; [done|lia].
Qed.

Lemma max_id_elem es : es ≠ [] → ∃ e, e ∈ es ∧ UiEvent.id e = max_id es.
Proof.
  destruct es as [|e0 es]; [done|]. intros _. simpl. induction es as [|e es (x & Hx & IH)]; simpl.
  { exists e0. by split; [left|]. }
  destruct (Z.max_spec (UiEvent.id e) (foldr (λ e m, Z.max (UiEvent.id e) m) (UiEvent.id e0) es)) as [[_ ->]|[_ ->]].
  - exists x. split; [set_solver|done].
  - exists e. split; [set_solver|done].
Qed.
Lemma nothing_overtaken m f es : feed_ok m f → in_order (table f) → at_phase f = Fetched es →
  overtaken es (table f) = [].
Proof.
  intros (_ & _ & Hp) [Hs _] Ep. rewrite Ep in Hp. destruct Hp as (_ & Hne & Hes).
  apply elem_of_nil_inv. intros e [Hle He]%list_elem_of_filter. apply Hle.
  destruct (max_id_elem es Hne) as (x & Hx & <-). rewrite <- Hes in Hx.
  apply StronglySorted_app in Hs as (_ & Hs & _).
  rewrite <- (take_drop (length es) (committed (table f))) in Hs. unfold ids in Hs. rewrite fmap_app in Hs.
  apply StronglySorted_app in Hs as (Hs & _). apply Hs; by apply list_elem_of_fmap_2.
Qed.

Lemma sorted_ids_filter (P : UiEvent.t → Prop) `{!∀ e, Decision (P e)} l l' :
  StronglySorted Z.lt (ids l ++ l') → StronglySorted Z.lt (ids (filter P l) ++ l').
Proof.
  intros (H1 & H2 & H3)%StronglySorted_app. apply StronglySorted_app. split_and!; [|clear H1|done].
  - intros x y (e & -> & He)%list_elem_of_fmap Hy. apply H1; [|done].
    apply list_elem_of_fmap_2. by apply list_elem_of_filter in He as [_ He].
  - induction l as [|e l IH]; [done|]. simpl in H2. apply StronglySorted_inv in H2 as [H2 Hf].
    rewrite filter_cons. case_decide; [|by apply IH]. simpl. constructor; [by apply IH|].
    rewrite Forall_forall in *. intros y (x & -> & Hx)%list_elem_of_fmap. apply Hf, list_elem_of_fmap_2.
    by apply list_elem_of_filter in Hx as [_ Hx].
Qed.

Lemma write_in_order tx now es t : in_order t → (∀ tx', tx' ≠ tx → in_progress t !! tx' = None) →
  in_order (write_rows tx now es t).
Proof.
  intros [H1 H2] Ha. unfold in_order, write_rows. simpl.
  assert (StronglySorted Z.lt (ids (committed t) ++ ids (default [] (in_progress t !! tx)) ++ [next_id t])) as Hs.
  { destruct (in_progress t !! tx) as [rows|] eqn:E; [by apply (H2 tx)|done]. }
  rewrite app_assoc in Hs. pose proof (sorted_number _ _ now es Hs) as Hn. rewrite <- !app_assoc in Hn.
  split.
  - apply StronglySorted_app in Hn as (Ha1 & Ha2 & _). apply StronglySorted_app. split_and!; [|done|repeat constructor].
    intros x y Hx ->%list_elem_of_singleton. apply Ha1; [done|]. set_solver.
  - intros tx' rows. destruct (decide (tx' = tx)) as [->|Hne]; [|rewrite lookup_insert_ne, Ha by done; done].
    rewrite lookup_insert_eq. intros [= <-]. split.
    + intros tx' Hne. rewrite lookup_insert_ne by done. by apply Ha.
    + unfold ids in *. by rewrite fmap_app, <- app_assoc.
Qed.
Lemma commit_in_order tx t : in_order t → in_order (commit_rows tx t).
Proof.
  intros [H1 H2]. unfold in_order, commit_rows. simpl. destruct (in_progress t !! tx) as [rows|] eqn:E.
  - destruct (H2 tx rows E) as [Ha Hs]. split.
    + unfold ids in *. simpl. by rewrite fmap_app, <- app_assoc.
    + intros tx' rows'. destruct (decide (tx' = tx)) as [->|Hne]; [by rewrite lookup_delete_eq|].
      rewrite lookup_delete_ne by done. by rewrite (Ha tx' Hne).
  - simpl. rewrite app_nil_r, delete_id by done. done.
Qed.
Lemma rollback_in_order tx t : in_order t → in_order (rollback_rows tx t).
Proof.
  intros [H1 H2]. split; [done|]. simpl. intros tx' rows. destruct (decide (tx' = tx)) as [->|Hne]; [by rewrite lookup_delete_eq|].
  rewrite lookup_delete_ne by done. intros H. destruct (H2 _ _ H) as [Ha Hs]. split; [|done].
  intros tx'' Hne'. destruct (decide (tx'' = tx)) as [->|]; [by rewrite lookup_delete_eq|].
  rewrite lookup_delete_ne by done. by apply Ha.
Qed.
Lemma delete_in_order z t : in_order t → in_order (delete_events z t).
Proof.
  intros [H1 H2]. split; [by apply sorted_ids_filter|]. simpl. intros tx rows H.
  destruct (H2 _ _ H) as [Ha Hs]. split; [done|by apply sorted_ids_filter].
Qed.

Definition ordered (w : world) : Prop := ∀ s, in_order (table (feed_of s w)).
Lemma with_feed_table s f w s' : table (feed_of s' (with_feed s f w)) = if decide (s' = s) then table f else table (feed_of s' w).
Proof. by destruct s, s'. Qed.
Lemma on_feed_ordered s h w w' : ordered w → on_feed s h w = Some w' →
  (∀ f, h (feed_of s w) = Some f → in_order (table f)) → ordered w'.
Proof.
  intros Hw. unfold on_feed. destruct (h (feed_of s w)) as [f|]; [simpl|done]. intros [= <-] H s'.
  rewrite with_feed_table. case_decide; [by apply H|apply Hw].
Qed.
Lemma step_ordered l w w' : ordered w → alone l w → step l w = Some w' → ordered w'.
Proof.
  intros Hw Ha Hs. pose proof Hw as Ho.
  destruct l as [s tx now es|s tx|s tx|s ok|s ok|s|s r|s| | | |k|k]; simpl in Hs.
  - eapply on_feed_ordered; [done|done|]. intros f [= <-]. by apply write_in_order.
  - eapply on_feed_ordered; [done|done|]. intros f [= <-]. by apply commit_in_order.
  - eapply on_feed_ordered; [done|done|]. intros f [= <-]. by apply rollback_in_order.
  - eapply on_feed_ordered; [done|done|]. unfold fetch_step. intros f H. destruct (at_phase _); simplify_eq. apply Ho.
  - eapply on_feed_ordered; [done|done|]. unfold delete_step. intros f H. destruct (at_phase _); simplify_eq. simpl.
    destruct ok; [apply delete_in_order, Ho|apply Ho].
  - eapply on_feed_ordered; [done|done|]. unfold send_step. intros f H. destruct (send_next _); simplify_eq/=. apply Ho.
  - eapply on_feed_ordered; [done|done|]. unfold wake_step. intros f H. pose proof (Ho s).
    destruct (at_phase (feed_of s w)), (sending (out (feed_of s w))), r; try destruct (listening (feed_of s w)); by simplify_eq/=.
  - unfold merge_recv in Hs. destruct (merging w), (sending (terminals w)); try done. simpl in Hs.
    destruct (receive 0 _) as [[b x]|]; [simpl in Hs|done]. simplify_eq.
    intros s'. pose proof (Ho s') as Hos. destruct b; destruct s, s'; done.
  - destruct (send_next (terminals w)); [|done]. by simplify_eq/=.
  - destruct (sending (terminals w)), (merging w); try done. simplify_eq/=. intros s'. by pose proof (Ho s'); destruct s'.
  - destruct (add_listener (terminals w)); [|done]. by simplify_eq/=.
  - destruct (receive k (terminals w)); [|done]. by simplify_eq/=.
  - by simplify_eq/=.
Qed.
(** The merge loop does not start again. *)
Lemma step_merging l w w' : step l w = Some w' → merging w' = true → merging w = true ∧ l ≠ MergeShutdown.
Proof.
  intros Hs. assert (∀ s h, on_feed s h w = Some w' → merging w' = merging w) as Hfeed.
  { intros s h. unfold on_feed. destruct (h (feed_of s w)); [|done]. intros [= <-]. by destruct s. }
  destruct l as [| | | | | | |s| | | |k|k]; simpl in Hs; try (rewrite (Hfeed _ _ Hs); by intros ->).
  - unfold merge_recv in Hs. destruct (merging w), (sending (terminals w)); try done.
  - destruct (send_next (terminals w)); by simplify_eq/=.
  - by destruct (sending (terminals w)), (merging w); simplify_eq/=.
  - destruct (add_listener (terminals w)); by simplify_eq/=.
  - destruct (receive k (terminals w)); by simplify_eq/=.
  - by simplify_eq/=.
Qed.
Lemma steps_merging ls w w' : steps ls w = Some w' → merging w' = true → merging w = true.
Proof.
  revert w. induction ls as [|l ls IH]; intros w; simpl; [by intros [= <-]|].
  destruct (step l w) as [w1|] eqn:Es; [simpl|done]. intros Hs Hm. by apply (step_merging l w w1), (IH w1).
Qed.
Lemma serial_loses_nothing ls w w' : world_ok w → ordered w → serial ls w → steps ls w = Some w' →
  merging w' = true → lost_all ls w = [].
Proof.
  revert w. induction ls as [|l ls IH]; intros w Hw Ho; simpl; [done|]. intros [Ha Hser].
  destruct (step l w) as [w1|] eqn:Es; [simpl in *|done]. intros Hs Hm.
  destruct (step_account _ _ _ Hw Es) as [Hw1 _].
  destruct (step_merging _ _ _ Es (steps_merging _ _ _ Hs Hm)) as [Hm0 Hl].
  rewrite (IH w1) by (done || by eapply step_ordered). rewrite app_nil_r.
  destruct l as [| | | |s ok| | | | | | | |]; try done. simpl.
  destruct (at_phase (feed_of s w)) eqn:Ep; try done.
  rewrite Hm0, (nothing_overtaken _ _ _ (feed_of_ok s w Hw) (Ho s) Ep). by destruct ok.
Qed.

(** ** From the commit to the messages of a terminal *)

Definition idle (f : feed) : Prop :=
  committed (table f) = [] ∧ sending (out f) = None ∧ from_option buffered [] (channels (out f) !! 0) = [].
(** Nothing is on its way, and the terminal [k] has read what it was sent. *)
Definition quiet (k : nat) (w : world) : Prop :=
  idle (tickets w) ∧ idle (workflows w) ∧ sending (terminals w) = None
  ∧ from_option buffered [] (channels (terminals w) !! k) = [].
Definition received {B} (c : channel B) : list B := take (taken c) (sent c).
(** The messages the terminal [k] has made of its stream. *)
Definition messages (k : nat) (w : world) : list Msg.t :=
  consume_ui_event_stream (from_option received [] (channels (terminals w) !! k), Ok tt).
Definition item_of (e : UiEventType * string) : UiEventItem.t := UiEventItem.mk (ui_event_type_to_str e.1) e.2.

Lemma concat_nonempty {A} (l : list (list A)) : concat (filter (λ x, x ≠ []) l) = concat l.
Proof.
  induction l as [|x l IH]; [done|]. rewrite filter_cons. case_decide as Hx; simpl; [by rewrite IH|].
  destruct x; [done|]. discriminate Hx.
Qed.
Lemma idle_upstream f : idle f → upstream f = [].
Proof.
  intros (H1 & H2 & H3). unfold upstream, unread, due. rewrite H1, H2. destruct (channels (out f) !! 0) as [c|]; [|done].
  simpl in H3. rewrite H3. by destruct (dropped c).
Qed.
Lemma quiet_account k w : quiet k w →
  account k w = shown k w ∧ from_option received [] (channels (terminals w) !! k) = got k (terminals w).
Proof.
  intros (H1 & H2 & H3 & H4). split.
  - unfold account, shown, due. rewrite H3, app_nil_r, !idle_upstream by done. simpl. by rewrite app_nil_r.
  - unfold got. destruct (channels (terminals w) !! k) as [c|]; [simpl in *|done].
    unfold received, buffered in *. by rewrite <- (take_drop (taken c) (sent c)) at 2; rewrite H4, app_nil_r.
Qed.

(** C37: a terminal misses nothing while the merge loop runs and writers do not overlap:
    once it subscribed, whatever the order of the servers' and the terminals' steps and
    whatever statements fail, at any moment before the merge loop shuts down when nothing
    is on its way its messages hold exactly the events that waited when it subscribed and
    those committed since, as often as they were committed or their deletion failed. *)
Theorem terminal_misses_nothing t1 t2 l1 l2 ls0 w w1 ls w' :
  let k := length (channels (terminals w)) in
  in_order t1 → in_order t2 → serial ls0 (start t1 t2 l1 l2) →
  steps ls0 (start t1 t2 l1 l2) = Some w → step Subscribe w = Some w1 →
  serial ls w1 → steps ls w1 = Some w' → merging w' = true → connected k w' → quiet k w' →
  ∃ batches, messages k w' = Msg.UiEvent <$> batches
    ∧ concat batches ≡ₚ item_of <$>
        (to_proto <$> upstream (tickets w)) ++ (to_proto <$> upstream (workflows w)) ++ added_all ls w1.
Proof.
  intros k Ht1 Ht2 Hser0 Hs0 Hsub Hser Hs Hm Hc Hq.
  assert (world_ok w ∧ ordered w) as [Hw Ho].
  { split; [by eapply reachable_ok|]. assert (ordered (start t1 t2 l1 l2)) as Hord by by intros [].
    clear -Hs0 Hser0 Hord. revert Hord Hser0 Hs0. generalize (start t1 t2 l1 l2) as u.
    induction ls0 as [|l ls0 IH]; intros u Hu; simpl; [by intros _ [= <-]|]. intros [Ha Hr].
    destruct (step l u) as [u1|] eqn:E; [simpl in *|done]. apply IH; [by eapply step_ordered|done]. }
  destruct (step_account _ _ _ Hw Hsub) as (Hw1 & Hlen & _).
  pose proof (step_ordered Subscribe w w1 Ho I Hsub) as Ho1. simpl in Hsub.
  destruct (add_listener (terminals w)) as [b|] eqn:Ea; [simpl in Hsub|done]. injection Hsub as <-.
  destruct Hw as (_ & _ & Hb). destruct (add_listener_ok _ _ Hb Ea) as (_ & _ & Hl & Hg & Hd).
  destruct (steps_account _ _ _ Hw1 Hs) as [_ HA]. destruct (HA k) as [_ HP]; [by apply (live_lt _ b)|done|].
  rewrite (serial_loses_nothing _ _ _ Hw1 Ho1 Hser Hs Hm), app_nil_r in HP.
  destruct (quiet_account k w' Hq) as [Hqa Hqr]. rewrite Hqa in HP.
  exists (filter (λ items, items ≠ []) (batch_items <$> got k (terminals w'))). split.
  { unfold messages, consume_ui_event_stream. by rewrite Hqr. }
  rewrite concat_nonempty. unfold shown in HP.
  assert (∀ l : list (list (UiEventType * string)), concat (batch_items <$> l) = item_of <$> concat l) as Hcc.
  { induction l as [|x l IH]; [done|].
    change (batch_items x ++ concat (batch_items <$> l) = item_of <$> x ++ concat l). by rewrite IH, fmap_app. }
  rewrite Hcc. apply fmap_Permutation. rewrite <- HP. unfold account. simpl. fold k in Hg, Hd.
  rewrite Hg, Hd, app_assoc. simpl. by rewrite <- !app_assoc.
Qed.

(** ** A terminal that does not read *)

(** The merge loop has a batch for the terminal [k], whose channel is full. *)
Definition stalled (k : nat) (w : world) : Prop :=
  ∃ b todo alive c, sending (terminals w) = Some (b, k :: todo, alive)
    ∧ channels (terminals w) !! k = Some c ∧ dropped c = false ∧ CAPACITY ≤ length (buffered c).
(** Until it reads or disconnects nothing is sent to any terminal, and none can subscribe. *)
Lemma stalled_terminal_blocks k ls w w' :
  stalled k w → Receive k ∉ ls → Disconnect k ∉ ls → steps ls w = Some w' →
  stalled k w' ∧ Subscribe ∉ ls ∧ ∀ j, got j (terminals w') = got j (terminals w).
Proof.
  revert w. induction ls as [|l ls IH]; intros w Hst Hr Hd; simpl.
  { intros [= <-]. split_and!; [done|by intros ?%elem_of_nil|done]. }
  destruct (step l w) as [w1|] eqn:Es; [simpl|done]. intros Hs.
  apply not_elem_of_cons in Hr as [Hr Hrs], Hd as [Hd Hds].
  assert (stalled k w1 ∧ l ≠ Subscribe ∧ ∀ j, got j (terminals w1) = got j (terminals w)) as (H1 & H2 & H3).
  2: { destruct (IH w1) as (H4 & H5 & H6); try done. split_and!; [done|by apply not_elem_of_cons|].
       intros j. by rewrite H6. }
  destruct Hst as (b & todo & alive & c & Hse & Hc & Hdc & Hfull).
  assert (∀ u, terminals u = terminals w → stalled k u ∧ ∀ j, got j (terminals u) = got j (terminals w)) as Hsame.
  { intros u Hu. unfold stalled. rewrite Hu. split; [by exists b, todo, alive, c|done]. }
  assert (∀ s h u, on_feed s h w = Some u → terminals u = terminals w) as Hfeed.
  { intros s h u. unfold on_feed. destruct (h (feed_of s w)); [|done]. intros [= <-]. by destruct s. }
  assert (∀ i f, i ≠ k → (∀ c0, channels (terminals w) !! i = Some c0 → sent (f c0) = sent c0) →
    stalled k (with_terminals (on_channel i f (terminals w)) w)
    ∧ ∀ j, got j (on_channel i f (terminals w)) = got j (terminals w)) as Hother.
  { intros i f Hi Hf. split.
    - exists b, todo, alive, c. split_and!; try done. simpl. by rewrite list_lookup_alter_ne.
    - intros j. unfold got, on_channel. simpl. destruct (decide (i = j)) as [->|Hij]; [|by rewrite list_lookup_alter_ne].
      rewrite list_lookup_alter_eq. destruct (channels (terminals w) !! j) as [c0|] eqn:E; [|done]. simpl. by apply Hf. }
  destruct l as [s tx now es|s tx|s tx|s ok|s ok|s|s r|s| | | |i|i]; simpl in Es;
    try (apply Hfeed in Es; destruct (Hsame w1 Es); by split_and!).
  - unfold merge_recv in Es. rewrite Hse in Es. by destruct (merging w).
  - unfold send_next, send in Es. rewrite Hse, Hc in Es. simpl in Es. rewrite Hdc in Es.
    rewrite (proj2 (Nat.ltb_ge _ _) Hfull) in Es. done.
  - by rewrite Hse in Es.
  - unfold add_listener in Es. by rewrite Hse in Es.
  - assert (i ≠ k) as Hi by congruence. unfold receive in Es.
    destruct (channels (terminals w) !! i) as [c0|] eqn:E; [simpl in Es|done].
    destruct (recv c0) as [[b0 c1]|] eqn:Er; [simpl in Es|done]. simplify_eq.
    apply recv_spec in Er as (_ & _ & ->). destruct (Hother i (λ _, Channel (sent c0) (S (taken c0)) false)); [done| |by split_and!].
    intros c2 Hc2. simpl. congruence.
  - assert (i ≠ k) as Hi by congruence. simplify_eq. destruct (Hother i drop_receiver); [done|done|by split_and!].
Qed.

(** ** What a trigger writes *)

(** A change of a ticket is an event of the ticket and of every ticket above it, and of
    no other. *)
Lemma ticket_rows_spec m i j : acyclic m → i ∈ dom m →
  ("ticket", j) ∈ ticket_rows m i ↔ rtc (λ a b, parent_of m a = Some b) i j.
Proof.
  intros Hm Hi. apply elem_of_dom in Hi as [r Hr]. destruct (Hm i r Hr) as [l Hl].
  unfold ticket_rows. rewrite Hl. simpl. rewrite list_elem_of_fmap.
  trans (j ∈ l); [split; [by intros (? & [= ->] & ?)|eauto]|]. clear r Hr.
  revert i l Hl. generalize (S (size m)) as n. induction n as [|n IH]; intros i l; simpl; [done|].
  destruct (parent_of m i) as [p|] eqn:Ep.
  - destruct (ancestors n m p) as [l'|] eqn:El; [simpl|done]. intros [= <-]. rewrite elem_of_cons, (IH p l' El).
    split; [intros [->|H]; [apply rtc_refl|by eapply rtc_l]|].
    intros H. inversion H as [|? y ? Hy]; simplify_eq; auto.
  - intros [= <-]. rewrite list_elem_of_singleton. split; [intros ->; apply rtc_refl|].
    intros H. inversion H as [|? y ? Hy]; simplify_eq; auto.
Qed.

(** ** Concrete runs *)

Module Runs.
Definition empty_table : events_table := EventsTable [] ∅ 1.
Definition w0 : world := start empty_table empty_table true true.
Definition go (ls : list label) (w : world) : world := default w (steps ls w).
(** A poller's cycle, and the way of one batch to the only terminal. *)
Definition poll (s : source) : list label := [Fetch s true; Delete s true; PollerSend s; PollerSend s; Wake s Timeout].
Definition deliver (s : source) : list label := [MergeRecv s; MergeSend; MergeSend; Receive 0].
Definition one_writer : list label :=
  [Write Tickets 0 "t" [("ticket", "ur-1"); ("ticket", "ur-0")]; Commit Tickets 0] ++ poll Tickets ++ deliver Tickets
  ++ [Write Workflows 0 "t" [("workflow", "ur-1")]; Commit Workflows 0; Fetch Workflows true; Delete Workflows false;
      PollerSend Workflows; PollerSend Workflows; Wake Workflows Notification] ++ poll Workflows
  ++ deliver Workflows ++ deliver Workflows.
Definition subscribed : world := go [Subscribe] w0.
(** The first of two transactions commits between the poller's [SELECT] and [DELETE]. *)
Definition late_commit : list label :=
  [Write Tickets 0 "t" [("ticket", "ur-1")]; Write Tickets 1 "t" [("ticket", "ur-2")]; Commit Tickets 1;
   Fetch Tickets true; Commit Tickets 0; Delete Tickets true; PollerSend Tickets; PollerSend Tickets]
  ++ deliver Tickets.

(** A check of [serial] that can be computed. *)
Fixpoint serial_check (ls : list label) (w : world) : bool :=
  match ls with
  | [] => true
  | l :: ls =>
      match l with Write s _ _ _ => bool_decide (in_progress (table (feed_of s w)) = ∅) | _ => true end
      && match step l w with Some w => serial_check ls w | None => true end
  end.
Lemma serial_checked ls w : serial_check ls w = true → serial ls w.
Proof.
  revert w. induction ls as [|l ls IH]; intros w; simpl; [done|]. intros [Ha Hs]%andb_true_iff. split.
  - destruct l as [s tx now es| | | | | | | | | | | |]; try done. apply bool_decide_eq_true in Ha. intros tx' _. simpl.
    by rewrite Ha, lookup_empty.
  - destruct (step l w) as [w1|]; [by apply IH|done].
Qed.
Lemma empty_in_order : in_order empty_table.
Proof. split; [repeat constructor|]. intros tx rows. simpl. by rewrite lookup_empty. Qed.

Lemma terminal_misses_nothing_witness :
  messages 0 (go one_writer subscribed)
    = [Msg.UiEvent [UiEventItem.mk "ticket" "ur-1"; UiEventItem.mk "ticket" "ur-0"];
       Msg.UiEvent [UiEventItem.mk "workflow" "ur-1"]; Msg.UiEvent [UiEventItem.mk "workflow" "ur-1"]]
  ∧ ∃ batches, messages 0 (go one_writer subscribed) = Msg.UiEvent <$> batches
      ∧ concat batches ≡ₚ item_of <$> added_all one_writer subscribed.
Proof.
  split; [vm_compute; reflexivity|].
  apply (terminal_misses_nothing empty_table empty_table true true [] w0 subscribed one_writer (go one_writer subscribed)).
  - apply empty_in_order.
  - apply empty_in_order.
  - exact I.
  - reflexivity.
  - reflexivity.
  - apply serial_checked. vm_compute; reflexivity.
  - vm_compute; reflexivity.
  - vm_compute; reflexivity.
  - eexists. split; vm_compute; reflexivity.
  - repeat split; vm_compute; reflexivity.
Defined.

Lemma events_accounted_witness :
  account 0 subscribed ++ added_all late_commit subscribed
    ≡ₚ account 0 (go late_commit subscribed) ++ lost_all late_commit subscribed
  ∧ lost_all late_commit subscribed = [(EventTicket, "ur-1")].
Proof.
  split; [|vm_compute; reflexivity].
  apply (events_accounted empty_table empty_table true true [Subscribe] subscribed late_commit).
  - reflexivity.
  - vm_compute; reflexivity.
  - apply Nat.lt_0_1.
  - eexists. split; vm_compute; reflexivity.
Defined.

(** The server shuts down while a poller has a batch in its hands: the merge loop ends
    first, the rows are deleted and nobody is told. *)
Definition shut_down : list label :=
  [Write Tickets 0 "t" [("ticket", "ur-1")]; Commit Tickets 0; Fetch Tickets true; MergeShutdown; Delete Tickets true;
   PollerSend Tickets; PollerSend Tickets; Wake Tickets Shutdown].
Lemma lost_at_shutdown :
  let w := go shut_down subscribed in
  quiet 0 w ∧ committed (table (tickets w)) = [] ∧ messages 0 w = [] ∧ listeners (out (tickets w)) = []
  ∧ lost_all shut_down subscribed = [(EventTicket, "ur-1")].
Proof. repeat split; vm_compute; reflexivity. Qed.

(** The event of the late commit reaches nobody. *)
Lemma late_commit_lost :
  let w := go late_commit subscribed in
  quiet 0 w ∧ connected 0 w
  ∧ added_all late_commit subscribed = [(EventTicket, "ur-2"); (EventTicket, "ur-1")]
  ∧ messages 0 w = [Msg.UiEvent [UiEventItem.mk "ticket" "ur-2"]].
Proof.
  split; [repeat split; vm_compute; reflexivity|]. split; [eexists; split; vm_compute; reflexivity|].
  split; vm_compute; reflexivity.
Qed.
End Runs.
