(* ===== verification/DreamConfig.v ===== *)
(** * Brain maintenance: configuration and crates

    [ur/src/dream/config.rs]: the config block of [DREAM.md], its validation, and the
    templates of references; with the interfaces to the [regex], [glob], [toml] and
    [chrono] crates, to git and to the processes of check commands.

    A regular expression is its pattern: what it matches is a function of the crate. *)

From Stdlib Require Import Ascii.
From S2P Require Import Prelude RustStd TextLemmas.
Local Open Scope stdpp_scope.

(** ** The crates and tools *)

Module Captures.
(** A match: where it starts and ends, its text, its numbered groups after the whole
    match, and its named groups. *)
Record t : Type := mk {
  start : nat; end_ : nat; whole : string;
  group : list (option string);
  named : gmap string string
}.
(** [c[i]] for a group [i >= 1] that always takes part. *)
Definition get (i : nat) (c : t) : string := default EmptyString (mjoin (group c !! (i - 1))).
End Captures.

(** [regex]: [Regex::new], [captures_iter], [capture_names], [escape]. *)
Class RegexCrate : Type := {
  regex_new : string → result unit string;
  captures_iter : string → string → list Captures.t;
  capture_names : string → list string;
  regex_escape : string → string
}.
(** [glob::Pattern::new] and [matches]. *)
Class GlobCrate : Type := {
  glob_new : string → result unit string;
  glob_matches : string → string → bool
}.
(** [NaiveDate] in days, [parse_from_str] with [%Y-%m-%d] and its display. *)
Class DateCrate : Type := {
  parse_date : string → option Z;
  date_display : Z → string
}.
Class LawfulDate {HD : DateCrate} : Prop := {
  parse_display d : parse_date (date_display d) = Some d
}.
(** A git process: it was not started, or it ended with its two outputs. *)
Inductive GitOutcome : Type :=
| NotStarted (e : string)
| Ended (success : bool) (stdout stderr : string).
(** The process of a check command. *)
Inductive CheckOutcome : Type :=
| CommandNotFound
| NotSpawned
| ExitedWith (code : Z) (stdout : string)
| KilledBySignal
| StillRunning.
(** Git in a directory, check commands, today's date, the home directory and which host
    directories exist. *)
Class DreamHost : Type := {
  git_run : string → list string → GitOutcome;
  check_run : list string → CheckOutcome;
  today : Z;
  home_dir : option string;
  dir_exists : string → bool
}.

(** [with_context]: [{:#}] shows the context first. *)
Definition in_context {A} (c : string) (r : result A string) : result A string :=
  match r with Ok a => Ok a | Err e => Err (c +:+ ": " +:+ e) end.
(** [{:?}] of text that needs no escapes. *)
Definition debug_str (s : string) : string := QUOTE +:+ s +:+ QUOTE.
(** A [BTreeMap]'s entries and a [BTreeSet]'s elements in order. *)
Definition pair_le {A} (a b : string * A) : Prop := String.le a.1 b.1.
#[export] Instance pair_le_dec {A} : RelDecision (@pair_le A).
Proof. intros a b. unfold pair_le. apply _. Defined.
Definition in_key_order {A} (m : gmap string A) : list (string * A) := order_by pair_le (map_to_list m).
Definition in_order_set (X : gset string) : list string := order_by String.le (elements X).

(** ** The config block *)

Module Role.
Inductive t : Type := Durable | Scratch | Episodic | Procedure | Orientation.
#[global] Instance eq_dec : EqDecision t.
Proof. solve_decision. Defined.
End Role.
Module Folder.
Record t : Type := mk { path : string; role : Role.t; promote_to : option string }.
End Folder.
Module Repo.
Record t : Type := mk { name : string; path : string; branch : string }.
End Repo.
Module RawPattern.
Inductive t : Type := Plain (regex : string) | Full (regex : string) (set_ : gmap string string).
End RawPattern.
Module RawRefKind.
Record t : Type := mk {
  kind : string; id : option string; patterns : list RawPattern.t;
  check : option (list string); state : option string; done : list string; not_done : list string
}.
End RawRefKind.
Module RawUnclassified.
Record t : Type := mk { pattern : option string; ignore : list string }.
End RawUnclassified.
Module Discovery.
Record t : Type := mk { allowed : bool; max_calls : Z }.
End Discovery.
Module Thresholds.
Record t : Type := mk { quiet_days : Z }.
End Thresholds.
Module Review.
Record t : Type := mk { per_run : Z; initial_days : Z; min_days : Z; max_days : Z }.
End Review.
Module RawConfig.
Record t : Type := mk {
  off_limits : list string; folders : list Folder.t; ref_kinds : list RawRefKind.t;
  unclassified : RawUnclassified.t; discovery : Discovery.t; thresholds : Thresholds.t;
  review : Review.t; repos : list Repo.t
}.
End RawConfig.

Definition default_branch : string := "origin/master".
Definition default_quiet_days : Z := 14.
Definition default_per_run : Z := 1.
Definition default_initial_days : Z := 30.
Definition default_min_days : Z := 7.
Definition default_max_days : Z := 180.
Definition default_review : Review.t :=
  Review.mk default_per_run default_initial_days default_min_days default_max_days.
Definition default_thresholds : Thresholds.t := Thresholds.mk default_quiet_days.

(** [toml::from_str] on the block, the defaults filled in. *)
Class TomlCrate : Type := { raw_config_of : string → result RawConfig.t string }.

Module Pattern.
Record t : Type := mk { regex : string; set_ : gmap string string }.
End Pattern.
Module RefKind.
Record t : Type := mk {
  kind : string; id : option string; patterns : list Pattern.t;
  check : option (list string); state : option string; done : list string; not_done : list string
}.
End RefKind.
Module Config.
Record t : Type := mk {
  raw : RawConfig.t; kinds : list RefKind.t; unclassified : option string; off_limits : list string
}.
End Config.

Definition BLOCK_RE : string :=
  "(?ms)^```toml[^\n]*\n(.*?)^```".
Definition REPO_NAME_RE : string := "^[\w-]+$".
Definition PLACEHOLDER_RE : string := "\{([A-Za-z_][A-Za-z0-9_]*)\}".

Section Config.
Context {HX : RegexCrate} {HB : GlobCrate} {HT : TomlCrate} {HH : DreamHost}.

Definition captures (re text : string) : option Captures.t := head (captures_iter re text).
Definition is_match (re text : string) : bool := bool_decide (is_Some (captures re text)).
(** [replace_all]: the text between the matches is kept. *)
Fixpoint replace_from (at_ : nat) (cs : list Captures.t) (f : Captures.t → string) (text : string) : string :=
  match cs with
  | [] => str_drop at_ text
  | c :: cs =>
      str_take (Captures.start c - at_) (str_drop at_ text) +:+ f c +:+ replace_from (Captures.end_ c) cs f text
  end.
Definition replace_all (re text : string) (f : Captures.t → string) : string :=
  replace_from 0 (captures_iter re text) f text.

Definition placeholders (template : string) : list string :=
  Captures.get 1 <$> captures_iter PLACEHOLDER_RE template.
(** [fill]: a placeholder without a value makes it [None]. *)
Definition fill (template : string) (groups : gmap string string) : option string :=
  if forallb (λ n, bool_decide (is_Some (groups !! n))) (placeholders template)
  then Some (replace_all PLACEHOLDER_RE template (λ c, default EmptyString (groups !! Captures.get 1 c)))
  else None.
Definition fill_escaped (template : string) (groups : gmap string string) : string :=
  replace_all PLACEHOLDER_RE template (λ c,
    match groups !! Captures.get 1 c with Some v => regex_escape v | None => Captures.whole c end).

(** [compile_kind] *)
Definition pattern_of (p : RawPattern.t) : string * gmap string string :=
  match p with RawPattern.Plain r => (r, ∅) | RawPattern.Full regex set_ => (regex, set_) end.
Definition missing_placeholder (templates : list string) (available : list string) : option (string * string) :=
  head (filter (λ tn, tn.2 ∉ available) (t ← templates; (t,.) <$> placeholders t)).
Definition compile_pattern (name : string) (templates : list string) (p : RawPattern.t) : result Pattern.t string :=
  let '(regex, set_) := pattern_of p in
  match regex_new regex with
  | Err e => Err ("ref kind " +:+ name +:+ ": bad pattern: " +:+ e)
  | Ok _ =>
      let available := capture_names regex ++ (map_to_list set_).*1 in
      match missing_placeholder templates available with
      | Some (t, n) =>
          Err ("ref kind " +:+ name +:+ ": pattern " +:+ debug_str regex +:+ " does not provide {" +:+ n
               +:+ "} used in " +:+ debug_str t)
      | None => Ok (Pattern.mk regex set_)
      end
  end.
Definition of_option {A} (o : option A) : list A := match o with Some a => [a] | None => [] end.
Definition compile_kind (raw : RawRefKind.t) : result RefKind.t string :=
  let name := RawRefKind.kind raw in
  let templates := of_option (RawRefKind.id raw) ++ default [] (RawRefKind.check raw) in
  let? patterns := collect_results (compile_pattern name templates <$> RawRefKind.patterns raw) in
  if bool_decide (is_Some (RawRefKind.check raw)) && bool_decide (RawRefKind.done raw = [])
     && bool_decide (RawRefKind.not_done raw = [])
  then Err ("ref kind " +:+ name +:+ ": a check needs `done` or `not_done` states")
  else
    let? _ := match RawRefKind.state raw with
              | None => Ok tt
              | Some s =>
                  let sample : gmap string string := list_to_map ((., "x") <$> placeholders s) in
                  in_context ("ref kind " +:+ name +:+ ": bad state regex") (regex_new (fill_escaped s sample))
              end in
    Ok (RefKind.mk name (RawRefKind.id raw) patterns (RawRefKind.check raw) (RawRefKind.state raw)
          (RawRefKind.done raw) (RawRefKind.not_done raw)).

(** [Config::from_raw]: the checks in their order. *)
Definition review_ok (r : Review.t) : bool :=
  (Review.min_days r <=? Review.initial_days r)%Z && (Review.initial_days r <=? Review.max_days r)%Z
  && (0 <? Review.min_days r)%Z.
Fixpoint repos_ok (seen : list string) (l : list Repo.t) : result unit string :=
  match l with
  | [] => Ok tt
  | r :: l =>
      let name := Repo.name r in
      if negb (is_match REPO_NAME_RE name)
      then Err ("repos: name " +:+ debug_str name
                +:+ " must be letters, digits, '_' or '-' (the form `sources` frontmatter keys take)")
      else if bool_decide (name ∈ seen) then Err ("repos: name " +:+ debug_str name +:+ " repeats")
      else if bool_decide (Repo.path r = "") then Err ("repos: " +:+ name +:+ " has an empty path")
      else repos_ok (name :: seen) l
  end.
Definition from_raw (raw : RawConfig.t) : result Config.t string :=
  if negb (review_ok (RawConfig.review raw))
  then Err "review: need 0 < min_days <= initial_days <= max_days"
  else
    let? _ := repos_ok [] (RawConfig.repos raw) in
    let? kinds := collect_results (compile_kind <$> RawConfig.ref_kinds raw) in
    let? unclassified :=
      match RawUnclassified.pattern (RawConfig.unclassified raw) with
      | None => Ok None
      | Some p => let? _ := in_context "unclassified.pattern" (regex_new p) in Ok (Some p)
      end in
    let? off_limits :=
      collect_results ((λ p, let? _ := in_context ("off_limits: " +:+ p) (glob_new p) in Ok p)
                         <$> RawConfig.off_limits raw) in
    Ok (Config.mk raw kinds unclassified off_limits).
Definition parse (dream_md : string) : result Config.t string :=
  match captures BLOCK_RE dream_md with
  | None => Err "no ```toml config block: run brain:dream-init"
  | Some block =>
      let? raw := in_context "config block is not valid" (raw_config_of (Captures.get 1 block)) in from_raw raw
  end.

(** ** Queries *)

Definition kind_named (cfg : Config.t) (name : string) : option RefKind.t :=
  List.find (λ k, String.eqb (RefKind.kind k) name) (Config.kinds cfg).
Definition repo_named (cfg : Config.t) (name : string) : option Repo.t :=
  List.find (λ r, String.eqb (Repo.name r) name) (RawConfig.repos (Config.raw cfg)).
Definition is_off_limits (cfg : Config.t) (rel : string) : bool :=
  existsb (λ p, glob_matches p rel) (Config.off_limits cfg).
(** [trim_matches('/')] *)
Fixpoint trim_start_char (c : Ascii.ascii) (s : string) : string :=
  match s with
  | String a s' => if Ascii.eqb a c then trim_start_char c s' else s
  | EmptyString => s
  end.
Definition trim_char (c : Ascii.ascii) (s : string) : string :=
  trim_end_matches (String c EmptyString) (trim_start_char c s).
Definition folder_dir (f : Folder.t) : string := trim_char "/"%char (Folder.path f).
Definition folders_of (cfg : Config.t) (role : Role.t) : list string :=
  folder_dir <$> filter (λ f, Folder.role f = role) (RawConfig.folders (Config.raw cfg)).
Definition ignore_unclassified (cfg : Config.t) (text : string) : bool :=
  existsb (λ p, starts_with p text) (RawUnclassified.ignore (RawConfig.unclassified (Config.raw cfg))).
(** [Repo::dir] *)
Definition repo_path (brain : string) (r : Repo.t) : string :=
  match strip_prefix "~/" (Repo.path r), home_dir with
  | Some rest, Some home => path_join home rest
  | _, _ => path_join brain (Repo.path r)
  end.
End Config.

(** ** Git *)

Section Git.
Context {HH : DreamHost}.
(** [files::git]: [None] on failure; [files::git_checked]: an error with git's text. *)
Definition git (dir : string) (args : list string) : option string :=
  match git_run dir args with Ended true out _ => Some (trim out) | _ => None end.
Definition git_checked (dir : string) (args : list string) : result string string :=
  match git_run dir args with
  | NotStarted e => Err ("running git " +:+ join " " args +:+ ": " +:+ e)
  | Ended true out _ => Ok out
  | Ended false _ err => Err ("git " +:+ join " " args +:+ " failed in " +:+ dir +:+ ": " +:+ trim err)
  end.
End Git.
