(* ===== verification/DreamFiles.v ===== *)
(** * Brain maintenance: files, links, frontmatter and lint

    [ur/src/dream/files.rs] and [ur/src/dream/lint.rs]: walking a brain, the links and
    the frontmatter of its files, and the mechanical checks on them. *)

From Stdlib Require Import Ascii.
From S2P Require Import Prelude RustStd TextLemmas DreamConfig.
Local Open Scope stdpp_scope.

(** ** A directory tree *)

(** A file with its last change (in days), a directory in the order it is listed, and a
    symbolic link with what it leads to. *)
Inductive node : Type :=
| File (content : string) (mtime : Z)
| Dir (entries : list (string * node))
| Link (to : option node).

Fixpoint follow (n : node) : option node :=
  match n with
  | Link (Some n) => follow n
  | Link None => None
  | n => Some n
  end.
Definition is_dir_entry (n : node) : bool := match n with Dir _ => true | _ => false end.
(** [Path::is_dir] and [Path::is_file] follow links, [DirEntry::file_type] does not. *)
Definition is_dir (n : node) : bool := match follow n with Some (Dir _) => true | _ => false end.
Definition is_file (n : node) : bool := match follow n with Some (File _ _) => true | _ => false end.
Definition read_dir (n : node) : option (list (string * node)) :=
  match follow n with Some (Dir entries) => Some entries | _ => None end.
Definition entry_named (name : string) (entries : list (string * node)) : option node :=
  snd <$> head (filter (λ e, e.1 = name) entries).
(** What is at a path below a directory: the parents are kept for [..]; a path out of the
    brain leads nowhere here. *)
Fixpoint descend (parents : list node) (here : node) (parts : list string) : option node :=
  match parts with
  | [] => Some here
  | part :: parts =>
      if bool_decide (part = "") || bool_decide (part = ".") then descend parents here parts
      else if bool_decide (part = "..") then
        match parents with [] => None | p :: parents => descend parents p parts end
      else
        entries ← read_dir here;
        n ← entry_named part entries;
        descend (here :: parents) n parts
  end.
Definition at_path (brain : node) (rel : string) : option node :=
  if starts_with "/" rel then None else descend [] brain (split "/" rel).
Definition file_at (brain : node) (rel : string) : bool :=
  match at_path brain rel with Some n => is_file n | None => false end.
(** [files::read]: empty when it cannot be read. *)
Definition read (brain : node) (rel : string) : string :=
  match at_path brain rel ≫= follow with Some (File content _) => content | _ => EmptyString end.

(** ** Paths *)

Definition SKIP_DIRS : list string := [".git"; ".dream"].
Definition TEXT_EXTS : list string := ["md"; "markdown"; "txt"].
Definition MOUNT_PREFIX : string := "/brain/".
Definition LINK_RE : string := "\[[^\]]*\]\(([^)\s]+)\)".
Definition IMPORT_RE : string := "(?m)^@(\S*[./]\S*)".
Definition URL_RE : string := "^[A-Za-z][\w+.-]*:".
Definition LAST_VERIFIED_RE : string := "(?mi)^Last verified:\s*(\d{4}-\d{2}-\d{2})".
Definition FM_REF_RE : string := "^\s+-\s*([\w-]+)\s*:\s*(.+)$".
Definition FM_KEY_RE : string := "^([\w-]+)\s*:\s*(.*)$".

(** [rsplit_once(c)] *)
Definition rsplit_once (c : ascii) (s : string) : option (string * string) :=
  i ← rfind_char c s; Some (str_take i s, str_drop (S i) s).
Definition parent (rel : string) : string :=
  match rsplit_once "/"%char rel with Some (d, _) => d | None => EmptyString end.
Definition join_path (dir name : string) : string :=
  if bool_decide (dir = EmptyString) then name else dir +:+ "/" +:+ name.
Definition is_text (rel : string) : bool :=
  match rsplit_once "."%char rel with
  | Some (_, ext) => bool_decide (to_lowercase ext ∈ TEXT_EXTS)
  | None => false
  end.
(** [replace('\\', "/")] of a path shown as text *)
Fixpoint slashed (s : string) : string :=
  match s with
  | EmptyString => EmptyString
  | String c s => String (if Ascii.eqb c "\"%char then "/"%char else c) (slashed s)
  end.

(** [walk_into]: everything but [.git/], [.dream/] and [.DS_Store]; links are files. *)
Fixpoint walk_into (prefix : string) (n : node) : list string :=
  match n with
  | Dir entries =>
      (fix go (l : list (string * node)) : list string :=
         match l with
         | [] => []
         | (name, e) :: l =>
             (if is_dir_entry e
              then (if bool_decide (name ∈ SKIP_DIRS) then [] else walk_into (join_path prefix name) e)
              else if bool_decide (name = ".DS_Store") then [] else [slashed (join_path prefix name)]) ++ go l
         end) entries
  | _ => []
  end.
Definition walk (brain : node) : list string := order_by String.le (walk_into "" brain).
(** [files_under], as brain-relative paths *)
Definition files_under (brain : node) (rel : string) : list string :=
  match at_path brain rel with
  | None => []
  | Some n =>
      if is_file n then [rel]
      else match follow n with Some d => join_path rel <$> walk_into "" d | None => [] end
  end.

(** [normalize] *)
Fixpoint normalize_parts (acc : list string) (parts : list string) : option (list string) :=
  match parts with
  | [] => Some (rev acc)
  | part :: parts =>
      if bool_decide (part = "") || bool_decide (part = ".") then normalize_parts acc parts
      else if bool_decide (part = "..") then
        match acc with [] => None | _ :: acc => normalize_parts acc parts end
      else normalize_parts (part :: acc) parts
  end.
Definition normalize (path : string) : option string :=
  if starts_with "/" path then None else join "/" <$> normalize_parts [] (split "/" path).

(** ** Links *)

Module FileLink.
Record t : Type := mk { line : nat; raw : string; target : option string }.
End FileLink.
(** [chars().take(n)] *)
Fixpoint take_chars (n : nat) (s : string) : string :=
  match s with
  | EmptyString => EmptyString
  | String a s =>
      if is_continuation a then String a (take_chars n s)
      else match n with 0 => EmptyString | S n => String a (take_chars n s) end
  end.
Fixpoint count_newlines (s : string) : nat :=
  match s with
  | EmptyString => 0
  | String a s => (if Nat.eqb (nat_of_ascii a) 10 then 1 else 0) + count_newlines s
  end.

Module Frontmatter.
Record t : Type := mk {
  fields : gmap string string;
  refs : list (string * string); ignore_refs : list (string * string); sources : list (string * string)
}.
Definition empty : t := mk ∅ [] [] [].
(** The list that a key names takes another item. *)
Definition is_list (key : string) : bool := bool_decide (key ∈ ["refs"; "ignore_refs"; "sources"]).
Definition push (key : string) (kv : string * string) (f : t) : t :=
  match key with
  | "refs" => mk (fields f) (refs f ++ [kv]) (ignore_refs f) (sources f)
  | "ignore_refs" => mk (fields f) (refs f) (ignore_refs f ++ [kv]) (sources f)
  | "sources" => mk (fields f) (refs f) (ignore_refs f) (sources f ++ [kv])
  | _ => f
  end.
Definition set_field (key v : string) (f : t) : t :=
  mk (<[key := v]> (fields f)) (refs f) (ignore_refs f) (sources f).
End Frontmatter.

Section Links.
Context {HX : RegexCrate}.
Definition link_of (rel text : string) (c : Captures.t) : option FileLink.t :=
  let target := default EmptyString (head (split "#" (Captures.get 1 c))) in
  if bool_decide (target = "") || is_match URL_RE target || starts_with "~" target then None
  else
    let found (resolved : option string) :=
      Some (FileLink.mk (count_newlines (str_take (Captures.start c) text) + 1)
              (take_chars 160 (Captures.whole c)) resolved) in
    match strip_prefix MOUNT_PREFIX target with
    | Some inside => found (normalize inside)
    | None => if starts_with "/" target then None else found (normalize (path_join (parent rel) target))
    end.
Definition links (rel text : string) : list FileLink.t :=
  omap (link_of rel text) (captures_iter LINK_RE text ++ captures_iter IMPORT_RE text).

(** ** Frontmatter, read *)

Definition is_quote (c : ascii) : bool := Ascii.eqb c (ascii_of_nat 34) || Ascii.eqb c (ascii_of_nat 39).
(** [trim_matches] with a set of ASCII characters *)
Fixpoint drop_while (P : ascii → bool) (s : string) : string :=
  match s with
  | String c s' => if P c then drop_while P s' else s
  | EmptyString => s
  end.
Fixpoint drop_while_end (P : ascii → bool) (s : string) : string :=
  match s with
  | EmptyString => EmptyString
  | String c s =>
      match drop_while_end P s with
      | EmptyString => if P c then EmptyString else String c EmptyString
      | s' => String c s'
      end
  end.
Definition trim_chars (P : ascii → bool) (s : string) : string := drop_while_end P (drop_while P s).
Definition unquote (s : string) : string := trim_chars is_quote (trim s).

Definition frontmatter_line (st : Frontmatter.t * string) (line : string) : Frontmatter.t * string :=
  let '(fm, key) := st in
  let line := trim_end (default EmptyString (head (split " #" line))) in
  if bool_decide (trim line = "") then st
  else
    match (if Frontmatter.is_list key then captures FM_REF_RE line else None) with
    | Some c => (Frontmatter.push key (Captures.get 1 c, unquote (Captures.get 2 c)) fm, key)
    | None =>
        match captures FM_KEY_RE line with
        | Some c => (Frontmatter.set_field (Captures.get 1 c) (unquote (Captures.get 2 c)) fm, Captures.get 1 c)
        | None => st
        end
    end.
Definition frontmatter (text : string) : option Frontmatter.t :=
  body ← strip_prefix ("---" +:+ NEWLINE) text;
  end_ ← find (NEWLINE +:+ "---") body;
  Some (foldl frontmatter_line (Frontmatter.empty, EmptyString) (lines (str_take end_ body))).1.
Definition last_verified {HD : DateCrate} (text : string) (fm : option Frontmatter.t) : option Z :=
  let from_fm := fm ≫= λ f, Frontmatter.fields f !! "last-verified" in
  raw ← match from_fm with
        | Some v => Some v
        | None => Captures.get 1 <$> captures LAST_VERIFIED_RE text
        end;
  parse_date raw.
End Links.

(** ** Lint *)

Definition LONG_ENTRY_WORDS : nat := 25.
Definition INDEX : string := "CLAUDE.md".
Module BrokenLink.
Record t : Type := mk { file : string; line : nat; link : string; resolved : option string }.
End BrokenLink.
Module IndexedFile.
Record t : Type := mk { file : string; index : string }.
End IndexedFile.
Module LongEntry.
Record t : Type := mk { file : string; line : nat; words : nat }.
End LongEntry.
Module LintReport.
Record t : Type := mk {
  broken_links : list BrokenLink.t; missing_from_index : list IndexedFile.t; orphans : list IndexedFile.t;
  long_index_entries : list LongEntry.t; empty_folders : list string; unlisted_folders : list string
}.
End LintReport.

(** [index_for]: up the directories, at most one step per byte of the path. *)
Fixpoint index_from (fuel : nat) (rel dir : string) (files : gset string) : option string :=
  match fuel with
  | 0 => None
  | S fuel =>
      if bool_decide (dir = EmptyString) then None
      else
        let idx := join_path dir INDEX in
        if negb (bool_decide (idx = rel)) && bool_decide (idx ∈ files) then Some idx
        else index_from fuel rel (parent dir) files
  end.
Definition index_for (rel : string) (files : gset string) : option string :=
  index_from (S (String.length rel)) rel (parent rel) files.

(** [split_whitespace().count()] *)
Fixpoint count_words_go (inside : bool) (s : string) : nat :=
  match s with
  | EmptyString => 0
  | String c s =>
      if is_whitespace c then count_words_go false s
      else (if inside then 0 else 1) + count_words_go true s
  end.
Definition count_words (s : string) : nat := count_words_go false s.

Section Lint.
Context {HX : RegexCrate} {HB : GlobCrate}.

(** The files a file is linked from, and the links that lead nowhere. *)
Definition linked : Type := gmap string (gset string).
Definition add_link (exists_ : string → bool) (rel : string) (acc : linked * list BrokenLink.t) (l : FileLink.t)
    : linked * list BrokenLink.t :=
  match FileLink.target l with
  | Some t =>
      if exists_ t then (<[t := {[rel]} ∪ default ∅ (acc.1 !! t)]> acc.1, acc.2)
      else (acc.1, acc.2 ++ [BrokenLink.mk rel (FileLink.line l) (FileLink.raw l) (Some t)])
  | None => (acc.1, acc.2 ++ [BrokenLink.mk rel (FileLink.line l) (FileLink.raw l) None])
  end.
Definition scan_links (brain : node) (all : list string) : linked * list BrokenLink.t :=
  let files : gset string := list_to_set all in
  let dirs : gset string := list_to_set (parent <$> all) in
  let exists_ t := bool_decide (t ∈ files) || bool_decide (t ∈ dirs) in
  foldl (λ acc rel, foldl (add_link exists_ rel) acc (links rel (read brain rel))) (∅, [])
    (filter (λ rel, is_text rel = true) all).

Definition links_to (from_ : linked) (target index : string) : bool :=
  match from_ !! target with Some s => bool_decide (index ∈ s) | None => false end.
(** [index_coverage], file by file *)
Definition coverage_of (cfg : Config.t) (files : gset string) (from_ : linked) (rel : string)
    : option (IndexedFile.t * bool * bool) :=
  if negb (ends_with ".md" rel) || ends_with INDEX rel || is_off_limits cfg rel then None
  else
    index ← index_for rel files;
    let dir := parent rel in
    let indexed := existsb (λ t, links_to from_ t index) [rel; join_path dir "README.md"; dir] in
    let linked_ := match from_ !! rel with
                   | Some s => existsb (λ f, negb (String.eqb f rel)) (elements s)
                   | None => false
                   end in
    Some (IndexedFile.mk rel index, indexed, linked_).
Definition index_coverage (cfg : Config.t) (all : list string) (from_ : linked) : list IndexedFile.t * list IndexedFile.t :=
  let found := omap (coverage_of cfg (list_to_set all) from_) all in
  ((λ x, x.1.1) <$> filter (λ x, x.1.2 = false) found, (λ x, x.1.1) <$> filter (λ x, x.2 = false) found).

Fixpoint long_lines (file : string) (i : nat) (ls : list string) : list LongEntry.t :=
  match ls with
  | [] => []
  | line :: ls =>
      let t := trim_start line in
      let words := count_words line in
      (if (starts_with "- [" t || starts_with "* [" t) && (LONG_ENTRY_WORDS <? words)
       then [LongEntry.mk file (i + 1) words] else []) ++ long_lines file (S i) ls
  end.
Definition long_entries (brain : node) (all : list string) : list LongEntry.t :=
  idx ← filter (λ f, ends_with INDEX f = true) all; long_lines idx 0 (lines (read brain idx)).

(** [collect_empty]: the folders that hold nothing, [.DS_Store] aside; at the brain's top
    its own folders do not count. *)
Fixpoint collect_empty (top : bool) (rel : string) (n : node) : list string :=
  match n with
  | Dir entries =>
      let skipped (name : string) := bool_decide (name = ".DS_Store") || (top && bool_decide (name ∈ SKIP_DIRS)) in
      (fix go (l : list (string * node)) : list string :=
         match l with
         | [] => []
         | (name, e) :: l =>
             (if negb (skipped name) && is_dir_entry e then collect_empty false (join_path rel name) e else []) ++ go l
         end) entries
      ++ (if forallb (λ x, skipped x.1) entries && negb top then [slashed rel] else [])
  | _ => []
  end.
Definition empty_folders (brain : node) : list string := order_by String.le (collect_empty true "" brain).
Definition unlisted_folders (cfg : Config.t) (all : list string) : list string :=
  let listed := folder_dir <$> RawConfig.folders (Config.raw cfg) in
  in_order_set (list_to_set
    (filter (λ top, top ∉ listed) (omap (λ f, fst <$> split_once "/" f) all))).

Definition lint (brain : node) (cfg : Config.t) : LintReport.t :=
  let all := walk brain in
  let '(from_, broken) := scan_links brain all in
  let '(missing, orphans) := index_coverage cfg all from_ in
  LintReport.mk broken missing orphans (long_entries brain all) (empty_folders brain) (unlisted_folders cfg all).
End Lint.
