(* ===== verification/DreamRefs.v ===== *)
(** * Brain maintenance: streams, references, checks and candidates

    [ur/src/dream/refs.rs], [check.rs], [state.rs] and [candidates.rs]: the streams of
    a brain and the references in them, the check commands of references, the cached
    results, and which streams may be promoted.

    A panic is [None]. *)

From Stdlib Require Import Ascii.
From S2P Require Import Prelude RustStd TextLemmas DreamConfig DreamFiles.
Local Open Scope stdpp_scope.

(** ** Data *)

Module Ref.
Record t : Type := mk { kind : string; id : string; groups : gmap string string; problem : option string }.
Definition key (r : t) : string := kind r +:+ ":" +:+ id r.
End Ref.
Module Stream.
Record t : Type := mk {
  entry : option string; has_frontmatter : bool; status : option string;
  recorded_refs : list Ref.t; discovered_refs : list Ref.t; ignored_refs : list Ref.t;
  unclassified : list string; last_change : option string; last_change_source : string;
  quiet_days : option Z
}.
Definition is_active (s : t) : bool :=
  match status s with None => true | Some st => String.eqb st "active" end.
End Stream.
Module RefsReport.
Record t : Type := mk { streams : gmap string Stream.t; active_refs : list Ref.t }.
End RefsReport.

Module Outcome.
Inductive t : Type := Unchanged | Changed.
#[global] Instance eq_dec : EqDecision t.
Proof. solve_decision. Defined.
End Outcome.
Module ReviewEntry.
Record t : Type := mk { date : string; outcome : Outcome.t; note : option string; at_ : gmap string string }.
End ReviewEntry.
Module ReviewRecord.
Record t : Type := mk { last_reviewed : string; interval_days : Z; history : list ReviewEntry.t }.
(** [latest_at]: the most recent entry that has the repository, with its date. *)
Definition add_at (e : ReviewEntry.t) (out : gmap string (string * string)) : gmap string (string * string) :=
  out ∪ ((λ sha, (sha, ReviewEntry.date e)) <$> ReviewEntry.at_ e).
Definition latest_at (r : t) : gmap string (string * string) :=
  foldl (λ out e, add_at e out) ∅ (rev (history r)).
End ReviewRecord.
Module RefState.
Record t : Type := mk { state : string; done : option bool; checked_at : string }.
End RefState.
Module State.
(** [extra]: the keys this version does not know. *)
Record t : Type := mk {
  refs : gmap string RefState.t; reviews : gmap string ReviewRecord.t; last_run : option string;
  extra : gmap string string
}.
Definition default : t := mk ∅ ∅ None ∅.
Definition with_refs (r : gmap string RefState.t) (s : t) : t := mk r (reviews s) (last_run s) (extra s).
Definition with_reviews (r : gmap string ReviewRecord.t) (s : t) : t := mk (refs s) r (last_run s) (extra s).
Definition with_last_run (d : string) (s : t) : t := mk (refs s) (reviews s) (Some d) (extra s).
End State.

(** ** References in a text *)

Section Refs.
Context {HX : RegexCrate} {HB : GlobCrate} {HD : DateCrate} {HH : DreamHost}.

Definition make_ref (kind : RefKind.t) (groups : gmap string string) (text : string) : Ref.t :=
  Ref.mk (RefKind.kind kind) (default text (RefKind.id kind ≫= λ t, fill t groups)) groups None.
(** [groups_of]: the fixed values, overridden by the groups that took part. *)
Definition groups_of (pat : Pattern.t) (c : Captures.t) : gmap string string := Captures.named c ∪ Pattern.set_ pat.

Definition overlaps (taken : list (nat * nat)) (a b : nat) : bool :=
  existsb (λ xy, (a <? xy.2) && (xy.1 <? b)) taken.
(** All matches, by kind and pattern in the order of the config. *)
Definition all_matches (cfg : Config.t) (text : string) : list (RefKind.t * Pattern.t * Captures.t) :=
  k ← Config.kinds cfg; p ← RefKind.patterns k; c ← captures_iter (Pattern.regex p) text; [(k, p, c)].
Definition take_match (st : list (nat * nat) * list Ref.t) (m : RefKind.t * Pattern.t * Captures.t)
    : list (nat * nat) * list Ref.t :=
  let '(k, p, c) := m in
  if overlaps st.1 (Captures.start c) (Captures.end_ c) then st
  else (st.1 ++ [(Captures.start c, Captures.end_ c)], st.2 ++ [make_ref k (groups_of p c) (Captures.whole c)]).
Definition match_refs (cfg : Config.t) (text : string) : list Ref.t * gset string :=
  let '(taken, found) := foldl take_match ([], []) (all_matches cfg text) in
  let left := filter (λ c, overlaps taken (Captures.start c) (Captures.end_ c) = false
                           ∧ ignore_unclassified cfg (Captures.whole c) = false)
                match Config.unclassified cfg with Some re => captures_iter re text | None => [] end in
  (found, list_to_set (Captures.whole <$> left)).

Definition first_match (k : RefKind.t) (value : string) : option Ref.t :=
  head (omap (λ p, (λ c, make_ref k (groups_of p c) (Captures.whole c)) <$> captures (Pattern.regex p) value)
          (RefKind.patterns k)).
Definition parse_ref (cfg : Config.t) (kind_name value : string) : Ref.t :=
  let unparsed problem := Ref.mk kind_name value ∅ (Some problem) in
  match kind_named cfg kind_name with
  | None => unparsed "unknown kind"
  | Some k => default (unparsed "matches no pattern") (first_match k value)
  end.

(** ** Streams *)

Context (brain_path : string) (brain : node).

Definition streams (cfg : Config.t) : list string :=
  order_by String.le
    (folder ← folders_of cfg Role.Scratch;
     e ← default [] (at_path brain folder ≫= read_dir);
     if (is_dir e.2 || ends_with ".md" e.1) && negb (String.eqb e.1 "CLAUDE.md") && negb (starts_with "." e.1)
     then [join_path folder e.1] else []).
Definition entry_file (rel : string) : option string :=
  if file_at brain rel then Some rel
  else
    let readme := join_path rel "README.md" in
    if file_at brain readme then Some readme
    else
      entries ← at_path brain rel ≫= read_dir;
      match filter (λ n, ends_with ".md" n = true) entries.*1 with
      | [md] => Some (join_path rel md)
      | _ => None
      end.

(** The day of the last change, and where it is known from. *)
Definition last_change (rel : string) (init_commits : list string) : option Z * string :=
  match git brain_path ["status"; "--porcelain"; "--"; rel] with
  | Some (String _ _) => (Some today, "uncommitted")
  | _ =>
      let log := default EmptyString (git brain_path ["log"; "--format=%H %cs"; "--"; rel]) in
      let commits := omap (split_once " ") (lines log) in
      match existsb (λ c, negb (bool_decide (c.1 ∈ init_commits))) commits, head commits with
      | true, Some (_, date) => (parse_date date, "git")
      | _, _ =>
          let times := omap (λ p, match at_path brain p ≫= follow with Some (File _ t) => Some t | _ => None end)
                         (files_under brain rel) in
          match times with
          | [] => (None, "empty")
          | t :: ts => (Some (foldr Z.max t ts), "mtime")
          end
      end
  end.
Definition init_commits : list string :=
  match git brain_path ["log"; "--format=%H"; "--grep=^brain: init$"] with Some s => lines s | None => [] end.

(** [discover]: the first time a key is seen *)
Fixpoint unseen (seen : gset string) (l : list Ref.t) : list Ref.t * gset string :=
  match l with
  | [] => ([], seen)
  | r :: l =>
      if bool_decide (Ref.key r ∈ seen) then unseen seen l
      else let '(rest, seen) := unseen ({[Ref.key r]} ∪ seen) l in (r :: rest, seen)
  end.
Fixpoint discover_in (cfg : Config.t) (seen : gset string) (texts : list string) : list Ref.t * gset string :=
  match texts with
  | [] => ([], ∅)
  | t :: texts =>
      let '(refs, unc) := match_refs cfg (read brain t) in
      let '(fresh, seen) := unseen seen refs in
      let '(rest, unc') := discover_in cfg seen texts in
      (fresh ++ rest, unc ∪ unc')
  end.
Definition discover (cfg : Config.t) (rel : string) (skip : gset string) : list Ref.t * gset string :=
  discover_in cfg skip (order_by String.le (filter (λ f, is_text f = true) (slashed <$> files_under brain rel))).

(** [scan], one stream and all *)
Definition scan_stream (cfg : Config.t) (inits : list string) (rel : string) : Stream.t :=
  let entry := entry_file rel in
  let fm := entry ≫= λ e, frontmatter (read brain e) in
  let parse_all (l : list (string * string)) := (λ kv, parse_ref cfg kv.1 kv.2) <$> l in
  let recorded := parse_all match fm with Some f => Frontmatter.refs f | None => [] end in
  let ignored := parse_all match fm with Some f => Frontmatter.ignore_refs f | None => [] end in
  let '(discovered, unclassified) :=
    if Discovery.allowed (RawConfig.discovery (Config.raw cfg))
    then discover cfg rel (list_to_set (Ref.key <$> recorded ++ ignored)) else ([], ∅) in
  let '(changed, source) := last_change rel inits in
  Stream.mk entry (bool_decide (is_Some fm)) (fm ≫= λ f, Frontmatter.fields f !! "status")
    recorded discovered ignored (in_order_set unclassified)
    (date_display <$> changed) source ((λ d, today - d)%Z <$> changed).
Definition refs_of (s : Stream.t) : list Ref.t := Stream.recorded_refs s ++ Stream.discovered_refs s.
(** [insert] of each: a later reference replaces an earlier one of its key. *)
Definition add_active (out : gmap string Ref.t) (s : Stream.t) : gmap string Ref.t :=
  if Stream.is_active s then foldl (λ out r, <[Ref.key r := r]> out) out (refs_of s) else out.
Definition scan (cfg : Config.t) : RefsReport.t :=
  let inits := init_commits in
  let found := (λ rel, (rel, scan_stream cfg inits rel)) <$> streams cfg in
  RefsReport.mk (list_to_map (rev found))
    (in_key_order (foldl add_active ∅ found.*2)).*2.

(** ** Checks *)

Inductive Source : Type := Recorded | Discovered.
Record StreamRef : Type := mkStreamRef { sr_stream : string; sr_source : Source }.
Record Checked : Type := mkChecked { ch_state : string; ch_done : option bool; ch_checked_at : string; ch_cached : bool }.

(** A stream's references, with how each came to it. *)
Definition tagged (s : Stream.t) : list (Ref.t * Source) :=
  ((., Recorded) <$> Stream.recorded_refs s) ++ ((., Discovered) <$> Stream.discovered_refs s).
Definition add_tagged (name : string) (out : gmap string (list StreamRef)) (rs : Ref.t * Source)
    : gmap string (list StreamRef) :=
  <[Ref.key rs.1 := default [] (out !! Ref.key rs.1) ++ [mkStreamRef name rs.2]]> out.
Definition attribution (report : RefsReport.t) : gmap string (list StreamRef) :=
  foldl (λ out ns, if Stream.is_active ns.2 then foldl (add_tagged ns.1) out (tagged ns.2) else out) ∅
    (in_key_order (RefsReport.streams report)).

Record CheckSummary : Type := mkCheckSummary {
  cs_total : nat; cs_done : nat; cs_not_done : nat; cs_unknown : nat; cs_cached : nat
}.
Record UnknownRef : Type := mkUnknownRef { ur_key : string; ur_state : string; ur_streams : list StreamRef }.
Record CheckReport : Type := mkCheckReport {
  cr_summary : CheckSummary; cr_unknown : list UnknownRef; cr_refs : gmap string (Checked * list StreamRef)
}.
Definition count_checked (P : Checked → bool) (l : list (string * Checked)) : nat :=
  length (filter (λ kc, P kc.2 = true) l).
Definition summarize (results : gmap string Checked) (streams : gmap string (list StreamRef)) : CheckReport :=
  let l := in_key_order results in
  let attributed key := default [] (streams !! key) in
  mkCheckReport
    (mkCheckSummary (length l) (count_checked (λ c, bool_decide (ch_done c = Some true)) l)
       (count_checked (λ c, bool_decide (ch_done c = Some false)) l)
       (count_checked (λ c, bool_decide (ch_done c = None)) l) (count_checked ch_cached l))
    ((λ kc, mkUnknownRef kc.1 (ch_state kc.2) (attributed kc.1)) <$> filter (λ kc, ch_done kc.2 = None) l)
    (map_imap (λ key c, Some (c, attributed key)) results).

Definition argv (cfg : Config.t) (r : Ref.t) : option (list string) :=
  k ← kind_named cfg (Ref.kind r);
  check ← RefKind.check k;
  mapM (λ a, fill a (Ref.groups r)) check.
(** [run]: an empty command line has no first argument; the process is killed after
    [TIMEOUT], a minute. *)
Definition run_command (args : list string) : option (result string string) :=
  match args with
  | [] => None
  | _ =>
      Some match check_run args with
           | CommandNotFound => Err "missing-command"
           | NotSpawned => Err "spawn-failed"
           | ExitedWith code out => if (code =? 0)%Z then Ok (trim out) else Err ("exit-" +:+ pretty code)
           | KilledBySignal => Err "killed"
           | StillRunning => Err "timeout"
           end
  end.
Definition extract (pattern : string) (groups : gmap string string) (stdout : string) : option string :=
  let re := "(?m)" +:+ fill_escaped pattern groups in
  match regex_new re with
  | Err _ => None
  | Ok _ =>
      c ← captures re stdout;
      Some (trim match mjoin (Captures.group c !! 0) with Some g => g | None => Captures.whole c end)
  end.
Definition doneness (k : RefKind.t) (state : string) : option bool :=
  if bool_decide (state ∈ RefKind.done k) then Some true
  else if bool_decide (state ∈ RefKind.not_done k) then Some false else None.
Definition run_one (cfg : Config.t) (r : Ref.t) : option (string * option bool) :=
  match kind_named cfg (Ref.kind r) with
  | None => Some ("unknown-kind", None)
  | Some k =>
      match RefKind.check k with
      | None => Some ("uncheckable", None)
      | Some _ =>
          match argv cfg r with
          | None => Some ("unparsed", None)
          | Some args =>
              out ← run_command args;
              Some match out with
                   | Err state => (state, None)
                   | Ok stdout =>
                       match RefKind.state k with
                       | Some pattern =>
                           match extract pattern (Ref.groups r) stdout with
                           | Some s => (s, doneness k s)
                           | None => ("unrecognized", None)
                           end
                       | None =>
                           let s := trim (default EmptyString (head (lines stdout))) in (s, doneness k s)
                       end
                   end
          end
      end
  end.

(** [check_all]: what is cached as done is not run again. *)
Definition cached_done (state : State.t) (r : Ref.t) : option RefState.t :=
  match State.refs state !! Ref.key r with
  | Some c => if bool_decide (RefState.done c = Some true) then Some c else None
  | None => None
  end.
Definition check_ref (cfg : Config.t) (state : State.t) (r : Ref.t) : option (string * Checked) :=
  match cached_done state r with
  | Some c => Some (Ref.key r, mkChecked (RefState.state c) (RefState.done c) (RefState.checked_at c) true)
  | None => sd ← run_one cfg r; Some (Ref.key r, mkChecked sd.1 sd.2 (date_display today) false)
  end.
Definition check_all (cfg : Config.t) (refs : list Ref.t) (state : State.t) : option (gmap string Checked) :=
  l ← mapM (check_ref cfg state) refs; Some (list_to_map (rev l)).
Definition ref_state_of (c : Checked) : RefState.t := RefState.mk (ch_state c) (ch_done c) (ch_checked_at c).
Definition record_checks (state : State.t) (results : gmap string Checked) : State.t :=
  State.with_last_run (date_display today) (State.with_refs ((ref_state_of <$> results) ∪ State.refs state) state).

(** ** Candidates *)

Definition UNCHECKED : string := "unchecked".
Inductive Classification : Type := Candidate | Blocked | PossiblyAbandoned | Active.
#[global] Instance classification_eq_dec : EqDecision Classification.
Proof. solve_decision. Defined.
Record StreamRefState : Type := mkStreamRefState {
  rs_key : string; rs_source : Source; rs_state : string; rs_done : option bool; rs_checked_at : option string
}.
Record StreamClass : Type := mkStreamClass {
  classification : Classification; sc_quiet_days : option Z; sc_last_change : option string;
  sc_refs : list StreamRefState; blocked_by : list (string * string)
}.
Record CandidatesSummary : Type := mkCandidatesSummary {
  candidate : nat; blocked : nat; possibly_abandoned : nat; active : nat
}.
Record CandidatesReport : Type := mkCandidatesReport {
  quiet_days_threshold : Z; cand_summary : CandidatesSummary; cand_streams : gmap string StreamClass;
  inactive : gmap string string
}.

Definition ref_state (state : State.t) (rs : Ref.t * Source) : StreamRefState :=
  match State.refs state !! Ref.key rs.1 with
  | Some c => mkStreamRefState (Ref.key rs.1) rs.2 (RefState.state c) (RefState.done c) (Some (RefState.checked_at c))
  | None => mkStreamRefState (Ref.key rs.1) rs.2 UNCHECKED None None
  end.
Definition classify_stream (stream : Stream.t) (state : State.t) (threshold : Z) : StreamClass :=
  let refs := ref_state state <$> tagged stream in
  let blocked_by := (λ r, (rs_key r, rs_state r)) <$> filter (λ r, rs_done r = None) refs in
  let quiet := match Stream.quiet_days stream with Some d => (threshold <=? d)%Z | None => false end in
  let class :=
    if negb (bool_decide (blocked_by = [])) then Blocked
    else if bool_decide (length refs = 0) then (if quiet then PossiblyAbandoned else Active)
    else if quiet && forallb (λ r, bool_decide (rs_done r = Some true)) refs then Candidate
    else Active in
  mkStreamClass class (Stream.quiet_days stream) (Stream.last_change stream) refs blocked_by.
Definition count_class (c : Classification) (l : gmap string StreamClass) : nat :=
  length (filter (λ x, classification x.2 = c) (map_to_list l)).
Definition classify (report : RefsReport.t) (state : State.t) (threshold : Z) : CandidatesReport :=
  let active_ := filter (λ ns, Stream.is_active ns.2 = true) (RefsReport.streams report) in
  let classes := (λ s, classify_stream s state threshold) <$> active_ in
  mkCandidatesReport threshold
    (mkCandidatesSummary (count_class Candidate classes) (count_class Blocked classes)
       (count_class PossiblyAbandoned classes) (count_class Active classes))
    classes
    ((λ s, default EmptyString (Stream.status s)) <$>
       filter (λ ns, Stream.is_active ns.2 = false) (RefsReport.streams report)).
End Refs.
