(* ===== verification/DreamReview.v ===== *)
(** * Brain maintenance: reviews and what changed since

    [ur/src/dream/review.rs] and [changes.rs]: when each durable document is due, what a
    review makes of its interval, and the commits of the source repositories since.

    Dates are days without a bound; intervals are 64 bits wide. *)

From S2P Require Import Prelude RustStd TextLemmas DreamConfig DreamFiles DreamRefs.
Local Open Scope stdpp_scope.

Definition HISTORY_LIMIT : nat := 20.
(** The low 64 bits, as a signed number. *)
Definition as_i64 (z : Z) : Z := ((z + 9223372036854775808) mod 18446744073709551616 - 9223372036854775808)%Z.
Definition U64_MAX : Z := 18446744073709551615.
Definition parse_usize : string → result Z int_error := parse_int 0 U64_MAX.

Module DocReview.
Record t : Type := mk {
  file : string; last_reviewed : option string; interval_days : Z; due : Z; overdue_days : Z;
  reviews : nat; changed_reviews : nat; last_verified : option string
}.
End DocReview.
Module RepoChanges.
Record t : Type := mk {
  since : string; reviewed_on : string; branch : option string; sources : list string;
  commits : option Z; paths : option (list string); error : option string
}.
End RepoChanges.
Module ReviewReport.
Record t : Type := mk {
  pick : list string; changes_since : gmap string (gmap string RepoChanges.t); docs : list DocReview.t
}.
End ReviewReport.
Module Finding.
Record t : Type := mk { outcome : Outcome.t; note : option string; at_ : gmap string string }.
End Finding.

Section Review.
Context {HX : RegexCrate} {HB : GlobCrate} {HD : DateCrate} {HH : DreamHost}.
Context (brain_path : string) (brain : node) (cfg : Config.t).

(** ** Changes in the source repositories *)

(** [parse_at] *)
Definition parse_at (s : string) : result (string * string) string :=
  match split_once "=" s with
  | Some (repo, sha) =>
      if bool_decide (repo = "") || bool_decide (sha = "") then Err ("expected <repo>=<sha>, got " +:+ debug_str s)
      else Ok (repo, sha)
  | None => Err ("expected <repo>=<sha>, got " +:+ debug_str s)
  end.
Definition repo_dir (r : Repo.t) : result string string :=
  let dir := repo_path brain_path r in
  if dir_exists dir then Ok dir else Err ("repo " +:+ Repo.name r +:+ ": " +:+ dir +:+ " is not a directory").
(** [resolve_at]: the pairs in order, the first failure ends it. *)
Fixpoint resolve_from (out : gmap string string) (at_ : list (string * string)) : result (gmap string string) string :=
  match at_ with
  | [] => Ok out
  | (name, sha) :: at_ =>
      match repo_named cfg name with
      | None =>
          Err ("--at " +:+ name +:+ ": not a repo in DREAM.md (repos: "
               +:+ debug_strs (Repo.name <$> RawConfig.repos (Config.raw cfg)) +:+ ")")
      | Some repo =>
          let? dir := repo_dir repo in
          let? full := in_context ("--at " +:+ name +:+ "=" +:+ sha)
                         (git_checked dir ["rev-parse"; "--verify"; "--end-of-options"; sha +:+ "^{commit}"]) in
          if bool_decide (is_Some (out !! name)) then Err ("--at " +:+ name +:+ ": given more than once")
          else resolve_from (<[name := trim full]> out) at_
      end
  end.
Definition resolve_at (at_ : list (string * string)) : result (gmap string string) string := resolve_from ∅ at_.

(** [trim_start_matches(p)] for a text *)
Fixpoint trim_start_matches_go (fuel : nat) (p s : string) : string :=
  match fuel with
  | 0 => s
  | S fuel => match strip_prefix p s with Some s' => trim_start_matches_go fuel p s' | None => s end
  end.
Definition trim_start_matches (p s : string) : string := trim_start_matches_go (String.length s) p s.
(** [missing_source]: the first path that neither revision has. *)
Definition source_missing (dir since branch src : string) : bool :=
  let path := trim_end_matches "/" (trim_start_matches "./" src) in
  negb (bool_decide (path = ""))
  && forallb (λ rev, bool_decide (git dir ["cat-file"; "-e"; rev +:+ ":" +:+ path] = None)) [since; branch].
Definition missing_source (dir since branch : string) (sources : list string) : option string :=
  List.find (source_missing dir since branch) sources.
Definition diff (repo : Repo.t) (sha : string) (sources : list string) : result (Z * list string) string :=
  let? dir := repo_dir repo in
  let with_paths (args : list string) := args ++ [sha +:+ ".." +:+ Repo.branch repo; "--"] ++ sources in
  let? count := git_checked dir (with_paths ["rev-list"; "--count"; "--end-of-options"]) in
  let? commits := match parse_usize (trim count) with
                  | Ok n => Ok n
                  | Err _ => Err ("git rev-list --count printed " +:+ debug_str count)
                  end in
  match missing_source dir sha (Repo.branch repo) sources with
  | Some missing =>
      Err ("repo " +:+ Repo.name repo +:+ ": source " +:+ debug_str missing +:+ " exists at neither " +:+ sha
           +:+ " nor " +:+ Repo.branch repo)
  | None =>
      let? log := git_checked dir (with_paths ["log"; "--format="; "--name-only"; "--end-of-options"]) in
      Ok (commits, in_order_set (list_to_set (filter (λ l, l ≠ "") (lines log))))
  end.
Definition changes_of (sources : list (string * string)) (name : string) (sd : string * string) : RepoChanges.t :=
  let paths := snd <$> filter (λ kv, kv.1 = name) sources in
  let repo := repo_named cfg name in
  let result := match repo with
                | Some repo => diff repo sd.1 paths
                | None => Err (name +:+ " is no longer a repo in DREAM.md")
                end in
  RepoChanges.mk sd.1 sd.2 (Repo.branch <$> repo) paths
    (match result with Ok r => Some r.1 | Err _ => None end)
    (match result with Ok r => Some r.2 | Err _ => None end)
    (match result with Ok _ => None | Err e => Some e end).
(** [since] *)
Definition changes_since (rec : ReviewRecord.t) (sources : list (string * string)) : gmap string RepoChanges.t :=
  map_imap (λ name sd, Some (changes_of sources name sd)) (ReviewRecord.latest_at rec).

(** ** The schedule *)

Definition durable_docs : list string :=
  let folders := folders_of cfg Role.Durable in
  filter (λ f, existsb (λ d, starts_with (d +:+ "/") f) folders = true)
    (filter (λ f, ends_with ".md" f = true ∧ ends_with "CLAUDE.md" f = false ∧ is_off_limits cfg f = false)
       (walk brain)).
Definition review_config : Review.t := RawConfig.review (Config.raw cfg).

(** One document: due one interval after its last review, else after its last verification,
    else after its last change, else today. *)
Definition doc_review (state : State.t) (inits : list string) (file : string) : DocReview.t :=
  let text := read brain file in
  let lv := last_verified text (frontmatter text) in
  let rec := State.reviews state !! file in
  let last := rec ≫= λ r, parse_date (ReviewRecord.last_reviewed r) in
  let interval := match rec with Some r => ReviewRecord.interval_days r | None => Review.initial_days review_config end in
  let anchor := match last with
                | Some d => Some d
                | None => match lv with Some d => Some d | None => (last_change brain_path brain file inits).1 end
                end in
  let due := match anchor with Some d => (d + Z.max interval 0)%Z | None => today end in
  DocReview.mk file (date_display <$> last) interval due (today - due)
    (match rec with Some r => length (ReviewRecord.history r) | None => 0 end)
    (match rec with
     | Some r => length (filter (λ e, ReviewEntry.outcome e = Outcome.Changed) (ReviewRecord.history r))
     | None => 0
     end)
    (date_display <$> lv).
(** The most overdue first, then by name. *)
Definition more_due (a b : DocReview.t) : Prop :=
  (DocReview.overdue_days b < DocReview.overdue_days a)%Z
  ∨ (DocReview.overdue_days b = DocReview.overdue_days a ∧ String.le (DocReview.file a) (DocReview.file b)).
#[global] Instance more_due_dec : RelDecision more_due.
Proof. intros a b. unfold more_due. apply _. Defined.
Definition review_docs (state : State.t) : list DocReview.t :=
  let inits := init_commits brain_path in
  order_by more_due (doc_review state inits <$> durable_docs).
Definition picks (docs : list DocReview.t) : list string :=
  DocReview.file <$> take (Z.to_nat (Review.per_run review_config))
    (filter (λ d, (0 <= DocReview.overdue_days d)%Z) docs).
Definition picked_changes (state : State.t) (file : string) : option (string * gmap string RepoChanges.t) :=
  rec ← State.reviews state !! file;
  let sources := match frontmatter (read brain file) with Some f => Frontmatter.sources f | None => [] end in
  let changes := changes_since rec sources in
  if bool_decide (changes = ∅) then None else Some (file, changes).
Definition schedule (state : State.t) : ReviewReport.t :=
  let docs := review_docs state in
  let pick := picks docs in
  ReviewReport.mk pick (list_to_map (omap (picked_changes state) pick)) docs.

(** ** Recording reviews *)

Definition clamp (lo hi z : Z) : Z := Z.min hi (Z.max lo z).
(** The next interval: the first review of an unchanged document only confirms it. *)
Definition next_interval (r : Review.t) (prev : option ReviewRecord.t) (outcome : Outcome.t) : Z :=
  let base := match prev with Some p => ReviewRecord.interval_days p | None => Review.initial_days r end in
  clamp (Review.min_days r) (Review.max_days r)
    match outcome, prev with
    | Outcome.Unchanged, None => Review.initial_days r
    | Outcome.Unchanged, Some _ => as_i64 (base * 2)
    | Outcome.Changed, _ => Z.quot base 2
    end.
Definition new_history (prev : option ReviewRecord.t) (e : ReviewEntry.t) : list ReviewEntry.t :=
  let history := match prev with Some p => ReviewRecord.history p | None => [] end ++ [e] in
  drop (length history - HISTORY_LIMIT) history.
Definition reviewed (prev : option ReviewRecord.t) (finding : Finding.t) : ReviewRecord.t :=
  ReviewRecord.mk (date_display today) (next_interval review_config prev (Finding.outcome finding))
    (new_history prev (ReviewEntry.mk (date_display today) (Finding.outcome finding) (Finding.note finding)
                         (Finding.at_ finding))).
Definition not_under_review (file : string) : string :=
  file +:+ " is not a durable doc under review (see `ur dream review`)".
(** [record] *)
Definition record_review (state : State.t) (file : string) (finding : Finding.t) : result (ReviewRecord.t * State.t) string :=
  if negb (bool_decide (file ∈ durable_docs)) then Err (not_under_review file)
  else
    let rec := reviewed (State.reviews state !! file) finding in
    Ok (rec, State.with_reviews (<[file := rec]> (State.reviews state)) state).
(** [record_all]: every file is checked before one is recorded, and each is recorded once. *)
Fixpoint record_each (state : State.t) (files : list string) (finding : Finding.t)
    : result (gmap string ReviewRecord.t * State.t) string :=
  match files with
  | [] => Ok (∅, state)
  | f :: files =>
      let? (rec, state) := record_review state f finding in
      let? (recs, state) := record_each state files finding in
      Ok (<[f := rec]> recs, state)
  end.
Definition record_all (state : State.t) (files : list string) (finding : Finding.t)
    : result (gmap string ReviewRecord.t * State.t) string :=
  match List.find (λ f, negb (bool_decide (f ∈ durable_docs))) files with
  | Some f => Err (not_under_review f)
  | None => record_each state (in_order_set (list_to_set files)) finding
  end.
End Review.
