(* ===== verification/DreamReport.v ===== *)
(** * Brain maintenance: reports and the check before they are applied

    [ur/src/dream/report.rs], [verify.rs] and [status.rs]: reading a report's sections,
    judging its proposed edits, and where the last run stopped. *)

From Stdlib Require Import Ascii.
From S2P Require Import Prelude RustStd TextLemmas DreamConfig DreamFiles.
Local Open Scope stdpp_scope.

Definition REPORTS_DIR : string := ".dream/reports".
Definition APPLIED : string := "Applied".
Definition NOT_PROPOSED : string := "Not proposed (needs a human)".
Definition PROPOSED_EDITS : string := "Proposed edits".

Module Report.
Record t : Type := mk { date : Z; path : string; text : string }.
End Report.

(** ** Headings and items *)

(** [chars().take_while(P).count()] of an ASCII test *)
Fixpoint leading (P : ascii → bool) (s : string) : nat :=
  match s with String c s => if P c then S (leading P s) else 0 | EmptyString => 0 end.
Definition heading (line : string) : option (nat * string) :=
  let level := leading (Ascii.eqb "#"%char) line in
  let rest := str_drop level line in
  if (1 <=? level) && (level <=? 6) && (bool_decide (rest = "") || starts_with " " rest)
  then Some (level, trim rest) else None.
(** [lines_with_headings]: a fence opens and closes at every fence line. *)
Fixpoint with_headings (fenced : bool) (ls : list string) : list (string * option (nat * string)) :=
  match ls with
  | [] => []
  | line :: ls =>
      let t := trim_start line in
      if starts_with "```" t || starts_with "~~~" t then (line, None) :: with_headings (negb fenced) ls
      else (line, if fenced then None else heading line) :: with_headings fenced ls
  end.
Definition lines_with_headings (text : string) : list (string * option (nat * string)) := with_headings false (lines text).

(** [Report::section] *)
Fixpoint section_body (open_ : nat) (ls : list (string * option (nat * string))) : list string :=
  match ls with
  | [] => []
  | (line, Some (level, _)) :: ls => if level <=? open_ then [] else line :: section_body open_ ls
  | (line, None) :: ls => line :: section_body open_ ls
  end.
Fixpoint section_lines (title : string) (ls : list (string * option (nat * string))) : option (list string) :=
  match ls with
  | [] => None
  | (_, Some (level, text)) :: ls =>
      if String.eqb text title then Some (section_body level ls) else section_lines title ls
  | (_, None) :: ls => section_lines title ls
  end.
Definition report_section (title : string) (r : Report.t) : option string :=
  join NEWLINE <$> section_lines title (lines_with_headings (Report.text r)).

Definition list_item (line : string) : option string :=
  match omap (λ marker, strip_prefix marker line) ["- "; "* "; "+ "] with
  | rest :: _ => Some rest
  | [] =>
      let digits := leading is_ascii_digit line in
      let rest := str_drop digits line in
      if 0 <? digits
      then match strip_prefix ". " rest with Some r => Some r | None => strip_prefix ") " rest end
      else None
  end.
(** [items]: the items so far with the last one first. *)
Fixpoint items_go (acc : list string) (after_blank : bool) (ls : list string) : list string :=
  match ls with
  | [] => rev acc
  | line :: ls =>
      let trimmed := trim_start line in
      if bool_decide (trimmed = "") then items_go acc true ls
      else
        let indented := String.length trimmed <? String.length line in
        match indented, list_item trimmed, acc with
        | false, Some rest, _ => items_go (trim_end rest :: acc) false ls
        | _, _, last :: acc' =>
            if indented || negb after_blank
            then items_go ((last +:+ NEWLINE +:+ trim_end line) :: acc') false ls
            else items_go (trim_end trimmed :: acc) false ls
        | _, _, [] => items_go (trim_end trimmed :: acc) false ls
        end
  end.
Definition items (section : string) : list string := items_go [] true (lines section).

(** ** Finding a report *)

(** [strip_suffix] *)
Definition strip_suffix (p s : string) : option string :=
  if ends_with p s then Some (str_take (String.length s - String.length p) s) else None.

Section Reports.
Context {HX : RegexCrate} {HB : GlobCrate} {HD : DateCrate} {HH : DreamHost}.
Context (brain_path : string) (brain : node).

Definition date_of (name : string) : option Z :=
  stem ← strip_suffix ".md" name;
  if Nat.eqb (String.length stem) 10 then parse_date stem else None.
Definition report_path (date : Z) : string := REPORTS_DIR +:+ "/" +:+ date_display date +:+ ".md".
Definition load_report (date : Z) : result Report.t string :=
  let path := report_path date in
  match at_path brain path ≫= follow with
  | Some (File content _) => Ok (Report.mk date path content)
  | _ => Err ("reading report " +:+ path)
  end.
Definition newer (newest : option Z) (name : string) : option Z :=
  match date_of name with
  | None => newest
  | Some d => match newest with
              | Some n => if (n <? d)%Z then Some d else newest
              | None => Some d
              end
  end.
(** [Report::newest]: a missing directory is no report. *)
Definition newest_report : result (option Report.t) string :=
  match at_path brain REPORTS_DIR with
  | None => Ok None
  | Some n =>
      match read_dir n with
      | None => Err ("reading " +:+ path_join brain_path REPORTS_DIR)
      | Some entries =>
          match foldl newer None entries.*1 with
          | None => Ok None
          | Some d => let? r := load_report d in Ok (Some r)
          end
      end
  end.
(** [Report::resolve] *)
Definition named_date (arg : string) : option Z :=
  match parse_date arg with
  | Some d => Some d
  | None =>
      let '(dir, name) := default ("", arg) (rsplit_once "/"%char arg) in
      if bool_decide (dir = "") || String.eqb dir REPORTS_DIR || ends_with ("/" +:+ REPORTS_DIR) dir
      then date_of name else None
  end.
Definition resolve_report (arg : option string) : result Report.t string :=
  match arg with
  | None =>
      let? newest := newest_report in
      match newest with
      | Some r => Ok r
      | None => Err ("no reports in " +:+ REPORTS_DIR +:+ ": nothing to verify")
      end
  | Some arg =>
      match named_date arg with
      | Some d => load_report d
      | None =>
          Err ("report " +:+ debug_str arg +:+ ": expected YYYY-MM-DD, YYYY-MM-DD.md or " +:+ REPORTS_DIR
               +:+ "/YYYY-MM-DD.md")
      end
  end.
Definition apply_subject (r : Report.t) : string := "brain:dream: apply " +:+ date_display (Report.date r).
End Reports.

(** ** Proposed edits *)

Definition EDIT_RE : string := "^(E\d+)\s+(.+)$".
Definition TARGET_BLOB : string := "Target blob:".
Definition NEW : string := "new".
Definition MIN_HASH_LEN : nat := 7.
Definition RESERVED_DIRS : list string := [".git"; ".dream"].

Module Verdict.
Inductive t : Type := Ok_ | BlobMismatch | OffLimits | OutsideFolders | Missing | Malformed.
#[global] Instance eq_dec : EqDecision t.
Proof. solve_decision. Defined.
End Verdict.
Module Edit.
Record t : Type := mk {
  heading_ : string; id : option string; path : option string; target_blob : option string
}.
Definition with_blob (b : string) (e : t) : t := mk (heading_ e) (id e) (path e) (Some b).
End Edit.
Module EditVerdict.
Record t : Type := mk {
  edit : Edit.t; current_blob : option string; verdict : Verdict.t; detail : option string
}.
End EditVerdict.
Module VerifySummary.
Record t : Type := mk {
  total : nat; ok : nat; blob_mismatch : nat; off_limits : nat; outside_folders : nat; missing : nat; malformed : nat
}.
Definition empty : t := mk 0 0 0 0 0 0 0.
Definition add (v : Verdict.t) (s : t) : t :=
  let '(mk n a b c d e f) := s in
  match v with
  | Verdict.Ok_ => mk (S n) (S a) b c d e f
  | Verdict.BlobMismatch => mk (S n) a (S b) c d e f
  | Verdict.OffLimits => mk (S n) a b (S c) d e f
  | Verdict.OutsideFolders => mk (S n) a b c (S d) e f
  | Verdict.Missing => mk (S n) a b c d (S e) f
  | Verdict.Malformed => mk (S n) a b c d e (S f)
  end.
End VerifySummary.
Module VerifyReport.
Record t : Type := mk { report : string; summary : VerifySummary.t; edits : list EditVerdict.t }.
End VerifyReport.

(** [clean] *)
Definition is_mark (c : ascii) : bool := Ascii.eqb c "`"%char || is_quote c.
Definition clean (s : string) : string := trim (trim_chars is_mark (trim s)).

Section Edits.
Context {HX : RegexCrate}.

Definition edit_path (rest : string) : string :=
  let rest := trim rest in
  clean match split_once ": " rest with
        | Some (p, _) => p
        | None => default rest (strip_suffix ":" rest)
        end.
Definition edit_heading (text : string) : Edit.t :=
  match captures EDIT_RE text with
  | None => Edit.mk text None None None
  | Some c =>
      let path := edit_path (Captures.get 2 c) in
      Edit.mk text (Some (Captures.get 1 c)) (if bool_decide (path = "") then None else Some path) None
  end.
(** A line of an edit: its first [Target blob:] is kept. *)
Definition edit_line (line : string) (e : Edit.t) : Edit.t :=
  match Edit.target_blob e, strip_prefix TARGET_BLOB (trim line) with
  | None, Some v => Edit.with_blob (clean v) e
  | _, _ => e
  end.
(** The edits of an open section, of level [open_]; [current] is the edit being read. *)
Fixpoint edits_in (open_ : nat) (current : option Edit.t) (ls : list (string * option (nat * string))) : list Edit.t :=
  match ls with
  | [] => of_option current
  | (line, h) :: ls =>
      match h with
      | Some (level, t) =>
          if level <=? open_ then of_option current
          else if Nat.eqb level (open_ + 1) then of_option current ++ edits_in open_ (Some (edit_heading t)) ls
          else if Nat.eqb level (open_ + 2) then edits_in open_ current ls
          else edits_in open_ (edit_line line <$> current) ls
      | None => edits_in open_ (edit_line line <$> current) ls
      end
  end.
Fixpoint edits_of (ls : list (string * option (nat * string))) : list Edit.t :=
  match ls with
  | [] => []
  | (_, Some (level, t)) :: ls => if String.eqb t PROPOSED_EDITS then edits_in level None ls else edits_of ls
  | (_, None) :: ls => edits_of ls
  end.
Definition parse_edits (text : string) : list Edit.t := edits_of (lines_with_headings text).
End Edits.

Section Verify.
Context {HX : RegexCrate} {HB : GlobCrate} {HD : DateCrate} {HH : DreamHost}.
Context (brain_path : string) (brain : node) (cfg : Config.t).

(** [brain_relative] *)
Fixpoint plain_parts (parts : list string) : option (list string) :=
  match parts with
  | [] => Some []
  | part :: parts =>
      if bool_decide (part = "") || bool_decide (part = ".") then plain_parts parts
      else if bool_decide (part = "..") then None
      else (part ::.) <$> plain_parts parts
  end.
Definition brain_relative (path : string) : option string :=
  if starts_with "/" path || starts_with "~" path then None
  else
    parts ← plain_parts (split "/" path);
    if bool_decide (parts = []) then None else Some (join "/" parts).
Definition in_folders (rel : string) : bool :=
  match split_once "/" rel with
  | None => true
  | Some (top, _) =>
      if bool_decide (top ∈ RESERVED_DIRS) then false
      else existsb (λ f, negb (bool_decide (folder_dir f = "")) && starts_with (folder_dir f +:+ "/") rel)
             (RawConfig.folders (Config.raw cfg))
  end.
Definition check_path (path : string) : option (Verdict.t * string) :=
  match brain_relative path with
  | None => Some (Verdict.OutsideFolders, "not a brain-relative path (absolute or climbs out with `..`)")
  | Some rel =>
      if negb (in_folders rel) then Some (Verdict.OutsideFolders, "not under a folder the config lists")
      else if is_off_limits cfg rel then Some (Verdict.OffLimits, "matches an off_limits glob")
      else None
  end.

(** [symlink_metadata]: [Ok None] when there is nothing; a file on the way is an error. *)
Fixpoint stat_parts (here : node) (parts : list string) : result (option node) string :=
  match parts with
  | [] => Ok (Some here)
  | part :: parts =>
      match follow here with
      | Some (Dir entries) =>
          match entry_named part entries with Some n => stat_parts n parts | None => Ok None end
      | Some _ => Err "Not a directory (os error 20)"
      | None => Ok None
      end
  end.
Definition symlink_metadata (rel : string) : result (option node) string := stat_parts brain (split "/" rel).
Definition is_ascii_hexdigit (c : ascii) : bool :=
  is_ascii_digit c || is_ascii_lowercase (to_ascii_lowercase_char c) && (nat_of_ascii (to_ascii_lowercase_char c) <=? 102).
Definition is_new_blob (blob : string) : bool := eq_ignore_ascii_case blob NEW.
Definition is_hash (blob : string) : bool := (MIN_HASH_LEN <=? String.length blob) && all_chars is_ascii_hexdigit blob.
(** [check_blob]: the verdict, its detail and the current hash. *)
Definition check_blob (path blob : string) : result (Verdict.t * string * option string) string :=
  let is_new := is_new_blob blob in
  if negb is_new && negb (is_hash blob)
  then Ok (Verdict.Malformed, "`" +:+ TARGET_BLOB +:+ "` " +:+ debug_str blob +:+ " is neither `new` nor a hash", None)
  else
    let rel := default EmptyString (brain_relative path) in
    let? meta := in_context ("reading " +:+ rel) (symlink_metadata rel) in
    match meta with
    | None => Ok (if is_new then (Verdict.Ok_, EmptyString, None)
                  else (Verdict.Missing, "the file does not exist", None))
    | Some (File _ _) =>
        let? out := git_checked brain_path ["hash-object"; "--"; rel] in
        let hash := trim out in
        let matches := negb is_new && starts_with (to_lowercase blob) hash in
        Ok (if is_new then (Verdict.BlobMismatch, "edit is `new` but the file exists", Some hash)
            else if matches then (Verdict.Ok_, EmptyString, Some hash)
            else (Verdict.BlobMismatch, "the file changed since the report", Some hash))
    | Some _ => Ok (Verdict.BlobMismatch, "not a regular file", None)
    end.
Definition judge (edit : Edit.t) : result EditVerdict.t string :=
  let? r :=
    match Edit.path edit, Edit.target_blob edit with
    | None, _ => Ok (Verdict.Malformed, "heading is not `E<n> <path>: <change>`", None)
    | Some _, None => Ok (Verdict.Malformed, "no `" +:+ TARGET_BLOB +:+ "` line", None)
    | Some path, Some blob =>
        match check_path path with
        | Some (v, d) => Ok (v, d, None)
        | None => check_blob path blob
        end
    end in
  let '(verdict, detail, current) := r in
  Ok (EditVerdict.mk edit current verdict (if bool_decide (verdict = Verdict.Ok_) then None else Some detail)).
Definition verify (r : Report.t) : result VerifyReport.t string :=
  let? edits := collect_results (judge <$> parse_edits (Report.text r)) in
  Ok (VerifyReport.mk (Report.path r)
        (foldl (λ s v, VerifySummary.add (EditVerdict.verdict v) s) VerifySummary.empty edits) edits).

(** ** Status *)

Definition DREAM_PREFIX : string := ".dream/".
Record ReportStatus : Type := mkReportStatus {
  st_path : string; st_date : string; applied_section : bool; st_apply_subject : string;
  apply_commit : option string; not_proposed : list string
}.
Record StatusReport : Type := mkStatusReport {
  st_report : option ReportStatus; uncommitted_dream : list string; uncommitted_other : list string
}.
Definition commit_with_subject (subject : string) : result (option string) string :=
  match git brain_path ["rev-parse"; "--verify"; "--quiet"; "HEAD"] with
  | None => Ok None
  | Some _ =>
      let? log := git_checked brain_path
                    ["log"; "--fixed-strings"; "--grep=" +:+ subject; "--format=%H %s"; "HEAD"] in
      Ok (head (omap (λ l, match split_once " " l with
                           | Some (hash, s) => if String.eqb s subject then Some hash else None
                           | None => None
                           end) (lines log)))
  end.
Definition NUL : string := String (ascii_of_nat 0) EmptyString.
(** [split_at_checked(3)] *)
Definition split_at_three (s : string) : option (string * string) :=
  if (3 <=? String.length s) && is_char_boundary s 3 then Some (str_take 3 s, str_drop 3 s) else None.
(** [porcelain_paths]: the field after a rename or a copy is its original path. *)
Fixpoint porcelain_fields (original : bool) (fields : list string) : list string :=
  match fields with
  | [] => []
  | entry :: fields =>
      if original then entry :: porcelain_fields false fields
      else
        match split_at_three entry with
        | None => porcelain_fields false fields
        | Some (code, path) => path :: porcelain_fields (starts_with "R" code || starts_with "C" code) fields
        end
  end.
Definition porcelain_paths (out : string) : list string :=
  porcelain_fields false (filter (λ f, f ≠ "") (split NUL out)).
Definition uncommitted : result (list string * list string) string :=
  let? out := git_checked brain_path ["status"; "--porcelain=v1"; "-z"; "--untracked-files=all"] in
  let paths := porcelain_paths out in
  Ok (order_by String.le (filter (λ p, starts_with DREAM_PREFIX p = true) paths),
      order_by String.le (filter (λ p, starts_with DREAM_PREFIX p = false) paths)).
Definition report_status (r : Report.t) : result ReportStatus string :=
  let subject := apply_subject r in
  let? commit := commit_with_subject subject in
  Ok (mkReportStatus (Report.path r) (date_display (Report.date r))
        (bool_decide (is_Some (report_section APPLIED r))) subject commit
        (match report_section NOT_PROPOSED r with Some s => items s | None => [] end)).
Definition status : result StatusReport string :=
  let? u := uncommitted in
  let? newest := newest_report brain_path brain in
  match newest with
  | None => Ok (mkStatusReport None u.1 u.2)
  | Some r => let? st := report_status r in Ok (mkStatusReport (Some st) u.1 u.2)
  end.
End Verify.
