(* ===== verification/DreamProps.v ===== *)
(** * Brain maintenance: what its commands guarantee

    An edit that passes the check before it is applied stays inside the folders of the
    brain and applies to the text it was written for; review intervals stay bounded and
    a reviewed document is not due again at once; a stream is promoted only when all its
    references are done. *)

From Stdlib Require Import Ascii.
From S2P Require Import Prelude RustStd TextLemmas DreamConfig DreamFiles DreamRefs DreamReview DreamReport.
Local Open Scope stdpp_scope.

(** ** The check of a report's edits *)

(** A path's parts name something below the directory they start from. *)
Definition plain_part (part : string) : Prop := part ≠ "" ∧ part ≠ "." ∧ part ≠ "..".
Lemma plain_parts_plain parts parts' : plain_parts parts = Some parts' → Forall plain_part parts'.
Proof.
  revert parts'. induction parts as [|p parts IH]; intros parts'; simpl; [by intros [= <-]|].
  destruct (bool_decide (p = "") || bool_decide (p = ".")) eqn:E; [by apply IH|].
  apply orb_false_iff in E as [E1%bool_decide_eq_false E2%bool_decide_eq_false].
  case_bool_decide as E3; [done|]. intros (l & Hl & ->)%fmap_Some. constructor; [done|by apply IH].
Qed.

Section Verify.
Context {HX : RegexCrate} {HB : GlobCrate} {HD : DateCrate} {HH : DreamHost}.
Context (brain_path : string) (brain : node) (cfg : Config.t).
Local Abbreviation judge := (judge brain_path brain cfg).
Local Abbreviation verify := (verify brain_path brain cfg).

(** What may be edited: a file below the brain, at its top or in a listed folder and in none
    of its own, and not off limits. *)
Record editable (path rel : string) : Prop := {
  ed_relative : brain_relative path = Some rel;
  ed_below : ∃ parts, rel = join "/" parts ∧ parts ≠ [] ∧ Forall plain_part parts;
  ed_listed : split_once "/" rel = None ∨
    ∃ top rest f, split_once "/" rel = Some (top, rest) ∧ top ∉ RESERVED_DIRS
      ∧ f ∈ RawConfig.folders (Config.raw cfg) ∧ folder_dir f ≠ "" ∧ starts_with (folder_dir f +:+ "/") rel = true;
  ed_limits : Forall (λ p, glob_matches p rel = false) (Config.off_limits cfg)
}.
(** The text an edit was written for is still there: nothing, or a file of that hash. *)
Definition current_text (rel blob : string) : Prop :=
  (is_new_blob blob = true ∧ symlink_metadata brain rel = Ok None) ∨
  (is_hash blob = true ∧ ∃ content time out, symlink_metadata brain rel = Ok (Some (File content time))
     ∧ git_checked brain_path ["hash-object"; "--"; rel] = Ok out ∧ starts_with (to_lowercase blob) (trim out) = true).
Definition applicable (e : Edit.t) : Prop :=
  ∃ path blob rel, Edit.path e = Some path ∧ Edit.target_blob e = Some blob ∧ editable path rel ∧ current_text rel blob.

Lemma check_path_editable path : check_path cfg path = None → ∃ rel, editable path rel.
Proof.
  unfold check_path. destruct (brain_relative path) as [rel|] eqn:Hrel; [|done].
  destruct (in_folders cfg rel) eqn:Hin; [|done]. destruct (is_off_limits cfg rel) eqn:Hoff; [done|]. intros _.
  exists rel. constructor; [done|..].
  - revert Hrel. unfold brain_relative. case_match; [done|].
    destruct (plain_parts (split "/" path)) as [parts|] eqn:Hp; [|done]. simpl. case_bool_decide; [done|].
    intros [= <-]. exists parts. split_and!; [done..|by eapply plain_parts_plain].
  - unfold in_folders in Hin. destruct (split_once "/" rel) as [[top rest]|]; [right|by left].
    case_bool_decide as Ht; [done|]. apply existsb_exists in Hin as (f & Hf & [Hd Hs]%andb_true_iff).
    exists top, rest, f. split_and!; [done..|by apply list_elem_of_In| |done].
    by apply negb_true_iff, bool_decide_eq_false in Hd.
  - apply Forall_forall. intros p Hp. destruct (glob_matches p rel) eqn:Hm; [|done].
    assert (is_off_limits cfg rel = true) as ?; [|congruence].
    apply existsb_exists. exists p. split; [by apply list_elem_of_In|done].
Qed.
Lemma check_blob_current path rel blob d c : brain_relative path = Some rel →
  check_blob brain_path brain path blob = Ok (Verdict.Ok_, d, c) → current_text rel blob.
Proof.
  intros Hrel. unfold check_blob, in_context, current_text. rewrite Hrel. simpl.
  destruct (is_new_blob blob) eqn:Hn; simpl.
  - destruct (symlink_metadata brain rel) as [[[| |]|]|]; try done; [|by left].
    by destruct (git_checked _ _).
  - destruct (is_hash blob) eqn:Hh; simpl; [|done].
    destruct (symlink_metadata brain rel) as [[[content time| |]|]|]; try done.
    destruct (git_checked brain_path ["hash-object"; "--"; rel]) as [out|] eqn:Hg; [|done].
    destruct (starts_with (to_lowercase blob) (trim out)) eqn:Hs; [|done]. intros _. right.
    split; [done|]. by exists content, time, out.
Qed.
Lemma judge_applicable e v : judge e = Ok v → EditVerdict.edit v = e ∧ (EditVerdict.verdict v = Verdict.Ok_ → applicable e).
Proof.
  unfold DreamReport.judge, applicable.
  destruct (Edit.path e) as [path|] eqn:Hp; [|by intros [= <-]].
  destruct (Edit.target_blob e) as [blob|] eqn:Hb; [|by intros [= <-]].
  destruct (check_path cfg path) as [[v0 d]|] eqn:Hc.
  - intros [= <-]. split; [done|]. simpl. intros ->. revert Hc. unfold check_path.
    by repeat case_match.
  - destruct (check_path_editable path Hc) as (rel & Hrel).
    destruct (check_blob brain_path brain path blob) as [[[v0 d] c]|] eqn:Hk; [|done].
    intros [= <-]. split; [done|]. simpl. intros ->. exists path, blob, rel. split_and!; [done..|].
    eapply check_blob_current; [by apply ed_relative|done].
Qed.

Lemma summary_counts (l : list EditVerdict.t) s :
  let s' := foldl (λ s v, VerifySummary.add (EditVerdict.verdict v) s) s l in
  VerifySummary.total s' = VerifySummary.total s + length l ∧
  VerifySummary.ok s' = VerifySummary.ok s + length (filter (λ v, EditVerdict.verdict v = Verdict.Ok_) l).
Proof.
  revert s. induction l as [|v l IH]; intros s; simpl; [lia|].
  destruct (IH (VerifySummary.add (EditVerdict.verdict v) s)) as [-> ->]. destruct s. rewrite filter_cons.
  destruct (EditVerdict.verdict v) eqn:E; case_decide; try congruence; simpl; lia.
Qed.

(** C29: When a report verifies, every edit that was found is judged, in its order, and the
    summary counts them; and an edit judged [ok] can be applied: its path stays below the
    brain, at its top or in a folder the config lists, never in [.git] or [.dream], matches no
    off-limits glob, and the text it was written for is what is there now, a file that does not
    exist for a new one. *)
Theorem verify_ok_applicable r rep : verify r = Ok rep →
  EditVerdict.edit <$> VerifyReport.edits rep = parse_edits (Report.text r)
  ∧ VerifySummary.total (VerifyReport.summary rep) = length (parse_edits (Report.text r))
  ∧ VerifySummary.ok (VerifyReport.summary rep)
    = length (filter (λ v, EditVerdict.verdict v = Verdict.Ok_) (VerifyReport.edits rep))
  ∧ ∀ v, v ∈ VerifyReport.edits rep → EditVerdict.verdict v = Verdict.Ok_ → applicable (EditVerdict.edit v).
Proof.
  unfold DreamReport.verify.
  destruct (collect_results (judge <$> parse_edits (Report.text r))) as [edits|] eqn:Hc; [|done].
  intros [= <-]. simpl. apply collect_results_Ok in Hc.
  assert (EditVerdict.edit <$> edits = parse_edits (Report.text r) ∧
    ∀ v, v ∈ edits → EditVerdict.verdict v = Verdict.Ok_ → applicable (EditVerdict.edit v)) as [He Ha].
  { clear -Hc. revert Hc. generalize (parse_edits (Report.text r)). induction edits as [|v edits IH]; intros [|e es];
      try done; simpl; intros Hc.
    - split; [done|]. by intros v ?%not_elem_of_nil.
    - injection Hc as Hv Hc. destruct (judge_applicable e v Hv) as [<- Hok]. destruct (IH es Hc) as [E Ha].
      split; [exact (f_equal (cons (EditVerdict.edit v)) E)|]. intros w [->|Hw]%elem_of_cons; auto. }
  destruct (summary_counts edits VerifySummary.empty) as [Ht Ho]. rewrite Ht, Ho.
  split_and!; [done| |done|done]. by rewrite <- He, length_fmap.
Qed.

(** Fences that nest: the fence inside closes the outer one for this reader, and a heading
    of the inner text then ends the section, so whatever edits follow are never judged. *)
Lemma nested_fence_hides rest :
  edits_of (with_headings false
    (["## Proposed edits"; "### E1 notes/a.md: new page"; "Target blob: new"; "````"; "```"; "## Usage"] ++ rest))
  = [Edit.with_blob "new" (edit_heading "E1 notes/a.md: new page")].
Proof.
  transitivity [edit_line "```" (edit_line "````" (edit_line "Target blob: new" (edit_heading "E1 notes/a.md: new page")))];
    [reflexivity|].
  assert (Edit.target_blob (edit_heading "E1 notes/a.md: new page") = None) as Hn by (unfold edit_heading; by case_match).
  unfold edit_line at 3. by rewrite Hn.
Qed.
End Verify.

(** ** Reviews *)

Section Reviews.
Context {HX : RegexCrate} {HB : GlobCrate} {HD : DateCrate} {HH : DreamHost}.
Context (brain_path : string) (brain : node) (cfg : Config.t).
Context (Hcfg : review_ok (review_config cfg) = true).
Local Abbreviation lo := (Review.min_days (review_config cfg)).
Local Abbreviation hi := (Review.max_days (review_config cfg)).
Local Abbreviation reviewed := (reviewed cfg).

Lemma review_bounds : (0 < lo ≤ hi)%Z.
Proof. revert Hcfg. unfold review_ok. intros [[?%Z.leb_le ?%Z.leb_le]%andb_true_iff ?%Z.ltb_lt]%andb_true_iff. lia. Qed.
Lemma clamp_bounds a b z : (a ≤ b)%Z → (a ≤ clamp a b z ≤ b)%Z.
Proof. unfold clamp. lia. Qed.
Lemma as_i64_small z : (I64_MIN <= z <= I64_MAX)%Z → as_i64 z = z.
Proof. unfold as_i64, I64_MIN, I64_MAX. intros Hz. rewrite Z.mod_small; lia. Qed.

Lemma new_history_spec prev e :
  length (new_history prev e) ≤ HISTORY_LIMIT ∧ last (new_history prev e) = Some e.
Proof.
  unfold new_history. set (h := match prev with Some p => ReviewRecord.history p | None => [] end).
  rewrite length_drop, length_app. simpl. unfold HISTORY_LIMIT. split; [lia|].
  rewrite drop_app_le by lia. by rewrite last_snoc.
Qed.

(** A document that is reviewed again and again and found unchanged. *)
Fixpoint unchanged_times (n : nat) (r : ReviewRecord.t) (note : option string) : ReviewRecord.t :=
  match n with
  | 0 => r
  | S n => unchanged_times n (reviewed (Some r) (Finding.mk Outcome.Unchanged note ∅)) note
  end.
Lemma unchanged_doubles r note : (hi <= 4611686018427387903)%Z → (lo <= ReviewRecord.interval_days r <= hi)%Z →
  ReviewRecord.interval_days (reviewed (Some r) (Finding.mk Outcome.Unchanged note ∅))
  = Z.min hi (ReviewRecord.interval_days r * 2).
Proof.
  intros Hh Hr. pose proof review_bounds. unfold DreamReview.reviewed, next_interval. cbn.
  rewrite as_i64_small by (unfold I64_MIN, I64_MAX; lia). unfold clamp. lia.
Qed.
Lemma unchanged_reaches n r note : (hi <= 4611686018427387903)%Z → (lo <= ReviewRecord.interval_days r <= hi)%Z →
  (hi < ReviewRecord.interval_days r * 2 ^ Z.of_nat n)%Z →
  ReviewRecord.interval_days (unchanged_times n r note) = hi.
Proof.
  intros Hh. revert r. induction n as [|n IH]; intros r Hr Hn; simpl; [lia|].
  pose proof review_bounds as Hb. pose proof (unchanged_doubles r note Hh Hr) as Hd.
  destruct (decide (ReviewRecord.interval_days r * 2 <= hi)%Z) as [Hle|Hgt].
  - apply IH; rewrite Hd; [lia|]. rewrite Z.min_r by done. rewrite Nat2Z.inj_succ, Z.pow_succ_r in Hn by lia. lia.
  - assert (ReviewRecord.interval_days (reviewed (Some r) (Finding.mk Outcome.Unchanged note ∅)) = hi) as Hm
      by (rewrite Hd; lia).
    clear IH Hn Hd Hr. revert Hm. generalize (reviewed (Some r) (Finding.mk Outcome.Unchanged note ∅)).
    clear r Hgt. induction n as [|n IH]; intros r Hm; [done|]. simpl. apply IH.
    rewrite unchanged_doubles; [|done|]; rewrite Hm; lia.
Qed.

(** Review intervals.  Whatever is stored, a review leaves an interval within the
    configured bounds and a history of at most twenty entries that ends with it; an unchanged
    document's interval doubles and a changed one's halves, within the bounds; and a document
    that stays unchanged reaches the longest interval after at most 62 more reviews. *)
Theorem review_intervals prev r finding note : (hi <= 4611686018427387903)%Z →
  (lo <= ReviewRecord.interval_days r <= hi)%Z →
  let rec := reviewed prev finding in
  (lo <= ReviewRecord.interval_days rec <= hi)%Z ∧ length (ReviewRecord.history rec) ≤ HISTORY_LIMIT
  ∧ ReviewEntry.outcome <$> last (ReviewRecord.history rec) = Some (Finding.outcome finding)
  ∧ ReviewRecord.interval_days (reviewed (Some r) finding)
    = match Finding.outcome finding with
      | Outcome.Unchanged => Z.min hi (2 * ReviewRecord.interval_days r)
      | Outcome.Changed => Z.max lo (ReviewRecord.interval_days r / 2)
      end
  ∧ ∃ n, n ≤ 62 ∧ ReviewRecord.interval_days (unchanged_times n r note) = hi.
Proof.
  intros Hh Hr. pose proof review_bounds as Hb. cbv zeta.
  destruct (new_history_spec prev (ReviewEntry.mk (date_display today) (Finding.outcome finding)
    (Finding.note finding) (Finding.at_ finding))) as [Hlen Hlast].
  split; [apply clamp_bounds; lia|]. split; [exact Hlen|]. split; [cbn; by rewrite Hlast|]. split.
  - unfold DreamReview.reviewed, next_interval. cbn. destruct (Finding.outcome finding).
    + rewrite as_i64_small by (unfold I64_MIN, I64_MAX; lia). unfold clamp. lia.
    + rewrite Z.quot_div_nonneg by lia. unfold clamp.
      assert (ReviewRecord.interval_days r / 2 <= ReviewRecord.interval_days r)%Z by (apply Z.div_le_upper_bound; lia). lia.
  - exists 62. split; [lia|]. apply unchanged_reaches; [done..|].
    apply Z.lt_le_trans with (1 * 2 ^ Z.of_nat 62)%Z; [simpl; lia|]. apply Z.mul_le_mono_nonneg_r; lia.
Qed.
End Reviews.

(** *** The schedule *)

#[local] Instance more_due_total : Total more_due.
Proof.
  intros a b. unfold more_due. destruct (Z.lt_total (DocReview.overdue_days a) (DocReview.overdue_days b)) as [?|[?|?]];
    [by right; left| |by left; left].
  destruct (total String.le (DocReview.file a) (DocReview.file b)); [left|right]; by right.
Qed.
#[local] Instance more_due_trans : Transitive more_due.
Proof.
  intros a b c. unfold more_due. intros [?|[? H1]] [?|[? H2]]; [left; lia..|].
  right. split; [congruence|]. by etrans.
Qed.

(** The first [n] that satisfy [P] of a sorted list. *)
Lemma first_of_sorted {A} (R : relation A) (P : A → Prop) `{!∀ x, Decision (P x)} n l : StronglySorted R l →
  let t := take n (filter P l) in
  length t ≤ n ∧ (∀ x, x ∈ t → x ∈ l ∧ P x)
  ∧ ∀ y, y ∈ l → P y → y ∉ t → length t = n ∧ ∀ x, x ∈ t → R x y.
Proof.
  intros Hs t.
  pose proof (StronglySorted_filter R P l Hs) as Hf.
  pose proof (take_drop n (filter P l)) as Htd. fold t in Htd.
  split; [unfold t; rewrite length_take; lia|]. split.
  - intros x Hx. apply and_comm. apply (proj1 (list_elem_of_filter P l x)). rewrite <- Htd. apply elem_of_app. by left.
  - intros y Hy HP Hn.
    assert (y ∈ drop n (filter P l)) as Hd.
    { assert (y ∈ filter P l) as Hy' by by apply list_elem_of_filter.
      rewrite <- Htd in Hy'. by apply elem_of_app in Hy' as [?|?]. }
    split.
    + unfold t. rewrite length_take. assert (length (drop n (filter P l)) ≠ 0) as Hl.
      { intros H0. apply length_zero_iff_nil in H0. rewrite H0 in Hd. by apply not_elem_of_nil in Hd. }
      rewrite length_drop in Hl. lia.
    + intros x Hx. rewrite <- Htd in Hf. clear -Hf Hx Hd. induction t as [|z t IH]; [by apply not_elem_of_nil in Hx|].
      apply StronglySorted_inv in Hf as [Hf Hz]. apply elem_of_cons in Hx as [->|Hx]; [|by apply IH].
      apply (proj1 (Forall_forall _ _) Hz), elem_of_app. by right.
Qed.

Section Schedule.
Context {HX : RegexCrate} {HB : GlobCrate} {HD : DateCrate} {HH : DreamHost} {HL : LawfulDate}.
Context (brain_path : string) (brain : node) (cfg : Config.t).
Context (Hcfg : review_ok (review_config cfg) = true).
Local Abbreviation doc_review := (doc_review brain_path brain cfg).
Local Abbreviation schedule := (schedule brain_path brain cfg).

Lemma record_each_spec state files finding recs state' : NoDup files →
  record_each brain cfg state files finding = Ok (recs, state') →
  ∀ g, State.reviews state' !! g =
    if decide (g ∈ files) then Some (reviewed cfg (State.reviews state !! g) finding) else State.reviews state !! g.
Proof.
  intros Hnd. revert state recs state'. induction Hnd as [|f files Hf Hnd IH]; intros state recs state'; simpl.
  { by intros [= <- <-] g. }
  unfold record_review. destruct (negb _); [done|].
  destruct (record_each brain cfg _ files finding) as [[recs' state2]|] eqn:E; [|done].
  intros [= <- <-] g. rewrite (IH _ _ _ E). simpl. destruct (decide (g = f)) as [->|Hg].
  - rewrite decide_False by done. rewrite decide_True by left. by rewrite lookup_insert_eq.
  - rewrite lookup_insert_ne by done. destruct (decide (g ∈ files)).
    + by rewrite decide_True by by right.
    + rewrite decide_False; [done|]. by intros [?|?]%elem_of_cons.
Qed.
Lemma record_all_spec state files finding recs state' :
  record_all brain cfg state files finding = Ok (recs, state') →
  ∀ g, State.reviews state' !! g =
    if decide (g ∈ files) then Some (reviewed cfg (State.reviews state !! g) finding) else State.reviews state !! g.
Proof.
  unfold record_all. destruct (List.find _ files); [done|]. intros E g.
  assert (∀ x, x ∈ in_order_set (list_to_set files) ↔ x ∈ files) as Hin.
  { intros x. unfold in_order_set. by rewrite elem_of_order_by, elem_of_elements, elem_of_list_to_set. }
  assert (NoDup (in_order_set (list_to_set files))) as Hnd.
  { unfold in_order_set. rewrite order_by_perm. apply NoDup_elements. }
  rewrite (record_each_spec _ _ _ _ _ Hnd E g).
  destruct (decide (g ∈ files)) as [Hg|Hg].
  - by rewrite decide_True by by apply Hin.
  - rewrite decide_False; [done|]. by intros ?%Hin.
Qed.

Lemma doc_reviewed state inits g prev finding :
  State.reviews state !! g = Some (reviewed cfg prev finding) →
  DocReview.due (doc_review state inits g) = (today + ReviewRecord.interval_days (reviewed cfg prev finding))%Z
  ∧ (DocReview.overdue_days (doc_review state inits g) < 0)%Z.
Proof.
  intros Hg. unfold DreamReview.doc_review. rewrite Hg. cbn [mbind option_bind].
  change (ReviewRecord.last_reviewed (reviewed cfg prev finding)) with (date_display today).
  rewrite parse_display. cbn.
  pose proof (review_bounds cfg Hcfg) as Hb.
  pose proof (clamp_bounds (Review.min_days (review_config cfg)) (Review.max_days (review_config cfg))
    match Finding.outcome finding, prev with
    | Outcome.Unchanged, None => Review.initial_days (review_config cfg)
    | Outcome.Unchanged, Some _ =>
        as_i64 (match prev with Some p => ReviewRecord.interval_days p | None => Review.initial_days (review_config cfg) end * 2)
    | Outcome.Changed, _ =>
        Z.quot match prev with Some p => ReviewRecord.interval_days p | None => Review.initial_days (review_config cfg) end 2
    end ltac:(lia)) as Hc.
  change (clamp _ _ _) with (ReviewRecord.interval_days (reviewed cfg prev finding)) in Hc.
  unfold DreamReview.reviewed in *. cbn in Hc |- *. lia.
Qed.

(** The review schedule.  At most [per_run] documents are picked, each under review and
    due, and a due document that is not picked is no more overdue than any that is, and the run
    is full; after reviews are recorded, each document once however often it is named, none of
    them is picked again that day and it is due after its new interval, while the other
    documents' records are as they were. *)
Theorem schedule_spec state files finding recs state' :
  record_all brain cfg state files finding = Ok (recs, state') →
  let docs := ReviewReport.docs (schedule state) in
  let pick := ReviewReport.pick (schedule state) in
  (docs ≡ₚ doc_review state (init_commits brain_path) <$> durable_docs brain cfg)
  ∧ (∃ t, pick = DocReview.file <$> t ∧ length t ≤ Z.to_nat (Review.per_run (review_config cfg))
      ∧ (∀ d, d ∈ t → d ∈ docs ∧ (0 <= DocReview.overdue_days d)%Z)
      ∧ ∀ d, d ∈ docs → (0 <= DocReview.overdue_days d)%Z → d ∉ t →
          length t = Z.to_nat (Review.per_run (review_config cfg))
          ∧ ∀ d', d' ∈ t → (DocReview.overdue_days d <= DocReview.overdue_days d')%Z)
  ∧ (∀ f, f ∈ files → f ∈ durable_docs brain cfg ∧ f ∉ ReviewReport.pick (schedule state')
      ∧ State.reviews state' !! f = Some (reviewed cfg (State.reviews state !! f) finding)
      ∧ DocReview.due (doc_review state' (init_commits brain_path) f)
        = (today + ReviewRecord.interval_days (reviewed cfg (State.reviews state !! f) finding))%Z)
  ∧ (∀ f, f ∉ files → State.reviews state' !! f = State.reviews state !! f).
Proof.
  intros Hr docs pick. split; [unfold docs, DreamReview.schedule, review_docs; apply order_by_perm|]. split.
  - destruct (first_of_sorted more_due (λ d, (0 <= DocReview.overdue_days d)%Z)
      (Z.to_nat (Review.per_run (review_config cfg))) docs) as (Hl & Hin & Hout); [apply order_by_sorted; apply _|].
    eexists. split; [reflexivity|]. split_and!; [done..|].
    intros d Hd Hdue Hn. destruct (Hout d Hd Hdue Hn) as [? Hx]. split; [done|].
    intros d' Hd'. destruct (Hx d' Hd') as [?|[? _]]; lia.
  - pose proof (record_all_spec _ _ _ _ _ Hr) as Hs. split; intros f Hf; specialize (Hs f).
    + rewrite decide_True in Hs by done. destruct (doc_reviewed state' (init_commits brain_path) f _ _ Hs) as [Hd Ho].
      split; [|split; [|done]].
      * unfold record_all in Hr. destruct (List.find _ files) eqn:E; [done|].
        pose proof (List.find_none _ _ E f (proj1 (list_elem_of_In _ _) Hf)) as Hn.
        by apply negb_false_iff, bool_decide_eq_true in Hn.
      * unfold DreamReview.schedule, picks. cbn [ReviewReport.pick].
        intros (d & -> & Hd')%list_elem_of_fmap.
        assert (d ∈ review_docs brain_path brain cfg state' ∧ (0 <= DocReview.overdue_days d)%Z) as [Hin Hdue].
        { destruct (first_of_sorted more_due (λ d, (0 <= DocReview.overdue_days d)%Z)
            (Z.to_nat (Review.per_run (review_config cfg))) (review_docs brain_path brain cfg state'))
            as (_ & Hin & _); [apply order_by_sorted; apply _|exact (Hin d Hd')]. }
        unfold review_docs in Hin. rewrite elem_of_order_by in Hin. apply list_elem_of_fmap in Hin as (f & -> & _).
        change (DocReview.file (doc_review state' (init_commits brain_path) f)) with f in Ho. lia.
    + by rewrite decide_False in Hs.
Qed.
End Schedule.

(** ** Checks and candidates *)

Section Candidates.
Context {HX : RegexCrate} {HB : GlobCrate} {HD : DateCrate} {HH : DreamHost}.
Context (brain_path : string) (brain : node) (cfg : Config.t).

(** What the cache knows of a reference: nothing, when it was never checked. *)
Definition done_in (state : State.t) (r : Ref.t) : option bool := State.refs state !! Ref.key r ≫= RefState.done.
Definition quiet_for (threshold : Z) (s : Stream.t) : Prop := ∃ d, Stream.quiet_days s = Some d ∧ (threshold <= d)%Z.

Lemma ref_state_done state rs : rs_done (ref_state state rs) = done_in state rs.1.
Proof. unfold ref_state, done_in. by destruct (State.refs state !! Ref.key rs.1). Qed.
Lemma tagged_refs s r : (∃ src, (r, src) ∈ tagged s) ↔ r ∈ refs_of s.
Proof.
  unfold tagged, refs_of. rewrite elem_of_app. setoid_rewrite elem_of_app. setoid_rewrite list_elem_of_fmap.
  split.
  - by intros (src & [(x & [= -> ->] & ?)|(x & [= -> ->] & ?)]); [left|right].
  - intros [?|?]; [exists Recorded; left|exists Discovered; right]; by exists r.
Qed.
Lemma all_tagged s (P : Ref.t → Prop) : (∀ rs, rs ∈ tagged s → P rs.1) ↔ (∀ r, r ∈ refs_of s → P r).
Proof.
  split; intros Hp.
  - intros r (src & Hr)%tagged_refs. exact (Hp _ Hr).
  - intros [r src] Hr. apply Hp, tagged_refs. by exists src.
Qed.

Lemma classify_stream_spec s state threshold :
  (classification (classify_stream s state threshold) = Blocked ↔ ∃ r, r ∈ refs_of s ∧ done_in state r = None) ∧
  (classification (classify_stream s state threshold) = Candidate ↔
     refs_of s ≠ [] ∧ quiet_for threshold s ∧ ∀ r, r ∈ refs_of s → done_in state r = Some true).
Proof.
  assert (Hnone : ∀ l : list StreamRefState, ((λ r, (rs_key r, rs_state r)) <$> filter (λ r, rs_done r = None) l = []) ↔
    ∀ x, x ∈ l → rs_done x ≠ None).
  { intros l. split.
    - intros Hf%fmap_nil_inv x Hx Hd. assert (x ∈ filter (λ r, rs_done r = None) l) as Hi by by apply list_elem_of_filter.
      rewrite Hf in Hi. by apply not_elem_of_nil in Hi.
    - intros Hx. destruct (filter _ l) as [|x l'] eqn:E; [done|]. exfalso.
      assert (x ∈ filter (λ r, rs_done r = None) l) as [Hd Hi]%list_elem_of_filter by (rewrite E; by left).
      by apply (Hx x). }
  assert (Hmem : ∀ P : option bool → Prop, (∀ x, x ∈ ref_state state <$> tagged s → P (rs_done x)) ↔
    ∀ r, r ∈ refs_of s → P (done_in state r)).
  { intros P. rewrite <- (all_tagged s (λ r, P (done_in state r))). split.
    - intros Hx rs Hr. rewrite <- ref_state_done. apply Hx, list_elem_of_fmap. by exists rs.
    - intros Hx x (rs & -> & Hr)%list_elem_of_fmap. rewrite ref_state_done. by apply Hx. }
  assert (Hq : (match Stream.quiet_days s with Some d => (threshold <=? d)%Z | None => false end) = true ↔ quiet_for threshold s).
  { unfold quiet_for. destruct (Stream.quiet_days s) as [d|]; [rewrite Z.leb_le|]; naive_solver. }
  assert (Hall : forallb (λ r, bool_decide (rs_done r = Some true)) (ref_state state <$> tagged s) = true ↔
    ∀ r, r ∈ refs_of s → done_in state r = Some true).
  { rewrite forallb_forall, <- (Hmem (λ o, o = Some true)).
    split; intros Hx x Hi.
    - exact (proj1 (bool_decide_eq_true _) (Hx x (proj1 (list_elem_of_In _ _) Hi))).
    - apply bool_decide_eq_true, Hx. by apply list_elem_of_In. }
  assert (Hlen : length (ref_state state <$> tagged s) = 0 ↔ refs_of s = []).
  { unfold refs_of, tagged. rewrite length_fmap, length_app, !length_fmap.
    destruct (Stream.recorded_refs s), (Stream.discovered_refs s); simpl; split; intros; try lia; done. }
  unfold classify_stream. cbn [classification].
  set (bl := _ <$> filter _ _). specialize (Hnone (ref_state state <$> tagged s)). fold bl in Hnone.
  rewrite (Hmem (λ o, o ≠ None)) in Hnone.
  case_bool_decide as Hbl; cbn [negb].
  - pose proof (proj1 Hnone Hbl) as Hno. split.
    { split; [|intros (r & Hr & Hd); by destruct (Hno r Hr)]. repeat case_match; done. }
    case_bool_decide as Hl.
    { split; [by destruct (match Stream.quiet_days s with Some d => _ | None => false end)|].
      intros [Hne _]. by apply Hlen in Hl. }
    rewrite Hlen in Hl. rewrite <- Hq, <- Hall. split; [|intros (_ & -> & ->); done].
    destruct (match Stream.quiet_days s with Some d => _ | None => false end), (forallb _ _); done.
  - split.
    { split; [|done]. intros _. destruct (decide (Exists (λ r, done_in state r = None) (refs_of s))) as [He|He].
      - by apply Exists_exists in He.
      - exfalso. apply Hbl, Hnone. intros r Hr Hd. apply He, Exists_exists. eauto. }
    split; [done|]. intros (_ & _ & Hd). exfalso. apply Hbl, Hnone. intros r Hr. by rewrite (Hd r Hr).
Qed.

(** The references that are checked: one for every reference of an active stream. *)
Lemma add_active_keys out s k r : (∀ k r, out !! k = Some r → Ref.key r = k) →
  add_active out s !! k = Some r → Ref.key r = k.
Proof.
  intros Hout. unfold add_active. destruct (Stream.is_active s); [|apply Hout].
  revert out Hout. induction (refs_of s) as [|x l IH]; intros out Hout; [apply Hout|]. simpl. apply IH.
  intros k' r'. rewrite lookup_insert_Some. intros [[<- <-]|[_ ?]]; [done|by apply Hout].
Qed.
Lemma foldl_insert_dom (l : list Ref.t) (out : gmap string Ref.t) k :
  is_Some (foldl (λ out r, <[Ref.key r := r]> out) out l !! k) ↔ is_Some (out !! k) ∨ ∃ r, r ∈ l ∧ Ref.key r = k.
Proof.
  revert out. induction l as [|x l IH]; intros out; simpl.
  { split; [by left|]. intros [?|(r & Hr & _)]; [done|by apply not_elem_of_nil in Hr]. }
  rewrite IH, lookup_insert_is_Some. setoid_rewrite elem_of_cons. split.
  - intros [[Hk|[_ Hk]]|(r & Hr & Hk)]; [right; exists x; auto|by left|right; exists r; auto].
  - intros [Hk|(r & [->|Hr] & Hk)]; [|left; by left|right; eauto].
    destruct (decide (Ref.key x = k)); left; [by left|by right].
Qed.
Lemma active_refs_cover name s r : RefsReport.streams (scan brain_path brain cfg) !! name = Some s →
  Stream.is_active s = true → r ∈ refs_of s →
  ∃ r', r' ∈ RefsReport.active_refs (scan brain_path brain cfg) ∧ Ref.key r' = Ref.key r.
Proof.
  unfold scan. cbn [RefsReport.streams RefsReport.active_refs].
  set (found := _ <$> streams brain cfg). intros Hs Ha Hr.
  apply elem_of_list_to_map_2 in Hs. rewrite list_elem_of_In, <- in_rev, <- list_elem_of_In in Hs.
  assert (s ∈ found.*2) as Hin by (apply list_elem_of_fmap; by exists (name, s)).
  assert (∀ out, (∀ k r, out !! k = Some r → Ref.key r = k) →
    (∀ k r, foldl add_active out found.*2 !! k = Some r → Ref.key r = k)
    ∧ is_Some (foldl add_active out found.*2 !! Ref.key r)) as Hf.
  { assert (Hmono : ∀ l out k, is_Some (out !! k) → is_Some (foldl add_active out l !! k)).
    { intros l. induction l as [|x l IH]; intros out k Hk; [done|]. simpl. apply IH. unfold add_active.
      case_match; [|done]. apply foldl_insert_dom. by left. }
    clear -Hin Ha Hr Hmono. induction (found.*2) as [|x l IH]; [by apply not_elem_of_nil in Hin|].
    intros out Hout. simpl.
    assert (∀ k r, add_active out x !! k = Some r → Ref.key r = k) as Hx by (intros; by eapply add_active_keys).
    assert (∀ (l : list Stream.t) out, (∀ k r, out !! k = Some r → Ref.key r = k) →
      ∀ k r, foldl add_active out l !! k = Some r → Ref.key r = k) as Hkeys.
    { clear. intros l. induction l as [|x l IH]; intros out Hout; [exact Hout|]. simpl. apply IH.
      intros; by eapply add_active_keys. }
    apply elem_of_cons in Hin as [->|Hin]; [|by apply IH]. split; [by apply Hkeys|].
    apply Hmono. unfold add_active. rewrite Ha. apply foldl_insert_dom. right. by exists r. }
  destruct (Hf ∅ ltac:(by intros ?? ?%lookup_empty_Some)) as [Hkey [r' Hr']].
  exists r'. split; [|by apply Hkey]. apply list_elem_of_fmap. exists (Ref.key r, r'). split; [done|].
  unfold in_key_order. by rewrite elem_of_order_by, elem_of_map_to_list.
Qed.

Lemma check_ref_key state r kc : check_ref cfg state r = Some kc → kc.1 = Ref.key r.
Proof.
  unfold check_ref. destruct (cached_done state r); [by intros [= <-]|].
  destruct (run_one cfg r); [|done]. by intros [= <-].
Qed.
Lemma check_all_spec refs state results : check_all cfg refs state = Some results →
  (∀ r, r ∈ refs → is_Some (results !! Ref.key r)) ∧
  (∀ k c, results !! k = Some c → ∃ r, r ∈ refs ∧ Ref.key r = k ∧ check_ref cfg state r = Some (k, c)).
Proof.
  unfold check_all. destruct (mapM (check_ref cfg state) refs) as [l|] eqn:E; [|done]. intros [= <-].
  apply mapM_Some in E.
  assert (Hl : ∀ kc, kc ∈ l → ∃ r, r ∈ refs ∧ Ref.key r = kc.1 ∧ check_ref cfg state r = Some kc).
  { intros kc [i Hi]%list_elem_of_lookup. destruct (Forall2_lookup_r _ _ _ _ _ E Hi) as (r & Hr & Hc).
    exists r. split_and!; [by eapply list_elem_of_lookup_2|symmetry; by eapply check_ref_key|done]. }
  assert (Hrev : ∀ kc, kc ∈ rev l ↔ kc ∈ l) by (intros kc; by rewrite !list_elem_of_In, <- in_rev).
  split.
  - intros r [i Hi]%list_elem_of_lookup. destruct (Forall2_lookup_l _ _ _ _ _ E Hi) as (kc & Hkc & Hc).
    destruct ((list_to_map (rev l) : gmap string Checked) !! Ref.key r) eqn:En; [done|].
    apply not_elem_of_list_to_map in En. destruct En. apply list_elem_of_fmap. exists kc.
    split; [symmetry; by eapply check_ref_key|]. apply Hrev. by eapply list_elem_of_lookup_2.
  - intros k c Hk%elem_of_list_to_map_2%Hrev. destruct (Hl _ Hk) as (r & ? & ? & ?). by exists r.
Qed.
Lemma recorded_done state results r c : results !! Ref.key r = Some c →
  done_in (record_checks state results) r = ch_done c.
Proof.
  intros Hc. unfold done_in, record_checks. cbn.
  by rewrite (lookup_union_Some_l _ _ _ (ref_state_of c)) by by rewrite lookup_fmap, Hc.
Qed.

(** C30: From checks to promotion.  After the references of the active streams are checked
    and recorded, none of those streams has a reference that was never checked; a stream is a
    candidate exactly when it has references, was quiet long enough and every one of them,
    recorded or discovered, is done, and blocked exactly when it has one whose state is unknown.
    What was done before is taken from the cache as it is, and what is done now stays done when
    the checks run again. *)
Theorem checked_streams_classified state results threshold :
  let report := scan brain_path brain cfg in
  let state' := record_checks state results in
  check_all cfg (RefsReport.active_refs report) state = Some results →
  (∀ name s, RefsReport.streams report !! name = Some s → Stream.is_active s = true →
    (∀ r, r ∈ refs_of s → ∃ c, results !! Ref.key r = Some c ∧ done_in state' r = ch_done c)
    ∧ (classification (classify_stream s state' threshold) = Candidate ↔
        refs_of s ≠ [] ∧ quiet_for threshold s
        ∧ ∀ r, r ∈ refs_of s → ∃ c, results !! Ref.key r = Some c ∧ ch_done c = Some true)
    ∧ (classification (classify_stream s state' threshold) = Blocked ↔
        ∃ r c, r ∈ refs_of s ∧ results !! Ref.key r = Some c ∧ ch_done c = None))
  ∧ (∀ k c old, results !! k = Some c → State.refs state !! k = Some old → RefState.done old = Some true →
      c = mkChecked (RefState.state old) (Some true) (RefState.checked_at old) true)
  ∧ (∀ results' k c, check_all cfg (RefsReport.active_refs report) state' = Some results' →
      results !! k = Some c → ch_done c = Some true →
      results' !! k = Some (mkChecked (ch_state c) (Some true) (ch_checked_at c) true)).
Proof.
  intros report state' Hall. destruct (check_all_spec _ _ _ Hall) as [Hsome Hback].
  assert (Hcov : ∀ name s r, RefsReport.streams report !! name = Some s → Stream.is_active s = true →
    r ∈ refs_of s → ∃ c, results !! Ref.key r = Some c ∧ done_in state' r = ch_done c).
  { intros name s r Hs Ha Hr. destruct (active_refs_cover name s r Hs Ha Hr) as (r' & Hr' & Hk).
    destruct (Hsome r' Hr') as [c Hc]. rewrite Hk in Hc. exists c. split; [done|]. by apply recorded_done. }
  assert (Hold : ∀ st res k c old, check_all cfg (RefsReport.active_refs report) st = Some res → res !! k = Some c →
    State.refs st !! k = Some old → RefState.done old = Some true →
    c = mkChecked (RefState.state old) (Some true) (RefState.checked_at old) true).
  { intros st res k c old Hres Hc Ho Hd. destruct (proj2 (check_all_spec _ _ _ Hres) k c Hc) as (r & _ & <- & Hr).
    unfold check_ref, cached_done in Hr. rewrite Ho, bool_decide_eq_true_2 in Hr by done. rewrite Hd in Hr.
    by injection Hr as <-. }
  split; [|split].
  - intros name s Hs Ha. destruct (classify_stream_spec s state' threshold) as [Hbl Hcd].
    split; [intros r Hr; by eapply Hcov|]. rewrite Hcd, Hbl. split.
    + split; intros (Hne & Hq & Hd); (split_and!; [done..|]); intros r Hr; destruct (Hcov _ _ r Hs Ha Hr) as (c & Hc & Hdn).
      * exists c. split; [done|]. by rewrite <- Hdn, (Hd r Hr).
      * destruct (Hd r Hr) as (c' & Hc' & Hd'). rewrite Hdn. by simplify_map_eq.
    + split.
      * intros (r & Hr & Hd). destruct (Hcov _ _ r Hs Ha Hr) as (c & Hc & Hdn). exists r, c. by rewrite <- Hdn.
      * intros (r & c & Hr & Hc & Hd). destruct (Hcov _ _ r Hs Ha Hr) as (c' & Hc' & Hdn). exists r.
        split; [done|]. rewrite Hdn. by simplify_map_eq.
  - intros k c old. by apply Hold.
  - intros results' k c Hres Hc Hd. destruct (Hback k c Hc) as (r & Hr & <- & _).
    destruct (proj1 (check_all_spec _ _ _ Hres) r Hr) as [c' Hc']. rewrite Hc'. f_equal.
    assert (State.refs state' !! Ref.key r = Some (ref_state_of c)) as Hst.
    { unfold state', record_checks. cbn. by apply lookup_union_Some_l; rewrite lookup_fmap, Hc. }
    exact (Hold state' results' _ c' _ Hres Hc' Hst Hd).
Qed.

(** A check with no words passes the validation, and checking such a reference panics. *)
Lemma empty_check_panics name r : kind_named cfg (Ref.kind r) = Some (RefKind.mk name None [] (Some []) None ["done"] []) →
  compile_kind (RawRefKind.mk name None [] (Some []) None ["done"] [])
    = Ok (RefKind.mk name None [] (Some []) None ["done"] [])
  ∧ run_one cfg r = None.
Proof. intros Hk. split; [reflexivity|]. unfold run_one, argv. rewrite Hk. reflexivity. Qed.
End Candidates.

(** ** A small brain *)

From Stdlib Require Import DecimalString DecimalZ.

(** Just enough of each pattern for the texts below. *)
Definition whole_match (text : string) (groups : list string) : list Captures.t :=
  [Captures.mk 0 (String.length text) text (Some <$> groups) ∅].
Definition small_captures (re text : string) : list Captures.t :=
  if String.eqb re EDIT_RE then
    match split_once " " text with
    | Some (a, b) => if starts_with "E" a then whole_match text [a; b] else []
    | None => []
    end
  else if String.eqb re FM_REF_RE then
    match strip_prefix "  - " text ≫= split_once ": " with Some (a, b) => whole_match text [a; b] | None => [] end
  else if String.eqb re FM_KEY_RE then
    match split_once ":" text with Some (a, b) => whole_match text [a; trim b] | None => [] end
  else if String.eqb re "o/r![0-9]+" then (if starts_with "o/r!" text then whole_match text [] else [])
  else [].
#[local] Instance small_regex : RegexCrate := {|
  regex_new _ := Ok tt; captures_iter := small_captures; capture_names _ := []; regex_escape s := s |}.
#[local] Instance small_glob : GlobCrate := {| glob_new _ := Ok tt; glob_matches p s := String.eqb p s |}.
#[local] Instance small_dates : DateCrate := {|
  parse_date s := Z.of_int <$> NilEmpty.int_of_string s;
  date_display d := NilEmpty.string_of_int (Z.to_int d)
|}.
#[local] Instance small_dates_lawful : LawfulDate.
Proof. constructor. intros d. cbn. rewrite NilEmpty.isi. simpl. by rewrite of_to. Qed.
(** Every merge request is merged; nothing is committed; files last changed on day 100. *)
#[local] Instance small_host : DreamHost := {|
  git_run _ args := match args with "hash-object" :: _ => Ended true "abc1234def" "" | _ => Ended true "" "" end;
  check_run _ := ExitedWith 0 "MERGED";
  today := 130;
  home_dir := None;
  dir_exists _ := true
|}.
Definition merge_kind : RefKind.t := RefKind.mk "mr" None [Pattern.mk "o/r![0-9]+" ∅] (Some ["glab"; "mr"; "view"]) None
  ["MERGED"] ["OPEN"].
Definition small_config : Config.t := Config.mk
  (RawConfig.mk ["notes/secret.md"] [Folder.mk "notes" Role.Durable None; Folder.mk "streams/" Role.Scratch None] []
     (RawUnclassified.mk None []) (Discovery.mk false 0) default_thresholds default_review [])
  [merge_kind] None ["notes/secret.md"].
Definition stream_text : string :=
  join NEWLINE ["---"; "status: active"; "refs:"; "  - mr: o/r!7"; "---"; "text"].
Definition small_brain : node := Dir [
  ("notes", Dir [("a.md", File "a" 100); ("b.md", File "b" 120)]);
  ("streams", Dir [("s.md", File stream_text 100)])].
Definition small_report : Report.t := Report.mk 130 ".dream/reports/130.md"
  (join NEWLINE ["# Dream"; "## Proposed edits"; "### E1 notes/a.md: fix"; "Target blob: abc1234"; "text";
     "### E2 ../x: climb"; "Target blob: new"; "### E3 notes/c.md: new page"; "Target blob: new"]).

Definition small_verified : result VerifyReport.t string :=
  verify "/b" small_brain small_config small_report.
Definition small_edits : list EditVerdict.t :=
  match small_verified with Ok rep => VerifyReport.edits rep | Err _ => [] end.
Lemma verify_ok_applicable_witness :
  EditVerdict.verdict <$> small_edits = [Verdict.Ok_; Verdict.OutsideFolders; Verdict.Ok_]
  ∧ ∀ v, v ∈ small_edits → EditVerdict.verdict v = Verdict.Ok_ →
      applicable "/b" small_brain small_config (EditVerdict.edit v).
Proof.
  split; [vm_compute; reflexivity|].
  assert (∃ rep, small_verified = Ok rep) as [rep Hr] by (vm_compute; by eexists).
  unfold small_edits. rewrite Hr. intros v Hv.
  exact (proj2 (proj2 (proj2 (verify_ok_applicable "/b" small_brain small_config
    small_report rep Hr))) v Hv).
Defined.

Definition sample_record : ReviewRecord.t := ReviewRecord.mk "100" 30 [].
Lemma review_intervals_witness :
  let rec := reviewed small_config (Some sample_record) (Finding.mk Outcome.Changed None ∅) in
  ReviewRecord.interval_days rec = 15%Z ∧ (7 <= ReviewRecord.interval_days rec <= 180)%Z
  ∧ ∃ n, n ≤ 62 ∧ ReviewRecord.interval_days
      (unchanged_times small_config n sample_record None) = 180%Z.
Proof.
  destruct (review_intervals small_config eq_refl (Some sample_record) sample_record
    (Finding.mk Outcome.Changed None ∅) None ltac:(by vm_compute) ltac:(by vm_compute)) as (Hb & _ & _ & Hi & Hn).
  split; [exact Hi|]. split; [exact Hb|exact Hn].
Defined.

Definition review_twice : result (gmap string ReviewRecord.t * State.t) string :=
  record_all small_brain small_config State.default
    ["notes/a.md"; "notes/a.md"] (Finding.mk Outcome.Unchanged None ∅).
Lemma schedule_spec_witness :
  @ReviewReport.pick (schedule "/b" small_brain small_config State.default)
    = ["notes/a.md"]
  ∧ ∃ recs state', review_twice = Ok (recs, state')
    ∧ "notes/a.md" ∉ ReviewReport.pick
        (schedule "/b" small_brain small_config state').
Proof.
  split; [vm_compute; reflexivity|].
  destruct review_twice as [[recs state']|] eqn:E; [|vm_compute in E; discriminate E].
  exists recs, state'. split; [done|].
  destruct (schedule_spec "/b" small_brain small_config
    eq_refl _ _ _ _ _ E) as (_ & _ & Hf & _).
  apply Hf. by left.
Defined.

Definition small_scan : RefsReport.t := scan "/b" small_brain small_config.
Definition small_results : gmap string Checked :=
  default ∅ (check_all small_config (RefsReport.active_refs small_scan) State.default).
Definition small_stream : Stream.t :=
  default (Stream.mk None false None [] [] [] [] None "" None) (RefsReport.streams small_scan !! "streams/s.md").
Lemma small_checked :
  check_all small_config (RefsReport.active_refs small_scan) State.default
  = Some small_results.
Proof. vm_compute. reflexivity. Qed.
Lemma checked_streams_classified_witness :
  Ref.key <$> refs_of small_stream = ["mr:o/r!7"]
  ∧ classification (classify_stream small_stream
      (record_checks State.default small_results) 14) = Candidate.
Proof.
  split; [vm_compute; reflexivity|].
  destruct (checked_streams_classified "/b" small_brain small_config
    State.default small_results 14 small_checked) as (Hs & _).
  destruct (Hs "streams/s.md" small_stream) as (_ & Hc & _); [vm_compute; reflexivity..|].
  apply Hc. split; [vm_compute; discriminate|]. split; [by exists 30%Z|].
  intros r Hr. assert (refs_of small_stream = [Ref.mk "mr" "o/r!7" ∅ None]) as E by (vm_compute; reflexivity).
  rewrite E in Hr. apply list_elem_of_singleton in Hr as ->. eexists. split; vm_compute; reflexivity.
Defined.
