(* ===== verification/Tmux.v ===== *)
(** * The terminal multiplexer a worker's agent runs in

    [tmux/src/lib.rs]: the command lines of a session, what is read from its pane, and
    how a text is typed and submitted.  [tmux] itself is a parameter. *)

From Stdlib Require Import Ascii.
From S2P Require Import Prelude RustStd TextLemmas.
Local Open Scope stdpp_scope.

(** ** Texts of a terminal *)

(** The encodings of the white space of [str::trim] beyond ASCII. *)
Definition bytes (l : list nat) : string := foldr (λ n s, String (ascii_of_nat n) s) EmptyString l.
Definition WHITE_SPACE : list string :=
  ((λ n, bytes [n]) <$> [9; 10; 11; 12; 13; 32])
  ++ [bytes [194; 133]; bytes [194; 160]; bytes [225; 154; 128]]
  ++ ((λ n, bytes [226; 128; n]) <$> [128; 129; 130; 131; 132; 133; 134; 135; 136; 137; 138; 168; 169; 175])
  ++ [bytes [226; 129; 159]; bytes [227; 128; 128]].
Fixpoint strip_any (l : list string) (s : string) : option string :=
  match l with
  | [] => None
  | p :: l => match strip_prefix p s with Some rest => Some rest | None => strip_any l s end
  end.
Fixpoint strip_end_any (l : list string) (s : string) : option string :=
  match l with
  | [] => None
  | p :: l =>
      if ends_with p s then Some (str_take (String.length s - String.length p) s) else strip_end_any l s
  end.
Fixpoint repeat_strip (fuel : nat) (f : string → option string) (s : string) : string :=
  match fuel with
  | 0 => s
  | S n => match f s with Some s' => repeat_strip n f s' | None => s end
  end.
(** [s.trim()], with the white space of Unicode. *)
Definition trim_unicode (s : string) : string :=
  let s := repeat_strip (String.length s) (strip_any WHITE_SPACE) s in
  repeat_strip (String.length s) (strip_end_any WHITE_SPACE) s.
(** [s.chars().take(n)] *)
Fixpoint take_characters (n : nat) (s : string) : string :=
  match s with
  | EmptyString => EmptyString
  | String a s =>
      if is_continuation a then String a (take_characters n s)
      else match n with 0 => EmptyString | S n => String a (take_characters n s) end
  end.

Definition SUBMIT_SETTLE : Z := 400.
Definition SUBMIT_CONFIRM_DELAY : Z := 500.
Definition SUBMIT_RETRIES : nat := 2.
Definition PROMPT_CARET : string := bytes [226; 157; 175].
Definition SUBMIT_PROBE_LEN : nat := 40.

Definition parse_input_line (pane : string) : option string :=
  trim_unicode <$> last (omap (strip_prefix PROMPT_CARET) (lines pane)).
Definition submit_probe (text : string) : string :=
  let first_line := trim_unicode (default EmptyString (head (lines text))) in
  take_characters SUBMIT_PROBE_LEN first_line.
Definition socket_args (socket : option string) : list string :=
  match socket with Some socket => ["-L"; socket] | None => [] end.
Definition is_no_server (stderr : string) : bool :=
  contains "no server running" stderr
  || (contains "error connecting to" stderr
      && (contains "No such file or directory" stderr || contains "Connection refused" stderr)).
Definition is_no_session (stderr : string) : bool :=
  contains "can't find session" stderr || contains "session not found" stderr.

(** ** Running tmux *)

Inductive TmuxOutput : Type := Success (stdout : string) | Failed (stderr : string).
(** A command line of tmux at work: its output, or that it could not be started; and time
    that passes. *)
Class Tmux : Type := {
  tmux_world : Type;
  tmux_run : list string → tmux_world → result TmuxOutput string * tmux_world;
  tmux_wait : Z → tmux_world → tmux_world
}.
(** An [anyhow::Error]: its messages, the outermost first, which is what it displays. *)
Definition anyhow : Type := list string.
Definition anyhow_display (e : anyhow) : string := default EmptyString (head e).

Module CreateOptions.
Record t : Type := mk {
  name : string;
  socket : option string;
  start_dir : option string;
  env : list (string * string);
  width : option Z;
  height : option Z;
  detached : bool
}.
Definition argv (o : t) : list string :=
  socket_args (socket o) ++ ["new-session"]
  ++ (if detached o then ["-d"] else []) ++ ["-s"; name o]
  ++ match start_dir o with Some dir => ["-c"; dir] | None => [] end
  ++ mjoin ((λ kv, ["-e"; kv.1 +:+ "=" +:+ kv.2]) <$> env o)
  ++ match width o with Some w => ["-x"; pretty w] | None => [] end
  ++ match height o with Some h => ["-y"; pretty h] | None => [] end.
End CreateOptions.

Module Session.
Record t : Type := mk { name : string; socket : option string }.
Definition agent : t := mk "agent" None.
Definition from_name (n : string) : t := mk n None.
Definition on_socket (socket name : string) : t := mk name (Some socket).

(** Targets and command lines. *)
Definition exact_target (self : t) : string := "=" +:+ name self.
Definition session_target (self : t) : string := exact_target self +:+ ":".
Definition agent_pane_target (self : t) : string := exact_target self +:+ ":0.0".
Definition window_target (self : t) (window : string) : string := exact_target self +:+ ":" +:+ window.
Definition argv (self : t) (args : list string) : list string := socket_args (socket self) ++ args.
Definition new_window_args (self : t) (window : string) : list string :=
  argv self ["new-window"; "-d"; "-t"; session_target self; "-n"; window].
Definition capture_pane_args (self : t) : list string := argv self ["capture-pane"; "-p"; "-t"; session_target self].
Definition set_option_args (self : t) (key value : string) : list string :=
  argv self ["set-option"; "-t"; session_target self; key; value].
Definition send_literal_args (self : t) (target text : string) : list string :=
  argv self ["send-keys"; "-t"; target; "-l"; text].
Definition send_keys_args (self : t) (target : string) (keys : list string) : list string :=
  argv self ["send-keys"; "-t"; target] ++ keys.
Definition agent_pane_query_args (self : t) (format : string) : list string :=
  argv self ["display-message"; "-p"; "-t"; agent_pane_target self; format].
Definition kill_args (self : t) : list string := argv self ["kill-session"; "-t"; exact_target self].
Definition attach_command (self : t) : list string :=
  "tmux" :: argv self ["-u"; "attach-session"; "-t"; exact_target self].

Section Run.
Context {HT : Tmux}.
Abbreviation run A := (SE tmux_world anyhow A).

Definition with_context {A} (c : string) (m : run A) : run A := map_err (cons c) m.
Definition sleep (ms : Z) : run unit := modify (tmux_wait ms).
Definition run_tmux_output (args : list string) : run TmuxOutput := λ w,
  match tmux_run args w with
  | (Ok (Success stdout), w') => (Ok (Success stdout), w')
  | (Ok (Failed stderr), w') => (Ok (Failed (trim_unicode stderr)), w')
  | (Err e, w') => (Err ["failed to spawn tmux"; e], w')
  end.
(** The subcommand after any [-L <socket>]. *)
Definition subcommand (args : list string) : string :=
  match args with
  | "-L" :: _ :: sub :: _ => sub
  | sub :: _ => sub
  | [] => EmptyString
  end.
Definition run_tmux_stdout (args : list string) : run string :=
  out ← run_tmux_output args;
  match out with
  | Success stdout => mret stdout
  | Failed stderr => throw ["tmux " +:+ subcommand args +:+ " failed: " +:+ stderr]
  end.
Definition run_tmux (args : list string) : run unit := run_tmux_stdout args ;; mret tt.

Definition create (opts : CreateOptions.t) : run t :=
  with_context ("failed to create tmux session '" +:+ CreateOptions.name opts +:+ "'")
    (run_tmux (CreateOptions.argv opts)) ;;
  mret (mk (CreateOptions.name opts) (CreateOptions.socket opts)).
Definition list_sessions (socket : option string) : run (list string) :=
  out ← run_tmux_output (socket_args socket ++ ["list-sessions"; "-F"; "#{session_name}"]);
  match out with
  | Success stdout => mret (filter (λ l, l ≠ EmptyString) (trim_unicode <$> lines stdout))
  | Failed stderr =>
      if is_no_server stderr then mret []
      else throw ["tmux list-sessions failed: " +:+ stderr]
  end.
Definition set_status_left (self : t) (value : string) : run unit :=
  with_context "failed to set tmux status-left" (run_tmux (set_option_args self "status-left" value)).
Definition set_option (self : t) (key value : string) : run unit :=
  with_context ("failed to set tmux option '" +:+ key +:+ "' on session '" +:+ name self +:+ "'")
    (run_tmux (set_option_args self key value)).
Definition send_enter (self : t) : run unit :=
  with_context ("failed to send Enter to tmux session '" +:+ name self +:+ "'")
    (run_tmux (send_keys_args self (session_target self) ["Enter"])).
Definition capture_pane (self : t) : run string :=
  with_context ("failed to capture pane for tmux session '" +:+ name self +:+ "'")
    (run_tmux_stdout (capture_pane_args self)).
Definition input_line (self : t) : run (option string) :=
  pane ← capture_pane self; mret (parse_input_line pane).
Definition input_holds (self : t) (probe : string) : run bool :=
  line ← input_line self;
  mret match line with Some line => contains probe line | None => false end.
Definition stale_input (self : t) : run (option string) :=
  line ← input_line self;
  mret match line with Some line => if String.eqb line EmptyString then None else Some line | None => None end.
Definition clear_input (self : t) : run unit :=
  stale ← stale_input self;
  match stale with
  | None => mret tt
  | Some _ =>
      with_context ("failed to clear input in tmux session '" +:+ name self +:+ "'")
        (run_tmux (send_keys_args self (session_target self) ["C-c"])) ;;
      sleep SUBMIT_SETTLE ;;
      stale_input self ;; mret tt
  end.
Definition send_keys_no_enter (self : t) (text : string) : run unit :=
  with_context ("failed to send keys to tmux session '" +:+ name self +:+ "'")
    (run_tmux (send_literal_args self (session_target self) text)).
Definition send_keys_raw (self : t) (keys : list string) : run unit :=
  with_context ("failed to send raw keys to tmux session '" +:+ name self +:+ "'")
    (run_tmux (send_keys_args self (session_target self) keys)).
(** The passes of the loop: [more] presses may be made. *)
Fixpoint confirm_loop (self : t) (probe : string) (more : nat) : run unit :=
  sleep SUBMIT_CONFIRM_DELAY ;;
  holds ← input_holds self probe;
  if negb holds then mret tt
  else match more with
       | 0 => throw ["text still unsubmitted in session '" +:+ name self +:+ "' after "
                     +:+ pretty (S SUBMIT_RETRIES) +:+ " Enter presses (input box holds '" +:+ probe +:+ "')"]
       | S more => send_enter self ;; confirm_loop self probe more
       end.
Definition confirm_submitted (self : t) (text : string) : run unit :=
  let probe := submit_probe text in
  if String.eqb probe EmptyString then mret tt else confirm_loop self probe SUBMIT_RETRIES.
Definition send_keys (self : t) (text : string) : run unit :=
  clear_input self ;;
  send_keys_no_enter self text ;;
  sleep SUBMIT_SETTLE ;;
  send_enter self ;;
  confirm_submitted self text.

Definition pane_current_command (self : t) : run string :=
  output ← with_context ("failed to query pane_current_command for tmux session '" +:+ name self +:+ "'")
             (run_tmux_stdout (agent_pane_query_args self "#{pane_current_command}"));
  mret (trim_unicode output).
Definition is_pane_alive (self : t) : run bool :=
  output ← with_context ("failed to query pane status for tmux session '" +:+ name self +:+ "'")
             (run_tmux_stdout (agent_pane_query_args self "#{pane_dead}"));
  let value := trim_unicode output in
  if String.eqb value "0" then mret true
  else if String.eqb value "1" then mret false
  else throw ["unexpected pane_dead value '" +:+ value +:+ "' for session '" +:+ name self +:+ "'"].
Definition new_window (self : t) (window : string) : run unit :=
  with_context ("failed to create window '" +:+ window +:+ "' in tmux session '" +:+ name self +:+ "'")
    (run_tmux (new_window_args self window)).
Definition send_keys_to_window (self : t) (window text : string) : run unit :=
  let target := window_target self window in
  with_context ("failed to send keys to tmux window '" +:+ target +:+ "'")
    (run_tmux (send_literal_args self target text)) ;;
  with_context ("failed to send Enter to tmux window '" +:+ target +:+ "'")
    (run_tmux (send_keys_args self target ["Enter"])).
Definition exists_ (self : t) : run bool :=
  out ← run_tmux_output (argv self ["has-session"; "-t"; exact_target self]);
  match out with
  | Success _ => mret true
  | Failed stderr =>
      if is_no_server stderr || is_no_session stderr then mret false
      else throw ["tmux has-session failed for '" +:+ name self +:+ "': " +:+ stderr]
  end.
Definition kill (self : t) : run unit :=
  out ← run_tmux_output (kill_args self);
  match out with
  | Success _ => mret tt
  | Failed stderr =>
      if is_no_server stderr || is_no_session stderr then mret tt
      else throw ["failed to kill tmux session '" +:+ name self +:+ "': " +:+ stderr]
  end.
End Run.
End Session.

(** ** Typing into an agent *)

(** The texts that [tmux send-keys -l] passes on as they are and the box takes as text: an
    argument that begins with a dash is read as options, one that ends in a semicolon
    ends the command line of tmux, and control characters other than the line feed are
    keys. *)
Definition is_text_byte (a : ascii) : bool :=
  ((32 <=? nat_of_ascii a)%nat && negb (nat_of_ascii a =? 127)%nat) || (nat_of_ascii a =? 10)%nat.
Definition plain_text (text : string) : bool :=
  negb (starts_with "-" text) && negb (ends_with ";" text) && forallb is_text_byte (String.list_ascii_of_string text).

(** What the agent's terminal does with the keys tmux passes on.  The box of the agent
    holds a text; its line, when the pane shows the box and not a dialog or a menu, shows
    the head of that text without outer white space.  Plain text is appended, [C-c] empties
    the box or is absorbed, [Enter] submits a box with a text at once, later ([due]) or
    never; a box without text submits nothing.  Any command may fail, without effect.
    Nobody else types into the session meanwhile. *)
Class AgentPane {HT : Tmux} (s : Session.t) : Type := {
  box : tmux_world → string;
  submitted : tmux_world → list string;
  due : tmux_world → bool;
  visible : tmux_world → bool;
  shown : string → string;
  shown_empty : shown EmptyString = EmptyString;
  shown_probe text : contains (submit_probe text) (shown text) = true;
  on_wait ms w : let w' := tmux_wait ms w in
    (due w' = true → due w = true)
    ∧ ((box w' = box w ∧ submitted w' = submitted w)
       ∨ due w = true ∧ box w ≠ EmptyString ∧ box w' = EmptyString ∧ submitted w' = submitted w ++ [box w]);
  on_capture w : let r := tmux_run (Session.capture_pane_args s) w in
    box r.2 = box w ∧ submitted r.2 = submitted w ∧ due r.2 = due w ∧ visible r.2 = visible w
    ∧ ∀ out, r.1 = Ok (Success out) → parse_input_line out = if visible w then Some (shown (box w)) else None;
  on_literal text w : plain_text text = true → due w = false →
    let r := tmux_run (Session.send_literal_args s (Session.session_target s) text) w in
    due r.2 = false ∧ submitted r.2 = submitted w
    ∧ box r.2 = match r.1 with Ok (Success _) => box w +:+ text | _ => box w end;
  on_clear w : due w = false →
    let r := tmux_run (Session.send_keys_args s (Session.session_target s) ["C-c"]) w in
    due r.2 = false ∧ submitted r.2 = submitted w
    ∧ (box r.2 = box w ∨ (∃ out, r.1 = Ok (Success out)) ∧ box r.2 = EmptyString);
  on_enter w :
    let r := tmux_run (Session.send_keys_args s (Session.session_target s) ["Enter"]) w in
    (box r.2 = box w ∧ submitted r.2 = submitted w)
    ∨ (∃ out, r.1 = Ok (Success out)) ∧ box w ≠ EmptyString ∧ box r.2 = EmptyString
      ∧ submitted r.2 = submitted w ++ [box w]
}.

Section Typing.
Context {HT : Tmux} (s : Session.t) {HA : AgentPane s}.
Abbreviation same w w' := (box w' = box w ∧ submitted w' = submitted w ∧ due w' = due w ∧ visible w' = visible w).

Lemma run_tmux_stdout_spec args w r w' : Session.run_tmux_stdout args w = (r, w') →
  w' = (tmux_run args w).2
  ∧ match r with Ok out => (tmux_run args w).1 = Ok (Success out) | Err e => ∀ out, (tmux_run args w).1 ≠ Ok (Success out) end.
Proof.
  unfold Session.run_tmux_stdout, Session.run_tmux_output. rewrite run_bind.
  destruct (tmux_run args w) as [[[out|e]|e] w1]; cbn; intros [= <- <-]; by (split; [|try intros out']).
Qed.
Lemma run_tmux_spec args w r w' : Session.run_tmux args w = (r, w') →
  w' = (tmux_run args w).2
  ∧ match r with Ok _ => ∃ out, (tmux_run args w).1 = Ok (Success out) | Err e => ∀ out, (tmux_run args w).1 ≠ Ok (Success out) end.
Proof.
  unfold Session.run_tmux. rewrite run_bind.
  destruct (Session.run_tmux_stdout args w) as [r1 w1] eqn:E. apply run_tmux_stdout_spec in E as [-> Hr].
  destruct r1 as [out|e]; cbn; intros [= <- <-]; [by split; [|exists out]|done].
Qed.
(** The errors of the tool carry a context. *)
Definition contextual {A} (r : result A anyhow) : Prop := match r with Ok _ => True | Err e => 2 ≤ length e end.
Lemma with_context_spec {A} c (m : SE tmux_world anyhow A) w r w' : Session.with_context c m w = (r, w') →
  ∃ r0, m w = (r0, w') ∧ r = match r0 with Ok a => Ok a | Err e => Err (c :: e) end.
Proof. unfold Session.with_context. rewrite run_map_err. destruct (m w) as [[a|e] w1]; intros [= <- <-]; by eexists. Qed.
Lemma run_tmux_error args w e w' : Session.run_tmux_stdout args w = (Err e, w') → 1 ≤ length e.
Proof.
  unfold Session.run_tmux_stdout, Session.run_tmux_output. rewrite run_bind.
  destruct (tmux_run args w) as [[[out|e']|e'] w1]; cbn; intros [= <- <-]; simpl; lia.
Qed.
Lemma command_spec c args w r w' : Session.with_context c (Session.run_tmux args) w = (r, w') →
  w' = (tmux_run args w).2 ∧ contextual r
  ∧ match r with Ok _ => ∃ out, (tmux_run args w).1 = Ok (Success out) | Err e => ∀ out, (tmux_run args w).1 ≠ Ok (Success out) end.
Proof.
  intros E. apply with_context_spec in E as (r0 & E & ->).
  assert (∀ e, r0 = Err e → 1 ≤ length e) as Hlen.
  { intros e ->. unfold Session.run_tmux in E. rewrite run_bind in E.
    destruct (Session.run_tmux_stdout args w) as [[out|e'] w1] eqn:E1; [done|]. injection E as -> ->.
    by eapply run_tmux_error. }
  apply run_tmux_spec in E as [-> Hr]. destruct r0 as [a|e]; split_and!; try done.
  specialize (Hlen e eq_refl). simpl. lia.
Qed.

(** ** What the box shows *)

Lemma input_line_spec w r w' : Session.input_line s w = (r, w') →
  same w w' ∧ contextual r ∧ ∀ o, r = Ok o → o = if visible w then Some (shown (box w)) else None.
Proof.
  unfold Session.input_line, Session.capture_pane. rewrite run_bind.
  destruct (Session.with_context _ _ w) as [r1 w1] eqn:E.
  apply with_context_spec in E as (r0 & E & ->).
  assert (∀ e, r0 = Err e → 1 ≤ length e) as Hlen by (intros e ->; by eapply run_tmux_error).
  apply run_tmux_stdout_spec in E as [-> Hr]. destruct (on_capture w) as (Hb & Hs & Hd & Hv & Hc).
  destruct r0 as [out|e]; cbn; intros [= <- <-]; split_and!; try done.
  - intros o [= <-]. by apply Hc.
  - specialize (Hlen e eq_refl). unfold contextual. cbn [length]. lia.
Qed.
Lemma stale_input_spec w r w' : Session.stale_input s w = (r, w') →
  same w w' ∧ contextual r ∧ ∀ o, r = Ok o → o = None → visible w = false ∨ shown (box w) = EmptyString.
Proof.
  unfold Session.stale_input. rewrite run_bind.
  destruct (Session.input_line s w) as [[o|e] w1] eqn:E; apply input_line_spec in E as (Hs & Hc & Ho);
    cbn; intros [= <- <-]; split_and!; try done; try apply Hs.
  rewrite (Ho _ eq_refl). intros o' [= <-]. destruct (visible w); [|by left].
  case_match eqn:Hb; [|done]. intros _. right. by apply String.eqb_eq.
Qed.

(** ** What is left in the box *)

(** The text in the box when the new one is typed: none, or the old one, when the box did
    not show it or [C-c] was absorbed. *)
Inductive left_over (w : tmux_world) : string → Prop :=
| left_cleared : left_over w EmptyString
| left_unseen : visible w = false → left_over w (box w)
| left_blank : shown (box w) = EmptyString → left_over w (box w)
| left_kept w1 out : box w1 = box w →
    let r := tmux_run (Session.send_keys_args s (Session.session_target s) ["C-c"]) w1 in
    r.1 = Ok (Success out) → box r.2 = box w → left_over w (box w).

Lemma clear_input_spec w r w' : due w = false → Session.clear_input s w = (r, w') →
  due w' = false ∧ submitted w' = submitted w ∧ contextual r ∧ (is_ok r = true → left_over w (box w')).
Proof.
  intros Hd. unfold Session.clear_input. rewrite run_bind.
  destruct (Session.stale_input s w) as [r1 w1] eqn:E. apply stale_input_spec in E as ((Hb & Hs & Hd1 & Hv) & Hc & Ho).
  rewrite Hd in Hd1. destruct r1 as [[stale|]|e]; cbn; [|intros [= <- <-]; split_and!; try done|by intros [= <- <-]].
  2: { intros _. rewrite Hb. destruct (Ho None eq_refl eq_refl); by constructor. }
  rewrite run_bind. destruct (Session.with_context _ _ w1) as [r2 w2] eqn:E.
  apply command_spec in E as (-> & Hc2 & Hr2). destruct (on_clear w1 Hd1) as (Hd2 & Hs2 & Hb2).
  set (w2 := (tmux_run _ w1).2) in *. destruct r2 as [[]|e]; [|intros [= <- <-]; split_and!; try done; congruence].
  destruct Hr2 as [out Hr2]. rewrite run_bind. unfold Session.sleep at 1. rewrite run_modify.
  rewrite run_bind. destruct (on_wait SUBMIT_SETTLE w2) as [Hd3 Hw3]. cbn [fst snd].
  destruct Hw3 as [[Hb3 Hs3]|[? _]]; [|congruence]. set (w3 := tmux_wait SUBMIT_SETTLE w2) in *.
  destruct (Session.stale_input s _) as [r3 w4] eqn:E. apply stale_input_spec in E as ((Hb4 & Hs4 & Hd4 & _) & Hc3 & _).
  assert (due w4 = false) as Hdue by (rewrite Hd4; destruct (due w3); [by rewrite Hd3 in Hd2|done]).
  assert (left_over w (box w4)) as Hl.
  { rewrite Hb4, Hb3. destruct Hb2 as [Hb2|[_ ->]]; [|constructor]. rewrite Hb2, Hb.
    apply (left_kept w w1 out); [done|done|]. fold w2. congruence. }
  destruct r3 as [o|e]; cbn; intros [= <- <-]; split_and!; try done; congruence.
Qed.

(** ** Once at most *)

(** Since the text [t] was typed: it is in the box, or it was submitted, once. *)
Definition held (sub : list string) (t : string) (w : tmux_world) : Prop :=
  (box w = t ∧ submitted w = sub) ∨ (box w = EmptyString ∧ submitted w = sub ++ [t]).
Lemma held_wait sub t ms w : held sub t w → held sub t (tmux_wait ms w).
Proof.
  intros Hw. destruct (on_wait ms w) as [_ [[Hb Hs]|(_ & Hne & Hb & Hs)]]; [by unfold held; rewrite Hb, Hs|].
  destruct Hw as [[H1 H2]|[H1 H2]]; [|done]. right. by rewrite Hs, H1, H2.
Qed.
Lemma held_enter sub t w r w' : held sub t w → Session.send_enter s w = (r, w') → held sub t w' ∧ contextual r.
Proof.
  intros Hw H. unfold Session.send_enter in H. apply command_spec in H as (-> & Hc & _). split; [|done].
  destruct (on_enter w) as [[Hb Hs]|(_ & Hne & Hb & Hs)]; [by unfold held; rewrite Hb, Hs|].
  destruct Hw as [[H1 H2]|[H1 H2]]; [|done]. right. by rewrite Hs, H1, H2.
Qed.
Lemma contains_empty p : p ≠ EmptyString → contains p EmptyString = false.
Proof. unfold contains. intros Hp. apply bool_decide_eq_false. by destruct p; intros [? [=]]. Qed.

(** What the loop finds. *)
Lemma confirm_loop_spec sub t probe n w r w' : held sub t w → probe ≠ EmptyString →
  Session.confirm_loop s probe n w = (r, w') →
  held sub t w'
  ∧ (is_ok r = true → visible w' = false ∨ contains probe (shown (box w')) = false)
  ∧ (¬ contextual r → box w' = t ∧ submitted w' = sub).
Proof.
  intros Hw Hp. revert w Hw. induction n as [|n IH]; intros w Hw; cbn [Session.confirm_loop];
    rewrite run_bind; unfold Session.sleep; rewrite run_modify; cbn [fst snd]; rewrite run_bind; unfold Session.input_holds;
    rewrite run_bind; pose proof (held_wait _ _ SUBMIT_CONFIRM_DELAY _ Hw) as Hw1;
    set (w1 := tmux_wait SUBMIT_CONFIRM_DELAY w) in *;
    destruct (Session.input_line s w1) as [r2 w2] eqn:E; apply input_line_spec in E as ((Hb2 & Hs2 & _ & Hv2) & Hc2 & Ho2);
    (assert (held sub t w2) as Hw2 by (unfold held; by rewrite Hb2, Hs2)).
  all: destruct r2 as [o|e]; [|intros [= <- <-]; by split_and!].
  all: specialize (Ho2 o eq_refl); rewrite run_ret; cbn [fst snd].
  all: destruct o as [line|]; cbn [negb]; [|destruct (visible w1) eqn:Hv; [done|]; intros [= <- <-]; split_and!; try done;
    intros _; left; congruence].
  all: destruct (visible w1) eqn:Hv; [|done]; injection Ho2 as ->.
  all: destruct (contains probe (shown (box w1))) eqn:Hin; cbn [negb];
    [|intros [= <- <-]; split_and!; try done; intros _; right; by rewrite Hb2].
  - intros [= <- <-]. split_and!; [done|done|]. intros _. destruct Hw2 as [Hw2|[Hbox _]]; [done|].
    by rewrite Hb2 in Hbox; rewrite Hbox, shown_empty, contains_empty in Hin.
  - rewrite run_bind. destruct (Session.send_enter s w2) as [r3 w3] eqn:E.
    destruct (held_enter _ _ _ _ _ Hw2 E) as [Hw3 Hc3]. destruct r3 as [[]|e]; [by apply IH|].
    intros [= <- <-]. by split_and!.
Qed.

End Typing.

(** ** A small agent *)

(** An agent whose box absorbs the next presses of [Enter]. *)
Record small_agent : Type := SmallAgent { in_box : string; entered : list string; absorbs : nat }.
Definition small_shown (b : string) : string :=
  if String.eqb b EmptyString then EmptyString else "t" +:+ submit_probe b +:+ "t".
Definition small_run (args : list string) (w : small_agent) : result TmuxOutput string * small_agent :=
  match args with
  | "capture-pane" :: _ =>
      let pane := PROMPT_CARET +:+ small_shown (in_box w) in
      (Ok (if bool_decide (parse_input_line pane = Some (small_shown (in_box w)))
           then Success pane else Failed "no pane"), w)
  | ["send-keys"; _; _; "-l"; text] => (Ok (Success EmptyString), SmallAgent (in_box w +:+ text) (entered w) (absorbs w))
  | ["send-keys"; _; _; "C-c"] => (Ok (Success EmptyString), SmallAgent EmptyString (entered w) (absorbs w))
  | ["send-keys"; _; _; "Enter"] =>
      (Ok (Success EmptyString),
       match absorbs w with
       | 0 => if String.eqb (in_box w) EmptyString then w else SmallAgent EmptyString (entered w ++ [in_box w]) 0
       | S n => SmallAgent (in_box w) (entered w) n
       end)
  | _ => (Ok (Failed "unknown command"), w)
  end.
#[local] Instance small_tmux : Tmux := {| tmux_world := small_agent; tmux_run := small_run; tmux_wait _ w := w |}.
Lemma contains_middle p : contains p ("t" +:+ p +:+ "t") = true.
Proof.
  destruct (contains p ("t" +:+ p +:+ "t")) eqn:E; [done|].
  apply not_contains_cons in E as [_ E]. assert (String.prefix p (p +:+ "t") = true) as Hp.
  { clear. induction p as [|a p IH]; [done|]. change (String a p +:+ "t") with (String a (p +:+ "t")). simpl.
    by destruct (ascii_dec a a). }
  change (contains p (p +:+ "t") = false) in E. unfold contains in E. apply bool_decide_eq_false in E. destruct E.
  destruct (p +:+ "t"); cbn [find]; rewrite Hp; by eexists.
Qed.
#[local, refine] Instance small_pane : AgentPane Session.agent := {|
  box := in_box; submitted := entered; shown := small_shown; due _ := false; visible _ := true |}.
Proof.
  - reflexivity.
  - intros text. unfold small_shown. case_match eqn:E; [by apply String.eqb_eq in E as ->|apply contains_middle].
  - intros ms w. split; [done|by left].
  - intros w. split_and!; [done..|]. intros out. cbn. case_bool_decide as E; [|done]. intros [= <-]. exact E.
  - intros text w _ _. done.
  - intros w _. split_and!; [done..|]. right. split; [by eexists|done].
  - intros w. destruct w as [b l [|n]]; cbn; [|left; done].
    destruct (String.eqb_spec b EmptyString) as [->|Hb]; [by left|right]. split_and!; [by eexists|done..].
Defined.

Definition small_send (b : string) (absorb : nat) (text : string) : result unit anyhow * small_agent :=
  Session.send_keys Session.agent text (SmallAgent b [] absorb).
