(* ===== verification/WorkerDaemon.v ===== *)
(** * The worker daemon

    [workerd/src]: what runs beside the agent in a container.  The gRPC service turns the
    server's dispatches into commands typed one by one as the agent becomes idle, and the
    agent's signals into calls of the server ([grpc_service.rs], [dispatch.rs]); the exit
    watcher ends the container when the agent is gone ([exit_watcher.rs],
    [container_exit.rs]).

    A request holds the lock of the buffer for one step; what it leaves to do, typing and
    calls of the server, are jobs, which run in any order between the other requests.
    The server is the worker gRPC service of this development, behind the check of the
    worker's headers. *)

From S2P Require Import Prelude RustStd TextLemmas Model Env TicketDb TicketRepo WorkflowDb WorkflowRepo WorkerRepo Context Host HandlerLib Agent UrConfig Pool RunOpts WorkerManager LaunchService TicketService CmdRunner Tmux.
Local Open Scope stdpp_scope.

(** ** How skills are named *)

Module SkillLayout.
Inductive t : Type := AgentHome | NamespacedPlugin (name : string).
Definition UR_PLUGIN_NAME : string := "ur".
Definition ur_plugin : t := NamespacedPlugin UR_PLUGIN_NAME.
Definition namespace (self : t) : option string :=
  match self with AgentHome => None | NamespacedPlugin name => Some name end.
Definition qualify (skill : string) (self : t) : string :=
  match namespace self with None => skill | Some ns => ns +:+ ":" +:+ skill end.
Definition skills_root (skills_dest : string) (self : t) : string :=
  match self with AgentHome => skills_dest | NamespacedPlugin _ => path_join skills_dest "skills" end.
End SkillLayout.

Definition dispatch_commands (agent : AgentType) (layout : SkillLayout.t) (skill : string) (args : list string)
    : list string :=
  [AgentType.clear_command agent; AgentType.skill_invocation agent (SkillLayout.qualify skill layout) args].

(** ** The buffer of a dispatch *)

Module DispatchBuffer.
Record t : Type := mk {
  commands : list string;
  step_complete : bool;
  lifecycle_step : string;
  nudge_suppressed_until : option Z
}.
Definition empty : t := mk [] false "" None.
End DispatchBuffer.

(** What a request leaves to do: the first command of a dispatch, typed by its handler; a
    text typed once the hook has returned; the question whether the worker is stalled; the
    calls of the server; a message that a caller has typed, and the label of the session. *)
Inductive job : Type :=
| FirstCommand (text : string)
| DeferredSend (text : string)
| CheckStalled (step : string)
| ForwardIdle
| SendStepComplete
| CallDispatch
| TypeMessage (message : string) (submit : option bool)
| LabelSession (status_left : string) (status_left_length : Z).

Definition nudge_message (step : string) : string :=
  "Your '" +:+ step +:+ "' step is still in progress. Next steps:" +:+ NEWLINE
  +:+ "- Run `ur-workertools status step-complete` to signal completion" +:+ NEWLINE
  +:+ "- Run `ur-workertools status pause-nudge` if you are waiting on a background job or agent" +:+ NEWLINE
  +:+ "- Run `ur-workertools status request-human " +:+ QUOTE +:+ "<reason>" +:+ QUOTE +:+ "` if you need help".

(** [notify_idle], at an instant in milliseconds. *)
Definition notify_idle (now : Z) (buf : DispatchBuffer.t) : DispatchBuffer.t * list job :=
  match DispatchBuffer.commands buf with
  | command :: commands =>
      (DispatchBuffer.mk commands (DispatchBuffer.step_complete buf) (DispatchBuffer.lifecycle_step buf)
         (DispatchBuffer.nudge_suppressed_until buf), [DeferredSend command])
  | [] =>
      if DispatchBuffer.step_complete buf
      then (DispatchBuffer.mk [] false "" (DispatchBuffer.nudge_suppressed_until buf), [SendStepComplete])
      else
        let step := DispatchBuffer.lifecycle_step buf in
        if negb (bool_decide (step = "")) && negb (bool_decide (step = "designing")) then
          let suppressed := match DispatchBuffer.nudge_suppressed_until buf with
                            | Some until => (now <? until)%Z
                            | None => false
                            end in
          (buf, if suppressed then [] else [CheckStalled step])
        else (buf, [ForwardIdle])
  end.
Definition step_complete (buf : DispatchBuffer.t) : DispatchBuffer.t :=
  DispatchBuffer.mk (DispatchBuffer.commands buf) true (DispatchBuffer.lifecycle_step buf) None.
Definition NUDGE_PAUSE : Z := 300000.
Definition pause_nudge (now : Z) (buf : DispatchBuffer.t) : DispatchBuffer.t :=
  DispatchBuffer.mk (DispatchBuffer.commands buf) (DispatchBuffer.step_complete buf)
    (DispatchBuffer.lifecycle_step buf) (Some (now + NUDGE_PAUSE)%Z).

(** The requests.  A dispatch loads the buffer and hands on its first command. *)
Inductive dispatch : Type :=
| Implement (ticket_id : string)
| Design (ticket_id : string)
| AddressFeedback (ticket_id : string) (pr_number : Z).
Definition lifecycle_of (d : dispatch) : string :=
  match d with
  | Implement _ => "implementing" | Design _ => "designing" | AddressFeedback _ _ => "addressing_feedback"
  end.
Definition skill_of (d : dispatch) : string * list string :=
  match d with
  | Implement ticket_id => ("implement", [ticket_id])
  | Design ticket_id => ("design", [ticket_id])
  | AddressFeedback ticket_id pr_number => ("address-feedback", [ticket_id; pretty pr_number])
  end.
Inductive request : Type :=
| Dispatch (d : dispatch)
| NotifyIdle
| StepComplete
| PauseNudge
| SetTicket (ticket_id : string)
| DispatchTicket
| SendMessage (message : string) (submit : option bool)
| SetStatusLeft (status_left : string) (status_left_length : Z).

Section Service.
Context (agent : AgentType) (layout : SkillLayout.t).

Definition commands_of (d : dispatch) : list string :=
  dispatch_commands agent layout (skill_of d).1 (skill_of d).2.
Definition load (d : dispatch) : DispatchBuffer.t * list job :=
  match commands_of d with
  | first_command :: commands => (DispatchBuffer.mk commands false (lifecycle_of d) None, [FirstCommand first_command])
  | [] => (DispatchBuffer.empty, [])
  end.

(** The daemon's state: the buffer, the ticket set for dispatching, and the jobs. *)
Record daemon : Type := Daemon {
  buffer : DispatchBuffer.t;
  dispatch_ticket_id : option string;
  jobs : list job
}.
Definition new_daemon : daemon := Daemon DispatchBuffer.empty None [].
Definition leave (j : job) (d : daemon) : daemon := Daemon (buffer d) (dispatch_ticket_id d) (jobs d ++ [j]).
Definition with_buffer (r : DispatchBuffer.t * list job) (d : daemon) : daemon :=
  Daemon r.1 (dispatch_ticket_id d) (jobs d ++ r.2).
Definition serve (now : Z) (r : request) (d : daemon) : daemon :=
  match r with
  | Dispatch x => with_buffer (load x) d
  | NotifyIdle => with_buffer (notify_idle now (buffer d)) d
  | StepComplete => with_buffer (step_complete (buffer d), []) d
  | PauseNudge => with_buffer (pause_nudge now (buffer d), []) d
  | SetTicket ticket_id => Daemon (buffer d) (Some ticket_id) (jobs d)
  | DispatchTicket => leave CallDispatch d
  | SendMessage message submit => leave (TypeMessage message submit) d
  | SetStatusLeft status_left length => leave (LabelSession status_left length) d
  end.
End Service.

(** ** Calls of the server *)

(** A worker's identity, and the headers of its calls. *)
Module WorkerIdentity.
Record t : Type := mk { server_addr : string; worker_id : string; worker_secret : string }.
End WorkerIdentity.

Section Calls.
Context {HE : Env} {HG : TicketGraph.PetGraph} {HO : Host} {HP : PoolHost} {HW : WorkerHost} {HL : LaunchHost} {HJ : JoinOrder} {HN : Network}.
Context {HT : Tmux}.
Context (tickets_self : TicketServiceHandler.t) (core_self : LaunchManager.t).
Context (identity : WorkerIdentity.t) (session : Session.t).
(** How an address that is none is reported. *)
Context (invalid_uri : string).

Definition header_of (value : string) : header :=
  match metadata_value value with Ok _ => Some (Ok value) | Err _ => None end.
Definition worker_header : header := header_of (WorkerIdentity.worker_id identity).
Definition secret_header : header := header_of (WorkerIdentity.worker_secret identity).

(** A call of the worker server: connected or not, checked, carried out, answered or not. *)
Definition show_rpc (e : rpc_error) : string :=
  match e with Refused st => status_display st | Panicked => died_display end.
Definition checked {A} (m : SE (site host) string A) : SE (site host) string A :=
  map_err show_rpc (zoom (worker_auth_interceptor worker_header secret_header)) ;; m.
Definition server_call {A} (not_connected failed : string → string) (m : SE (site host) string A)
    : SE (site host) string A :=
  if negb (endpoint_ok ("http://" +:+ WorkerIdentity.server_addr identity)) then throw invalid_uri
  else
    n ← next_call;
    match call_fate n with
    | NotConnected e => throw (not_connected e)
    | Answered => map_err failed (checked m)
    | AnswerLost e => attempt (checked m) ;; throw (failed e)
    end.
Definition core_request {A} (m : SE (core host) rpc_error A) : SE (site host) string A :=
  server_call id id (map_err show_rpc (zoom m)).

(** [forward_idle_to_server] and [send_workflow_step_complete]: a failure is logged. *)
Definition forward_idle_to_server : SE (site host) string unit :=
  core_request (LaunchService.update_agent_status worker_header (AgentStatus.as_str AgentStatus.Idle) "").
Definition send_workflow_step_complete : SE (site host) string unit :=
  core_request (LaunchService.workflow_step_complete worker_header).
(** [WorkerInfo], as the worker server answers it. *)
Definition server_worker_info : SE (core host) rpc_error (string * string * string) := LaunchService.unimplemented.
Definition is_stalled : SE (site host) Empty_set bool :=
  r ← attempt (core_request server_worker_info);
  mret match r with Ok info => bool_decide (info.1.2 = AgentStatus.as_str AgentStatus.Stalled) | Err _ => true end.

(** [dispatch_ticket]: the error of the answer, empty on success. *)
Definition dispatch_ticket_to_server (ticket_id : string) : SE (site host) string unit :=
  server_call (λ e, "failed to connect for CreateWorkflow: " +:+ e) (λ e, "CreateWorkflow failed: " +:+ e)
    (map_err status_display (zoom (TicketService.dispatch_workflow tickets_self ticket_id "awaiting_dispatch"))) ;;
  server_call (λ e, "failed to connect for WorkerLaunch: " +:+ e) (λ e, "WorkerLaunch failed: " +:+ e)
    (map_err show_rpc (zoom (LaunchService.launch core_self
       (WorkerLaunchRequest.mk ticket_id "" 0 "" "" "" [] "" [] false "" "")))) ;;
  mret tt.
Definition dispatch_ticket (d : daemon) : SE (site host) Empty_set string :=
  match dispatch_ticket_id d with
  | None => mret "No ticket set. Use `ur-workertools workflow set-ticket <id>` first."
  | Some ticket_id =>
      r ← attempt (dispatch_ticket_to_server ticket_id);
      mret match r with Ok _ => EmptyString | Err e => e end
  end.

(** [ContainerExitSink]: the container is left for the server to stop, or ends by itself. *)
Inductive exit_outcome : Type := WaitsForServer | ProcessExits.
Definition self_stop_rpc : SE (site host) string unit :=
  core_request (LaunchService.stop_worker_request core_self (WorkerIdentity.worker_id identity)).
Definition agent_exited : SE (site host) Empty_set exit_outcome :=
  r ← attempt self_stop_rpc;
  mret match r with Ok _ => WaitsForServer | Err _ => ProcessExits end.

(** ** The service at work *)

(** The daemon, the agent's terminal and the server. *)
Record world : Type := World {
  the_site : site host;
  terminal : tmux_world;
  the_daemon : daemon
}.
#[export] Program Instance site_lens : Lens world (site host) := {
  view := the_site; put x w := World x (terminal w) (the_daemon w) }.
Solve All Obligations with by intros; try destruct s.
#[export] Program Instance terminal_lens : Lens world tmux_world := {
  view := terminal; put x w := World (the_site w) x (the_daemon w) }.
Solve All Obligations with by intros; try destruct s.

(** [HOOK_RETURN_GRACE] in milliseconds. *)
Definition HOOK_RETURN_GRACE : Z := 750.
(** A failure to type is logged. *)
Definition type_text (text : string) : SE world Empty_set unit := ignore_err (zoom (Session.send_keys session text)).
(** [send_message] and [set_status_left]: whether it worked, with the error shown. *)
Definition respond {A} (m : SE tmux_world anyhow A) : SE tmux_world Empty_set WorkerdResponse.t :=
  r ← attempt m;
  mret match r with Ok _ => WorkerdResponse.mk true EmptyString | Err e => WorkerdResponse.mk false (anyhow_display e) end.
Definition send_message (message : string) (submit : option bool) : SE tmux_world Empty_set WorkerdResponse.t :=
  respond (if default true submit then Session.send_keys session message else Session.send_keys_no_enter session message).
Definition set_status_left (status_left : string) (status_left_length : Z) : SE tmux_world Empty_set WorkerdResponse.t :=
  respond (when (negb (bool_decide (status_left_length = 0%Z)))
             (Session.set_option session "status-left-length" (pretty status_left_length)) ;;
           Session.set_status_left session status_left).

Definition run_job (j : job) : SE world Empty_set (list job) :=
  match j with
  | FirstCommand text => type_text text ;; mret []
  | DeferredSend text => zoom (T := tmux_world) (modify (tmux_wait HOOK_RETURN_GRACE)) ;; type_text text ;; mret []
  | CheckStalled step =>
      stalled ← zoom (T := site host) is_stalled; mret (if stalled : bool then [] else [DeferredSend (nudge_message step)])
  | ForwardIdle => ignore_err (zoom (T := site host) forward_idle_to_server) ;; mret []
  | SendStepComplete => ignore_err (zoom (T := site host) send_workflow_step_complete) ;; mret []
  | CallDispatch => d ← gets the_daemon; zoom (T := site host) (dispatch_ticket d) ;; mret []
  | TypeMessage message submit => zoom (T := tmux_world) (send_message message submit) ;; mret []
  | LabelSession status_left length => zoom (T := tmux_world) (set_status_left status_left length) ;; mret []
  end.
(** What happens, in any order: a request is served, a job runs, and meanwhile the server
    and the terminal go on. *)
Inductive event : Type :=
| Served (now : Z) (r : request)
| Ran (i : nat)
| ServerMoves (f : site host → site host)
| TerminalMoves (f : tmux_world → tmux_world).
Context (agent : AgentType) (layout : SkillLayout.t).
Definition with_jobs (js : list job) (d : daemon) : daemon := Daemon (buffer d) (dispatch_ticket_id d) js.
Definition happen (e : event) (w : world) : world :=
  match e with
  | Served now r => World (the_site w) (terminal w) (serve agent layout now r (the_daemon w))
  | Ran i =>
      let d := the_daemon w in
      match jobs d !! i with
      | None => w
      | Some j =>
          let r := run_job j (World (the_site w) (terminal w) (with_jobs (delete i (jobs d)) d)) in
          let d' := the_daemon r.2 in
          World (the_site r.2) (terminal r.2)
            (with_jobs (jobs d' ++ match r.1 with Ok js => js | Err _ => [] end) d')
      end
  | ServerMoves f => World (f (the_site w)) (terminal w) (the_daemon w)
  | TerminalMoves f => World (the_site w) (f (terminal w)) (the_daemon w)
  end.
Definition happens (es : list event) (w : world) : world := foldl (λ w e, happen e w) w es.
End Calls.

(** ** The exit watcher *)

Module AgentExitReason.
Inductive t : Type := PaneDead | AgentReturnedToShell | ProbeFailed.
End AgentExitReason.
Module AgentWatchState.
Inductive t : Type := Waiting | Running.
End AgentWatchState.

Definition is_shell_process (name : string) : bool :=
  bool_decide (name ∈ ["bash"; "sh"; "zsh"; "dash"; "fish"]).
Definition advance_agent_watch_state (state : AgentWatchState.t) (foreground : string) : AgentWatchState.t * bool :=
  match state with
  | AgentWatchState.Waiting =>
      (if is_shell_process foreground then AgentWatchState.Waiting else AgentWatchState.Running, false)
  | AgentWatchState.Running => (AgentWatchState.Running, is_shell_process foreground)
  end.

(** What a poll finds: whether the pane is alive, and its foreground process. *)
Record probe : Type := Probe { pane_alive : result bool anyhow; foreground : result string anyhow }.
Definition check_design_worker_exit (fg : result string anyhow) (state : AgentWatchState.t)
    : AgentWatchState.t * option AgentExitReason.t :=
  match fg with
  | Ok foreground =>
      let r := advance_agent_watch_state state foreground in
      (r.1, if r.2 then Some AgentExitReason.AgentReturnedToShell else None)
  | Err _ => (state, Some AgentExitReason.ProbeFailed)
  end.
Definition check (is_design_worker : bool) (p : probe) (state : AgentWatchState.t)
    : AgentWatchState.t * option AgentExitReason.t :=
  match pane_alive p with
  | Ok true => if is_design_worker then check_design_worker_exit (foreground p) state else (state, None)
  | Ok false => (state, Some AgentExitReason.PaneDead)
  | Err _ => (state, Some AgentExitReason.ProbeFailed)
  end.
(** [run] over the polls: the first that finds the agent gone, and the reason given to the
    sink, once; [None] as long as it is not. *)
Fixpoint watch_from (is_design_worker : bool) (n : nat) (state : AgentWatchState.t) (polls : list probe)
    : option (nat * AgentExitReason.t) :=
  match polls with
  | [] => None
  | p :: polls =>
      match check is_design_worker p state with
      | (_, Some reason) => Some (n, reason)
      | (state, None) => watch_from is_design_worker (S n) state polls
      end
  end.
Definition watch (is_design_worker : bool) (polls : list probe) : option (nat * AgentExitReason.t) :=
  watch_from is_design_worker 0 AgentWatchState.Waiting polls.

(** ** Starting up ([main.rs]) *)

Definition MAX_RETRIES : nat := 30.
Definition INITIAL_BACKOFF_MS : Z := 500.
Definition MAX_BACKOFF_MS : Z := 5000.
Definition AGENT_SESSION_NAME : string := "agent".
Definition DESIGN_STRATEGY : string := "design".

(** [fetch_commands_with_retry] over the results of its attempts: the answer of the first
    that succeeds or the last error, and the milliseconds slept between. *)
Fixpoint fetch_from {A} (attempts : nat) (backoff_ms : Z) (results : nat → result A string) (n : nat)
    : result A string * list Z :=
  match results n with
  | Ok commands => (Ok commands, [])
  | Err e =>
      match attempts with
      | 0 => (Err ("exhausted retries fetching command list: " +:+ e), [])
      | S attempts =>
          let r := fetch_from attempts (Z.min (backoff_ms * 2) MAX_BACKOFF_MS) results (S n) in
          (r.1, backoff_ms :: r.2)
      end
  end.
Definition fetch_commands_with_retry {A} (results : nat → result A string) : result A string * list Z :=
  fetch_from (MAX_RETRIES - 1) INITIAL_BACKOFF_MS results 1.
Definition DOLLAR_AT : string := QUOTE +:+ "$@" +:+ QUOTE.
Definition shim_content (command : string) (bidi : bool) : string :=
  "#!/bin/sh" +:+ NEWLINE +:+ "exec ur-workertools host-exec" +:+ (if bidi then " --bidi" else "") +:+ " "
  +:+ command +:+ " " +:+ DOLLAR_AT +:+ NEWLINE.

(** [run_daemon_only] up to the services: the session, its label, and the agent in it. *)
Definition start_agent `{Tmux} (agent : AgentType) (worker_id : string) (model effort : option string)
    : SE tmux_world anyhow Session.t :=
  session ← Session.create (CreateOptions.mk AGENT_SESSION_NAME None None [] (Some 220%Z) (Some 55%Z) true);
  Session.set_option session "status-left-length" "50" ;;
  Session.set_status_left session ("[" +:+ worker_id +:+ "] ") ;;
  Session.send_keys session
    (AgentType.spawn_command agent model (default (AgentType.default_effort agent) effort)) ;;
  mret session.
Definition is_design_worker (strategy : option string) : bool := bool_decide (strategy = Some DESIGN_STRATEGY).
