(* ===== verification/WorkerDaemonProps.v ===== *)
(** * The worker daemon: what it types, tells the server, and when it ends

    A dispatch is typed as two commands and ends in one call of the server, which becomes
    a request to the coordinator; in no order of events does the daemon type or report
    more than it was asked for; the exit watcher ends a container exactly when the agent
    is gone. *)

From S2P Require Import Prelude RustStd TextLemmas Model Env TicketDb TicketRepo WorkflowDb WorkflowRepo WorkerRepo Context Host HandlerLib Agent UrConfig Pool RunOpts WorkerManager LaunchService TicketService CmdRunner TestWorld PoolProps WorkerManagerProps LaunchProps SignalProps ServiceProps Tmux WorkerDaemon.
Local Open Scope stdpp_scope.

(** ** A dispatch from its commands to its report *)

Section Cycle.
Context (agent : AgentType) (layout : SkillLayout.t).
Local Abbreviation serve := (serve agent layout).

Definition serve_all (rs : list (Z * request)) (d : daemon) : daemon := foldl (λ d r, serve r.1 r.2 d) d rs.
Definition clear_of : string := AgentType.clear_command agent.
Definition invocation_of (x : dispatch) : string :=
  AgentType.skill_invocation agent (SkillLayout.qualify (skill_of x).1 layout) (skill_of x).2.

(** What an idle agent gets in the middle of a step, after the requests [before]. *)
Definition pause_time (r : Z * request) : option Z := match r.2 with PauseNudge => Some r.1 | _ => None end.
Definition paused (before : list (Z * request)) (now : Z) : Prop :=
  match last (omap pause_time before) with Some t => (now < t + NUDGE_PAUSE)%Z | None => False end.
#[local] Instance paused_dec before now : Decision (paused before now).
Proof. unfold paused. case_match; apply _. Defined.
Definition idle_answer (x : dispatch) (before : list (Z * request)) (now : Z) : list job :=
  match x with
  | Design _ => [ForwardIdle]
  | _ => if bool_decide (paused before now) then [] else [CheckStalled (lifecycle_of x)]
  end.
(** What any request leaves to do meanwhile. *)
Definition answer_to (x : dispatch) (before : list (Z * request)) (r : Z * request) : list job :=
  match r.2 with
  | NotifyIdle => idle_answer x before r.1
  | DispatchTicket => [CallDispatch]
  | SendMessage message submit => [TypeMessage message submit]
  | SetStatusLeft status_left length => [LabelSession status_left length]
  | _ => []
  end.
Fixpoint idle_answers (x : dispatch) (before rs : list (Z * request)) : list job :=
  match rs with
  | [] => []
  | r :: rs => answer_to x before r ++ idle_answers x (before ++ [r]) rs
  end.
(** Neither a dispatch nor the end of a step. *)
Definition in_between (r : request) : bool := match r with Dispatch _ | StepComplete => false | _ => true end.

Definition in_step (x : dispatch) (before : list (Z * request)) (b : DispatchBuffer.t) : Prop :=
  b = DispatchBuffer.mk [] false (lifecycle_of x)
        match last (omap pause_time before) with Some t => Some (t + NUDGE_PAUSE)%Z | None => None end.
Lemma pause_times_snoc before r : omap pause_time (before ++ [r]) = omap pause_time before ++ option_list (pause_time r).
Proof. rewrite omap_app. f_equal. Qed.
Lemma suppressed_paused before now :
  match match last (omap pause_time before) with Some t => Some (t + NUDGE_PAUSE)%Z | None => None end with
  | Some until => (now <? until)%Z
  | None => false
  end = bool_decide (paused before now).
Proof.
  apply eq_true_iff_eq. rewrite bool_decide_eq_true. unfold paused.
  destruct (last _) as [t|]; [by rewrite Z.ltb_lt|done].
Qed.
Lemma idle_in_step x before b now : in_step x before b → notify_idle now b = (b, idle_answer x before now).
Proof.
  intros ->. unfold notify_idle, idle_answer. cbn [DispatchBuffer.commands DispatchBuffer.step_complete
    DispatchBuffer.lifecycle_step DispatchBuffer.nudge_suppressed_until]. rewrite suppressed_paused.
  by destruct x.
Qed.
Lemma serve_in_between x before r d : in_between r.2 = true → in_step x before (buffer d) →
  let d' := serve r.1 r.2 d in
  in_step x (before ++ [r]) (buffer d')
  ∧ jobs d' = jobs d ++ answer_to x before r.
Proof.
  intros Hr Hb. unfold in_step, answer_to. rewrite pause_times_snoc.
  destruct r as [t [x'| | | |i| |message submit|status_left length]]; try done; cbn [serve fst snd].
  - rewrite (idle_in_step _ _ _ _ Hb). cbn. rewrite app_nil_r. split; [exact Hb|done].
  - unfold pause_nudge. cbn. rewrite Hb, last_snoc. cbn. by rewrite app_nil_r.
  - cbn. rewrite !app_nil_r. split; [exact Hb|done].
  - cbn. rewrite !app_nil_r. split; [exact Hb|done].
  - cbn. rewrite !app_nil_r. split; [exact Hb|done].
  - cbn. rewrite !app_nil_r. split; [exact Hb|done].
Qed.
Lemma serve_all_in_between x rs before d : forallb (λ r, in_between r.2) rs = true → in_step x before (buffer d) →
  let d' := serve_all rs d in in_step x (before ++ rs) (buffer d') ∧ jobs d' = jobs d ++ idle_answers x before rs.
Proof.
  revert before d. induction rs as [|r rs IH]; intros before d; simpl.
  { intros _ Hb. by rewrite !app_nil_r. }
  intros [Hr Hrs]%andb_true_iff Hb. destruct (serve_in_between x before r d Hr Hb) as [Hb' Hj'].
  destruct (IH (before ++ [r]) _ Hrs Hb') as [H1 H2]. rewrite H2, Hj', <-!app_assoc.
  rewrite <-app_assoc in H1. split; [exact H1|done].
Qed.

(** C33: A dispatch from its commands to its report.  Whatever the daemon was doing, a dispatch
    is answered by the command that clears the agent's context, the first idle agent gets the
    skill, and the idle agent after the step is complete is reported to the server, once; in
    between an idle agent is reported as idle when it is designing, left alone for five
    minutes after it asked for a pause, and asked about otherwise, and a message, a label or
    a ticket to dispatch is passed on; then nothing of the dispatch is left. *)
Theorem dispatch_cycle x d t0 t1 t2 t3 mid : forallb (λ r, in_between r.2) mid = true →
  let d' := serve_all ([(t0, Dispatch x); (t1, NotifyIdle)] ++ mid ++ [(t2, StepComplete); (t3, NotifyIdle)]) d in
  jobs d' = jobs d ++ [FirstCommand clear_of; DeferredSend (invocation_of x)] ++ idle_answers x [] mid ++ [SendStepComplete]
  ∧ buffer d' = DispatchBuffer.empty.
Proof.
  intros Hmid. unfold serve_all. rewrite foldl_app. cbn [foldl fst snd]. rewrite foldl_app.
  set (d1 := WorkerDaemon.serve agent layout t1 NotifyIdle _).
  assert (in_step x [] (buffer d1)) as Hb by (by destruct x).
  assert (jobs d1 = jobs d ++ [FirstCommand clear_of; DeferredSend (invocation_of x)]) as Hj.
  { unfold d1. cbn. by rewrite <-app_assoc. }
  destruct (serve_all_in_between x mid [] d1 Hmid Hb) as [Hb' Hj']. unfold serve_all in Hb', Hj'.
  set (d2 := foldl _ d1 mid) in *. unfold in_step in Hb'. cbn. rewrite Hb'. cbn. rewrite app_nil_r, Hj', Hj, <-!app_assoc. done.
Qed.
End Cycle.

(** ** In any order of events *)

Section Orders.
Context {HE : Env} {HG : TicketGraph.PetGraph} {HO : Host} {HP : PoolHost} {HW : WorkerHost} {HL : LaunchHost} {HJ : JoinOrder} {HN : Network}.
Context {HT : Tmux}.
Context (tickets_self : TicketServiceHandler.t) (core_self : LaunchManager.t).
Context (identity : WorkerIdentity.t) (session : Session.t) (invalid_uri : string) (agent : AgentType) (layout : SkillLayout.t).
Local Abbreviation world := (WorkerDaemon.world).
Local Abbreviation happen := (happen tickets_self core_self identity session invalid_uri agent layout).
Local Abbreviation happens := (happens tickets_self core_self identity session invalid_uri agent layout).
Local Abbreviation run_job := (run_job tickets_self core_self identity session invalid_uri).

(** The worker server does not answer [WorkerInfo]: no worker counts as running. *)
Lemma server_call_fails {A} nc f (m : SE (site host) string A) s :
  (∀ s, is_ok (m s).1 = false) → is_ok (server_call identity invalid_uri nc f m s).1 = false.
Proof.
  intros Hm. unfold server_call. destruct (negb _); [done|]. rewrite run_bind.
  set (s1 := Site (the_core s) (the_cancelled s) (the_cancel_receiving s) (the_spawned s) (S (calls s))).
  assert ((next_call : SE (site host) string nat) s = (Ok (calls s), s1)) as -> by reflexivity.
  assert (∀ s, is_ok (checked identity m s).1 = false) as Hc.
  { intros s2. unfold checked. rewrite run_bind. destruct (map_err _ _ s2) as [[[]|e] s3]; [apply Hm|done]. }
  destruct (call_fate _) as [|e|e].
  - rewrite run_map_err. specialize (Hc s1). by destruct (checked identity m s1) as [[a|e] s2].
  - done.
  - rewrite run_bind, run_attempt. done.
Qed.
Lemma is_stalled_always s : (is_stalled identity invalid_uri s).1 = Ok true.
Proof.
  unfold is_stalled. rewrite run_bind, run_attempt. cbn [fst snd].
  assert (is_ok (core_request identity invalid_uri server_worker_info s).1 = false) as H.
  { apply server_call_fails. intros s1. rewrite run_map_err, run_zoom. done. }
  by destruct (core_request identity invalid_uri server_worker_info s) as [[a|e] s1].
Qed.
Lemma run_job_adds_none j w : (run_job j w).1 = Ok [] ∧ the_daemon (run_job j w).2 = the_daemon w.
Proof.
  assert (∀ {S A} (m : SE S Empty_set A) s, ∃ a, (m s).1 = Ok a) as Htotal.
  { intros S A m s. destruct (m s) as [[a|[]] s']. by exists a. }
  destruct j as [text|text|step| | | |message submit|status_left length]; unfold WorkerDaemon.run_job, type_text; rewrite ?run_bind, ?run_ignore_err, ?run_zoom.
  1, 4, 5: done.
  - rewrite run_modify. cbn [fst snd]. by rewrite run_bind, run_ignore_err, run_zoom.
  - destruct (is_stalled identity invalid_uri (view w)) as [r s1] eqn:E.
    pose proof (is_stalled_always (view w)) as H. rewrite E in H. cbn in H. subst r. done.
  - rewrite run_gets, run_bind, run_zoom. destruct (Htotal _ _ (dispatch_ticket tickets_self core_self identity invalid_uri (the_daemon w)) (view w)) as [a E].
    destruct (dispatch_ticket _ _ _ _ _ _) as [r s1]. cbn in E. by subst r.
  - destruct (Htotal _ _ (send_message session message submit) (view w)) as [a E].
    destruct (send_message _ _ _ _) as [r s1]. cbn in E. by subst r.
  - destruct (Htotal _ _ (set_status_left session status_left length) (view w)) as [a E].
    destruct (set_status_left _ _ _ _) as [r s1]. cbn in E. by subst r.
Qed.

(** The requests of a run, and the jobs it ran. *)
Definition served (es : list event) : list request := omap (λ e, match e with Served _ r => Some r | _ => None end) es.
Definition dispatches (rs : list request) : list dispatch := omap (λ r, match r with Dispatch x => Some x | _ => None end) rs.
Definition ran_by (e : event) (w : world) : list job :=
  match e with Ran i => option_list (jobs (the_daemon w) !! i) | _ => [] end.
Fixpoint ran (es : list event) (w : world) : list job :=
  match es with [] => [] | e :: es => ran_by e w ++ ran es (happen e w) end.
Definition count (P : job → bool) (js : list job) : nat := length (filter (λ j, P j = true) js).
Lemma count_app P l l' : count P (l ++ l') = count P l + count P l'.
Proof. unfold count. by rewrite filter_app, length_app. Qed.
Lemma count_delete P js i j : js !! i = Some j → count P js = (if P j then 1 else 0) + count P (delete i js).
Proof.
  intros Hi. rewrite delete_take_drop, <-(take_drop_middle js i j Hi) at 1. rewrite !count_app.
  change (j :: drop (S i) js) with ([j] ++ drop (S i) js). rewrite count_app.
  assert (count P [j] = if P j then 1 else 0) as -> by (unfold count; rewrite filter_cons; case_decide; by destruct (P j)). lia.
Qed.

(** What a run may still do, and what it was asked for, of one kind. *)
Record tally : Type := Tally {
  of_job : job → bool;
  in_buffer : DispatchBuffer.t → nat;
  of_request : request → nat;
  request_tallied : ∀ now r d, in_buffer (buffer (serve agent layout now r d))
    + count of_job (jobs (serve agent layout now r d)) ≤ in_buffer (buffer d) + count of_job (jobs d) + of_request r;
  none_at_first : in_buffer DispatchBuffer.empty = 0
}.
Lemma delete_beyond {A} (l : list A) i : l !! i = None → delete i l = l.
Proof. intros Hi%lookup_ge_None. rewrite delete_take_drop, take_ge, drop_ge, app_nil_r by lia. done. Qed.
Lemma happen_ran i w :
  the_daemon (happen (Ran i) w) = with_jobs (delete i (jobs (the_daemon w))) (the_daemon w).
Proof.
  cbn [WorkerDaemon.happen]. destruct (jobs (the_daemon w) !! i) as [j|] eqn:Hi.
  - match goal with |- context [run_job j ?w1] => destruct (run_job_adds_none j w1) as [Hr Hd] end.
    cbn [the_daemon]. rewrite Hr, Hd, app_nil_r. done.
  - rewrite delete_beyond by done. by destruct (the_daemon w).
Qed.
Lemma happen_tally (t : tally) e w :
  count (of_job t) (ran_by e w) + in_buffer t (buffer (the_daemon (happen e w))) + count (of_job t) (jobs (the_daemon (happen e w)))
  ≤ in_buffer t (buffer (the_daemon w)) + count (of_job t) (jobs (the_daemon w)) + sum_list_with (of_request t) (served [e]).
Proof.
  destruct e as [now r|i|f|f].
  - pose proof (request_tallied t now r (the_daemon w)). cbn in *. lia.
  - rewrite happen_ran. cbn [ran_by]. cbn [with_jobs buffer jobs].
    destruct (jobs (the_daemon w) !! i) as [j|] eqn:Hi; cbn [option_list].
    + rewrite (count_delete _ _ _ _ Hi). rewrite (count_delete _ [j] 0 j) by done. cbn. lia.
    + rewrite delete_beyond by done. cbn. lia.
  - cbn. lia.
  - cbn. lia.
Qed.
Lemma tallied (t : tally) es w :
  count (of_job t) (ran es w) + in_buffer t (buffer (the_daemon (happens es w))) + count (of_job t) (jobs (the_daemon (happens es w)))
  ≤ in_buffer t (buffer (the_daemon w)) + count (of_job t) (jobs (the_daemon w)) + sum_list_with (of_request t) (served es).
Proof.
  revert w. induction es as [|e es IH]; intros w; [cbn; lia|].
  specialize (IH (happen e w)). pose proof (happen_tally t e w) as He.
  change (happens (e :: es) w) with (happens es (happen e w)). cbn [ran]. rewrite count_app.
  assert (served (e :: es) = served [e] ++ served es) as -> by (by destruct e).
  rewrite sum_list_with_app. lia.
Qed.

Definition is_text (text : string) (j : job) : bool :=
  match j with DeferredSend t => bool_decide (t = text) | _ => false end.
Definition is_first (text : string) (j : job) : bool :=
  match j with FirstCommand t => bool_decide (t = text) | _ => false end.
Definition is_message (message : string) (submit : option bool) (j : job) : bool :=
  match j with TypeMessage m s => bool_decide (m = message ∧ s = submit) | _ => false end.
Definition is_report (j : job) : bool := match j with SendStepComplete => true | _ => false end.
Definition invokes (text : string) (r : request) : nat :=
  match r with Dispatch x => if bool_decide (invocation_of agent layout x = text) then 1 else 0 | _ => 0 end.
Definition clears (text : string) (r : request) : nat :=
  match r with Dispatch _ => if bool_decide (clear_of agent = text) then 1 else 0 | _ => 0 end.
Definition sends (message : string) (submit : option bool) (r : request) : nat :=
  match r with SendMessage m s => if bool_decide (m = message ∧ s = submit) then 1 else 0 | _ => 0 end.
Definition completes (r : request) : nat := match r with StepComplete => 1 | _ => 0 end.
Lemma count_nil P : count P [] = 0.
Proof. done. Qed.
Lemma count_one P j : count P [j] = if P j then 1 else 0.
Proof. unfold count. rewrite filter_cons. case_decide; by destruct (P j). Qed.
Lemma count_cons P j js : count P (j :: js) = (if P j then 1 else 0) + count P js.
Proof. change (j :: js) with ([j] ++ js). by rewrite count_app, count_one. Qed.

Lemma idle_mid_step now st su :
  let b := DispatchBuffer.mk [] false st su in
  notify_idle now b = (b, []) ∨ notify_idle now b = (b, [CheckStalled st]) ∨ notify_idle now b = (b, [ForwardIdle]).
Proof.
  unfold notify_idle. cbn. destruct (negb _ && negb _); [|by right; right].
  destruct (match su with Some u => _ | None => _ end); [by left|by right; left].
Qed.
Lemma length_filter_cons (text c : string) cs :
  length (filter (λ c, c = text) (c :: cs)) = (if bool_decide (c = text) then 1 else 0) + length (filter (λ c, c = text) cs).
Proof. rewrite filter_cons. case_bool_decide; case_decide; done. Qed.
(** The three kinds. *)
#[local] Arguments count : simpl never.
Program Definition reports : tally := {|
  of_job := is_report;
  in_buffer b := if DispatchBuffer.step_complete b then 1 else 0;
  of_request := completes |}.
Next Obligation.
  intros now r [[cs sc st su] i js]. destruct r as [x| | | |j| |message submit|status_left length]; cbn [serve leave with_buffer buffer jobs].
  - cbn. rewrite count_app, count_one. cbn. lia.
  - destruct cs as [|c cs]; [|cbn; rewrite count_app, count_one; cbn; lia].
    destruct sc; [cbn; rewrite count_app, count_one; cbn; lia|].
    destruct (idle_mid_step now st su) as [-> | [-> | ->]]; cbn; rewrite ?app_nil_r, ?count_app, ?count_one; cbn; lia.
  - cbn. rewrite app_nil_r. lia.
  - cbn. rewrite app_nil_r. lia.
  - cbn. lia.
  - rewrite count_app, count_one; cbn; lia.
  - rewrite count_app, count_one; cbn; lia.
  - rewrite count_app, count_one; cbn; lia.
Qed.
Next Obligation. done. Qed.
Program Definition texts (text : string) : tally := {|
  of_job := is_text text;
  in_buffer b := length (filter (λ c, c = text) (DispatchBuffer.commands b));
  of_request := invokes text |}.
Next Obligation.
  intros text now r [[cs sc st su] i js]. destruct r as [x| | | |j| |message submit|status_left length]; cbn [serve leave with_buffer buffer jobs].
  - cbn [load commands_of dispatch_commands fst snd buffer DispatchBuffer.commands]. rewrite count_app, count_one. cbn.
    unfold invokes, invocation_of. case_decide as H; rewrite ?bool_decide_true, ?bool_decide_false by done; simpl; lia.
  - destruct cs as [|c cs].
    + destruct sc; [cbn; rewrite count_app, count_one; cbn; lia|].
      destruct (idle_mid_step now st su) as [-> | [-> | ->]]; cbn; rewrite ?app_nil_r, ?count_app, ?count_one; cbn; lia.
    + cbn [notify_idle DispatchBuffer.commands fst snd]. rewrite count_app, count_one, length_filter_cons. cbn [is_text]. lia.
  - cbn. rewrite app_nil_r. lia.
  - cbn. rewrite app_nil_r. lia.
  - cbn. lia.
  - rewrite count_app, count_one; cbn; lia.
  - rewrite count_app, count_one; cbn; lia.
  - rewrite count_app, count_one; cbn; lia.
Qed.
Next Obligation. done. Qed.
Program Definition firsts (text : string) : tally := {|
  of_job := is_first text;
  in_buffer b := 0;
  of_request := clears text |}.
Next Obligation.
  intros text now r [[cs sc st su] i js]. destruct r as [x| | | |j| |message submit|status_left length]; cbn [serve leave with_buffer buffer jobs].
  - cbn [load commands_of dispatch_commands fst snd]. rewrite count_app, count_one. cbn.
    unfold clears, clear_of. case_bool_decide; lia.
  - destruct cs as [|c cs]; [|cbn; rewrite count_app, count_one; cbn; lia].
    destruct sc; [cbn; rewrite count_app, count_one; cbn; lia|].
    destruct (idle_mid_step now st su) as [-> | [-> | ->]]; cbn; rewrite ?app_nil_r, ?count_app, ?count_one; cbn; lia.
  - cbn. rewrite app_nil_r. lia.
  - cbn. rewrite app_nil_r. lia.
  - cbn. lia.
  - rewrite count_app, count_one; cbn; lia.
  - rewrite count_app, count_one; cbn; lia.
  - rewrite count_app, count_one; cbn; lia.
Qed.
Next Obligation. done. Qed.

Program Definition messages (message : string) (submit : option bool) : tally := {|
  of_job := is_message message submit;
  in_buffer b := 0;
  of_request := sends message submit |}.
Next Obligation.
  intros m su0 now r [[cs sc st su] i js]. destruct r as [x| | | |j| |message submit|status_left length]; cbn [serve leave with_buffer buffer jobs].
  - cbn [load commands_of dispatch_commands fst snd]. rewrite count_app, count_one. cbn. lia.
  - destruct cs as [|c cs]; [|cbn; rewrite count_app, count_one; cbn; lia].
    destruct sc; [cbn; rewrite count_app, count_one; cbn; lia|].
    destruct (idle_mid_step now st su) as [-> | [-> | ->]]; cbn; rewrite ?app_nil_r, ?count_app, ?count_one; cbn; lia.
  - cbn. rewrite app_nil_r. lia.
  - cbn. rewrite app_nil_r. lia.
  - cbn. lia.
  - rewrite count_app, count_one; cbn; lia.
  - rewrite count_app, count_one. cbn. case_bool_decide; lia.
  - rewrite count_app, count_one; cbn; lia.
Qed.
Next Obligation. done. Qed.

(** The text a job types, if it types one, and how often a request asks for a text. *)
Definition typed (j : job) : option string :=
  match j with FirstCommand text | DeferredSend text | TypeMessage text _ => Some text | _ => None end.
Definition types (text : string) (j : job) : bool :=
  match typed j with Some t => bool_decide (t = text) | None => false end.
Definition asked (text : string) (r : request) : nat :=
  match r with
  | Dispatch _ => invokes text r + clears text r
  | SendMessage message _ => if bool_decide (message = text) then 1 else 0
  | _ => 0
  end.
Program Definition typings (text : string) : tally := {|
  of_job := types text;
  in_buffer b := length (filter (λ c, c = text) (DispatchBuffer.commands b));
  of_request := asked text |}.
Next Obligation.
  intros text now r [[cs sc st su] i js].
  destruct r as [x| | | |j| |message submit|status_left length]; cbn [serve leave with_buffer buffer jobs].
  - cbn [load commands_of dispatch_commands fst snd buffer DispatchBuffer.commands]. rewrite count_app, count_one.
    cbn [asked types typed]. unfold invokes, invocation_of, clears, clear_of.
    rewrite length_filter_cons. cbn [filter list_filter length]. lia.
  - destruct cs as [|c cs].
    + destruct sc; [cbn; rewrite count_app, count_one; cbn; lia|].
      destruct (idle_mid_step now st su) as [-> | [-> | ->]]; cbn; rewrite ?app_nil_r, ?count_app, ?count_one; cbn; lia.
    + cbn [notify_idle DispatchBuffer.commands fst snd]. rewrite count_app, count_one, length_filter_cons.
      cbn [types typed]. lia.
  - cbn. rewrite app_nil_r. lia.
  - cbn. rewrite app_nil_r. lia.
  - cbn. lia.
  - rewrite count_app, count_one; cbn; lia.
  - rewrite count_app, count_one. cbn. lia.
  - rewrite count_app, count_one; cbn; lia.
Qed.
Next Obligation. done. Qed.
Lemma untyped_terminal j w : typed j = None → (∀ s n, j ≠ LabelSession s n) →
  terminal (run_job j w).2 = terminal w.
Proof.
  destruct w as [si te da]. destruct j as [text|text|step| | | |message submit|status_left length]; intros Hj Hl; try done;
    unfold WorkerDaemon.run_job; rewrite ?run_bind, ?run_ignore_err, ?run_gets, ?run_bind, ?run_zoom; cbn [view site_lens the_site].
  - by destruct (is_stalled identity invalid_uri si) as [[a|[]] s1].
  - by destruct (forward_idle_to_server identity invalid_uri si) as [[a|e] s1].
  - by destruct (send_workflow_step_complete identity invalid_uri si) as [[a|e] s1].
  - cbn [the_daemon]. by destruct (dispatch_ticket tickets_self core_self identity invalid_uri da si) as [[a|[]] s1].
  - by destruct (Hl status_left length).
Qed.


(** The text of an idle agent waits while the next dispatch comes in: the skill of the old
    dispatch is then typed after the context was cleared for the new one. *)
Lemma old_skill_after_new_dispatch a b now w : jobs (the_daemon w) = [] →
  ran [Served now (Dispatch a); Ran 0; Served now NotifyIdle; Served now (Dispatch b); Ran 1; Ran 0] w
  = [FirstCommand (clear_of agent); FirstCommand (clear_of agent); DeferredSend (invocation_of agent layout a)].
Proof.
  intros Hj. cbn [ran ran_by app].
  assert (∀ now r w, the_daemon (happen (Served now r) w) = serve agent layout now r (the_daemon w)) as Hs by done.
  rewrite !Hs, !happen_ran, !Hs, !happen_ran, !Hs. cbn [serve load notify_idle with_buffer with_jobs commands_of dispatch_commands fst snd
    jobs buffer DispatchBuffer.commands]. rewrite !Hj. reflexivity.
Qed.
End Orders.

(** ** From the agent's signal to the coordinator *)

Section Composition.
Context {HE : Env} {HG : TicketGraph.PetGraph} {HO : Host} {HP : PoolHost} {HW : WorkerHost} {HL : LaunchHost} {HJ : JoinOrder} {HN : Network}.
Context {HT : Tmux}.
Context (tickets_self : TicketServiceHandler.t) (core_self : LaunchManager.t) (identity : WorkerIdentity.t) (session : Session.t) (invalid_uri : string).
Context (agent : AgentType) (layout : SkillLayout.t).
Local Abbreviation id := (WorkerIdentity.worker_id identity).
Local Abbreviation secret := (WorkerIdentity.worker_secret identity).
Local Abbreviation site_ctx s := (core_ctx (the_core s)).

(** The worker is one of the server's, the next call is answered, and the server works. *)
Record server_ready (s : site host) : Prop := ServerReady {
  ready_endpoint : endpoint_ok ("http://" +:+ WorkerIdentity.server_addr identity) = true;
  ready_call : call_fate (calls s) = Answered;
  ready_headers : is_ok (metadata_value id) = true ∧ is_ok (metadata_value secret) = true;
  ready_worker : ∃ row, WorkflowTables.worker (tables (workflow_db (site_ctx s))) !! id = Some row
    ∧ WorkerRow.worker_id row = id ∧ WorkerRow.worker_secret row = secret;
  ready_database : faults (workflow_db (site_ctx s)) = [];
  ready_coordinator : receiving (site_ctx s) = true
}.

Lemma auth_registered row t (s : wtables) n h q b cl reg ts :
  WorkflowTables.worker s !! id = Some row → WorkerRow.worker_id row = id → WorkerRow.worker_secret row = secret →
  worker_auth_interceptor (Some (Ok id)) (Some (Ok secret)) (Core (PoolState (Ctx t (Pool s [] n) h q b) cl) reg ts)
  = (Ok tt, Core (PoolState (Ctx t (Pool s [] n) h q b) cl) reg ts).
Proof.
  intros Hr Hi Hs. unfold worker_auth_interceptor. rewrite run_bind. cbn [required_header]. rewrite run_ret, run_bind.
  cbn [required_header]. rewrite run_ret, run_bind. unfold in_ctx. rewrite !run_zoom.
  cbn [view slots_lens pool_ctx_lens slots pool_ctx]. rewrite run_attempt, run_workflows. unfold WorkerRepo.verify_worker.
  rewrite run_bind, run_select. cbn [fst snd]. rewrite run_ret. cbn [fst snd].
  match goal with |- context [length (matching ?P _)] => pose (Q := P); assert (row ∈ matching Q (WorkflowTables.worker s)) as Hin end.
  { apply elem_of_matching. split; [|by eexists]. unfold Q. by rewrite Hi, Hs, !bool_decide_true. }
  fold Q. destruct (matching Q _) as [|row' l]; [by apply not_elem_of_nil in Hin|]. done.
Qed.

Lemma header_sent v : is_ok (metadata_value v) = true → header_of v = Some (Ok v).
Proof. unfold header_of. by destruct (metadata_value v). Qed.
Lemma report_taken s : server_ready s →
  send_workflow_step_complete identity invalid_uri s
  = (Ok tt, Site (Core (slots (the_core s)) (registered (the_core s)) (tasks (the_core s) ++ [LaunchService.StepComplete id]))
              (the_cancelled s) (the_cancel_receiving s) (the_spawned s) (S (calls s))).
Proof.
  destruct s as [[[[t [s fs n] h q b] cl] reg ts] c r sp k].
  intros [He Hf [Hh1 Hh2] (row & Hr & Hi & Hsec) Hd Hrec]. unfold core_ctx in *. cbn in Hf, Hr, Hd, Hrec |- *. subst fs b.
  unfold send_workflow_step_complete, core_request, server_call. rewrite He. cbn [negb]. rewrite run_bind.
  match goal with |- context [next_call ?s0] =>
    change (next_call s0) with (Ok (E := string) k, Site (the_core s0) c r sp (S k)) end.
  cbn [the_core]. rewrite Hf, run_map_err. unfold checked. rewrite run_bind, run_map_err, run_zoom.
  unfold worker_header, secret_header. rewrite !header_sent by done. cbn [view core_lens the_core].
  rewrite (auth_registered row) by done. cbn [fst snd put core_lens the_cancelled the_cancel_receiving the_spawned calls].
  rewrite run_map_err, run_zoom. reflexivity.
Qed.

(** C31: A completed step reaches the coordinator.  When the agent of a registered worker has
    completed its step and becomes idle, the daemon's call is let in by the server, and the
    server's task asks the coordinator, once, for the status that the workflow of the
    worker's ticket leads to from where it is; the daemon is then without a dispatch, and
    its call has changed no table of the server. *)
Theorem step_reaches_coordinator now between (w : world) :
  DispatchBuffer.commands (buffer (the_daemon w)) = [] → DispatchBuffer.step_complete (buffer (the_daemon w)) = true →
  server_ready (the_site w) →
  let x := site_ctx (the_site w) in
  let es := [Served now NotifyIdle; Ran (length (jobs (the_daemon w)))] in
  let w' := happens tickets_self core_self identity session invalid_uri agent layout es w in
  jobs (the_daemon w') = jobs (the_daemon w) ∧ DispatchBuffer.step_complete (buffer (the_daemon w')) = false
  ∧ tasks (the_core (the_site w')) = tasks (the_core (the_site w)) ++ [LaunchService.StepComplete id]
  ∧ tables (workflow_db (site_ctx (the_site w'))) = tables (workflow_db x) ∧ ticket_db (site_ctx (the_site w')) = ticket_db x
  ∧ sent (task_body core_self (LaunchService.StepComplete id) between (site_ctx (the_site w'))).2
    = sent x ++ option_list (step_request id (tables (workflow_db x))).
Proof.
  destruct w as [st term [buf tk js]]. cbn [the_daemon buffer jobs the_site]. intros Hc Hs Hready.
  cbn zeta. unfold WorkerDaemon.happens. cbn [foldl WorkerDaemon.happen the_daemon the_site terminal serve buffer].
  unfold notify_idle. rewrite Hc, Hs. cbn [with_buffer fst snd jobs buffer dispatch_ticket_id].
  rewrite list_lookup_middle, delete_middle, app_nil_r by done. cbn [WorkerDaemon.run_job].
  rewrite run_bind, run_ignore_err, run_zoom. cbn [view site_lens the_site]. rewrite report_taken by done.
  rewrite run_ret. cbn [fst snd put site_lens the_daemon with_jobs jobs buffer terminal dispatch_ticket_id
    DispatchBuffer.step_complete the_site the_core tasks slots].
  rewrite app_nil_r. destruct Hready as [_ _ _ _ Hd Hrec].
  destruct st as [[[[t [s fs n] h q b] cl] reg ts] c r sp k]. unfold core_ctx in *. cbn in Hd, Hrec. subst fs b.
  split_and!; try reflexivity. cbn [task_body the_core slots pool_ctx]. apply step_sent.
Qed.
End Composition.

(** ** When the container ends *)

Section Exit.
(** The agent is gone at poll [n]: its pane is dead or cannot be asked; or, in a design worker,
    the foreground process is a shell after it was once something else. *)
Definition foreground_at (polls : list probe) (m : nat) (fg : string) : Prop :=
  ∃ p, polls !! m = Some p ∧ pane_alive p = Ok true ∧ foreground p = Ok fg.
Definition gone_at (design : bool) (polls : list probe) (n : nat) (p : probe) (reason : AgentExitReason.t) : Prop :=
  match pane_alive p with
  | Err _ => reason = AgentExitReason.ProbeFailed
  | Ok false => reason = AgentExitReason.PaneDead
  | Ok true => design = true ∧
      match foreground p with
      | Err _ => reason = AgentExitReason.ProbeFailed
      | Ok fg => is_shell_process fg = true ∧ reason = AgentExitReason.AgentReturnedToShell
          ∧ ∃ m fg', m < n ∧ foreground_at polls m fg' ∧ is_shell_process fg' = false
      end
  end.
Definition gone (design : bool) (polls : list probe) (n : nat) (reason : AgentExitReason.t) : Prop :=
  ∃ p, polls !! n = Some p ∧ gone_at design polls n p reason.
Definition ran_before (polls : list probe) (n : nat) : Prop :=
  ∃ m fg, m < n ∧ foreground_at polls m fg ∧ is_shell_process fg = false.
(** The watcher's state tells whether the agent ran. *)
Definition knows (design : bool) (polls : list probe) (n : nat) (st : AgentWatchState.t) : Prop :=
  design = true → (st = AgentWatchState.Running ↔ ran_before polls n).

Lemma ran_before_S polls n : ran_before polls (S n)
  ↔ ran_before polls n ∨ ∃ fg, foreground_at polls n fg ∧ is_shell_process fg = false.
Proof.
  split.
  - intros (m & fg & Hm & Hf & Hs). destruct (decide (m = n)) as [->|]; [right; by exists fg|].
    left. exists m, fg. split_and!; [lia|done..].
  - intros [(m & fg & Hm & Hf & Hs)|(fg & Hf & Hs)]; [exists m, fg|exists n, fg]; split_and!; try done; lia.
Qed.
Lemma check_gone design polls n p st : polls !! n = Some p → knows design polls n st →
  match check design p st with
  | (_, Some reason) => ∀ r, gone design polls n r ↔ r = reason
  | (st', None) => (∀ r, ¬ gone design polls n r) ∧ knows design polls (S n) st'
  end.
Proof.
  intros Hp Hk. unfold check.
  assert (∀ r, gone design polls n r ↔ gone_at design polls n p r) as Hg.
  { intros r. unfold gone. rewrite Hp. split; [intros (p' & [= <-] & H); exact H|intros H; by exists p]. }
  unfold gone_at in Hg.
  assert (∀ fg, foreground_at polls n fg ↔ pane_alive p = Ok true ∧ foreground p = Ok fg) as Hfg.
  { intros fg. unfold foreground_at. rewrite Hp. split; [by intros (p' & [= <-] & ?)|intros; by exists p]. }
  destruct (pane_alive p) as [[]|e]; [|by intros r; rewrite Hg..].
  destruct design; [|split; [intros r; rewrite Hg; by intros []|done]].
  unfold check_design_worker_exit. specialize (Hk eq_refl).
  destruct (foreground p) as [fg|e]; [|intros r; rewrite Hg; naive_solver].
  destruct st; cbn; destruct (is_shell_process fg) eqn:Es; cbn.
  - split.
    + intros r. rewrite Hg. intros (_ & _ & _ & Hr). by apply Hk in Hr.
    + intros _. rewrite ran_before_S, <-Hk. split; [done|]. intros [|(fg' & Hf & Hs)]; [done|].
      apply Hfg in Hf as [_ [= <-]]. congruence.
  - split; [intros r; rewrite Hg; naive_solver|]. intros _. rewrite ran_before_S. split; [|done]. intros _. right. exists fg.
    by rewrite Hfg.
  - intros r. rewrite Hg. split; [naive_solver|]. intros ->. split_and!; try done. by apply Hk.
  - split; [intros r; rewrite Hg; naive_solver|]. intros _. rewrite ran_before_S. split; [|done]. intros _. left. by apply Hk.
Qed.
Lemma watch_from_spec design before polls st :
  knows design (before ++ polls) (length before) st →
  match watch_from design (length before) st polls with
  | Some (n, reason) => length before ≤ n ∧ gone design (before ++ polls) n reason
      ∧ ∀ m r, length before ≤ m → m < n → ¬ gone design (before ++ polls) m r
  | None => ∀ m r, length before ≤ m → ¬ gone design (before ++ polls) m r
  end.
Proof.
  revert before st. induction polls as [|p polls IH]; intros before st Hk; cbn [watch_from].
  { intros m r Hm (p & Hp & _). apply lookup_lt_Some in Hp. rewrite app_nil_r in Hp. lia. }
  pose proof (check_gone design (before ++ p :: polls) (length before) p st ltac:(by apply list_lookup_middle) Hk) as H.
  destruct (check design p st) as [st' [reason|]].
  - split_and!; [lia|by apply H|lia].
  - destruct H as [Hn Hk']. specialize (IH (before ++ [p]) st'). rewrite length_app, <-app_assoc, Nat.add_1_r in IH.
    specialize (IH Hk'). destruct (watch_from design (S (length before)) st' polls) as [[n reason]|].
    + destruct IH as (H1 & H2 & H3). split_and!; [lia|done|]. intros m r Hm Hmn.
      destruct (decide (m = length before)) as [->|]; [apply Hn|apply H3; lia].
    + intros m r Hm. destruct (decide (m = length before)) as [->|]; [apply Hn|apply IH; lia].
Qed.

(** C34: The exit watcher reports the first poll at which the agent is gone, and why, and
    nothing as long as it is there: a dead pane, a pane that cannot be asked, or in a design
    worker a shell in the foreground after the agent was seen there. *)
Theorem watch_spec design polls :
  (∀ n reason, watch design polls = Some (n, reason)
    ↔ gone design polls n reason ∧ ∀ m r, m < n → ¬ gone design polls m r)
  ∧ (watch design polls = None ↔ ∀ m r, ¬ gone design polls m r).
Proof.
  assert (knows design ([] ++ polls) (length (@nil probe)) AgentWatchState.Waiting) as Hk.
  { intros _. split; [done|]. intros (m & fg & Hm & _). simpl in Hm. lia. }
  pose proof (watch_from_spec design [] polls AgentWatchState.Waiting Hk) as H. cbn [app length] in H.
  change (watch_from design 0 AgentWatchState.Waiting polls) with (watch design polls) in H.
  destruct (watch design polls) as [[n0 reason0]|].
  - destruct H as (_ & Hg & Hm). split.
    + intros n reason. split; [intros [= <- <-]; split; [done|]; intros; apply Hm; lia|].
      intros [Hg' Hm']. destruct (lt_eq_lt_dec n n0) as [[Hlt| ->]|Hlt].
      * by destruct (Hm n reason ltac:(lia) Hlt).
      * f_equal. f_equal. destruct Hg as (p & Hp & Hg), Hg' as (p' & Hp' & Hg'). rewrite Hp in Hp'. injection Hp' as <-. unfold gone_at in Hg, Hg'.
        destruct (pane_alive p) as [[]|]; [|congruence..]. destruct Hg as [_ Hg], Hg' as [_ Hg'].
        destruct (foreground p); [|congruence]. destruct Hg as (_ & -> & _), Hg' as (_ & -> & _). done.
      * by destruct (Hm' n0 reason0 Hlt).
    + split; [done|]. intros Hn. by destruct (Hn n0 reason0).
  - split; [|split; [intros _ m r; apply H; lia|done]]. intros n reason. split; [done|]. intros [Hg _].
    by destruct (H n reason ltac:(lia)).
Qed.

(** An agent that starts and ends between two polls is never noticed: the container of a
    design worker stays. *)
Lemma quick_agent_unnoticed polls : Forall (λ p, pane_alive p = Ok true ∧ foreground p = Ok "bash") polls →
  watch true polls = None.
Proof.
  unfold watch. generalize 0. intros n H. revert n.
  induction H as [|[a fg] polls [Ha Hf] _ IH]; intros n; cbn in *; subst; [done|apply IH].
Qed.

(** The answer of the first attempt that succeeds, with a pause of at most five seconds
    between two. *)
Lemma fetch_from_spec {A} (results : nat → result A string) attempts backoff n : (0 <= backoff <= MAX_BACKOFF_MS)%Z →
  let r := fetch_from attempts backoff results n in
  (∀ a, r.1 = Ok a ↔ ∃ k, k ≤ attempts ∧ results (n + k) = Ok a ∧ ∀ j, j < k → is_ok (results (n + j)) = false)
  ∧ length r.2 ≤ attempts ∧ Forall (λ ms, (0 <= ms <= MAX_BACKOFF_MS)%Z) r.2.
Proof.
  revert backoff n. induction attempts as [|attempts IH]; intros backoff n Hb; cbn [fetch_from];
    destruct (results n) as [a|e] eqn:En; cbn [fst snd length].
  - split_and!; [|lia|constructor]. intros a'. split; [intros [= <-]; exists 0; rewrite Nat.add_0_r; split_and!; [done..|lia]|].
    intros (k & Hk & Hr & Hj). replace k with 0 in Hr by lia. rewrite Nat.add_0_r in Hr. congruence.
  - split_and!; [|lia|constructor]. intros a'. split; [done|]. intros (k & Hk & Hr & Hj).
    replace k with 0 in Hr by lia. rewrite Nat.add_0_r in Hr. congruence.
  - split_and!; [|lia|constructor]. intros a'. split; [intros [= <-]; exists 0; rewrite Nat.add_0_r; split_and!; [lia|done|lia]|].
    intros (k & Hk & Hr & Hj). destruct k as [|k]; [rewrite Nat.add_0_r in Hr; congruence|].
    specialize (Hj 0 ltac:(lia)). rewrite Nat.add_0_r, En in Hj. done.
  - destruct (IH (Z.min (backoff * 2) MAX_BACKOFF_MS) (S n)) as (H1 & H2 & H3); [unfold MAX_BACKOFF_MS in *; lia|].
    split_and!; [|lia|by constructor]. intros a'. rewrite H1. split.
    + intros (k & Hk & Hr & Hj). exists (S k). rewrite Nat.add_succ_r. split_and!; [lia|done|].
      intros [|j] Hj'; [by rewrite Nat.add_0_r, En|]. rewrite Nat.add_succ_r. apply Hj. lia.
    + intros (k & Hk & Hr & Hj). destruct k as [|k]; [rewrite Nat.add_0_r in Hr; congruence|]. rewrite Nat.add_succ_r in Hr.
      exists k. split_and!; [lia|done|]. intros j Hj'. specialize (Hj (S j) ltac:(lia)). by rewrite Nat.add_succ_r in Hj.
Qed.
End Exit.

(** ** Witnesses *)

#[local] Instance steady : Network := {|
  call_fate _ := Answered; status_display := Status.message; died_display := "task died" |}.
Definition sample_identity : WorkerIdentity.t := WorkerIdentity.mk "ur-server:50051" "w1" "secret".
Definition sample_mid : list (Z * request) := [(10, NotifyIdle); (20, PauseNudge); (30, NotifyIdle); (400000, NotifyIdle)]%Z.
Lemma dispatch_cycle_witness :
  jobs (serve_all AgentType.Claude SkillLayout.AgentHome
    ([(0, Dispatch (Implement "ur-1")); (1, NotifyIdle)] ++ sample_mid ++ [(2, StepComplete); (3, NotifyIdle)])%Z new_daemon)
  = [FirstCommand "/clear"; DeferredSend "/implement ur-1"; CheckStalled "implementing"; CheckStalled "implementing"; SendStepComplete].
Proof.
  destruct (dispatch_cycle AgentType.Claude SkillLayout.AgentHome (Implement "ur-1") new_daemon 0 1 2 3 sample_mid eq_refl) as [H _].
  rewrite H. vm_compute. reflexivity.
Defined.

(** The agent of [w1] has completed its step. *)
Definition sample_world : @WorkerDaemon.world test_host small_tmux :=
  @WorkerDaemon.World test_host small_tmux (Site (launch_core (launch_ctx implementing_tables)) [] true [] 0)
    (SmallAgent "" [] 0) (Daemon (DispatchBuffer.mk [] true "implementing" None) None [ForwardIdle]).
Lemma sample_ready : @server_ready test_host steady sample_identity (the_site sample_world).
Proof. constructor; try reflexivity; [by split|]. eexists. by split_and!. Qed.
Lemma step_reaches_coordinator_witness :
  let w' := @happens test_env test_host test_pool test_workers test_files LaunchProps.in_order steady small_tmux
    full_handler test_launcher sample_identity Session.agent "" AgentType.Claude
    SkillLayout.AgentHome [Served 0 NotifyIdle; Ran 1] sample_world in
  jobs (the_daemon w') = [ForwardIdle]
  ∧ sent (@task_body test_env test_host test_launcher (LaunchService.StepComplete "w1") [] (core_ctx (the_core (the_site w')))).2
    = [TransitionRequest.mk "ur-1" LifecycleStatus.Verifying].
Proof.
  destruct (@step_reaches_coordinator test_env test_host test_pool test_workers test_files LaunchProps.in_order steady small_tmux
    full_handler test_launcher sample_identity Session.agent ""
    AgentType.Claude SkillLayout.AgentHome 0 [] sample_world eq_refl eq_refl sample_ready) as (H1 & _ & _ & _ & _ & H2).
  split; [exact H1|]. refine (eq_trans H2 _). vm_compute. reflexivity.
Defined.
